(* ===== verification/_CoqProject ===== *)
-Q . S2P
Prelude.v
RingBuffer.v
RingBufferThreads.v
JSList.v
Engine.v
Transport.v
TransportCycle.v
Events.v
Graph.v
GraphInv.v
Acyclic.v
Connect.v
GraphFrame.v
Ports.v
PortsInv.v
Buffers.v
PortRuns.v
Clients.v
ClientsInv.v
Frames.v
Lifecycle.v
Removal.v
Activation.v
Creation.v
Requests.v
ServerOps.v
RequestsInv.v
Cycle.v
Chain.v
CycleOrder.v
CycleInv.v
Server.v
ServerRun.v
CycleRun.v
Wakeups.v
ChainThreads.v
Bytes.v
MidiPort.v
MidiMix.v
Shm.v
NetPacket.v
NetFragments.v
NetCache.v
NetMidi.v
NetWait.v
RawMidi.v
RawMidiPort.v
ClientPorts.v
ClientEvents.v
ClientMirror.v
ClientServer.v
ClientView.v
ClientRequests.v
ClientRun.v
Jackctl.v
Patchbay.v
PatchbayView.v
PatchbayRun.v
Settings.v
SettingsInv.v
SettingsLoad.v
SettingsRestore.v
SettingsFile.v
Configure.v
ConfigureInv.v
ConfigureRun.v
ConfigureSession.v
Control.v
Drivers.v
MessageBuffer.v
BitSet.v
