(* ===== verification/Prelude.v ===== *)
(** * A verification of the JACK audio server

    JACK connects audio programs: clients register ports, ports are connected,
    and once per period the server runs all clients in an order in which data
    flow from one to the next.  This library models the core of the server
    (src/server/engine.c, clientengine.c, transengine.c), the client library
    (src/libjack/client.c, port.c, transclient.c), and the self-contained parts of the library (ring buffer,
    linked list, MIDI ports, shared memory registry) and of two drivers (packets of
    netjack, raw MIDI), and proves what makes them correct.

    ** The parts of the program and where they are modelled

    The whole state of the server is the record [engine] of Engine.v, the
    [jack_engine_t] of src/jack/engine.h with the control block shared with
    clients ([transport_control]); clients and connections are heap blocks in
    finite maps, referred to by pointers in lists, ports a table.  Each function
    of the source is a function on [engine], named as in the source.  System
    calls and answers of other processes come from an [environment] (Engine.v),
    a [client_world] (Clients.v), a [request_world] (Requests.v) or a
    [cycle_world] (Cycle.v), which theorems quantify over; [None] stands for
    undefined behaviour or for a loop that does not end.  A sort of the graph while
    no driver is attached follows a null pointer; it sets [crashed], and such a state
    takes no further step.

    - RingBuffer.v, RingBufferThreads.v: src/libjack/ringbuffer.c; the
      operations on 64-bit indices, then the memory accesses of a writing and a
      reading thread as interleaved steps.
    - JSList.v: src/jack/jslist.h on a heap of nodes, with the pure list
      functions the rest of the model uses in their place.
    - Engine.v: the data of src/jack/internal.h, engine.h, port.h, transport.h.
    - Transport.v, TransportCycle.v: src/server/transengine.c and
      src/libjack/transclient.c; the step relation [tstep] and its invariant, then
      what a cycle does to the transport.
    - Events.v: [jack_deliver_event] and the notifications of engine.c.
    - Graph.v (definitions), GraphInv.v (the invariant [graph_inv], feeds
      relations), Acyclic.v, Connect.v, GraphFrame.v: connecting and
      disconnecting, sorting, feedback connections, latencies and the
      renumbering of the execution chain (engine.c).
    - Ports.v, PortsInv.v, Buffers.v: ports, port buffers and their segments
      (engine.c).  PortRuns.v: sequences of registrations and changes of the
      buffer size.
    - Clients.v, ClientsInv.v: src/server/clientengine.c.  Frames.v, Lifecycle.v,
      Removal.v, Activation.v, Creation.v: what removal, activation and creation
      of clients keep; [engine_inv] (Removal.v) is the invariant of the engine.
    - Requests.v, RequestsInv.v: [do_request] of engine.c with sessions and
      freewheeling; ServerOps.v: the requests one by one.
    - Cycle.v: one period: [jack_run_one_cycle], [jack_engine_process] and what
      they call, with the process thread of a client (src/libjack/client.c); a client that
      hangs may go on after the poll has given up ([resumption]).
      Chain.v: the places [jack_rechain_graph] gives to clients.  CycleOrder.v:
      the order of a cycle.  CycleInv.v: cycles and the invariant, late clients.
      Wakeups.v: the loop of [jack_run_cycle] over the periods of a wake-up.
      ChainThreads.v: the clients of a subgraph as concurrent processes.
    - Server.v: the start of a server and everything that happens to it as one
      relation [server_step] over the actions [perform] carries out; [lawful] says what
      the code leaves to malloc and to clients.  ServerRun.v, CycleRun.v: a concrete run, at whose
      states the theorems are applied.
    - ClientPorts.v (src/libjack/port.c), ClientEvents.v (how client.c handles the
      events of the server), ClientRequests.v (what it asks the server for): the
      process of a client, with the record [lib] for its [jack_client_t], its heap
      and the shared memory it sees.  ClientMirror.v: the invariant [mirror] and
      that events keep it; ClientServer.v: the notifications of the server are events
      of the kind it expects; ClientView.v: what a client can rely on;
      ClientRun.v: a concrete client.
    - Jackctl.v: the graph that src/server/jackctl.c keeps of the engine, and the
      D-Bus patchbay on top of it (src/server/jackcontroller_iface_patchbay.c), on a
      heap of blocks.  Patchbay.v: the invariant [rep] and what the notifications of the
      engine do; PatchbayView.v: the answers on D-Bus; PatchbayRun.v: a
      concrete run.
    - Settings.v: the parameters of the server and the drivers (src/server/jackctl.c,
      jackcontroller.c) and their settings file (jackcontroller_xml.c,
      jackcontroller_xml_expat.c, jackcontroller_xml_write_raw.c): the text that is
      written, and the callbacks on the elements and pieces of text a parser finds.
      SettingsInv.v: values as text, the list of a driver;
      SettingsLoad.v: text in pieces, one element; SettingsRestore.v: loading the elements of
      a file; SettingsFile.v: what a parser makes of the text.  The parser is a
      parameter; it is assumed to read documents of plain text ([reads_plain_text]), which
      a small parser there does.
    - Configure.v: the methods of src/server/jackcontroller_iface_configure.c.
      ConfigureInv.v: what is visible of the settings and how a request changes it;
      ConfigureRun.v: what is read after a change; ConfigureSession.v: requests and
      restarts as the relation [session].  Control.v: jackcontroller_iface_control.c.
    - Drivers.v: the master and the slave drivers of engine.c as a log of calls.
    - MessageBuffer.v: src/libjack/messagebuffer.c, the steps of its threads.
    - BitSet.v: src/jack/bitset.h.
    - Bytes.v, MidiPort.v, MidiMix.v: src/libjack/midiport.c on the bytes of a
      buffer.
    - Shm.v: src/libjack/shm.c, the registry of servers and shared memory
      segments, as computations of a process on what the kernel keeps.
    - NetPacket.v (definitions), NetFragments.v, NetCache.v, NetMidi.v:
      src/drivers/netjack/netjack_packet.c: how packets are cut into datagrams
      and put together again, and how MIDI travels in them.  The network is a
      list of datagrams, the C heap a parameter.  NetWait.v: netjack_wait of
      src/drivers/netjack/netjack.c, what the driver does once per period; the
      clock and the datagrams that come before the deadline are a parameter.
    - RawMidi.v: src/drivers/alsa-midi/midi_unpack.h and midi_pack.h, the parser
      and the packer of MIDI byte streams.  RawMidiPort.v: the ports of
      src/drivers/alsa-midi/alsa_rawmidi.c, on top of RingBuffer.v, MidiPort.v
      and RawMidi.v; the device is a parameter.

    The parts call each other as in the source: requests (Requests.v) call
    clients, ports, graph and transport; these call event delivery; a cycle
    uses the chain the graph has laid out and ends with the transport.  The
    classes [FinishOk] (Lifecycle.v), [WorldOk] (RequestsInv.v) and [ChainEnv]
    (Chain.v) say what the engine relies on from code that is loaded at run time
    and from the kernel; each has an instance.

    ** What is shown

    - The server: [server_invariant] says that in every state reached by lawful steps the
      graph, its feeds lists, ports, buffers, sync and timebase bookkeeping,
      zombies and ids are consistent.  The theorems on single operations
      ([connect_correct], [register_correct], [activate_correct],
      [create_correct], [remove_client_correct], ...) give the effect on every
      branch; [port_buffers_disjoint] the buffers after any sequence of registrations; [unknown_client_refused] the requests that name no client.
    - Cycles: [cycle_in_order] (every client exactly once, in order, unless an idle
      internal client lies inside a chain),
      [chain_threads_in_order] and [chain_threads_complete] (the same for every
      interleaving of a chain, without deadlock), [cycle_ends], [wakeup_ends],
      [late_client_stops_cycles].
    - Graph: [check_acyclic_correct], [feeds_transitive_correct] (the recursion
      computes the transitive closure), [sort_drivers_first].
    - Transport: the asserts of the polling loops hold, the cycle moves the
      transport as the automaton [next_state] says, a starting transport rolls
      within its timeout, a located position takes effect.
    - Libraries: the ring buffer refines a bounded queue, also between two
      threads; the list sort on nodes refines the pure one; MIDI events are
      read back as written, and the mixdown is the merge by time; a bit set refines a
      finite set ([bitset_refines_set]); the message buffer prints in order
      ([messages_in_order]).
    - Drivers: [drivers_start_correct], [use_driver_correct].
    - Clients: [connections_mirrored] (a client knows its connections, and no
      event leads the library to a bad pointer), [told_legal] (the events of the server are
      of the right kind), [input_buffer_correct] (the buffers
      it works on), [audio_mixdown_correct] (the sums in a mix buffer), [latency_callback_correct], [request_monitor_correct],
      [register_port_mirrored], [session_notify_complete].
    - Control: [patchbay_mirrors_server] (a query on D-Bus shows exactly the graph the
      engine announced), [connect_by_id_correct], [server_stop_correct];
      [set_get_correct] and [reset_get_correct] (a parameter that is set or reset reads
      so under all its addresses, the others are as before), [save_is_document] and
      [settings_roundtrip] (after any requests with plain strings and restarts the file
      gives back all settings),
      [signals_tell_state].
    - Shared memory: [shmalloc_correct] and [shmalloc_destroy] (an allocated
      segment has an entry and a name of its own and can be given back),
      [cleanup_correct] (only what the dead and this process own is removed),
      [register_server_correct] (who gets a name and what the others are told),
      [server_initialize_correct], [release_copy_harmless].
    - netjack: [packets_reassembled] (what is sent is received, whatever the
      order of the datagrams), [next_available_correct], [net_midi_roundtrip],
      [wait_correct] (a period ends, and has data just if the driver points to the packet it
      expects), [gap_reported] (a gap of lost periods is returned in full),
      [silent_master_forgotten].
    - Raw MIDI: [unpack_all] (the parser is safe on every stream),
      [stream_roundtrip] and [stream_delivered], [jack_input_complete],
      [jack_output_packs] and [midi_output_in_order] (the two rings of a port
      stay in step, nothing is lost, reordered or sent before it is due).
    - Where the code does not do what it means to, a theorem shows it:
      [idle_internal_client_runs_twice], [session_request_ends_pending],
      [driver_disconnect_blocks_acyclic], [sort_order_violated],
      [max_size_event_corrupted], [ringbuffer_create_overflow],
      [register_keeps_lock], [initialize_shm_twice], [first_fragment_overflows],
      [long_sysex_truncated], [stray_end_breaks_running_status],
      [unregistered_port_overwritten], [tie_without_effect],
      [session_notify_overruns], [empty_name_matches], [zero_buffer_size_hangs],
      [stop_leaves_connections], [announced_twice_stays], [renamed_port_stays],
      [out_of_memory_crashes], [reset_keeps_driver_parameter],
      [longest_string_not_loaded], [null_character_not_restored],
      [unescaped_text_collides], [unescaped_string_changes_settings], [no_memory_no_value],
      [no_driver_crashes], [start_failure_not_reported], [messages_vanish],
      [first_signal_lost], [thread_init_returns_early], [delete_forgets_slaves], [bitset_size_wraps].

    ** Bounds and fuel

    Recursions that are not structural take fuel that is shown to be enough:
    the number of clients for [jack_client_feeds_transitive], the number of
    clients plus two for the loop of [jack_check_acyclic], (n+1)^2 for the walk
    that removes clients while the list is re-sorted, 100 for the search of a
    free name, the number of buffers plus one for the offsets and the free list
    of a segment, the length of the list for sorting and for the loops over
    clients, the number of clients plus one for the byte that runs along a
    chain, the number of queued heads plus one for the loops over the rings of a
    MIDI port, two for the recursions over the structures of ports, the number of
    frames for the periods of a wake-up.  The wait of netjack takes as many polls as the
    clock needs to reach the deadline, which is a hypothesis on its clock.  Machine integers are [Z] with their wrap-around written out ([u32],
    [u64], [s32], ...).

    ** Not modelled

    Floating point: CPU load, delay statistics, the frame timer, samples and
    their conversion (drivers/alsa/memops.c, simd.c); the addition of samples in the
    audio mixdown is a parameter.  Input and
    output: sockets and the poll loop of the server thread, opening and closing
    clients, the mapping of
    shared memory and its System V variant, shutdown, the watchdog, the access of
    drivers to devices and of netjack to the network (the samples it reads and
    writes are floating point too), the XML parser and the
    dispatch of D-Bus messages, the second control API (controlapi.c) and the command line tools.  Locks: a request or a cycle is
    atomic, as the request and graph locks make it; failed try-locks of a cycle
    are in the model. *)

From stdpp Require Export base numbers list list_numbers gmap strings sorting.
From Stdlib Require Export ZArith Lia.

Local Open Scope Z_scope.

(** ** C integers

    A C unsigned integer of width [w] is a [Z] in [0, 2^w); every operation
    of the source that can leave this range is followed by [wrap]. *)

Definition wrap (w z : Z) : Z := z mod 2 ^ w.

Abbreviation u8 := (wrap 8).
Abbreviation u16 := (wrap 16).
Abbreviation u32 := (wrap 32).
Abbreviation u64 := (wrap 64).

(** Two's complement reading of the low [w] bits. *)
Definition swrap (w z : Z) : Z := (z + 2 ^ (w - 1)) mod 2 ^ w - 2 ^ (w - 1).

Abbreviation s32 := (swrap 32).

Lemma wrap_small (w z : Z) : 0 <= z < 2 ^ w -> wrap w z = z.
Proof. apply Z.mod_small. Qed.

Lemma wrap_bound (w z : Z) : 0 <= w -> 0 <= wrap w z < 2 ^ w.
Proof. intros. apply Z.mod_pos_bound. lia. Qed.

Lemma swrap_small (w z : Z) :
  0 < w -> - 2 ^ (w - 1) <= z < 2 ^ (w - 1) -> swrap w z = z.
Proof.
  intros Hw Hz. unfold swrap.
  assert (2 ^ w = 2 * 2 ^ (w - 1)) by (rewrite <- Z.pow_succ_r by lia; f_equal; lia).
  rewrite Z.mod_small; lia.
Qed.

(** Masking with [2^k - 1] is reduction modulo [2^k]. *)
Lemma land_mask (k z : Z) : 0 <= k -> Z.land z (2 ^ k - 1) = z mod 2 ^ k.
Proof.
  intros. replace (2 ^ k - 1) with (Z.ones k) by (rewrite Z.ones_equiv; lia).
  by apply Z.land_ones.
Qed.

Lemma mod_once (a n : Z) : 0 < n -> n <= a < 2 * n -> a mod n = a - n.
Proof. intros. symmetry. apply (Z.mod_unique_pos a n 1); lia. Qed.

Lemma mod_neg_once (a n : Z) : 0 < n -> - n <= a < 0 -> a mod n = a + n.
Proof. intros. symmetry. apply (Z.mod_unique_pos a n (-1)); lia. Qed.

(** Decide a [mod] whose argument lies within one period of the modulus. *)
Ltac mod_cases :=
  repeat match goal with
    | |- context [?a mod ?n] =>
        first [ rewrite (Z.mod_small a n) by lia
              | rewrite (mod_once a n) by lia
              | rewrite (mod_neg_once a n) by lia ]
    end.

(** Case analysis on the boolean tests of the source. *)
Ltac bool_cases :=
  repeat match goal with
    | |- context [Z.ltb ?a ?b] => destruct (Z.ltb_spec a b)
    | |- context [Z.leb ?a ?b] => destruct (Z.leb_spec a b)
    | |- context [Z.eqb ?a ?b] => destruct (Z.eqb_spec a b)
    | |- context [Z.gtb ?a ?b] => rewrite (Z.gtb_ltb a b)
    | |- context [Z.geb ?a ?b] => rewrite (Z.geb_leb a b)
    end.

(** ** Field assignment

    [r <| f := v |>] is the C assignment [r.f = v] on a record value, and
    [r <| f ::= g |>] applies [g] to the field.  A record type takes part by
    an [Assignable] instance that rebuilds a value from its own fields. *)

Class Assignable (T : Type) := rebuild : T -> T.

Class FieldSetter {T V : Type} (field : T -> V) := assign : (V -> V) -> T -> T.
Arguments assign {T V} field {FieldSetter}.

Ltac derive_setter field :=
  lazymatch type of field with
  | ?T -> ?V =>
      let inst := constr:(_ : Assignable T) in
      let whole := eval cbv delta [rebuild] in (@rebuild T inst) in
      let whole := (let h := whole in eval red in h) in
      lazymatch eval pattern field in whole with
      | ?over _ =>
          let upd := eval cbv beta in (fun g : V -> V => over (fun x : T => g (field x))) in
          exact upd
      end
  end.

#[global] Hint Extern 0 (FieldSetter ?field) => derive_setter field : typeclass_instances.

Declare Scope assign_scope.
Notation "r <| f := v |>" := (assign f (fun _ => v) r)
  (at level 12, f at level 9, v at level 200, left associativity) : assign_scope.
Notation "r <| f ::= g |>" := (assign f g r)
  (at level 12, f at level 9, g at level 200, left associativity) : assign_scope.
#[global] Open Scope assign_scope.

(** ** Names

    A full port name splits at its first colon, where [strchr] points. *)

Definition colon : Ascii.ascii := Ascii.Ascii false true false true true true false false.

Fixpoint split_colon (s : string) : option (string * string) :=
  match s with
  | EmptyString => None
  | String c s => if bool_decide (c = colon) then Some (EmptyString, s) else '(a, b) ← split_colon s; Some (String c a, b)
  end.

Lemma split_colon_join s a b : split_colon s = Some (a, b) -> s = a +:+ String colon b.
Proof.
  revert a. induction s as [|c s IH]; cbn; intros a; [done|]. case_bool_decide as Hc.
  - intros [= <- <-]. by subst c.
  - destruct (split_colon s) as [[x y]|]; cbn; [|done]. intros [= <- <-]. by rewrite (IH x eq_refl).
Qed.

(** The length of a list as a C integer. *)
Abbreviation zlen l := (Z.of_nat (length l)).

(** ** Memory blocks

    A block of memory is the list of its bytes (or words).  [load_n] reads [n]
    cells at an offset and [store_n] overwrites cells from an offset on:
    what [memcpy] does on the source and on the destination side.  Both are
    only meaningful in bounds; the theorems that use them prove that. *)

Definition load_n {A} (m : list A) (off n : Z) : list A :=
  take (Z.to_nat n) (drop (Z.to_nat off) m).

Definition store_n {A} (m : list A) (off : Z) (data : list A) : list A :=
  list_inserts (Z.to_nat off) data m.

Lemma length_load_n {A} (m : list A) (off n : Z) :
  0 <= off -> 0 <= n -> off + n <= zlen m ->
  zlen (load_n m off n) = n.
Proof. intros. unfold load_n. rewrite length_take, length_drop. lia. Qed.

Lemma length_store_n {A} (m : list A) (off : Z) (data : list A) :
  length (store_n m off data) = length m.
Proof. apply length_inserts. Qed.

Lemma store_n_lookup_in (m : list Z) (off i : Z) (data : list Z) :
  0 <= off <= i -> i < off + zlen data -> off + zlen data <= zlen m ->
  store_n m off data !!! Z.to_nat i = data !!! Z.to_nat (i - off).
Proof.
  intros. unfold store_n. apply list_lookup_total_correct.
  rewrite list_lookup_inserts by lia.
  replace (Z.to_nat i - Z.to_nat off)%nat with (Z.to_nat (i - off)) by lia.
  apply list_lookup_lookup_total_lt. lia.
Qed.

Lemma store_n_lookup_out (m : list Z) (off i : Z) (data : list Z) :
  0 <= off -> 0 <= i -> i < off \/ off + zlen data <= i ->
  store_n m off data !!! Z.to_nat i = m !!! Z.to_nat i.
Proof.
  intros ? ? Hi. unfold store_n. rewrite !list_lookup_total_alt. f_equal.
  destruct Hi.
  - apply list_lookup_inserts_lt. lia.
  - apply list_lookup_inserts_ge. lia.
Qed.

Lemma load_n_prefix {A} (m : list A) (n off k : Z) :
  0 <= off -> 0 <= k -> off + k <= n -> load_n (load_n m 0 n) off k = load_n m off k.
Proof.
  intros. unfold load_n. rewrite drop_0.
  replace (Z.to_nat n) with (Z.to_nat off + Z.to_nat (n - off))%nat by lia.
  rewrite <- take_drop_commute, take_take. f_equal. lia.
Qed.

Lemma load_n_lookup (m : list Z) (off n j : Z) :
  0 <= off -> 0 <= j < n -> off + n <= zlen m ->
  load_n m off n !!! Z.to_nat j = m !!! Z.to_nat (off + j).
Proof.
  intros. unfold load_n. apply list_lookup_total_correct.
  rewrite lookup_take_lt, lookup_drop by lia.
  replace (Z.to_nat off + Z.to_nat j)%nat with (Z.to_nat (off + j)) by lia.
  apply list_lookup_lookup_total_lt. lia.
Qed.

Lemma load_n_zero {A} (m : list A) (off : Z) : load_n m off 0 = [].
Proof. done. Qed.

Lemma store_n_nil {A} (m : list A) (off : Z) : store_n m off [] = m.
Proof. done. Qed.

Lemma filter_all {A} (P : A -> Prop) `{!forall x, Decision (P x)} (l : list A) :
  (forall x, x ∈ l -> P x) -> filter P l = l.
Proof.
  induction l as [|x l IH]; intros Hl; [done|]. rewrite filter_cons_True by (apply Hl; left).
  f_equal. apply IH. intros y Hy. apply Hl. by right.
Qed.

Lemma alter_insert_lookup {A} (f : A -> A) (l : list A) (i : nat) x :
  l !! i = Some x -> alter f i l = <[i := f x]> l.
Proof.
  intros Hi. apply list_eq. intros j. destruct (decide (i = j)) as [<-|].
  - rewrite list_lookup_alter_eq, Hi, list_lookup_insert_eq by (by eapply lookup_lt_Some). done.
  - by rewrite list_lookup_alter_ne, list_lookup_insert_ne.
Qed.

Lemma insert_inserts_comm {A} (i j : nat) (x : A) (k l : list A) :
  (i < j)%nat -> list_inserts j k (<[i := x]> l) = <[i := x]> (list_inserts j k l).
Proof.
  revert j. induction k as [|y k IH]; intros j Hij; [done|]. cbn.
  rewrite IH by lia. apply list_insert_insert_ne. lia.
Qed.

(** A [memcpy] is the sequence of its byte stores. *)
Lemma store_n_cons {A} (m : list A) (off : Z) (x : A) (data : list A) :
  0 <= off -> store_n m off (x :: data) = store_n (store_n m off [x]) (off + 1) data.
Proof.
  intros. unfold store_n. cbn. replace (Z.to_nat (off + 1)) with (S (Z.to_nat off)) by lia.
  symmetry. apply insert_inserts_comm. lia.
Qed.

Lemma load_n_app {A} (m : list A) (off n1 n2 : Z) :
  0 <= off -> 0 <= n1 -> 0 <= n2 ->
  load_n m off n1 ++ load_n m (off + n1) n2 = load_n m off (n1 + n2).
Proof.
  intros. unfold load_n. rewrite !Z2Nat.inj_add by lia.
  rewrite <- drop_drop. set (l := drop (Z.to_nat off) m).
  rewrite take_drop_commute. 
  rewrite <- (take_drop (Z.to_nat n1) (take (Z.to_nat n1 + Z.to_nat n2) l)) at 2.
  f_equal. rewrite take_take. f_equal. lia.
Qed.

(** ** Counting *)

(** The number of elements of a list that satisfy a test. *)
Definition countb {A} (p : A -> bool) (l : list A) : Z :=
  zlen (filter (fun x => p x = true) l).

Lemma countb_nil {A} (p : A -> bool) : countb p [] = 0.
Proof. done. Qed.

Lemma countb_cons {A} (p : A -> bool) x (l : list A) :
  countb p (x :: l) = Z.b2z (p x) + countb p l.
Proof.
  unfold countb. rewrite filter_cons. destruct (p x); case_decide; try done; cbn; lia.
Qed.

Lemma countb_nonneg {A} (p : A -> bool) (l : list A) : 0 <= countb p l.
Proof. unfold countb. lia. Qed.

Lemma countb_ext {A} (p q : A -> bool) (l : list A) :
  (forall x, x ∈ l -> p x = q x) -> countb p l = countb q l.
Proof.
  induction l as [|x l IH]; intros H; [done|].
  rewrite !countb_cons, IH, (H x); [done|set_solver..].
Qed.

(** Changing the test at one element of a duplicate-free list. *)
Lemma countb_change {A} (p q : A -> bool) (l : list A) (c : A) :
  NoDup l -> c ∈ l -> (forall x, x <> c -> q x = p x) ->
  countb q l = countb p l - Z.b2z (p c) + Z.b2z (q c).
Proof.
  induction 1 as [|x l Hx Hl IH]; intros Hc Hq; [set_solver|].
  rewrite !countb_cons. apply elem_of_cons in Hc as [->|Hc].
  - rewrite (countb_ext q p l); [lia|]. intros y Hy. apply Hq. intros ->. done.
  - rewrite IH, (Hq x) by (done || intros ->; done). lia.
Qed.

Lemma countb_zero {A} (p : A -> bool) (l : list A) :
  countb p l = 0 <-> (forall x, x ∈ l -> p x = false).
Proof.
  induction l as [|x l IH]; [set_solver|]. rewrite countb_cons.
  pose proof (countb_nonneg p l). split.
  - intros E y Hy. destruct (p x) eqn:Ex; cbn in E; [lia|].
    apply elem_of_cons in Hy as [->|Hy]; [done|]. apply IH; [lia|done].
  - intros Hall. rewrite (Hall x) by set_solver. cbn. apply IH. intros y Hy. apply Hall. set_solver.
Qed.

(** A loop whose body leaves [g] alone leaves it alone. *)
Lemma foldl_preserves {A B C} (f : A -> B -> A) (g : A -> C) l a :
  (forall a b, g (f a b) = g a) -> g (foldl f a l) = g a.
Proof. intros H. revert a. induction l as [|x l IH]; intros a; [done|]. cbn. by rewrite IH, H. Qed.

Arguments load_n : simpl never.
Arguments store_n : simpl never.
Arguments wrap : simpl never.
