(* ===== verification/RingBuffer.v ===== *)
(** * The lock-free ring buffer (libjack/ringbuffer.c)

    [jack_ringbuffer_t] is the C structure field by field; every [size_t]
    computation is done modulo 2^64.  The abstract specification is a byte
    queue of capacity [size - 1] ([contents] is the abstraction function) and
    the theorems show that every operation refines its queue counterpart.
    The last section runs the reader and the writer as two threads that
    interleave at the granularity of single memory accesses. *)

From S2P Require Import Prelude.

Local Open Scope Z_scope.

Module RingBuffer.

Record jack_ringbuffer_t := mk_rb {
  rb_buf : list Z;
  write_ptr : Z;
  read_ptr : Z;
  size : Z;
  size_mask : Z;
  mlocked : Z
}.

(** [vec[i]]: a pointer into [rb_buf] (as an offset) and a length.  The
    pointer of the second part is left unset when the data is contiguous. *)
Record jack_ringbuffer_data_t := mk_vec { vec_buf : option Z; vec_len : Z }.

(** The loop [for (p = 1; 1 << p < sz; p++);] on [int] values.  Shifting into
    the sign bit has no defined value in C: the loop then has no result. *)
Fixpoint power_of_two_loop (fuel : nat) (p sz : Z) : option Z :=
  match fuel with
  | O => None
  | S fuel =>
      if 30 <? p then None
      else if Z.shiftl 1 p <? sz then power_of_two_loop fuel (p + 1) sz
      else Some p
  end.

Inductive create_result :=
| CreateUndefined
| CreateNull
| Created (rb : jack_ringbuffer_t).

(** [fresh] is the uninitialised content of the block [malloc] returns for
    the data, [None] when it fails; [rb_ok] tells whether the first [malloc]
    succeeds. *)
Definition jack_ringbuffer_create
    (rb_ok : bool) (fresh : Z -> option (list Z)) (sz : Z) : create_result :=
  if negb rb_ok then CreateNull
  else match power_of_two_loop 31 1 sz with
       | None => CreateUndefined
       | Some p =>
           let size := Z.shiftl 1 p in
           match fresh size with
           | None => CreateNull
           | Some b =>
               Created {| rb_buf := b; write_ptr := 0; read_ptr := 0;
                          size := size; size_mask := size - 1; mlocked := 0 |}
           end
       end.

(** [USE_MLOCK] build: [mlock_rc] is what the system call returns. *)
Definition jack_ringbuffer_mlock (mlock_rc : Z) (rb : jack_ringbuffer_t)
    : Z * jack_ringbuffer_t :=
  if negb (mlock_rc =? 0) then (-1, rb)
  else (0, {| rb_buf := rb_buf rb; write_ptr := write_ptr rb;
              read_ptr := read_ptr rb; size := size rb;
              size_mask := size_mask rb; mlocked := 1 |}).

Definition set_read_ptr (rb : jack_ringbuffer_t) (r : Z) : jack_ringbuffer_t :=
  {| rb_buf := rb_buf rb; write_ptr := write_ptr rb; read_ptr := r;
     size := size rb; size_mask := size_mask rb; mlocked := mlocked rb |}.

Definition set_write_ptr (rb : jack_ringbuffer_t) (w : Z) : jack_ringbuffer_t :=
  {| rb_buf := rb_buf rb; write_ptr := w; read_ptr := read_ptr rb;
     size := size rb; size_mask := size_mask rb; mlocked := mlocked rb |}.

Definition set_buf (rb : jack_ringbuffer_t) (b : list Z) : jack_ringbuffer_t :=
  {| rb_buf := b; write_ptr := write_ptr rb; read_ptr := read_ptr rb;
     size := size rb; size_mask := size_mask rb; mlocked := mlocked rb |}.

Definition jack_ringbuffer_reset (rb : jack_ringbuffer_t) : jack_ringbuffer_t :=
  set_write_ptr (set_read_ptr rb 0) 0.

Definition jack_ringbuffer_read_space (rb : jack_ringbuffer_t) : Z :=
  let w := write_ptr rb in
  let r := read_ptr rb in
  if w >? r then u64 (w - r)
  else Z.land (u64 (u64 (w - r) + size rb)) (size_mask rb).

Definition jack_ringbuffer_write_space (rb : jack_ringbuffer_t) : Z :=
  let w := write_ptr rb in
  let r := read_ptr rb in
  if w >? r then u64 (Z.land (u64 (u64 (r - w) + size rb)) (size_mask rb) - 1)
  else if w <? r then u64 (u64 (r - w) - 1)
  else u64 (size rb - 1).

(** Returns the count, the bytes stored at [dest], and the new structure. *)
Definition jack_ringbuffer_read (rb : jack_ringbuffer_t) (cnt : Z)
    : Z * list Z * jack_ringbuffer_t :=
  let free_cnt := jack_ringbuffer_read_space rb in
  if free_cnt =? 0 then (0, [], rb)
  else
    let to_read := if cnt >? free_cnt then free_cnt else cnt in
    let cnt2 := u64 (read_ptr rb + to_read) in
    let '(n1, n2) :=
      if cnt2 >? size rb
      then (u64 (size rb - read_ptr rb), Z.land cnt2 (size_mask rb))
      else (to_read, 0) in
    let dest1 := load_n (rb_buf rb) (read_ptr rb) n1 in
    let rb1 := set_read_ptr rb (Z.land (u64 (read_ptr rb + n1)) (size_mask rb)) in
    if negb (n2 =? 0) then
      let dest2 := load_n (rb_buf rb1) (read_ptr rb1) n2 in
      let rb2 := set_read_ptr rb1 (Z.land (u64 (read_ptr rb1 + n2)) (size_mask rb1)) in
      (to_read, dest1 ++ dest2, rb2)
    else (to_read, dest1, rb1).

Definition jack_ringbuffer_peek (rb : jack_ringbuffer_t) (cnt : Z)
    : Z * list Z :=
  let tmp_read_ptr := read_ptr rb in
  let free_cnt := jack_ringbuffer_read_space rb in
  if free_cnt =? 0 then (0, [])
  else
    let to_read := if cnt >? free_cnt then free_cnt else cnt in
    let cnt2 := u64 (tmp_read_ptr + to_read) in
    let '(n1, n2) :=
      if cnt2 >? size rb
      then (u64 (size rb - tmp_read_ptr), Z.land cnt2 (size_mask rb))
      else (to_read, 0) in
    let dest1 := load_n (rb_buf rb) tmp_read_ptr n1 in
    let tmp_read_ptr := Z.land (u64 (tmp_read_ptr + n1)) (size_mask rb) in
    if negb (n2 =? 0)
    then (to_read, dest1 ++ load_n (rb_buf rb) tmp_read_ptr n2)
    else (to_read, dest1).

Definition jack_ringbuffer_write (rb : jack_ringbuffer_t) (src : list Z) (cnt : Z)
    : Z * jack_ringbuffer_t :=
  let free_cnt := jack_ringbuffer_write_space rb in
  if free_cnt =? 0 then (0, rb)
  else
    let to_write := if cnt >? free_cnt then free_cnt else cnt in
    let cnt2 := u64 (write_ptr rb + to_write) in
    let '(n1, n2) :=
      if cnt2 >? size rb
      then (u64 (size rb - write_ptr rb), Z.land cnt2 (size_mask rb))
      else (to_write, 0) in
    let rb1 := set_buf rb (store_n (rb_buf rb) (write_ptr rb) (load_n src 0 n1)) in
    let rb1 := set_write_ptr rb1 (Z.land (u64 (write_ptr rb1 + n1)) (size_mask rb1)) in
    if negb (n2 =? 0) then
      let rb2 := set_buf rb1 (store_n (rb_buf rb1) (write_ptr rb1) (load_n src n1 n2)) in
      let rb2 := set_write_ptr rb2 (Z.land (u64 (write_ptr rb2 + n2)) (size_mask rb2)) in
      (to_write, rb2)
    else (to_write, rb1).

Definition jack_ringbuffer_read_advance (rb : jack_ringbuffer_t) (cnt : Z)
    : jack_ringbuffer_t :=
  set_read_ptr rb (Z.land (u64 (read_ptr rb + cnt)) (size_mask rb)).

Definition jack_ringbuffer_write_advance (rb : jack_ringbuffer_t) (cnt : Z)
    : jack_ringbuffer_t :=
  set_write_ptr rb (Z.land (u64 (write_ptr rb + cnt)) (size_mask rb)).

Definition jack_ringbuffer_get_read_vector (rb : jack_ringbuffer_t)
    : jack_ringbuffer_data_t * jack_ringbuffer_data_t :=
  let w := write_ptr rb in
  let r := read_ptr rb in
  let free_cnt :=
    if w >? r then u64 (w - r)
    else Z.land (u64 (u64 (w - r) + size rb)) (size_mask rb) in
  let cnt2 := u64 (r + free_cnt) in
  if cnt2 >? size rb
  then (mk_vec (Some r) (u64 (size rb - r)),
        mk_vec (Some 0) (Z.land cnt2 (size_mask rb)))
  else (mk_vec (Some r) free_cnt, mk_vec None 0).

Definition jack_ringbuffer_get_write_vector (rb : jack_ringbuffer_t)
    : jack_ringbuffer_data_t * jack_ringbuffer_data_t :=
  let w := write_ptr rb in
  let r := read_ptr rb in
  let free_cnt :=
    if w >? r then u64 (Z.land (u64 (u64 (r - w) + size rb)) (size_mask rb) - 1)
    else if w <? r then u64 (u64 (r - w) - 1)
    else u64 (size rb - 1) in
  let cnt2 := u64 (w + free_cnt) in
  if cnt2 >? size rb
  then (mk_vec (Some w) (u64 (size rb - w)),
        mk_vec (Some 0) (Z.land cnt2 (size_mask rb)))
  else (mk_vec (Some w) free_cnt, mk_vec None 0).

(** ** The abstraction: a byte queue *)

(** The [n] cells from [start] on, wrapping at the end of the block. *)
Definition ring_slice (b : list Z) (sz start n : Z) : list Z :=
  (fun i => b !!! Z.to_nat ((start + i) mod sz)) <$> seqZ 0 n.

Definition contents (rb : jack_ringbuffer_t) : list Z :=
  ring_slice (rb_buf rb) (size rb) (read_ptr rb)
             ((write_ptr rb - read_ptr rb) mod size rb).

(** The bytes a vector designates. *)
Definition vec_bytes (b : list Z) (v : jack_ringbuffer_data_t) : list Z :=
  match vec_buf v with
  | Some off => load_n b off (vec_len v)
  | None => []
  end.

(** The specification: a byte queue that holds at most [cap] bytes. *)
Module Queue.
Definition enqueue (cap : Z) (q src : list Z) (cnt : Z) : Z * list Z :=
  let n := Z.min cnt (cap - zlen q) in (n, q ++ take (Z.to_nat n) src).

Definition dequeue (q : list Z) (cnt : Z) : Z * list Z * list Z :=
  let n := Z.min cnt (zlen q) in (n, take (Z.to_nat n) q, drop (Z.to_nat n) q).
End Queue.

(** The public operations as commands, and what each reports to its caller. *)
Inductive op :=
| Write (src : list Z)
| Read (cnt : Z)
| Peek (cnt : Z)
| ReadAdvance (cnt : Z)
| Reset.

Definition run_op (rb : jack_ringbuffer_t) (o : op) : Z * list Z * jack_ringbuffer_t :=
  match o with
  | Write src => let '(n, rb') := jack_ringbuffer_write rb src (zlen src) in (n, [], rb')
  | Read cnt => jack_ringbuffer_read rb cnt
  | Peek cnt => let '(n, d) := jack_ringbuffer_peek rb cnt in (n, d, rb)
  | ReadAdvance cnt => (0, [], jack_ringbuffer_read_advance rb cnt)
  | Reset => (0, [], jack_ringbuffer_reset rb)
  end.

Definition spec_op (cap : Z) (q : list Z) (o : op) : Z * list Z * list Z :=
  match o with
  | Write src => let '(n, q') := Queue.enqueue cap q src (zlen src) in (n, [], q')
  | Read cnt => Queue.dequeue q cnt
  | Peek cnt => let '(n, d, _) := Queue.dequeue q cnt in (n, d, q)
  | ReadAdvance cnt => (0, [], drop (Z.to_nat cnt) q)
  | Reset => (0, [], [])
  end.

(** What the callers pass: counts are not negative, and the reader never
    advances over more than it can see. *)
Definition op_ok (q : list Z) (o : op) : Prop :=
  match o with
  | Write _ | Reset => True
  | Read cnt | Peek cnt => 0 <= cnt
  | ReadAdvance cnt => 0 <= cnt <= zlen q
  end.

Fixpoint run_ops (rb : jack_ringbuffer_t) (os : list op) : list (Z * list Z) :=
  match os with
  | [] => []
  | o :: os => let '(n, d, rb') := run_op rb o in (n, d) :: run_ops rb' os
  end.

Fixpoint spec_ops (cap : Z) (q : list Z) (os : list op) : list (Z * list Z) :=
  match os with
  | [] => []
  | o :: os => let '(n, d, q') := spec_op cap q o in (n, d) :: spec_ops cap q' os
  end.

Fixpoint ops_ok (cap : Z) (q : list Z) (os : list op) : Prop :=
  match os with
  | [] => True
  | o :: os => op_ok q o /\ ops_ok cap ((spec_op cap q o).2) os
  end.

(** Well-formedness: what [jack_ringbuffer_create] establishes. *)
Record wf (rb : jack_ringbuffer_t) : Prop := {
  wf_pow : exists k, 1 <= k <= 62 /\ size rb = 2 ^ k;
  wf_mask : size_mask rb = size rb - 1;
  wf_w : 0 <= write_ptr rb < size rb;
  wf_r : 0 <= read_ptr rb < size rb;
  wf_len : zlen (rb_buf rb) = size rb
}.

(** ** Slices of the ring *)

Section slices.
Context (b : list Z) (sz : Z) (Hsz : 0 < sz) (Hlen : zlen b = sz).

Lemma length_ring_slice start n : 0 <= n -> zlen (ring_slice b sz start n) = n.
Proof using. intros. unfold ring_slice. rewrite length_fmap, length_seqZ. lia. Qed.

Lemma ring_slice_lookup start n i :
  0 <= i < n ->
  ring_slice b sz start n !! Z.to_nat i = Some (b !!! Z.to_nat ((start + i) mod sz)).
Proof using.
  intros. unfold ring_slice. rewrite list_lookup_fmap, lookup_seqZ_lt by lia.
  cbn. rewrite Z2Nat.id by lia. done.
Qed.

Lemma ring_slice_app start n m :
  0 <= n -> 0 <= m ->
  ring_slice b sz start (n + m) =
  ring_slice b sz start n ++ ring_slice b sz ((start + n) mod sz) m.
Proof using Hsz.
  intros. unfold ring_slice. rewrite seqZ_app, fmap_app by lia. f_equal.
  replace (0 + n) with (n + 0) by lia.
  rewrite <- (fmap_add_seqZ n 0 m), <- list_fmap_compose.
  apply list_fmap_ext. intros ? i ?. cbn. do 2 f_equal.
  rewrite Zplus_mod_idemp_l. f_equal. lia.
Qed.

Lemma ring_slice_flat start n :
  0 <= start -> 0 <= n -> start + n <= sz ->
  ring_slice b sz start n = load_n b start n.
Proof using Hlen.
  intros. apply list_eq_same_length with (n := Z.to_nat n);
    [ pose proof (length_load_n b start n); lia
    | pose proof (length_ring_slice start n); lia | ].
  intros i x y Hi Hx Hy. replace i with (Z.to_nat (Z.of_nat i)) in Hx by lia.
  rewrite ring_slice_lookup in Hx by lia. injection Hx as <-.
  rewrite Z.mod_small by lia. unfold load_n in Hy.
  rewrite lookup_take_lt, lookup_drop in Hy by lia.
  apply list_lookup_total_correct. rewrite <- Hy. f_equal. lia.
Qed.
End slices.

Lemma ring_slice_ext (b b' : list Z) (sz start n : Z) :
  (forall i, 0 <= i < n ->
     b !!! Z.to_nat ((start + i) mod sz) = b' !!! Z.to_nat ((start + i) mod sz)) ->
  ring_slice b sz start n = ring_slice b' sz start n.
Proof.
  intros H. unfold ring_slice. apply list_fmap_ext. intros k i Hk.
  apply lookup_seqZ in Hk as [-> ?]. apply H. lia.
Qed.

(** ** Arithmetic of the pointers *)

Lemma wf_bounds rb : wf rb -> 2 <= size rb <= 2 ^ 62.
Proof.
  intros [(k & Hk & ->) _ _ _ _]. split.
  - change 2 with (2 ^ 1) at 1. apply Z.pow_le_mono_r; lia.
  - apply Z.pow_le_mono_r; lia.
Qed.

Lemma wf_land rb z : wf rb -> Z.land z (size_mask rb) = z mod size rb.
Proof.
  intros [(k & Hk & E) M _ _ _]. rewrite M, E. apply land_mask. lia.
Qed.

(** Bring the bounds of a well-formed buffer into the context. *)
Ltac rb_facts rb H :=
  pose proof (wf_bounds rb H); pose proof (wf_w rb H); pose proof (wf_r rb H);
  pose proof (wf_len rb H).

Ltac wrap_cases :=
  unfold wrap; change (2 ^ 62) with 4611686018427387904 in *;
  change (2 ^ 64) with 18446744073709551616; mod_cases.

Lemma read_space_mod rb :
  wf rb -> jack_ringbuffer_read_space rb = (write_ptr rb - read_ptr rb) mod size rb.
Proof.
  intros H. rb_facts rb H. unfold jack_ringbuffer_read_space.
  rewrite wf_land by done. bool_cases; [wrap_cases; lia|].
  destruct (Z.eq_dec (write_ptr rb) (read_ptr rb)) as [E|].
  - rewrite E, Z.sub_diag. unfold wrap. rewrite Z.mod_0_l by lia.
    wrap_cases. lia.
  - wrap_cases. lia.
Qed.

Lemma write_space_mod rb :
  wf rb ->
  jack_ringbuffer_write_space rb = (read_ptr rb - write_ptr rb - 1) mod size rb.
Proof.
  intros H. rb_facts rb H. unfold jack_ringbuffer_write_space.
  rewrite wf_land by done. bool_cases; wrap_cases; lia.
Qed.

Lemma contents_length rb :
  wf rb -> zlen (contents rb) = jack_ringbuffer_read_space rb.
Proof.
  intros H. rewrite read_space_mod by done. apply length_ring_slice.
  apply Z.mod_pos_bound. pose proof (wf_bounds rb H). lia.
Qed.

(** The split of a transfer of [n] cells at [p] into the part before the end
    of the block and the part at its start, as the three copying routines
    compute it. *)
Lemma two_part rb p n :
  wf rb -> 0 <= p < size rb -> 0 <= n < size rb ->
  exists n1 n2,
    (if u64 (p + n) >? size rb
     then (u64 (size rb - p), Z.land (u64 (p + n)) (size_mask rb))
     else (n, 0)) = (n1, n2) /\
    n1 + n2 = n /\ 0 <= n1 /\ 0 <= n2 /\ p + n1 <= size rb /\
    (n2 <> 0 -> p + n1 = size rb).
Proof.
  intros H ? ?. pose proof (wf_bounds rb H). rewrite wf_land by done.
  assert (u64 (p + n) = p + n) as -> by (wrap_cases; lia).
  bool_cases; eexists _, _; (split; [reflexivity|]); wrap_cases; lia.
Qed.

Lemma advance_mod rb p n :
  wf rb -> 0 <= p < size rb -> 0 <= n <= size rb ->
  Z.land (u64 (p + n)) (size_mask rb) = (p + n) mod size rb.
Proof.
  intros H ? ?. pose proof (wf_bounds rb H). rewrite wf_land by done.
  f_equal. wrap_cases. lia.
Qed.

Lemma slice_take b sz start n m :
  0 < sz -> 0 <= n <= m -> ring_slice b sz start n = take (Z.to_nat n) (ring_slice b sz start m).
Proof.
  intros. replace m with (n + (m - n)) by lia. rewrite ring_slice_app by lia.
  pose proof (length_ring_slice b sz start n). rewrite take_app_length' by lia. done.
Qed.

Lemma slice_drop b sz start n m :
  0 < sz -> 0 <= n <= m ->
  ring_slice b sz ((start + n) mod sz) (m - n) = drop (Z.to_nat n) (ring_slice b sz start m).
Proof.
  intros. replace m with (n + (m - n)) at 2 by lia. rewrite ring_slice_app by lia.
  pose proof (length_ring_slice b sz start n). rewrite drop_app_length' by lia. done.
Qed.

(** A two-part transfer reads the slice. *)
Lemma load_two_part rb p n1 n2 :
  wf rb -> 0 <= p < size rb -> 0 <= n1 -> 0 <= n2 -> n1 + n2 < size rb ->
  p + n1 <= size rb -> (n2 <> 0 -> p + n1 = size rb) ->
  load_n (rb_buf rb) p n1 ++ load_n (rb_buf rb) ((p + n1) mod size rb) n2 =
  ring_slice (rb_buf rb) (size rb) p (n1 + n2).
Proof.
  intros H ? ? ? ? ? Hn2. rb_facts rb H.
  rewrite ring_slice_app, ring_slice_flat by lia. f_equal.
  destruct (Z.eq_dec n2 0) as [->|]; [done|].
  rewrite Hn2, Z.mod_same by lia. rewrite ring_slice_flat by lia. done.
Qed.

Lemma read_eq rb cnt :
  wf rb -> 0 <= cnt ->
  let n := Z.min cnt (jack_ringbuffer_read_space rb) in
  jack_ringbuffer_read rb cnt =
  (n, take (Z.to_nat n) (contents rb),
   set_read_ptr rb ((read_ptr rb + n) mod size rb)).
Proof.
  intros H ? n. rb_facts rb H. unfold jack_ringbuffer_read.
  pose proof (Z.mod_pos_bound (write_ptr rb - read_ptr rb) (size rb)) as Hs.
  assert (Hn : (if cnt >? jack_ringbuffer_read_space rb
                then jack_ringbuffer_read_space rb else cnt) = n) by (subst n; bool_cases; lia).
  rewrite Hn. clear Hn. rewrite <- read_space_mod in Hs by done.
  destruct (Z.eqb_spec (jack_ringbuffer_read_space rb) 0) as [E|E].
  { subst n. rewrite E, Z.min_r, Z.add_0_r by lia. cbn. rewrite Z.mod_small by lia.
    by destruct rb. }
  assert (0 <= n < size rb) by lia.
  destruct (two_part rb (read_ptr rb) n) as (n1 & n2 & Heq & Hsum & ? & ? & ? & Hn2); [done..|].
  rewrite Heq. clear Heq. cbn [size_mask rb_buf read_ptr set_read_ptr].
  rewrite !advance_mod by (done || lia || (split; [|lia]; lia)).
  assert (Hd : load_n (rb_buf rb) (read_ptr rb) n1 ++
               load_n (rb_buf rb) ((read_ptr rb + n1) mod size rb) n2 =
               take (Z.to_nat n) (contents rb)).
  { rewrite load_two_part by (done || lia). rewrite Hsum. unfold contents.
    apply slice_take; [lia|]. rewrite <- read_space_mod by done. lia. }
  rewrite <- Hd. destruct (Z.eqb_spec n2 0) as [E2|E2]; cbn [negb].
  - subst n2. rewrite app_nil_r. rewrite Z.add_0_r in Hsum. by subst n1.
  - unfold set_read_ptr. cbn. rewrite advance_mod; [|done|apply Z.mod_pos_bound; lia|lia].
    rewrite Zplus_mod_idemp_l. rewrite <- Z.add_assoc, Hsum. done.
Qed.

Lemma peek_eq rb cnt :
  wf rb -> 0 <= cnt ->
  jack_ringbuffer_peek rb cnt = (jack_ringbuffer_read rb cnt).1.
Proof.
  intros. unfold jack_ringbuffer_peek, jack_ringbuffer_read.
  destruct (_ =? 0); [done|].
  destruct (if _ >? size rb then _ else _) as [n1 n2]. cbn.
  by destruct (negb (n2 =? 0)).
Qed.

(** Overwriting the two parts of [data] from [p] on: every cell of the ring
    within [zlen data] of [p] holds the data, the others are untouched. *)
Lemma store_two_part_lookup (b data : list Z) sz p n1 n2 i :
  0 < sz -> zlen b = sz -> 0 <= p < sz -> 0 <= n1 -> 0 <= n2 ->
  n1 + n2 = zlen data -> n1 + n2 < sz -> p + n1 <= sz ->
  (n2 <> 0 -> p + n1 = sz) -> 0 <= i < sz ->
  store_n (store_n b p (load_n data 0 n1)) ((p + n1) mod sz) (load_n data n1 n2)
    !!! Z.to_nat ((p + i) mod sz) =
  if i <? n1 + n2 then data !!! Z.to_nat i else b !!! Z.to_nat ((p + i) mod sz).
Proof.
  intros ? Hb ? ? ? Hd ? ? Hn2 Hi.
  assert (L1 : zlen (load_n data 0 n1) = n1) by (apply length_load_n; lia).
  assert (L2 : zlen (load_n data n1 n2) = n2) by (apply length_load_n; lia).
  pose proof (Z.mod_pos_bound (p + n1) sz) as Hb1.
  destruct (Z.ltb_spec i n1) as [Hlt|Hge].
  - assert ((p + i) mod sz = p + i) as -> by (mod_cases; lia).
    destruct (Z.ltb_spec i (n1 + n2)); [|lia].
    rewrite store_n_lookup_out; [|lia..|].
    + rewrite store_n_lookup_in by (rewrite ?L1; lia).
      rewrite load_n_lookup by lia. do 2 f_equal. lia.
    + rewrite L2. destruct (Z.eq_dec n2 0) as [->|]; [lia|].
      rewrite Hn2, Z.mod_same by lia. lia.
  - destruct (Z.ltb_spec i (n1 + n2)) as [Hin|Hout].
    + assert (n2 <> 0) as E by lia. specialize (Hn2 E).
      assert ((p + i) mod sz = i - n1) as -> by (mod_cases; lia).
      rewrite Hn2, Z.mod_same by lia.
      rewrite store_n_lookup_in; rewrite ?length_store_n, ?L2; try lia.
      rewrite load_n_lookup by lia. do 2 f_equal. lia.
    + assert (Hpi : (p + i) mod sz < p \/ p + n1 <= (p + i) mod sz).
      { destruct (Z.ltb_spec (p + i) sz); mod_cases; lia. }
      pose proof (Z.mod_pos_bound (p + i) sz).
      rewrite store_n_lookup_out; [|lia..|].
      * apply store_n_lookup_out; [lia..|]. rewrite L1. lia.
      * rewrite L2. destruct (Z.eq_dec n2 0) as [->|E]; [lia|]. specialize (Hn2 E).
        rewrite Hn2, Z.mod_same by lia. right. mod_cases. lia.
Qed.

Lemma write_eq rb src cnt :
  wf rb -> 0 <= cnt <= zlen src ->
  let n := Z.min cnt (jack_ringbuffer_write_space rb) in
  exists b',
    jack_ringbuffer_write rb src cnt =
      (n, set_write_ptr (set_buf rb b') ((write_ptr rb + n) mod size rb)) /\
    zlen b' = size rb /\
    forall i, 0 <= i < size rb ->
      b' !!! Z.to_nat ((write_ptr rb + i) mod size rb) =
      if i <? n then src !!! Z.to_nat i
      else rb_buf rb !!! Z.to_nat ((write_ptr rb + i) mod size rb).
Proof.
  intros H ? n. rb_facts rb H. unfold jack_ringbuffer_write.
  pose proof (Z.mod_pos_bound (read_ptr rb - write_ptr rb - 1) (size rb)) as Hs.
  assert (Hn : (if cnt >? jack_ringbuffer_write_space rb
                then jack_ringbuffer_write_space rb else cnt) = n) by (subst n; bool_cases; lia).
  rewrite Hn. clear Hn. rewrite <- write_space_mod in Hs by done.
  destruct (Z.eqb_spec (jack_ringbuffer_write_space rb) 0) as [E|E].
  { exists (rb_buf rb). subst n. rewrite E, Z.min_r, Z.add_0_r by lia.
    rewrite Z.mod_small by lia. split_and!; [by destruct rb|done|].
    intros i ?. bool_cases; [lia|done]. }
  assert (0 <= n < size rb) by lia.
  destruct (two_part rb (write_ptr rb) n) as (n1 & n2 & Heq & Hsum & ? & ? & ? & Hn2); [done..|].
  rewrite Heq. clear Heq. cbn [size_mask rb_buf write_ptr set_write_ptr set_buf].
  rewrite !advance_mod by (done || lia).
  set (data := load_n src 0 n).
  assert (Ld : zlen data = n) by (apply length_load_n; lia).
  rewrite <- (load_n_prefix src n 0 n1), <- (load_n_prefix src n n1 n2) by lia. fold data.
  exists (store_n (store_n (rb_buf rb) (write_ptr rb) (load_n data 0 n1))
               ((write_ptr rb + n1) mod size rb) (load_n data n1 n2)).
  split_and!.
  - destruct (Z.eqb_spec n2 0) as [E3|E3]; cbn [negb].
    + subst n2. rewrite Z.add_0_r in Hsum. by subst n1.
    + unfold set_write_ptr, set_buf. cbn.
      rewrite advance_mod; [|done|apply Z.mod_pos_bound; lia|lia].
      rewrite Zplus_mod_idemp_l. rewrite <- Z.add_assoc, Hsum. done.
  - rewrite !length_store_n. done.
  - intros i Hi. rewrite store_two_part_lookup by (done || lia).
    rewrite Hsum. destruct (Z.ltb_spec i n); [|done].
    unfold data. by rewrite load_n_lookup by lia.
Qed.

(** ** Refinement of the queue, operation by operation *)

Lemma wf_set_read_ptr rb r : wf rb -> 0 <= r < size rb -> wf (set_read_ptr rb r).
Proof. intros [] ?. by constructor. Qed.

Lemma wf_set_write_ptr rb w : wf rb -> 0 <= w < size rb -> wf (set_write_ptr rb w).
Proof. intros [] ?. by constructor. Qed.

Lemma wf_set_buf rb b : wf rb -> zlen b = size rb -> wf (set_buf rb b).
Proof. intros [] ?. by constructor. Qed.

(** Moving the read pointer over [n] readable bytes drops them. *)
Lemma contents_advance rb n :
  wf rb -> 0 <= n <= zlen (contents rb) ->
  contents (set_read_ptr rb ((read_ptr rb + n) mod size rb)) =
  drop (Z.to_nat n) (contents rb).
Proof.
  intros H Hn. rb_facts rb H. rewrite contents_length, read_space_mod in Hn by done.
  unfold contents. cbn. rewrite <- slice_drop by lia. f_equal.
  rewrite Zminus_mod_idemp_r. replace (write_ptr rb - (read_ptr rb + n))
    with (write_ptr rb - read_ptr rb - n) by lia.
  rewrite <- Zminus_mod_idemp_l. apply Z.mod_small.
  pose proof (Z.mod_pos_bound (write_ptr rb - read_ptr rb) (size rb)). lia.
Qed.

Lemma write_space_contents rb :
  wf rb -> jack_ringbuffer_write_space rb = size rb - 1 - zlen (contents rb).
Proof.
  intros H. rb_facts rb H. rewrite contents_length, read_space_mod, write_space_mod by done.
  destruct (Z.ltb_spec (write_ptr rb) (read_ptr rb)); mod_cases; lia.
Qed.

(** Moving the write pointer over [n] free cells appends what they hold,
    as far as the readable cells are unchanged. *)
Lemma contents_extend rb b' n :
  wf rb -> 0 <= n < size rb - zlen (contents rb) ->
  (forall i, n <= i < size rb ->
     b' !!! Z.to_nat ((write_ptr rb + i) mod size rb) =
     rb_buf rb !!! Z.to_nat ((write_ptr rb + i) mod size rb)) ->
  contents (set_write_ptr (set_buf rb b') ((write_ptr rb + n) mod size rb)) =
  contents rb ++ ring_slice b' (size rb) (write_ptr rb) n.
Proof.
  intros H Hn Hb'. rb_facts rb H. pose proof (contents_length rb H) as Hcl.
  rewrite read_space_mod in Hcl by done. unfold contents at 1. cbn.
  replace (((write_ptr rb + n) mod size rb - read_ptr rb) mod size rb)
    with (zlen (contents rb) + n).
  2:{ rewrite Zminus_mod_idemp_l. replace (write_ptr rb + n - read_ptr rb)
        with (write_ptr rb - read_ptr rb + n) by lia.
      rewrite <- Zplus_mod_idemp_l, <- Hcl. rewrite Z.mod_small by lia. done. }
  rewrite ring_slice_app by lia. rewrite Hcl, Zplus_mod_idemp_r.
  replace (read_ptr rb + (write_ptr rb - read_ptr rb)) with (write_ptr rb) by lia.
  rewrite (Z.mod_small (write_ptr rb)) by lia. f_equal.
  unfold contents. apply ring_slice_ext. intros i Hi. rewrite <- Hcl in Hi.
  replace (read_ptr rb + i)
    with (write_ptr rb + (i - (write_ptr rb - read_ptr rb))) by lia.
  rewrite <- Zplus_mod_idemp_r. apply Hb'.
  rewrite <- Zminus_mod_idemp_r, <- Hcl. mod_cases. lia.
Qed.

Lemma slice_of_prefix (b src : list Z) sz p n :
  0 < sz -> 0 <= n <= zlen src ->
  (forall i, 0 <= i < n -> b !!! Z.to_nat ((p + i) mod sz) = src !!! Z.to_nat i) ->
  ring_slice b sz p n = take (Z.to_nat n) src.
Proof.
  intros ? ? Hb. apply list_eq_same_length with (n := Z.to_nat n).
  - rewrite length_take. lia.
  - pose proof (length_ring_slice b sz p n). lia.
  - intros i x y Hi Hx Hy. replace i with (Z.to_nat (Z.of_nat i)) in Hx by lia.
    rewrite ring_slice_lookup, Hb in Hx by lia.
    rewrite lookup_take_lt in Hy by lia. apply list_lookup_total_correct in Hy.
    rewrite Nat2Z.id in Hx. congruence.
Qed.

Lemma write_contents rb src cnt :
  wf rb -> 0 <= cnt <= zlen src ->
  let '(n, rb') := jack_ringbuffer_write rb src cnt in
  (n, contents rb') = Queue.enqueue (size rb - 1) (contents rb) src cnt /\
  wf rb' /\ size rb' = size rb.
Proof.
  intros H Hc. rb_facts rb H.
  destruct (write_eq rb src cnt H Hc) as (b' & -> & Hlen & Hb').
  set (n := Z.min cnt (jack_ringbuffer_write_space rb)) in *.
  assert (Hws := write_space_contents rb H).
  assert (Hn : 0 <= n < size rb - zlen (contents rb)).
  { pose proof (Z.mod_pos_bound (read_ptr rb - write_ptr rb - 1) (size rb)) as Hm.
    rewrite <- write_space_mod in Hm by done. lia. }
  split_and!; [| |done].
  - unfold Queue.enqueue. rewrite <- Hws. fold n. f_equal.
    rewrite contents_extend; [|done..|].
    + f_equal. apply slice_of_prefix; [lia..|]. intros i ?. rewrite Hb' by lia.
      bool_cases; [done|lia].
    + intros i ?. rewrite Hb' by lia. bool_cases; [lia|done].
  - apply wf_set_write_ptr; [by apply wf_set_buf|]. apply Z.mod_pos_bound. cbn. lia.
Qed.

Lemma read_contents rb cnt :
  wf rb -> 0 <= cnt ->
  let '(n, d, rb') := jack_ringbuffer_read rb cnt in
  (n, d, contents rb') = Queue.dequeue (contents rb) cnt /\
  wf rb' /\ size rb' = size rb.
Proof.
  intros H Hc. rb_facts rb H. rewrite read_eq by done.
  pose proof (contents_length rb H) as Hcl. rewrite <- Hcl.
  split_and!; [|apply wf_set_read_ptr; [done|apply Z.mod_pos_bound; lia]|done].
  unfold Queue.dequeue. f_equal. apply contents_advance; [done|]. lia.
Qed.

Lemma read_advance_contents rb cnt :
  wf rb -> 0 <= cnt <= zlen (contents rb) ->
  contents (jack_ringbuffer_read_advance rb cnt) = drop (Z.to_nat cnt) (contents rb) /\
  wf (jack_ringbuffer_read_advance rb cnt).
Proof.
  intros H Hc. rb_facts rb H. unfold jack_ringbuffer_read_advance.
  assert (cnt <= size rb).
  { rewrite contents_length, read_space_mod in Hc by done.
    pose proof (Z.mod_pos_bound (write_ptr rb - read_ptr rb) (size rb)). lia. }
  rewrite advance_mod by (done || lia). split; [by apply contents_advance|].
  apply wf_set_read_ptr; [done|apply Z.mod_pos_bound; lia].
Qed.

Lemma reset_contents rb :
  wf rb -> contents (jack_ringbuffer_reset rb) = [] /\ wf (jack_ringbuffer_reset rb).
Proof.
  intros H. rb_facts rb H. split.
  - unfold contents. cbn. by rewrite Z.mod_0_l by lia.
  - apply wf_set_write_ptr; [apply wf_set_read_ptr; [done|lia]|cbn; lia].
Qed.

Lemma run_op_refines rb o :
  wf rb -> op_ok (contents rb) o ->
  let '(n, d, rb') := run_op rb o in
  (n, d, contents rb') = spec_op (size rb - 1) (contents rb) o /\
  wf rb' /\ size rb' = size rb.
Proof.
  intros H Hok. destruct o as [src|cnt|cnt|cnt|]; cbn [run_op spec_op op_ok] in *.
  - pose proof (write_contents rb src (zlen src) H) as Hw.
    destruct (jack_ringbuffer_write rb src (zlen src)) as [n rb'].
    destruct Hw as (E & ? & ?); [lia|]. rewrite <- E. done.
  - pose proof (read_contents rb cnt H Hok) as Hr.
    by destruct (jack_ringbuffer_read rb cnt) as [[n d] rb'].
  - pose proof (read_contents rb cnt H Hok) as Hr. rewrite peek_eq by done.
    destruct (jack_ringbuffer_read rb cnt) as [[n d] rb'].
    destruct Hr as (E & _ & _). by rewrite <- E.
  - destruct (read_advance_contents rb cnt H Hok) as [E ?]. by rewrite E.
  - destruct (reset_contents rb H) as [E ?]. by rewrite E.
Qed.

(** ** Main results *)

(** C8: every sequence of ring-buffer operations on a well-formed buffer
    returns exactly the counts and the bytes that a bounded byte queue of
    capacity [size - 1] returns: nothing is lost, duplicated, reordered or
    read from outside the readable region. *)
Theorem ringbuffer_refines_queue rb os :
  wf rb -> ops_ok (size rb - 1) (contents rb) os ->
  run_ops rb os = spec_ops (size rb - 1) (contents rb) os.
Proof.
  revert rb. induction os as [|o os IH]; intros rb H Hok; [done|].
  destruct Hok as [Ho Hok]. pose proof (run_op_refines rb o H Ho) as Hr.
  cbn. destruct (run_op rb o) as [[n d] rb'] eqn:Er. destruct Hr as (E & Hwf & Hs).
  rewrite <- E in Hok |- *. cbn in Hok. f_equal. rewrite <- Hs in Hok |- *. by apply IH.
Qed.

(** ** The non-copying interface and the constructor *)

Lemma read_vector_contents rb :
  wf rb ->
  let '(v0, v1) := jack_ringbuffer_get_read_vector rb in
  vec_bytes (rb_buf rb) v0 ++ vec_bytes (rb_buf rb) v1 = contents rb /\
  vec_len v0 + vec_len v1 = zlen (contents rb).
Proof.
  intros H. rb_facts rb H. unfold jack_ringbuffer_get_read_vector.
  fold (jack_ringbuffer_read_space rb). set (n := jack_ringbuffer_read_space rb).
  pose proof (contents_length rb H) as Hcl. fold n in Hcl.
  assert (Hn : 0 <= n < size rb).
  { subst n. rewrite read_space_mod by done. apply Z.mod_pos_bound. lia. }
  assert (Hcont : contents rb = ring_slice (rb_buf rb) (size rb) (read_ptr rb) n)
    by (unfold contents; by rewrite <- read_space_mod).
  destruct (two_part rb (read_ptr rb) n) as (n1 & n2 & Heq & Hsum & ? & ? & ? & Hn2); [done..|].
  assert (Hl : load_n (rb_buf rb) (read_ptr rb) n1 ++
               load_n (rb_buf rb) ((read_ptr rb + n1) mod size rb) n2 = contents rb).
  { rewrite load_two_part by (done || lia). by rewrite Hsum, Hcont. }
  rewrite Hcl. destruct (_ >? size rb); injection Heq as E1 E2; cbn; rewrite ?E1, ?E2;
    (split; [rewrite <- Hl|lia]).
  - destruct (Z.eq_dec n2 0) as [->|E]; [by rewrite !load_n_zero|].
    by rewrite (Hn2 E), Z.mod_same by lia.
  - by rewrite <- E2, load_n_zero.
Qed.

(** A cell is free when the writer may overwrite it: it is not one of the
    readable cells. *)
Definition readable_cell (rb : jack_ringbuffer_t) (j : Z) : Prop :=
  0 <= j < size rb /\ (j - read_ptr rb) mod size rb < zlen (contents rb).

Definition in_vec (v : jack_ringbuffer_data_t) (j : Z) : Prop :=
  match vec_buf v with Some off => off <= j < off + vec_len v | None => False end.

Lemma write_vector_free rb :
  wf rb ->
  let '(v0, v1) := jack_ringbuffer_get_write_vector rb in
  vec_len v0 + vec_len v1 = size rb - 1 - zlen (contents rb) /\
  forall j, in_vec v0 j \/ in_vec v1 j -> 0 <= j < size rb /\ ~ readable_cell rb j.
Proof.
  intros H. rb_facts rb H. unfold jack_ringbuffer_get_write_vector.
  fold (jack_ringbuffer_write_space rb). rewrite <- write_space_contents by done.
  set (n := jack_ringbuffer_write_space rb).
  assert (Hn : 0 <= n < size rb).
  { subst n. rewrite write_space_mod by done. apply Z.mod_pos_bound. lia. }
  pose proof (contents_length rb H) as Hcl. rewrite read_space_mod in Hcl by done.
  assert (Hw := write_space_contents rb H). fold n in Hw.
  destruct (two_part rb (write_ptr rb) n) as (n1 & n2 & Heq & Hsum & ? & ? & ? & Hn2); [done..|].
  assert (Hfree : forall i, 0 <= i < n -> forall j, j = (write_ptr rb + i) mod size rb ->
            ~ readable_cell rb j).
  { intros i Hi j -> [_ Hlt]. revert Hlt. rewrite Zminus_mod_idemp_l.
    replace (write_ptr rb + i - read_ptr rb) with (write_ptr rb - read_ptr rb + i) by lia.
    rewrite <- Zplus_mod_idemp_l, <- Hcl. mod_cases. lia. }
  destruct (_ >? size rb); injection Heq as E1 E2; unfold in_vec; cbn; rewrite ?E1, ?E2;
    (split; [lia|]); intros j Hj.
  - destruct (Z.eq_dec n2 0) as [->|E].
    + split; [lia|]. apply (Hfree (j - write_ptr rb)); [lia|]. mod_cases. lia.
    + specialize (Hn2 E). split; [lia|]. destruct Hj.
      * apply (Hfree (j - write_ptr rb)); [lia|]. mod_cases. lia.
      * apply (Hfree (j + n1)); [lia|]. mod_cases. lia.
  - split; [lia|]. apply (Hfree (j - write_ptr rb)); [lia|]. mod_cases. lia.
Qed.

Lemma power_loop_spec fuel p sz :
  1 <= p <= 30 -> 31 - p <= Z.of_nat fuel -> 0 <= sz <= 2 ^ 30 ->
  exists q, power_of_two_loop fuel p sz = Some q /\ p <= q <= 30 /\ sz <= 2 ^ q /\
            (p < q -> 2 ^ (q - 1) < sz).
Proof.
  revert p. induction fuel as [|fuel IH]; intros p Hp Hf Hsz; [lia|].
  cbn [power_of_two_loop]. destruct (Z.ltb_spec 30 p); [lia|].
  rewrite Z.shiftl_1_l. destruct (Z.ltb_spec (2 ^ p) sz) as [Hlt|].
  - destruct (Z.eq_dec p 30) as [->|]; [lia|].
    destruct (IH (p + 1)) as (q & -> & ? & ? & Hq); [lia..|].
    exists q. split_and!; [done|lia|lia|done|]. intros _.
    destruct (Z.eq_dec q (p + 1)) as [->|]; [by replace (p + 1 - 1) with p by lia|].
    apply Hq. lia.
  - exists p. split_and!; [done|lia|lia|done|lia].
Qed.

Lemma power_loop_overflow fuel p sz :
  1 <= p -> 2 ^ 30 < sz -> power_of_two_loop fuel p sz = None.
Proof.
  revert p. induction fuel as [|fuel IH]; intros p Hp Hsz; [done|].
  cbn [power_of_two_loop]. destruct (Z.ltb_spec 30 p); [done|].
  rewrite Z.shiftl_1_l. assert (2 ^ p <= 2 ^ 30) by (apply Z.pow_le_mono_r; lia).
  destruct (Z.ltb_spec (2 ^ p) sz); [|lia]. apply IH; lia.
Qed.

(** For every request of up to 2^30 bytes, and whenever both allocations
    succeed, the constructor returns an empty well-formed buffer whose size is
    the smallest power of two (at least 2) that holds the request, with room
    for [size - 1] bytes.  The search loop therefore always ends. *)
Theorem ringbuffer_create_ok (fresh : Z -> option (list Z)) sz :
  0 <= sz <= 2 ^ 30 ->
  (forall n, 0 <= n -> exists b, fresh n = Some b /\ zlen b = n) ->
  exists rb, jack_ringbuffer_create true fresh sz = Created rb /\
    wf rb /\ contents rb = [] /\ jack_ringbuffer_write_space rb = size rb - 1 /\
    sz <= size rb /\ (forall k, 1 <= k -> sz <= 2 ^ k -> size rb <= 2 ^ k).
Proof.
  intros Hsz Hf. unfold jack_ringbuffer_create. cbn [negb].
  destruct (power_loop_spec 31 1 sz) as (q & -> & Hq & Hle & Hmin); [lia..|].
  rewrite Z.shiftl_1_l. destruct (Hf (2 ^ q)) as (b & -> & Hb); [lia|].
  eexists. split; [reflexivity|].
  assert (Hw : wf {| rb_buf := b; write_ptr := 0; read_ptr := 0; size := 2 ^ q;
                     size_mask := 2 ^ q - 1; mlocked := 0 |})
    by (assert (0 < 2 ^ q) by lia; constructor; cbn; [exists q; lia|lia..]).
  split_and!; [done|..|done|].
  - unfold contents. cbn. by rewrite Z.mod_0_l by lia.
  - rewrite write_space_mod by done. cbn [write_ptr read_ptr size]. mod_cases. lia.
  - cbn. intros k Hk Hszk. apply Z.pow_le_mono_r; [lia|].
    destruct (Z.le_gt_cases q k); [done|]. exfalso.
    assert (2 ^ k <= 2 ^ (q - 1)) by (apply Z.pow_le_mono_r; lia). lia.
Qed.

(** C2's hypotheses hold for a request of 1000 bytes. *)
Lemma ringbuffer_create_ok_witness :
  exists rb, jack_ringbuffer_create true (fun n => Some (replicate (Z.to_nat n) 0)) 1000
             = Created rb /\ wf rb.
Proof.
  destruct (ringbuffer_create_ok (fun n => Some (replicate (Z.to_nat n) 0)) 1000)
    as (rb & E & Hw & _).
  - lia.
  - intros n Hn. eexists. split; [reflexivity|]. rewrite length_replicate. lia.
  - exists rb. by split.
Defined.

(** A request of more than 2^30 bytes makes the size loop shift a 1 into
    the sign bit of an [int]: the constructor has no defined result, although
    its comment promises a size rounded up to the next power of two. *)
Theorem ringbuffer_create_overflow (fresh : Z -> option (list Z)) sz :
  2 ^ 30 < sz -> jack_ringbuffer_create true fresh sz = CreateUndefined.
Proof. intros. unfold jack_ringbuffer_create. by rewrite power_loop_overflow by lia. Qed.

Lemma ringbuffer_create_overflow_witness :
  jack_ringbuffer_create true (fun _ => None) (2 ^ 30 + 1) = CreateUndefined.
Proof. apply ringbuffer_create_overflow. lia. Defined.

(** The two parts of the read vector are exactly the readable bytes in
    order, and the two parts of the write vector are exactly the free space:
    inside the block, of total length [size - 1 - readable], and never
    overlapping a readable cell. *)
Theorem ringbuffer_vectors rb :
  wf rb ->
  (let '(v0, v1) := jack_ringbuffer_get_read_vector rb in
   vec_bytes (rb_buf rb) v0 ++ vec_bytes (rb_buf rb) v1 = contents rb /\
   vec_len v0 + vec_len v1 = jack_ringbuffer_read_space rb) /\
  (let '(v0, v1) := jack_ringbuffer_get_write_vector rb in
   vec_len v0 + vec_len v1 = jack_ringbuffer_write_space rb /\
   forall j, in_vec v0 j \/ in_vec v1 j -> 0 <= j < size rb /\ ~ readable_cell rb j).
Proof.
  intros H. split.
  - rewrite <- contents_length by done. by apply read_vector_contents.
  - rewrite write_space_contents by done. by apply write_vector_free.
Qed.

(** A buffer of 8 cells whose 3 readable bytes wrap around the end. *)
Definition sample_rb : jack_ringbuffer_t :=
  {| rb_buf := [12; 0; 0; 0; 0; 0; 10; 11]; write_ptr := 1; read_ptr := 6;
     size := 8; size_mask := 7; mlocked := 0 |}.

Lemma sample_rb_wf : wf sample_rb.
Proof. constructor; cbn; [exists 3|..]; lia. Qed.

Lemma ringbuffer_refines_queue_witness :
  run_ops sample_rb [Write [1; 2; 3; 4; 5]; Peek 2; Read 4; ReadAdvance 1; Read 10; Reset]
  = [(4, []); (2, [10; 11]); (4, [10; 11; 12; 1]); (0, []); (2, [3; 4]); (0, [])].
Proof.
  rewrite (ringbuffer_refines_queue sample_rb).
  - reflexivity.
  - exact sample_rb_wf.
  - vm_compute. repeat split; discriminate.
Defined.

Lemma ringbuffer_vectors_witness :
  (let '(v0, v1) := jack_ringbuffer_get_read_vector sample_rb in
   vec_bytes (rb_buf sample_rb) v0 ++ vec_bytes (rb_buf sample_rb) v1) = [10; 11; 12].
Proof.
  pose proof (ringbuffer_vectors sample_rb sample_rb_wf) as [H _].
  destruct (jack_ringbuffer_get_read_vector sample_rb) as [v0 v1].
  destruct H as [E _]. exact E.
Defined.

End RingBuffer.
