(* ===== verification/RingBufferThreads.v ===== *)
(** * One reader and one writer (libjack/ringbuffer.c, concurrency)

    The header of ringbuffer.c states that the buffer is safe for one read
    thread and one write thread.  Here [jack_ringbuffer_write] and
    [jack_ringbuffer_read] are cut into their memory accesses: the load of the
    other side's pointer, each byte of the two [memcpy] calls, and each store
    of the own pointer.  The two threads interleave arbitrarily (sequentially
    consistent memory).  [sent] and [received] record the bytes published by
    the writer and returned to the reader's caller. *)

From S2P Require Import Prelude RingBuffer.
Import RingBuffer.

Local Open Scope Z_scope.

Module Threads.

(** Control points of the writer.  [WCopy pos todo seg rest]: the memcpy of
    segment [seg] is under way, [todo] is still to be stored from index [pos]
    on; [rest] is the second segment. *)
Inductive wpc :=
| WIdle
| WCopy (pos : Z) (todo seg rest : list Z).

(** Control points of the reader.  [RCopy pos todo seg n2 got]: [todo] bytes
    of a segment of [seg] bytes are still to be loaded from index [pos] on, a
    second segment of [n2] bytes follows, [got] is at [dest] already. *)
Inductive rpc :=
| RIdle
| RCopy (pos todo seg n2 : Z) (got : list Z).

Record cstate := mk_c {
  c_rb : jack_ringbuffer_t;
  c_w : wpc;
  c_r : rpc;
  sent : list Z;
  received : list Z
}.

(** Up to the first [memcpy]: the write space is computed from one load of
    each pointer, then the transfer is split in two. *)
Definition write_start (rb : jack_ringbuffer_t) (src : list Z) (cnt : Z) : wpc :=
  let free_cnt := jack_ringbuffer_write_space rb in
  if free_cnt =? 0 then WIdle
  else
    let to_write := if cnt >? free_cnt then free_cnt else cnt in
    let cnt2 := u64 (write_ptr rb + to_write) in
    let '(n1, n2) :=
      if cnt2 >? size rb
      then (u64 (size rb - write_ptr rb), Z.land cnt2 (size_mask rb))
      else (to_write, 0) in
    WCopy (write_ptr rb) (load_n src 0 n1) (load_n src 0 n1) (load_n src n1 n2).

Definition read_start (rb : jack_ringbuffer_t) (cnt : Z) : rpc :=
  let free_cnt := jack_ringbuffer_read_space rb in
  if free_cnt =? 0 then RIdle
  else
    let to_read := if cnt >? free_cnt then free_cnt else cnt in
    let cnt2 := u64 (read_ptr rb + to_read) in
    let '(n1, n2) :=
      if cnt2 >? size rb
      then (u64 (size rb - read_ptr rb), Z.land cnt2 (size_mask rb))
      else (to_read, 0) in
    RCopy (read_ptr rb) n1 n1 n2 [].

(** The writer's next access. *)
Definition write_step (rb : jack_ringbuffer_t) (w : wpc)
    : jack_ringbuffer_t * wpc * list Z :=
  match w with
  | WIdle => (rb, WIdle, [])
  | WCopy pos (x :: todo) seg rest =>
      (set_buf rb (store_n (rb_buf rb) pos [x]), WCopy (pos + 1) todo seg rest, [])
  | WCopy pos [] seg rest =>
      let rb' := set_write_ptr rb (Z.land (u64 (write_ptr rb + zlen seg)) (size_mask rb)) in
      (rb', match rest with [] => WIdle | _ => WCopy (write_ptr rb') rest rest [] end, seg)
  end.

(** The reader's next access; the last one hands [got] to the caller. *)
Definition read_step (rb : jack_ringbuffer_t) (r : rpc)
    : jack_ringbuffer_t * rpc * list Z :=
  match r with
  | RIdle => (rb, RIdle, [])
  | RCopy pos todo seg n2 got =>
      if 0 <? todo then
        (rb, RCopy (pos + 1) (todo - 1) seg n2 (got ++ load_n (rb_buf rb) pos 1), [])
      else
        let rb' := set_read_ptr rb (Z.land (u64 (read_ptr rb + seg)) (size_mask rb)) in
        if negb (n2 =? 0) then (rb', RCopy (read_ptr rb') n2 n2 0 got, [])
        else (rb', RIdle, got)
  end.

Inductive cstep : cstate -> cstate -> Prop :=
| step_write_start rb r s rc src cnt :
    0 <= cnt <= zlen src ->
    cstep (mk_c rb WIdle r s rc) (mk_c rb (write_start rb src cnt) r s rc)
| step_write rb w r s rc rb' w' out :
    write_step rb w = (rb', w', out) ->
    cstep (mk_c rb w r s rc) (mk_c rb' w' r (s ++ out) rc)
| step_read_start rb w s rc cnt :
    0 <= cnt ->
    cstep (mk_c rb w RIdle s rc) (mk_c rb w (read_start rb cnt) s rc)
| step_read rb w r s rc rb' r' out :
    read_step rb r = (rb', r', out) ->
    cstep (mk_c rb w r s rc) (mk_c rb' w r' s (rc ++ out)).

(** ** The invariant

    [W] and [R] count the bytes published and released since the start, so
    that the pointers are [W] and [R] modulo the size. *)

(** Bytes already loaded by the read call in progress. *)
Definition in_flight (r : rpc) : list Z :=
  match r with RIdle => [] | RCopy _ _ _ _ got => got end.

(** How far the read in progress has loaded past the read pointer. *)
Definition loaded (r : rpc) : Z :=
  match r with RIdle => 0 | RCopy _ todo seg _ _ => seg - todo end.

Definition writer_ok (rb : jack_ringbuffer_t) (W R : Z) (w : wpc) : Prop :=
  match w with
  | WIdle => True
  | WCopy pos todo seg rest =>
      let done := zlen seg - zlen todo in
      0 <= done /\ todo = drop (Z.to_nat done) seg /\
      pos = write_ptr rb + done /\ write_ptr rb + zlen seg <= size rb /\
      (rest <> [] -> write_ptr rb + zlen seg = size rb) /\
      W + zlen seg + zlen rest <= R + size rb - 1 /\
      forall i, 0 <= i < done ->
        rb_buf rb !!! Z.to_nat ((W + i) mod size rb) = seg !!! Z.to_nat i
  end.

Definition reader_ok (rb : jack_ringbuffer_t) (W R : Z) (r : rpc) : Prop :=
  match r with
  | RIdle => True
  | RCopy pos todo seg n2 got =>
      0 <= todo <= seg /\ 0 <= n2 /\ pos = read_ptr rb + (seg - todo) /\
      read_ptr rb + seg <= size rb /\ (n2 <> 0 -> read_ptr rb + seg = size rb) /\
      R + seg + n2 <= W
  end.

Record inv (c : cstate) (W R : Z) : Prop := {
  i_wf : wf (c_rb c);
  i_R : 0 <= R;
  i_room : R <= W <= R + size (c_rb c) - 1;
  i_w : write_ptr (c_rb c) = W mod size (c_rb c);
  i_r : read_ptr (c_rb c) = R mod size (c_rb c);
  i_sent : zlen (sent c) = W;
  i_cells : forall i, R <= i < W ->
    rb_buf (c_rb c) !!! Z.to_nat (i mod size (c_rb c)) = sent c !!! Z.to_nat i;
  i_writer : writer_ok (c_rb c) W R (c_w c);
  i_reader : reader_ok (c_rb c) W R (c_r c);
  i_received : received c ++ in_flight (c_r c) = take (Z.to_nat (R + loaded (c_r c))) (sent c)
}.

(** ** Modular windows *)

Lemma mod_window a b s : 0 < s -> a < b < a + s -> a mod s <> b mod s.
Proof.
  intros Hs Hab E. pose proof (Z.div_mod a s). pose proof (Z.div_mod b s).
  assert (b - a = s * (b / s - a / s)) by lia.
  assert (0 < b / s - a / s < 1) by nia. lia.
Qed.

Lemma mod_shift a k s : 0 < s -> 0 <= k -> a mod s + k < s -> (a + k) mod s = a mod s + k.
Proof.
  intros. rewrite <- Zplus_mod_idemp_l. apply Z.mod_small.
  pose proof (Z.mod_pos_bound a s). lia.
Qed.

Lemma mod_distance a b s : 0 < s -> 0 <= a - b < s -> (a mod s - b mod s) mod s = a - b.
Proof.
  intros. rewrite <- Zminus_mod. by apply Z.mod_small.
Qed.

Lemma take_snoc_total (l : list Z) n :
  0 <= n < zlen l -> take (Z.to_nat (n + 1)) l = take (Z.to_nat n) l ++ [l !!! Z.to_nat n].
Proof.
  intros. replace (Z.to_nat (n + 1)) with (S (Z.to_nat n)) by lia.
  apply take_S_r. apply list_lookup_lookup_total_lt. lia.
Qed.

Lemma load_one (b : list Z) pos :
  0 <= pos < zlen b -> load_n b pos 1 = [b !!! Z.to_nat pos].
Proof.
  intros. unfold load_n.
  rewrite (drop_S b (b !!! Z.to_nat pos) (Z.to_nat pos)); [done|].
  apply list_lookup_lookup_total_lt. lia.
Qed.

(** ** Each access preserves the invariant *)

Section steps.
Context (c : cstate) (W R : Z) (H : inv c W R).
Let rb := c_rb c.
Let sz := size rb.

Lemma inv_facts : 2 <= sz <= 2 ^ 62 /\ 0 <= write_ptr rb < sz /\ 0 <= read_ptr rb < sz /\
  0 <= R /\ R <= W <= R + sz - 1 /\ zlen (rb_buf rb) = sz.
Proof using H.
  destruct H as [Hwf HR Hroom _ _ _ _ _ _ _]. subst rb sz.
  split_and!; try apply wf_bounds; try apply wf_w; try apply wf_r; try apply wf_len; done || lia.
Qed.

Lemma free_cells : jack_ringbuffer_write_space rb = sz - 1 - (W - R).
Proof using H.
  destruct inv_facts as (? & ? & ? & ? & ? & ?). destruct H as [Hwf _ _ Hw Hr _ _ _ _ _].
  rewrite write_space_mod by done. subst rb. fold sz in Hw, Hr |- *. rewrite Hw, Hr.
  replace (R mod sz - W mod sz - 1) with (- (W mod sz - R mod sz) - 1) by lia.
  assert (E := mod_distance W R sz). 
  destruct (Z.ltb_spec (W mod sz) (R mod sz)); revert E;
    pose proof (Z.mod_pos_bound W sz); pose proof (Z.mod_pos_bound R sz); mod_cases; lia.
Qed.

Lemma full_cells : jack_ringbuffer_read_space rb = W - R.
Proof using H.
  destruct inv_facts as (? & ? & ? & ? & ? & ?). destruct H as [Hwf _ _ Hw Hr _ _ _ _ _].
  rewrite read_space_mod by done. subst rb. fold sz in Hw, Hr |- *. rewrite Hw, Hr.
  apply mod_distance; lia.
Qed.

Lemma write_start_ok src cnt :
  0 <= cnt <= zlen src -> writer_ok rb W R (write_start rb src cnt).
Proof using H.
  intros Hc. destruct inv_facts as (? & ? & ? & ? & ? & ?). unfold write_start.
  rewrite free_cells. destruct (Z.eqb_spec (sz - 1 - (W - R)) 0) as [_|Hnz]; [done|].
  set (n := if cnt >? _ then _ else cnt).
  assert (Hn : 0 <= n <= sz - 1 - (W - R) /\ n <= zlen src) by (subst n; bool_cases; lia).
  destruct (two_part rb (write_ptr rb) n) as (n1 & n2 & Heq & Hsum & ? & ? & Hle & Hn2);
    [apply H|done|fold sz; lia|].
  rewrite Heq. clear Heq.
  assert (L1 : zlen (load_n src 0 n1) = n1) by (apply length_load_n; lia).
  assert (L2 : zlen (load_n src n1 n2) = n2) by (apply length_load_n; lia).
  cbn [writer_ok]. rewrite Z.sub_diag, L1, L2, drop_0. split_and!; try done; try lia.
  intros Hrest. apply Hn2. intros ->. by apply Hrest.
Qed.

Lemma read_start_ok cnt :
  0 <= cnt -> reader_ok rb W R (read_start rb cnt) /\
  in_flight (read_start rb cnt) = [] /\ loaded (read_start rb cnt) = 0.
Proof using H.
  intros Hc. destruct inv_facts as (? & ? & ? & ? & ? & ?). unfold read_start.
  rewrite full_cells. destruct (Z.eqb_spec (W - R) 0) as [_|Hnz]; [done|].
  set (n := if cnt >? _ then _ else cnt).
  assert (Hn : 0 <= n <= W - R) by (subst n; bool_cases; lia).
  destruct (two_part rb (read_ptr rb) n) as (n1 & n2 & Heq & Hsum & ? & ? & Hle & Hn2);
    [apply H|done|fold sz; lia|].
  rewrite Heq. cbn. split_and!; try done; lia.
Qed.

(** One byte of the writer's memcpy lands outside the readable window. *)
Lemma write_byte_ok pos x todo seg rest :
  c_w c = WCopy pos (x :: todo) seg rest ->
  inv (mk_c (set_buf rb (store_n (rb_buf rb) pos [x])) (WCopy (pos + 1) todo seg rest)
            (c_r c) (sent c) (received c)) W R.
Proof using H.
  intros E. destruct inv_facts as (? & ? & ? & ? & ? & Hlen).
  destruct H as [Hwf ? ? Hw Hr ? Hc Hwr ? ?]. rewrite E in Hwr. cbn [writer_ok] in Hwr.
  subst rb. fold sz in Hwr, Hc, Hw. set (d := zlen seg - zlen (x :: todo)) in *.
  destruct Hwr as (Hd & Htodo & Hpos & Hfit & Hrest & Hwin & Hdone).
  assert (Hlt : d < zlen seg) by (subst d; cbn; lia).
  assert (Epos : pos = (W + d) mod sz) by (rewrite mod_shift; lia).
  assert (Hx : seg !! Z.to_nat d = Some x).
  { rewrite <- (Nat.add_0_r (Z.to_nat d)), <- lookup_drop, <- Htodo. done. }
  assert (Hother : forall i, R <= i < W + d ->
    store_n (rb_buf (c_rb c)) pos [x] !!! Z.to_nat (i mod sz) =
    rb_buf (c_rb c) !!! Z.to_nat (i mod sz)).
  { intros i Hi. pose proof (mod_window i (W + d) sz).
    pose proof (Z.mod_pos_bound i sz). apply store_n_lookup_out; cbn; lia. }
  constructor; cbn; fold sz; try done.
  - apply wf_set_buf; [done|]. by rewrite length_store_n.
  - intros i Hi. rewrite Hother by lia. by apply Hc.
  - replace (zlen seg - zlen todo) with (d + 1) by (subst d; cbn; lia).
    split_and!; try done; try lia.
    + replace (Z.to_nat (d + 1)) with (Z.to_nat d + 1)%nat by lia.
      rewrite <- drop_drop, <- Htodo. done.
    + intros i Hi. destruct (Z.eq_dec i d) as [->|].
      * rewrite <- Epos, store_n_lookup_in by (cbn; lia). rewrite Z.sub_diag.
        symmetry. by apply list_lookup_total_correct.
      * rewrite Hother by lia. apply Hdone. lia.
Qed.

(** The store of the write pointer publishes the copied segment. *)
Lemma write_publish_ok pos seg rest :
  c_w c = WCopy pos [] seg rest ->
  let rb' := set_write_ptr rb (Z.land (u64 (write_ptr rb + zlen seg)) (size_mask rb)) in
  inv (mk_c rb' match rest with [] => WIdle | _ => WCopy (write_ptr rb') rest rest [] end
            (c_r c) (sent c ++ seg) (received c)) (W + zlen seg) R.
Proof using H.
  intros E. destruct inv_facts as (? & ? & ? & ? & ? & Hlen).
  destruct H as [Hwf ? ? Hw Hr Hs Hc Hwr Hrd Hrc]. rewrite E in Hwr. cbn [writer_ok] in Hwr.
  subst rb. fold sz in Hwr, Hc, Hw.
  destruct Hwr as (_ & _ & _ & Hfit & Hrest & Hwin & Hdone).
  rewrite advance_mod by (done || (fold sz; lia)). fold sz.
  constructor; cbn; fold sz; try done; try lia.
  - apply wf_set_write_ptr; [done|]. apply Z.mod_pos_bound. fold sz. lia.
  - by rewrite Hw, Zplus_mod_idemp_l.
  - rewrite length_app. lia.
  - intros i Hi. destruct (Z.ltb_spec i W).
    + rewrite Hc by lia. rewrite lookup_total_app_l; [done|]. lia.
    + replace i with (W + (i - W)) at 1 by lia. rewrite Hdone by (cbn; lia).
      rewrite lookup_total_app_r by lia. f_equal. lia.
  - destruct rest as [|y rest']; [done|]. cbn [writer_ok]. cbn [write_ptr set_write_ptr].
    rewrite Hrest, Z.mod_same, Z.sub_diag, drop_0 by (done || lia). cbn [size set_write_ptr].
    fold sz. split_and!; try done; cbn in *; lia.
  - destruct (c_r c); [done|]. cbn in Hrd |- *. lia.
  - rewrite Hrc. rewrite take_app_le; [done|].
    destruct (c_r c); cbn in Hrd |- *; lia.
Qed.

Lemma read_byte_ok pos todo seg n2 got :
  c_r c = RCopy pos todo seg n2 got -> 0 < todo ->
  inv (mk_c rb (c_w c) (RCopy (pos + 1) (todo - 1) seg n2 (got ++ load_n (rb_buf rb) pos 1))
            (sent c) (received c)) W R.
Proof using H.
  intros E Hpos. destruct inv_facts as (? & ? & ? & ? & ? & Hlen).
  destruct H as [Hwf ? ? Hw Hr Hs Hc Hwr Hrd Hrc]. rewrite E in Hrd, Hrc. subst rb.
  cbn in Hrd, Hrc. fold sz in Hrd, Hc, Hr.
  constructor; try done; cbn; fold sz; [lia|].
  assert (Epos : pos = (R + (seg - todo)) mod sz) by (rewrite mod_shift; lia).
  rewrite load_one by lia. rewrite app_assoc, Hrc.
  replace (R + (seg - (todo - 1))) with (R + (seg - todo) + 1) by lia.
  rewrite take_snoc_total by lia. rewrite Epos, Hc by lia. done.
Qed.

(** The store of the read pointer releases the loaded segment. *)
Lemma read_release_ok pos todo seg n2 got :
  c_r c = RCopy pos todo seg n2 got -> todo <= 0 ->
  let rb' := set_read_ptr rb (Z.land (u64 (read_ptr rb + seg)) (size_mask rb)) in
  inv (if negb (n2 =? 0)
       then mk_c rb' (c_w c) (RCopy (read_ptr rb') n2 n2 0 got) (sent c) (received c)
       else mk_c rb' (c_w c) RIdle (sent c) (received c ++ got)) W (R + seg).
Proof using H.
  intros E Hz. destruct inv_facts as (? & ? & ? & ? & ? & Hlen).
  destruct H as [Hwf ? ? Hw Hr Hs Hc Hwr Hrd Hrc]. rewrite E in Hrd, Hrc. subst rb.
  cbn in Hrd, Hrc. fold sz in Hrd, Hc, Hr. assert (todo = 0) as -> by lia.
  rewrite advance_mod by (done || (fold sz; lia)). fold sz.
  assert (Hr' : (read_ptr (c_rb c) + seg) mod sz = (R + seg) mod sz)
    by (by rewrite Hr, Zplus_mod_idemp_l).
  assert (Hw' : wf (set_read_ptr (c_rb c) ((read_ptr (c_rb c) + seg) mod sz)))
    by (apply wf_set_read_ptr; [done|apply Z.mod_pos_bound; fold sz; lia]).
  assert (Hwr' : writer_ok (set_read_ptr (c_rb c) ((read_ptr (c_rb c) + seg) mod sz))
                   W (R + seg) (c_w c)).
  { destruct (c_w c); [done|]. cbn in Hwr |- *. fold sz in Hwr |- *.
    destruct Hwr as (? & ? & ? & ? & ? & ? & ?). split_and!; try done; lia. }
  destruct (Z.eqb_spec n2 0) as [->|Hn2]; cbn [negb]; constructor; cbn; fold sz;
    try done; try lia.
  - intros i Hi. apply Hc. lia.
  - rewrite app_nil_r, Hrc. do 2 f_equal. lia.
  - intros i Hi. apply Hc. lia.
  - rewrite (proj1 (proj2 (proj2 (proj2 (proj2 Hrd))))), Z.mod_same by lia. lia.
  - rewrite Hrc. do 2 f_equal. lia.
Qed.
End steps.

(** Dispatch of a step to the lemma of its access. *)
Lemma step_inv c c' W R :
  inv c W R -> cstep c c' -> exists W' R', inv c' W' R'.
Proof.
  intros H Hs. destruct Hs as [rb r s rc src cnt Hc|rb w r s rc rb' w' out E
                              |rb w s rc cnt Hc|rb w r s rc rb' r' out E].
  - exists W, R. pose proof (write_start_ok _ W R H src cnt Hc). destruct H. by constructor.
  - destruct w as [|pos [|x todo] seg rest]; cbn in E; injection E as <- <- <-.
    + exists W, R. by rewrite app_nil_r.
    + exists (W + zlen seg), R. by apply (write_publish_ok _ W R H pos seg rest).
    + exists W, R. rewrite app_nil_r. by apply (write_byte_ok _ W R H pos x todo seg rest).
  - exists W, R. pose proof (read_start_ok _ W R H cnt Hc) as (? & Hf & Hl).
    destruct H. constructor; cbn in *; try done. by rewrite Hf, Hl.
  - destruct r as [|pos todo seg n2 got]; cbn in E.
    + injection E as <- <- <-. exists W, R. by rewrite app_nil_r.
    + destruct (Z.ltb_spec 0 todo).
      * injection E as <- <- <-. exists W, R. rewrite app_nil_r.
        by apply (read_byte_ok _ W R H pos todo seg n2 got).
      * exists W, (R + seg). pose proof (read_release_ok _ W R H pos todo seg n2 got) as Hi.
        destruct (negb (n2 =? 0)); injection E as <- <- <-; rewrite ?app_nil_r;
          by apply Hi.
Qed.

Definition initial (rb : jack_ringbuffer_t) : cstate := mk_c rb WIdle RIdle [] [].

Lemma initial_inv rb :
  wf rb -> write_ptr rb = 0 -> read_ptr rb = 0 -> inv (initial rb) 0 0.
Proof.
  intros H Hw Hr. pose proof (wf_bounds rb H).
  constructor; cbn; try done; try lia; by rewrite ?Hw, ?Hr, Z.mod_0_l by lia.
Qed.

Lemma reachable_inv rb c :
  wf rb -> write_ptr rb = 0 -> read_ptr rb = 0 -> rtc cstep (initial rb) c ->
  exists W R, inv c W R.
Proof.
  intros H Hw Hr Hs. pose proof (initial_inv rb H Hw Hr) as Hi. revert Hi.
  generalize 0 at 1 as W. generalize 0 as R. 
  induction Hs as [|c1 c2 c3 H12 _ IH]; intros R W Hi; [by eauto|].
  destruct (step_inv _ _ _ _ Hi H12) as (W' & R' & Hi'). by apply (IH R' W').
Qed.

Lemma inv_contents c W R :
  inv c W R -> contents (c_rb c) = drop (Z.to_nat R) (sent c).
Proof.
  intros H. destruct (inv_facts c W R H) as (? & ? & ? & ? & ? & ?).
  assert (Hf := full_cells c W R H). pose proof (i_wf c W R H) as Hwf.
  rewrite read_space_mod in Hf by done. unfold contents. rewrite Hf.
  pose proof (i_sent c W R H) as Hs.
  rewrite (slice_of_prefix _ (drop (Z.to_nat R) (sent c))).
  - apply take_ge. rewrite length_drop. lia.
  - lia.
  - rewrite length_drop. lia.
  - intros i Hi. rewrite (i_r c W R H), Zplus_mod_idemp_l, (i_cells c W R H) by lia.
    rewrite lookup_total_drop. f_equal. lia.
Qed.

(** ** Agreement with the sequential definitions

    Left alone, each thread completes its call in finitely many accesses and
    does what the sequential definition says. *)

Lemma write_segment_run rb pos todo seg rest r s rc :
  0 <= pos ->
  let rb1 := set_buf rb (store_n (rb_buf rb) pos todo) in
  let rb2 := set_write_ptr rb1 (Z.land (u64 (write_ptr rb1 + zlen seg)) (size_mask rb1)) in
  rtc cstep (mk_c rb (WCopy pos todo seg rest) r s rc)
    (mk_c rb2 match rest with [] => WIdle | _ => WCopy (write_ptr rb2) rest rest [] end
          r (s ++ seg) rc).
Proof.
  revert rb pos. induction todo as [|x todo IH]; intros rb pos Hp rb1 rb2.
  - apply rtc_once. subst rb2 rb1. rewrite store_n_nil.
    replace (set_buf rb (rb_buf rb)) with rb by (by destruct rb). by apply step_write.
  - eapply rtc_l; [apply step_write; reflexivity|]. rewrite app_nil_r.
    subst rb2 rb1. rewrite (store_n_cons (rb_buf rb) pos x todo) by done. apply IH. lia.
Qed.

Lemma read_segment_run rb w pos todo seg n2 got s rc :
  0 <= pos -> 0 <= todo ->
  let got' := got ++ load_n (rb_buf rb) pos todo in
  let rb' := set_read_ptr rb (Z.land (u64 (read_ptr rb + seg)) (size_mask rb)) in
  rtc cstep (mk_c rb w (RCopy pos todo seg n2 got) s rc)
    (if negb (n2 =? 0) then mk_c rb' w (RCopy (read_ptr rb') n2 n2 0 got') s rc
     else mk_c rb' w RIdle s (rc ++ got')).
Proof.
  intros Hp Ht. remember (Z.to_nat todo) as k eqn:Hk. revert pos todo got Hp Ht Hk.
  induction k as [|k IH]; intros pos todo got Hp Ht Hk got' rb'.
  - assert (todo = 0) as -> by lia. subst got'. rewrite load_n_zero, app_nil_r.
    apply rtc_once. destruct (n2 =? 0) eqn:E; cbn [negb].
    + apply step_read. cbn. by rewrite E.
    + rewrite <- (app_nil_r rc) at 2. apply step_read. cbn. by rewrite E.
  - assert (Ht' : 0 < todo) by lia.
    eapply rtc_l.
    { apply (step_read rb w _ s rc rb (RCopy (pos + 1) (todo - 1) seg n2
               (got ++ load_n (rb_buf rb) pos 1)) []).
      cbn. by destruct (Z.ltb_spec 0 todo); [|lia]. }
    rewrite app_nil_r. subst got'.
    assert (load_n (rb_buf rb) pos todo =
            load_n (rb_buf rb) pos 1 ++ load_n (rb_buf rb) (pos + 1) (todo - 1)) as ->
      by (rewrite load_n_app by lia; f_equal; lia).
    rewrite app_assoc. apply IH; lia.
Qed.

Lemma write_completes rb r src cnt s rc :
  wf rb -> 0 <= cnt <= zlen src ->
  let '(n, rb') := jack_ringbuffer_write rb src cnt in
  rtc cstep (mk_c rb WIdle r s rc) (mk_c rb' WIdle r (s ++ load_n src 0 n) rc).
Proof.
  intros H Hw. rb_facts rb H.
  unfold jack_ringbuffer_write.
  assert (Hst := step_write_start rb r s rc src cnt Hw). revert Hst. unfold write_start.
  destruct (_ =? 0) eqn:E0; [rewrite load_n_zero, app_nil_r; by intros; apply rtc_once|].
  set (n := if cnt >? _ then _ else cnt).
  assert (Hn : 0 <= n < size rb /\ n <= zlen src).
  { apply Z.eqb_neq in E0. pose proof (Z.mod_pos_bound (read_ptr rb - write_ptr rb - 1) (size rb)) as Hm.
    rewrite <- write_space_mod in Hm by done. subst n. bool_cases; lia. }
  destruct (two_part rb (write_ptr rb) n) as (n1 & n2 & Heq & Hsum & ? & ? & ? & Hn2); [done|lia..|].
  rewrite Heq. intros Hst.
  assert (L1 : zlen (load_n src 0 n1) = n1) by (apply length_load_n; lia).
  assert (L2 : zlen (load_n src n1 n2) = n2) by (apply length_load_n; lia).
  assert (Hrun := rtc_l cstep _ _ _ Hst (write_segment_run rb (write_ptr rb)
    (load_n src 0 n1) (load_n src 0 n1) (load_n src n1 n2) r s rc ltac:(lia))).
  clear Hst Heq. revert Hrun. cbn. rewrite L1.
  destruct (Z.eqb_spec n2 0) as [->|E]; cbn [negb]; intros Hrun.
  - rewrite load_n_zero, Z.add_0_r in *. by subst n1.
  - destruct (load_n src n1 n2) as [|y l] eqn:El; [cbn in L2; lia|]. rewrite <- El in *.
    etrans; [exact Hrun|]. etrans; [apply write_segment_run|].
    { rewrite advance_mod by (done || lia). apply Z.mod_pos_bound. lia. }
    cbn. rewrite L2, <- app_assoc. rewrite <- Hsum, <- load_n_app by lia. done.
Qed.

Lemma read_completes rb w cnt s rc :
  wf rb -> 0 <= cnt ->
  let '(n, got, rb') := jack_ringbuffer_read rb cnt in
  rtc cstep (mk_c rb w RIdle s rc) (mk_c rb' w RIdle s (rc ++ got)).
Proof.
  intros H Hr. rb_facts rb H.
  unfold jack_ringbuffer_read.
  assert (Hst := step_read_start rb w s rc cnt Hr). revert Hst. unfold read_start.
  destruct (_ =? 0) eqn:E0; [rewrite app_nil_r; by intros; apply rtc_once|].
  set (n := if cnt >? _ then _ else cnt).
  assert (Hn : 0 <= n < size rb).
  { apply Z.eqb_neq in E0. pose proof (Z.mod_pos_bound (write_ptr rb - read_ptr rb) (size rb)) as Hm.
    rewrite <- read_space_mod in Hm by done. subst n. bool_cases; lia. }
  destruct (two_part rb (read_ptr rb) n) as (n1 & n2 & Heq & Hsum & ? & ? & ? & Hn2); [done|lia..|].
  rewrite Heq. intros Hst.
  assert (Hrun := rtc_l cstep _ _ _ Hst (read_segment_run rb w (read_ptr rb)
    n1 n1 n2 [] s rc ltac:(lia) ltac:(lia))).
  clear Hst Heq. revert Hrun. cbn.
  destruct (Z.eqb_spec n2 0) as [->|E]; cbn [negb]; intros Hrun; [done|].
  etrans; [exact Hrun|]. apply read_segment_run; [|done].
  rewrite advance_mod by (done || lia). apply Z.mod_pos_bound. lia.
Qed.

(** ** Main results *)

(** C9: however the memory accesses of one writing and one reading thread
    interleave, what the reader has received is always a prefix of what the
    writer has published, in order and unaltered; and whenever no read call
    is in progress, the bytes received followed by the bytes still in the
    buffer are exactly the bytes published. *)
Theorem spsc_fifo rb c :
  wf rb -> write_ptr rb = 0 -> read_ptr rb = 0 -> rtc cstep (initial rb) c ->
  received c `prefix_of` sent c /\
  (c_r c = RIdle -> received c ++ contents (c_rb c) = sent c).
Proof.
  intros Hwf Hw Hr Hs. destruct (reachable_inv rb c Hwf Hw Hr Hs) as (W & R & H).
  pose proof (i_received c W R H) as Hrc. split.
  - exists (in_flight (c_r c) ++ drop (Z.to_nat (R + loaded (c_r c))) (sent c)).
    by rewrite app_assoc, Hrc, take_drop.
  - intros E. rewrite E in Hrc. cbn in Hrc. rewrite app_nil_r, Z.add_0_r in Hrc.
    by rewrite Hrc, (inv_contents c W R H), take_drop.
Qed.

(** An execution in which the reader starts while the writer is between its
    two bytes: it sees the empty buffer, then the published bytes. *)
Lemma spsc_fifo_witness :
  let rb := {| rb_buf := [0; 0; 0; 0]; write_ptr := 0; read_ptr := 0;
               size := 4; size_mask := 3; mlocked := 0 |} in
  let c := mk_c {| rb_buf := [7; 8; 0; 0]; write_ptr := 2; read_ptr := 1;
                   size := 4; size_mask := 3; mlocked := 0 |} WIdle RIdle [7; 8] [7] in
  received c `prefix_of` sent c /\ (c_r c = RIdle -> received c ++ contents (c_rb c) = sent c).
Proof.
  intros rb c. apply (spsc_fifo rb c).
  - constructor; cbn; [exists 2|..]; lia.
  - reflexivity.
  - reflexivity.
  - eapply rtc_l; [apply (step_write_start rb RIdle [] [] [7; 8] 2); cbn; lia|].
    eapply rtc_l; [eapply step_write; reflexivity|].
    eapply rtc_l; [apply (step_read_start _ _ _ _ 1); lia|].
    eapply rtc_l; [eapply step_write; reflexivity|].
    eapply rtc_l; [eapply step_write; reflexivity|].
    eapply rtc_l; [apply (step_read_start _ _ _ _ 1); lia|].
    eapply rtc_l; [eapply step_read; reflexivity|].
    eapply rtc_l; [eapply step_read; reflexivity|].
    apply rtc_refl.
Defined.

(** With the other thread at rest, the writing thread completes a call in
    finitely many of its own accesses with the buffer, count and bytes of the
    sequential [jack_ringbuffer_write], and so does the reading thread. *)
Theorem threads_run_to_completion rb r w src wcnt rcnt s rc :
  wf rb -> 0 <= wcnt <= zlen src -> 0 <= rcnt ->
  (let '(n, rb') := jack_ringbuffer_write rb src wcnt in
   rtc cstep (mk_c rb WIdle r s rc) (mk_c rb' WIdle r (s ++ load_n src 0 n) rc)) /\
  (let '(n, got, rb') := jack_ringbuffer_read rb rcnt in
   rtc cstep (mk_c rb w RIdle s rc) (mk_c rb' w RIdle s (rc ++ got))).
Proof. intros H Hw Hr. split; [by apply write_completes|by apply read_completes]. Qed.

Lemma threads_run_to_completion_witness :
  rtc cstep (mk_c sample_rb WIdle RIdle [] [])
    (mk_c (jack_ringbuffer_write sample_rb [1; 2; 3] 3).2 WIdle RIdle [1; 2; 3] []).
Proof.
  refine (proj1 (threads_run_to_completion sample_rb RIdle WIdle [1; 2; 3] 3 0 [] [] _ _ _)).
  - exact sample_rb_wf.
  - cbn. lia.
  - lia.
Defined.

End Threads.
