(* ===== verification/JSList.v ===== *)
(** * Singly linked lists (jack/jslist.h)

    Every collection of the engine (clients, ports, connections, feeds) is a
    [JSList].  Two levels: the routines of the header as pointer programs on
    a heap of nodes, and the list functions they implement.  The pointer
    loops carry fuel, one unit per node visited; [None] is a read through a
    bad pointer or a loop that ran out of fuel, and the refinement theorems
    show that neither happens on a well-formed list when the fuel exceeds its
    length.  The other files use the list functions. *)

From S2P Require Import Prelude.

Module JSList.
Section slist.
Context {D : Type} `{!EqDecision D}.
Implicit Types (l k : list D) (d : D).

(** ** The list functions *)

(** [jack_slist_remove]: the first occurrence goes. *)
Fixpoint slist_remove d l : list D :=
  match l with
  | [] => []
  | x :: l => if decide (x = d) then l else x :: slist_remove d l
  end.

(** [jack_slist_find] returns the tail that starts at the datum. *)
Fixpoint slist_find d l : list D :=
  match l with
  | [] => []
  | x :: k => if decide (x = d) then l else slist_find d k
  end.

(** [lt a b] is [compare_func (a, b) < 0]. *)
Fixpoint slist_sort_merge (lt : D -> D -> bool) l1 : list D -> list D :=
  fix go l2 :=
    match l1, l2 with
    | x :: l1', y :: l2' => if lt x y then x :: slist_sort_merge lt l1' l2 else y :: go l2'
    | [], _ => l2
    | _, [] => l1
    end.

Fixpoint sort_fuel (lt : D -> D -> bool) (n : nat) l : list D :=
  match n, l with
  | S n, _ :: _ :: _ =>
      let h := length l / 2 in
      slist_sort_merge lt (sort_fuel lt n (take h l)) (sort_fuel lt n (drop h l))
  | _, _ => l
  end.

Definition slist_sort (lt : D -> D -> bool) l : list D := sort_fuel lt (length l) l.

(** ** The heap routines *)

Record JSNode := mk_node { data : D; next : option nat }.

Abbreviation heap := (gmap nat JSNode).

Definition set_next (a : nat) (p : option nat) (h : heap) : option heap :=
  match h !! a with
  | Some n => Some (<[a := mk_node (data n) p]> h)
  | None => None
  end.

(** [malloc] gives an unused address. *)
Definition jack_slist_prepend (p : option nat) d (h : heap) : heap * option nat :=
  let a := fresh (dom h) in (<[a := mk_node d p]> h, Some a).

(** The node before the end, from [a] on. *)
Fixpoint last_loop (fuel : nat) (a : nat) (h : heap) : option nat :=
  match fuel with
  | O => None
  | S fuel =>
      match h !! a with
      | None => None
      | Some n => match next n with None => Some a | Some b => last_loop fuel b h end
      end
  end.

Definition jack_slist_last (fuel : nat) (p : option nat) (h : heap) : option (option nat) :=
  match p with
  | None => Some None
  | Some a => match last_loop fuel a h with Some b => Some (Some b) | None => None end
  end.

(** The loop of [jack_slist_remove_link] and [jack_slist_remove]; [hit] is the
    test on the node, [prev] the node before [tmp]. *)
Fixpoint unlink_loop (hit : nat -> JSNode -> bool) (dealloc : bool) (fuel : nat)
    (lst prev tmp : option nat) (h : heap) : option (heap * option nat) :=
  match fuel with
  | O => None
  | S fuel =>
      match tmp with
      | None => Some (h, lst)
      | Some a =>
          match h !! a with
          | None => None
          | Some n =>
              if hit a n then
                match (match prev with Some b => set_next b (next n) h | None => Some h end) with
                | None => None
                | Some h =>
                    let lst := if decide (lst = Some a) then next n else lst in
                    let h := if dealloc then delete a h else <[a := mk_node (data n) None]> h in
                    Some (h, lst)
                end
              else unlink_loop hit dealloc fuel lst (Some a) (next n) h
          end
      end
  end.

Definition jack_slist_remove_link (fuel : nat) (p : option nat) (link : nat) (h : heap) :=
  unlink_loop (fun a _ => bool_decide (a = link)) false fuel p None p h.

(** The removed node has [next == NULL], so [jack_slist_free] frees it alone. *)
Definition jack_slist_remove (fuel : nat) (p : option nat) d (h : heap) :=
  unlink_loop (fun _ n => bool_decide (data n = d)) true fuel p None p h.

Fixpoint jack_slist_free (fuel : nat) (p : option nat) (h : heap) : option heap :=
  match fuel, p with
  | O, _ => None
  | S _, None => Some h
  | S fuel, Some a =>
      match h !! a with
      | Some n => jack_slist_free fuel (next n) (delete a h)
      | None => None
      end
  end.

Fixpoint length_loop (fuel : nat) (len : Z) (p : option nat) (h : heap) : option Z :=
  match fuel, p with
  | O, _ => None
  | S _, None => Some len
  | S fuel, Some a =>
      match h !! a with
      | Some n => length_loop fuel (u32 (len + 1)) (next n) h
      | None => None
      end
  end.

Definition jack_slist_length (fuel : nat) (p : option nat) (h : heap) : option Z :=
  length_loop fuel 0 p h.

Fixpoint jack_slist_find (fuel : nat) (p : option nat) d (h : heap) : option (option nat) :=
  match fuel, p with
  | O, _ => None
  | S _, None => Some None
  | S fuel, Some a =>
      match h !! a with
      | Some n => if decide (data n = d) then Some p else jack_slist_find fuel (next n) d h
      | None => None
      end
  end.

Definition jack_slist_append (fuel : nat) (p : option nat) d (h : heap)
    : option (heap * option nat) :=
  let a := fresh (dom h) in
  let h := <[a := mk_node d None]> h in
  match p with
  | None => Some (h, Some a)
  | Some _ =>
      match jack_slist_last fuel p h with
      | Some (Some b) => match set_next b (Some a) h with Some h => Some (h, p) | None => None end
      | _ => None
      end
  end.

Fixpoint copy_loop (fuel : nat) (last : nat) (p : option nat) (h : heap) : option heap :=
  match fuel, p with
  | O, _ => None
  | S _, None => Some h
  | S fuel, Some a =>
      match h !! a with
      | None => None
      | Some n =>
          let b := fresh (dom h) in
          match set_next last (Some b) (<[b := mk_node (data n) None]> h) with
          | Some h => copy_loop fuel b (next n) h
          | None => None
          end
      end
  end.

Definition jack_slist_copy (fuel : nat) (p : option nat) (h : heap) : option (heap * option nat) :=
  match p with
  | None => Some (h, None)
  | Some a =>
      match h !! a with
      | None => None
      | Some n =>
          let b := fresh (dom h) in
          match copy_loop fuel b (next n) (<[b := mk_node (data n) None]> h) with
          | Some h => Some (h, Some b)
          | None => None
          end
      end
  end.

(** [l->next = p], where [l == NULL] stands for the local head node, whose
    [next] is [hd]. *)
Definition link_tail (hd l p : option nat) (h : heap) : option (heap * option nat) :=
  match l with
  | None => Some (h, p)
  | Some a => match set_next a p h with Some h => Some (h, hd) | None => None end
  end.

Fixpoint merge_loop (lt : D -> D -> bool) (fuel : nat) (hd l l1 l2 : option nat) (h : heap)
    : option (heap * option nat) :=
  match fuel with
  | O => None
  | S fuel =>
      match l1, l2 with
      | Some a1, Some a2 =>
          match h !! a1, h !! a2 with
          | Some n1, Some n2 =>
              if lt (data n1) (data n2) then
                match link_tail hd l l1 h with
                | Some (h, hd) => merge_loop lt fuel hd l1 (next n1) l2 h
                | None => None
                end
              else
                match link_tail hd l l2 h with
                | Some (h, hd) => merge_loop lt fuel hd l2 l1 (next n2) h
                | None => None
                end
          | _, _ => None
          end
      | _, _ => link_tail hd l (match l1 with Some _ => l1 | None => l2 end) h
      end
  end.

Definition jack_slist_sort_merge (lt : D -> D -> bool) (fuel : nat) (l1 l2 : option nat) (h : heap) :=
  merge_loop lt fuel None None l1 l2 h.

(** [while ((l2 = l2->next) != NULL) { if ((l2 = l2->next) == NULL) break; l1 = l1->next; }];
    the result is [l1]. *)
Fixpoint split_loop (fuel : nat) (l1 l2 : nat) (h : heap) : option nat :=
  match fuel with
  | O => None
  | S fuel =>
      match h !! l2 with
      | None => None
      | Some n =>
          match next n with
          | None => Some l1
          | Some b =>
              match h !! b with
              | None => None
              | Some m =>
                  match next m with
                  | None => Some l1
                  | Some c =>
                      match h !! l1 with
                      | Some n1 =>
                          match next n1 with
                          | Some l1' => split_loop fuel l1' c h
                          | None => None
                          end
                      | None => None
                      end
                  end
              end
          end
      end
  end.

Fixpoint jack_slist_sort (lt : D -> D -> bool) (fuel : nat) (p : option nat) (h : heap)
    : option (heap * option nat) :=
  match fuel with
  | O => None
  | S fuel =>
      match p with
      | None => Some (h, None)
      | Some a =>
          match h !! a with
          | None => None
          | Some n =>
              match next n with
              | None => Some (h, p)
              | Some b =>
                  match split_loop fuel a b h with
                  | None => None
                  | Some l1 =>
                      match h !! l1 with
                      | None => None
                      | Some n1 =>
                          let l2 := next n1 in
                          let h := <[l1 := mk_node (data n1) None]> h in
                          match jack_slist_sort lt fuel p h with
                          | None => None
                          | Some (h, s1) =>
                              match jack_slist_sort lt fuel l2 h with
                              | None => None
                              | Some (h, s2) => jack_slist_sort_merge lt (S (S fuel)) s1 s2 h
                              end
                          end
                      end
                  end
              end
          end
      end
  end.

(** ** List properties *)

Lemma slist_remove_perm d l : d ∈ l -> l ≡ₚ d :: slist_remove d l.
Proof.
  induction l as [|x l IH]; cbn; [set_solver|]. intros Hd. case_decide as E; [by subst|].
  rewrite Permutation_swap. constructor. apply IH. set_solver.
Qed.

Lemma slist_remove_notin d l : d ∉ l -> slist_remove d l = l.
Proof.
  induction l as [|x l IH]; cbn; [done|]. intros Hd. case_decide; [set_solver|].
  f_equal. apply IH. set_solver.
Qed.

Lemma merge_perm lt l1 l2 : slist_sort_merge lt l1 l2 ≡ₚ l1 ++ l2.
Proof.
  revert l2. induction l1 as [|x l1 IH1]; intros l2.
  { by destruct l2. }
  induction l2 as [|y l2 IH2]; [by rewrite app_nil_r|].
  change (slist_sort_merge lt (x :: l1) (y :: l2)) with
    (if lt x y then x :: slist_sort_merge lt l1 (y :: l2)
     else y :: slist_sort_merge lt (x :: l1) l2).
  destruct (lt x y); [by rewrite IH1|]. rewrite IH2. apply Permutation_middle.
Qed.

Lemma sort_fuel_perm lt n l : sort_fuel lt n l ≡ₚ l.
Proof.
  revert l. induction n as [|n IH]; intros [|x [|y l]]; try done. cbn [sort_fuel].
  rewrite merge_perm, !IH. by rewrite take_drop.
Qed.

Lemma half_bounds (n : nat) : (2 <= n -> 1 <= n / 2 < n)%nat.
Proof.
  intros. pose proof (Nat.div_mod_eq n 2). pose proof (Nat.mod_upper_bound n 2). lia.
Qed.

Lemma sort_fuel_enough lt n m l :
  (length l <= n)%nat -> (length l <= m)%nat -> sort_fuel lt n l = sort_fuel lt m l.
Proof.
  revert m l. induction n as [|n IH]; intros m l Hn Hm.
  { destruct l; [by destruct m|cbn in Hn; lia]. }
  destruct l as [|x [|y l]]; try (by destruct m). destruct m as [|m]; [cbn in Hm; lia|].
  cbn [sort_fuel]. set (k := x :: y :: l) in *.
  pose proof (half_bounds (length k) ltac:(cbn; lia)).
  by rewrite !(IH m) by (rewrite ?length_take, ?length_drop; lia).
Qed.

(** ** Sortedness *)

(** [lt] is a strict weak order: irreflexive, transitive, and "unordered" is
    transitive. *)
Record strict_weak (lt : D -> D -> bool) : Prop := {
  sw_irrefl : forall x, lt x x = false;
  sw_trans : forall x y z, lt x y = true -> lt y z = true -> lt x z = true;
  sw_weak : forall x y z, lt x y = false -> lt y z = false -> lt x z = false
}.

Definition not_after (lt : D -> D -> bool) (x y : D) : Prop := lt y x = false.

Lemma merge_sorted lt l1 l2 :
  strict_weak lt -> StronglySorted (not_after lt) l1 -> StronglySorted (not_after lt) l2 ->
  StronglySorted (not_after lt) (slist_sort_merge lt l1 l2).
Proof.
  intros Hw. revert l2. induction l1 as [|x l1 IH1]; intros l2 H1; [by destruct l2|].
  induction l2 as [|y l2 IH2]; intros H2; [done|].
  change (slist_sort_merge lt (x :: l1) (y :: l2)) with
    (if lt x y then x :: slist_sort_merge lt l1 (y :: l2)
     else y :: slist_sort_merge lt (x :: l1) l2).
  apply StronglySorted_inv in H1 as H1'. destruct H1' as [H1' F1].
  apply StronglySorted_inv in H2 as H2'. destruct H2' as [H2' F2].
  unfold not_after in *. destruct (lt x y) eqn:E; constructor; auto.
  - rewrite merge_perm. apply Forall_app. split; [done|].
    assert (lt y x = false).
    { destruct (lt y x) eqn:E'; [|done]. pose proof (sw_trans lt Hw _ _ _ E E').
      by rewrite (sw_irrefl lt Hw) in H. }
    constructor; [done|]. eapply Forall_impl; [exact F2|]. intros z Hz.
    by apply (sw_weak lt Hw z y x).
  - rewrite merge_perm. apply Forall_app. split; [|done]. constructor; [done|].
    eapply Forall_impl; [exact F1|]. intros z Hz. by apply (sw_weak lt Hw z x y).
Qed.

Lemma sort_fuel_sorted lt n l :
  strict_weak lt -> (length l <= n)%nat -> StronglySorted (not_after lt) (sort_fuel lt n l).
Proof.
  intros Hw. revert l. induction n as [|n IH]; intros l Hn.
  { destruct l; [constructor|cbn in Hn; lia]. }
  destruct l as [|x [|y l]]; [constructor|repeat constructor|]. cbn [sort_fuel].
  set (k := x :: y :: l) in *. pose proof (half_bounds (length k) ltac:(cbn; lia)).
  apply merge_sorted; [done|..]; apply IH; rewrite ?length_take, ?length_drop; lia.
Qed.

(** [jack_slist_sort] returns a permutation of its list for any comparison
    function, and a sorted one when the comparison is a strict weak order. *)
Theorem slist_sort_correct lt l :
  slist_sort lt l ≡ₚ l /\
  (strict_weak lt -> StronglySorted (not_after lt) (slist_sort lt l)).
Proof. split; [apply sort_fuel_perm|]. intros. by apply sort_fuel_sorted. Qed.

(** ** Heap representation *)

(** [seg h p ns q]: following [next] from [p] visits the nodes [ns] and ends at [q]. *)
Fixpoint seg (h : heap) (p : option nat) (ns : list (nat * D)) (q : option nat) : Prop :=
  match ns with
  | [] => p = q
  | (a, d) :: ns => p = Some a /\ exists nx, h !! a = Some (mk_node d nx) /\ seg h nx ns q
  end.

(** A well-formed list: nodes with distinct addresses, ended by [NULL]. *)
Definition is_list (h : heap) (p : option nat) (ns : list (nat * D)) : Prop :=
  seg h p ns None /\ NoDup ns.*1.

Lemma seg_frame h h' p ns q :
  (forall a, a ∈ ns.*1 -> h' !! a = h !! a) -> seg h p ns q -> seg h' p ns q.
Proof.
  revert p. induction ns as [|[a d] ns IH]; intros p Hf; cbn; [done|].
  intros (-> & nx & Ha & Hs). split; [done|]. exists nx. split.
  - rewrite Hf; [done|set_solver].
  - apply IH; [|done]. intros b Hb. apply Hf. set_solver.
Qed.

Lemma seg_app h p ns1 ns2 q :
  seg h p (ns1 ++ ns2) q <-> exists r, seg h p ns1 r /\ seg h r ns2 q.
Proof.
  revert p. induction ns1 as [|[a d] ns1 IH]; intros p; cbn.
  - split; [eauto|by intros (r & -> & H)].
  - setoid_rewrite IH. naive_solver.
Qed.

Lemma seg_snoc h p ns a d q :
  seg h p (ns ++ [(a, d)]) q <-> seg h p ns (Some a) /\ h !! a = Some (mk_node d q).
Proof. rewrite seg_app. cbn. naive_solver. Qed.

(** Setting [next] of the last node of a segment. *)
Lemma seg_set_next h p ns a d nx q :
  seg h p ns (Some a) -> a ∉ ns.*1 -> h !! a = Some (mk_node d nx) ->
  seg (<[a := mk_node d q]> h) p (ns ++ [(a, d)]) q.
Proof.
  intros Hs Ha Hd. apply seg_snoc. split; [|by rewrite lookup_insert_eq].
  eapply seg_frame; [|exact Hs]. intros b Hb. apply lookup_insert_ne. by intros ->.
Qed.

(** ** The merge *)

(** The nodes linked so far, the last of which is [l]. *)
Definition linked (h : heap) (hd l : option nat) (dn : list (nat * D)) : Prop :=
  match l with
  | None => dn = []
  | Some a => exists dn' d nx, dn = dn' ++ [(a, d)] /\ seg h hd dn' (Some a) /\
                               h !! a = Some (mk_node d nx)
  end.

Lemma link_tail_spec h hd (l : option nat) dn p :
  linked h hd l dn -> NoDup dn.*1 ->
  exists h' hd', link_tail hd l p h = Some (h', hd') /\ seg h' hd' dn p /\
    (forall b, b ∉ dn.*1 -> h' !! b = h !! b).
Proof.
  intros Hl Hnd. unfold link_tail, linked in *. destruct l as [a|].
  - destruct Hl as (dn' & d & nx & -> & Hs & Ha). unfold set_next. rewrite Ha. cbn.
    rewrite fmap_app in Hnd. apply NoDup_app in Hnd as (_ & Hd & _).
    do 2 eexists. split; [done|]. split.
    + eapply seg_set_next; [done| |done]. intros Hin. apply (Hd a Hin). cbn. set_solver.
    + intros b Hb. apply lookup_insert_ne. rewrite fmap_app in Hb. cbn in Hb. set_solver.
  - subst dn. do 2 eexists. split; [done|]. by split.
Qed.

(** One step of the loop: the node [a] is linked behind [l]. *)
Lemma link_step h hd (l : option nat) dn a d nx :
  linked h hd l dn -> h !! a = Some (mk_node d nx) -> NoDup (dn ++ [(a, d)]).*1 ->
  exists h' hd', link_tail hd l (Some a) h = Some (h', hd') /\
    linked h' hd' (Some a) (dn ++ [(a, d)]) /\
    (forall b, b ∉ dn.*1 -> h' !! b = h !! b).
Proof.
  intros Hl Ha Hnd. rewrite fmap_app in Hnd. apply NoDup_app in Hnd as (Hnd & Hd & _).
  destruct (link_tail_spec h hd l dn (Some a) Hl Hnd) as (h' & hd' & E & Hs & Hfr).
  exists h', hd'. split_and!; [done| |done]. exists dn, d, nx. split_and!; [done|done|].
  rewrite Hfr; [done|]. intros Hin. apply (Hd a Hin). cbn. set_solver.
Qed.

Lemma nodup_disj (dn ns : list (nat * D)) b : NoDup (dn ++ ns).*1 -> b ∈ ns.*1 -> b ∉ dn.*1.
Proof.
  rewrite fmap_app. intros (_ & Hd & _)%NoDup_app Hb Hb'. by apply (Hd b Hb').
Qed.

Lemma nodup_front (dn ns : list (nat * D)) : NoDup (dn ++ ns).*1 -> NoDup dn.*1.
Proof. rewrite fmap_app. by intros (? & _)%NoDup_app. Qed.

Lemma merge_loop_spec lt fuel (hd l l1 l2 : option nat) (dn ns1 ns2 : list (nat * D)) h :
  linked h hd l dn -> seg h l1 ns1 None -> seg h l2 ns2 None ->
  NoDup (dn ++ ns1 ++ ns2).*1 -> (length ns1 + length ns2 < fuel)%nat ->
  exists h' hd' ns, merge_loop lt fuel hd l l1 l2 h = Some (h', hd') /\
    seg h' hd' (dn ++ ns) None /\ ns ≡ₚ ns1 ++ ns2 /\
    ns.*2 = slist_sort_merge lt ns1.*2 ns2.*2 /\
    (forall b, b ∉ (dn ++ ns1 ++ ns2).*1 -> h' !! b = h !! b).
Proof.
  revert hd l l1 l2 dn ns1 ns2 h.
  induction fuel as [|fuel IH]; intros hd l l1 l2 dn ns1 ns2 h Hl H1 H2 Hnd Hf; [lia|].
  assert (Hdn : NoDup dn.*1) by (by eapply nodup_front).
  assert (Hstop : forall p ns, ns = ns1 ++ ns2 -> seg h p ns None ->
    exists h' hd', link_tail hd l p h = Some (h', hd') /\ seg h' hd' (dn ++ ns) None /\
      (forall b, b ∉ (dn ++ ns1 ++ ns2).*1 -> h' !! b = h !! b)).
  { intros p ns -> Hp. destruct (link_tail_spec h hd l dn p Hl Hdn) as (h' & hd' & E & Hs & Hfr).
    exists h', hd'. split_and!; [done| |intros b Hb; apply Hfr; set_solver].
    apply seg_app. exists p. split; [done|]. eapply seg_frame; [|exact Hp].
    intros b Hb. apply Hfr. by eapply nodup_disj. }
  cbn [merge_loop]. destruct ns1 as [|[a1 d1] ns1].
  { cbn in H1. subst l1. destruct (Hstop l2 ns2 eq_refl H2) as (h' & hd' & E & Hs & Hfr).
    exists h', hd', ns2. by split_and!; [..|destruct ns2|]. }
  destruct ns2 as [|[a2 d2] ns2].
  { cbn in H2. subst l2.
    destruct (Hstop l1 ((a1, d1) :: ns1) (eq_sym (app_nil_r _)) H1) as (h' & hd' & E & Hs & Hfr).
    destruct H1 as (-> & _). exists h', hd', ((a1, d1) :: ns1). rewrite (app_nil_r ((a1, d1) :: ns1)).
    rewrite app_nil_r in Hfr. by split_and!. }
  clear Hstop. assert (F1 := H1). assert (F2 := H2).
  destruct H1 as (-> & nx1 & Ha1 & H1), H2 as (-> & nx2 & Ha2 & H2). rewrite Ha1, Ha2. cbn [data next].
  change (slist_sort_merge lt ((a1, d1) :: ns1).*2 ((a2, d2) :: ns2).*2) with
    (if lt d1 d2 then d1 :: slist_sort_merge lt ns1.*2 ((a2, d2) :: ns2).*2
     else d2 :: slist_sort_merge lt ((a1, d1) :: ns1).*2 ns2.*2).
  assert (Hstep : forall a d nx m1 m2 q1 q2,
    h !! a = Some (mk_node d nx) -> (a, d) :: m1 ++ m2 ≡ₚ ((a1, d1) :: ns1) ++ (a2, d2) :: ns2 ->
    seg h q1 m1 None -> seg h q2 m2 None ->
    exists h1 hd1, link_tail hd l (Some a) h = Some (h1, hd1) /\
      exists h' hd' ns, merge_loop lt fuel hd1 (Some a) q1 q2 h1 = Some (h', hd') /\
        seg h' hd' (dn ++ (a, d) :: ns) None /\
        (a, d) :: ns ≡ₚ ((a1, d1) :: ns1) ++ (a2, d2) :: ns2 /\
        ns.*2 = slist_sort_merge lt m1.*2 m2.*2 /\
        (forall b, b ∉ (dn ++ ((a1, d1) :: ns1) ++ (a2, d2) :: ns2).*1 -> h' !! b = h !! b)).
  { intros a d nx m1 m2 q1 q2 Ha Hp Hq1 Hq2. rewrite <- Hp in Hnd. 
    assert (Hnd' : NoDup ((dn ++ [(a, d)]) ++ m1 ++ m2).*1) by (by rewrite <- (assoc_L (++))).
    destruct (link_step h hd l dn a d nx Hl Ha (nodup_front _ _ Hnd')) as (h1 & hd1 & E1 & Hl1 & Hfr).
    exists h1, hd1. split; [done|].
    destruct (IH hd1 (Some a) q1 q2 (dn ++ [(a, d)]) m1 m2 h1)
      as (h' & hd' & ns & E & Hs & Hp' & Hm & Hfr'); [done|..|done| |].
    - eapply seg_frame; [|exact Hq1]. intros b Hb. apply Hfr.
      eapply nodup_disj; [exact Hnd|]. set_solver.
    - eapply seg_frame; [|exact Hq2]. intros b Hb. apply Hfr.
      eapply nodup_disj; [exact Hnd|]. set_solver.
    - apply Permutation_length in Hp. cbn in *. rewrite !length_app in Hp. cbn in Hp. lia.
    - exists h', hd', ns. rewrite <- (assoc_L (++)) in Hs.
      split_and!; [done|done|by rewrite Hp'|done|].
      intros b Hb. rewrite <- Hp in Hb. rewrite Hfr', Hfr; [done|set_solver|].
      rewrite <- (assoc_L (++)). done. }
  destruct (lt d1 d2).
  - destruct (Hstep a1 d1 nx1 ns1 ((a2, d2) :: ns2) nx1 (Some a2))
      as (h1 & hd1 & -> & h' & hd' & ns & -> & Hs & Hp & Hm & Hfr); [done..|].
    exists h', hd', ((a1, d1) :: ns). cbn. rewrite Hm. by split_and!.
  - destruct (Hstep a2 d2 nx2 ((a1, d1) :: ns1) ns2 (Some a1) nx2)
      as (h1 & hd1 & -> & h' & hd' & ns & -> & Hs & Hp & Hm & Hfr); [done|..|done|done|].
    { apply Permutation_middle. }
    exists h', hd', ((a2, d2) :: ns). cbn. rewrite Hm. by split_and!.
Qed.

(** ** The sort *)

Lemma split_loop_spec fuel a b (m1 m2 : list (nat * D)) h :
  seg h (Some a) m1 None -> seg h (Some b) m2 None ->
  (length m2 <= length m1)%nat -> (length m2 < fuel)%nat ->
  exists pre x d rest, m1 = pre ++ (x, d) :: rest /\ split_loop fuel a b h = Some x /\
    length pre = ((length m2 - 1) / 2)%nat.
Proof.
  revert a b m1 m2. induction fuel as [|fuel IH]; intros a b m1 m2 H1 H2 Hle Hf; [lia|].
  destruct m1 as [|[a' d1] m1]; [done|]. destruct m2 as [|[b' d2] m2]; [done|].
  destruct H1 as (E1 & n1 & Ha & H1), H2 as (E2 & n2 & Hb & H2). simplify_eq. cbn [split_loop].
  rewrite Hb. cbn [next]. destruct m2 as [|[c d3] m2].
  { cbn in H2. subst n2. by exists [], a', d1, m1. }
  destruct H2 as (-> & n3 & Hc & H2). rewrite Hc. cbn [next]. destruct m2 as [|[c' d4] m2].
  { cbn in H2. subst n3. by exists [], a', d1, m1. }
  destruct m1 as [|[a1 d5] m1]; [cbn in Hle; lia|]. destruct H1 as (-> & n4 & Ha1 & H1).
  assert (H2' := H2). destruct H2 as (-> & _). rewrite Ha. cbn [next].
  destruct (IH a1 c' ((a1, d5) :: m1) ((c', d4) :: m2)) as (pre & x & d & rest & Em & Es & El).
  - cbn. eauto.
  - done.
  - cbn in *. lia.
  - cbn in *. lia.
  - exists ((a', d1) :: pre), x, d, rest. split_and!; [by rewrite Em|done|].
    cbn [length]. rewrite El. cbn [length].
    replace (S (S (S (length m2))) - 1)%nat with (1 * 2 + (S (length m2) - 1))%nat by lia.
    rewrite Nat.div_add_l by lia. lia.
Qed.

(** Cutting a list of two nodes or more behind its first half. *)
Lemma cut_spec fuel a b d1 d2 ns h :
  let all := (a, d1) :: (b, d2) :: ns in
  is_list h (Some a) all -> (length all <= fuel)%nat ->
  let ns1 := take (length all / 2) all in let ns2 := drop (length all / 2) all in
  exists x d q, split_loop fuel a b h = Some x /\ h !! x = Some (mk_node d q) /\ x ∈ ns1.*1 /\
    is_list (<[x := mk_node d None]> h) (Some a) ns1 /\
    is_list (<[x := mk_node d None]> h) q ns2.
Proof.
  intros all [Hs Hnd] Hf ns1 ns2. assert (Hs0 := Hs).
  destruct Hs as (_ & nx & Ha & Hb). assert (Hb0 := Hb). destruct Hb as (-> & _).
  destruct (split_loop_spec fuel a b all ((b, d2) :: ns) h) as (pre & x & d & rest & Ea & Es & El);
    [done|done|cbn; lia|cbn in *; lia|].
  rewrite Ea in Hs0. apply seg_app in Hs0 as (q & Hpre & Eq & nx' & Hx & Hrest). subst q.
  assert (Hsplit : all = (pre ++ [(x, d)]) ++ rest) by (by rewrite <- (assoc_L (++))).
  assert (Hlen : (length all / 2)%nat = length (pre ++ [(x, d)])).
  { rewrite length_app, El. cbn [length all].
    replace (S (S (length ns))) with (1 * 2 + length ns)%nat by lia.
    rewrite Nat.div_add_l by lia. replace (S (length ns) - 1)%nat with (length ns) by lia.
    cbn. lia. }
  assert (E1 : ns1 = pre ++ [(x, d)]) by (unfold ns1; rewrite Hlen, Hsplit; apply take_app_length).
  assert (E2 : ns2 = rest) by (unfold ns2; rewrite Hlen, Hsplit; apply drop_app_length).
  clearbody ns1 ns2. subst ns1 ns2. rewrite Hsplit in Hnd. clear Hsplit Ea Hlen.
  exists x, d, nx'. split_and!; [done|done|rewrite fmap_app; set_solver|split|split].
  - eapply seg_set_next; [done| |done]. apply nodup_front in Hnd.
    by apply (nodup_disj pre [(x, d)]), list_elem_of_here.
  - by eapply nodup_front.
  - eapply seg_frame; [|exact Hrest]. intros c Hc. apply lookup_insert_ne. intros ->.
    eapply nodup_disj; [exact Hnd|exact Hc|]. rewrite fmap_app. set_solver.
  - rewrite fmap_app in Hnd. by apply NoDup_app in Hnd as (_ & _ & ?).
Qed.

Lemma sort_spec lt fuel p ns h :
  is_list h p ns -> (length ns < fuel)%nat ->
  exists h' p' ns', jack_slist_sort lt fuel p h = Some (h', p') /\ is_list h' p' ns' /\
    ns' ≡ₚ ns /\ ns'.*2 = sort_fuel lt fuel ns.*2 /\
    (forall b, b ∉ ns.*1 -> h' !! b = h !! b).
Proof.
  revert p ns h. induction fuel as [|fuel IH]; intros p ns h [Hs Hnd] Hf; [lia|].
  cbn [jack_slist_sort]. destruct ns as [|[a d1] [|[b d2] ns]].
  { cbn in Hs. subst p. by exists h, None, []. }
  { destruct Hs as (-> & nx & Ha & Hs). cbn in Hs. subst nx. rewrite Ha. cbn [next].
    exists h, (Some a), [(a, d1)]. split_and!; try done. split; [|done]. cbn. eauto. }
  assert (Hs0 := Hs). destruct Hs as (-> & nx & Ha & -> & _). rewrite Ha. cbn [next].
  set (all := (a, d1) :: (b, d2) :: ns) in *.
  destruct (cut_spec fuel a b d1 d2 ns h) as (x & d & q & -> & Hx & Hin & L1 & L2);
    [done|cbn in *; lia|]. fold all in L1, L2, Hin.
  rewrite Hx. cbn [next data]. set (h0 := <[x := mk_node d None]> h) in *.
  pose proof (half_bounds (length all) ltac:(cbn; lia)) as Hhalf.
  change (sort_fuel lt (S fuel) all.*2) with
    (slist_sort_merge lt (sort_fuel lt fuel (take (length all.*2 / 2) all.*2))
       (sort_fuel lt fuel (drop (length all.*2 / 2) all.*2))).
  rewrite length_fmap, <- fmap_take, <- fmap_drop.
  assert (Eall : all = take (length all / 2) all ++ drop (length all / 2) all) by (by rewrite take_drop).
  destruct (IH (Some a) (take (length all / 2) all) h0 L1) as (h1 & p1 & m1 & -> & I1 & P1 & S1 & F1).
  { rewrite length_take. cbn in *. lia. }
  set (ns1 := take (length all / 2) all) in *. set (ns2 := drop (length all / 2) all) in *.
  rewrite Eall in Hnd.
  destruct (IH q ns2 h1) as (h2 & p2 & m2 & -> & I2 & P2 & S2 & F2).
  { destruct L2 as [L2 N2]. split; [|done]. eapply seg_frame; [|exact L2]. intros c Hc.
    apply F1. by eapply nodup_disj. }
  { unfold ns2. rewrite length_drop. cbn in *. lia. }
  unfold jack_slist_sort_merge.
  destruct (merge_loop_spec lt (S (S fuel)) None None p1 p2 [] m1 m2 h2)
    as (h' & p' & m & -> & Hm & Pm & Sm & Fm).
  - done.
  - eapply seg_frame; [|exact (proj1 I1)]. intros c Hc. apply F2. rewrite P1 in Hc. intros Hc'.
    by eapply nodup_disj.
  - apply I2.
  - cbn [app]. by rewrite P1, P2.
  - rewrite P1, P2, <- length_app, <- Eall. lia.
  - exists h', p', m. cbn [app] in *. split_and!; [done|split; [done|]| |by rewrite Sm, S1, S2|].
    + by rewrite Pm, P1, P2.
    + by rewrite Pm, P1, P2, <- Eall.
    + intros c Hc. rewrite Eall, fmap_app in Hc.
      assert (Hc1 : c ∉ ns1.*1) by set_solver. assert (Hc2 : c ∉ ns2.*1) by set_solver.
      rewrite Fm by (rewrite fmap_app, P1, P2; set_solver).
      rewrite F2, F1 by done. apply lookup_insert_ne. by intros ->.
Qed.

(** C10: The in-place merge sort of the header never reads a bad pointer, it
    terminates within one unit of fuel per node (and one more), and on a
    well-formed list it returns a well-formed list of the same nodes whose
    data are the sorted data; no node outside the list is written. *)
Theorem jack_slist_sort_refines lt p ns h fuel :
  is_list h p ns -> (length ns < fuel)%nat ->
  exists h' p' ns', jack_slist_sort lt fuel p h = Some (h', p') /\ is_list h' p' ns' /\
    ns' ≡ₚ ns /\ ns'.*2 = slist_sort lt ns.*2 /\
    (forall b, b ∉ ns.*1 -> h' !! b = h !! b).
Proof.
  intros Hl Hf. destruct (sort_spec lt fuel p ns h Hl Hf) as (h' & p' & ns' & E & L & P & S & F).
  exists h', p', ns'. split_and!; try done. rewrite S. unfold slist_sort.
  apply sort_fuel_enough; rewrite length_fmap; lia.
Qed.

(** ** Removal and insertion *)

(** What happens to the unlinked node itself. *)
Definition retire (dealloc : bool) (a : nat) d (h : heap) : heap :=
  if dealloc then delete a h else <[a := mk_node d None]> h.

Lemma retire_other dealloc a d h b : b <> a -> retire dealloc a d h !! b = h !! b.
Proof.
  intros. unfold retire. destruct dealloc; [by rewrite lookup_delete_ne|by rewrite lookup_insert_ne].
Qed.

Lemma seg_retire dealloc a d h p ns q :
  a ∉ ns.*1 -> seg h p ns q -> seg (retire dealloc a d h) p ns q.
Proof.
  intros Ha. apply seg_frame. intros b Hb. apply retire_other. by intros ->.
Qed.

Definition passed (h : heap) (lst prev tmp : option nat) (pre : list (nat * D)) : Prop :=
  match prev with
  | None => pre = [] /\ lst = tmp
  | Some b => exists pre' d, pre = pre' ++ [(b, d)] /\ seg h lst pre' (Some b) /\
                             h !! b = Some (mk_node d tmp)
  end.

Lemma passed_head h lst prev tmp pre a :
  passed h lst prev tmp pre -> pre <> [] -> a ∉ pre.*1 -> lst <> Some a.
Proof.
  intros Hp Hne Ha ->. destruct prev as [b|]; [|by destruct Hp].
  destruct Hp as (pre' & d & -> & Hs & _). destruct pre' as [|[c d'] pre']; cbn in *.
  - injection Hs as ->. set_solver.
  - destruct Hs as [Hs _]. injection Hs as ->. set_solver.
Qed.

(** The node found is taken out. *)
Lemma unlink_hit dealloc lst prev a d nx pre ns h :
  passed h lst prev (Some a) pre -> h !! a = Some (mk_node d nx) ->
  seg h nx ns None -> NoDup (pre ++ (a, d) :: ns).*1 ->
  exists h0, match prev with Some b => set_next b nx h | None => Some h end = Some h0 /\
    is_list (retire dealloc a d h0) (if decide (lst = Some a) then nx else lst) (pre ++ ns).
Proof.
  intros Hp Ha Hs Hnd.
  assert (Hnd' : NoDup (a :: (pre ++ ns).*1)).
  { replace (a :: (pre ++ ns).*1) with ((a, d) :: pre ++ ns).*1 by done.
    by rewrite Permutation_middle. }
  apply NoDup_cons in Hnd' as [Hna Hnd']. rewrite fmap_app in Hna.
  destruct prev as [b|].
  - assert (Hp0 := Hp). destruct Hp as (pre' & d' & Epre & Hseg & Hb). unfold set_next. rewrite Hb.
    eexists. split; [done|]. rewrite decide_False.
    2:{ eapply passed_head; [exact Hp0|rewrite Epre; by destruct pre'|].
        intros Hin. apply Hna. by apply elem_of_app; left. }
    split; [|done]. apply seg_retire; [rewrite fmap_app; set_solver|].
    apply seg_app. exists nx. cbn [data]. rewrite Epre in *. split.
    + eapply seg_set_next; [done| |done]. apply nodup_front in Hnd'.
      by apply (nodup_disj pre' [(b, d')]), list_elem_of_here.
    + eapply seg_frame; [|exact Hs]. intros c Hc. apply lookup_insert_ne. intros ->.
      eapply nodup_disj; [exact Hnd'|exact Hc|]. rewrite fmap_app. set_solver.
  - destruct Hp as [-> ->]. eexists. split; [done|]. rewrite decide_True by done.
    split; [|done]. apply seg_retire; [set_solver|done].
Qed.

Lemma unlink_spec hit dealloc fuel lst pre prev tmp ns h :
  passed h lst prev tmp pre ->
  seg h tmp ns None -> NoDup (pre ++ ns).*1 -> (length ns < fuel)%nat ->
  let misses (n : nat * D) := hit n.1 (mk_node n.2 None) = false in
  (forall a d nx, hit a (mk_node d nx) = hit a (mk_node d None)) ->
  exists h' lst', unlink_loop hit dealloc fuel lst prev tmp h = Some (h', lst') /\
    ((Forall misses ns /\ h' = h /\ lst' = lst) \/
     (exists ns1 a d ns2, ns = ns1 ++ (a, d) :: ns2 /\ Forall misses ns1 /\
        hit a (mk_node d None) = true /\ is_list h' lst' (pre ++ ns1 ++ ns2) /\
        h' !! a = (if dealloc then None else Some (mk_node d None)))).
Proof.
  intros Hprev Hs Hnd Hf misses Hhit. revert prev tmp pre ns Hprev Hs Hnd Hf.
  induction fuel as [|fuel IH]; intros prev tmp pre ns Hprev Hs Hnd Hf; [lia|].
  destruct ns as [|[a d] ns].
  { cbn in Hs. subst tmp. exists h, lst. split; [done|]. left. by split. }
  destruct Hs as (-> & nx & Ha & Hs). cbn [unlink_loop]. rewrite Ha.
  rewrite Hhit. cbn [next data]. destruct (hit a (mk_node d None)) eqn:Eh.
  - destruct (unlink_hit dealloc lst prev a d nx pre ns h) as (h0 & -> & Hl); [done..|].
    do 2 eexists. split; [done|]. right. exists [], a, d, ns.
    split_and!; [done|constructor|done|exact Hl|].
    destruct dealloc; [apply lookup_delete_eq|apply lookup_insert_eq].
  - destruct (IH (Some a) nx (pre ++ [(a, d)]) ns) as (h' & lst' & E & H).
    + exists pre, d. split_and!; [done| |done]. destruct prev as [b|].
      * destruct Hprev as (pre' & d' & -> & Hseg & Hb). by apply seg_snoc.
      * by destruct Hprev as [-> ->].
    + done.
    + by rewrite <- (assoc_L (++)).
    + cbn in Hf. lia.
    + exists h', lst'. split; [done|].
      destruct H as [(Hall & -> & ->)|(ns1 & a' & d' & ns2 & -> & Hall & Eh' & Hl & Ha')].
      * left. split_and!; [by constructor|done|done].
      * right. exists ((a, d) :: ns1), a', d', ns2. rewrite <- (assoc_L (++)) in Hl.
        split_and!; [done|by constructor|done|done|done].
Qed.

(** [jack_slist_remove] on a well-formed list returns a well-formed list
    whose data are those of the list function [slist_remove] (the first
    occurrence is gone, everything else keeps its place), and it frees the
    node it removes. *)
Theorem jack_slist_remove_refines p d ns h fuel :
  is_list h p ns -> (length ns < fuel)%nat ->
  exists h' p' ns', jack_slist_remove fuel p d h = Some (h', p') /\ is_list h' p' ns' /\
    ns'.*2 = slist_remove d ns.*2 /\
    (d ∈ ns.*2 -> exists a, a ∈ ns.*1 /\ (a ∉ ns'.*1) /\ h' !! a = None).
Proof.
  intros [Hs Hnd] Hf. unfold jack_slist_remove.
  destruct (unlink_spec (fun _ n => bool_decide (data n = d)) true fuel p [] None p ns h)
    as (h' & p' & E & H); [by split|done|done|done|done|].
  exists h', p'. cbn [data] in H.
  destruct H as [(Hall & -> & ->)|(ns1 & a & d' & ns2 & -> & Hall & Eh & Hl & Ha)].
  - exists ns. assert (d ∉ ns.*2).
    { intros (n & -> & Hn)%list_elem_of_fmap. rewrite Forall_forall in Hall.
      specialize (Hall n Hn). cbn in Hall. by rewrite bool_decide_eq_true_2 in Hall. }
    split_and!; [done|done|by rewrite slist_remove_notin|done].
  - apply bool_decide_eq_true in Eh. subst d'. exists (ns1 ++ ns2). split_and!; [done|done| |].
    + clear -Hall. induction Hall as [|[b x] ns1 Hx Hall IH]; cbn.
      * by rewrite decide_True.
      * cbn in Hx. apply bool_decide_eq_false in Hx. rewrite decide_False by done. by rewrite IH.
    + intros _. exists a. split_and!; [rewrite fmap_app; set_solver| |done].
      rewrite Permutation_app_comm in Hnd. cbn in Hnd. apply NoDup_cons in Hnd as [Hna _].
      intros Hin. apply Hna. rewrite !fmap_app in *. set_solver.
Qed.

Lemma last_loop_spec fuel a ns b d h :
  seg h (Some a) (ns ++ [(b, d)]) None -> (length ns < fuel)%nat -> last_loop fuel a h = Some b.
Proof.
  revert a ns. induction fuel as [|fuel IH]; intros a ns Hs Hf; [lia|]. cbn [last_loop].
  destruct ns as [|[c x] ns]; cbn in Hs.
  - destruct Hs as (E & nx & Hb & ->). injection E as ->. by rewrite Hb.
  - destruct Hs as (E & nx & Hc & Hs). injection E as ->. rewrite Hc. cbn [next].
    destruct nx as [e|]; [|by destruct ns as [|[]]; destruct Hs]. apply (IH e ns); [done|cbn in Hf; lia].
Qed.

(** [jack_slist_append] and [jack_slist_prepend] allocate one node and put
    it at the end, respectively at the front, of a well-formed list. *)
Theorem jack_slist_insert_refines p d ns h fuel :
  is_list h p ns -> (length ns < fuel)%nat ->
  (exists h' p' a, jack_slist_append fuel p d h = Some (h', p') /\
     is_list h' p' (ns ++ [(a, d)]) /\ h !! a = None) /\
  (let '(h', p') := jack_slist_prepend p d h in
   exists a, is_list h' p' ((a, d) :: ns) /\ h !! a = None).
Proof.
  intros [Hs Hnd] Hf. set (a := fresh (dom h)).
  assert (Ha : h !! a = None) by (apply not_elem_of_dom, is_fresh).
  assert (Hdom : forall b, b ∈ ns.*1 -> b <> a).
  { intros b Hb ->. clear Hnd Hf. revert p Hs Hb. induction ns as [|[c x] ns IH]; intros p Hs Hb;
      [set_solver|]. destruct Hs as (_ & nx & Hc & Hs). cbn in Hb.
    apply elem_of_cons in Hb as [Hb|Hb]; [congruence|by eapply IH]. }
  assert (Hna : a ∉ ns.*1) by (intros Hin; by apply (Hdom a)).
  assert (Hfr : forall n, seg (<[a := n]> h) p ns None)
    by (intros n; eapply seg_frame; [|exact Hs]; intros b Hb; apply lookup_insert_ne;
        intros ->; by apply (Hdom b)).
  split.
  - unfold jack_slist_append. fold a. destruct ns as [|[c x] ns' _] using rev_ind.
    { cbn in Hs. subst p. do 2 eexists. exists a. split; [done|]. split; [|done].
      split; [|repeat constructor; set_solver]. cbn. rewrite lookup_insert_eq. eauto. }
    destruct p as [q|]; [|by destruct ns' as [|[]]; destruct Hs]. cbn [jack_slist_last].
    rewrite length_app in Hf. cbn in Hf.
    rewrite (last_loop_spec fuel q ns' c x) by (done || lia).
    specialize (Hfr (mk_node d None)). apply seg_snoc in Hfr as [Hfr Hc].
    unfold set_next. rewrite Hc. do 2 eexists. exists a. split; [done|]. split; [|done]. split.
    + apply seg_snoc. split.
      * eapply seg_set_next; [done| |done]. by apply (nodup_disj ns' [(c, x)]), list_elem_of_here.
      * rewrite lookup_insert_ne; [by rewrite lookup_insert_eq|].
        apply Hdom. rewrite fmap_app. set_solver.
    + rewrite fmap_app. apply NoDup_app. split_and!; [done|set_solver|repeat constructor; set_solver].
  - cbn. fold a. exists a. split; [|done]. split; [|by constructor].
    cbn. split; [done|]. exists p. by rewrite lookup_insert_eq.
Qed.

End slist.

(** ** More on removal *)

Lemma slist_remove_fmap {A B} `{EqDecision A, EqDecision B} (f : A -> B) (o : A) (b : B) l :
  head (filter (fun x => f x = b) l) = Some o -> f <$> slist_remove o l = slist_remove b (f <$> l).
Proof.
  induction l as [|x l IH]; intros H; [done|]. cbn [slist_remove fmap list_fmap].
  destruct (decide (f x = b)) as [E|E].
  - rewrite filter_cons_True in H by done. injection H as ->. by rewrite !decide_True.
  - rewrite filter_cons_False in H by done. destruct (decide (x = o)) as [->|]; [|cbn; by rewrite IH].
    apply head_Some_elem_of, list_elem_of_filter in H. by destruct H.
Qed.

Lemma slist_remove_filter {A} `{EqDecision A} (c : A) l : NoDup l -> slist_remove c l = filter (fun d => d <> c) l.
Proof.
  induction 1 as [|x l Hx Hl IH]; [done|]. cbn [slist_remove]. rewrite filter_cons. destruct (decide (x = c)) as [->|Hne].
  - rewrite decide_False by congruence. symmetry. apply filter_all. intros d Hd ->. done.
  - rewrite decide_True by done. by rewrite IH.
Qed.

Lemma slist_remove_sublist {A} `{EqDecision A} (o : A) l : slist_remove o l `sublist_of` l.
Proof.
  induction l as [|x l IH]; cbn [slist_remove]; [done|]. destruct (decide (x = o)); [by apply sublist_cons|by apply sublist_skip].
Qed.

Lemma slist_remove_elem {A} `{EqDecision A} (o y : A) l : y ∈ slist_remove o l -> y ∈ l.
Proof.
  induction l as [|x l IH]; cbn [slist_remove]; [done|]. destruct (decide (x = o)); [by right|].
  intros [->|H]%elem_of_cons; [left|right; by apply IH].
Qed.

Lemma slist_remove_gone {A} `{EqDecision A} (o : A) l : NoDup l -> o ∉ slist_remove o l.
Proof.
  induction 1 as [|x l Hx _ IH]; cbn [slist_remove]; [apply not_elem_of_nil|].
  destruct (decide (x = o)) as [->|]; [done|]. apply not_elem_of_cons. by split; [congruence|].
Qed.

(** ** Examples *)

Definition sample_heap : gmap nat (@JSNode Z) :=
  list_to_map [(5%nat, mk_node 3%Z (Some 8%nat)); (8%nat, mk_node 1%Z (Some 2%nat));
               (2%nat, mk_node 2%Z None)].
Definition sample_nodes : list (nat * Z) := [(5%nat, 3%Z); (8%nat, 1%Z); (2%nat, 2%Z)].

Lemma sample_is_list : is_list sample_heap (Some 5%nat) sample_nodes.
Proof.
  split; [|cbn; repeat constructor; set_solver].
  cbn. split; [done|]. eexists. split; [reflexivity|]. split; [done|].
  eexists. split; [reflexivity|]. split; [done|]. eexists. by split.
Qed.

Lemma slist_sort_correct_witness :
  slist_sort Z.ltb [3%Z; 1%Z; 2%Z] = [1%Z; 2%Z; 3%Z] /\
  StronglySorted (not_after Z.ltb) (slist_sort Z.ltb [3%Z; 1%Z; 2%Z]).
Proof.
  split; [reflexivity|]. apply (proj2 (slist_sort_correct Z.ltb [3%Z; 1%Z; 2%Z])).
  constructor; intros; rewrite ?Z.ltb_lt, ?Z.ltb_ge in *; lia.
Defined.

Lemma jack_slist_sort_refines_witness :
  exists h' p' ns', jack_slist_sort Z.ltb 4 (Some 5%nat) sample_heap = Some (h', p') /\
    is_list h' p' ns' /\ ns'.*2 = [1%Z; 2%Z; 3%Z].
Proof.
  destruct (jack_slist_sort_refines Z.ltb (Some 5%nat) sample_nodes sample_heap 4)
    as (h' & p' & ns' & E & L & _ & S & _).
  - exact sample_is_list.
  - cbn. lia.
  - exists h', p', ns'. split; [exact E|]. split; [exact L|exact S].
Defined.

Lemma jack_slist_remove_refines_witness :
  exists h' p' ns', jack_slist_remove 4 (Some 5%nat) 1%Z sample_heap = Some (h', p') /\
    is_list h' p' ns' /\ ns'.*2 = [3%Z; 2%Z].
Proof.
  destruct (jack_slist_remove_refines (Some 5%nat) 1%Z sample_nodes sample_heap 4)
    as (h' & p' & ns' & E & L & S & _).
  - exact sample_is_list.
  - cbn. lia.
  - exists h', p', ns'. split; [exact E|]. split; [exact L|exact S].
Defined.

Lemma jack_slist_insert_refines_witness :
  exists h' p' a, jack_slist_append 4 (Some 5%nat) 9%Z sample_heap = Some (h', p') /\
    is_list h' p' (sample_nodes ++ [(a, 9%Z)]).
Proof.
  destruct (jack_slist_insert_refines (Some 5%nat) 9%Z sample_nodes sample_heap 4)
    as ((h' & p' & a & E & L & _) & _).
  - exact sample_is_list.
  - cbn. lia.
  - exists h', p', a. split; [exact E|exact L].
Defined.

End JSList.
