(* ===== verification/Engine.v ===== *)
(** * The engine's data (jack/internal.h, jack/engine.h, jack/port.h)

    The state of the server process: the list of clients, the port table, the
    connections, the transport control block.  C pointers to clients and to
    connections are keys of two stores, so that the aliasing of the source is
    kept: a connection is one object reached from the lists of both its
    ports, a client is reached from the client list, from the feeds lists of
    other clients, from connections and from [timebase_client].  Ports live
    in an array and are designated by their index.

    What the kernel and the other processes answer is an [environment],
    a parameter of every operation that performs I/O. *)

From S2P Require Import Prelude.

Local Open Scope Z_scope.

Abbreviation client_ptr := nat.
Abbreviation port_ptr := nat.
Abbreviation conn_ptr := nat.

Inductive ClientType := ClientInternal | ClientDriver | ClientExternal.

#[global] Instance ClientType_eq_dec : EqDecision ClientType.
Proof. solve_decision. Defined.

Inductive jack_client_state_t := NotTriggered | Triggered | Running | Finished.

#[global] Instance client_state_eq_dec : EqDecision jack_client_state_t.
Proof. solve_decision. Defined.

Inductive jack_transport_state_t :=
| JackTransportStopped
| JackTransportRolling
| JackTransportLooping
| JackTransportStarting.

#[global] Instance transport_state_eq_dec : EqDecision jack_transport_state_t.
Proof. solve_decision. Defined.

Inductive transport_command_t :=
| TransportCommandNone
| TransportCommandStart
| TransportCommandStop.

#[global] Instance transport_command_eq_dec : EqDecision transport_command_t.
Proof. solve_decision. Defined.

(** [jack_position_t]; the fields that only the timebase master interprets are [bbt]. *)
Record jack_position_t := mk_position {
  unique_1 : Z;
  usecs : Z;
  frame_rate : Z;
  frame : Z;
  valid : Z;
  bbt : list Z;
  unique_2 : Z
}.

#[global] Instance jack_position_t_assignable : Assignable jack_position_t :=
  fun r => mk_position
    (unique_1 r) (usecs r) (frame_rate r) (frame r) (valid r) (bbt r) (unique_2 r).

(** The transport part of [jack_control_t] (shared memory). *)
Record transport_control := mk_control {
  transport_state : jack_transport_state_t;
  transport_cmd : transport_command_t;
  previous_cmd : transport_command_t;
  current_time : jack_position_t;
  pending_time : jack_position_t;
  request_time : jack_position_t;
  prev_request : Z;
  seq_number : Z;
  new_pos : bool;
  pending_pos : bool;
  pending_frame : Z;
  sync_clients : Z;
  sync_remain : Z;
  sync_timeout : Z;
  sync_time_left : Z;
  buffer_size : Z
}.

#[global] Instance transport_control_assignable : Assignable transport_control :=
  fun r => mk_control
    (transport_state r) (transport_cmd r) (previous_cmd r) (current_time r)
    (pending_time r) (request_time r) (prev_request r) (seq_number r) (new_pos r)
    (pending_pos r) (pending_frame r) (sync_clients r) (sync_remain r)
    (sync_timeout r) (sync_time_left r) (buffer_size r).

(** The callback flags of [jack_client_control_t] the engine reads. *)
Record callbacks := mk_callbacks {
  process_cbset : bool;
  thread_cb_cbset : bool;
  bufsize_cbset : bool;
  srate_cbset : bool;
  port_register_cbset : bool;
  port_connect_cbset : bool;
  graph_order_cbset : bool;
  xrun_cbset : bool;
  sync_cb_cbset : bool;
  timebase_cb_cbset : bool;
  client_register_cbset : bool;
  session_cbset : bool
}.

#[global] Instance callbacks_assignable : Assignable callbacks :=
  fun r => mk_callbacks
    (process_cbset r) (thread_cb_cbset r) (bufsize_cbset r) (srate_cbset r)
    (port_register_cbset r) (port_connect_cbset r) (graph_order_cbset r)
    (xrun_cbset r) (sync_cb_cbset r) (timebase_cb_cbset r) (client_register_cbset r)
    (session_cbset r).

(** [jack_client_internal_t] together with its [jack_client_control_t]. *)
Record client := mk_client {
  c_id : Z;
  c_uid : Z;
  c_name : string;
  c_type : ClientType;
  active : bool;
  dead : bool;
  timed_out : Z;
  is_timebase : bool;
  timebase_new : bool;
  is_slowsync : bool;
  active_slowsync : bool;
  sync_poll : bool;
  sync_new : bool;
  awake_at : Z;
  finished_at : Z;
  cbset : callbacks;
  request_fd : Z;
  event_fd : Z;
  subgraph_start_fd : Z;
  subgraph_wait_fd : Z;
  c_ports : list port_ptr;
  truefeeds : list client_ptr;
  sortfeeds : list client_ptr;
  fedcount : Z;
  tfedcount : Z;
  execution_order : Z;
  next_client : option client_ptr;
  c_error : Z;
  session_reply_pending : bool;
  c_state : jack_client_state_t;
  signalled_at : Z;
  last_status : Z
}.

#[global] Instance client_assignable : Assignable client :=
  fun r => mk_client
    (c_id r) (c_uid r) (c_name r) (c_type r) (active r) (dead r) (timed_out r)
    (is_timebase r) (timebase_new r) (is_slowsync r) (active_slowsync r)
    (sync_poll r) (sync_new r) (awake_at r) (finished_at r) (cbset r) (request_fd r)
    (event_fd r) (subgraph_start_fd r) (subgraph_wait_fd r) (c_ports r)
    (truefeeds r) (sortfeeds r) (fedcount r) (tfedcount r) (execution_order r)
    (next_client r) (c_error r) (session_reply_pending r) (c_state r) (signalled_at r)
    (last_status r).

(** [jack_port_shared_t] together with its [jack_port_internal_t]. *)
Record port := mk_port {
  p_id : Z;
  in_use : bool;
  p_name : string;
  alias1 : string;
  alias2 : string;
  ptype_id : Z;
  client_id : Z;
  flags : Z;
  p_offset : Z;
  latency : Z;
  total_latency : Z;
  monitor_requests : Z;
  has_mixdown : bool;
  connections : list conn_ptr;
  buffer_info : option nat
}.

#[global] Instance port_assignable : Assignable port :=
  fun r => mk_port
    (p_id r) (in_use r) (p_name r) (alias1 r) (alias2 r) (ptype_id r) (client_id r)
    (flags r) (p_offset r) (latency r) (total_latency r) (monitor_requests r)
    (has_mixdown r) (connections r) (buffer_info r).

(** [jack_connection_internal_t]: shared by the two ports it connects. *)
Record connection := mk_connection {
  source : port_ptr;
  destination : port_ptr;
  dir : Z;
  srcclient : client_ptr;
  dstclient : client_ptr
}.

#[global] Instance connection_assignable : Assignable connection :=
  fun r => mk_connection
    (source r) (destination r) (dir r) (srcclient r) (dstclient r).

(** [jack_port_type_info_t]. *)
Record port_type := mk_port_type {
  pt_id : Z;
  type_name : string;
  buffer_scale_factor : Z;
  pt_buffer_size : Z;
  zero_buffer_offset : Z
}.

#[global] Instance port_type_assignable : Assignable port_type :=
  fun r => mk_port_type
    (pt_id r) (type_name r) (buffer_scale_factor r) (pt_buffer_size r) (zero_buffer_offset r).

(** [jack_port_buffer_list_t]: the array of buffer descriptions, each the
    offset of its buffer, and the free ones.  A pointer to a description is
    its index in the array. *)
Record port_buffer_list := mk_blist {
  blist_freelist : list nat;
  blist_info : option (list Z)
}.

#[global] Instance port_buffer_list_assignable : Assignable port_buffer_list :=
  fun r => mk_blist (blist_freelist r) (blist_info r).

(** [jack_event_t]: the type of an event with the union members it uses. *)
Inductive jack_event :=
| BufferSizeChange
| SampleRateChange
| AttachPortSegment (ptid : Z)
| PortConnected (self_id other_id : Z)
| PortDisconnected (self_id other_id : Z)
| GraphReordered (n upstream_is_jackd : Z)
| PortRegistered (port_id : Z)
| PortUnregistered (port_id : Z)
| XRun
| StartFreewheel
| StopFreewheel
| ClientRegistered (name : string)
| ClientUnregistered (name : string)
| SaveSession (n : Z)
| LatencyCallback (playback : Z).

(** [jack_engine_t].  [client_store] and [conn_store] are the heap blocks the
    pointers in the lists refer to; [events] and [io_count] record the events
    handed to clients, [buffer_inits] the calls of the [buffer_init] functions
    (port type, offset, size, frames), [crashed] that a null pointer was followed or
    a number divided by 0 (what comes after it is undefined).  [port_segment] has the [attached_at]
    of the segment of each port type. *)
Record engine := mk_engine {
  clients : list client_ptr;
  client_store : gmap nat client;
  ports : list port;
  conn_store : gmap nat connection;
  feedbackcount : Z;
  driver : option client_ptr;
  port_types : list port_type;
  port_buffers : list port_buffer_list;
  port_segment : list Z;
  silent_buffer : option nat;
  fifo : list Z;
  next_client_id : Z;
  external_client_cnt : Z;
  timebase_client : option client_ptr;
  problems : Z;
  timeout_count : Z;
  control : transport_control;
  audio_out_cnt : Z;
  audio_in_cnt : Z;
  midi_out_cnt : Z;
  midi_in_cnt : Z;
  reserved_client_names : list (Z * string);
  session_reply_fd : Z;
  session_pending_replies : Z;
  temporary : bool;
  wait_pid : Z;
  new_clients_allowed : bool;
  nozombies : bool;
  freewheeling : bool;
  stop_freewheeling : bool;
  fwclient : Z;
  process_errors : Z;
  events : list (client_ptr * jack_event);
  buffer_inits : list (Z * Z * Z * Z);
  io_count : nat;
  crashed : bool
}.

#[global] Instance engine_assignable : Assignable engine :=
  fun r => mk_engine
    (clients r) (client_store r) (ports r) (conn_store r) (feedbackcount r)
    (driver r) (port_types r) (port_buffers r) (port_segment r) (silent_buffer r) (fifo r)
    (next_client_id r)
    (external_client_cnt r) (timebase_client r) (problems r) (timeout_count r)
    (control r) (audio_out_cnt r) (audio_in_cnt r) (midi_out_cnt r) (midi_in_cnt r)
    (reserved_client_names r) (session_reply_fd r) (session_pending_replies r)
    (temporary r) (wait_pid r) (new_clients_allowed r) (nozombies r)
    (freewheeling r) (stop_freewheeling r) (fwclient r) (process_errors r) (events r) (buffer_inits r) (io_count r) (crashed r).

(** ** The world outside the server

    [io_reply] is what happens during one event delivery to an external
    client: whether [kill (pid, 0)] finds the process, whether the [write] of
    the event is complete, the result of the last [poll] (earlier wakeups only
    shorten the remaining timeout), and the status byte the client answers. *)

Record io_reply := mk_reply {
  io_alive : bool;
  io_write_ok : bool;
  io_poll_ret : Z;
  io_revents : Z;
  io_poll_left : Z;
  io_status : option Z
}.

(** What [stat] on the path of a FIFO reports. *)
Inductive fifo_stat :=
| FifoPresent
| FifoAbsent (mkfifo_ok : bool)
| FifoUnusable.

Record environment := mk_env {
  env_reply : nat -> io_reply;
  env_fifo_stat : Z -> fifo_stat;
  env_fifo_open : Z -> Z
}.

(** A world in which every system call succeeds and every client answers. *)
Definition good_reply : io_reply := mk_reply true true 1 1 2000 (Some 0).
Definition good_env : environment :=
  mk_env (fun _ => good_reply) (fun _ => FifoPresent) (fun n => 100 + n).

(** ** Dereferencing

    The default values stand for reads through a dangling pointer, which the
    well-formedness invariants exclude. *)

Definition no_callbacks : callbacks :=
  mk_callbacks false false false false false false false false false false false false.

Definition null_client : client :=
  {| c_id := 0; c_uid := 0; c_name := ""; c_type := ClientExternal; active := false;
     dead := false; timed_out := 0; is_timebase := false; timebase_new := false;
     is_slowsync := false; active_slowsync := false; sync_poll := false; sync_new := false;
     awake_at := 0; finished_at := 0; cbset := no_callbacks; request_fd := -1;
     event_fd := -1; subgraph_start_fd := -1; subgraph_wait_fd := -1; c_ports := [];
     truefeeds := []; sortfeeds := []; fedcount := 0; tfedcount := 0;
     execution_order := 0; next_client := None; c_error := 0;
     session_reply_pending := false; c_state := NotTriggered; signalled_at := 0;
     last_status := 0 |}.

Definition null_port : port :=
  {| p_id := 0; in_use := false; p_name := ""; alias1 := ""; alias2 := ""; ptype_id := 0;
     client_id := 0; flags := 0; p_offset := 0; latency := 0; total_latency := 0;
     monitor_requests := 0; has_mixdown := false; connections := []; buffer_info := None |}.

Definition null_connection : connection :=
  {| source := 0; destination := 0; dir := 0; srcclient := 0; dstclient := 0 |}.

Definition the_client (e : engine) (c : client_ptr) : client :=
  default null_client (client_store e !! c).

Definition the_port (e : engine) (p : port_ptr) : port :=
  default null_port (ports e !! p).

Definition the_conn (e : engine) (k : conn_ptr) : connection :=
  default null_connection (conn_store e !! k).

Definition upd_client (c : client_ptr) (f : client -> client) (e : engine) : engine :=
  e <| client_store ::= alter f c |>.

Definition upd_port (p : port_ptr) (f : port -> port) (e : engine) : engine :=
  e <| ports ::= alter f p |>.

Definition upd_conn (k : conn_ptr) (f : connection -> connection) (e : engine) : engine :=
  e <| conn_store ::= alter f k |>.

Definition upd_control (f : transport_control -> transport_control) (e : engine) : engine :=
  e <| control ::= f |>.

(** ** Constants and small helpers of the headers *)

Definition JackPortIsInput : Z := 1.
Definition JackPortIsOutput : Z := 2.
Definition JackPortIsPhysical : Z := 4.
Definition JackPortIsTerminal : Z := 16.
Definition JACK_ERROR_WITH_SOCKETS : Z := 10000000.
Definition JACK_CLIENT_NAME_SIZE : Z := 33.
Definition JACK_PORT_NAME_SIZE : Z := 256.
Definition POLLIN : Z := 1.

Definition EEXIST : Z := 17.
Definition EINVAL : Z := 22.
Definition EBUSY : Z := 16.

Definition has_flag (fl bit : Z) : bool := negb (Z.land fl bit =? 0).

Definition jack_client_is_internal (c : client) : bool :=
  bool_decide (c_type c = ClientInternal) || bool_decide (c_type c = ClientDriver).

Definition is_driver (c : client) : bool := bool_decide (c_type c = ClientDriver).

(** [if (flag)] on a flag of a client's callback set. *)
Definition runs_process (c : client) : bool :=
  process_cbset (cbset c) || thread_cb_cbset (cbset c).

(** The client list searched by id, by name. *)
Definition jack_client_internal_by_id (e : engine) (i : Z) : option client_ptr :=
  head (filter (fun c => c_id (the_client e c) = i) (clients e)).

Definition jack_client_by_name (e : engine) (n : string) : option client_ptr :=
  head (filter (fun c => c_name (the_client e c) = n) (clients e)).

(** ** Reading back an update *)

Lemma the_client_upd (e : engine) (c d : client_ptr) (f : client -> client) :
  is_Some (client_store e !! c) ->
  the_client (upd_client c f e) d = if decide (c = d) then f (the_client e c) else the_client e d.
Proof.
  intros [x Hx]. unfold the_client, upd_client. cbn. case_decide as E.
  - subst d. rewrite lookup_alter_eq, Hx. done.
  - by rewrite lookup_alter_ne.
Qed.

Lemma the_client_upd_ne (e : engine) (c d : client_ptr) (f : client -> client) :
  c <> d -> the_client (upd_client c f e) d = the_client e d.
Proof. intros. unfold the_client, upd_client. cbn. by rewrite lookup_alter_ne. Qed.

(** An update that leaves the field [g] alone leaves it alone everywhere. *)
Lemma the_client_upd_field {A} (e : engine) (c d : client_ptr) (f : client -> client)
    (g : client -> A) :
  (forall x, g (f x) = g x) -> g (the_client (upd_client c f e) d) = g (the_client e d).
Proof.
  intros Hg. unfold the_client, upd_client. cbn.
  destruct (decide (c = d)) as [->|]; [|by rewrite lookup_alter_ne].
  rewrite lookup_alter_eq. destruct (client_store e !! d); cbn; auto.
Qed.

Lemma the_port_upd (e : engine) (p q : port_ptr) (f : port -> port) :
  (p < length (ports e))%nat ->
  the_port (upd_port p f e) q = if decide (p = q) then f (the_port e p) else the_port e q.
Proof.
  intros Hp. unfold the_port, upd_port. cbn. case_decide as E.
  - subst q. rewrite list_lookup_alter_eq.
    destruct (lookup_lt_is_Some_2 _ _ Hp) as [x ->]. done.
  - by rewrite list_lookup_alter_ne.
Qed.

Lemma the_port_upd_field {A} (e : engine) (p q : port_ptr) (f : port -> port) (g : port -> A) :
  (forall x, g (f x) = g x) -> g (the_port (upd_port p f e) q) = g (the_port e q).
Proof.
  intros Hg. unfold the_port, upd_port. cbn.
  destruct (decide (p = q)) as [->|]; [|by rewrite list_lookup_alter_ne].
  rewrite list_lookup_alter_eq. destruct (ports e !! q); cbn; auto.
Qed.

Lemma dom_upd_client (e : engine) (c : client_ptr) (f : client -> client) :
  dom (client_store (upd_client c f e)) = dom (client_store e).
Proof. unfold upd_client. cbn. apply dom_alter_L. Qed.

Lemma length_upd_port (e : engine) (p : port_ptr) (f : port -> port) :
  length (ports (upd_port p f e)) = length (ports e).
Proof. unfold upd_port. cbn. apply length_alter. Qed.

Lemma by_id_member (e : engine) (i : Z) (c : client_ptr) :
  jack_client_internal_by_id e i = Some c -> c ∈ clients e /\ c_id (the_client e c) = i.
Proof.
  unfold jack_client_internal_by_id. intros Hh. apply head_Some_elem_of in Hh.
  by apply list_elem_of_filter in Hh as [? ?].
Qed.

Lemma by_id_unique (e : engine) (c : client_ptr) :
  c ∈ clients e ->
  (forall d, d ∈ clients e -> c_id (the_client e d) = c_id (the_client e c) -> d = c) ->
  jack_client_internal_by_id e (c_id (the_client e c)) = Some c.
Proof.
  intros Hc Hu. destruct (jack_client_internal_by_id e (c_id (the_client e c))) as [d|] eqn:E.
  - apply by_id_member in E as [Hd E]. by rewrite (Hu d).
  - unfold jack_client_internal_by_id in E. destruct (filter _ _) as [|d l] eqn:Ef; [|done].
    assert (Hin : c ∈ filter (fun d => c_id (the_client e d) = c_id (the_client e c)) (clients e))
      by (by apply list_elem_of_filter). rewrite Ef in Hin. by apply not_elem_of_nil in Hin.
Qed.

(** ** A server with no client, for examples *)

Definition empty_control : transport_control :=
  let zero := mk_position 0 0 48000 0 0 [] 0 in
  {| transport_state := JackTransportStopped; transport_cmd := TransportCommandStop;
     previous_cmd := TransportCommandStop; current_time := zero; pending_time := zero;
     request_time := zero; prev_request := 0; seq_number := 1; new_pos := false;
     pending_pos := false; pending_frame := 0; sync_clients := 0; sync_remain := 0;
     sync_timeout := 2000000; sync_time_left := 0; buffer_size := 1024 |}.

Definition empty_engine : engine :=
  {| clients := []; client_store := ∅; ports := []; conn_store := ∅; feedbackcount := 0;
     driver := None; port_types := []; port_buffers := []; port_segment := [];
     silent_buffer := None; fifo := []; next_client_id := 1;
     external_client_cnt := 0; timebase_client := None; problems := 0; timeout_count := 0;
     control := empty_control; audio_out_cnt := 0; audio_in_cnt := 0; midi_out_cnt := 0;
     midi_in_cnt := 0; reserved_client_names := []; session_reply_fd := -1;
     session_pending_replies := 0; temporary := false; wait_pid := -1;
     new_clients_allowed := true; nozombies := false; freewheeling := false;
     stop_freewheeling := false; fwclient := 0; process_errors := 0;
     events := []; buffer_inits := []; io_count := 0; crashed := false |}.
