(* ===== verification/Transport.v ===== *)
(** * The transport (server/transengine.c, libjack/transclient.c)

    The server side decides, at the end of every process cycle, the transport
    state of the next one; slow-sync clients hold a starting transport back
    until they are ready or the timeout has run out; one client at most is the
    timebase master.  The client side posts commands and positions in the
    shared control block and answers the polls.

    The C [assert]s are not executed here: [poll_counts_agree],
    [sync_clients_agree] and the theorems below show that they hold. *)

From S2P Require Import Prelude Engine.

Local Open Scope Z_scope.

Module Transport.

(** ** Server side: polling slow-sync clients *)

(** [VERBOSE] and [DEBUG] output is not part of the state. *)
Definition jack_sync_poll_new (c : client_ptr) (e : engine) : engine :=
  let e := upd_control (fun t => t <| sync_time_left := sync_timeout t |>) e in
  let e := upd_client c (fun x => x <| sync_new := true |>) e in
  let e :=
    if negb (sync_poll (the_client e c)) then
      upd_control (fun t => t <| sync_remain ::= Z.succ |>)
        (upd_client c (fun x => x <| sync_poll := true |>) e)
    else e in
  if decide (transport_state (control e) = JackTransportRolling)
  then upd_control (fun t => t <| transport_state := JackTransportStarting |>) e
  else e.

Definition jack_sync_poll_deactivate (c : client_ptr) (e : engine) : engine :=
  let e :=
    if sync_poll (the_client e c) then
      upd_control (fun t => t <| sync_remain ::= Z.pred |>)
        (upd_client c (fun x => x <| sync_poll := false |> <| sync_new := false |>) e)
    else e in
  upd_control (fun t => t <| sync_clients ::= Z.pred |>)
    (upd_client c (fun x => x <| active_slowsync := false |>) e).

(** Returns [poll_count], which the source compares with [sync_remain]. *)
Definition jack_sync_poll_stop (e : engine) : Z * engine :=
  let '(poll_count, e) :=
    foldl (fun '(n, e) c =>
             if active_slowsync (the_client e c) && sync_poll (the_client e c)
             then (n + 1, upd_client c (fun x => x <| sync_poll := false |>) e)
             else (n, e))
          (0, e) (clients e) in
  (poll_count,
   upd_control (fun t => t <| sync_remain := 0 |> <| sync_time_left := 0 |>) e).

(** Returns [sync_count], which the source compares with [sync_clients]. *)
Definition jack_sync_poll_start (e : engine) : Z * engine :=
  let '(sync_count, e) :=
    foldl (fun '(n, e) c =>
             if active_slowsync (the_client e c)
             then (n + 1, upd_client c (fun x => x <| sync_poll := true |>) e)
             else (n, e))
          (0, e) (clients e) in
  (sync_count,
   upd_control (fun t => t <| sync_remain := sync_count |>
                           <| sync_time_left := sync_timeout t |>) e).

(** Microseconds per buffer; a [frame_rate] of 0 is dealt with where the division is made. *)
Definition buf_usecs (t : transport_control) : Z :=
  u64 (buffer_size t * 1000000) / frame_rate (current_time t).

Definition jack_sync_timeout (e : engine) : bool * engine :=
  let usecs := buf_usecs (control e) in
  let e := e <| crashed ::= orb (frame_rate (current_time (control e)) =? 0) |> in
  if sync_time_left (control e) >? usecs
  then (false, upd_control (fun t => t <| sync_time_left ::= fun l => l - usecs |>) e)
  else (true, upd_control (fun t => t <| sync_time_left := 0 |>) e).

(** ** Server side: requests *)

Definition jack_set_sample_rate (nframes : Z) (e : engine) : Z * engine :=
  (0, upd_control (fun t => t <| current_time ::= fun p => p <| frame_rate := nframes |> |>
                              <| pending_time ::= fun p => p <| frame_rate := nframes |> |>) e).

Definition jack_timebase_reset (i : Z) (e : engine) : Z * engine :=
  match jack_client_internal_by_id e i with
  | Some c =>
      if decide (timebase_client e = Some c) then
        (0, upd_control (fun t => t <| pending_time ::= fun p => p <| valid := 0 |> |>)
              (upd_client c (fun x => x <| is_timebase := false |> <| timebase_new := false |>) e
                 <| timebase_client := None |>))
      else (EINVAL, e)
  | None => (EINVAL, e)
  end.

Definition jack_timebase_set (i : Z) (conditional : bool) (e : engine) : Z * engine :=
  match jack_client_internal_by_id e i with
  | None => (EINVAL, e)
  | Some c =>
      if conditional && bool_decide (is_Some (timebase_client e)) then
        if decide (timebase_client e = Some c) then (0, e) else (EBUSY, e)
      else
        let e := match timebase_client e with
                 | Some m => upd_client m (fun x => x <| is_timebase := false |>
                                                      <| timebase_new := false |>) e
                 | None => e
                 end in
        let e := e <| timebase_client := Some c |> in
        let e := upd_client c (fun x => x <| is_timebase := true |>) e in
        let e := if active (the_client e c)
                 then upd_client c (fun x => x <| timebase_new := true |>) e else e in
        (0, e)
  end.

Definition jack_transport_activate (c : client_ptr) (e : engine) : engine :=
  let e :=
    if is_slowsync (the_client e c) then
      jack_sync_poll_new c
        (upd_control (fun t => t <| sync_clients ::= Z.succ |>)
           (upd_client c (fun x => x <| active_slowsync := true |>) e))
    else e in
  if is_timebase (the_client e c)
  then upd_client c (fun x => x <| timebase_new := true |>) e
  else e.

Definition zero_position : jack_position_t :=
  {| unique_1 := 0; usecs := 0; frame_rate := 0; frame := 0; valid := 0; bbt := [];
     unique_2 := 0 |}.

Definition jack_transport_init (e : engine) : engine :=
  upd_control (fun t =>
    {| transport_state := JackTransportStopped; transport_cmd := TransportCommandStop;
       previous_cmd := TransportCommandStop; current_time := zero_position;
       pending_time := zero_position; request_time := zero_position; prev_request := 0;
       seq_number := 1; new_pos := false; pending_pos := false; pending_frame := 0;
       sync_clients := 0; sync_remain := 0; sync_timeout := 2000000; sync_time_left := 0;
       buffer_size := buffer_size t |})
    (e <| timebase_client := None |>).

Definition jack_transport_client_exit (c : client_ptr) (e : engine) : engine :=
  let e :=
    if decide (timebase_client e = Some c) then
      let e :=
        if dead (the_client e c) then
          upd_client c (fun x => x <| is_timebase := false |> <| timebase_new := false |>) e
            <| timebase_client := None |>
        else e in
      upd_control (fun t => t <| current_time ::= fun p => p <| valid := 0 |> |>
                              <| pending_time ::= fun p => p <| valid := 0 |> |>) e
    else e in
  if is_slowsync (the_client e c) then
    let e := if active_slowsync (the_client e c) then jack_sync_poll_deactivate c e else e in
    if dead (the_client e c)
    then upd_client c (fun x => x <| is_slowsync := false |>) e else e
  else e.

Definition jack_transport_client_new (x : client) : client :=
  x <| is_timebase := false |> <| timebase_new := false |> <| is_slowsync := false |>
    <| active_slowsync := false |> <| sync_poll := false |> <| sync_new := false |>
    <| cbset ::= fun b => b <| sync_cb_cbset := false |> <| timebase_cb_cbset := false |> |>.

Definition jack_transport_client_reset_sync (i : Z) (e : engine) : Z * engine :=
  match jack_client_internal_by_id e i with
  | Some c =>
      if is_slowsync (the_client e c) then
        let e := if active_slowsync (the_client e c)
                 then jack_sync_poll_deactivate c e else e in
        (0, upd_client c (fun x => x <| is_slowsync := false |>) e)
      else (EINVAL, e)
  | None => (EINVAL, e)
  end.

Definition jack_transport_client_set_sync (i : Z) (e : engine) : Z * engine :=
  match jack_client_internal_by_id e i with
  | Some c =>
      let e :=
        if negb (is_slowsync (the_client e c)) then
          let e := upd_client c (fun x => x <| is_slowsync := true |>) e in
          if active (the_client e c) then
            upd_control (fun t => t <| sync_clients ::= Z.succ |>)
              (upd_client c (fun x => x <| active_slowsync := true |>) e)
          else e
        else e in
      let e := if active_slowsync (the_client e c) then jack_sync_poll_new c e else e in
      (0, e)
  | None => (EINVAL, e)
  end.

(** ** Client side: the guarded copy and the requests in shared memory *)

(** The copy is repeated until both guards agree; against a structure at rest
    whose guards differ it ends in [abort]. *)
Definition jack_transport_copy_position (from : jack_position_t) : option jack_position_t :=
  if unique_1 from =? unique_2 from then Some from else None.

(** [exchange_and_add] on a 32-bit word. *)
Definition jack_generate_unique_id (t : transport_control) : Z * transport_control :=
  (seq_number t, t <| seq_number ::= fun n => s32 (n + 1) |>).

Definition jack_transport_request_new_pos (pos : jack_position_t) (e : engine)
    : option engine :=
  let '(uid, t) := jack_generate_unique_id (control e) in
  let pos := {| unique_1 := uid; usecs := usecs (current_time t);
                frame_rate := frame_rate (current_time t); frame := frame pos;
                valid := valid pos; bbt := bbt pos; unique_2 := uid |} in
  match jack_transport_copy_position pos with
  | Some p => Some (e <| control := t <| request_time := p |> |>)
  | None => None
  end.

(** The fields of the local variable that are not assigned are [uninit]. *)
Definition jack_transport_locate (uninit : jack_position_t) (fr : Z) (e : engine)
    : option engine :=
  jack_transport_request_new_pos (uninit <| frame := fr |> <| valid := 0 |>) e.

Definition JACK_POSITION_MASK : Z := 0x10 + 0x20 + 0x40 + 0x80 + 0x100.

Definition jack_transport_reposition (pos : jack_position_t) (e : engine)
    : option (Z * engine) :=
  if negb (Z.land (valid pos) (Z.lnot JACK_POSITION_MASK) =? 0) then Some (EINVAL, e)
  else match jack_transport_request_new_pos pos e with
       | Some e => Some (0, e)
       | None => None
       end.

Definition jack_transport_start (e : engine) : engine :=
  upd_control (fun t => t <| transport_cmd := TransportCommandStart |>) e.

Definition jack_transport_stop (e : engine) : engine :=
  upd_control (fun t => t <| transport_cmd := TransportCommandStop |>) e.

(** [ready] is what the client's [sync_cb] answers. *)
Definition jack_call_sync_client (ready : bool) (c : client_ptr) (e : engine) : engine :=
  let x := the_client e c in
  if (new_pos (control e) || sync_poll x || sync_new x) && active_slowsync x then
    let e :=
      if ready then
        if sync_poll (the_client e c) then
          upd_control (fun t => t <| sync_remain ::= Z.pred |>)
            (upd_client c (fun x => x <| sync_poll := false |>) e)
        else e
      else e in
    upd_client c (fun x => x <| sync_new := false |>) e
  else e.

(** [cb] is the master's [timebase_cb]: it receives the state, the buffer
    size, the pending position and the flag, and rewrites the position. *)
Definition jack_call_timebase_master
    (cb : jack_transport_state_t -> Z -> jack_position_t -> bool -> jack_position_t)
    (c : client_ptr) (e : engine) : engine :=
  let np := pending_pos (control e) in
  if is_timebase (the_client e c) then
    let '(np, e) :=
      if timebase_new (the_client e c)
      then (true, upd_client c (fun x => x <| timebase_new := false |>) e)
      else (np, e) in
    if bool_decide (transport_state (control e) = JackTransportRolling) || np then
      upd_control (fun t => t <| pending_time :=
        cb (transport_state t) (buffer_size t) (pending_time t) np |>) e
    else e
  else upd_client c (fun x => x <| cbset ::= fun b => b <| timebase_cb_cbset := false |> |>) e.

(** ** Server side: the end of a cycle *)

(** Promote [pending_time]; [usecs], [frame_rate] and [frame] are the
    engine's own. *)
Definition promote_pending (t : transport_control) : transport_control :=
  let p := pending_time t <| usecs := usecs (current_time t) |>
             <| frame_rate := frame_rate (current_time t) |>
             <| frame := pending_frame t |> in
  t <| pending_time := p |> <| current_time := p |> <| new_pos := pending_pos t |>.

(** The check of the polls of the cycle that ends. *)
Definition check_sync_results (e : engine) : engine :=
  if decide (transport_state (control e) = JackTransportStarting) then
    if sync_remain (control e) =? 0
    then upd_control (fun t => t <| transport_state := JackTransportRolling |>) e
    else
      let '(timed_out, e) := jack_sync_timeout e in
      if timed_out
      then upd_control (fun t => t <| transport_state := JackTransportRolling |>) e
      else e
  else e.

(** The latest command, [TransportCommandNone] when it is not new. *)
Definition latest_command (e : engine) : transport_command_t * engine :=
  let cmd := transport_cmd (control e) in
  if decide (cmd = previous_cmd (control e)) then (TransportCommandNone, e)
  else (cmd, upd_control (fun t => t <| previous_cmd := cmd |>) e).

Definition set_transport_state (s : jack_transport_state_t) (e : engine) : engine :=
  upd_control (fun t => t <| transport_state := s |>) e.

(** [if (sync_clients) { Starting; poll_start } else Rolling]. *)
Definition start_or_roll (e : engine) : engine :=
  if negb (sync_clients (control e) =? 0)
  then (jack_sync_poll_start (set_transport_state JackTransportStarting e)).2
  else set_transport_state JackTransportRolling e.

Definition stop_transport (e : engine) : engine :=
  let e := set_transport_state JackTransportStopped e in
  if negb (sync_remain (control e) =? 0) then (jack_sync_poll_stop e).2 else e.

(** The state transition switch. *)
Definition transport_switch (cmd : transport_command_t) (e : engine) : engine :=
  match transport_state (control e) with
  | JackTransportStopped =>
      if decide (cmd = TransportCommandStart) then start_or_roll e else e
  | JackTransportStarting =>
      if decide (cmd = TransportCommandStop) then stop_transport e
      else if new_pos (control e) then start_or_roll e else e
  | JackTransportRolling =>
      if decide (cmd = TransportCommandStop) then stop_transport e
      else if new_pos (control e) then
        if negb (sync_clients (control e) =? 0)
        then (jack_sync_poll_start (set_transport_state JackTransportStarting e)).2 else e
      else e
  | JackTransportLooping => e
  end.

(** Advance the frame, then take over a position request, if one arrived. *)
Definition next_position (e : engine) : option engine :=
  let e :=
    if decide (transport_state (control e) = JackTransportRolling) then
      upd_control (fun t => t <| pending_time ::= fun p =>
        p <| frame := u32 (frame (current_time t) + buffer_size t) |> |>) e
    else e in
  let e := upd_control (fun t => t <| pending_pos := false |>) e in
  let save_frame e :=
    upd_control (fun t => t <| pending_frame := frame (pending_time t) |>) e in
  if negb (unique_1 (request_time (control e)) =? prev_request (control e)) then
    match jack_transport_copy_position (request_time (control e)) with
    | Some p =>
        Some (save_frame (upd_control (fun t =>
          t <| pending_time := p |> <| prev_request := unique_1 p |>
            <| pending_pos := true |>) e))
    | None => None
    end
  else Some (save_frame e).

Definition jack_transport_cycle_end (e : engine) : option engine :=
  let e := upd_control promote_pending e in
  let e := check_sync_results e in
  let '(cmd, e) := latest_command e in
  let e := transport_switch cmd e in
  next_position e.

Definition jack_transport_cycle_start (time : Z) (e : engine) : engine :=
  upd_control (fun t => t <| current_time ::= fun p => p <| usecs := time |> |>) e.

Definition jack_transport_set_sync_timeout (us : Z) (e : engine) : Z * engine :=
  (0, upd_control (fun t => t <| sync_timeout := us |>) e).

(** ** The sync counters *)

Definition count_clients (p : client -> bool) (e : engine) : Z :=
  countb (fun c => p (the_client e c)) (clients e).

Definition polled (x : client) : bool := active_slowsync x && sync_poll x.

(** What one slow-sync client may look like. *)
Definition sync_client_ok (x : client) : bool := implb (sync_poll x) (active_slowsync x).

(** Only active slow-sync clients are counted. *)
Definition slow_ok (x : client) : bool := implb (active_slowsync x) (is_slowsync x && active x).

Definition slow_inv (e : engine) : Prop :=
  forall c, c ∈ clients e -> slow_ok (the_client e c) = true.

(** At most one client has the master flag: the engine's timebase client. *)
Record timebase_inv (e : engine) : Prop := {
  ti_flag : forall c, c ∈ clients e ->
    is_timebase (the_client e c) = bool_decide (timebase_client e = Some c);
  ti_member : forall m, timebase_client e = Some m -> m ∈ clients e
}.

Record sync_inv (e : engine) : Prop := {
  si_nodup : NoDup (clients e);
  si_store : forall c, c ∈ clients e -> is_Some (client_store e !! c);
  si_client : forall c, c ∈ clients e -> sync_client_ok (the_client e c) = true;
  si_clients : sync_clients (control e) = count_clients active_slowsync e;
  si_remain : sync_remain (control e) = count_clients polled e
}.

(** The invariant of the transport. *)
Definition transport_inv (e : engine) : Prop := sync_inv e /\ slow_inv e /\ timebase_inv e.

Lemma count_clients_upd p c f e :
  sync_inv e -> c ∈ clients e ->
  count_clients p (upd_client c f e) =
  count_clients p e - Z.b2z (p (the_client e c)) + Z.b2z (p (f (the_client e c))).
Proof.
  intros H Hc. unfold count_clients. cbn [clients upd_client].
  rewrite (countb_change (fun d => p (the_client e d)) _ (clients e) c (si_nodup e H) Hc).
  - rewrite the_client_upd by (by apply si_store). by rewrite decide_True.
  - intros d Hd. by rewrite the_client_upd_ne.
Qed.

(** One client changes and the counters follow. *)
Lemma sync_inv_upd c f g e :
  sync_inv e -> c ∈ clients e ->
  let x := the_client e c in
  (sync_client_ok x = true -> sync_client_ok (f x) = true) ->
  sync_clients (g (control e)) =
    sync_clients (control e) - Z.b2z (active_slowsync x) + Z.b2z (active_slowsync (f x)) ->
  sync_remain (g (control e)) =
    sync_remain (control e) - Z.b2z (polled x) + Z.b2z (polled (f x)) ->
  sync_inv (upd_control g (upd_client c f e)).
Proof.
  intros H Hc x Hok Hcl Hre. constructor; cbn.
  - apply H.
  - intros d Hd. apply lookup_alter_is_Some. by apply H.
  - intros d Hd. change (the_client _ d) with (the_client (upd_client c f e) d).
    rewrite the_client_upd by (by apply si_store). case_decide as E; [|by apply H].
    subst d. apply Hok. by apply H.
  - change (count_clients active_slowsync _) with (count_clients active_slowsync (upd_client c f e)).
    rewrite count_clients_upd, <- (si_clients e H) by done. exact Hcl.
  - change (count_clients polled _) with (count_clients polled (upd_client c f e)).
    rewrite count_clients_upd, <- (si_remain e H) by done. exact Hre.
Qed.

Lemma sync_inv_control g e :
  sync_clients (g (control e)) = sync_clients (control e) ->
  sync_remain (g (control e)) = sync_remain (control e) ->
  sync_inv e -> sync_inv (upd_control g e).
Proof. intros E1 E2 []. constructor; cbn; try done; by rewrite ?E1, ?E2. Qed.

Lemma sync_inv_client c f e :
  sync_inv e -> c ∈ clients e ->
  (sync_client_ok (the_client e c) = true -> sync_client_ok (f (the_client e c)) = true) ->
  active_slowsync (f (the_client e c)) = active_slowsync (the_client e c) ->
  polled (f (the_client e c)) = polled (the_client e c) ->
  sync_inv (upd_client c f e).
Proof.
  intros H Hc Hok Ea Ep.
  assert (Hu : sync_inv (upd_control (fun t => t) (upd_client c f e))).
  { apply sync_inv_upd; try done; rewrite ?Ea, ?Ep; lia. }
  by destruct Hu.
Qed.

(** Case analysis on the six flags of a client. *)
Ltac flag_cases :=
  unfold sync_client_ok, slow_ok, polled; cbn;
  repeat (match goal with
    | |- context [sync_poll (the_client ?e ?c)] => destruct (sync_poll (the_client e c)) eqn:?
    | |- context [active_slowsync (the_client ?e ?c)] =>
        destruct (active_slowsync (the_client e c)) eqn:?
    | |- context [is_slowsync (the_client ?e ?c)] => destruct (is_slowsync (the_client e c)) eqn:?
    | |- context [active (the_client ?e ?c)] => destruct (active (the_client e c)) eqn:?
    end; cbn); try done; try lia; try congruence.

Lemma the_client_upd_same (e : engine) (c : client_ptr) (f : client -> client) :
  is_Some (client_store e !! c) -> the_client (upd_client c f e) c = f (the_client e c).
Proof. intros. rewrite the_client_upd by done. by rewrite decide_True. Qed.

Lemma poll_new_inv c e :
  sync_inv e -> c ∈ clients e -> active_slowsync (the_client e c) = true ->
  sync_inv (jack_sync_poll_new c e).
Proof.
  intros H Hc Ha. unfold jack_sync_poll_new.
  set (e1 := upd_client c _ _).
  assert (H1 : sync_inv e1).
  { apply sync_inv_client; [by apply sync_inv_control|done|flag_cases..]. }
  assert (Hc1 : the_client e1 c = the_client e c <| sync_new := true |>)
    by (unfold e1; rewrite the_client_upd_same; [done|by apply H]).
  set (e2 := if negb _ then _ else e1).
  assert (H2 : sync_inv e2).
  { unfold e2. destruct (sync_poll (the_client e1 c)) eqn:Ep; cbn [negb]; [done|].
    apply sync_inv_upd; [done|done|..]; rewrite Hc1 in *; revert Ha Ep; flag_cases. }
  case_decide; [|done]. by apply sync_inv_control.
Qed.

Lemma poll_deactivate_inv c e :
  sync_inv e -> c ∈ clients e -> active_slowsync (the_client e c) = true ->
  sync_inv (jack_sync_poll_deactivate c e).
Proof.
  intros H Hc Ha. unfold jack_sync_poll_deactivate.
  set (e1 := if sync_poll _ then _ else e).
  assert (H1 : sync_inv e1 /\ clients e1 = clients e /\
               active_slowsync (the_client e1 c) = true /\ sync_poll (the_client e1 c) = false).
  { unfold e1. destruct (sync_poll (the_client e c)) eqn:Ep; [|done].
    assert (Hs : is_Some (client_store e !! c)) by (by apply H).
    change (the_client (upd_control ?g ?e) c) with (the_client e c).
    rewrite the_client_upd_same by done. split_and!; try done.
    apply sync_inv_upd; [done|done|..]; revert Ha Ep; flag_cases. }
  destruct H1 as (H1 & Ec & Ha1 & Hp1).
  apply sync_inv_upd; [done|by rewrite Ec|..]; revert Ha1 Hp1; flag_cases.
Qed.

(** The loops over all clients: count the clients that pass a test and update
    each of them. *)
Lemma update_where_spec (test : client -> bool) (f : client -> client) l n e :
  NoDup l -> (forall c, c ∈ l -> is_Some (client_store e !! c)) ->
  let r := foldl (fun '(n, e) c => if test (the_client e c)
                                   then (n + 1, upd_client c f e) else (n, e)) (n, e) l in
  r.1 = n + countb (fun c => test (the_client e c)) l /\
  clients r.2 = clients e /\
  (control r.2 = control e /\ timebase_client r.2 = timebase_client e) /\
  (forall c, is_Some (client_store e !! c) -> is_Some (client_store r.2 !! c)) /\
  (forall c, the_client r.2 c =
     if decide (c ∈ l) then if test (the_client e c) then f (the_client e c) else the_client e c
     else the_client e c).
Proof.
  revert n e. induction l as [|a l IH]; intros n e Hnd Hs r.
  { subst r. rewrite countb_nil. cbn [foldl fst snd].
    split_and!; [lia|done..|]. intros c. case_decide; [set_solver|done]. }
  apply NoDup_cons in Hnd as [Ha Hnd]. subst r. cbn [foldl]. rewrite countb_cons.
  destruct (test (the_client e a)) eqn:Et.
  - destruct (IH (n + 1) (upd_client a f e)) as (E1 & E2 & E3 & E4 & E5); [done|..].
    { intros c Hc. apply lookup_alter_is_Some. apply Hs. set_solver. }
    split_and!; [|done|apply E3|apply E3|..].
    + rewrite E1. enough (countb (fun c => test (the_client (upd_client a f e) c)) l =
                         countb (fun c => test (the_client e c)) l) by (cbn; lia).
      apply countb_ext. intros c Hc. rewrite the_client_upd_ne; [done|]. by intros ->.
    + intros c Hc. apply E4. by apply lookup_alter_is_Some.
    + intros c. rewrite E5. destruct (decide (a = c)) as [->|Hne].
      * rewrite decide_False, decide_True by set_solver. rewrite Et.
        apply the_client_upd_same. apply Hs. set_solver.
      * rewrite the_client_upd_ne by done. repeat case_decide; set_solver.
  - destruct (IH n e) as (E1 & E2 & E3 & E4 & E5); [done|set_solver|].
    split_and!; [rewrite E1; cbn; lia|done|apply E3|apply E3|done|].
    intros c. rewrite E5. destruct (decide (c = a)) as [->|].
    + rewrite decide_False, decide_True by set_solver. by rewrite Et.
    + repeat case_decide; set_solver.
Qed.

Lemma poll_stop_inv e :
  sync_inv e ->
  let r := jack_sync_poll_stop e in
  r.1 = sync_remain (control e) /\ sync_inv r.2 /\ clients r.2 = clients e.
Proof.
  intros H r. subst r. unfold jack_sync_poll_stop.
  pose proof (update_where_spec polled (fun x => x <| sync_poll := false |>) (clients e) 0 e
                (si_nodup e H) (si_store e H)) as Hu. unfold polled in Hu at 1. cbn zeta in Hu.
  destruct (foldl _ _ _) as [n e']. cbn in Hu. destruct Hu as (En & Ec & [Et _] & Es & Ed).
  split_and!; [cbn; rewrite (si_remain e H); exact En| |done].
  assert (Hd : forall c, c ∈ clients e -> the_client e' c =
     if polled (the_client e c) then the_client e c <| sync_poll := false |> else the_client e c)
    by (intros c Hc; rewrite Ed, decide_True by done; done).
  constructor; cbn; rewrite ?Ec, ?Et.
  - apply H.
  - intros c Hc. by apply Es, H.
  - intros c Hc. change (the_client _ c) with (the_client e' c). rewrite Hd by done.
    pose proof (si_client e H c Hc) as Hok. revert Hok. flag_cases.
  - rewrite (si_clients e H). unfold count_clients. cbn. rewrite Ec. apply countb_ext.
    intros c Hc. change (the_client (upd_control ?g ?e) c) with (the_client e c).
    rewrite Hd by done. by destruct (polled _).
  - symmetry. apply countb_zero. intros c Hc. cbn in Hc. rewrite Ec in Hc.
    change (the_client (upd_control ?g ?e) c) with (the_client e c). rewrite Hd by done.
    destruct (polled (the_client e c)) eqn:Ep; [flag_cases|done].
Qed.

Lemma poll_start_inv e :
  sync_inv e ->
  let r := jack_sync_poll_start e in
  r.1 = sync_clients (control e) /\ sync_inv r.2 /\ clients r.2 = clients e.
Proof.
  intros H r. subst r. unfold jack_sync_poll_start.
  pose proof (update_where_spec active_slowsync (fun x => x <| sync_poll := true |>) (clients e)
                0 e (si_nodup e H) (si_store e H)) as Hu. cbn zeta in Hu.
  destruct (foldl _ _ _) as [n e']. cbn in Hu. destruct Hu as (En & Ec & [Et _] & Es & Ed).
  assert (En' : n = sync_clients (control e)) by (rewrite (si_clients e H); exact En).
  split_and!; [done| |done].
  assert (Hd : forall c, c ∈ clients e -> the_client e' c =
     if active_slowsync (the_client e c) then the_client e c <| sync_poll := true |>
     else the_client e c) by (intros c Hc; rewrite Ed, decide_True by done; done).
  assert (Hact : forall c, c ∈ clients e ->
     active_slowsync (the_client e' c) = active_slowsync (the_client e c))
    by (intros c Hc; rewrite Hd by done; destruct (active_slowsync (the_client e c)) eqn:Ea; cbn; auto).
  constructor; cbn; rewrite ?Ec, ?Et.
  - apply H.
  - intros c Hc. by apply Es, H.
  - intros c Hc. change (the_client _ c) with (the_client e' c). rewrite Hd by done.
    pose proof (si_client e H c Hc) as Hok. revert Hok. flag_cases.
  - rewrite (si_clients e H). unfold count_clients. cbn. rewrite Ec. apply countb_ext.
    intros c Hc. symmetry. by apply Hact.
  - rewrite En', (si_clients e H). unfold count_clients. cbn. rewrite Ec. apply countb_ext.
    intros c Hc. change (the_client (upd_control ?g ?e) c) with (the_client e c).
    rewrite Hd by done. pose proof (si_client e H c Hc) as Hok. revert Hok. flag_cases.
Qed.

(** ** Requests *)

(** Frame: an update that touches neither the sync flags nor the counters. *)
Lemma sync_inv_frame c f e :
  (forall x, sync_poll (f x) = sync_poll x) ->
  (forall x, active_slowsync (f x) = active_slowsync x) ->
  sync_inv e -> sync_inv (upd_client c f e).
Proof.
  intros F1 F2 H. constructor; cbn.
  - apply H.
  - intros d Hd. apply lookup_alter_is_Some. by apply H.
  - intros d Hd. unfold sync_client_ok. rewrite !the_client_upd_field by done. by apply H.
  - rewrite (si_clients e H). apply countb_ext. intros d Hd. symmetry.
    by apply the_client_upd_field.
  - rewrite (si_remain e H). apply countb_ext. intros d Hd. unfold polled.
    by rewrite !the_client_upd_field by done.
Qed.

Lemma slow_inv_frame c f e :
  (forall x, slow_ok x = true -> slow_ok (f x) = true) -> slow_inv e -> slow_inv (upd_client c f e).
Proof.
  intros F H d Hd. cbn in Hd. specialize (H d Hd). revert H.
  unfold the_client, upd_client. cbn. destruct (decide (c = d)) as [->|].
  - rewrite lookup_alter_eq. destruct (client_store e !! d); cbn; auto.
  - by rewrite lookup_alter_ne.
Qed.

Lemma timebase_inv_frame c f e :
  (forall x, is_timebase (f x) = is_timebase x) -> timebase_inv e -> timebase_inv (upd_client c f e).
Proof.
  intros F H. constructor; cbn; [|apply H]. intros d Hd.
  rewrite the_client_upd_field by done. by apply H.
Qed.

Lemma timebase_inv_control g e : timebase_inv e -> timebase_inv (upd_control g e).
Proof. intros []. by constructor. Qed.

Lemma sync_inv_timebase v e : sync_inv e -> sync_inv (e <| timebase_client := v |>).
Proof. intros []. by constructor. Qed.

(** The master resigns. *)
Lemma timebase_clear m e :
  transport_inv e -> timebase_client e = Some m ->
  transport_inv (upd_client m (fun x => x <| is_timebase := false |> <| timebase_new := false |>) e
                   <| timebase_client := None |>).
Proof.
  intros (Hs & Hl & Ht) Em. split_and!.
  - by apply sync_inv_timebase, sync_inv_frame.
  - by apply (slow_inv_frame m _ e).
  - constructor; cbn; [|done]. intros c Hc.
    change (the_client (?x <| timebase_client := None |>) c) with (the_client x c).
    rewrite the_client_upd by (apply Hs, Ht, Em). case_decide as E; [done|].
    rewrite (ti_flag e Ht) by done. apply bool_decide_eq_false. congruence.
Qed.

(** A client of the list becomes master while nobody is. *)
Lemma timebase_install c e :
  transport_inv e -> timebase_client e = None -> c ∈ clients e ->
  transport_inv (upd_client c (fun x => x <| is_timebase := true |>)
                   (e <| timebase_client := Some c |>)).
Proof.
  intros (Hs & Hl & Ht) Em Hc. split_and!.
  - by apply sync_inv_frame; [done|done|apply sync_inv_timebase].
  - by apply slow_inv_frame.
  - constructor; cbn; [|intros m E; by injection E as <-]. intros d Hd.
    rewrite the_client_upd by (by apply Hs). case_decide as E.
    + subst d. by rewrite bool_decide_true.
    + change (the_client (?x <| timebase_client := Some c |>) d) with (the_client x d).
      rewrite (ti_flag e Ht), Em by done. rewrite !bool_decide_false by congruence. done.
Qed.

Lemma transport_inv_frame c f e :
  (forall x, sync_poll (f x) = sync_poll x) ->
  (forall x, active_slowsync (f x) = active_slowsync x) ->
  (forall x, slow_ok x = true -> slow_ok (f x) = true) ->
  (forall x, is_timebase (f x) = is_timebase x) ->
  transport_inv e -> transport_inv (upd_client c f e).
Proof.
  intros ? ? ? ? (? & ? & ?). split_and!;
    [by apply sync_inv_frame|by apply slow_inv_frame|by apply timebase_inv_frame].
Qed.

Lemma transport_inv_control g e :
  sync_clients (g (control e)) = sync_clients (control e) ->
  sync_remain (g (control e)) = sync_remain (control e) ->
  transport_inv e -> transport_inv (upd_control g e).
Proof.
  intros ? ? (? & ? & ?). split_and!;
    [by apply sync_inv_control|done|by apply timebase_inv_control].
Qed.

Lemma slow_inv_control g e : slow_inv e -> slow_inv (upd_control g e).
Proof. done. Qed.

Lemma transport_inv_crashed f e : transport_inv e -> transport_inv (e <| crashed ::= f |>).
Proof. intros ([] & H & []). by split_and!. Qed.

(** An update that can only help [slow_ok]. *)
Ltac slow_frame :=
  let x := fresh "x" in
  intros x; unfold slow_ok; cbn; by destruct (active_slowsync x), (is_slowsync x), (active x).

(** Peel the updates that do not concern the invariant at hand. *)
Ltac peel :=
  repeat match goal with
    | |- slow_inv (upd_control _ _) => apply slow_inv_control
    | |- slow_inv (upd_client _ _ _) => apply slow_inv_frame; [slow_frame|]
    | |- timebase_inv (upd_control _ _) => apply timebase_inv_control
    | |- timebase_inv (upd_client _ _ _) => apply timebase_inv_frame; [done|]
    | |- transport_inv (upd_client _ _ _) =>
        apply transport_inv_frame; [done|done|slow_frame|done|]
    | |- transport_inv (upd_control _ _) => apply transport_inv_control; [done|done|]
    end; try assumption.

Lemma poll_new_transport c e :
  transport_inv e -> c ∈ clients e -> active_slowsync (the_client e c) = true ->
  transport_inv (jack_sync_poll_new c e).
Proof.
  intros (Hs & Hl & Ht) Hc Ha. split; [by apply poll_new_inv|].
  unfold jack_sync_poll_new. set (e1 := upd_client c _ _).
  assert (H1 : slow_inv e1 /\ timebase_inv e1) by (split; unfold e1; peel).
  set (e2 := if negb _ then _ else e1).
  assert (H2 : slow_inv e2 /\ timebase_inv e2).
  { unfold e2. destruct (negb _); [|done]. destruct H1. split; peel. }
  case_decide; [|done]. destruct H2. split; peel.
Qed.

Lemma poll_deactivate_transport c e :
  transport_inv e -> c ∈ clients e -> active_slowsync (the_client e c) = true ->
  transport_inv (jack_sync_poll_deactivate c e).
Proof.
  intros (Hs & Hl & Ht) Hc Ha. split; [by apply poll_deactivate_inv|].
  unfold jack_sync_poll_deactivate. set (e1 := if sync_poll _ then _ else e).
  assert (H1 : slow_inv e1 /\ timebase_inv e1).
  { unfold e1. destruct (sync_poll (the_client e c)); [|done]. split; peel. }
  destruct H1. split; peel.
Qed.

Lemma timebase_reset_transport i e :
  transport_inv e -> transport_inv (jack_timebase_reset i e).2.
Proof.
  intros H. unfold jack_timebase_reset.
  destruct (jack_client_internal_by_id e i) as [c|]; [|done].
  case_decide as E; [|done]. by apply transport_inv_control, timebase_clear.
Qed.

Lemma timebase_set_transport i cond e :
  transport_inv e -> transport_inv (jack_timebase_set i cond e).2.
Proof.
  intros H. unfold jack_timebase_set.
  destruct (jack_client_internal_by_id e i) as [c|] eqn:Ec; [|done].
  apply by_id_member in Ec as [Hc _]. destruct (cond && _) eqn:Eb; [by case_decide|].
  set (e1 := match timebase_client e with Some m => _ | None => e end).
  assert (H1 : transport_inv (e1 <| timebase_client := None |>) /\ clients e1 = clients e).
  { unfold e1. destruct (timebase_client e) as [m|] eqn:Em; split; try done.
    - by apply timebase_clear.
    - destruct H as (? & ? & []). split_and!; [by apply sync_inv_timebase|done|].
      rewrite Em in *. by constructor. }
  destruct H1 as [H1 Ecl]. clearbody e1.
  assert (H2 : transport_inv (upd_client c (fun x => x <| is_timebase := true |>)
                                (e1 <| timebase_client := Some c |>)))
    by exact (timebase_install c (e1 <| timebase_client := None |>) H1 eq_refl
                (eq_rect_r (fun l => c ∈ l) Hc Ecl)).
  cbn zeta. destruct (active _); cbn [snd]; [|done]. by apply transport_inv_frame.
Qed.

(** Activation by [jack_client_activate]: the flag, then the transport. *)
Definition activate_client (c : client_ptr) (e : engine) : engine :=
  jack_transport_activate c (upd_client c (fun x => x <| active := true |>) e).

(** Deactivation by [jack_client_do_deactivate], preceded by the death of the
    client when it comes from [jack_zombify_client]. *)
Definition deactivate_client (zombify : bool) (c : client_ptr) (e : engine) : engine :=
  let e := if zombify then upd_client c (fun x => x <| dead := true |>) e else e in
  jack_transport_client_exit c (upd_client c (fun x => x <| active := false |>) e).

Lemma activate_transport c e :
  transport_inv e -> c ∈ clients e -> active (the_client e c) = false ->
  transport_inv (activate_client c e).
Proof.
  intros H Hc Ha. unfold activate_client, jack_transport_activate.
  assert (Hst : is_Some (client_store e !! c)) by (by apply (proj1 H)).
  set (e0 := upd_client c _ e).
  assert (H0 : transport_inv e0) by (subst e0; peel).
  assert (E0 : the_client e0 c = the_client e c <| active := true |>)
    by (by apply the_client_upd_same).
  assert (Hns : active_slowsync (the_client e c) = false).
  { pose proof (proj1 (proj2 H) c Hc) as Hok. revert Hok. unfold slow_ok. rewrite Ha.
    destruct (active_slowsync _), (is_slowsync _); done. }
  set (e1 := if is_slowsync _ then _ else e0).
  assert (H1 : transport_inv e1).
  { unfold e1. destruct (is_slowsync (the_client e0 c)) eqn:Es; [|done].
    apply poll_new_transport; [|done|].
    - destruct H0 as (Hs & Hl & Ht). split_and!; [|intros d Hd|by peel].
      + apply sync_inv_upd; [done|done|..]; rewrite E0; revert Hns; 
          pose proof (si_client e (proj1 H) c Hc) as Hok; revert Hok; flag_cases.
      + change (the_client (upd_control ?g ?x) d) with (the_client x d).
        rewrite the_client_upd by (by apply Hs). case_decide; [subst d|by apply Hl].
        rewrite E0 in *. revert Es. flag_cases.
    - change (the_client (upd_control ?g ?x) c) with (the_client x c).
      by rewrite the_client_upd_same by (by apply Hs || apply lookup_alter_is_Some). }
  destruct (is_timebase _); [|done]. by apply transport_inv_frame.
Qed.

(** The second half of [jack_transport_client_exit]; [slow_inv] may be broken
    at the exiting client, whose [active] flag is already cleared. *)
Lemma exit_sync_part c e :
  sync_inv e -> timebase_inv e -> c ∈ clients e ->
  (forall d, d ∈ clients e -> d <> c -> slow_ok (the_client e d) = true) ->
  implb (active_slowsync (the_client e c)) (is_slowsync (the_client e c)) = true ->
  transport_inv
    (if is_slowsync (the_client e c) then
       let e := if active_slowsync (the_client e c) then jack_sync_poll_deactivate c e else e in
       if dead (the_client e c)
       then upd_client c (fun x => x <| is_slowsync := false |>) e else e
     else e).
Proof.
  intros Hs Ht Hc Hl Hi.
  destruct (is_slowsync (the_client e c)) eqn:Ei.
  2:{ split_and!; [done| |done]. intros d Hd. destruct (decide (d = c)) as [->|]; [|by apply Hl].
      unfold slow_ok. destruct (active_slowsync (the_client e c)); done. }
  cbn zeta. set (e1 := if active_slowsync _ then _ else e).
  assert (H1 : sync_inv e1 /\ timebase_inv e1 /\ clients e1 = clients e /\
    (forall d, d <> c -> the_client e1 d = the_client e d) /\
    active_slowsync (the_client e1 c) = false).
  { unfold e1. destruct (active_slowsync (the_client e c)) eqn:Ea; [|done].
    split; [by apply poll_deactivate_inv|]. unfold jack_sync_poll_deactivate.
    set (e2 := if sync_poll _ then _ else e).
    assert (H2 : timebase_inv e2 /\ clients e2 = clients e /\ is_Some (client_store e2 !! c) /\
                 (forall d, d <> c -> the_client e2 d = the_client e d)).
    { unfold e2. destruct (sync_poll _); [|by split_and!; try done; apply Hs].
      split_and!; [by peel|done|apply lookup_alter_is_Some; by apply Hs|].
      intros d Hd. by apply the_client_upd_ne. }
    destruct H2 as (? & Ecl & Hst & Hne). split_and!; [by peel|done| |].
    - intros d Hd. rewrite <- Hne by done. by apply the_client_upd_ne.
    - change (the_client (upd_control ?g ?x) c) with (the_client x c).
      by rewrite the_client_upd_same. }
  destruct H1 as (Hs1 & Ht1 & Ecl & Hne & Ha1). clearbody e1.
  assert (H1 : transport_inv e1).
  { split_and!; [done| |done]. intros d Hd. destruct (decide (d = c)) as [->|Hdc].
    - unfold slow_ok. by rewrite Ha1.
    - rewrite Hne by done. apply Hl; [by rewrite <- Ecl|done]. }
  destruct (dead _); [|done]. destruct H1 as (? & Hl1 & ?).
  split_and!; [by apply sync_inv_frame| |by apply timebase_inv_frame].
  intros d Hd. rewrite the_client_upd by (by apply Hs1; rewrite Ecl).
  case_decide; [subst d|by apply Hl1]. unfold slow_ok. cbn. by rewrite Ha1.
Qed.

Lemma deactivate_transport z c e :
  transport_inv e -> c ∈ clients e -> transport_inv (deactivate_client z c e).
Proof.
  intros H Hc. unfold deactivate_client, jack_transport_client_exit.
  set (e0 := if z then _ else e).
  assert (H0 : transport_inv e0 /\ clients e0 = clients e)
    by (unfold e0; destruct z; [split; [by peel|done]|done]).
  destruct H0 as [H0 Ecl]. clearbody e0. rewrite <- Ecl in Hc. clear H Ecl e.
  destruct H0 as (Hs & Hl & Ht).
  assert (Hst : is_Some (client_store e0 !! c)) by (by apply Hs).
  set (e1 := upd_client c _ e0).
  assert (H1 : sync_inv e1 /\ timebase_inv e1 /\ clients e1 = clients e0 /\
    (forall d, d <> c -> the_client e1 d = the_client e0 d) /\
    the_client e1 c = the_client e0 c <| active := false |>).
  { split_and!; [by apply sync_inv_frame|by apply timebase_inv_frame|done| |].
    - intros d Hd. by apply the_client_upd_ne.
    - by apply the_client_upd_same. }
  destruct H1 as (Hs1 & Ht1 & Ecl & Hne & Ec1). clearbody e1.
  assert (Hsl : forall d, d ∈ clients e1 -> d <> c -> slow_ok (the_client e1 d) = true)
    by (intros d Hd Hdc; rewrite Hne by done; apply Hl; by rewrite <- Ecl).
  assert (Himp : implb (active_slowsync (the_client e1 c)) (is_slowsync (the_client e1 c)) = true).
  { rewrite Ec1. specialize (Hl c Hc). revert Hl. unfold slow_ok. cbn.
    by destruct (active_slowsync _), (is_slowsync _). }
  rewrite <- Ecl in Hc. clear Hs Hl Ht Hst Hne Ec1.
  case_decide as Em; [|by apply exit_sync_part].
  set (e2 := if dead _ then _ else e1).
  assert (H2 : sync_inv e2 /\ timebase_inv e2 /\ clients e2 = clients e1 /\
    forall d, slow_ok (the_client e2 d) = slow_ok (the_client e1 d) /\
      active_slowsync (the_client e2 d) = active_slowsync (the_client e1 d) /\
      is_slowsync (the_client e2 d) = is_slowsync (the_client e1 d)).
  { unfold e2. destruct (dead _); [|done].
    split_and!; [by apply sync_inv_timebase, sync_inv_frame| |done|].
    - constructor; cbn; [|done]. intros d Hd.
      change (the_client (?x <| timebase_client := None |>) d) with (the_client x d).
      rewrite the_client_upd by (by apply Hs1). case_decide as E; [done|].
      rewrite (ti_flag e1 Ht1) by done. apply bool_decide_eq_false. congruence.
    - intros d. change (the_client (?x <| timebase_client := None |>) d) with (the_client x d).
      by rewrite !the_client_upd_field by done. }
  destruct H2 as (Hs2 & Ht2 & Ecl2 & Hf). clearbody e2.
  apply exit_sync_part.
  - by apply sync_inv_control.
  - by apply timebase_inv_control.
  - cbn. by rewrite Ecl2.
  - intros d Hd Hdc. change (the_client (upd_control ?g ?x) d) with (the_client x d).
    rewrite (proj1 (Hf d)). apply Hsl; [|done]. cbn in Hd. by rewrite <- Ecl2.
  - change (the_client (upd_control ?g ?x) c) with (the_client x c).
    by rewrite (proj1 (proj2 (Hf c))), (proj2 (proj2 (Hf c))).
Qed.

Lemma reset_sync_transport i e :
  transport_inv e -> transport_inv (jack_transport_client_reset_sync i e).2.
Proof.
  intros (Hs & Hl & Ht). unfold jack_transport_client_reset_sync.
  destruct (jack_client_internal_by_id e i) as [c|] eqn:Ec; [|done].
  apply by_id_member in Ec as [Hc _].
  destruct (is_slowsync (the_client e c)) eqn:Ei; [|done]. cbn [snd].
  set (e1 := if active_slowsync _ then _ else e).
  assert (H1 : transport_inv e1 /\ clients e1 = clients e /\
               active_slowsync (the_client e1 c) = false).
  { unfold e1. destruct (active_slowsync (the_client e c)) eqn:Ea; [|done].
    split; [by apply poll_deactivate_transport|]. unfold jack_sync_poll_deactivate.
    set (e2 := if sync_poll _ then _ else e).
    assert (H2 : clients e2 = clients e /\ is_Some (client_store e2 !! c))
      by (unfold e2; destruct (sync_poll _); split; try done;
          try apply lookup_alter_is_Some; by apply Hs).
    split; [apply H2|]. change (the_client (upd_control ?g ?x) c) with (the_client x c).
    by rewrite the_client_upd_same by apply H2. }
  destruct H1 as ((Hs1 & Hl1 & Ht1) & Ecl & Ha). clearbody e1.
  split_and!; [by apply sync_inv_frame| |by apply timebase_inv_frame].
  intros d Hd. rewrite the_client_upd by (apply Hs1; by rewrite Ecl).
  case_decide; [subst d|by apply Hl1]. unfold slow_ok. cbn. by rewrite Ha.
Qed.

Lemma set_sync_transport i e :
  transport_inv e -> transport_inv (jack_transport_client_set_sync i e).2.
Proof.
  intros H. unfold jack_transport_client_set_sync.
  destruct (jack_client_internal_by_id e i) as [c|] eqn:Ec; [|done].
  apply by_id_member in Ec as [Hc _]. cbn [snd].
  assert (Hst : is_Some (client_store e !! c)) by (by apply (proj1 H)).
  set (e1 := if negb _ then _ else e).
  assert (H1 : transport_inv e1 /\ clients e1 = clients e).
  { unfold e1. destruct (is_slowsync (the_client e c)) eqn:Ei; cbn [negb]; [done|].
    set (e0 := upd_client c _ e).
    assert (H0 : transport_inv e0) by (subst e0; peel).
    assert (E0 : the_client e0 c = the_client e c <| is_slowsync := true |>)
      by (by apply the_client_upd_same).
    assert (Hna : active_slowsync (the_client e c) = false).
    { pose proof (proj1 (proj2 H) c Hc) as Hok. revert Hok. unfold slow_ok. rewrite Ei.
      by destruct (active_slowsync _). }
    destruct (active (the_client e0 c)) eqn:Ea; [|done]. split; [|done].
    destruct H0 as (Hs & Hl & Ht). split_and!; [|intros d Hd|by peel].
    - apply sync_inv_upd; [done|done|..]; rewrite E0;
        pose proof (si_client e (proj1 H) c Hc) as Hok; revert Hok Hna; flag_cases.
    - change (the_client (upd_control ?g ?x) d) with (the_client x d).
      rewrite the_client_upd by (by apply Hs). case_decide; [subst d|by apply Hl].
      rewrite E0 in *. revert Ea. unfold slow_ok. cbn. by intros ->. }
  destruct H1 as [H1 Ecl]. clearbody e1.
  destruct (active_slowsync (the_client e1 c)) eqn:Ea; [|done].
  apply poll_new_transport; [done|by rewrite Ecl|done].
Qed.

Lemma call_sync_transport ready c e :
  transport_inv e -> c ∈ clients e -> transport_inv (jack_call_sync_client ready c e).
Proof.
  intros H Hc. unfold jack_call_sync_client.
  destruct ((_ || _ || _) && _) eqn:Eb; [|done]. apply andb_true_iff in Eb as [_ Ha].
  set (e1 := if ready then _ else e).
  assert (H1 : transport_inv e1).
  { unfold e1. destruct ready; [|done]. destruct (sync_poll (the_client e c)) eqn:Ep; [|done].
    destruct H as (Hs & Hl & Ht). split_and!; [|by peel..].
    apply sync_inv_upd; [done|done|..]; revert Ha Ep; flag_cases. }
  clearbody e1. by peel.
Qed.

Lemma call_timebase_transport cb c e :
  transport_inv e -> transport_inv (jack_call_timebase_master cb c e).
Proof.
  intros H. unfold jack_call_timebase_master.
  destruct (is_timebase (the_client e c)); [|by peel].
  destruct (timebase_new (the_client e c)).
  - destruct (bool_decide _ || _); by peel.
  - destruct (bool_decide _ || _); by peel.
Qed.

(** ** The end of a cycle *)

(** The loops leave the flags of [slow_inv] and [timebase_inv] alone. *)
Lemma update_where_frame (test : client -> bool) (f : client -> client) e :
  transport_inv e ->
  (forall x, slow_ok (f x) = slow_ok x) -> (forall x, is_timebase (f x) = is_timebase x) ->
  let r := foldl (fun '(n, e) c => if test (the_client e c)
                                   then (n + 1, upd_client c f e) else (n, e)) (0, e) (clients e) in
  slow_inv r.2 /\ timebase_inv r.2.
Proof.
  intros (Hs & Hl & Ht) F1 F2. cbn zeta.
  pose proof (update_where_spec test f (clients e) 0 e (si_nodup e Hs) (si_store e Hs)) as Hu.
  cbn zeta in Hu. destruct (foldl _ _ _) as [n e']. cbn in Hu |- *.
  destruct Hu as (_ & Ec & [_ Et] & _ & Ed).
  assert (Hd : forall c, slow_ok (the_client e' c) = slow_ok (the_client e c) /\
                         is_timebase (the_client e' c) = is_timebase (the_client e c)).
  { intros c. rewrite Ed. case_decide; [|done]. by destruct (test _). }
  split; [|constructor].
  - intros c Hc. rewrite Ec in Hc. rewrite (proj1 (Hd c)). by apply Hl.
  - intros c Hc. rewrite Ec in Hc. rewrite (proj2 (Hd c)), Et. by apply Ht.
  - intros m. rewrite Et, Ec. apply Ht.
Qed.

Lemma poll_start_transport e :
  transport_inv e -> transport_inv (jack_sync_poll_start e).2.
Proof.
  intros H. destruct (poll_start_inv e (proj1 H)) as (_ & Hs & _). split; [done|].
  unfold jack_sync_poll_start. set (r := foldl _ _ _).
  assert (Hf : slow_inv r.2 /\ timebase_inv r.2) by (by apply update_where_frame).
  clearbody r. destruct r as [n e'], Hf. split; cbn [snd] in *; peel.
Qed.

Lemma poll_stop_transport e :
  transport_inv e -> transport_inv (jack_sync_poll_stop e).2.
Proof.
  intros H. destruct (poll_stop_inv e (proj1 H)) as (_ & Hs & _). split; [done|].
  unfold jack_sync_poll_stop. set (r := foldl _ _ _).
  assert (Hf : slow_inv r.2 /\ timebase_inv r.2) by (by apply (update_where_frame polled)).
  clearbody r. destruct r as [n e'], Hf. split; cbn [snd] in *; peel.
Qed.

Lemma start_or_roll_transport e : transport_inv e -> transport_inv (start_or_roll e).
Proof.
  intros H. unfold start_or_roll, set_transport_state. destruct (negb _); [|by peel].
  apply poll_start_transport. by peel.
Qed.

Lemma stop_transport_transport e : transport_inv e -> transport_inv (stop_transport e).
Proof.
  intros H. unfold stop_transport, set_transport_state. cbn zeta.
  destruct (negb _); [apply poll_stop_transport|]; by peel.
Qed.

Lemma check_sync_transport e : transport_inv e -> transport_inv (check_sync_results e).
Proof.
  intros H. unfold check_sync_results, jack_sync_timeout. case_decide; [|done].
  destruct (sync_remain _ =? 0); [by peel|].
  cbn zeta. pose proof (transport_inv_crashed (orb (frame_rate (current_time (control e)) =? 0)) e H) as H1.
  destruct (_ >? _); by peel.
Qed.

Lemma switch_transport cmd e : transport_inv e -> transport_inv (transport_switch cmd e).
Proof.
  intros H. unfold transport_switch.
  destruct (transport_state (control e)); repeat case_decide; try done;
    try (by apply start_or_roll_transport); try (by apply stop_transport_transport);
    destruct (new_pos (control e)); try done; try (by apply start_or_roll_transport).
  destruct (negb _); [|done]. apply poll_start_transport. unfold set_transport_state. by peel.
Qed.

Lemma next_position_transport e e' :
  transport_inv e -> next_position e = Some e' -> transport_inv e'.
Proof.
  intros H. unfold next_position. set (e1 := if decide _ then _ else e).
  assert (H1 : transport_inv e1) by (unfold e1; case_decide; [by peel|done]).
  clearbody e1. cbn zeta. unfold jack_transport_copy_position.
  destruct (negb _); [destruct (_ =? _)|]; intros E; try discriminate E;
    injection E as <-; by peel.
Qed.

Lemma cycle_end_transport e e' :
  transport_inv e -> jack_transport_cycle_end e = Some e' -> transport_inv e'.
Proof.
  intros H. unfold jack_transport_cycle_end, latest_command.
  set (e1 := check_sync_results _).
  assert (H1 : transport_inv e1) by (apply check_sync_transport; by peel).
  clearbody e1. case_decide; apply next_position_transport, switch_transport; by peel.
Qed.

(** ** Reachable states

    One step of the system as the transport sees it: a request of a client
    served by the server thread, a client's own part of a process cycle, or a
    step of the engine. *)

Definition add_client (c : client_ptr) (x : client) (e : engine) : engine :=
  e <| client_store ::= <[c := jack_transport_client_new x]> |> <| clients ::= cons c |>.

Definition drop_client (c : client_ptr) (e : engine) : engine :=
  e <| clients ::= filter (fun d => d <> c) |> <| client_store ::= delete c |>.

Inductive tstep : engine -> engine -> Prop :=
| ts_client_new c x e : c ∉ clients e -> tstep e (add_client c x e)
| ts_client_gone c e :
    timebase_client e <> Some c -> active_slowsync (the_client e c) = false ->
    tstep e (drop_client c e)
| ts_activate c e :
    c ∈ clients e -> active (the_client e c) = false -> tstep e (activate_client c e)
| ts_deactivate z c e : c ∈ clients e -> tstep e (deactivate_client z c e)
| ts_timebase_set i cond e : tstep e (jack_timebase_set i cond e).2
| ts_timebase_reset i e : tstep e (jack_timebase_reset i e).2
| ts_set_sync i e : tstep e (jack_transport_client_set_sync i e).2
| ts_reset_sync i e : tstep e (jack_transport_client_reset_sync i e).2
| ts_call_sync ready c e : c ∈ clients e -> tstep e (jack_call_sync_client ready c e)
| ts_call_timebase cb c e : tstep e (jack_call_timebase_master cb c e)
| ts_new_pos pos e e' : jack_transport_request_new_pos pos e = Some e' -> tstep e e'
| ts_start e : tstep e (jack_transport_start e)
| ts_stop e : tstep e (jack_transport_stop e)
| ts_sync_timeout us e : tstep e (jack_transport_set_sync_timeout us e).2
| ts_sample_rate n e : tstep e (jack_set_sample_rate n e).2
| ts_cycle_start t e : tstep e (jack_transport_cycle_start t e)
| ts_cycle_end e e' : jack_transport_cycle_end e = Some e' -> tstep e e'.

Lemma the_client_add c x e d :
  the_client (add_client c x e) d =
  if decide (c = d) then jack_transport_client_new x else the_client e d.
Proof.
  unfold the_client, add_client. cbn. case_decide; subst;
    [by rewrite lookup_insert_eq|by rewrite lookup_insert_ne].
Qed.

Lemma add_client_transport c x e :
  c ∉ clients e -> transport_inv e -> transport_inv (add_client c x e).
Proof.
  intros Hc (Hs & Hl & Ht).
  assert (Hd : forall d, d ∈ clients e -> the_client (add_client c x e) d = the_client e d)
    by (intros d Hd; rewrite the_client_add; case_decide; [congruence|done]).
  assert (He : the_client (add_client c x e) c = jack_transport_client_new x)
    by (rewrite the_client_add; by rewrite decide_True).
  assert (Hn : forall p, p (jack_transport_client_new x) = false ->
            count_clients p (add_client c x e) = count_clients p e).
  { intros p Hp. unfold count_clients. cbn [clients add_client]. cbn. rewrite countb_cons.
    rewrite He, Hp. cbn. apply countb_ext. intros d Hd'. by rewrite Hd. }
  split_and!.
  - constructor; cbn [clients add_client control].
    + cbn. constructor; [done|apply Hs].
    + intros d Hd'. cbn. destruct (decide (c = d)) as [->|]; [by rewrite lookup_insert_eq|].
      rewrite lookup_insert_ne by done. apply Hs. cbn in Hd'. set_solver.
    + intros d Hd'. cbn in Hd'. apply elem_of_cons in Hd' as [->|Hd']; [by rewrite He|].
      rewrite Hd by done. by apply Hs.
    + rewrite Hn by done. apply Hs.
    + rewrite Hn by done. apply Hs.
  - intros d Hd'. cbn in Hd'. apply elem_of_cons in Hd' as [->|Hd']; [by rewrite He|].
    rewrite Hd by done. by apply Hl.
  - constructor; cbn.
    + intros d Hd'. apply elem_of_cons in Hd' as [->|Hd'].
      * rewrite He. symmetry. apply bool_decide_eq_false. intros E. by apply Hc, Ht.
      * rewrite Hd by done. by apply Ht.
    + intros m E. apply list_elem_of_further. by apply Ht.
Qed.

Lemma drop_client_transport c e :
  timebase_client e <> Some c -> active_slowsync (the_client e c) = false ->
  transport_inv e -> transport_inv (drop_client c e).
Proof.
  intros Hm Ha (Hs & Hl & Ht).
  assert (Hin : forall d, d ∈ clients (drop_client c e) <-> d <> c /\ d ∈ clients e)
    by (intros d; cbn; by rewrite list_elem_of_filter).
  assert (Hd : forall d, d <> c -> the_client (drop_client c e) d = the_client e d)
    by (intros d Hd; unfold the_client, drop_client; cbn; by rewrite lookup_delete_ne).
  assert (Hn : forall p, p (the_client e c) = false ->
            count_clients p (drop_client c e) = count_clients p e).
  { intros p Hp. unfold count_clients. cbn [clients drop_client]. cbn.
    rewrite (countb_ext _ (fun d => p (the_client e d))) by
      (intros d Hin'; rewrite list_elem_of_filter in Hin'; rewrite Hd; [done|apply Hin']).
    clear Hin; induction (clients e) as [|d l IH]; [done|]. rewrite filter_cons, countb_cons.
    case_decide as E; [by rewrite countb_cons, IH|].
    rewrite IH. destruct (decide (d = c)) as [->|]; [|done]. rewrite Hp. cbn. lia. }
  split_and!.
  - constructor.
    + cbn. apply NoDup_filter, Hs.
    + intros d [Hne Hd']%Hin. cbn. rewrite lookup_delete_ne by done. by apply Hs.
    + intros d [Hne Hd']%Hin. rewrite Hd by done. by apply Hs.
    + rewrite Hn by done. apply Hs.
    + rewrite Hn by (unfold polled; by rewrite Ha). apply Hs.
  - intros d [Hne Hd']%Hin. rewrite Hd by done. by apply Hl.
  - constructor.
    + intros d [Hne Hd']%Hin. rewrite Hd by done. by apply Ht.
    + intros m E. apply Hin. split; [by intros ->|by apply Ht].
Qed.

Lemma tstep_transport e e' : tstep e e' -> transport_inv e -> transport_inv e'.
Proof.
  intros St H. destruct St.
  - by apply add_client_transport.
  - by apply drop_client_transport.
  - by apply activate_transport.
  - by apply deactivate_transport.
  - by apply timebase_set_transport.
  - by apply timebase_reset_transport.
  - by apply set_sync_transport.
  - by apply reset_sync_transport.
  - by apply call_sync_transport.
  - by apply call_timebase_transport.
  - unfold jack_transport_request_new_pos, jack_transport_copy_position in *.
    destruct (jack_generate_unique_id (control e)) as [uid t] eqn:Eg. injection Eg as <- <-.
    cbn in *. rewrite Z.eqb_refl in *. simplify_eq.
    by apply (transport_inv_control (fun _ => _)).
  - unfold jack_transport_start. by peel.
  - unfold jack_transport_stop. by peel.
  - cbn. by peel.
  - cbn. by peel.
  - unfold jack_transport_cycle_start. by peel.
  - by eapply cycle_end_transport.
Qed.

Lemma init_transport e : clients e = [] -> transport_inv (jack_transport_init e).
Proof.
  intros E. split_and!; [constructor| |constructor]; cbn; rewrite ?E;
    try (by constructor); try (intros c Hc; cbn in Hc; rewrite ?E in Hc; set_solver);
    by unfold count_clients; cbn; rewrite E.
Qed.

Lemma reachable_transport e e' : rtc tstep e e' -> transport_inv e -> transport_inv e'.
Proof. induction 1; intros; [done|]. eauto using tstep_transport. Qed.

(** C4: In every state reachable from a fresh engine by any sequence of client
    arrivals, departures, activations, requests, poll answers, callbacks and
    cycle ends: the two [assert]s of the polling loops hold ([sync_remain] is
    the number of clients still polled, [sync_clients] the number of active
    slow-sync clients), and at most one client is the timebase master, the
    engine's [timebase_client]. *)
Theorem transport_asserts_hold e0 e :
  clients e0 = [] -> rtc tstep (jack_transport_init e0) e ->
  (jack_sync_poll_stop e).1 = sync_remain (control e) /\
  (jack_sync_poll_start e).1 = sync_clients (control e) /\
  forall c, c ∈ clients e ->
    is_timebase (the_client e c) = true <-> timebase_client e = Some c.
Proof.
  intros E H. apply reachable_transport in H as (Hs & Hl & Ht); [|by apply init_transport].
  split_and!; [by apply poll_stop_inv|by apply poll_start_inv|].
  intros c Hc. rewrite (ti_flag e Ht) by done. apply bool_decide_eq_true.
Qed.

(** One client becomes slow-sync, activates and takes the timebase. *)
Definition demo_1 : engine :=
  add_client 0 (null_client <| c_id := 7 |>) (jack_transport_init empty_engine).
Definition demo_2 : engine := (jack_transport_client_set_sync 7 demo_1).2.
Definition demo_3 : engine := activate_client 0 demo_2.
Definition demo_4 : engine := (jack_timebase_set 7 false demo_3).2.

Lemma transport_asserts_hold_witness :
  (jack_sync_poll_stop demo_4).1 = 1 /\ (jack_sync_poll_start demo_4).1 = 1 /\
  timebase_client demo_4 = Some 0%nat.
Proof.
  destruct (transport_asserts_hold empty_engine demo_4) as (H1 & H2 & H3).
  - reflexivity.
  - eapply rtc_l; [apply (ts_client_new 0 (null_client <| c_id := 7 |>)); cbn; set_solver|].
    eapply rtc_l; [apply (ts_set_sync 7 demo_1)|].
    eapply rtc_l; [apply (ts_activate 0 demo_2); vm_compute; [left|reflexivity]|].
    eapply rtc_l; [apply (ts_timebase_set 7 false demo_3)|]. apply rtc_refl.
  - rewrite H1, H2. split; [vm_compute; reflexivity|]. split; [vm_compute; reflexivity|].
    apply (H3 0%nat); vm_compute; [left|reflexivity].
Defined.

(** The outcomes of a request to become timebase master: an unknown client
    is refused, a conditional request is refused while another client is
    master, otherwise the client is the master and nobody else is. *)
Theorem timebase_set_outcome i cond e :
  transport_inv e ->
  let r := jack_timebase_set i cond e in
  match jack_client_internal_by_id e i with
  | None => r = (EINVAL, e)
  | Some c =>
      if cond && bool_decide (timebase_client e <> None) && bool_decide (timebase_client e <> Some c)
      then r = (EBUSY, e)
      else r.1 = 0 /\ timebase_client r.2 = Some c /\
           forall d, d ∈ clients r.2 -> is_timebase (the_client r.2 d) = true <-> d = c
  end.
Proof.
  intros H. cbn zeta. pose proof (timebase_set_transport i cond e H) as (_ & _ & Ht).
  set (r := jack_timebase_set i cond e) in *.
  assert (Hdone : forall c, timebase_client r.2 = Some c ->
    forall d, d ∈ clients r.2 -> is_timebase (the_client r.2 d) = true <-> d = c).
  { intros c E d Hd. rewrite (ti_flag r.2 Ht d Hd), E, bool_decide_eq_true.
    split; [intros E'; by injection E'|by intros ->]. }
  subst r. revert Ht Hdone. unfold jack_timebase_set.
  destruct (jack_client_internal_by_id e i) as [c|]; [|done].
  destruct cond; cbn [andb].
  2:{ intros _ Hdone. split; [done|].
      assert (E : forall x : engine, timebase_client x = Some c ->
        timebase_client (if active (the_client x c)
          then upd_client c (fun x => x <| timebase_new := true |>) x else x) = Some c)
        by (intros x Hx; destruct (active (the_client x c)); exact Hx).
      split; [by apply E|]. apply Hdone. by apply E. }
  destruct (timebase_client e) as [m|] eqn:Em.
  - rewrite bool_decide_eq_true_2 by done. cbn [andb].
    rewrite bool_decide_eq_true_2 by done. cbn [andb].
    case_decide as Ec; intros _ Hdone.
    + rewrite bool_decide_eq_false_2 by auto. split; [done|]. split; [cbn; congruence|].
      apply Hdone. cbn. congruence.
    + by rewrite bool_decide_eq_true_2 by done.
  - rewrite bool_decide_eq_false_2 by (intros [? ?]; done). cbn [andb].
    rewrite bool_decide_eq_false_2 by (intros E; by apply E). cbn [andb].
    intros _ Hdone. split; [done|].
    assert (E : forall x : engine, timebase_client x = Some c ->
        timebase_client (if active (the_client x c)
          then upd_client c (fun x => x <| timebase_new := true |>) x else x) = Some c)
        by (intros x Hx; destruct (active (the_client x c)); exact Hx).
    split; [by apply E|]. apply Hdone. by apply E.
Qed.

Lemma timebase_set_outcome_witness :
  (jack_timebase_set 7 true (jack_transport_init empty_engine)) =
    (EINVAL, jack_transport_init empty_engine).
Proof.
  apply (timebase_set_outcome 7 true (jack_transport_init empty_engine)).
  by apply init_transport.
Defined.

End Transport.
