(* ===== verification/TransportCycle.v ===== *)
(** * What a transport cycle does

    The transport as a state machine with a position: which state follows a
    cycle, when a stop is obeyed, that a starting transport rolls at last,
    when a requested position becomes the current one, and how the frame
    counter advances. *)

From S2P Require Import Prelude Engine Transport.

Local Open Scope Z_scope.

Module TransportCycle.
Import Transport.

(** ** Specification *)

(** The automaton: the state after a cycle from the state before the switch,
    the command, whether the position is new and whether a slow-sync client
    is active. *)
Definition next_state (s : jack_transport_state_t) (cmd : transport_command_t)
    (np slow : bool) : jack_transport_state_t :=
  match s, cmd with
  | JackTransportStopped, TransportCommandStart
  | JackTransportStarting, (TransportCommandNone | TransportCommandStart) =>
      if bool_decide (s = JackTransportStarting) && negb np then s
      else if slow then JackTransportStarting else JackTransportRolling
  | (JackTransportStarting | JackTransportRolling), TransportCommandStop => JackTransportStopped
  | JackTransportRolling, _ => if np && slow then JackTransportStarting else s
  | _, _ => s
  end.

(** The polls of the cycle are complete, or their time has run out. *)
Definition sync_done (t : transport_control) : bool :=
  (sync_remain t =? 0) || (sync_time_left t <=? buf_usecs t).

Definition fresh_command (t : transport_control) : transport_command_t :=
  if decide (transport_cmd t = previous_cmd t) then TransportCommandNone else transport_cmd t.

Definition settled_state (t : transport_control) : jack_transport_state_t :=
  if bool_decide (transport_state t = JackTransportStarting) && sync_done t
  then JackTransportRolling else transport_state t.

(** The part of the control block that only [promote_pending] and
    [next_position] write during a cycle. *)
Definition positions (t : transport_control) :=
  (transport_cmd t, current_time t, pending_time t, request_time t, prev_request t,
   (new_pos t, pending_pos t, pending_frame t), (sync_clients t, sync_timeout t, buffer_size t)).

(** ** Frames *)

Lemma foldl_keeps_control {A} (f : Z * engine -> A -> Z * engine) l a :
  (forall a x, control (f a x).2 = control a.2) -> control (foldl f a l).2 = control a.2.
Proof. intros H. revert a. induction l as [|x l IH]; intros a; [done|]. cbn. by rewrite IH, H. Qed.

Lemma poll_start_positions e :
  positions (control (jack_sync_poll_start e).2) = positions (control e) /\
  transport_state (control (jack_sync_poll_start e).2) = transport_state (control e) /\
  previous_cmd (control (jack_sync_poll_start e).2) = previous_cmd (control e).
Proof.
  unfold jack_sync_poll_start.
  match goal with |- context [foldl ?f ?a ?l] =>
    pose proof (foldl_keeps_control f l a) as Hk; set (r := foldl f a l) in * end.
  assert (E : control r.2 = control e)
    by (apply Hk; intros [n e1] c; cbn; by destruct (active_slowsync _)).
  clearbody r. destruct r as [n e1]. cbn in *. unfold positions. cbn. by rewrite E.
Qed.

Lemma poll_stop_positions e :
  positions (control (jack_sync_poll_stop e).2) = positions (control e) /\
  transport_state (control (jack_sync_poll_stop e).2) = transport_state (control e) /\
  previous_cmd (control (jack_sync_poll_stop e).2) = previous_cmd (control e) /\
  sync_remain (control (jack_sync_poll_stop e).2) = 0.
Proof.
  unfold jack_sync_poll_stop.
  match goal with |- context [foldl ?f ?a ?l] =>
    pose proof (foldl_keeps_control f l a) as Hk; set (r := foldl f a l) in * end.
  assert (E : control r.2 = control e)
    by (apply Hk; intros [n e1] c; cbn; by destruct (active_slowsync _ && _)).
  clearbody r. destruct r as [n e1]. cbn in *. unfold positions. cbn. by rewrite E.
Qed.

Lemma start_or_roll_spec e :
  positions (control (start_or_roll e)) = positions (control e) /\
  previous_cmd (control (start_or_roll e)) = previous_cmd (control e) /\
  transport_state (control (start_or_roll e)) =
    if negb (sync_clients (control e) =? 0) then JackTransportStarting else JackTransportRolling.
Proof.
  unfold start_or_roll. destruct (negb _); [|done].
  destruct (poll_start_positions (set_transport_state JackTransportStarting e)) as (E1 & E2 & E3).
  by rewrite E1, E2, E3.
Qed.

Lemma stop_transport_spec e :
  positions (control (stop_transport e)) = positions (control e) /\
  previous_cmd (control (stop_transport e)) = previous_cmd (control e) /\
  transport_state (control (stop_transport e)) = JackTransportStopped /\
  sync_remain (control (stop_transport e)) = 0.
Proof.
  unfold stop_transport. cbn zeta. set (e1 := set_transport_state _ e).
  destruct (sync_remain (control e1) =? 0) eqn:E0; cbn [negb].
  - apply Z.eqb_eq in E0. by split_and!.
  - destruct (poll_stop_positions e1) as (E1 & E2 & E3 & E4). by rewrite E1, E2, E3, E4.
Qed.

Lemma switch_spec cmd e :
  let e' := transport_switch cmd e in
  positions (control e') = positions (control e) /\
  previous_cmd (control e') = previous_cmd (control e) /\
  transport_state (control e') =
    next_state (transport_state (control e)) cmd (new_pos (control e))
      (negb (sync_clients (control e) =? 0)) /\
  (cmd = TransportCommandStop ->
   transport_state (control e) ∈ [JackTransportStarting; JackTransportRolling] ->
   sync_remain (control e') = 0).
Proof.
  cbn zeta. unfold transport_switch.
  pose proof (start_or_roll_spec e) as (A1 & A2 & A3).
  pose proof (stop_transport_spec e) as (B1 & B2 & B3 & B4).
  pose proof (poll_start_positions (set_transport_state JackTransportStarting e)) as (E1 & E2 & E3).
  set (ea := start_or_roll e) in *. set (eb := stop_transport e) in *.
  set (ep := (jack_sync_poll_start _).2) in *. clearbody ea eb ep. cbn in E1, E2, E3.
  destruct (transport_state (control e)) eqn:Es; destruct cmd; cbn;
    try (split_and!; by (done || intros; set_solver));
    destruct (new_pos (control e)); cbn; try (by split_and!);
    destruct (sync_clients (control e) =? 0); cbn; by split_and!.
Qed.

Lemma check_sync_spec e :
  let e' := check_sync_results e in
  positions (control e') = positions (control e) /\
  previous_cmd (control e') = previous_cmd (control e) /\
  transport_state (control e') = settled_state (control e).
Proof.
  cbn zeta. unfold check_sync_results, settled_state, sync_done, jack_sync_timeout.
  case_decide as Es.
  2:{ by rewrite bool_decide_eq_false_2. }
  rewrite Es. cbn [andb bool_decide]. rewrite bool_decide_eq_true_2 by done. cbn [andb].
  destruct (sync_remain (control e) =? 0); [done|].
  rewrite Z.gtb_ltb, Z.leb_antisym. destruct (_ <? _); done.
Qed.

(** No position request is waiting. *)
Definition no_request (t : transport_control) : bool :=
  unique_1 (request_time t) =? prev_request t.

Lemma next_position_spec e e' :
  next_position e = Some e' ->
  let t := control e in let t' := control e' in
  transport_state t' = transport_state t /\ previous_cmd t' = previous_cmd t /\
  transport_cmd t' = transport_cmd t /\ current_time t' = current_time t /\
  new_pos t' = new_pos t /\ request_time t' = request_time t /\
  sync_remain t' = sync_remain t /\ sync_clients t' = sync_clients t /\
  buffer_size t' = buffer_size t /\
  pending_pos t' = negb (no_request t) /\ prev_request t' = unique_1 (request_time t) /\
  sync_time_left t' = sync_time_left t /\ sync_timeout t' = sync_timeout t /\
  pending_frame t' =
    (if no_request t then
       if bool_decide (transport_state t = JackTransportRolling)
       then u32 (frame (current_time t) + buffer_size t) else frame (pending_time t)
     else frame (request_time t)).
Proof.
  unfold next_position, no_request. cbn zeta. unfold jack_transport_copy_position.
  case_decide as Es; [rewrite bool_decide_eq_true_2 by done|rewrite bool_decide_eq_false_2 by done];
    cbn; destruct (unique_1 _ =? prev_request _) eqn:Eq; cbn; intros E;
    try (destruct (_ =? unique_2 _); [|discriminate E]); injection E as <-; cbn;
    split_and!; try done; symmetry; by apply Z.eqb_eq.
Qed.

Lemma next_position_total e :
  (no_request (control e) = true \/
   unique_1 (request_time (control e)) = unique_2 (request_time (control e))) ->
  exists e', next_position e = Some e'.
Proof.
  intros H. unfold next_position, no_request, jack_transport_copy_position in *.
  case_decide; cbn; destruct (unique_1 _ =? prev_request _) eqn:Eq; cbn; eauto;
    (destruct H as [H| ->]; [done|]); rewrite Z.eqb_refl; eauto.
Qed.

(** The cycle end in one lemma. *)
Lemma cycle_end_spec e e' :
  jack_transport_cycle_end e = Some e' ->
  let t := control e in let t' := control e' in
  transport_state t' = next_state (settled_state t) (fresh_command t) (pending_pos t)
                         (negb (sync_clients t =? 0)) /\
  (previous_cmd t' = transport_cmd t /\ transport_cmd t' = transport_cmd t) /\
  (current_time t' = pending_time t <| usecs := usecs (current_time t) |>
                       <| frame_rate := frame_rate (current_time t) |> <| frame := pending_frame t |>) /\
  (new_pos t' = pending_pos t /\ request_time t' = request_time t /\
   buffer_size t' = buffer_size t) /\
  (pending_pos t' = negb (no_request t) /\ prev_request t' = unique_1 (request_time t)) /\
  pending_frame t' =
    (if no_request t then
       if bool_decide (transport_state t' = JackTransportRolling)
       then u32 (pending_frame t + buffer_size t) else pending_frame t
     else frame (request_time t)) /\
  (fresh_command t = TransportCommandStop ->
   settled_state t ∈ [JackTransportStarting; JackTransportRolling] -> sync_remain t' = 0).
Proof.
  unfold jack_transport_cycle_end. cbn zeta.
  set (e1 := upd_control promote_pending e).
  pose proof (check_sync_spec e1) as (P1 & C1 & S1). set (e2 := check_sync_results e1) in *.
  clearbody e2.
  assert (Hc : exists e3, latest_command e2 = (fresh_command (control e), e3) /\
    positions (control e3) = positions (control e2) /\
    previous_cmd (control e3) = transport_cmd (control e) /\
    transport_state (control e3) = transport_state (control e2)).
  { unfold latest_command, fresh_command.
    assert (Ec : transport_cmd (control e2) = transport_cmd (control e))
      by (unfold positions in P1; cbn in P1; congruence).
    rewrite Ec, C1. cbn. case_decide; eexists; split; [done| |done|done]. by rewrite C1. }
  destruct Hc as (e3 & -> & P3 & C3 & S3).
  pose proof (switch_spec (fresh_command (control e)) e3) as (P4 & C4 & S4 & Z4).
  set (e4 := transport_switch _ e3) in *. clearbody e4.
  intros H. apply next_position_spec in H. cbn zeta in H.
  destruct H as (A1 & A2 & A3 & A4 & A5 & A6 & A7 & A8 & A9 & A10 & A11 & _ & _ & A12).
  rewrite P3, P1 in P4. unfold positions in P4. cbn in P4.
  rewrite P1 in P3. unfold positions in P3. cbn in P3.
  injection P4 as Q1 Q2 Q3 Q4 Q5 Q6 Q7 Q8 Q9 Q10 Q11.
  injection P3 as R1 R2 R3 R4 R5 R6 R7 R8 R9 R10 R11.
  unfold no_request in *. rewrite Q4, Q5 in A10. rewrite Q4 in A11. rewrite Q4, Q5, Q3, Q2, Q11 in A12.
  rewrite S3, S1, R6, R9 in S4. cbn in A12.
  split_and!; try congruence.
  - rewrite A1, S4. done.
  - rewrite A12, A1. done.
  - intros Hf Hs. rewrite A7. apply Z4; [done|]. by rewrite S3, S1.
Qed.

Lemma cycle_end_total e :
  (no_request (control e) = true \/
   unique_1 (request_time (control e)) = unique_2 (request_time (control e))) ->
  exists e', jack_transport_cycle_end e = Some e'.
Proof.
  intros H. unfold jack_transport_cycle_end.
  pose proof (check_sync_spec (upd_control promote_pending e)) as (P1 & _).
  set (e2 := check_sync_results _) in *. clearbody e2.
  destruct (latest_command e2) as [cmd e3] eqn:E3.
  assert (P3 : positions (control e3) = positions (control e2)).
  { unfold latest_command in E3. case_decide; by simplify_eq. }
  pose proof (switch_spec cmd e3) as (P4 & _). apply next_position_total.
  rewrite P3, P1 in P4. unfold positions in P4. cbn in P4.
  injection P4 as Q1 Q2 Q3 Q4 Q5 Q6 Q7 Q8 Q9 Q10 Q11.
  unfold no_request in *. by rewrite Q4, Q5.
Qed.

(** The timebase master writes the pending position and nothing else of the
    control block. *)
Lemma call_timebase_control cb m e :
  exists p, control (jack_call_timebase_master cb m e) = control e <| pending_time := p |>.
Proof.
  exists (pending_time (control (jack_call_timebase_master cb m e))).
  unfold jack_call_timebase_master.
  destruct (is_timebase _); [destruct (timebase_new _); cbn; destruct (bool_decide _ || _)|];
    cbn; by destruct (control e).
Qed.

(** ** Properties *)

(** The guards of the request buffer agree: no client is in the middle of
    writing a request. *)
Definition request_quiet (t : transport_control) : Prop :=
  unique_1 (request_time t) = unique_2 (request_time t).

(** The end of a cycle always completes when no request is being
    written, and the transport moves exactly as the automaton [next_state]
    says: a fresh start command (or a new position) enters Starting while
    slow-sync clients exist and Rolling otherwise, a fresh stop command stops,
    a Starting transport whose clients are all ready, or whose time has run
    out, counts as Rolling. *)
Theorem transport_state_machine e :
  request_quiet (control e) ->
  exists e', jack_transport_cycle_end e = Some e' /\
    transport_state (control e') =
      next_state (settled_state (control e)) (fresh_command (control e))
        (pending_pos (control e)) (negb (sync_clients (control e) =? 0)) /\
    previous_cmd (control e') = transport_cmd (control e) /\
    new_pos (control e') = pending_pos (control e).
Proof.
  intros H. destruct (cycle_end_total e (or_intror H)) as [e' He]. exists e'. split; [done|].
  apply cycle_end_spec in He. cbn zeta in He. intuition.
Qed.

Lemma transport_state_machine_witness :
  exists e', jack_transport_cycle_end (jack_transport_start empty_engine) = Some e' /\
    transport_state (control e') = JackTransportRolling.
Proof.
  destruct (transport_state_machine (jack_transport_start empty_engine)) as (e' & H & E & _).
  - reflexivity.
  - exists e'. split; [exact H|]. rewrite E. reflexivity.
Defined.

(** A stop command is obeyed at the next cycle end: from Starting or
    Rolling the transport is Stopped, and no client is polled any more. *)
Theorem transport_stop_obeyed e :
  transport_inv e -> request_quiet (control e) ->
  transport_cmd (control e) = TransportCommandStop ->
  previous_cmd (control e) <> TransportCommandStop ->
  transport_state (control e) ∈ [JackTransportStarting; JackTransportRolling] ->
  exists e', jack_transport_cycle_end e = Some e' /\
    transport_state (control e') = JackTransportStopped /\
    forall c, c ∈ clients e' -> sync_poll (the_client e' c) = false.
Proof.
  intros Hinv Hq Hc Hp Hs. destruct (cycle_end_total e (or_intror Hq)) as [e' He]. exists e'.
  pose proof (cycle_end_transport e e' Hinv He) as (Hsync & _). split; [done|].
  apply cycle_end_spec in He. cbn zeta in He. destruct He as (Es & _ & _ & _ & _ & _ & Hz).
  assert (Hf : fresh_command (control e) = TransportCommandStop)
    by (unfold fresh_command; rewrite decide_False by congruence; done).
  assert (Hst : settled_state (control e) ∈ [JackTransportStarting; JackTransportRolling])
    by (unfold settled_state; destruct (_ && _); [set_solver|done]).
  specialize (Hz Hf Hst). rewrite Hf in Es. split.
  - rewrite Es. destruct (settled_state (control e)); set_solver.
  - intros c Hin. rewrite (si_remain e' Hsync) in Hz.
    pose proof (proj1 (countb_zero _ _) Hz c Hin) as Hpl. cbn in Hpl. unfold polled in Hpl.
    pose proof (si_client e' Hsync c Hin) as Hok. revert Hpl Hok. unfold sync_client_ok.
    by destruct (sync_poll _), (active_slowsync _).
Qed.

(** A requested position is current two cycle ends later, whatever the
    timebase master's callback writes into the pending position in between;
    [new_pos] is set exactly then, and a Rolling transport with slow-sync
    clients goes back to Starting. *)
Theorem locate_takes_effect uninit fr cb m e e1 e2 e3 :
  jack_transport_locate uninit fr e = Some e1 ->
  seq_number (control e) <> prev_request (control e) ->
  jack_transport_cycle_end e1 = Some e2 ->
  jack_transport_cycle_end (jack_call_timebase_master cb m e2) = Some e3 ->
  frame (current_time (control e3)) = fr /\ new_pos (control e3) = true /\
  (no_request (control e2) = true -> pending_pos (control e3) = false) /\
  (transport_state (control e2) = JackTransportRolling ->
   fresh_command (control e2) <> TransportCommandStop ->
   sync_clients (control e2) <> 0 -> transport_state (control e3) = JackTransportStarting).
Proof.
  intros Hl Hn H1 H2.
  assert (E1 : e1 = e <| control ::= fun t => (t <| seq_number ::= fun n => s32 (n + 1) |>)
     <| request_time := {| unique_1 := seq_number t; usecs := usecs (current_time t);
          frame_rate := frame_rate (current_time t); frame := fr; valid := 0;
          bbt := bbt uninit; unique_2 := seq_number t |} |> |>).
  { unfold jack_transport_locate, jack_transport_request_new_pos, jack_transport_copy_position in Hl.
    cbn in Hl. rewrite Z.eqb_refl in Hl. by injection Hl as <-. }
  apply cycle_end_spec in H1. cbn zeta in H1. rewrite E1 in H1. unfold no_request in H1. cbn in H1.
  rewrite (proj2 (Z.eqb_neq _ _) Hn) in H1.
  destruct H1 as (S1 & _ & _ & (_ & _ & _) & (P1 & _) & F1 & _). cbn in P1.
  apply cycle_end_spec in H2. cbn zeta in H2.
  destruct (call_timebase_control cb m e2) as [p Hp]. rewrite Hp in H2. cbn in H2.
  destruct H2 as (S2 & _ & C2 & (N2 & _) & (P2 & _) & _).
  rewrite C2, N2. cbn. split_and!; [done|done| |].
  - rewrite P2. unfold no_request. cbn. intros ->. done.
  - intros Hr Hns Hsl. rewrite S2. unfold settled_state. cbn. rewrite Hr. cbn.
    rewrite P1. rewrite (proj2 (Z.eqb_neq _ _) Hsl).
    change (fresh_command (_ <| pending_time := p |>)) with (fresh_command (control e2)).
    by destruct (fresh_command (control e2)).
Qed.

(** A server that rolls at frame 1000, with one slow-sync client. *)
Definition rolling_engine (slow : Z) : engine :=
  let pos := mk_position 0 0 48000 1000 0 [] 0 in
  upd_control (fun t => t <| transport_state := JackTransportRolling |>
    <| transport_cmd := TransportCommandStart |> <| previous_cmd := TransportCommandStart |>
    <| current_time := pos |> <| pending_time := pos |> <| pending_frame := 2024 |>
    <| sync_clients := slow |>)
    (empty_engine <| clients := if slow =? 0 then [] else [0%nat] |>
       <| client_store := {[ 0%nat := null_client <| active := true |> <| is_slowsync := true |>
                                        <| active_slowsync := true |> ]} |>).

(** A callback that writes a position of its own. *)
Definition wild_callback (s : jack_transport_state_t) (n : Z) (p : jack_position_t) (b : bool) :=
  p <| frame := 77 |> <| valid := 16 |>.

Lemma rolling_engine_inv : transport_inv (rolling_engine 1).
Proof.
  split_and!; [constructor| |constructor]; try reflexivity.
  - constructor; [set_solver|constructor].
  - intros c Hc. apply list_elem_of_singleton in Hc as ->. eexists. reflexivity.
  - intros c Hc. by apply list_elem_of_singleton in Hc as ->.
  - intros c Hc. by apply list_elem_of_singleton in Hc as ->.
  - intros c Hc. by apply list_elem_of_singleton in Hc as ->.
  - done.
Qed.

Lemma transport_stop_obeyed_witness :
  exists e', jack_transport_cycle_end (jack_transport_stop (rolling_engine 1)) = Some e' /\
    transport_state (control e') = JackTransportStopped.
Proof.
  destruct (transport_stop_obeyed (jack_transport_stop (rolling_engine 1))) as (e' & H & E & _).
  - apply transport_inv_control; [reflexivity|reflexivity|exact rolling_engine_inv].
  - reflexivity.
  - reflexivity.
  - discriminate.
  - right. left.
  - exists e'. split; [exact H|exact E].
Defined.

(** Locate to frame 5000 while rolling, and the two cycle ends that follow. *)
Definition located : engine :=
  default empty_engine (jack_transport_locate (mk_position 0 0 0 0 0 [] 0) 5000 (rolling_engine 1)).
Definition located_1 : engine := default empty_engine (jack_transport_cycle_end located).
Definition located_2 : engine :=
  default empty_engine
    (jack_transport_cycle_end (jack_call_timebase_master wild_callback 0 located_1)).

Lemma locate_takes_effect_witness :
  frame (current_time (control located_2)) = 5000 /\ new_pos (control located_2) = true.
Proof.
  pose proof (locate_takes_effect (mk_position 0 0 0 0 0 [] 0) 5000 wild_callback 0
    (rolling_engine 1) located located_1 located_2) as H.
  split; apply H; first [vm_compute; reflexivity | vm_compute; discriminate].
Defined.

(** ** A starting transport rolls at last *)

(** One cycle: some slow-sync clients answer their poll, then the cycle ends. *)
Definition poll_answers (l : list (bool * client_ptr)) (e : engine) : engine :=
  foldl (fun e '(ready, c) => jack_call_sync_client ready c e) e l.

Fixpoint run_cycles (script : list (list (bool * client_ptr))) (e : engine) : option engine :=
  match script with
  | [] => Some e
  | l :: script =>
      match jack_transport_cycle_end (poll_answers l e) with
      | Some e => run_cycles script e
      | None => None
      end
  end.

(** Nobody interferes: no new command, no position request. *)
Record undisturbed (e : engine) : Prop := {
  ud_cmd : transport_cmd (control e) = previous_cmd (control e);
  ud_pos : pending_pos (control e) = false;
  ud_req : no_request (control e) = true
}.

Lemma poll_answers_control l e :
  exists r, control (poll_answers l e) = control e <| sync_remain := r |>.
Proof.
  revert e. induction l as [|[ready c] l IH]; intros e; cbn [poll_answers foldl].
  - exists (sync_remain (control e)). by destruct (control e).
  - destruct (IH (jack_call_sync_client ready c e)) as [r Hr]. exists r.
    unfold poll_answers in Hr. rewrite Hr. unfold jack_call_sync_client.
    destruct (_ && _); [|done]. destruct ready; [|done]. by destruct (sync_poll _).
Qed.

Lemma cycle_end_undisturbed e e' :
  undisturbed e -> jack_transport_cycle_end e = Some e' -> undisturbed e'.
Proof.
  intros [Hc Hp Hr] He. apply cycle_end_spec in He. cbn zeta in He.
  destruct He as (_ & (P & C) & _ & (_ & R & _) & (PP & PR) & _).
  constructor; [congruence|by rewrite PP, Hr|]. unfold no_request in *. rewrite R, PR.
  apply Z.eqb_refl.
Qed.

(** While the sync is not done the switch does nothing and the time left shrinks. *)
Lemma cycle_end_waits e e' :
  undisturbed e -> transport_state (control e) = JackTransportStarting ->
  sync_done (control e) = false -> jack_transport_cycle_end e = Some e' ->
  sync_time_left (control e') = sync_time_left (control e) - buf_usecs (control e) /\
  transport_state (control e') = JackTransportStarting /\
  buf_usecs (control e') = buf_usecs (control e).
Proof.
  intros [Hc Hp Hr] Hs Hd He. unfold jack_transport_cycle_end in He.
  set (e1 := upd_control promote_pending e) in He.
  assert (E2 : exists b, check_sync_results e1 =
    upd_control (fun t => t <| sync_time_left ::= fun l => l - buf_usecs (control e) |>) (e1 <| crashed := b |>)).
  { unfold check_sync_results, jack_sync_timeout. rewrite decide_True by done.
    apply orb_false_iff in Hd as [Hd1 Hd2]. apply Z.leb_gt in Hd2.
    change (sync_remain (control e1)) with (sync_remain (control e)). rewrite Hd1.
    change (buf_usecs (control e1)) with (buf_usecs (control e)).
    match goal with |- context [sync_time_left (control ?x) >? _] => change (sync_time_left (control x)) with (sync_time_left (control e)) end.
    rewrite Z.gtb_ltb. apply Z.ltb_lt in Hd2. rewrite Hd2. by eexists. }
  destruct E2 as [b E2]. rewrite E2 in He. unfold latest_command in He. cbn zeta in He.
  rewrite decide_True in He by done.
  set (e2 := upd_control _ (e1 <| crashed := b |>)) in He.
  assert (E3 : transport_switch TransportCommandNone e2 = e2).
  { unfold transport_switch. replace (transport_state (control e2)) with JackTransportStarting.
    cbn [decide]. change (new_pos (control e2)) with (pending_pos (control e)). by rewrite Hp. }
  rewrite E3 in He. apply next_position_spec in He. cbn zeta in He.
  destruct He as (A1 & _ & _ & A4 & _ & _ & _ & _ & A9 & _ & _ & A12 & _).
  split_and!; [rewrite A12; done|rewrite A1; done|].
  unfold buf_usecs. by rewrite A4, A9.
Qed.

Lemma starting_step e :
  undisturbed e -> transport_state (control e) = JackTransportStarting ->
  exists e', jack_transport_cycle_end e = Some e' /\
    (transport_state (control e') = JackTransportRolling \/
     transport_state (control e') = JackTransportStarting /\ undisturbed e' /\
     buf_usecs (control e) < sync_time_left (control e) /\
     sync_time_left (control e') = sync_time_left (control e) - buf_usecs (control e) /\
     buf_usecs (control e') = buf_usecs (control e)).
Proof.
  intros Hu Hs. destruct (cycle_end_total e (or_introl (ud_req e Hu))) as [e' He].
  exists e'. split; [done|]. destruct (sync_done (control e)) eqn:Hd.
  - left. apply cycle_end_spec in He. cbn zeta in He. destruct He as [-> _].
    unfold settled_state, fresh_command. rewrite Hs, Hd, (ud_pos e Hu), decide_True by apply Hu.
    done.
  - right. pose proof (cycle_end_waits e e' Hu Hs Hd He) as (A & B & C).
    apply orb_false_iff in Hd as [_ Hd]. apply Z.leb_gt in Hd.
    split_and!; try done. by eapply cycle_end_undisturbed.
Qed.

Lemma poll_answers_undisturbed l e : undisturbed e -> undisturbed (poll_answers l e).
Proof.
  intros [Hc Hp Hr]. destruct (poll_answers_control l e) as [r Hr'].
  constructor; unfold no_request; by rewrite Hr'.
Qed.

(** C36: A starting transport starts: whatever the slow-sync clients answer or
    fail to answer, when no command and no position request arrive the
    transport is Rolling after at most [sync_time_left / buf_usecs] cycles,
    rounded up (2 seconds of audio by default). *)
Theorem starting_transport_rolls script e :
  undisturbed e -> transport_state (control e) = JackTransportStarting ->
  script <> [] -> sync_time_left (control e) <= zlen script * buf_usecs (control e) ->
  exists k e', (k <= length script)%nat /\ run_cycles (take k script) e = Some e' /\
    transport_state (control e') = JackTransportRolling.
Proof.
  revert e. induction script as [|l script IH]; intros e Hu Hs Hne Hle; [done|].
  destruct (poll_answers_control l e) as [r Hr].
  destruct (starting_step (poll_answers l e)) as (e1 & He1 & H1);
    [by apply poll_answers_undisturbed|by rewrite Hr|].
  destruct H1 as [Hroll|(Hst & Hu1 & Hlt & Hleft & Hbuf)].
  { exists 1%nat, e1. cbn. rewrite take_0, He1. split_and!; [lia|done|done]. }
  rewrite Hr in Hlt, Hleft, Hbuf. cbn in Hlt, Hleft, Hbuf.
  change (buf_usecs (_ <| sync_remain := r |>)) with (buf_usecs (control e)) in *.
  cbn [length] in Hle.
  destruct (IH e1) as (k & e' & Hk & Hrun & Hroll); [done|done|..].
  - intros ->. cbn in Hle. lia.
  - rewrite Hleft, Hbuf. lia.
  - exists (S k), e'. cbn. rewrite He1. split_and!; [lia|done|done].
Qed.

Definition starting_engine : engine :=
  upd_control (fun t => t <| transport_state := JackTransportStarting |>
    <| sync_remain := 1 |> <| sync_time_left := 60000 |>) (rolling_engine 1).

Lemma starting_transport_rolls_witness :
  exists k e', (k <= 3)%nat /\
    run_cycles (take k [[]; [(false, 0%nat)]; []]) starting_engine = Some e' /\
    transport_state (control e') = JackTransportRolling.
Proof.
  apply (starting_transport_rolls [[]; [(false, 0%nat)]; []] starting_engine).
  - constructor; reflexivity.
  - reflexivity.
  - discriminate.
  - vm_compute. discriminate.
Defined.

(** ** The frame counter *)

(** Cycles in which the timebase master may write the pending position. *)
Fixpoint roll_cycles
    (cbs : list (jack_transport_state_t -> Z -> jack_position_t -> bool -> jack_position_t))
    (m : client_ptr) (e : engine) : option engine :=
  match cbs with
  | [] => Some e
  | cb :: cbs =>
      match jack_transport_cycle_end (jack_call_timebase_master cb m e) with
      | Some e => roll_cycles cbs m e
      | None => None
      end
  end.

(** A transport that rolls undisturbed advances by exactly one buffer per
    cycle, modulo [2^32], whatever the timebase callbacks write. *)
Theorem rolling_frame_advance cbs m e :
  undisturbed e -> transport_state (control e) = JackTransportRolling ->
  0 <= frame (current_time (control e)) < 2 ^ 32 ->
  pending_frame (control e) = u32 (frame (current_time (control e)) + buffer_size (control e)) ->
  exists e', roll_cycles cbs m e = Some e' /\
    transport_state (control e') = JackTransportRolling /\
    frame (current_time (control e')) =
      u32 (frame (current_time (control e)) + zlen cbs * buffer_size (control e)).
Proof.
  revert e. induction cbs as [|cb cbs IH]; intros e Hu Hs Hb Hf.
  { exists e. cbn. split_and!; [done|done|]. rewrite Z.add_0_r. by rewrite wrap_small. }
  cbn [roll_cycles]. destruct (call_timebase_control cb m e) as [p Hp].
  set (e0 := jack_call_timebase_master cb m e) in *. clearbody e0.
  assert (Hu0 : undisturbed e0)
    by (destruct Hu; constructor; unfold no_request in *; by rewrite Hp).
  destruct (cycle_end_total e0 (or_introl (ud_req e0 Hu0))) as [e1 He1]. rewrite He1.
  pose proof (cycle_end_undisturbed e0 e1 Hu0 He1) as Hu1.
  apply cycle_end_spec in He1. cbn zeta in He1.
  destruct He1 as (S1 & _ & C1 & (_ & _ & B1) & _ & F1 & _).
  assert (Hs1 : transport_state (control e1) = JackTransportRolling).
  { rewrite S1. unfold settled_state, fresh_command.
    rewrite decide_True by apply Hu0. rewrite (ud_pos e0 Hu0), Hp. cbn. by rewrite Hs. }
  rewrite (ud_req e0 Hu0), Hs1, bool_decide_eq_true_2 in F1 by done.
  rewrite Hp in C1, B1, F1. cbn in B1, F1.
  assert (Hc1 : frame (current_time (control e1)) = pending_frame (control e)) by (by rewrite C1).
  destruct (IH e1) as (e' & Hrun & Hst & Hfr); [done|done|..].
  - rewrite Hc1, Hf. by apply wrap_bound.
  - by rewrite Hc1, F1, B1.
  - exists e'. split_and!; [done|done|]. rewrite Hfr, Hc1, Hf, B1. unfold wrap.
    rewrite Zplus_mod_idemp_l. f_equal. cbn [length]. lia.
Qed.

Lemma rolling_frame_advance_witness :
  exists e', roll_cycles [wild_callback; wild_callback; wild_callback] 0 (rolling_engine 1) = Some e' /\
    transport_state (control e') = JackTransportRolling /\
    frame (current_time (control e')) = 4072.
Proof.
  apply (rolling_frame_advance [wild_callback; wild_callback; wild_callback] 0 (rolling_engine 1)).
  - constructor; reflexivity.
  - reflexivity.
  - split; vm_compute; [discriminate|reflexivity].
  - reflexivity.
Defined.

End TransportCycle.
