(* ===== verification/Events.v ===== *)
(** * Event delivery (server/engine.c)

    How the server tells clients what happened: one event to one client, the
    connection and registration notifications, and the handling of clients
    that do not answer.  Every exchange with another process takes its
    outcome from the [environment]. *)

From S2P Require Import Prelude Engine.

Local Open Scope Z_scope.

Module Events.
Section io.
Context (env : environment).

Definition jack_engine_signal_problems (e : engine) : engine := e <| problems ::= Z.succ |>.

(** [client->error += JACK_ERROR_WITH_SOCKETS] and the wake-up of the server thread. *)
Definition socket_error (c : client_ptr) (e : engine) : engine :=
  jack_engine_signal_problems
    (upd_client c (fun x => x <| c_error ::= fun n => n + JACK_ERROR_WITH_SOCKETS |>) e).

(** The events an internal client has a case for. *)
Definition internal_handles (x : client) (ev : jack_event) : bool :=
  match ev with
  | PortConnected _ _ | PortDisconnected _ _ | LatencyCallback _ | BufferSizeChange => true
  | SampleRateChange => srate_cbset (cbset x)
  | GraphReordered _ _ => graph_order_cbset (cbset x)
  | XRun => xrun_cbset (cbset x)
  | _ => false
  end.

(** The result of the poll on the event socket. *)
Definition poll_status (r : io_reply) : Z :=
  if io_poll_ret r <? 0 then -1
  else if negb (Z.land (io_revents r) (Z.lnot POLLIN) =? 0) then -2
  else if negb (Z.land (io_revents r) POLLIN =? 0) then 0
  else if io_poll_ret r =? 0 then if io_poll_left r <? 200 then 0 else -2
  else 0.

(** [kill (client->control->pid, 0)] fails for an external client. *)
Definition unreachable (x : client) (r : io_reply) : bool :=
  dead x || (c_error x >=? JACK_ERROR_WITH_SOCKETS)
  || (bool_decide (c_type x = ClientExternal) && negb (io_alive r)).

Definition jack_deliver_event (c : client_ptr) (ev : jack_event) (e : engine) : Z * engine :=
  let r := env_reply env (io_count e) in
  let e := e <| io_count ::= S |> in
  let x := the_client e c in
  if unreachable x r then (0, e)
  else if jack_client_is_internal x then
    (0, if internal_handles x ev then e <| events ::= fun l => l ++ [(c, ev)] |> else e)
  else if active x then
    let e := if io_write_ok r then e <| events ::= fun l => l ++ [(c, ev)] |>
             else socket_error c e in
    let status := if negb (c_error (the_client e c) =? 0) then -1 else poll_status r in
    let status := if status =? 0 then match io_status r with Some s => s | None => -1 end
                  else status in
    let e := if status <? 0 then socket_error c e else e in
    (status, e)
  else (0, e).

Definition jack_send_connection_notification (id self_id other_id : Z) (connected : bool)
    (e : engine) : Z * engine :=
  match jack_client_internal_by_id e id with
  | None => (-1, e)
  | Some c =>
      if active (the_client e c) then
        let ev := if connected then PortConnected self_id other_id
                  else PortDisconnected self_id other_id in
        let '(st, e) := jack_deliver_event c ev e in
        if negb (st =? 0) then (-1, e) else (0, e)
      else (0, e)
  end.

(** [for (node = engine->clients; ...) if (cond) jack_deliver_event (...)]. *)
Definition deliver_where (cond : client_ptr -> client -> bool) (ev : jack_event)
    (l : list client_ptr) (e : engine) : engine :=
  foldl (fun e c => if cond c (the_client e c) then (jack_deliver_event c ev e).2 else e) e l.

Definition jack_deliver_event_to_all (ev : jack_event) (e : engine) : engine :=
  deliver_where (fun _ _ => true) ev (clients e) e.

Definition jack_notify_all_port_interested_clients (src dst a b : Z) (connected : bool)
    (e : engine) : engine :=
  let ev := if connected then PortConnected a b else PortDisconnected a b in
  let src_client := jack_client_internal_by_id e src in
  let dst_client := jack_client_internal_by_id e dst in
  deliver_where (fun c x => bool_decide (src_client <> Some c) && bool_decide (dst_client <> Some c)
                            && port_connect_cbset (cbset x)) ev (clients e) e.

Definition jack_port_registration_notify (port_id : Z) (yn : bool) (e : engine) : engine :=
  deliver_where (fun _ x => active x && port_register_cbset (cbset x))
    (if yn then PortRegistered port_id else PortUnregistered port_id) (clients e) e.

Definition jack_client_registration_notify (name : string) (yn : bool) (e : engine) : engine :=
  deliver_where (fun _ x => active x && bool_decide (c_name x <> name)
                            && client_register_cbset (cbset x))
    (if yn then ClientRegistered name else ClientUnregistered name) (clients e) e.

(** ** What delivery can change

    The only durable effects of a delivery are the [error] count of the client
    it is made to and the [problems] count; the log of events and the I/O
    counter belong to the model. *)

(** Everything about a client but its error count. *)
Definition no_error (x : client) : client :=
  x <| c_error := if dead x then c_error x else 0 |>.

(** Equal but for error counts, problem counts, event log. *)
Record event_frame (e e' : engine) : Prop := {
  ef_clients : forall c, no_error <$> client_store e' !! c = no_error <$> client_store e !! c;
  ef_rest : e' <| client_store := ∅ |> <| problems := 0 |> <| events := [] |> <| io_count := 0%nat |> =
            e <| client_store := ∅ |> <| problems := 0 |> <| events := [] |> <| io_count := 0%nat |>
}.

#[global] Instance event_frame_preorder : PreOrder event_frame.
Proof.
  split; [done|]. intros e1 e2 e3 [A1 A2] [B1 B2]. constructor; [|congruence].
  intros c. by rewrite B1.
Qed.

Lemma event_frame_field {A} (f : client -> A) e e' c :
  (forall x, f (no_error x) = f x) -> event_frame e e' ->
  f (the_client e' c) = f (the_client e c).
Proof.
  intros Hf [H _]. specialize (H c). unfold the_client.
  destruct (client_store e' !! c) as [x|], (client_store e !! c) as [y|]; cbn in H; try done.
  apply (inj Some) in H. cbn. by rewrite <- (Hf x), <- (Hf y), H.
Qed.

Lemma socket_error_client c d e :
  is_Some (client_store e !! c) ->
  the_client (socket_error c e) d =
  if decide (c = d) then the_client e c <| c_error ::= fun n => n + JACK_ERROR_WITH_SOCKETS |>
  else the_client e d.
Proof. intros. by apply (the_client_upd e c d). Qed.

Lemma socket_error_frame c e : dead (the_client e c) = false -> event_frame e (socket_error c e).
Proof.
  intros Hd. constructor; [|done]. intros d. cbn. destruct (decide (c = d)) as [->|].
  - rewrite lookup_alter_eq. unfold the_client in Hd. destruct (client_store e !! d) as [x|]; [|done].
    cbn in *. unfold no_error. cbn. by rewrite Hd.
  - by rewrite lookup_alter_ne.
Qed.

Lemma deliver_frame c ev e : event_frame e (jack_deliver_event c ev e).2.
Proof.
  unfold jack_deliver_event. set (e1 := e <| io_count ::= S |>).
  assert (H1 : event_frame e e1) by done. clearbody e1. transitivity e1; [done|]. clear H1.
  destruct (unreachable _ _) eqn:Eu; [done|]. destruct (jack_client_is_internal _).
  { cbn [snd]. by destruct (internal_handles _ _). }
  destruct (active _); [|done]. cbn zeta. set (e2 := if io_write_ok _ then _ else _).
  assert (Hd : dead (the_client e1 c) = false).
  { unfold unreachable in Eu. by destruct (dead (the_client e1 c)). }
  assert (H2 : event_frame e1 e2)
    by (subst e2; destruct (io_write_ok _); [done|by apply socket_error_frame]).
  clearbody e2. cbn [snd]. destruct (_ <? _); [|done].
  transitivity e2; [done|]. apply socket_error_frame. by rewrite (event_frame_field dead e1 e2).
Qed.

Lemma deliver_where_frame cond ev l e : event_frame e (deliver_where cond ev l e).
Proof.
  unfold deliver_where. revert e. induction l as [|c l IH]; intros e; [done|]. cbn.
  etrans; [|apply IH]. destruct (cond _ _); [apply deliver_frame|done].
Qed.

Lemma send_notification_frame id s o b e :
  event_frame e (jack_send_connection_notification id s o b e).2.
Proof.
  unfold jack_send_connection_notification.
  destruct (jack_client_internal_by_id e id) as [c|]; [|done]. destruct (active _); [|done].
  pose proof (deliver_frame c (if b then PortConnected s o else PortDisconnected s o) e) as H.
  destruct (jack_deliver_event _ _ _) as [st e']. by destruct (negb _).
Qed.

(** Delivering an event never disturbs anything but the bookkeeping of
    failures: whatever the client process does, the graph, the ports, the
    transport and every other client are untouched; the client's own error
    count never decreases, and a failed exchange raises it by
    JACK_ERROR_WITH_SOCKETS or more and signals a problem. *)
Theorem deliver_event_effects c ev e :
  is_Some (client_store e !! c) ->
  let '(st, e') := jack_deliver_event c ev e in
  event_frame e e' /\
  (forall d, d <> c -> the_client e' d = the_client e d) /\
  c_error (the_client e c) <= c_error (the_client e' c) /\
  (st < 0 -> c_error (the_client e c) + JACK_ERROR_WITH_SOCKETS <= c_error (the_client e' c) /\
             problems e < problems e').
Proof.
  intros Hc. pose proof (deliver_frame c ev e) as Hf. revert Hf. unfold jack_deliver_event.
  change (the_client (e <| io_count ::= S |>) c) with (the_client e c).
  destruct (unreachable _ _); [intros; split_and!; (done || lia)|].
  destruct (jack_client_is_internal _).
  { destruct (internal_handles _ _); intros; split_and!; (done || cbn; lia). }
  destruct (active _); [|intros; split_and!; (done || lia)]. cbn zeta.
  set (e1 := if io_write_ok _ then _ else _).
  assert (H1 : is_Some (client_store e1 !! c) /\ (forall d, d <> c -> the_client e1 d = the_client e d) /\
     c_error (the_client e c) <= c_error (the_client e1 c) /\ problems e <= problems e1).
  { unfold e1. destruct (io_write_ok _); [split_and!; (done || lia)|].
    split_and!; [by apply lookup_alter_is_Some| | |cbn; lia].
    - intros d Hd. rewrite socket_error_client by done. by rewrite decide_False.
    - rewrite socket_error_client, decide_True by done.
      change (the_client (?x <| io_count ::= S |>) c) with (the_client x c).
      cbn. unfold JACK_ERROR_WITH_SOCKETS. lia. }
  destruct H1 as (Hs1 & Hd1 & He1 & Hp1). clearbody e1.
  set (st := if _ =? 0 then _ else _). clearbody st.
  destruct (Z.ltb_spec st 0); intros Hf; (split; [exact Hf|]); [|split_and!; (done || lia)].
  assert (E : c_error (the_client (socket_error c e1) c) =
              c_error (the_client e1 c) + JACK_ERROR_WITH_SOCKETS).
  { rewrite socket_error_client by done. by rewrite decide_True. }
  rewrite E. unfold JACK_ERROR_WITH_SOCKETS. split_and!; [|lia|intros _; cbn; lia].
  intros d Hd. rewrite <- Hd1, socket_error_client by done. by rewrite decide_False.
Qed.

End io.

Lemma deliver_event_effects_witness :
  let e := empty_engine <| client_store := {[ 0%nat := null_client <| active := true |> ]} |> in
  let env := mk_env (fun _ => mk_reply true false 0 0 0 None) (fun _ => FifoPresent) (fun n => n) in
  (jack_deliver_event env 0 XRun e).1 = -1 /\
  c_error (the_client (jack_deliver_event env 0 XRun e).2 0) >= JACK_ERROR_WITH_SOCKETS.
Proof.
  set (e := empty_engine <| client_store := _ |>). set (env := mk_env _ _ _). cbv zeta.
  pose proof (deliver_event_effects env 0 XRun e) as H.
  assert (Hs : (jack_deliver_event env 0 XRun e).1 = -1) by (vm_compute; reflexivity).
  destruct (jack_deliver_event env 0 XRun e) as [st e']. cbn in Hs. subst st.
  destruct H as (_ & _ & _ & H); [by eexists|]. split; [reflexivity|].
  assert (E0 : c_error (the_client e 0) = 0) by reflexivity.
  destruct H as [H _]; [lia|]. cbn [snd]. lia.
Defined.

End Events.
