(* ===== verification/Graph.v ===== *)
(** * The client graph (server/engine.c)

    Connections between ports induce the feeds relation between clients; from
    it the server computes the execution order, breaks feedback loops and
    tells the clients.  [truefeeds] is the relation as connected, [sortfeeds]
    the one the sort uses, in which feedback connections are reversed.

    The C recursion of [jack_client_feeds_transitive] and the loop of
    [jack_check_acyclic] carry fuel here; GraphInv.v shows that the fuel is
    never exhausted. *)

From S2P Require Import Prelude JSList Engine Events.

Local Open Scope Z_scope.

Module Graph.
Import JSList Events.

(** ** Ports by name *)

Definition strncmp_eq (n : nat) (s t : string) : bool :=
  bool_decide (String.substring 0 n s = String.substring 0 n t).

(** The temporary buffer of the kludge holds [JACK_PORT_NAME_SIZE + 1] bytes. *)
Definition alsa_alias (target : string) : string :=
  if strncmp_eq 12 target "ALSA:capture" || strncmp_eq 13 target "ALSA:playback"
  then String.substring 0 256 ("alsa_pcm" +:+ String.substring 4 (String.length target) target)
  else target.

Definition jack_port_name_equals (p : port) (target : string) : bool :=
  let target := alsa_alias target in
  bool_decide (p_name p = target) || bool_decide (alias1 p = target)
  || bool_decide (alias2 p = target).

(** The first index from [i] on whose port satisfies [test]. *)
Fixpoint find_port (test : port -> bool) (i : nat) (l : list port) : option port_ptr :=
  match l with
  | [] => None
  | p :: l => if test p then Some i else find_port test (S i) l
  end.

Definition jack_get_port_by_name (e : engine) (name : string) : option port_ptr :=
  find_port (fun p => in_use p && jack_port_name_equals p name) 0 (ports e).

Definition jack_get_port_internal_by_name (e : engine) (name : string) : option port_ptr :=
  find_port (fun p => jack_port_name_equals p name) 0 (ports e).

(** ** The sort *)

(** [for (...) if (f (med)) return 1; return 0;] *)
Fixpoint any_of (f : client_ptr -> option bool) (l : list client_ptr) : option bool :=
  match l with
  | [] => Some false
  | med :: l =>
      match f med with
      | None => None
      | Some true => Some true
      | Some false => any_of f l
      end
  end.

(** [None]: the recursion has not ended within the fuel. *)
Fixpoint feeds_fuel (fuel : nat) (e : engine) (src dst : client_ptr) : option bool :=
  match fuel with
  | O => None
  | S fuel =>
      let feeds := sortfeeds (the_client e src) in
      if decide (slist_find dst feeds = [])
      then any_of (fun med => feeds_fuel fuel e med dst) feeds
      else Some true
  end.

Definition jack_client_feeds_transitive (e : engine) (src dst : client_ptr) : bool :=
  default true (feeds_fuel (S (length (clients e))) e src dst).

Definition jack_client_sort (e : engine) (a b : client_ptr) : Z :=
  let driver_first x y := is_driver (the_client e x) && negb (is_driver (the_client e y)) in
  if jack_client_feeds_transitive e a b || driver_first a b then -1
  else if jack_client_feeds_transitive e b a || driver_first b a then 1
  else 0.

(** ** Latencies *)

(** [hops_left] is [9 - hop_count]: the recursion bottoms out after 9 hops. *)
Fixpoint total_latency_rec (hops_left : nat) (e : engine) (p : port_ptr) (toward : bool) : Z :=
  let lat := latency (the_port e p) in
  match hops_left with
  | O => lat
  | S hops_left =>
      let max_latency :=
        foldl (fun max_latency k =>
          let k := the_conn e k in
          if (toward && bool_decide (source k = p))
             || (negb toward && bool_decide (destination k = p)) then max_latency
          else
            let q := if decide (destination k = p) then source k else destination k in
            let this_latency :=
              if has_flag (flags (the_port e q)) JackPortIsTerminal
              then latency (the_port e q)
              else total_latency_rec hops_left e q toward in
            if this_latency >? max_latency then this_latency else max_latency)
          0 (connections (the_port e p)) in
      u32 (lat + max_latency)
  end.

Definition jack_get_port_total_latency (e : engine) (p : port_ptr) (hop_count : Z)
    (toward : bool) : Z :=
  total_latency_rec (Z.to_nat (9 - hop_count)) e p toward.

Definition jack_compute_port_total_latency (p : port_ptr) (e : engine) : engine :=
  if in_use (the_port e p) then
    upd_port p (fun x => x <| total_latency := jack_get_port_total_latency e p 0
                                (negb (has_flag (flags x) JackPortIsOutput)) |>) e
  else e.

Definition jack_compute_all_port_total_latencies (e : engine) : engine :=
  foldl (fun e p => jack_compute_port_total_latency p e) e (seq 0 (length (ports e))).

Section io.
Context (env : environment).

(** ** FIFOs and the execution chain *)

Definition jack_get_fifo_fd (which_fifo : Z) (e : engine) : Z * engine :=
  let usable := match env_fifo_stat env which_fifo with
                | FifoPresent => true | FifoAbsent ok => ok | FifoUnusable => false
                end in
  if negb usable then (-1, e)
  else
    let e := if which_fifo >=? zlen (fifo e)
             then e <| fifo ::= fun f => f ++ replicate 16 (-1) |> else e in
    let i := Z.to_nat which_fifo in
    if default (-1) (fifo e !! i) <? 0 then
      let fd := env_fifo_open env which_fifo in
      (if fd <? 0 then -1 else fd, e <| fifo ::= <[i := fd]> |>)
    else (default (-1) (fifo e !! i), e).

(** [while (next) { if (client is active and has a callback) break; next = next->next; }]:
    the test is on [client], not on [next]. *)
Fixpoint skip_inactive (test : bool) (l : list client_ptr) : list client_ptr :=
  match l with
  | [] => []
  | _ :: l' => if test then l else skip_inactive test l'
  end.

(** The variables of the loop: [n], [subgraph_client], the two words of the event. *)
Record chain_state := mk_chain {
  ch_n : Z;
  ch_subgraph : option client_ptr;
  ch_event : Z * Z
}.

Definition chain_internal (c : client_ptr) (s : chain_state) (e : engine) : chain_state * engine :=
  let '(n, e) :=
    match ch_subgraph s with
    | Some g =>
        let '(fd, e) := jack_get_fifo_fd (ch_n s) e in
        (ch_n s + 1, upd_client g (fun x => x <| subgraph_wait_fd := fd |>) e)
    | None => (ch_n s, e)
    end in
  let '(_, e) := jack_deliver_event env c (GraphReordered (ch_event s).1 (ch_event s).2) e in
  (mk_chain n None (ch_event s), e).

Definition chain_external (c : client_ptr) (s : chain_state) (e : engine) : chain_state * engine :=
  let '(sub, up, e) :=
    match ch_subgraph s with
    | None =>
        let '(fd, e) := jack_get_fifo_fd (ch_n s) e in
        (c, 1, upd_client c (fun x => x <| subgraph_start_fd := fd |>) e)
    | Some g => (g, 0, upd_client g (fun x => x <| subgraph_wait_fd := -1 |>) e)
    end in
  let order := execution_order (the_client e c) in
  let '(_, e) := jack_get_fifo_fd (order + 1) e in
  let '(_, e) := jack_deliver_event env c (GraphReordered order up) e in
  (mk_chain (ch_n s + 1) (Some sub) (order, up), e).

Fixpoint rechain_loop (fuel : nat) (nodes : list client_ptr) (s : chain_state) (e : engine)
    : chain_state * engine :=
  match fuel, nodes with
  | O, _ | _, [] => (s, e)
  | S fuel, c :: next =>
      let x := the_client e c in
      if negb (runs_process x) then rechain_loop fuel next s e
      else if active x then
        let next := skip_inactive (active x && runs_process x) next in
        let e := upd_client c (fun x => x <| execution_order := ch_n s |>
                                          <| next_client := head next |>) e in
        let '(s, e) := if jack_client_is_internal x then chain_internal c s e
                       else chain_external c s e in
        rechain_loop fuel next s e
      else rechain_loop fuel next s e
  end.

(** [jack_clear_fifos] only drains the FIFOs. *)
Definition jack_rechain_graph (e : engine) : engine :=
  let '(s, e) := rechain_loop (length (clients e)) (clients e) (mk_chain 0 None (0, 0)) e in
  match ch_subgraph s with
  | Some g =>
      let '(fd, e) := jack_get_fifo_fd (ch_n s) e in
      upd_client g (fun x => x <| subgraph_wait_fd := fd |>) e
  | None => e
  end.

(** [jack_deliver_event (engine, engine->driver->internal_client, ev)]: there may be no driver. *)
Definition deliver_driver (ev : jack_event) (e : engine) : engine :=
  match driver e with
  | Some c => (jack_deliver_event env c ev e).2
  | None => e <| crashed := true |>
  end.

Definition jack_compute_new_latency (e : engine) : engine :=
  let order := clients e in
  let e := deliver_where env (fun _ _ => true) (LatencyCallback 0) order e in
  let e := deliver_driver (LatencyCallback 0) e in
  let e := deliver_where env (fun _ _ => true) (LatencyCallback 1) (reverse order) e in
  deliver_driver (LatencyCallback 1) e.

Definition jack_sort_graph (e : engine) : engine :=
  let e := e <| clients ::= slist_sort (fun a b => jack_client_sort e a b <? 0) |> in
  let e := jack_compute_all_port_total_latencies e in
  let e := jack_rechain_graph e in
  let e := jack_compute_new_latency e in
  e <| timeout_count := 0 |>.

(** ** Has the graph become acyclic? *)

(** One client of a pass: [(unsortedclients, stuck)] and the [tfedcount]s. *)
Definition acyclic_visit (st : Z * bool * engine) (c : client_ptr) : Z * bool * engine :=
  let '(unsorted, stuck, e) := st in
  if tfedcount (the_client e c) =? 0 then
    let e := upd_client c (fun x => x <| tfedcount := -1 |>) e in
    (unsorted - 1, false,
     foldl (fun e d => upd_client d (fun x => x <| tfedcount ::= Z.pred |>) e)
           e (truefeeds (the_client e c)))
  else st.

Definition acyclic_pass (unsorted : Z) (e : engine) : Z * bool * engine :=
  foldl acyclic_visit (unsorted, true, e) (clients e).

(** [while (unsortedclients && !stuck)]: the result is [stuck]. *)
Fixpoint acyclic_loop (fuel : nat) (unsorted : Z) (stuck : bool) (e : engine)
    : option (bool * engine) :=
  match fuel with
  | O => None
  | S fuel =>
      if negb (unsorted =? 0) && negb stuck then
        let '(unsorted, stuck, e) := acyclic_pass unsorted e in
        acyclic_loop fuel unsorted stuck e
      else Some (stuck, e)
  end.

Definition reverse_feedback (e : engine) (k : conn_ptr) : engine :=
  let conn := the_conn e k in
  if dir conn =? -1 then
    let e := upd_conn k (fun x => x <| dir := 1 |>) e in
    let e := upd_client (dstclient conn)
               (fun x => x <| sortfeeds ::= slist_remove (srcclient conn) |>) e in
    upd_client (srcclient conn) (fun x => x <| sortfeeds ::= cons (dstclient conn) |>) e
  else e.

Definition jack_check_acyclic (e : engine) : engine :=
  let e := foldl (fun e c => upd_client c (fun x => x <| tfedcount := fedcount x |>) e)
                 e (clients e) in
  match acyclic_loop (S (S (length (clients e)))) (zlen (clients e)) false e with
  | Some (false, e) =>
      foldl (fun e c =>
        foldl (fun e p => foldl reverse_feedback e (connections (the_port e p)))
              e (c_ports (the_client e c)))
        e (clients e) <| feedbackcount := 0 |>
  | Some (true, e) => e
  | None => e
  end.

(** ** Connecting *)

(** Both connection notifications and the general one. *)
Definition notify_connection (src_id dst_id src_client dst_client : Z) (connected : bool)
    (e : engine) : engine :=
  let e := (jack_send_connection_notification env src_client src_id dst_id connected e).2 in
  let e := (jack_send_connection_notification env dst_client dst_id src_id connected e).2 in
  jack_notify_all_port_interested_clients env src_client dst_client src_id dst_id connected e.

(** The feeds lists of a new connection: its [dir] and the new engine. *)
Definition record_feeds (srcclient dstclient : client_ptr) (e : engine) : Z * engine :=
  if is_driver (the_client e dstclient) then (1, e)
  else if decide (srcclient <> dstclient) then
    let e := upd_client srcclient (fun x => x <| truefeeds ::= cons dstclient |>) e in
    let e := upd_client dstclient (fun x => x <| fedcount ::= Z.succ |>) e in
    if jack_client_feeds_transitive e dstclient srcclient
       || (is_driver (the_client e dstclient) && negb (is_driver (the_client e srcclient)))
    then (-1, upd_client dstclient (fun x => x <| sortfeeds ::= cons srcclient |>) e
                <| feedbackcount ::= Z.succ |>)
    else (1, upd_client srcclient (fun x => x <| sortfeeds ::= cons dstclient |>) e)
  else (0, e).

(** The new connection, in the feeds lists and in the lists of both ports. *)
Definition add_connection (srcport dstport : port_ptr) (srcclient dstclient : client_ptr)
    (e : engine) : engine :=
  let '(d, e) := record_feeds srcclient dstclient e in
  let k := fresh (dom (conn_store e)) in
  let e := e <| conn_store ::= <[k := mk_connection srcport dstport d srcclient dstclient]> |> in
  let e := upd_port dstport (fun p => p <| connections ::= cons k |>) e in
  upd_port srcport (fun p => p <| connections ::= cons k |>) e.

(** The part of [jack_port_do_connect] under the graph lock. *)
Definition connect_locked (srcport dstport : port_ptr) (srcclient dstclient : client_ptr)
    (e : engine) : Z * engine :=
  if negb (bool_decide (connections (the_port e dstport) = []))
     && negb (has_mixdown (the_port e dstport)) then (-1, e)
  else
    let src_id := p_id (the_port e srcport) in
    let dst_id := p_id (the_port e dstport) in
    let e := add_connection srcport dstport srcclient dstclient e in
    let e := notify_connection src_id dst_id (client_id (the_port e srcport))
               (client_id (the_port e dstport)) true e in
    (0, jack_sort_graph e).

Definition jack_port_do_connect (source_port destination_port : string) (e : engine)
    : Z * engine :=
  match jack_get_port_by_name e source_port with
  | None => (-1, e)
  | Some srcport =>
    match jack_get_port_by_name e destination_port with
    | None => (-1, e)
    | Some dstport =>
      let s := the_port e srcport in
      let d := the_port e dstport in
      if negb (has_flag (flags d) JackPortIsInput) then (-1, e)
      else if negb (has_flag (flags s) JackPortIsOutput) then (-1, e)
      else if negb (ptype_id s =? ptype_id d) then (-1, e)
      else
        match jack_client_internal_by_id e (client_id s) with
        | None => (-1, e)
        | Some srcclient =>
          if negb (active (the_client e srcclient)) then (-1, e)
          else
            match jack_client_internal_by_id e (client_id d) with
            | None => (-1, e)
            | Some dstclient =>
              if negb (active (the_client e dstclient)) then (-1, e)
              else if existsb (fun k => bool_decide (destination (the_conn e k) = dstport))
                              (connections s) then (EEXIST, e)
              else connect_locked srcport dstport srcclient dstclient e
            end
        end
    end
  end.

(** ** Disconnecting *)

(** [if (connect->dir) ...]: the feeds lists after a disconnection. *)
Definition forget_feeds (d : Z) (src dst : client_ptr) (e : engine) : engine :=
  if d =? 0 then e
  else
    let e := upd_client src (fun x => x <| truefeeds ::= slist_remove dst |>) e in
    let e := upd_client dst (fun x => x <| fedcount ::= Z.pred |>) e in
    if d =? 1 then upd_client src (fun x => x <| sortfeeds ::= slist_remove dst |>) e
    else upd_client dst (fun x => x <| sortfeeds ::= slist_remove src |>) e
           <| feedbackcount ::= Z.pred |>.

(** The connection leaves the lists of both ports; without any connection
    left, the source's input monitoring is turned off. *)
Definition unlink_ports (srcport dstport : port_ptr) (k : conn_ptr) (e : engine) : engine :=
  let e := upd_port srcport (fun p => p <| connections ::= slist_remove k |>) e in
  let e := upd_port dstport (fun p => p <| connections ::= slist_remove k |>) e in
  if decide (connections (the_port e srcport) = [])
  then upd_port srcport (fun p => p <| monitor_requests := 0 |>) e else e.

(** The body of the loop for the connection found. *)
Definition disconnect_found (srcport dstport : port_ptr) (k : conn_ptr) (e : engine) : engine :=
  let connect := the_conn e k in
  let e := unlink_ports srcport dstport k e in
  let src_client := client_id (the_port e srcport) in
  let dst_client := client_id (the_port e dstport) in
  let e := notify_connection (p_id (the_port e srcport)) (p_id (the_port e dstport))
             src_client dst_client false e in
  let e :=
    match jack_client_internal_by_id e src_client, jack_client_internal_by_id e dst_client with
    | Some src, Some dst => forget_feeds (dir connect) src dst e
    | _, _ => e
    end in
  e <| conn_store ::= delete k |>.

Definition jack_port_disconnect_internal (srcport dstport : port_ptr) (e : engine)
    : Z * engine :=
  let check_acyclic := feedbackcount e in
  let found := find (fun k => bool_decide (source (the_conn e k) = srcport)
                              && bool_decide (destination (the_conn e k) = dstport))
                    (connections (the_port e srcport)) in
  let '(ret, e) := match found with
                   | Some k => (0, disconnect_found srcport dstport k e)
                   | None => (-1, e)
                   end in
  let e := if negb (check_acyclic =? 0) then jack_check_acyclic e else e in
  (ret, jack_sort_graph e).

(** The loop reads [next] before the node is freed. *)
Definition jack_port_clear_connections (p : port_ptr) (e : engine) : engine :=
  let e :=
    foldl (fun e k => (jack_port_disconnect_internal (source (the_conn e k))
                         (destination (the_conn e k)) e).2)
          e (connections (the_port e p)) in
  upd_port p (fun x => x <| connections := [] |>) e.

Definition jack_port_do_disconnect_all (port_id : Z) (e : engine) : Z * engine :=
  if port_id >=? zlen (ports e) then (-1, e)
  else (0, jack_sort_graph (jack_port_clear_connections (Z.to_nat port_id) e)).

Definition jack_port_do_disconnect (source_port destination_port : string) (e : engine)
    : Z * engine :=
  match jack_get_port_by_name e source_port with
  | None => (-1, e)
  | Some srcport =>
    match jack_get_port_by_name e destination_port with
    | None => (-1, e)
    | Some dstport => jack_port_disconnect_internal srcport dstport e
    end
  end.

End io.
End Graph.
