(* ===== verification/GraphInv.v ===== *)
(** * The graph invariant

    What the feeds lists, the counters and the connection lists say about each
    other, that every graph operation keeps it, that the recursion of
    [jack_client_feeds_transitive] ends, and that the sortfeeds relation never
    has a cycle. *)

From S2P Require Import Prelude JSList Engine Events Graph.

Local Open Scope Z_scope.

Module GraphInv.
Import JSList Events Graph.

(** ** Positions in a list *)

Definition before {A} (l : list A) (x y : A) : Prop :=
  exists i j, l !! i = Some x /\ l !! j = Some y /\ (i < j)%nat.

Lemma before_app_l {A} (l k : list A) x y : before l x y -> before (l ++ k) x y.
Proof.
  intros (i & j & Hi & Hj & Hlt). exists i, j. split_and!; [by apply lookup_app_l_Some..|done].
Qed.

Lemma lookup_app_shift {A} (l k : list A) i : (l ++ k) !! (length l + i)%nat = k !! i.
Proof. rewrite lookup_app_r by lia. f_equal. lia. Qed.

Lemma before_app_r {A} (l k : list A) x y : before k x y -> before (l ++ k) x y.
Proof.
  intros (i & j & Hi & Hj & Hlt). exists (length l + i)%nat, (length l + j)%nat.
  split_and!; [by rewrite lookup_app_shift..|lia].
Qed.

Lemma before_across {A} (l k : list A) x y : x ∈ l -> y ∈ k -> before (l ++ k) x y.
Proof.
  intros [i Hi]%list_elem_of_lookup [j Hj]%list_elem_of_lookup.
  exists i, (length l + j)%nat. split_and!;
    [by apply lookup_app_l_Some|by rewrite lookup_app_shift|apply lookup_lt_Some in Hi; lia].
Qed.

Lemma before_cons {A} (l : list A) z x y : before l x y -> before (z :: l) x y.
Proof. apply (before_app_r [z]). Qed.

Lemma before_cons_inv {A} (l : list A) z x y :
  before (z :: l) x y -> (x = z /\ y ∈ l) \/ before l x y.
Proof.
  intros (i & j & Hi & Hj & Hlt). destruct j as [|j]; [lia|]. destruct i as [|i]; cbn in *.
  - left. injection Hi as ->. split; [done|]. by eapply list_elem_of_lookup_2.
  - right. exists i, j. split_and!; [done|done|lia].
Qed.

Lemma before_filter {A} (P : A -> Prop) `{!forall x, Decision (P x)} (l : list A) x y :
  P x -> P y -> before l x y -> before (filter P l) x y.
Proof.
  intros Hx Hy. induction l as [|z l IH]; intros Hb.
  { destruct Hb as (i & j & Hi & _). by rewrite lookup_nil in Hi. }
  apply before_cons_inv in Hb as [[-> Hin]|Hb]; rewrite filter_cons.
  - rewrite decide_True by done. apply (before_across [z]); [set_solver|].
    by apply list_elem_of_filter.
  - case_decide; [apply before_cons|]; by apply IH.
Qed.

Lemma before_trans {A} (l : list A) x y z : NoDup l -> before l x y -> before l y z -> before l x z.
Proof.
  intros Hnd (i & j & Hi & Hj & H1) (j' & k & Hj' & Hk & H2).
  assert (j = j') by (by eapply NoDup_lookup). exists i, k. split_and!; [done|done|lia].
Qed.

Lemma before_irrefl {A} (l : list A) x : NoDup l -> ~ before l x x.
Proof.
  intros Hnd (i & j & Hi & Hj & H). assert (i = j) by (by eapply NoDup_lookup). lia.
Qed.

Lemma before_elem {A} (l : list A) x y : before l x y -> x ∈ l /\ y ∈ l.
Proof. intros (i & j & Hi & Hj & _). split; by eapply list_elem_of_lookup_2. Qed.

(** ** What the graph operations look at *)

Definition cview (x : client) :=
  (c_id x, c_type x, c_ports x, truefeeds x, sortfeeds x, fedcount x).

Definition pview (p : port) := (client_id p, flags p, connections p, in_use p).

(** Equal graphs, the clients possibly in another order. *)
Record same_graph (e e' : engine) : Prop := {
  sg_clients : clients e ≡ₚ clients e';
  sg_store : forall c, cview <$> client_store e' !! c = cview <$> client_store e !! c;
  sg_ports : pview <$> ports e' = pview <$> ports e;
  sg_conns : conn_store e' = conn_store e;
  sg_feedback : feedbackcount e' = feedbackcount e
}.

#[global] Instance same_graph_equivalence : Equivalence same_graph.
Proof.
  split.
  - done.
  - intros e1 e2 []. by constructor.
  - intros e1 e2 e3 [] []. constructor; try (by etrans). intros c. by rewrite sg_store1.
Qed.

Lemma same_graph_client e e' c : same_graph e e' -> cview (the_client e' c) = cview (the_client e c).
Proof.
  intros H. pose proof (sg_store e e' H c) as Hc. unfold the_client.
  destruct (client_store e' !! c), (client_store e !! c); cbn in *; congruence.
Qed.

Lemma same_graph_port e e' p : same_graph e e' -> pview (the_port e' p) = pview (the_port e p).
Proof.
  intros H. pose proof (sg_ports e e' H) as Hp.
  apply (f_equal (fun l => l !! p)) in Hp. rewrite !list_lookup_fmap in Hp. unfold the_port.
  destruct (ports e' !! p), (ports e !! p); cbn in *; congruence.
Qed.

Lemma same_graph_length e e' : same_graph e e' -> length (ports e') = length (ports e).
Proof.
  intros H. pose proof (sg_ports e e' H) as Hp. apply (f_equal length) in Hp.
  by rewrite !length_fmap in Hp.
Qed.

Lemma same_graph_in_store e e' c :
  same_graph e e' -> is_Some (client_store e !! c) -> is_Some (client_store e' !! c).
Proof.
  intros H [x Hx]. pose proof (sg_store e e' H c) as Hc. rewrite Hx in Hc.
  destruct (client_store e' !! c); [by eexists|done].
Qed.

(** Updates outside the views. *)
Lemma same_graph_upd_client c f e :
  (forall x, cview (f x) = cview x) -> same_graph e (upd_client c f e).
Proof.
  intros Hf. constructor; try done. intros d. cbn. destruct (decide (c = d)) as [->|].
  - rewrite lookup_alter_eq. destruct (client_store e !! d); cbn; [by rewrite Hf|done].
  - by rewrite lookup_alter_ne.
Qed.

Lemma same_graph_upd_port p f e :
  (forall x, pview (f x) = pview x) -> same_graph e (upd_port p f e).
Proof.
  intros Hf. constructor; try done. cbn. apply list_eq. intros i. rewrite !list_lookup_fmap.
  destruct (decide (p = i)) as [->|].
  - rewrite list_lookup_alter_eq. destruct (ports e !! i); cbn; [by rewrite Hf|done].
  - by rewrite list_lookup_alter_ne.
Qed.

(** A field that event delivery does not touch. *)
Lemma event_frame_get {A} (g : engine -> A) e e' :
  (forall x, g (x <| client_store := ∅ |> <| problems := 0 |> <| events := [] |>
                  <| io_count := 0%nat |>) = g x) ->
  event_frame e e' -> g e' = g e.
Proof. intros Hg [_ Hr]. by rewrite <- (Hg e'), <- (Hg e), Hr. Qed.

Lemma same_graph_event e e' : event_frame e e' -> same_graph e e'.
Proof.
  intros H. pose proof H as [Hc _].
  constructor; try (by rewrite ?(event_frame_get clients e e'), ?(event_frame_get ports e e'),
    ?(event_frame_get conn_store e e'), ?(event_frame_get feedbackcount e e')).
  intros c. specialize (Hc c).
  destruct (client_store e' !! c) as [x|], (client_store e !! c) as [y|]; cbn in *; try done.
  apply (inj Some) in Hc. f_equal. change (cview (no_error x) = cview (no_error y)). by rewrite Hc.
Qed.

(** ** The sort leaves the graph alone *)

Lemma same_graph_latencies e : same_graph e (jack_compute_all_port_total_latencies e).
Proof.
  unfold jack_compute_all_port_total_latencies. generalize (seq 0 (length (ports e))). intros l.
  revert e. induction l as [|p l IH]; intros e; [done|]. cbn. etrans; [|apply IH].
  unfold jack_compute_port_total_latency. destruct (in_use _); [|done].
  by apply same_graph_upd_port.
Qed.

Section io.
Context (env : environment).

Lemma same_graph_deliver c ev e : same_graph e (jack_deliver_event env c ev e).2.
Proof. apply same_graph_event, deliver_frame. Qed.

Lemma same_graph_fifo n e : same_graph e (jack_get_fifo_fd env n e).2.
Proof.
  unfold jack_get_fifo_fd. destruct (negb _); [done|].
  destruct (_ >=? _); cbn zeta; by destruct (_ <? 0).
Qed.

Lemma same_graph_chain_internal c s e : same_graph e (chain_internal env c s e).2.
Proof.
  unfold chain_internal. destruct (ch_subgraph s) as [g|].
  - pose proof (same_graph_fifo (ch_n s) e) as H. destruct (jack_get_fifo_fd _ _ _) as [fd e1].
    cbn [snd] in H. set (e2 := upd_client g _ e1).
    assert (H2 : same_graph e1 e2) by (by apply same_graph_upd_client). clearbody e2.
    pose proof (same_graph_deliver c (GraphReordered (ch_event s).1 (ch_event s).2) e2) as H3.
    destruct (jack_deliver_event _ _ _ _) as [st e3]. cbn [snd] in *. by rewrite H, H2.
  - pose proof (same_graph_deliver c (GraphReordered (ch_event s).1 (ch_event s).2) e) as H3.
    by destruct (jack_deliver_event _ _ _ _) as [st e3].
Qed.

Lemma same_graph_chain_external c s e : same_graph e (chain_external env c s e).2.
Proof.
  unfold chain_external.
  set (r := match ch_subgraph s with None => _ | Some g => _ end).
  assert (H : same_graph e r.2).
  { unfold r. destruct (ch_subgraph s) as [g|]; [by apply same_graph_upd_client|].
    pose proof (same_graph_fifo (ch_n s) e) as H. destruct (jack_get_fifo_fd _ _ _) as [fd e1].
    cbn [snd] in *. etrans; [exact H|]. by apply same_graph_upd_client. }
  clearbody r. destruct r as [[sub up] e1]. cbn [snd] in H.
  pose proof (same_graph_fifo (execution_order (the_client e1 c) + 1) e1) as H2.
  destruct (jack_get_fifo_fd _ _ e1) as [fd e2]. cbn [snd] in H2.
  pose proof (same_graph_deliver c (GraphReordered (execution_order (the_client e1 c)) up) e2) as H3.
  destruct (jack_deliver_event _ _ _ e2) as [st e3]. cbn [snd] in *. by rewrite H, H2.
Qed.

Lemma same_graph_rechain_loop fuel l s e : same_graph e (rechain_loop env fuel l s e).2.
Proof.
  revert l s e. induction fuel as [|fuel IH]; intros l s e; [done|]. destruct l as [|c next]; [done|].
  cbn [rechain_loop]. destruct (negb _); [apply IH|]. destruct (active _); [|apply IH].
  set (e1 := upd_client c _ e).
  assert (H1 : same_graph e e1) by (by apply same_graph_upd_client). clearbody e1.
  destruct (jack_client_is_internal _).
  - pose proof (same_graph_chain_internal c s e1) as H2.
    destruct (chain_internal _ _ _ _) as [s2 e2]. etrans; [exact H1|]. etrans; [exact H2|]. apply IH.
  - pose proof (same_graph_chain_external c s e1) as H2.
    destruct (chain_external _ _ _ _) as [s2 e2]. etrans; [exact H1|]. etrans; [exact H2|]. apply IH.
Qed.

Lemma same_graph_rechain e : same_graph e (jack_rechain_graph env e).
Proof.
  unfold jack_rechain_graph.
  pose proof (same_graph_rechain_loop (length (clients e)) (clients e) (mk_chain 0 None (0, 0)) e) as H.
  destruct (rechain_loop _ _ _ _ _) as [s e1]. cbn [snd] in H.
  destruct (ch_subgraph s) as [g|]; [|done].
  pose proof (same_graph_fifo (ch_n s) e1) as H2. destruct (jack_get_fifo_fd _ _ _) as [fd e2].
  etrans; [exact H|]. etrans; [exact H2|]. by apply same_graph_upd_client.
Qed.

Lemma same_graph_new_latency e : same_graph e (jack_compute_new_latency env e).
Proof.
  unfold jack_compute_new_latency, deliver_driver. cbn zeta.
  set (e1 := deliver_where _ _ _ _ e).
  assert (H1 : same_graph e e1) by apply same_graph_event, deliver_where_frame. clearbody e1.
  set (e2 := match driver e1 with Some c => _ | None => _ end).
  assert (H2 : same_graph e1 e2)
    by (unfold e2; destruct (driver e1); [apply same_graph_deliver|done]). clearbody e2.
  set (e3 := deliver_where _ _ _ _ e2).
  assert (H3 : same_graph e2 e3) by apply same_graph_event, deliver_where_frame. clearbody e3.
  rewrite H1, H2, H3. destruct (driver e3); [apply same_graph_deliver|done].
Qed.

Lemma same_graph_sort e : same_graph e (jack_sort_graph env e).
Proof.
  unfold jack_sort_graph. cbn zeta. set (e1 := e <| clients ::= _ |>).
  assert (H1 : same_graph e e1).
  { constructor; try done. cbn. symmetry. apply sort_fuel_perm. }
  clearbody e1. etrans; [exact H1|]. etrans; [apply same_graph_latencies|].
  etrans; [apply same_graph_rechain|]. etrans; [apply same_graph_new_latency|]. done.
Qed.

Lemma notify_frame s d sc dc b e : event_frame e (notify_connection env s d sc dc b e).
Proof.
  unfold notify_connection. cbn zeta. etrans; [|apply deliver_where_frame].
  etrans; [apply send_notification_frame|]. apply send_notification_frame.
Qed.

End io.

(** ** The invariant *)

Definition driver_client (e : engine) (c : client_ptr) : bool := is_driver (the_client e c).

(** The live connections. *)
Definition conn_list (e : engine) : list connection := (map_to_list (conn_store e)).*2.

(** A connection that counts for the graph: not to itself, not to a driver. *)
Definition is_edge (e : engine) (x : connection) : bool :=
  negb (dir x =? 0) && negb (driver_client e (dstclient x)).

(** The clients [a] feeds, as the connections say. *)
Definition true_target (e : engine) (a : client_ptr) (x : connection) : option client_ptr :=
  if is_edge e x && bool_decide (srcclient x = a) then Some (dstclient x) else None.

(** ... with the feedback connections reversed. *)
Definition sort_target (e : engine) (a : client_ptr) (x : connection) : option client_ptr :=
  if is_edge e x then
    if dir x =? 1 then if decide (srcclient x = a) then Some (dstclient x) else None
    else if decide (dstclient x = a) then Some (srcclient x) else None
  else None.

Definition fed_by (e : engine) (b : client_ptr) (x : connection) : bool :=
  is_edge e x && bool_decide (dstclient x = b).

Definition is_feedback (x : connection) : bool := dir x =? -1.

Record conn_ok (e : engine) (x : connection) : Prop := {
  co_source : (source x < length (ports e))%nat;
  co_destination : (destination x < length (ports e))%nat;
  co_srcclient : srcclient x ∈ clients e;
  co_dstclient : dstclient x ∈ clients e;
  co_src_owner : client_id (the_port e (source x)) = c_id (the_client e (srcclient x));
  co_dst_owner : client_id (the_port e (destination x)) = c_id (the_client e (dstclient x));
  co_output : has_flag (flags (the_port e (source x))) JackPortIsOutput = true;
  co_input : has_flag (flags (the_port e (destination x))) JackPortIsInput = true;
  co_src_used : in_use (the_port e (source x)) = true;
  co_dst_used : in_use (the_port e (destination x)) = true;
  co_listed : source x ∈ c_ports (the_client e (srcclient x));
  co_dir : if driver_client e (dstclient x) then dir x = 1
           else if decide (srcclient x = dstclient x) then dir x = 0
           else dir x = 1 \/ dir x = -1;
  co_feedback : dir x = -1 -> driver_client e (srcclient x) = false
}.

(** [order] lists the clients so that every client comes before those its
    sortfeeds list names. *)
Definition topological (e : engine) (order : list client_ptr) : Prop :=
  order ≡ₚ clients e /\
  forall a b, a ∈ clients e -> b ∈ sortfeeds (the_client e a) -> before order a b.

Record graph_inv (e : engine) : Prop := {
  gi_nodup : NoDup (clients e);
  gi_store : forall c, c ∈ clients e -> is_Some (client_store e !! c);
  gi_ids : forall c d, c ∈ clients e -> d ∈ clients e ->
             c_id (the_client e c) = c_id (the_client e d) -> c = d;
  gi_conns : forall k x, conn_store e !! k = Some x -> conn_ok e x;
  gi_lists : forall p, (p < length (ports e))%nat ->
    NoDup (connections (the_port e p)) /\
    forall k, k ∈ connections (the_port e p) <->
      exists x, conn_store e !! k = Some x /\ (source x = p \/ destination x = p);
  gi_unique : forall k k' x x', conn_store e !! k = Some x -> conn_store e !! k' = Some x' ->
    source x = source x' -> destination x = destination x' -> k = k';
  gi_flags : forall p, has_flag (flags (the_port e p)) JackPortIsInput = true ->
                       has_flag (flags (the_port e p)) JackPortIsOutput = false;
  gi_owned : forall c p, c ∈ clients e -> in_use (the_port e p) = true ->
    client_id (the_port e p) = c_id (the_client e c) -> p ∈ c_ports (the_client e c);
  gi_truefeeds : forall a, a ∈ clients e ->
    truefeeds (the_client e a) ≡ₚ omap (true_target e a) (conn_list e);
  gi_sortfeeds : forall a, a ∈ clients e ->
    sortfeeds (the_client e a) ≡ₚ omap (sort_target e a) (conn_list e);
  gi_fedcount : forall b, b ∈ clients e ->
    if driver_client e b then fedcount (the_client e b) <= 0
    else fedcount (the_client e b) = countb (fed_by e b) (conn_list e);
  gi_feedback : feedbackcount e = countb is_feedback (conn_list e);
  gi_order : exists order, topological e order
}.

Lemma omap_pointwise {A B} (f g : A -> option B) (l : list A) : (forall x, f x = g x) -> omap f l = omap g l.
Proof. intros H. induction l as [|x l IH]; cbn; [done|]. by rewrite H, IH. Qed.

(** The invariant only looks at the views. *)
Lemma graph_inv_same e e' : same_graph e e' -> graph_inv e -> graph_inv e'.
Proof.
  intros S H.
  assert (V : forall c, c_id (the_client e' c) = c_id (the_client e c) /\
    driver_client e' c = driver_client e c /\ c_ports (the_client e' c) = c_ports (the_client e c) /\
    truefeeds (the_client e' c) = truefeeds (the_client e c) /\
    sortfeeds (the_client e' c) = sortfeeds (the_client e c) /\
    fedcount (the_client e' c) = fedcount (the_client e c)).
  { intros c. pose proof (same_graph_client e e' c S) as E. unfold cview in E.
    injection E as E1 E2 E3 E4 E5 E6. unfold driver_client, is_driver. by rewrite E1, E2, E3, E4, E5, E6. }
  assert (P : forall p, client_id (the_port e' p) = client_id (the_port e p) /\
    flags (the_port e' p) = flags (the_port e p) /\
    connections (the_port e' p) = connections (the_port e p) /\
    in_use (the_port e' p) = in_use (the_port e p)).
  { intros p. pose proof (same_graph_port e e' p S) as E. unfold pview in E. by injection E as -> -> -> ->. }
  pose proof (sg_conns e e' S) as C. pose proof (same_graph_length e e' S) as L.
  assert (In : forall c, c ∈ clients e' <-> c ∈ clients e) by (intros c; by rewrite (sg_clients e e' S)).
  assert (Ed : forall x, is_edge e' x = is_edge e x)
    by (intros x; unfold is_edge; by rewrite (proj1 (proj2 (V _)))).
  assert (Cl : conn_list e' = conn_list e) by (unfold conn_list; by rewrite C).
  constructor.
  - rewrite <- (sg_clients e e' S). apply H.
  - intros c Hc. apply (same_graph_in_store e); [done|]. by apply H, In.
  - intros c d Hc Hd. rewrite (proj1 (V c)), (proj1 (V d)). apply H; by apply In.
  - intros k x Hk. rewrite C in Hk. destruct (gi_conns e H k x Hk).
    constructor; rewrite ?L, ?In, ?(proj1 (P _)), ?(proj1 (proj2 (P _))), ?(proj1 (V _)),
      ?(proj2 (proj2 (proj2 (P _)))),
      ?(proj1 (proj2 (proj2 (V _)))), ?(proj1 (proj2 (V _))); done.
  - intros p Hp. rewrite L in Hp. rewrite (proj1 (proj2 (proj2 (P p)))), C. by apply H.
  - rewrite C. apply H.
  - intros p. rewrite (proj1 (proj2 (P p))). apply H.
  - intros c p Hc. destruct (P p) as (-> & _ & _ & ->), (V c) as (-> & _ & -> & _). by apply H, In.
  - intros a Ha. rewrite (proj1 (proj2 (proj2 (proj2 (V a))))), Cl, (gi_truefeeds e H) by (by apply In).
    apply reflexive_eq, omap_pointwise. intros x. unfold true_target. by rewrite Ed.
  - intros a Ha. rewrite (proj1 (proj2 (proj2 (proj2 (proj2 (V a)))))), Cl, (gi_sortfeeds e H) by (by apply In).
    apply reflexive_eq, omap_pointwise. intros x. unfold sort_target. by rewrite Ed.
  - intros b Hb. destruct (V b) as (_ & -> & _ & _ & _ & ->). rewrite Cl.
    pose proof (gi_fedcount e H b (proj1 (In b) Hb)) as Hf.
    destruct (driver_client e b); [done|]. rewrite Hf. apply countb_ext.
    intros x _. unfold fed_by. by rewrite Ed.
  - rewrite (sg_feedback e e' S), Cl. apply H.
  - destruct (gi_order e H) as (o & Ho & Hb). exists o. split; [by rewrite Ho, (sg_clients e e' S)|].
    intros a b Ha. rewrite (proj1 (proj2 (proj2 (proj2 (proj2 (V a)))))). by apply Hb, In.
Qed.

(** ** The recursion on sortfeeds *)

Definition sort_edge (e : engine) (a b : client_ptr) : Prop := b ∈ sortfeeds (the_client e a).

Lemma slist_find_nonempty (d : nat) l : slist_find d l <> [] <-> d ∈ l.
Proof.
  induction l as [|x l IH]; cbn; [set_solver|]. case_decide as E; [subst; set_solver|].
  rewrite IH. set_solver.
Qed.

Lemma any_of_spec (f : client_ptr -> option bool) (P : client_ptr -> Prop) l :
  (forall m, m ∈ l -> exists r, f m = Some r /\ (r = true <-> P m)) ->
  exists r, any_of f l = Some r /\ (r = true <-> exists m, m ∈ l /\ P m).
Proof.
  induction l as [|m l IH]; intros H; cbn.
  { exists false. split; [done|]. split; [done|]. intros (m & Hm & _). by apply not_elem_of_nil in Hm. }
  destruct (H m) as (r & -> & Hr); [left|]. destruct r.
  - exists true. split; [done|]. split; [|done]. intros _. exists m. split; [left|by apply Hr].
  - destruct IH as (r' & -> & Hr'); [intros m' Hm'; apply H; by right|].
    exists r'. split; [done|]. rewrite Hr'. split.
    + intros (m' & ? & ?). exists m'. split; [by right|done].
    + intros (m' & Hm' & Ht). apply elem_of_cons in Hm' as [->|Hm']; [|eauto].
      apply Hr in Ht. done.
Qed.

(** The clients behind [a] in a topological order bound the depth. *)
Lemma feeds_fuel_spec e order fuel i a b :
  topological e order -> NoDup (clients e) ->
  order !! i = Some a -> (length order - i <= fuel)%nat ->
  exists r, feeds_fuel fuel e a b = Some r /\ (r = true <-> tc (sort_edge e) a b).
Proof.
  intros [Ho Hb] Hnd. assert (Hno : NoDup order) by (by rewrite Ho).
  revert i a. induction fuel as [|fuel IH]; intros i a Hi Hf.
  { apply lookup_lt_Some in Hi. lia. }
  assert (Ha : a ∈ clients e) by (rewrite <- Ho; by eapply list_elem_of_lookup_2).
  cbn [feeds_fuel]. case_decide as Ed.
  2:{ apply slist_find_nonempty in Ed. exists true. split; [done|]. split; [|done].
      intros _. by apply tc_once. }
  assert (Hnb : b ∉ sortfeeds (the_client e a))
    by (intros Hin; by apply slist_find_nonempty in Hin).
  destruct (any_of_spec (fun m => feeds_fuel fuel e m b) (fun m => tc (sort_edge e) m b)
              (sortfeeds (the_client e a))) as (r & E & Hr).
  { intros m Hm. destruct (Hb a m Ha Hm) as (i' & j & Hi' & Hj & Hlt).
    assert (i' = i) by (by eapply NoDup_lookup). apply (IH j); [done|].
    apply lookup_lt_Some in Hj. lia. }
  exists r. split; [done|]. rewrite Hr. split; [intros (m & ? & ?); by eapply tc_l|].
  intros Ht. inversion Ht; subst; [done|eauto].
Qed.

Lemma feeds_transitive_spec e a b :
  graph_inv e -> a ∈ clients e ->
  feeds_fuel (S (length (clients e))) e a b = Some (jack_client_feeds_transitive e a b) /\
  (jack_client_feeds_transitive e a b = true <-> tc (sort_edge e) a b).
Proof.
  intros H Ha. destruct (gi_order e H) as [order Ho].
  assert (Hin : a ∈ order) by (by rewrite (proj1 Ho)).
  apply list_elem_of_lookup in Hin as [i Hi].
  destruct (feeds_fuel_spec e order (S (length (clients e))) i a b) as (r & E & Hr);
    [done|apply H|done|rewrite (proj1 Ho); lia|].
  unfold jack_client_feeds_transitive. rewrite E. done.
Qed.

(** ** Keeping the order *)

Lemma filter_split_perm {A} (P : A -> Prop) `{!forall x, Decision (P x)} (l : list A) :
  filter (fun x => ~ P x) l ++ filter P l ≡ₚ l.
Proof.
  induction l as [|x l IH]; [done|]. rewrite !filter_cons. destruct (decide (P x)) as [Hx|Hx].
  - rewrite decide_False by (intros ?; contradiction). rewrite <- Permutation_middle. by rewrite IH.
  - rewrite decide_True by done. cbn. by rewrite IH.
Qed.

Lemma topological_tc e order a b :
  topological e order -> NoDup (clients e) -> a ∈ clients e ->
  tc (sort_edge e) a b -> before order a b.
Proof.
  intros [Ho Hb] Hnd Ha Ht. assert (Hno : NoDup order) by (by rewrite Ho).
  induction Ht as [a b Hab|a m b Ham Ht IH]; [by apply Hb|].
  assert (Hm : before order a m) by (by apply Hb).
  eapply before_trans; [done|exact Hm|]. apply IH. rewrite <- Ho. by eapply before_elem.
Qed.

(** C37: In a graph that satisfies the invariant, [jack_client_feeds_transitive]
    ends within a recursion depth of the number of clients, it computes the
    transitive closure of the sortfeeds relation, and that relation has no
    cycle: no client feeds itself. *)
Theorem feeds_transitive_correct e a b :
  graph_inv e -> a ∈ clients e ->
  feeds_fuel (S (length (clients e))) e a b = Some (jack_client_feeds_transitive e a b) /\
  (jack_client_feeds_transitive e a b = true <-> tc (sort_edge e) a b) /\
  jack_client_feeds_transitive e a a = false.
Proof.
  intros H Ha. destruct (feeds_transitive_spec e a b H Ha) as [E1 E2]. split_and!; [done|done|].
  destruct (feeds_transitive_spec e a a H Ha) as [_ E3].
  destruct (jack_client_feeds_transitive e a a); [|done]. exfalso.
  destruct (gi_order e H) as [order Ho]. apply (before_irrefl order a).
  - rewrite (proj1 Ho). apply H.
  - apply (topological_tc e); [done|apply H|done|by apply E3].
Qed.

(** A new edge that closes no cycle: the clients behind it move to the end. *)
Lemma topological_insert e e' order s d :
  topological e order -> NoDup (clients e) -> clients e' ≡ₚ clients e ->
  s ∈ clients e -> d ∈ clients e -> s <> d -> ~ tc (sort_edge e) d s ->
  (forall a b, sort_edge e' a b -> sort_edge e a b \/ (a = s /\ b = d)) ->
  exists order', topological e' order'.
Proof.
  intros Ht Hnd Hc Hs Hd Hne Hcyc Hedge. assert (Ho := proj1 Ht).
  assert (Hdi : d ∈ order) by (by rewrite Ho). apply list_elem_of_lookup in Hdi as [i Hi].
  set (R := fun x => x = d \/ default true (feeds_fuel (length order) e d x) = true).
  assert (HR : forall x, R x <-> x = d \/ tc (sort_edge e) d x).
  { intros x. unfold R. destruct (feeds_fuel_spec e order (length order) i d x) as (r & -> & Hr);
      [done|done|done|lia|]. by rewrite <- Hr. }
  assert (DR : forall x, Decision (R x)) by (intros x; unfold R; apply _).
  assert (HRs : ~ R s) by (rewrite HR; intros [?|?]; [congruence|done]).
  assert (HRd : R d) by (by left). clearbody R.
  exists (filter (fun x => ~ R x) order ++ filter R order). split.
  - rewrite Hc, <- Ho. apply filter_split_perm.
  - intros a b Ha Hab. rewrite Hc in Ha. apply Hedge in Hab as [Hab|[-> ->]].
    2:{ apply before_across; apply list_elem_of_filter; (split; [done|by rewrite Ho]). }
    pose proof (proj2 Ht a b Ha Hab) as Hb. pose proof (before_elem _ _ _ Hb) as [Hao Hbo].
    destruct (decide (R a)) as [Ra|Ra].
    + assert (Rb : R b) by (apply HR; right; apply HR in Ra as [->|Ra];
        [by apply tc_once|by eapply tc_r]).
      apply before_app_r. by apply before_filter.
    + destruct (decide (R b)) as [Rb|Rb].
      * apply before_across; by apply list_elem_of_filter.
      * apply before_app_l. by apply before_filter.
Qed.

(** ** Connecting *)

(** What adding ([record_feeds]) or removing ([forget_feeds]) a connection
    leaves alone. *)
Record feeds_frame (e e' : engine) : Prop := {
  ff_clients : clients e' = clients e;
  ff_ports : ports e' = ports e;
  ff_conns : conn_store e' = conn_store e;
  ff_store : forall c, is_Some (client_store e !! c) -> is_Some (client_store e' !! c);
  ff_client : forall c, c_id (the_client e' c) = c_id (the_client e c) /\
                        c_type (the_client e' c) = c_type (the_client e c) /\
                        c_ports (the_client e' c) = c_ports (the_client e c)
}.

#[global] Instance feeds_frame_preorder : PreOrder feeds_frame.
Proof.
  split; [done|]. intros e1 e2 e3 [] []. constructor; try (by etrans); [by eauto|].
  intros c. by rewrite (proj1 (ff_client1 c)), (proj1 (proj2 (ff_client1 c))),
    (proj2 (proj2 (ff_client1 c))).
Qed.

Lemma feeds_frame_upd c f e :
  (forall x, c_id (f x) = c_id x /\ c_type (f x) = c_type x /\ c_ports (f x) = c_ports x) ->
  feeds_frame e (upd_client c f e).
Proof.
  intros Hf. constructor; try done.
  - intros d Hd. by apply lookup_alter_is_Some.
  - intros d. by rewrite !(the_client_upd_field e c d f) by (intros; apply Hf).
Qed.

Lemma feeds_fuel_ext fuel e e' a b :
  (forall c, sortfeeds (the_client e' c) = sortfeeds (the_client e c)) ->
  feeds_fuel fuel e' a b = feeds_fuel fuel e a b.
Proof.
  intros H. revert a. induction fuel as [|fuel IH]; intros a; [done|]. cbn. rewrite H.
  case_decide as E; [|done]. clear E.
  induction (sortfeeds (the_client e a)) as [|m l IHl]; [done|]. cbn.
  rewrite IH. destruct (feeds_fuel fuel e m b) as [[]|]; [done| |done]. apply IHl.
Qed.

Definition olist {A} (o : option A) : list A := match o with Some a => [a] | None => [] end.

Lemma record_feeds_spec e s d p q :
  graph_inv e -> s ∈ clients e -> d ∈ clients e ->
  let '(dr, e1) := record_feeds s d e in
  let x := mk_connection p q dr s d in
  feeds_frame e e1 /\
  (forall a, truefeeds (the_client e1 a) = olist (true_target e a x) ++ truefeeds (the_client e a) /\
             sortfeeds (the_client e1 a) = olist (sort_target e a x) ++ sortfeeds (the_client e a) /\
             fedcount (the_client e1 a) = fedcount (the_client e a) + Z.b2z (fed_by e a x)) /\
  feedbackcount e1 = feedbackcount e + Z.b2z (is_feedback x) /\
  (if driver_client e d then dr = 1 else if decide (s = d) then dr = 0 else
     (dr = -1 /\ tc (sort_edge e) d s) \/ (dr = 1 /\ ~ tc (sort_edge e) d s)).
Proof.
  intros H Hs Hd. unfold record_feeds. destruct (is_driver (the_client e d)) eqn:Edr.
  { unfold true_target, sort_target, fed_by, is_edge, driver_client. cbn. rewrite Edr. cbn.
    split_and!; [done| |lia|done]. intros a. split_and!; [done|done|lia]. }
  destruct (decide (s <> d)) as [Hne|Hne].
  2:{ apply dec_stable in Hne. subst d. unfold true_target, sort_target, fed_by, is_edge, driver_client.
      cbn. rewrite Edr. split_and!; [done| |lia|by rewrite decide_True].
      intros a. split_and!; [done|done|lia]. }
  set (e1 := upd_client s _ e). set (e2 := upd_client d _ e1).
  assert (Ss : is_Some (client_store e !! s)) by (by apply H).
  assert (Sd : is_Some (client_store e1 !! d)) by (apply lookup_alter_is_Some; by apply H).
  assert (F2 : feeds_frame e e2) by (transitivity e1; by apply feeds_frame_upd).
  assert (S2 : forall c, sortfeeds (the_client e2 c) = sortfeeds (the_client e c))
    by (intros c; unfold e2, e1; by rewrite !the_client_upd_field by done).
  assert (T2 : forall a, truefeeds (the_client e2 a) =
                 (if decide (s = a) then [d] else []) ++ truefeeds (the_client e a)).
  { intros a. unfold e2. rewrite (the_client_upd_field e1 d a _ truefeeds) by done.
    unfold e1. rewrite the_client_upd by done. case_decide; [by subst|done]. }
  assert (C2 : forall a, fedcount (the_client e2 a) =
                 fedcount (the_client e a) + Z.b2z (bool_decide (d = a))).
  { intros a. unfold e2. rewrite the_client_upd by done. case_decide as E.
    - subst a. rewrite bool_decide_eq_true_2 by done. cbn.
      unfold e1. rewrite (the_client_upd_field e s d _ fedcount) by done. lia.
    - rewrite bool_decide_eq_false_2 by done. unfold e1.
      rewrite (the_client_upd_field e s a _ fedcount) by done. cbn. lia. }
  assert (Ef : jack_client_feeds_transitive e2 d s = jack_client_feeds_transitive e d s).
  { unfold jack_client_feeds_transitive. rewrite (ff_clients e e2 F2).
    by rewrite (feeds_fuel_ext _ e e2). }
  assert (Ed2 : is_driver (the_client e2 d) = false).
  { unfold is_driver. by rewrite (proj1 (proj2 (ff_client e e2 F2 d))). }
  assert (Sd2 : is_Some (client_store e2 !! d)) by (by apply lookup_alter_is_Some).
  assert (Ss2 : is_Some (client_store e2 !! s)) by (by apply (ff_store e e2 F2)).
  assert (Fb : feedbackcount e2 = feedbackcount e) by done.
  clearbody e2. rewrite Ed2, Ef. cbn [andb]. rewrite orb_false_r.
  destruct (feeds_transitive_spec e d s H Hd) as [_ Htc].
  unfold true_target, sort_target, fed_by, is_edge, driver_client.
  destruct (jack_client_feeds_transitive e d s); cbn; rewrite Edr; cbn.
  - split_and!; [| |by rewrite Fb|].
    + transitivity e2; [done|].
      transitivity (upd_client d (fun x => x <| sortfeeds ::= cons s |>) e2); [by apply feeds_frame_upd|done].
    + intros a. change (the_client (?x <| feedbackcount ::= _ |>) a) with (the_client x a).
      split_and!.
      * rewrite (the_client_upd_field e2 d a _ truefeeds) by done. rewrite T2.
        by repeat case_decide; repeat case_bool_decide.
      * rewrite the_client_upd by done. case_decide; [subst a; cbn|]; by rewrite S2.
      * rewrite (the_client_upd_field e2 d a _ fedcount) by done. rewrite C2.
        by repeat case_bool_decide.
    + rewrite decide_False by done. left. split; [done|by apply Htc].
  - split_and!; [| |rewrite <- Fb; cbn; lia|].
    + transitivity e2; [done|]. by apply feeds_frame_upd.
    + intros a. split_and!.
      * rewrite (the_client_upd_field e2 s a _ truefeeds) by done. rewrite T2.
        by repeat case_decide; repeat case_bool_decide.
      * rewrite the_client_upd by done. case_decide; [subst a; cbn|]; by rewrite S2.
      * rewrite (the_client_upd_field e2 s a _ fedcount) by done. rewrite C2.
        by repeat case_bool_decide.
    + rewrite decide_False by done. right. split; [done|]. intros Ht. by apply Htc in Ht.
Qed.

(** What [jack_port_do_connect] has checked when it takes the graph lock. *)
Record connectable (e : engine) (sp dp : port_ptr) (s d : client_ptr) : Prop := {
  cn_source : (sp < length (ports e))%nat;
  cn_destination : (dp < length (ports e))%nat;
  cn_in_use : in_use (the_port e sp) = true;
  cn_dst_used : in_use (the_port e dp) = true;
  cn_output : has_flag (flags (the_port e sp)) JackPortIsOutput = true;
  cn_input : has_flag (flags (the_port e dp)) JackPortIsInput = true;
  cn_srcclient : s ∈ clients e;
  cn_dstclient : d ∈ clients e;
  cn_src_owner : client_id (the_port e sp) = c_id (the_client e s);
  cn_dst_owner : client_id (the_port e dp) = c_id (the_client e d);
  cn_new : forall k x, conn_store e !! k = Some x -> source x = sp -> destination x <> dp
}.

Lemma omap_cons_olist {A B} (f : A -> option B) x (l : list A) :
  omap f (x :: l) = olist (f x) ++ omap f l.
Proof. cbn. by destruct (f x). Qed.

Lemma omap_perm {A B} (f : A -> option B) (l k : list A) : l ≡ₚ k -> omap f l ≡ₚ omap f k.
Proof.
  induction 1 as [|x l k H IH|x y l|l1 l2 l3 H1 IH1 H2 IH2]; cbn; [done| | |by etrans].
  - destruct (f x); by rewrite IH.
  - destruct (f x), (f y); done || by rewrite Permutation_swap.
Qed.

Lemma countb_perm {A} (p : A -> bool) (l k : list A) : l ≡ₚ k -> countb p l = countb p k.
Proof. intros H. unfold countb. by rewrite H. Qed.

(** The connection lists of the ports after a prepend on both. *)
Definition link_ports (k : conn_ptr) (x : connection) (e : engine) : engine :=
  upd_port (source x) (fun p => p <| connections ::= cons k |>)
    (upd_port (destination x) (fun p => p <| connections ::= cons k |>)
       (e <| conn_store ::= <[k := x]> |>)).

Lemma link_ports_port k x e p :
  (source x < length (ports e))%nat -> (destination x < length (ports e))%nat ->
  source x <> destination x ->
  the_port (link_ports k x e) p =
    if decide (source x = p \/ destination x = p)
    then the_port e p <| connections ::= cons k |> else the_port e p.
Proof.
  intros Hs Hd Hne. unfold link_ports. set (e0 := e <| conn_store ::= _ |>).
  assert (E0 : forall q, the_port e0 q = the_port e q) by done.
  assert (L0 : length (ports e0) = length (ports e)) by done. clearbody e0.
  rewrite the_port_upd by (rewrite length_upd_port; lia).
  rewrite !(the_port_upd e0) by lia. rewrite !E0.
  destruct (decide (source x = p)) as [<-|Hsp].
  - rewrite decide_False by done. by rewrite decide_True by (by left).
  - destruct (decide (destination x = p)) as [<-|].
    + by rewrite decide_True by (by right).
    + by rewrite decide_False by (by intros [?|?]).
Qed.

Lemma link_ports_fields k x e p :
  flags (the_port (link_ports k x e) p) = flags (the_port e p) /\
  client_id (the_port (link_ports k x e) p) = client_id (the_port e p) /\
  in_use (the_port (link_ports k x e) p) = in_use (the_port e p).
Proof.
  unfold link_ports. rewrite !(the_port_upd_field _ _ _ _ flags),
    !(the_port_upd_field _ _ _ _ client_id), !(the_port_upd_field _ _ _ _ in_use) by done. done.
Qed.

Lemma conn_list_insert e k x :
  conn_store e !! k = None ->
  (map_to_list (<[k := x]> (conn_store e))).*2 ≡ₚ x :: conn_list e.
Proof. intros H. unfold conn_list. by rewrite map_to_list_insert. Qed.

(** ** Rebuilding the invariant

    Everything but the connections and the feeds stays. *)

Record same_skeleton (e e' : engine) : Prop := {
  sk_clients : clients e' = clients e;
  sk_store : forall c, is_Some (client_store e !! c) -> is_Some (client_store e' !! c);
  sk_client : forall c, c_id (the_client e' c) = c_id (the_client e c) /\
                        c_type (the_client e' c) = c_type (the_client e c) /\
                        c_ports (the_client e' c) = c_ports (the_client e c);
  sk_length : length (ports e') = length (ports e);
  sk_port : forall p, flags (the_port e' p) = flags (the_port e p) /\
                      client_id (the_port e' p) = client_id (the_port e p) /\
                      in_use (the_port e' p) = in_use (the_port e p)
}.

Lemma skeleton_driver e e' c : same_skeleton e e' -> driver_client e' c = driver_client e c.
Proof.
  intros S. unfold driver_client, is_driver. by rewrite (proj1 (proj2 (sk_client e e' S c))).
Qed.

Lemma skeleton_edge e e' x : same_skeleton e e' -> is_edge e' x = is_edge e x.
Proof. intros S. unfold is_edge. by rewrite (skeleton_driver e e'). Qed.

Lemma skeleton_conn_ok e e' x : same_skeleton e e' -> conn_ok e x -> conn_ok e' x.
Proof.
  intros S C. destruct C. constructor; rewrite ?(sk_length e e' S), ?(sk_clients e e' S);
    rewrite ?(proj1 (sk_port e e' S _)), ?(proj1 (proj2 (sk_port e e' S _))),
      ?(proj2 (proj2 (sk_port e e' S _))),
      ?(proj1 (sk_client e e' S _)), ?(proj2 (proj2 (sk_client e e' S _))),
      ?(skeleton_driver e e' _ S); done.
Qed.

(** The connection list of a port agrees with the store. *)
Definition lists_ok (e : engine) : Prop :=
  forall p, (p < length (ports e))%nat ->
    NoDup (connections (the_port e p)) /\
    forall k, k ∈ connections (the_port e p) <->
      exists x, conn_store e !! k = Some x /\ (source x = p \/ destination x = p).

(** The feeds lists and counters agree with a list of connections. *)
Record feeds_ok (e : engine) (l : list connection) : Prop := {
  fo_true : forall a, a ∈ clients e -> truefeeds (the_client e a) ≡ₚ omap (true_target e a) l;
  fo_sort : forall a, a ∈ clients e -> sortfeeds (the_client e a) ≡ₚ omap (sort_target e a) l;
  fo_fed : forall b, b ∈ clients e ->
    if driver_client e b then fedcount (the_client e b) <= 0
    else fedcount (the_client e b) = countb (fed_by e b) l;
  fo_feedback : feedbackcount e = countb is_feedback l
}.

Lemma feeds_ok_perm e l l' : l ≡ₚ l' -> feeds_ok e l -> feeds_ok e l'.
Proof.
  intros P [A B C D]. constructor.
  - intros a Ha. rewrite A by done. by apply omap_perm.
  - intros a Ha. rewrite B by done. by apply omap_perm.
  - intros b Hb. specialize (C b Hb). destruct (driver_client e b); [done|].
    rewrite C. by apply countb_perm.
  - rewrite D. by apply countb_perm.
Qed.

Lemma graph_feeds_ok e : graph_inv e -> feeds_ok e (conn_list e).
Proof. intros []. by constructor. Qed.

(** The ends determine the connection. *)
Definition unique_ends (m : gmap nat connection) : Prop :=
  forall k k' x x', m !! k = Some x -> m !! k' = Some x' ->
    source x = source x' -> destination x = destination x' -> k = k'.

Lemma graph_inv_rebuild e e' :
  graph_inv e -> same_skeleton e e' ->
  (forall k x, conn_store e' !! k = Some x -> conn_ok e x) -> unique_ends (conn_store e') ->
  lists_ok e' -> feeds_ok e' (conn_list e') -> (exists order, topological e' order) ->
  graph_inv e'.
Proof.
  intros H S Hc Hu Hl Hf Ho. constructor; try apply Hf; try done.
  - rewrite (sk_clients e e' S). apply H.
  - intros c Hin. rewrite (sk_clients e e' S) in Hin. by apply S, H.
  - intros c d. rewrite (sk_clients e e' S), !(proj1 (sk_client e e' S _)). apply H.
  - intros k x Hk. apply (skeleton_conn_ok e); [done|by eapply Hc].
  - intros p. rewrite (proj1 (sk_port e e' S p)). apply H.
  - intros c p. rewrite (sk_clients e e' S), (proj2 (proj2 (sk_port e e' S p))),
      (proj1 (proj2 (sk_port e e' S p))), (proj1 (sk_client e e' S c)),
      (proj2 (proj2 (sk_client e e' S c))). apply H.
Qed.

(** Adding one connection to the feeds. *)
Lemma feeds_ok_add e e' x l :
  same_skeleton e e' -> feeds_ok e l ->
  (forall a, truefeeds (the_client e' a) = olist (true_target e a x) ++ truefeeds (the_client e a) /\
             sortfeeds (the_client e' a) = olist (sort_target e a x) ++ sortfeeds (the_client e a) /\
             fedcount (the_client e' a) = fedcount (the_client e a) + Z.b2z (fed_by e a x)) ->
  feedbackcount e' = feedbackcount e + Z.b2z (is_feedback x) ->
  feeds_ok e' (x :: l).
Proof.
  intros S [A B C D] Hf Hb.
  assert (Et : forall a y, true_target e' a y = true_target e a y)
    by (intros; unfold true_target; by rewrite (skeleton_edge e e')).
  assert (Es : forall a y, sort_target e' a y = sort_target e a y)
    by (intros; unfold sort_target; by rewrite (skeleton_edge e e')).
  assert (Ef : forall a y, fed_by e' a y = fed_by e a y)
    by (intros; unfold fed_by; by rewrite (skeleton_edge e e')).
  constructor; rewrite ?(sk_clients e e' S).
  - intros a Ha. rewrite (proj1 (Hf a)), omap_cons_olist, Et, A by done.
    apply reflexive_eq. f_equal. by apply omap_pointwise.
  - intros a Ha. rewrite (proj1 (proj2 (Hf a))), omap_cons_olist, Es, B by done.
    apply reflexive_eq. f_equal. by apply omap_pointwise.
  - intros b Hin. rewrite (skeleton_driver e e') by done. specialize (C b Hin).
    rewrite (proj2 (proj2 (Hf b))). destruct (driver_client e b) eqn:Ed.
    + unfold fed_by, is_edge. case_bool_decide as E; [rewrite E, Ed|];
        rewrite ?andb_false_r; cbn; lia.
    + rewrite countb_cons, Ef, C, (countb_ext (fed_by e' b) (fed_by e b)) by (intros; apply Ef). lia.
  - rewrite Hb, countb_cons, D. lia.
Qed.

Lemma lists_ok_add e k x :
  lists_ok e -> conn_store e !! k = None ->
  (source x < length (ports e))%nat -> (destination x < length (ports e))%nat ->
  source x <> destination x -> lists_ok (link_ports k x e).
Proof.
  intros H Hk Hs Hd Hne p Hp. unfold link_ports in Hp. rewrite !length_upd_port in Hp. cbn in Hp.
  destruct (H p Hp) as [Hnd Hin]. rewrite link_ports_port by done.
  assert (Hkp : k ∉ connections (the_port e p))
    by (intros Hkin; apply Hin in Hkin as (y & Hy & _); congruence).
  change (conn_store (link_ports k x e)) with (<[k := x]> (conn_store e)).
  destruct (decide (source x = p \/ destination x = p)) as [Hxp|Hxp]; cbn [connections].
  - split; [by constructor|]. intros k'. cbn. rewrite elem_of_cons, Hin. split.
    + intros [->|(y & Hy & Hyp)]; [exists x; by rewrite lookup_insert_eq|].
      exists y. rewrite lookup_insert_ne by congruence. done.
    + intros (y & Hy & Hyp). destruct (decide (k' = k)) as [->|Hkk]; [by left|].
      right. exists y. by rewrite lookup_insert_ne in Hy by done.
  - split; [done|]. intros k'. rewrite Hin. split.
    + intros (y & Hy & Hyp). exists y. rewrite lookup_insert_ne by congruence. done.
    + intros (y & Hy & Hyp). destruct (decide (k' = k)) as [->|Hkk].
      * rewrite lookup_insert_eq in Hy. by injection Hy as ->.
      * exists y. by rewrite lookup_insert_ne in Hy by done.
Qed.

Lemma feeds_frame_skeleton e e1 k x :
  feeds_frame e e1 -> same_skeleton e (link_ports k x e1).
Proof.
  intros [Fc Fp Fcs Fs Ff]. constructor; try done.
  - unfold link_ports. rewrite !length_upd_port. cbn. by rewrite Fp.
  - intros p. rewrite (proj1 (link_ports_fields k x e1 p)),
      (proj1 (proj2 (link_ports_fields k x e1 p))), (proj2 (proj2 (link_ports_fields k x e1 p))).
    unfold the_port. by rewrite Fp.
Qed.

(** The new connection may add one edge, which [record_feeds] has oriented. *)
Lemma topological_add e e' x :
  graph_inv e -> clients e' = clients e -> srcclient x ∈ clients e -> dstclient x ∈ clients e ->
  (forall a, sortfeeds (the_client e' a) = olist (sort_target e a x) ++ sortfeeds (the_client e a)) ->
  (if driver_client e (dstclient x) then dir x = 1
   else if decide (srcclient x = dstclient x) then dir x = 0 else
     (dir x = -1 /\ tc (sort_edge e) (dstclient x) (srcclient x)) \/
     (dir x = 1 /\ ~ tc (sort_edge e) (dstclient x) (srcclient x))) ->
  exists order, topological e' order.
Proof.
  intros H Hc Hs Hd Hf Hdir. destruct (gi_order e H) as [order Ho].
  assert (Hkeep : (forall a b, a ∈ clients e -> sort_edge e' a b -> sort_edge e a b \/ before order a b) ->
                  exists order, topological e' order).
  { intros Hk. exists order. split; [by rewrite Hc; apply Ho|]. intros a b Ha Hab. rewrite Hc in Ha.
    destruct (Hk a b Ha Hab); [by apply Ho|done]. }
  assert (Hedge : forall a b, sort_edge e' a b -> sort_edge e a b \/ sort_target e a x = Some b).
  { intros a b. unfold sort_edge. rewrite Hf. intros Hin. apply elem_of_app in Hin as [Hin|Hin]; [|by left].
    right. destruct (sort_target e a x); cbn in Hin; set_solver. }
  unfold sort_target, is_edge in Hedge. destruct (driver_client e (dstclient x)).
  { rewrite andb_false_r in Hedge. apply Hkeep. intros a b Ha Hab.
    by destruct (Hedge a b Hab); [left|]. }
  destruct (decide (srcclient x = dstclient x)) as [|Hne].
  { rewrite Hdir in Hedge. apply Hkeep. intros a b Ha Hab. by destruct (Hedge a b Hab); [left|]. }
  destruct Hdir as [[Hdir Ht]|[Hdir Ht]]; rewrite Hdir in Hedge; cbn in Hedge.
  - apply Hkeep. intros a b Ha Hab. destruct (Hedge a b Hab) as [?|E]; [by left|]. right.
    case_decide; [|done]. simplify_eq. apply (topological_tc e); [done|apply H|done|done].
  - apply (topological_insert e e' order (srcclient x) (dstclient x)); try done; [apply H|by rewrite Hc|].
    intros a b Hab. destruct (Hedge a b Hab) as [?|E]; [by left|]. right.
    case_decide; [|done]. by simplify_eq.
Qed.

(** Drivers are never fed, as far as the sort is concerned. *)
Lemma sort_target_driver e a b x :
  conn_ok e x -> sort_target e a x = Some b -> driver_client e b = false.
Proof.
  intros C. unfold sort_target, is_edge. pose proof (co_dir e x C) as Hd.
  destruct (driver_client e (dstclient x)) eqn:Ed; [by rewrite andb_false_r|].
  destruct (decide (srcclient x = dstclient x)); [by rewrite Hd|].
  destruct Hd as [Hd|Hd]; rewrite Hd; cbn; case_decide; intros E; simplify_eq; [done|].
  by apply (co_feedback e x C).
Qed.

Lemma conn_list_ok e x : graph_inv e -> x ∈ conn_list e -> conn_ok e x.
Proof.
  intros H Hx. unfold conn_list in Hx. apply list_elem_of_fmap in Hx as ([k y] & -> & Hy).
  apply elem_of_map_to_list in Hy. by eapply H.
Qed.

Lemma sort_edge_driver e a b :
  graph_inv e -> a ∈ clients e -> sort_edge e a b -> driver_client e b = false /\ b ∈ clients e.
Proof.
  intros H Ha Hab. split.
  - unfold sort_edge in Hab. rewrite (gi_sortfeeds e H a Ha) in Hab.
    apply list_elem_of_omap in Hab as (x & Hx & E). eapply sort_target_driver; [|exact E].
    by apply conn_list_ok.
  - destruct (gi_order e H) as (o & Ho & Hb). rewrite <- Ho. by eapply before_elem, Hb.
Qed.

Lemma sort_tc_driver e a b :
  graph_inv e -> a ∈ clients e -> tc (sort_edge e) a b -> driver_client e b = false.
Proof.
  intros H Ha Ht. induction Ht as [a b Hab|a m b Ham _ IH].
  - by apply (sort_edge_driver e a b H Ha).
  - apply IH. by apply (sort_edge_driver e a m H Ha).
Qed.

Lemma add_connection_inv sp dp s d e :
  graph_inv e -> connectable e sp dp s d -> graph_inv (add_connection sp dp s d e).
Proof.
  intros H C. unfold add_connection.
  pose proof (record_feeds_spec e s d sp dp H (cn_srcclient _ _ _ _ _ C) (cn_dstclient _ _ _ _ _ C)) as R.
  destruct (record_feeds s d e) as [dr e1]. cbn zeta in R.
  set (x := mk_connection sp dp dr s d) in *. destruct R as (F & Fd & Fb & Fr).
  set (k := fresh (dom (conn_store e1))).
  change (upd_port sp _ _) with (link_ports k x e1).
  assert (Hk : conn_store e1 !! k = None) by (apply not_elem_of_dom, is_fresh). clearbody k.
  assert (Hne : sp <> dp).
  { intros ->. pose proof (gi_flags e H dp (cn_input _ _ _ _ _ C)) as E.
    by rewrite (cn_output _ _ _ _ _ C) in E. }
  pose proof (feeds_frame_skeleton e e1 k x F) as S. destruct F as [Fc Fp Fcs Fs Ff].
  assert (Hok : conn_ok e x).
  { destruct C. constructor; try done; [by apply H|..]; cbn;
      destruct (driver_client e d); try done; try (intros ->; done);
      destruct (decide (s = d)); try done; try (intros ->; done);
      destruct Fr as [[-> Ht]|[-> _]]; auto; try done.
    intros _. by apply (sort_tc_driver e d). }
  apply (graph_inv_rebuild e); [done|done|..].
  - intros k' y Hy. change (conn_store (link_ports k x e1)) with (<[k := x]> (conn_store e1)) in Hy.
    rewrite Fcs in Hy. apply lookup_insert_Some in Hy as [[_ <-]|[_ Hy]]; [done|by eapply H].
  - change (conn_store (link_ports k x e1)) with (<[k := x]> (conn_store e1)). rewrite Fcs.
    intros k1 k2 x1 x2 [[<- <-]|[_ Hx1]]%lookup_insert_Some [[<- <-]|[_ Hx2]]%lookup_insert_Some Es Ed;
      [done| | |by eapply (gi_unique e H)].
    + by destruct (cn_new _ _ _ _ _ C k2 x2 Hx2).
    + by destruct (cn_new _ _ _ _ _ C k1 x1 Hx1).
  - apply lists_ok_add; [|done|rewrite Fp; apply C..|done].
    intros p Hp. unfold the_port. rewrite Fp, Fcs in *. by apply H.
  - apply (feeds_ok_perm _ (x :: conn_list e)).
    { symmetry. change (conn_list (link_ports k x e1)) with ((map_to_list (<[k := x]> (conn_store e1))).*2).
      rewrite Fcs in *. by apply conn_list_insert. }
    by apply (feeds_ok_add e); [|apply graph_feeds_ok|..].
  - apply (topological_add e _ x); try done; [apply C..|]. intros a. apply Fd.
Qed.

(** ** Disconnecting *)

Lemma forget_feeds_spec e dr s d :
  is_Some (client_store e !! s) -> is_Some (client_store e !! d) ->
  let e1 := forget_feeds dr s d e in
  feeds_frame e e1 /\
  (forall a, truefeeds (the_client e1 a) =
     (if decide (dr <> 0 /\ s = a) then slist_remove d (truefeeds (the_client e a))
      else truefeeds (the_client e a)) /\
   sortfeeds (the_client e1 a) =
     (if decide (dr = 1 /\ s = a) then slist_remove d (sortfeeds (the_client e a))
      else if decide (dr <> 0 /\ dr <> 1 /\ d = a) then slist_remove s (sortfeeds (the_client e a))
      else sortfeeds (the_client e a)) /\
   fedcount (the_client e1 a) =
     fedcount (the_client e a) - Z.b2z (bool_decide (dr <> 0 /\ d = a))) /\
  feedbackcount e1 = feedbackcount e - Z.b2z (bool_decide (dr <> 0 /\ dr <> 1)).
Proof.
  intros Hs Hd. cbn zeta. unfold forget_feeds. destruct (Z.eqb_spec dr 0) as [->|H0].
  { split_and!; [done| |rewrite bool_decide_eq_false_2 by naive_solver; cbn; lia].
    intros a. rewrite !decide_False by naive_solver. rewrite bool_decide_eq_false_2 by naive_solver.
    split_and!; [done|done|cbn; lia]. }
  set (e1 := upd_client s _ e). set (e2 := upd_client d _ e1).
  assert (Sd1 : is_Some (client_store e1 !! d)) by (by apply lookup_alter_is_Some).
  assert (F2 : feeds_frame e e2) by (transitivity e1; by apply feeds_frame_upd).
  assert (T2 : forall a, truefeeds (the_client e2 a) =
     if decide (s = a) then slist_remove d (truefeeds (the_client e a)) else truefeeds (the_client e a)).
  { intros a. unfold e2. rewrite (the_client_upd_field e1 d a _ truefeeds) by done.
    unfold e1. rewrite the_client_upd by done. destruct (decide (s = a)); [by subst|done]. }
  assert (S2 : forall a, sortfeeds (the_client e2 a) = sortfeeds (the_client e a))
    by (intros a; unfold e2, e1; by rewrite !the_client_upd_field by done).
  assert (C2 : forall a, fedcount (the_client e2 a) = fedcount (the_client e a) - Z.b2z (bool_decide (d = a))).
  { intros a. unfold e2. rewrite the_client_upd by done. destruct (decide (d = a)) as [<-|].
    - rewrite bool_decide_eq_true_2 by done. cbn. unfold e1.
      rewrite (the_client_upd_field e s d _ fedcount) by done. lia.
    - rewrite bool_decide_eq_false_2 by done. unfold e1.
      rewrite (the_client_upd_field e s a _ fedcount) by done. cbn. lia. }
  assert (Ss2 : is_Some (client_store e2 !! s)) by (by apply F2).
  assert (Sd2 : is_Some (client_store e2 !! d)) by (by apply F2).
  assert (Fb : feedbackcount e2 = feedbackcount e) by done. clearbody e2.
  assert (Ht : forall a, truefeeds (the_client e2 a) =
     if decide (dr <> 0 /\ s = a) then slist_remove d (truefeeds (the_client e a))
     else truefeeds (the_client e a)).
  { intros a. rewrite T2. destruct (decide (s = a)); [by rewrite decide_True|].
    by rewrite decide_False by naive_solver. }
  assert (Hc : forall a, fedcount (the_client e2 a) =
     fedcount (the_client e a) - Z.b2z (bool_decide (dr <> 0 /\ d = a))).
  { intros a. rewrite C2. do 2 f_equal. apply bool_decide_ext. naive_solver. }
  destruct (Z.eqb_spec dr 1) as [->|H1].
  - split_and!; [transitivity e2; [done|by apply feeds_frame_upd]| |].
    + intros a. rewrite (the_client_upd_field e2 s a _ truefeeds),
        (the_client_upd_field e2 s a _ fedcount) by done. split_and!; [apply Ht| |apply Hc].
      rewrite the_client_upd by done. destruct (decide (s = a)) as [<-|].
      * rewrite decide_True by done. cbn. by rewrite S2.
      * rewrite !decide_False by naive_solver. apply S2.
    + rewrite bool_decide_eq_false_2 by naive_solver. cbn. lia.
  - change (the_client (?x <| feedbackcount ::= Z.pred |>)) with (the_client x).
    split_and!; [transitivity e2; [done|];
      by destruct (feeds_frame_upd d (fun x => x <| sortfeeds ::= slist_remove s |>) e2); [|constructor]| |].
    + intros a. rewrite (the_client_upd_field e2 d a _ truefeeds),
        (the_client_upd_field e2 d a _ fedcount) by done. split_and!; [apply Ht| |apply Hc].
      rewrite the_client_upd by done. rewrite (decide_False (P := dr = 1 /\ s = a)) by naive_solver.
      destruct (decide (d = a)) as [<-|].
      * rewrite decide_True by done. cbn. by rewrite S2.
      * rewrite decide_False by naive_solver. apply S2.
    + rewrite bool_decide_eq_true_2 by done. cbn. lia.
Qed.

Lemma slist_remove_cancel (d : client_ptr) l k : l ≡ₚ d :: k -> slist_remove d l ≡ₚ k.
Proof.
  intros P. apply (Permutation_cons_inv (a := d)). rewrite <- P. symmetry.
  apply slist_remove_perm. rewrite P. left.
Qed.

(** Removing one connection from the feeds: each list loses exactly the entry
    the connection stood for. *)
Lemma remove_true_target e a x l k :
  k ≡ₚ omap (true_target e a) (x :: l) ->
  (if decide (dir x <> 0 /\ srcclient x = a) then slist_remove (dstclient x) k else k) ≡ₚ
  omap (true_target e a) l.
Proof.
  intros A. rewrite omap_cons_olist in A. unfold true_target at 1, is_edge in A.
  destruct (decide (dir x <> 0 /\ srcclient x = a)) as [[Hd <-]|Hn].
  - rewrite bool_decide_eq_true_2 in A by done. rewrite (proj2 (Z.eqb_neq _ _) Hd) in A.
    destruct (driver_client e (dstclient x)) eqn:Ed; cbn in A; [|by apply slist_remove_cancel].
    rewrite slist_remove_notin; [done|]. rewrite A. intros (y & Hy & E)%list_elem_of_omap.
    unfold true_target, is_edge in E. destruct (negb (dir y =? 0)); [|done].
    destruct (driver_client e (dstclient y)) eqn:Ey; [done|]. cbn in E. case_bool_decide; [|done].
    congruence.
  - rewrite A. destruct (Z.eqb_spec (dir x) 0); [done|]. rewrite bool_decide_eq_false_2 by naive_solver.
    by rewrite andb_false_r.
Qed.

Lemma remove_sort_target e a x l k :
  Forall (conn_ok e) (x :: l) -> k ≡ₚ omap (sort_target e a) (x :: l) ->
  (if decide (dir x = 1 /\ srcclient x = a) then slist_remove (dstclient x) k
   else if decide (dir x <> 0 /\ dir x <> 1 /\ dstclient x = a) then slist_remove (srcclient x) k
   else k) ≡ₚ omap (sort_target e a) l.
Proof.
  intros [Cx Cl]%Forall_cons B. pose proof (co_dir e x Cx) as Hdir.
  rewrite omap_cons_olist in B. unfold sort_target at 1, is_edge in B.
  assert (Hndr : forall b, driver_client e b = true -> b ∉ omap (sort_target e a) l).
  { intros b Hdr (y & Hy & E)%list_elem_of_omap. rewrite Forall_forall in Cl.
    pose proof (sort_target_driver e a b y (Cl y Hy) E). congruence. }
  destruct (driver_client e (dstclient x)) eqn:Ed.
  - rewrite andb_false_r in B. cbn in B. rewrite Hdir.
    destruct (decide (1 = 1 /\ srcclient x = a)).
    + rewrite slist_remove_notin; [done|]. rewrite B. by apply Hndr.
    + by rewrite decide_False by naive_solver.
  - destruct (decide (srcclient x = dstclient x)); [rewrite Hdir in *; cbn in B|].
    { by rewrite !decide_False by naive_solver. }
    destruct Hdir as [Hdir|Hdir]; rewrite Hdir in *; cbn in B.
    + destruct (decide (srcclient x = a)).
      * rewrite decide_True by done. by apply slist_remove_cancel.
      * by rewrite !decide_False by naive_solver.
    + rewrite decide_False by naive_solver. destruct (decide (dstclient x = a)).
      * rewrite decide_True by done. by apply slist_remove_cancel.
      * by rewrite decide_False by naive_solver.
Qed.

Lemma remove_fed_by e b x :
  driver_client e b = false ->
  Z.b2z (bool_decide (dir x <> 0 /\ dstclient x = b)) = Z.b2z (fed_by e b x).
Proof.
  intros Eb. unfold fed_by, is_edge. case_bool_decide as E1; case_bool_decide as E2; try naive_solver.
  - subst b. by rewrite Eb, (proj2 (Z.eqb_neq _ _) (proj1 E1)).
  - destruct (Z.eqb_spec (dir x) 0); [done|naive_solver].
  - by rewrite andb_false_r.
Qed.

Lemma conn_ok_dir e x : conn_ok e x -> dir x = 1 \/ dir x = 0 \/ dir x = -1.
Proof.
  intros C. pose proof (co_dir e x C) as Hd. destruct (driver_client _ _); [by left|].
  destruct (decide _); [by right; left|naive_solver].
Qed.

Lemma feeds_ok_remove e e' x l :
  same_skeleton e e' -> feeds_ok e (x :: l) -> Forall (conn_ok e) (x :: l) ->
  (forall a, truefeeds (the_client e' a) =
     (if decide (dir x <> 0 /\ srcclient x = a)
      then slist_remove (dstclient x) (truefeeds (the_client e a))
      else truefeeds (the_client e a)) /\
   sortfeeds (the_client e' a) =
     (if decide (dir x = 1 /\ srcclient x = a)
      then slist_remove (dstclient x) (sortfeeds (the_client e a))
      else if decide (dir x <> 0 /\ dir x <> 1 /\ dstclient x = a)
           then slist_remove (srcclient x) (sortfeeds (the_client e a))
           else sortfeeds (the_client e a)) /\
   fedcount (the_client e' a) =
     fedcount (the_client e a) - Z.b2z (bool_decide (dir x <> 0 /\ dstclient x = a))) ->
  feedbackcount e' = feedbackcount e - Z.b2z (bool_decide (dir x <> 0 /\ dir x <> 1)) ->
  feeds_ok e' l.
Proof.
  intros S [A B C D] Hok Hf Hb.
  constructor; rewrite ?(sk_clients e e' S).
  - intros a Ha. rewrite (proj1 (Hf a)), (remove_true_target e a x l) by (by apply A).
    apply reflexive_eq, omap_pointwise. intros. unfold true_target. by rewrite (skeleton_edge e e').
  - intros a Ha. rewrite (proj1 (proj2 (Hf a))), (remove_sort_target e a x l) by (done || by apply B).
    apply reflexive_eq, omap_pointwise. intros. unfold sort_target. by rewrite (skeleton_edge e e').
  - intros b Hin. rewrite (skeleton_driver e e') by done. specialize (C b Hin).
    rewrite (proj2 (proj2 (Hf b))). destruct (driver_client e b) eqn:Edb.
    + destruct (bool_decide (dir x <> 0 /\ dstclient x = b)); cbn; lia.
    + rewrite countb_cons in C. rewrite C, (countb_ext (fed_by e' b) (fed_by e b)), (remove_fed_by e)
        by (done || intros; unfold fed_by; by rewrite (skeleton_edge e e')). lia.
  - rewrite Hb. rewrite countb_cons in D. rewrite D. unfold is_feedback.
    apply Forall_cons in Hok as [Cx _]. destruct (conn_ok_dir e x Cx) as [->|[->| ->]];
      [rewrite bool_decide_eq_false_2 by naive_solver|rewrite bool_decide_eq_false_2 by naive_solver|
       rewrite bool_decide_eq_true_2 by done]; cbn; lia.
Qed.

(** The port lists after the connection is taken out of both. *)
Lemma lists_ok_remove e e' k x :
  lists_ok e -> conn_store e !! k = Some x -> length (ports e') = length (ports e) ->
  conn_store e' = delete k (conn_store e) ->
  (forall p, connections (the_port e' p) =
     if decide (source x = p \/ destination x = p) then slist_remove k (connections (the_port e p))
     else connections (the_port e p)) ->
  lists_ok e'.
Proof.
  intros H Hk Hl Hc Hp p Hlt. rewrite Hl in Hlt. destruct (H p Hlt) as [Hnd Hin].
  rewrite Hp, Hc. destruct (decide (source x = p \/ destination x = p)) as [Hxp|Hxp].
  - assert (P : connections (the_port e p) ≡ₚ k :: slist_remove k (connections (the_port e p)))
      by (apply slist_remove_perm, Hin; eauto).
    rewrite P in Hnd. apply NoDup_cons in Hnd as [Hnk Hnd]. split; [done|].
    intros k'. split.
    + intros Hk'. assert (Hne : k' <> k) by (by intros ->).
      apply slist_remove_elem, Hin in Hk' as (y & Hy & Hyp). exists y.
      by rewrite lookup_delete_ne.
    + intros (y & Hy & Hyp). apply lookup_delete_Some in Hy as [Hne Hy].
      assert (Hk' : k' ∈ connections (the_port e p)) by (apply Hin; eauto).
      rewrite P in Hk'. apply elem_of_cons in Hk' as [->|?]; done.
  - split; [done|]. intros k'. rewrite Hin. split.
    + intros (y & Hy & Hyp). exists y. split; [|done]. apply lookup_delete_Some.
      split; [|done]. intros ->. congruence.
    + intros (y & Hy & Hyp). apply lookup_delete_Some in Hy as [Hne Hy]. eauto.
Qed.

Lemma conn_list_delete e k x :
  conn_store e !! k = Some x ->
  conn_list e ≡ₚ x :: (map_to_list (delete k (conn_store e))).*2.
Proof. intros H. unfold conn_list. by rewrite <- (map_to_list_delete _ k x H). Qed.

(** An operation that only loses edges keeps the order. *)
Lemma topological_shrink e e' order :
  topological e order -> clients e' = clients e ->
  (forall a b, sort_edge e' a b -> sort_edge e a b) -> topological e' order.
Proof.
  intros [Ho Hb] Hc He. split; [by rewrite Hc|]. intros a b Ha Hab. rewrite Hc in Ha.
  apply Hb; [done|]. by apply He.
Qed.

(** The feeds and the store after the connection is forgotten, given an engine
    [e4] in which the port lists have lost it already. *)
Lemma forget_connection_inv e e4 k x :
  graph_inv e -> conn_store e !! k = Some x ->
  clients e4 = clients e -> conn_store e4 = conn_store e -> feedbackcount e4 = feedbackcount e ->
  (forall c, is_Some (client_store e !! c) -> is_Some (client_store e4 !! c)) ->
  (forall c, cview (the_client e4 c) = cview (the_client e c)) ->
  length (ports e4) = length (ports e) ->
  (forall p, pview (the_port e4 p) =
     (client_id (the_port e p), flags (the_port e p),
      (if decide (source x = p \/ destination x = p) then slist_remove k (connections (the_port e p))
       else connections (the_port e p)), in_use (the_port e p))) ->
  graph_inv (forget_feeds (dir x) (srcclient x) (dstclient x) e4 <| conn_store ::= delete k |>).
Proof.
  intros H Hk E1 E2 E3 E4 E5 E6 E7. pose proof (gi_conns e H k x Hk) as Cx.
  assert (Hss : is_Some (client_store e4 !! srcclient x)) by (apply E4, H, Cx).
  assert (Hsd : is_Some (client_store e4 !! dstclient x)) by (apply E4, H, Cx).
  destruct (forget_feeds_spec e4 (dir x) (srcclient x) (dstclient x) Hss Hsd) as (F & Ff & Fb).
  set (e5 := forget_feeds _ _ _ e4) in *. clearbody e5.
  set (e6 := e5 <| conn_store ::= delete k |>).
  assert (Hv : forall c, c_id (the_client e4 c) = c_id (the_client e c) /\
    c_type (the_client e4 c) = c_type (the_client e c) /\ c_ports (the_client e4 c) = c_ports (the_client e c) /\
    truefeeds (the_client e4 c) = truefeeds (the_client e c) /\
    sortfeeds (the_client e4 c) = sortfeeds (the_client e c) /\
    fedcount (the_client e4 c) = fedcount (the_client e c)).
  { intros c. pose proof (E5 c) as E. unfold cview in E. by injection E as -> -> -> -> -> ->. }
  destruct F as [Fc Fp Fcs Fs Ffc].
  assert (Hpv : forall p, pview (the_port e6 p) = pview (the_port e4 p))
    by (intros p; unfold the_port; cbn; by rewrite Fp).
  assert (S : same_skeleton e e6).
  { constructor.
    - cbn. by rewrite Fc.
    - intros c Hc. cbn. by apply Fs, E4.
    - intros c. change (the_client e6 c) with (the_client e5 c).
      destruct (Ffc c) as (-> & -> & ->), (Hv c) as (-> & -> & -> & _). done.
    - cbn. by rewrite Fp.
    - intros p. pose proof (Hpv p) as Hp. rewrite (E7 p) in Hp. unfold pview in Hp.
      by injection Hp as -> -> _ ->. }
  assert (Hff : forall a, truefeeds (the_client e6 a) = truefeeds (the_client e5 a) /\
     sortfeeds (the_client e6 a) = sortfeeds (the_client e5 a) /\
     fedcount (the_client e6 a) = fedcount (the_client e5 a)) by done.
  assert (Hd : conn_store e6 = delete k (conn_store e)) by (cbn; by rewrite Fcs, E2).
  apply (graph_inv_rebuild e); [done|done|..].
  - intros k' y Hy. rewrite Hd in Hy. apply lookup_delete_Some in Hy as [_ Hy]. by eapply H.
  - rewrite Hd. intros k1 k2 x1 x2 [_ Hx1]%lookup_delete_Some [_ Hx2]%lookup_delete_Some.
    by eapply (gi_unique e H).
  - apply (lists_ok_remove e e6 k x); [exact (gi_lists e H)|done|apply S|done|].
    intros p. pose proof (Hpv p) as Hp. rewrite (E7 p) in Hp. unfold pview in Hp. by injection Hp.
  - unfold conn_list. rewrite Hd.
    apply (feeds_ok_remove e e6 x _ S).
    + eapply feeds_ok_perm; [apply (conn_list_delete e k x Hk)|]. by apply graph_feeds_ok.
    + apply Forall_forall. intros y Hy. rewrite <- (conn_list_delete e k x Hk) in Hy.
      by apply conn_list_ok.
    + intros a. destruct (Hff a) as (-> & -> & ->), (Ff a) as (-> & -> & ->).
      destruct (Hv a) as (_ & _ & _ & -> & -> & ->). done.
    + change (feedbackcount e6) with (feedbackcount e5). rewrite Fb, E3. done.
  - destruct (gi_order e H) as [order Ho]. exists order. apply (topological_shrink e); [done|apply S|].
    intros a b. unfold sort_edge. rewrite (proj1 (proj2 (Hff a))), (proj1 (proj2 (Ff a))).
    destruct (Hv a) as (_ & _ & _ & _ & -> & _).
    destruct (decide (dir x = 1 /\ srcclient x = a)); [apply slist_remove_elem|].
    destruct (decide (dir x <> 0 /\ dir x <> 1 /\ dstclient x = a)); [apply slist_remove_elem|done].
Qed.

Lemma unlink_ports_spec e k sp dp :
  (sp < length (ports e))%nat -> (dp < length (ports e))%nat -> sp <> dp ->
  let e3 := unlink_ports sp dp k e in
  (clients e3 = clients e /\ client_store e3 = client_store e /\ conn_store e3 = conn_store e /\
   feedbackcount e3 = feedbackcount e) /\
  length (ports e3) = length (ports e) /\
  forall p, pview (the_port e3 p) =
     (client_id (the_port e p), flags (the_port e p),
      (if decide (sp = p \/ dp = p) then slist_remove k (connections (the_port e p))
       else connections (the_port e p)), in_use (the_port e p)).
Proof.
  intros Hs Hd Hne. cbn zeta. unfold unlink_ports.
  set (e1 := upd_port sp _ e). set (e2 := upd_port dp _ e1).
  assert (P2 : forall p, the_port e2 p = if decide (sp = p \/ dp = p)
     then the_port e p <| connections ::= slist_remove k |> else the_port e p).
  { intros p. unfold e2. rewrite the_port_upd by (unfold e1; by rewrite length_upd_port).
    unfold e1. rewrite !the_port_upd by done.
    destruct (decide (dp = p)) as [<-|Hsp].
    - rewrite decide_False by done. by rewrite decide_True by (by right).
    - destruct (decide (sp = p)) as [<-|].
      + by rewrite decide_True by (by left).
      + by rewrite decide_False by (by intros [?|?]). }
  assert (L2 : length (ports e2) = length (ports e)) by (unfold e2, e1; by rewrite !length_upd_port).
  split_and!; try (by destruct (decide _)); [destruct (decide _); by rewrite ?length_upd_port|].
  intros p. transitivity (pview (the_port e2 p)).
  - destruct (decide (connections (the_port e2 sp) = [])); [|done].
    unfold pview. by rewrite !(the_port_upd_field e2 sp p) by done.
  - rewrite P2. by destruct (decide (sp = p \/ dp = p)).
Qed.

Section io.
Context (env : environment).

Lemma disconnect_found_inv e k x :
  graph_inv e -> conn_store e !! k = Some x ->
  graph_inv (disconnect_found env (source x) (destination x) k e) /\
  conn_store (disconnect_found env (source x) (destination x) k e) = delete k (conn_store e).
Proof.
  intros H Hk. pose proof (gi_conns e H k x Hk) as Cx. unfold disconnect_found.
  assert (Hx : the_conn e k = x) by (unfold the_conn; by rewrite Hk). rewrite Hx. clear Hx.
  assert (Hne : source x <> destination x).
  { intros E. pose proof (gi_flags e H (destination x) (co_input e x Cx)) as Ef.
    rewrite <- E, (co_output e x Cx) in Ef. done. }
  destruct (unlink_ports_spec e k (source x) (destination x) (co_source e x Cx)
              (co_destination e x Cx) Hne) as ((R1 & R2 & R3 & R4) & L3 & P3).
  set (e3 := unlink_ports _ _ k e) in *. clearbody e3. cbn zeta.
  set (e4 := notify_connection _ _ _ _ _ _ e3).
  assert (F4 : event_frame e3 e4) by apply notify_frame.
  assert (Hcv : forall c, cview (the_client e4 c) = cview (the_client e c)).
  { intros c. rewrite (event_frame_field cview e3 e4 c) by done. unfold the_client. by rewrite R2. }
  assert (Hid : forall c, c_id (the_client e4 c) = c_id (the_client e c))
    by (intros c; pose proof (Hcv c) as E; unfold cview in E; by injection E).
  assert (C4 : clients e4 = clients e) by (by rewrite (event_frame_get clients e3 e4)).
  assert (Hby : forall c, c ∈ clients e -> jack_client_internal_by_id e4 (c_id (the_client e c)) = Some c).
  { intros c Hc. rewrite <- Hid. apply by_id_unique; [by rewrite C4|].
    intros d Hd. rewrite !Hid. apply H; [by rewrite <- C4|done]. }
  assert (Hcid : forall p, client_id (the_port e3 p) = client_id (the_port e p))
    by (intros p; pose proof (P3 p) as E; unfold pview in E; by injection E).
  rewrite !Hcid, (co_src_owner e x Cx), (co_dst_owner e x Cx), !Hby by apply Cx.
  split.
  2:{ cbn. unfold forget_feeds. destruct (dir x =? 0); [|destruct (dir x =? 1)]; cbn;
        by rewrite (event_frame_get conn_store e3 e4), R3. }
  apply (forget_connection_inv e e4 k x); try done.
  - by rewrite (event_frame_get conn_store e3 e4), R3.
  - by rewrite (event_frame_get feedbackcount e3 e4), R4.
  - intros c Hc. rewrite <- R2 in Hc. destruct F4 as [F4 _]. specialize (F4 c).
    destruct (client_store e4 !! c); [by eexists|]. destruct Hc as [y Hy]. by rewrite Hy in F4.
  - by rewrite (event_frame_get ports e3 e4).
  - intros p. unfold the_port at 1. rewrite (event_frame_get ports e3 e4) by done. apply P3.
Qed.

End io.
End GraphInv.
