(* ===== verification/Acyclic.v ===== *)
(** * [jack_check_acyclic] (server/engine.c)

    The test whether the graph has become acyclic is a topological sort by
    counting: a client whose count of unsorted feeders is zero is sorted and
    the clients it feeds are counted down.  When all clients are sorted the
    feedback connections are turned around.  The loop ends, its verdict is
    sound, and the graph invariant is kept. *)

From S2P Require Import Prelude JSList Engine Events Graph GraphInv.

Local Open Scope Z_scope.

Module Acyclic.
Import JSList Events Graph GraphInv.

(** ** Sums and occurrences *)

Definition occ (b : client_ptr) (l : list client_ptr) : Z := countb (fun d => bool_decide (d = b)) l.

Fixpoint sumz (f : client_ptr -> Z) (l : list client_ptr) : Z :=
  match l with
  | [] => 0
  | a :: l => f a + sumz f l
  end.

Lemma occ_app b l k : occ b (l ++ k) = occ b l + occ b k.
Proof. unfold occ, countb. rewrite filter_app, length_app. lia. Qed.

Lemma occ_perm b l k : l ≡ₚ k -> occ b l = occ b k.
Proof. apply countb_perm. Qed.

Lemma occ_nonneg b l : 0 <= occ b l.
Proof. apply countb_nonneg. Qed.

Lemma occ_zero b l : occ b l = 0 <-> b ∉ l.
Proof.
  unfold occ. rewrite countb_zero. split.
  - intros H Hb. specialize (H b Hb). by rewrite bool_decide_eq_true_2 in H.
  - intros H x Hx. apply bool_decide_eq_false. by intros ->.
Qed.

Lemma sumz_app f l k : sumz f (l ++ k) = sumz f l + sumz f k.
Proof. induction l as [|x l IH]; cbn; [lia|]. lia. Qed.

Lemma sumz_perm f l k : l ≡ₚ k -> sumz f l = sumz f k.
Proof. induction 1; cbn; lia. Qed.

Lemma sumz_nonneg f l : (forall a, 0 <= f a) -> 0 <= sumz f l.
Proof. intros H. induction l as [|x l IH]; cbn; [lia|]. specialize (H x). lia. Qed.

Lemma sumz_elem f l a : (forall a, 0 <= f a) -> a ∈ l -> f a <= sumz f l.
Proof.
  intros H Ha. apply list_elem_of_split in Ha as (l1 & l2 & ->). rewrite sumz_app. cbn.
  pose proof (sumz_nonneg f l1 H). pose proof (sumz_nonneg f l2 H). lia.
Qed.

Lemma sumz_add f g l : sumz (fun a => f a + g a) l = sumz f l + sumz g l.
Proof. induction l as [|x l IH]; cbn; [done|]. lia. Qed.

Lemma sumz_ext f g l : (forall a, a ∈ l -> f a = g a) -> sumz f l = sumz g l.
Proof.
  induction l as [|x l IH]; intros H; [done|]. cbn. rewrite (H x) by left.
  f_equal. apply IH. intros a Ha. apply H. by right.
Qed.

Lemma sumz_zero l : sumz (fun _ => 0) l = 0.
Proof. induction l; cbn; lia. Qed.

(** Only one member of a duplicate-free list counts. *)
Lemma sumz_single (n : Z) s l :
  NoDup l -> s ∈ l -> sumz (fun a => if decide (s = a) then n else 0) l = n.
Proof.
  induction 1 as [|x l Hx Hl IH]; intros Hs; [by apply not_elem_of_nil in Hs|]. cbn.
  apply elem_of_cons in Hs as [->|Hs].
  - rewrite decide_True by done. rewrite (sumz_ext _ (fun _ => 0)).
    + rewrite sumz_zero. lia.
    + intros a Ha. rewrite decide_False; [done|]. by intros ->.
  - rewrite decide_False by (by intros ->). rewrite IH by done. lia.
Qed.

(** A sublist with the same sum leaves nothing outside. *)
Lemma sumz_rest f l k a :
  (forall a, 0 <= f a) -> NoDup l -> (forall x, x ∈ l -> x ∈ k) -> NoDup k ->
  sumz f k = sumz f l -> a ∈ k -> a ∉ l -> f a = 0.
Proof.
  intros Hf Hl Hsub Hk Hs Ha Hna.
  assert (P : k ≡ₚ l ++ filter (fun x => x ∉ l) k).
  { apply NoDup_Permutation; [done| |].
    - apply NoDup_app. split_and!; [done| |by apply NoDup_filter].
      intros x Hx Hx'. by apply list_elem_of_filter in Hx' as [? _].
    - intros x. rewrite elem_of_app, list_elem_of_filter. split; [|naive_solver].
      intros Hx. destruct (decide (x ∈ l)); auto. }
  rewrite (sumz_perm f k _ P), sumz_app in Hs.
  assert (Hin : a ∈ filter (fun x => x ∉ l) k) by (by apply list_elem_of_filter).
  pose proof (sumz_elem f _ a Hf Hin). specialize (Hf a). lia.
Qed.

(** The number of feeders, client by client. *)
Lemma fedcount_sum e b :
  graph_inv e -> driver_client e b = false -> b ∈ clients e ->
  fedcount (the_client e b) = sumz (fun a => occ b (truefeeds (the_client e a))) (clients e).
Proof.
  intros H Hd Hb. pose proof (gi_fedcount e H b Hb) as Hf. rewrite Hd in Hf. rewrite Hf.
  rewrite (sumz_ext _ (fun a => occ b (omap (true_target e a) (conn_list e))))
    by (intros a Ha; by apply occ_perm, H).
  assert (Hok : Forall (conn_ok e) (conn_list e))
    by (apply Forall_forall; intros; by apply conn_list_ok).
  clear Hf. induction (conn_list e) as [|x l IH]; cbn [omap list_omap].
  { rewrite countb_nil. symmetry. apply sumz_zero. }
  apply Forall_cons in Hok as [Cx Cl].
  rewrite (sumz_ext _ (fun a => occ b (olist (true_target e a x)) + occ b (omap (true_target e a) l))).
  2:{ intros a _. cbn beta. rewrite <- occ_app. by destruct (true_target e a x). }
  rewrite sumz_add, <- IH, countb_cons by done. f_equal.
  rewrite (sumz_ext _ (fun a => if decide (srcclient x = a) then Z.b2z (fed_by e b x) else 0)).
  - symmetry. apply sumz_single; [apply H|apply Cx].
  - intros a _. unfold true_target, fed_by. destruct (is_edge e x); cbn.
    + destruct (decide (srcclient x = a)).
      * rewrite bool_decide_eq_true_2 by done. cbn. unfold occ. rewrite countb_cons, countb_nil. lia.
      * by rewrite bool_decide_eq_false_2.
    + by destruct (decide _).
Qed.

(** ** The counting loop *)

(** Equal but for the [tfedcount]s. *)
Definition tfed_frame (e e' : engine) : Prop :=
  exists s, e' = e <| client_store := s |> /\
    forall c, (fun x => x <| tfedcount := 0 |>) <$> s !! c =
              (fun x => x <| tfedcount := 0 |>) <$> client_store e !! c.

#[global] Instance tfed_frame_preorder : PreOrder tfed_frame.
Proof.
  split.
  - intros e. exists (client_store e). split; [by destruct e|done].
  - intros e1 e2 e3 (s2 & -> & H2) (s3 & -> & H3). exists s3. split; [done|].
    intros c. rewrite H3. apply H2.
Qed.

Lemma tfed_frame_upd c f e :
  (forall x, f x <| tfedcount := 0 |> = x <| tfedcount := 0 |>) -> tfed_frame e (upd_client c f e).
Proof.
  intros Hf. exists (alter f c (client_store e)). split; [by destruct e|]. intros d.
  destruct (decide (c = d)) as [->|]; [|by rewrite lookup_alter_ne].
  rewrite lookup_alter_eq. destruct (client_store e !! d); cbn; [by rewrite Hf|done].
Qed.

Lemma tfed_frame_client {A} (g : client -> A) e e' c :
  (forall x, g (x <| tfedcount := 0 |>) = g x) -> tfed_frame e e' ->
  g (the_client e' c) = g (the_client e c).
Proof.
  intros Hg (s & -> & H). specialize (H c). unfold the_client. cbn.
  destruct (s !! c) as [x|], (client_store e !! c) as [y|]; cbn in H; try done.
  apply (inj Some) in H. cbn. by rewrite <- (Hg x), <- (Hg y), H.
Qed.

Lemma tfed_frame_store e e' c :
  tfed_frame e e' -> is_Some (client_store e !! c) -> is_Some (client_store e' !! c).
Proof.
  intros (s & -> & H) [x Hx]. specialize (H c). rewrite Hx in H. cbn.
  destruct (s !! c); [by eexists|done].
Qed.

Lemma tfed_frame_graph e e' : tfed_frame e e' -> same_graph e e'.
Proof.
  intros (s & -> & H). constructor; try done. intros c. specialize (H c). cbn.
  destruct (s !! c) as [x|], (client_store e !! c) as [y|]; cbn in *; try done.
  apply (inj Some) in H. f_equal.
  change (cview (x <| tfedcount := 0 |>) = cview (y <| tfedcount := 0 |>)). by rewrite H.
Qed.

(** Counting down the clients of a feeds list. *)
Lemma countdown_spec l e :
  (forall d, d ∈ l -> is_Some (client_store e !! d)) ->
  let e' := foldl (fun e d => upd_client d (fun x => x <| tfedcount ::= Z.pred |>) e) e l in
  tfed_frame e e' /\
  forall b, is_Some (client_store e !! b) ->
    tfedcount (the_client e' b) = tfedcount (the_client e b) - occ b l.
Proof.
  revert e. induction l as [|d l IH]; intros e Hs e'.
  { split; [done|]. intros b _. unfold e', occ. rewrite countb_nil. cbn. lia. }
  subst e'. cbn [foldl]. set (e1 := upd_client d _ e).
  assert (F1 : tfed_frame e e1) by (by apply tfed_frame_upd).
  destruct (IH e1) as [F2 H2].
  { intros b Hb. apply (tfed_frame_store e); [done|]. apply Hs. by right. }
  split; [by transitivity e1|]. intros b Hb. rewrite H2 by (by apply (tfed_frame_store e)).
  unfold occ. rewrite countb_cons. unfold e1. rewrite the_client_upd by (apply Hs; left).
  destruct (decide (d = b)) as [->|].
  - rewrite bool_decide_eq_true_2 by done. cbn. lia.
  - rewrite bool_decide_eq_false_2 by done. cbn. lia.
Qed.

(** The clients sorted so far, in the order in which they were. *)
Record sorted_inv (e0 : engine) (S : list client_ptr) (e : engine) : Prop := {
  so_frame : tfed_frame e0 e;
  so_nodup : NoDup S;
  so_sub : forall c, c ∈ S -> c ∈ clients e0;
  so_done : forall c, c ∈ S -> tfedcount (the_client e c) < 0;
  so_count : forall c, c ∈ clients e0 -> c ∉ S ->
    tfedcount (the_client e c) = fedcount (the_client e0 c) -
      sumz (fun a => occ c (truefeeds (the_client e0 a))) S;
  so_order : forall a b, a ∈ clients e0 -> b ∈ truefeeds (the_client e0 a) -> b ∈ S -> before S a b
}.

Lemma truefeeds_member e a b :
  graph_inv e -> a ∈ clients e -> b ∈ truefeeds (the_client e a) ->
  b ∈ clients e /\ driver_client e b = false.
Proof.
  intros H Ha Hb. rewrite (gi_truefeeds e H a Ha) in Hb.
  apply list_elem_of_omap in Hb as (x & Hx & E). unfold true_target, is_edge in E.
  pose proof (conn_list_ok e x H Hx) as Cx.
  destruct (negb (dir x =? 0)); [|done]. destruct (driver_client e (dstclient x)) eqn:Ed; [done|].
  cbn in E. case_bool_decide; [|done]. injection E as <-. split; [apply Cx|done].
Qed.

(** A client whose count is zero has all its feeders sorted. *)
Lemma zero_count_feeders e0 S e c a :
  graph_inv e0 -> sorted_inv e0 S e -> c ∈ clients e0 -> c ∉ S ->
  tfedcount (the_client e c) = 0 -> a ∈ clients e0 -> c ∈ truefeeds (the_client e0 a) -> a ∈ S.
Proof.
  intros H I Hc Hn Hz Ha Hca. destruct (decide (a ∈ S)) as [|Hna]; [done|]. exfalso.
  destruct (truefeeds_member e0 a c H Ha Hca) as [_ Hd].
  rewrite (so_count e0 S e I c Hc Hn), (fedcount_sum e0 c H Hd Hc) in Hz.
  assert (Ho : occ c (truefeeds (the_client e0 a)) = 0).
  { apply (sumz_rest (fun a => occ c (truefeeds (the_client e0 a))) S (clients e0));
      [intros; apply occ_nonneg|apply I|apply I|apply H|lia|done|done]. }
  by apply occ_zero in Ho.
Qed.

Lemma visit_sorts e0 S e u st c :
  graph_inv e0 -> sorted_inv e0 S e -> c ∈ clients e0 -> tfedcount (the_client e c) = 0 ->
  exists e', acyclic_visit (u, st, e) c = (u - 1, false, e') /\ sorted_inv e0 (S ++ [c]) e'.
Proof.
  intros H I Hc Hz. unfold acyclic_visit. rewrite Hz. cbn [Z.eqb].
  assert (Hn : c ∉ S) by (intros Hin; pose proof (so_done e0 S e I c Hin); lia).
  set (e1 := upd_client c _ e).
  assert (F1 : tfed_frame e e1) by (by apply tfed_frame_upd).
  assert (Fe1 : tfed_frame e0 e1) by (transitivity e; [apply I|done]).
  assert (Hst : forall d, d ∈ clients e0 -> is_Some (client_store e1 !! d))
    by (intros d Hd; apply (tfed_frame_store e0); [done|by apply H]).
  assert (Et : truefeeds (the_client e1 c) = truefeeds (the_client e0 c))
    by (by apply (tfed_frame_client truefeeds)).
  destruct (countdown_spec (truefeeds (the_client e1 c)) e1) as [F2 H2].
  { intros d Hd. rewrite Et in Hd. apply Hst. by apply (truefeeds_member e0 c d). }
  rewrite Et in *. eexists. split; [done|]. set (e2 := foldl _ e1 _) in *. clearbody e2.
  assert (T1 : forall d, d ∈ clients e0 ->
     tfedcount (the_client e1 d) = if decide (c = d) then -1 else tfedcount (the_client e d)).
  { intros d Hd. unfold e1. rewrite the_client_upd.
    - by destruct (decide (c = d)).
    - apply (tfed_frame_store e0); [apply I|by apply H]. }
  constructor.
  - by transitivity e1.
  - apply NoDup_app. split_and!; [apply I|set_solver|apply NoDup_singleton].
  - intros d Hd. apply elem_of_app in Hd as [Hd|Hd]; [by apply I|set_solver].
  - intros d Hd. assert (Hd0 : d ∈ clients e0)
      by (apply elem_of_app in Hd as [Hd|Hd]; [by apply I|set_solver]).
    rewrite H2, T1 by (done || by apply Hst). pose proof (occ_nonneg d (truefeeds (the_client e0 c))).
    destruct (decide (c = d)); [lia|]. assert (Hds : d ∈ S) by set_solver.
    pose proof (so_done e0 S e I d Hds). lia.
  - intros d Hd Hnd. rewrite H2, T1 by (done || by apply Hst).
    rewrite decide_False by set_solver. rewrite (so_count e0 S e I d Hd) by set_solver.
    rewrite sumz_app. cbn. lia.
  - intros a b Ha Hab Hb. apply elem_of_app in Hb as [Hb|Hb].
    + apply before_app_l. by apply I.
    + apply list_elem_of_singleton in Hb as ->. apply before_across; [|set_solver].
      exact (zero_count_feeders e0 S e c a H I Hc Hn Hz Ha Hab).
Qed.

(** One pass: either nothing was sorted, or [stuck] is false. *)
Lemma pass_sorts e0 (l S : list client_ptr) e u st :
  graph_inv e0 -> sorted_inv e0 S e -> (forall c, c ∈ l -> c ∈ clients e0) ->
  exists u' st' e' S', foldl acyclic_visit (u, st, e) l = (u', st', e') /\
    sorted_inv e0 S' e' /\ u' + zlen S' = u + zlen S /\ (length S <= length S')%nat /\
    (length S' = length S -> st' = st) /\ ((length S < length S')%nat -> st' = false).
Proof.
  intros H. revert S e u st. induction l as [|c l IH]; intros S e u st I Hl.
  { exists u, st, e, S. split_and!; (done || lia). }
  cbn [foldl]. assert (Hc : c ∈ clients e0) by (apply Hl; left).
  assert (Hl' : forall d, d ∈ l -> d ∈ clients e0) by (intros d Hd; apply Hl; by right).
  destruct (decide (tfedcount (the_client e c) = 0)) as [Hz|Hz].
  - destruct (visit_sorts e0 S e u st c H I Hc Hz) as (e1 & -> & I1).
    destruct (IH (S ++ [c]) e1 (u - 1) false I1 Hl') as (u' & st' & e' & S' & E & I' & Hu & Hle & H1 & H2).
    exists u', st', e', S'. rewrite length_app in *. cbn in *.
    split_and!; [done|done|lia|lia|lia|]. intros _.
    destruct (decide (length S' = length S + 1)%nat); [by apply H1|apply H2; lia].
  - assert (Ev : acyclic_visit (u, st, e) c = (u, st, e))
      by (unfold acyclic_visit; by rewrite (proj2 (Z.eqb_neq _ _) Hz)).
    rewrite Ev. by apply IH.
Qed.

Lemma loop_sorts e0 fuel (S : list client_ptr) e u (st : bool) :
  graph_inv e0 -> sorted_inv e0 S e -> u + zlen S = zlen (clients e0) ->
  (length (clients e0) - length S + (if st then 1 else 2) <= fuel)%nat ->
  exists st' e' S', acyclic_loop fuel u st e = Some (st', e') /\ sorted_inv e0 S' e' /\
    (st' = false -> length S' = length (clients e0)).
Proof.
  intros H. revert S e u st. induction fuel as [|fuel IH]; intros S e u st I Hu Hf.
  { destruct st; lia. }
  cbn [acyclic_loop]. destruct (negb (u =? 0) && negb st) eqn:Eg.
  - apply andb_true_iff in Eg as [Eu Es]. apply negb_true_iff in Eu, Es. subst st.
    apply Z.eqb_neq in Eu. unfold acyclic_pass.
    assert (Ec : clients e = clients e0) by (by destruct (so_frame e0 S e I) as (s & -> & _)).
    destruct (pass_sorts e0 (clients e) S e u true H I) as (u' & st' & e' & S' & -> & I' & Hu' & Hle & H1 & H2).
    { by rewrite Ec. }
    apply (IH S'); [done|lia|].
    assert (length S' <= length (clients e0))%nat.
    { apply submseteq_length, NoDup_submseteq; [apply I'|]. apply I'. }
    destruct (decide (length S' = length S)) as [El|]; [rewrite (H1 El), El; lia|].
    rewrite H2 by lia. lia.
  - exists st, e, S. split_and!; [done|done|]. intros ->. rewrite andb_true_r in Eg.
    apply negb_false_iff, Z.eqb_eq in Eg. lia.
Qed.

Lemma sorted_complete e0 S e :
  graph_inv e0 -> sorted_inv e0 S e -> length S = length (clients e0) -> S ≡ₚ clients e0.
Proof.
  intros H I Hl. apply submseteq_length_Permutation; [|lia].
  apply NoDup_submseteq; apply I.
Qed.

(** The first loop: [tfedcount = fedcount]. *)
Lemma reset_counts_spec e :
  graph_inv e ->
  sorted_inv e [] (foldl (fun e c => upd_client c (fun x => x <| tfedcount := fedcount x |>) e)
                         e (clients e)).
Proof.
  intros H.
  assert (Hg : forall l e1, (forall c, c ∈ l -> is_Some (client_store e1 !! c)) ->
    let e2 := foldl (fun e c => upd_client c (fun x => x <| tfedcount := fedcount x |>) e) e1 l in
    tfed_frame e1 e2 /\ forall c, (c ∈ l \/ tfedcount (the_client e1 c) = fedcount (the_client e1 c)) ->
      tfedcount (the_client e2 c) = fedcount (the_client e1 c)).
  { induction l as [|d l IH]; intros e1 Hs e2.
    { split; [done|]. intros c [Hc|Hc]; [by apply not_elem_of_nil in Hc|done]. }
    subst e2. cbn [foldl]. set (e1' := upd_client d _ e1).
    assert (F1 : tfed_frame e1 e1') by (by apply tfed_frame_upd).
    destruct (IH e1') as [F2 H2].
    { intros c Hc. apply (tfed_frame_store e1); [done|]. apply Hs. by right. }
    split; [by transitivity e1'|]. intros c Hc.
    rewrite H2; [by apply (tfed_frame_client fedcount)|].
    unfold e1'. rewrite the_client_upd by (apply Hs; left). destruct (decide (d = c)) as [->|Hne].
    - by right.
    - destruct Hc as [Hc|Hc]; [left|by right]. by apply elem_of_cons in Hc as [->|?]. }
  destruct (Hg (clients e) e (gi_store e H)) as [F Ht].
  constructor; try done; [constructor|set_solver..| |set_solver].
  intros c Hc _. cbn. rewrite Ht by (by left). lia.
Qed.

(** ** Turning the feedback connections around *)

(** The feeds lists agree with the connections, whatever [feedbackcount] says. *)
Record feeds_core (e : engine) (l : list connection) : Prop := {
  fc_true : forall a, a ∈ clients e -> truefeeds (the_client e a) ≡ₚ omap (true_target e a) l;
  fc_sort : forall a, a ∈ clients e -> sortfeeds (the_client e a) ≡ₚ omap (sort_target e a) l;
  fc_fed : forall b, b ∈ clients e ->
    if driver_client e b then fedcount (the_client e b) <= 0
    else fedcount (the_client e b) = countb (fed_by e b) l
}.

(** What holds during the reversal: the invariant without the order and the
    count of feedback connections. *)
Record rev_inv (e0 e : engine) : Prop := {
  rv_skeleton : same_skeleton e0 e;
  rv_ports : ports e = ports e0;
  rv_conns : forall k x, conn_store e !! k = Some x -> conn_ok e0 x;
  rv_unique : unique_ends (conn_store e);
  rv_lists : lists_ok e;
  rv_feeds : feeds_core e (conn_list e);
  rv_true : forall a, truefeeds (the_client e a) = truefeeds (the_client e0 a)
}.

Lemma reverse_skeleton e k : same_skeleton e (reverse_feedback e k).
Proof.
  unfold reverse_feedback. destruct (_ =? -1); [|done].
  constructor; try done.
  - intros c Hc. cbn. by do 2 apply lookup_alter_is_Some.
  - intros c. by rewrite !the_client_upd_field by done.
Qed.

(** The connection with [dir] changed. *)
Lemma conn_list_alter e k x :
  conn_store e !! k = Some x ->
  let rest := (map_to_list (delete k (conn_store e))).*2 in
  conn_list e ≡ₚ x :: rest /\
  (map_to_list (alter (fun x => x <| dir := 1 |>) k (conn_store e))).*2 ≡ₚ x <| dir := 1 |> :: rest.
Proof.
  intros Hk. split; [by apply conn_list_delete|].
  assert (E : alter (fun x => x <| dir := 1 |>) k (conn_store e) =
              <[k := x <| dir := 1 |>]> (delete k (conn_store e))).
  { apply map_eq. intros i. destruct (decide (i = k)) as [->|].
    - by rewrite lookup_alter_eq, lookup_insert_eq, Hk.
    - by rewrite lookup_alter_ne, lookup_insert_ne, lookup_delete_ne by done. }
  rewrite E, map_to_list_insert by apply lookup_delete_eq. done.
Qed.

Lemma reverse_unfold e k x :
  conn_store e !! k = Some x -> dir x = -1 ->
  reverse_feedback e k =
    upd_client (srcclient x) (fun y => y <| sortfeeds ::= cons (dstclient x) |>)
      (upd_client (dstclient x) (fun y => y <| sortfeeds ::= slist_remove (srcclient x) |>)
         (upd_conn k (fun y => y <| dir := 1 |>) e)).
Proof.
  intros Hk Hd. assert (Hx : the_conn e k = x) by (unfold the_conn; by rewrite Hk).
  unfold reverse_feedback. by rewrite Hx, Hd.
Qed.

Lemma reverse_sortfeeds e k x a :
  conn_store e !! k = Some x -> dir x = -1 ->
  is_Some (client_store e !! srcclient x) -> is_Some (client_store e !! dstclient x) ->
  srcclient x <> dstclient x ->
  sortfeeds (the_client (reverse_feedback e k) a) =
    if decide (srcclient x = a) then dstclient x :: sortfeeds (the_client e a)
    else if decide (dstclient x = a) then slist_remove (srcclient x) (sortfeeds (the_client e a))
    else sortfeeds (the_client e a).
Proof.
  intros Hk Hd Hs Ht Hne. rewrite (reverse_unfold e k x) by done. set (e1 := upd_conn k _ e).
  assert (E1 : forall c, the_client e1 c = the_client e c) by done.
  assert (S1 : forall c, is_Some (client_store e !! c) -> is_Some (client_store e1 !! c)) by done.
  clearbody e1. rewrite the_client_upd by (apply lookup_alter_is_Some; by apply S1).
  destruct (decide (srcclient x = a)) as [<-|].
  - cbn. rewrite the_client_upd by (by apply S1). rewrite decide_False by done. by rewrite E1.
  - rewrite the_client_upd by (by apply S1). destruct (decide (dstclient x = a)) as [<-|]; cbn; by rewrite E1.
Qed.

(** A feedback connection joins two clients that are not drivers. *)
Lemma feedback_conn e x :
  conn_ok e x -> dir x = -1 ->
  srcclient x <> dstclient x /\ driver_client e (dstclient x) = false /\
  conn_ok e (x <| dir := 1 |>).
Proof.
  intros C Hd. pose proof (co_dir e x C) as Hdir.
  destruct (driver_client e (dstclient x)) eqn:Ed; [lia|].
  destruct (decide (srcclient x = dstclient x)) as [|Hne]; [lia|].
  split_and!; [done|done|]. destruct C. constructor; try done; cbn.
  rewrite Ed, decide_False by done. by left.
Qed.

Lemma lists_ok_alter e e' k :
  lists_ok e -> ports e' = ports e ->
  conn_store e' = alter (fun x => x <| dir := 1 |>) k (conn_store e) -> lists_ok e'.
Proof.
  intros H Hp Hc p. unfold the_port. rewrite Hp, Hc. intros Hlt. destruct (H p Hlt) as [Hnd Hin].
  split; [done|]. intros k'. rewrite Hin. destruct (decide (k' = k)) as [->|Hne].
  - rewrite lookup_alter_eq. destruct (conn_store e !! k) as [x|]; cbn; [|naive_solver].
    split; intros (y & Hy & Hyp); simplify_eq; eauto.
  - by rewrite lookup_alter_ne by done.
Qed.

Lemma unique_ends_alter m k :
  unique_ends m -> unique_ends (alter (fun x => x <| dir := 1 |>) k m).
Proof.
  intros H k1 k2 x1 x2 H1 H2 Es Ed.
  apply lookup_alter_Some in H1, H2.
  destruct H1 as [(_ & y1 & H1 & ->)|[_ H1]], H2 as [(_ & y2 & H2 & ->)|[_ H2]]; cbn in *; by eapply H.
Qed.

(** The feeds after one reversal. *)
Section reversal.
Context (e : engine) (k : conn_ptr) (x : connection).
Context (Hst : forall c, c ∈ clients e -> is_Some (client_store e !! c)).
Context (Hk : conn_store e !! k = Some x) (Cx : conn_ok e x) (Hd : dir x = -1).

Lemma reverse_list :
  exists rest, conn_list e ≡ₚ x :: rest /\
    conn_list (reverse_feedback e k) ≡ₚ x <| dir := 1 |> :: rest.
Proof.
  destruct (conn_list_alter e k x Hk) as [P1 P2]. eexists. split; [exact P1|].
  unfold conn_list at 1. rewrite (reverse_unfold e k x) by done. exact P2.
Qed.

Lemma reverse_edges :
  is_edge e x = true /\ is_edge e (x <| dir := 1 |>) = true.
Proof.
  destruct (feedback_conn e x Cx Hd) as (_ & Hdr & _). unfold is_edge. cbn. by rewrite Hd, Hdr.
Qed.

Lemma reverse_feeds :
  feeds_core e (conn_list e) -> feeds_core (reverse_feedback e k) (conn_list (reverse_feedback e k)).
Proof.
  intros [A B C]. destruct (feedback_conn e x Cx Hd) as (Hne & Hdr & _).
  destruct reverse_list as (rest & P1 & P2), reverse_edges as [Ex1 Ex2].
  pose proof (reverse_skeleton e k) as S.
  assert (Hf : forall a, truefeeds (the_client (reverse_feedback e k) a) = truefeeds (the_client e a) /\
                         fedcount (the_client (reverse_feedback e k) a) = fedcount (the_client e a)).
  { intros a. rewrite (reverse_unfold e k x) by done. by rewrite !the_client_upd_field by done. }
  assert (Hs : forall a, sortfeeds (the_client (reverse_feedback e k) a) =
    if decide (srcclient x = a) then dstclient x :: sortfeeds (the_client e a)
    else if decide (dstclient x = a) then slist_remove (srcclient x) (sortfeeds (the_client e a))
    else sortfeeds (the_client e a))
    by (intros a; apply reverse_sortfeeds; (done || apply Hst; apply Cx)).
  set (e' := reverse_feedback e k) in *. clearbody e'.
  assert (Ed : forall y, is_edge e' y = is_edge e y) by (intros; by apply skeleton_edge).
  constructor; rewrite (sk_clients e e' S).
  - intros a Ha. rewrite (proj1 (Hf a)), (A a Ha), (omap_perm _ _ _ P1), (omap_perm _ _ _ P2).
    rewrite (omap_pointwise (true_target e' a) (true_target e a)), !omap_cons_olist
      by (intros; unfold true_target; by rewrite Ed).
    unfold true_target at 1 3. by rewrite Ex1, Ex2.
  - intros a Ha. rewrite Hs, (omap_perm _ _ _ P2).
    rewrite (omap_pointwise (sort_target e' a) (sort_target e a)), omap_cons_olist
      by (intros; unfold sort_target; by rewrite Ed).
    pose proof (B a Ha) as Ba. rewrite (omap_perm _ _ _ P1), omap_cons_olist in Ba.
    unfold sort_target at 1 in Ba. unfold sort_target at 1. rewrite Ex1, Hd in Ba. rewrite Ex2.
    cbn in Ba |- *. destruct (decide (srcclient x = a)) as [<-|].
    + rewrite decide_False in Ba by done. by constructor.
    + destruct (decide (dstclient x = a)); [by apply slist_remove_cancel|done].
  - intros b Hb. rewrite (skeleton_driver e e'), (proj2 (Hf b)) by done. specialize (C b Hb).
    destruct (driver_client e b); [done|]. rewrite C, (countb_perm _ _ _ P1), (countb_perm _ _ _ P2).
    rewrite (countb_ext (fed_by e' b) (fed_by e b)), !countb_cons
      by (intros; unfold fed_by; by rewrite Ed).
    unfold fed_by at 1 3. by rewrite Ex1, Ex2.
Qed.

End reversal.

Lemma reverse_step e0 e k :
  graph_inv e0 -> rev_inv e0 e -> rev_inv e0 (reverse_feedback e k).
Proof.
  intros H R. destruct (decide (dir (the_conn e k) = -1)) as [Hd|Hd].
  2:{ unfold reverse_feedback. by rewrite (proj2 (Z.eqb_neq _ _) Hd). }
  destruct (conn_store e !! k) as [x|] eqn:Hk.
  2:{ unfold the_conn in Hd. by rewrite Hk in Hd. }
  assert (Hx : the_conn e k = x) by (unfold the_conn; by rewrite Hk). rewrite Hx in Hd.
  pose proof (rv_conns e0 e R k x Hk) as Cx. pose proof (rv_skeleton e0 e R) as S0.
  pose proof (reverse_skeleton e k) as S1. pose proof (skeleton_conn_ok e0 e x S0 Cx) as Cx'.
  assert (Hst : forall c, c ∈ clients e -> is_Some (client_store e !! c))
    by (intros c Hc; rewrite (sk_clients e0 e S0) in Hc; by apply S0, H).
  assert (Hc : conn_store (reverse_feedback e k) = alter (fun y => y <| dir := 1 |>) k (conn_store e))
    by (by rewrite (reverse_unfold e k x)).
  assert (Hp : ports (reverse_feedback e k) = ports e) by (by rewrite (reverse_unfold e k x)).
  constructor.
  - destruct S0 as [A1 A2 A3 A4 A5], S1 as [B1 B2 B3 B4 B5].
    constructor; [by rewrite B1| |intros c|by rewrite B4|intros p].
    + intros c Hc'. by apply B2, A2.
    + by destruct (B3 c) as (-> & -> & ->).
    + by destruct (B5 p) as (-> & -> & ->).
  - rewrite Hp. apply R.
  - intros k' y. rewrite Hc. destruct (decide (k' = k)) as [->|].
    + rewrite lookup_alter_eq, Hk. cbn. intros [= <-]. by apply (feedback_conn e0 x).
    + rewrite lookup_alter_ne by done. apply R.
  - rewrite Hc. apply unique_ends_alter, R.
  - by apply (lists_ok_alter e _ k); [apply R|..].
  - apply (reverse_feeds e k x); try done. apply R.
  - intros a. rewrite (reverse_unfold e k x) by done. rewrite !the_client_upd_field by done. apply R.
Qed.

(** ** The loops over clients, ports and connections reach every connection *)

Definition turned (e : engine) (k : conn_ptr) : Prop := dir (the_conn e k) <> -1.

Lemma reverse_turned e k k' : turned e k' \/ k' = k -> turned (reverse_feedback e k) k'.
Proof.
  unfold turned. destruct (decide (dir (the_conn e k) = -1)) as [Hd|Hd].
  2:{ unfold reverse_feedback. rewrite (proj2 (Z.eqb_neq _ _) Hd). intros [?| ->]; done. }
  unfold the_conn in Hd. destruct (conn_store e !! k) as [x|] eqn:Hk; [|done].
  rewrite (reverse_unfold e k x) by done. unfold the_conn. cbn. intros Ht.
  destruct (decide (k = k')) as [->|Hne].
  - by rewrite lookup_alter_eq, Hk.
  - rewrite lookup_alter_ne by done. destruct Ht; [done|congruence].
Qed.

Section covering.
Context (e0 : engine) (H0 : graph_inv e0).

(** A loop body that keeps [rev_inv], turns no connection back and turns the
    connections it covers. *)
Definition turns {A} (f : engine -> A -> engine) (cov : A -> conn_ptr -> Prop) : Prop :=
  forall e a, rev_inv e0 e ->
    rev_inv e0 (f e a) /\ (forall k, turned e k \/ cov a k -> turned (f e a) k).

Lemma fold_turns {A} (f : engine -> A -> engine) cov :
  turns f cov -> turns (foldl f) (fun l k => exists a, a ∈ l /\ cov a k).
Proof.
  intros Hf e l. revert e. induction l as [|a l IH]; intros e R; cbn.
  - split; [done|]. intros k [?|(a & Ha & _)]; [done|]. by apply not_elem_of_nil in Ha.
  - destruct (Hf e a R) as [R1 T1], (IH (f e a) R1) as [R2 T2]. split; [done|].
    intros k [Hk|(b & Hb & Hk)]; apply T2.
    + left. apply T1. by left.
    + apply elem_of_cons in Hb as [->|Hb]; [left; apply T1; by right|right; eauto].
Qed.

Lemma reversal_turns e :
  rev_inv e0 e ->
  let e' := foldl (fun e c =>
        foldl (fun e p => foldl reverse_feedback e (connections (the_port e p)))
              e (c_ports (the_client e c))) e (clients e0) in
  rev_inv e0 e' /\
  forall c p k, c ∈ clients e0 -> p ∈ c_ports (the_client e0 c) ->
    k ∈ connections (the_port e0 p) -> turned e' k.
Proof.
  intros R. cbn zeta.
  assert (T1 : turns reverse_feedback (fun k k' => k' = k)).
  { intros e1 k R1. split; [by apply reverse_step|]. intros k'. apply reverse_turned. }
  assert (T2 : turns (fun e p => foldl reverse_feedback e (connections (the_port e p)))
                     (fun p k => k ∈ connections (the_port e0 p))).
  { intros e1 p R1. assert (E : the_port e1 p = the_port e0 p)
      by (unfold the_port; by rewrite (rv_ports e0 e1 R1)). rewrite E.
    destruct (fold_turns _ _ T1 e1 (connections (the_port e0 p)) R1) as [R2 T]. split; [done|].
    intros k Hk. apply T. destruct Hk; [by left|right; eauto]. }
  assert (T3 : turns (fun e c => foldl (fun e p => foldl reverse_feedback e (connections (the_port e p)))
                        e (c_ports (the_client e c)))
                     (fun c k => exists p, p ∈ c_ports (the_client e0 c) /\ k ∈ connections (the_port e0 p))).
  { intros e1 c R1. rewrite (proj2 (proj2 (sk_client e0 e1 (rv_skeleton e0 e1 R1) c))).
    by apply (fold_turns _ _ T2). }
  destruct (fold_turns _ _ T3 e (clients e0) R) as [R4 T4]. split; [done|].
  intros c p k Hc Hp Hk. apply T4. right. eauto.
Qed.

End covering.

Lemma rev_inv_refl e : graph_inv e -> rev_inv e e.
Proof.
  intros H. constructor; try done; [apply H|exact (gi_unique e H)|exact (gi_lists e H)|].
  constructor; apply H.
Qed.

(** When nothing is reversed any more, sortfeeds and truefeeds agree. *)
Lemma all_turned_feeds e l a :
  Forall (conn_ok e) l -> Forall (fun x => dir x <> -1) l ->
  omap (sort_target e a) l = omap (true_target e a) l.
Proof.
  intros Hok Hd. induction l as [|x l IH]; [done|].
  apply Forall_cons in Hok as [Cx Cl], Hd as [Hx Hl]. rewrite !omap_cons_olist, IH by done. f_equal.
  unfold sort_target, true_target. destruct (is_edge e x) eqn:Ee; [|done]. cbn.
  assert (Hdir : dir x = 1).
  { unfold is_edge in Ee. apply andb_true_iff in Ee as [E1 _]. apply negb_true_iff, Z.eqb_neq in E1.
    destruct (conn_ok_dir e x Cx) as [?|[?|?]]; done. }
  rewrite Hdir. cbn. destruct (decide (srcclient x = a)).
  - by rewrite bool_decide_eq_true_2.
  - by rewrite bool_decide_eq_false_2.
Qed.

(** The end of a complete reversal. *)
Lemma reversed_inv e0 e order :
  graph_inv e0 -> rev_inv e0 e -> order ≡ₚ clients e0 ->
  (forall a b, a ∈ clients e0 -> b ∈ truefeeds (the_client e0 a) -> before order a b) ->
  (forall k x, conn_store e !! k = Some x -> dir x <> -1) ->
  graph_inv (e <| feedbackcount := 0 |>).
Proof.
  intros H R Ho Hb Ht. destruct R as [S Rp Rc Ru Rl Rf Rt].
  assert (Hd : Forall (fun x => dir x <> -1) (conn_list e)).
  { apply Forall_forall. intros x Hx. unfold conn_list in Hx.
    apply list_elem_of_fmap in Hx as ([k y] & -> & Hy). by apply elem_of_map_to_list, Ht in Hy. }
  assert (Hok : Forall (conn_ok e) (conn_list e)).
  { apply Forall_forall. intros x Hx. unfold conn_list in Hx.
    apply list_elem_of_fmap in Hx as ([k y] & -> & Hy). apply elem_of_map_to_list, Rc in Hy.
    by apply (skeleton_conn_ok e0). }
  apply (graph_inv_rebuild e0); [done|by destruct S; constructor|done|done|done|..].
  - destruct Rf. constructor; try done. cbn. symmetry. apply countb_zero. intros x Hx.
    rewrite Forall_forall in Hd. unfold is_feedback. apply Z.eqb_neq. by apply Hd.
  - exists order. split; [cbn; by rewrite (sk_clients e0 e S)|]. intros a b Ha Hab. cbn in Ha.
    change (sortfeeds (the_client (e <| feedbackcount := 0 |>) a)) with (sortfeeds (the_client e a)) in Hab.
    rewrite (fc_sort e _ Rf a Ha), all_turned_feeds, <- (fc_true e _ Rf a Ha), Rt in Hab by done.
    rewrite (sk_clients e0 e S) in Ha. by apply Hb.
Qed.

Lemma check_acyclic_spec e :
  graph_inv e ->
  let e1 := foldl (fun e c => upd_client c (fun x => x <| tfedcount := fedcount x |>) e)
                  e (clients e) in
  let e' := jack_check_acyclic e in
  graph_inv e' /\
  exists stuck e2, acyclic_loop (S (S (length (clients e1)))) (zlen (clients e1)) false e1
                     = Some (stuck, e2) /\
    (stuck = false -> feedbackcount e' = 0 /\
       forall k x, conn_store e' !! k = Some x -> dir x <> -1).
Proof.
  intros H e1 e'. pose proof (reset_counts_spec e H) as I1. fold e1 in I1.
  assert (Ec : clients e1 = clients e) by (by destruct (so_frame e [] e1 I1) as (s & -> & _)).
  destruct (loop_sorts e (S (S (length (clients e)))) [] e1 (zlen (clients e)) false H I1)
    as (st & e2 & So & Eloop & I2 & Hall); [cbn; lia|cbn; lia|].
  unfold e', jack_check_acyclic. fold e1. rewrite Ec, Eloop.
  assert (H2 : graph_inv e2)
    by (eapply graph_inv_same; [apply tfed_frame_graph, (so_frame e So e2 I2)|done]).
  destruct st.
  { split; [done|]. exists true, e2. split; [done|]. discriminate. }
  destruct (reversal_turns e2 H2 e2 (rev_inv_refl e2 H2)) as [R3 T3].
  set (e3 := foldl _ e2 (clients e2)) in *. clearbody e3.
  assert (Ht : forall k x, conn_store e3 !! k = Some x -> dir x <> -1).
  { intros k x Hk. pose proof (rv_conns e2 e3 R3 k x Hk) as Cx.
    assert (Hin : k ∈ connections (the_port e3 (source x))).
    { apply (rv_lists e2 e3 R3); [rewrite (rv_ports e2 e3 R3); apply Cx|eauto]. }
    pose proof (T3 (srcclient x) (source x) k (co_srcclient e2 x Cx) (co_listed e2 x Cx)) as Hturn.
    unfold turned, the_conn in Hturn. rewrite Hk in Hturn. apply Hturn.
    unfold the_port in *. by rewrite (rv_ports e2 e3 R3) in Hin. }
  assert (F2 : tfed_frame e e2) by apply I2.
  assert (E2 : clients e2 = clients e) by (by destruct F2 as (s & -> & _)).
  split; [|exists false, e2; split; [done|]; intros _; split; [done|exact Ht]].
  apply (reversed_inv e2 e3 So); [done|done| | |exact Ht].
  - rewrite E2. apply (sorted_complete e So e2); [done|done|by apply Hall].
  - intros a b Ha Hab. rewrite E2 in Ha. rewrite (tfed_frame_client truefeeds e e2) in Hab by done.
    apply (so_order e So e2 I2); [done|done|].
    rewrite (sorted_complete e So e2) by (done || by apply Hall). by apply (truefeeds_member e a b).
Qed.

(** C3: [jack_check_acyclic] always terminates and keeps the graph invariant;
    when it finds the graph acyclic, every feedback connection has been turned
    into a normal one. *)
Theorem check_acyclic_correct e :
  graph_inv e ->
  let e1 := foldl (fun e c => upd_client c (fun x => x <| tfedcount := fedcount x |>) e)
                  e (clients e) in
  let e' := jack_check_acyclic e in
  graph_inv e' /\
  exists stuck e2, acyclic_loop (S (S (length (clients e1)))) (zlen (clients e1)) false e1
                     = Some (stuck, e2) /\
    (stuck = false -> feedbackcount e' = 0 /\
       forall k x, conn_store e' !! k = Some x -> dir x <> -1).
Proof. apply check_acyclic_spec. Qed.

End Acyclic.
