(* ===== verification/Connect.v ===== *)
(** * Connecting and disconnecting ports

    The requests of clients on the graph, as a whole: what they return, what
    they change, and that they keep the graph invariant; the order the sort
    guarantees; and the concrete graphs on which it does not. *)

From S2P Require Import Prelude JSList Engine Events Graph GraphInv Acyclic.

Local Open Scope Z_scope.

Module Connect.
Import JSList Events Graph GraphInv Acyclic.

Section io.
Context (env : environment).

(** ** Lookups *)

Lemma find_port_spec test i l p :
  find_port test i l = Some p ->
  (i <= p)%nat /\ exists x, l !! (p - i)%nat = Some x /\ test x = true.
Proof.
  revert i. induction l as [|y l IH]; intros i; cbn; [done|]. destruct (test y) eqn:Et.
  - intros [= <-]. split; [lia|]. exists y. by rewrite Nat.sub_diag.
  - intros H. apply IH in H as (Hle & x & Hx & Htx). split; [lia|]. exists x.
    split; [|done]. replace (p - i)%nat with (S (p - S i)) by lia. done.
Qed.

Lemma port_by_name_spec e n p :
  jack_get_port_by_name e n = Some p ->
  (p < length (ports e))%nat /\ in_use (the_port e p) = true /\
  jack_port_name_equals (the_port e p) n = true.
Proof.
  intros H. apply find_port_spec in H as (_ & x & Hx & Ht). rewrite Nat.sub_0_r in Hx.
  apply andb_true_iff in Ht as [H1 H2]. split; [by eapply lookup_lt_Some|].
  unfold the_port. by rewrite Hx.
Qed.

(** ** Connecting *)

Lemma connect_locked_inv sp dp s d e :
  graph_inv e -> connectable e sp dp s d ->
  let '(ret, e') := connect_locked env sp dp s d e in
  graph_inv e' /\
  ((ret = -1 /\ e' = e) \/
   (ret = 0 /\ exists k x, conn_store e !! k = None /\ conn_store e' = <[k := x]> (conn_store e) /\
      source x = sp /\ destination x = dp /\ srcclient x = s /\ dstclient x = d)).
Proof.
  intros H C. unfold connect_locked. destruct (_ && _); [by split; [|left]|]. cbn zeta.
  pose proof (add_connection_inv sp dp s d e H C) as H1.
  assert (Hc : exists k x, conn_store e !! k = None /\
    conn_store (add_connection sp dp s d e) = <[k := x]> (conn_store e) /\
    source x = sp /\ destination x = dp /\ srcclient x = s /\ dstclient x = d).
  { pose proof (record_feeds_spec e s d sp dp H (cn_srcclient _ _ _ _ _ C) (cn_dstclient _ _ _ _ _ C)) as R.
    unfold add_connection. destruct (record_feeds s d e) as [dr e1]. cbn zeta in R.
    destruct R as ([_ _ Fcs _ _] & _). exists (fresh (dom (conn_store e1))). eexists.
    split; [rewrite <- Fcs; apply not_elem_of_dom, is_fresh|].
    split; [cbn; by rewrite Fcs|]. done. }
  set (e1 := add_connection sp dp s d e) in *. clearbody e1.
  set (e2 := notify_connection _ _ _ _ _ _ e1).
  assert (S2 : same_graph e1 (jack_sort_graph env e2))
    by (etrans; [apply same_graph_event, notify_frame|apply same_graph_sort]).
  split; [by eapply graph_inv_same|]. right. split; [done|].
  rewrite (sg_conns e1 _ S2). exact Hc.
Qed.

(** The checks before the graph lock is taken, in their order. *)
Lemma do_connect_cases src dst e :
  graph_inv e ->
  let '(ret, e') := jack_port_do_connect env src dst e in
  (ret = -1 \/ ret = EEXIST) /\ e' = e \/
  exists sp dp s d, jack_get_port_by_name e src = Some sp /\ jack_get_port_by_name e dst = Some dp /\
    active (the_client e s) = true /\ active (the_client e d) = true /\
    ptype_id (the_port e sp) = ptype_id (the_port e dp) /\
    connectable e sp dp s d /\ (ret, e') = connect_locked env sp dp s d e.
Proof.
  intros H. unfold jack_port_do_connect.
  destruct (jack_get_port_by_name e src) as [sp|] eqn:Es; [|by left; auto].
  destruct (jack_get_port_by_name e dst) as [dp|] eqn:Ed; [|by left; auto].
  apply port_by_name_spec in Es as Ps. apply port_by_name_spec in Ed as Pd.
  destruct (has_flag (flags (the_port e dp)) JackPortIsInput) eqn:Ei; cbn [negb]; [|by left; auto].
  destruct (has_flag (flags (the_port e sp)) JackPortIsOutput) eqn:Eo; cbn [negb]; [|by left; auto].
  destruct (Z.eqb_spec (ptype_id (the_port e sp)) (ptype_id (the_port e dp))) as [Et|];
    cbn [negb]; [|by left; auto].
  destruct (jack_client_internal_by_id e (client_id (the_port e sp))) as [s|] eqn:Ecs; [|by left; auto].
  destruct (active (the_client e s)) eqn:Eas; cbn [negb]; [|by left; auto].
  destruct (jack_client_internal_by_id e (client_id (the_port e dp))) as [d|] eqn:Ecd; [|by left; auto].
  destruct (active (the_client e d)) eqn:Ead; cbn [negb]; [|by left; auto].
  destruct (existsb _ _) eqn:Eex; [by left; auto|].
  destruct (connect_locked env sp dp s d e) as [ret e'] eqn:El. right. exists sp, dp, s, d.
  split_and!; try done. apply by_id_member in Ecs as [? ?], Ecd as [? ?].
  constructor; try done; [apply Ps|apply Pd|apply Ps|apply Pd|].
  intros k x Hk Hsx Hdx.
  assert (Hin : k ∈ connections (the_port e sp)) by (apply (gi_lists e H); [apply Ps|eauto]).
  assert (Hf : existsb (fun k => bool_decide (destination (the_conn e k) = dp))
                 (connections (the_port e sp)) = true).
  { apply existsb_exists. exists k. split; [by apply list_elem_of_In|].
    unfold the_conn. rewrite Hk. cbn. by apply bool_decide_eq_true. }
  congruence.
Qed.

(** C2: A connection request keeps the graph invariant whatever it is given.
    It fails with -1 or EEXIST and changes nothing, or it returns 0 and adds
    exactly one connection, from the output port to the input port of the
    same type that bear the names, of two active clients. *)
Theorem connect_correct src dst e :
  graph_inv e ->
  let '(ret, e') := jack_port_do_connect env src dst e in
  graph_inv e' /\
  ((ret = -1 \/ ret = EEXIST) /\ e' = e \/
   ret = 0 /\ exists k x, conn_store e !! k = None /\ conn_store e' = <[k := x]> (conn_store e) /\
     jack_get_port_by_name e src = Some (source x) /\
     jack_get_port_by_name e dst = Some (destination x) /\
     has_flag (flags (the_port e (source x))) JackPortIsOutput = true /\
     has_flag (flags (the_port e (destination x))) JackPortIsInput = true /\
     ptype_id (the_port e (source x)) = ptype_id (the_port e (destination x)) /\
     active (the_client e (srcclient x)) = true /\ active (the_client e (dstclient x)) = true).
Proof.
  intros H. pose proof (do_connect_cases src dst e H) as Hc.
  destruct (jack_port_do_connect env src dst e) as [ret e'].
  destruct Hc as [[Hr ->]|(sp & dp & s & d & Es & Ed & As & Ad & Et & C & El)]; [by split; [|left]|].
  pose proof (connect_locked_inv sp dp s d e H C) as Hl. rewrite <- El in Hl.
  destruct Hl as [Hg [[-> ->]|(-> & k & x & Hk & Hs & E1 & E2 & E3 & E4)]]; (split; [done|]).
  - left. auto.
  - right. split; [done|]. exists k, x. rewrite E1, E2, E3, E4. destruct C. by split_and!.
Qed.

(** ** Disconnecting *)

(** Everything about the connections but their direction. *)
Definition ends (e : engine) : gmap nat connection := (fun x => x <| dir := 0 |>) <$> conn_store e.

Lemma reverse_ends e k : ends (reverse_feedback e k) = ends e.
Proof.
  unfold reverse_feedback. destruct (_ =? -1); [|done]. unfold ends. cbn. apply map_eq. intros i.
  rewrite !lookup_fmap. destruct (decide (k = i)) as [->|]; [|by rewrite lookup_alter_ne].
  rewrite lookup_alter_eq. by destruct (conn_store e !! i).
Qed.

Lemma check_acyclic_ends e : graph_inv e -> ends (jack_check_acyclic e) = ends e.
Proof.
  intros H. unfold jack_check_acyclic. pose proof (reset_counts_spec e H) as I1.
  set (e1 := foldl _ e (clients e)) in *. clearbody e1.
  assert (Ec : clients e1 = clients e) by (by destruct (so_frame e [] e1 I1) as (s & -> & _)).
  destruct (loop_sorts e (S (S (length (clients e)))) [] e1 (zlen (clients e)) false H I1)
    as (st & e2 & So & Eloop & I2 & Hall); [cbn; lia|cbn; lia|].
  rewrite Ec, Eloop.
  assert (E2 : ends e2 = ends e) by (by destruct (so_frame e So e2 I2) as (s & -> & _)).
  destruct st; [done|]. rewrite <- E2. unfold ends at 1. cbn.
  change (ends (foldl (fun e c => foldl (fun e p => foldl reverse_feedback e (connections (the_port e p)))
            e (c_ports (the_client e c))) e2 (clients e2)) = ends e2).
  apply foldl_preserves. intros e3 c. apply foldl_preserves. intros e4 p. apply foldl_preserves.
  apply reverse_ends.
Qed.

Lemma ends_lookup e e' k x :
  ends e' = ends e -> conn_store e !! k = Some x ->
  exists x', conn_store e' !! k = Some x' /\ source x' = source x /\ destination x' = destination x /\
             srcclient x' = srcclient x /\ dstclient x' = dstclient x.
Proof.
  intros E Hk. apply (f_equal (lookup k)) in E. unfold ends in E. rewrite !lookup_fmap, Hk in E.
  cbn in E. destruct (conn_store e' !! k) as [x'|]; [|done]. exists x'. cbn in E.
  injection E as E1 E2 E3 E4. by rewrite E1, E2, E3, E4.
Qed.

(** The search for the connection. *)
Lemma find_conn_spec sp dp e :
  graph_inv e -> (sp < length (ports e))%nat ->
  let test k := bool_decide (source (the_conn e k) = sp)
                && bool_decide (destination (the_conn e k) = dp) in
  match find test (connections (the_port e sp)) with
  | Some k => exists x, conn_store e !! k = Some x /\ source x = sp /\ destination x = dp
  | None => forall k x, conn_store e !! k = Some x -> source x = sp -> destination x <> dp
  end.
Proof.
  intros H Hsp test. destruct (find test _) as [k|] eqn:Ef.
  - apply find_some in Ef as [Hin Ht]. apply list_elem_of_In, (gi_lists e H) in Hin as (x & Hk & _);
      [|done]. exists x. split; [done|]. unfold test, the_conn in Ht. rewrite Hk in Ht. cbn in Ht.
    apply andb_true_iff in Ht as [H1 H2]. by apply bool_decide_eq_true in H1, H2.
  - intros k x Hk Hs Hd.
    assert (Hin : k ∈ connections (the_port e sp)) by (apply (gi_lists e H); eauto).
    pose proof (find_none _ _ Ef k (proj1 (list_elem_of_In _ _) Hin)) as Ht.
    unfold test, the_conn in Ht. rewrite Hk in Ht. cbn in Ht.
    by rewrite !bool_decide_eq_true_2 in Ht by done.
Qed.

Lemma disconnect_internal_spec sp dp e :
  graph_inv e -> (sp < length (ports e))%nat ->
  let '(ret, e') := jack_port_disconnect_internal env sp dp e in
  graph_inv e' /\
  match ret with
  | 0 => exists k x, conn_store e !! k = Some x /\ source x = sp /\ destination x = dp /\
                     ends e' = delete k (ends e)
  | _ => ret = -1 /\ ends e' = ends e /\
         forall k x, conn_store e !! k = Some x -> source x = sp -> destination x <> dp
  end.
Proof.
  intros H Hsp. unfold jack_port_disconnect_internal.
  pose proof (find_conn_spec sp dp e H Hsp) as Hf. cbn zeta in Hf.
  destruct (find _ _) as [k|]; [destruct Hf as (x & Hk & Es & Ed)|].
  - rewrite <- Es, <- Ed. destruct (disconnect_found_inv env e k x H Hk) as [H1 Hc].
    set (e1 := disconnect_found _ _ _ _ e) in *. clearbody e1.
    set (e2 := if negb _ then _ else e1).
    assert (H2 : graph_inv e2 /\ ends e2 = ends e1)
      by (unfold e2; destruct (negb _); [split; [by apply check_acyclic_spec|by apply check_acyclic_ends]|done]).
    destruct H2 as [H2 E2]. clearbody e2. pose proof (same_graph_sort env e2) as S.
    split; [by eapply graph_inv_same|]. exists k, x. split_and!; [done|done|done|].
    unfold ends at 1. rewrite (sg_conns e2 _ S). change (ends e2 = delete k (ends e)).
    rewrite E2. unfold ends. by rewrite Hc, fmap_delete.
  - set (e2 := if negb _ then _ else e).
    assert (H2 : graph_inv e2 /\ ends e2 = ends e)
      by (unfold e2; destruct (negb _); [split; [by apply check_acyclic_spec|by apply check_acyclic_ends]|done]).
    destruct H2 as [H2 E2]. clearbody e2. pose proof (same_graph_sort env e2) as S.
    split; [by eapply graph_inv_same|]. split_and!; [done| |done].
    unfold ends at 1. by rewrite (sg_conns e2 _ S).
Qed.

(** A disconnection request keeps the graph invariant.  It removes exactly
    the connection between the two ports and returns 0, or there is none and it
    returns -1; the other connections keep their ends (feedback connections
    may have been turned around). *)
Theorem disconnect_correct src dst e :
  graph_inv e ->
  let '(ret, e') := jack_port_do_disconnect env src dst e in
  graph_inv e' /\
  match ret with
  | 0 => exists k x, conn_store e !! k = Some x /\
           jack_get_port_by_name e src = Some (source x) /\
           jack_get_port_by_name e dst = Some (destination x) /\ ends e' = delete k (ends e)
  | _ => ret = -1 /\ ends e' = ends e
  end.
Proof.
  intros H. unfold jack_port_do_disconnect.
  destruct (jack_get_port_by_name e src) as [sp|] eqn:Es; [|done].
  destruct (jack_get_port_by_name e dst) as [dp|] eqn:Ed; [|done].
  pose proof (disconnect_internal_spec sp dp e H (proj1 (port_by_name_spec e src sp Es))) as Hd.
  destruct (jack_port_disconnect_internal env sp dp e) as [ret e'].
  destruct Hd as [Hg Hd]. split; [done|]. destruct ret; [|naive_solver..].
  destruct Hd as (k & x & Hk & E1 & E2 & E3). exists k, x. rewrite E1, E2. by split_and!.
Qed.

(** ** Clearing a port *)

Lemma ends_some e k x : conn_store e !! k = Some x -> ends e !! k = Some (x <| dir := 0 |>).
Proof. intros H. unfold ends. by rewrite lookup_fmap, H. Qed.

Lemma ends_inv e k y : ends e !! k = Some y -> exists x, conn_store e !! k = Some x /\ y = x <| dir := 0 |>.
Proof.
  unfold ends. rewrite lookup_fmap. destruct (conn_store e !! k) as [x|]; cbn; [|done].
  intros [= <-]. eauto.
Qed.

Lemma clear_fold l e :
  graph_inv e -> NoDup l -> (forall k, k ∈ l -> is_Some (conn_store e !! k)) ->
  let e' := foldl (fun e k => (jack_port_disconnect_internal env (source (the_conn e k))
                                 (destination (the_conn e k)) e).2) e l in
  graph_inv e' /\ forall k, ends e' !! k = if decide (k ∈ l) then None else ends e !! k.
Proof.
  revert e. induction l as [|k l IH]; intros e H Hnd Hl.
  { split; [done|]. intros k. rewrite decide_False; [done|]. apply not_elem_of_nil. }
  apply NoDup_cons in Hnd as [Hk Hnd]. cbn [foldl].
  destruct (Hl k) as [x Hx]; [left|].
  assert (Ex : the_conn e k = x) by (unfold the_conn; by rewrite Hx). rewrite Ex.
  pose proof (gi_conns e H k x Hx) as Cx.
  pose proof (disconnect_internal_spec (source x) (destination x) e H (co_source e x Cx)) as Hd.
  destruct (jack_port_disconnect_internal env (source x) (destination x) e) as [ret e1].
  destruct Hd as [H1 Hd]. cbn [snd].
  assert (E1 : ends e1 = delete k (ends e)).
  { destruct ret; [|by destruct Hd as (_ & _ & Hn); destruct (Hn k x Hx)..].
    destruct Hd as (k' & x' & Hk' & Es & Ed & E). by rewrite (gi_unique e H k k' x x'). }
  destruct (IH e1 H1 Hnd) as [H2 E2].
  { intros k' Hk'. destruct (Hl k') as [y Hy]; [by right|].
    assert (Hne : k' <> k) by (by intros ->).
    assert (Hz : ends e1 !! k' = Some (y <| dir := 0 |>))
      by (rewrite E1, lookup_delete_ne by done; by apply ends_some).
    apply ends_inv in Hz as (z & Hz & _). by eexists. }
  split; [done|]. intros k'. rewrite E2, E1. destruct (decide (k' ∈ l)) as [Hin|Hnin].
  - by rewrite decide_True by (by right).
  - destruct (decide (k' = k)) as [->|Hne].
    + rewrite decide_True by left. apply lookup_delete_eq.
    + rewrite decide_False by (by rewrite elem_of_cons; intros [?|?]). by apply lookup_delete_ne.
Qed.

Lemma clear_connections_spec p e :
  graph_inv e -> (p < length (ports e))%nat ->
  let e' := jack_port_clear_connections env p e in
  graph_inv e' /\ connections (the_port e' p) = [] /\
  (forall k x, conn_store e' !! k = Some x -> source x <> p /\ destination x <> p) /\
  (forall k x, conn_store e !! k = Some x -> source x <> p -> destination x <> p ->
     exists x', conn_store e' !! k = Some x' /\ source x' = source x /\ destination x' = destination x /\
                srcclient x' = srcclient x /\ dstclient x' = dstclient x) /\
  (forall k x', conn_store e' !! k = Some x' ->
     exists x, conn_store e !! k = Some x /\ source x' = source x /\ destination x' = destination x /\
               srcclient x' = srcclient x /\ dstclient x' = dstclient x).
Proof.
  intros H Hp. cbn zeta. unfold jack_port_clear_connections. cbn zeta.
  destruct (gi_lists e H p Hp) as [Hnd Hin].
  destruct (clear_fold (connections (the_port e p)) e H Hnd) as [H1 E1].
  { intros k Hk. apply Hin in Hk as (x & Hx & _). by eexists. }
  set (e1 := foldl _ e _) in *. clearbody e1.
  assert (Hgone : forall k x, conn_store e1 !! k = Some x -> source x <> p /\ destination x <> p).
  { intros k x Hx. pose proof (E1 k) as Ek. rewrite (ends_some e1 k x Hx) in Ek.
    destruct (decide (k ∈ connections (the_port e p))) as [|Hn]; [done|].
    symmetry in Ek. apply ends_inv in Ek as (y & Hy & E). injection E as E3 E4 _ _.
    rewrite E3, E4. split; intros Hyp; apply Hn, Hin; eauto. }
  assert (Hemp : connections (the_port e1 p) = []).
  { destruct (decide (p < length (ports e1))%nat) as [Hlt|Hge].
    - destruct (connections (the_port e1 p)) as [|k l] eqn:Ec; [done|].
      assert (Hk : k ∈ connections (the_port e1 p)) by (rewrite Ec; left).
      apply (gi_lists e1 H1 p Hlt) in Hk as (x & Hx & Hxp). destruct (Hgone k x Hx). naive_solver.
    - unfold the_port. by rewrite lookup_ge_None_2 by lia. }
  assert (S : same_graph e1 (upd_port p (fun x => x <| connections := [] |>) e1)).
  { constructor; try done. cbn. apply list_eq. intros i. rewrite !list_lookup_fmap.
    destruct (decide (p = i)) as [->|]; [|by rewrite list_lookup_alter_ne].
    rewrite list_lookup_alter_eq. unfold the_port in Hemp.
    destruct (ports e1 !! i) as [y|]; [|done]. cbn in *. by rewrite <- Hemp. }
  split_and!; [by eapply graph_inv_same| |exact Hgone|..].
  - apply (same_graph_port e1 _ p), (f_equal (fun v => v.1.2)) in S. cbn in S. by rewrite S.
  - intros k x Hx Hs Hd. cbn. pose proof (E1 k) as Ek. rewrite decide_False in Ek.
    2:{ intros Hk. apply Hin in Hk as (y & Hy & Hyp). naive_solver. }
    rewrite (ends_some e k x Hx) in Ek. apply ends_inv in Ek as (y & Hy & E). injection E as -> -> -> ->.
    eauto 10.
  - cbn. intros k x' Hx'. pose proof (E1 k) as Ek. rewrite (ends_some e1 k x' Hx') in Ek.
    destruct (decide (k ∈ connections (the_port e p))); [done|]. symmetry in Ek.
    apply ends_inv in Ek as (y & Hy & E). injection E as -> -> -> ->. eauto 10.
Qed.

(** Clearing a port removes exactly the connections of that port, keeps
    all others, adds none, and keeps the graph invariant. *)
Theorem clear_connections_correct p e :
  graph_inv e -> (p < length (ports e))%nat ->
  let e' := jack_port_clear_connections env p e in
  graph_inv e' /\
  (forall k x, conn_store e' !! k = Some x -> source x <> p /\ destination x <> p) /\
  (forall k x, conn_store e !! k = Some x -> source x <> p -> destination x <> p ->
     exists x', conn_store e' !! k = Some x' /\ source x' = source x /\ destination x' = destination x /\
                srcclient x' = srcclient x /\ dstclient x' = dstclient x) /\
  (forall k x', conn_store e' !! k = Some x' ->
     exists x, conn_store e !! k = Some x /\ source x' = source x /\ destination x' = destination x /\
               srcclient x' = srcclient x /\ dstclient x' = dstclient x).
Proof.
  intros H Hp. destruct (clear_connections_spec p e H Hp) as (H1 & _ & H3). by split.
Qed.

End io.

(** ** The order of the sort *)

(** A field that no part of [jack_sort_graph] but the sort itself writes. *)
Section keeps.
Context (env : environment) {A : Type} (g : engine -> A).
Context (Hupd : forall c f e, g (upd_client c f e) = g e).
Context (Hport : forall p f e, g (upd_port p f e) = g e).
Context (Hev : forall e e', event_frame e e' -> g e' = g e).
Context (Hfifo : forall (f : list Z -> list Z) e, g (e <| fifo ::= f |>) = g e).
Context (Hcr : forall b e, g (e <| crashed := b |>) = g e).

Lemma keeps_fifo n e : g (jack_get_fifo_fd env n e).2 = g e.
Proof.
  unfold jack_get_fifo_fd. destruct (negb _); [done|].
  destruct (_ >=? _); cbn zeta; destruct (_ <? 0); cbn [snd]; by rewrite ?Hfifo.
Qed.

Lemma keeps_chain c s e :
  g (chain_internal env c s e).2 = g e /\ g (chain_external env c s e).2 = g e.
Proof.
  split.
  - unfold chain_internal. set (r := match ch_subgraph s with Some _ => _ | None => _ end).
    assert (Hr : g r.2 = g e).
    { unfold r. destruct (ch_subgraph s) as [q|]; [|done]. pose proof (keeps_fifo (ch_n s) e) as Hk.
      destruct (jack_get_fifo_fd _ _ _) as [fd e1]. cbn [snd] in *. by rewrite Hupd. }
    clearbody r. destruct r as [n e1].
    pose proof (Hev e1 _ (deliver_frame env c (GraphReordered (ch_event s).1 (ch_event s).2) e1)) as Hd.
    destruct (jack_deliver_event _ _ _ _) as [st e2]. cbn [snd] in *. by rewrite Hd.
  - unfold chain_external. set (r := match ch_subgraph s with None => _ | Some _ => _ end).
    assert (Hr : g r.2 = g e).
    { unfold r. destruct (ch_subgraph s) as [q|]; [by apply Hupd|]. pose proof (keeps_fifo (ch_n s) e) as Hk.
      destruct (jack_get_fifo_fd _ _ _) as [fd e1]. cbn [snd] in *. by rewrite Hupd. }
    clearbody r. destruct r as [[sub up] e1]. cbn [snd] in Hr.
    pose proof (keeps_fifo (execution_order (the_client e1 c) + 1) e1) as Hk.
    destruct (jack_get_fifo_fd _ _ e1) as [fd e2]. cbn [snd] in Hk.
    pose proof (Hev e2 _ (deliver_frame env c (GraphReordered (execution_order (the_client e1 c)) up) e2)) as Hd.
    destruct (jack_deliver_event _ _ _ e2) as [st e3]. cbn [snd] in *. by rewrite Hd, Hk.
Qed.

Lemma keeps_rechain e : g (jack_rechain_graph env e) = g e.
Proof.
  unfold jack_rechain_graph.
  assert (Hl : forall fuel l s e, g (rechain_loop env fuel l s e).2 = g e).
  { induction fuel as [|fuel IH]; intros l s e1; [done|]. destruct l as [|c next]; [done|].
    cbn [rechain_loop]. destruct (negb _); [apply IH|]. destruct (active _); [|apply IH].
    set (e2 := upd_client c _ e1). assert (E2 : g e2 = g e1) by apply Hupd. clearbody e2.
    destruct (keeps_chain c s e2) as [K1 K2]. destruct (jack_client_is_internal _).
    - destruct (chain_internal _ _ _ _) as [s3 e3]. cbn [snd] in *. by rewrite IH, K1.
    - destruct (chain_external _ _ _ _) as [s3 e3]. cbn [snd] in *. by rewrite IH, K2. }
  pose proof (Hl (length (clients e)) (clients e) (mk_chain 0 None (0, 0)) e) as H.
  destruct (rechain_loop _ _ _ _ _) as [s e1]. cbn [snd] in H. destruct (ch_subgraph s) as [q|]; [|done].
  pose proof (keeps_fifo (ch_n s) e1) as Hk. destruct (jack_get_fifo_fd _ _ _) as [fd e2].
  cbn [snd] in Hk. by rewrite Hupd, Hk.
Qed.

Lemma keeps_latencies e :
  g (jack_compute_new_latency env (jack_rechain_graph env (jack_compute_all_port_total_latencies e))) = g e.
Proof.
  transitivity (g (jack_compute_all_port_total_latencies e)).
  - rewrite <- (keeps_rechain (jack_compute_all_port_total_latencies e)).
    set (e1 := jack_rechain_graph env _). clearbody e1.
    unfold jack_compute_new_latency, deliver_driver. cbn zeta.
    assert (Hd : forall ev e, g (match driver e with Some c => (jack_deliver_event env c ev e).2 | None => e <| crashed := true |> end) = g e)
      by (intros ev e2; destruct (driver e2); [by apply Hev, deliver_frame|by apply Hcr]).
    rewrite Hd, (Hev _ _ (deliver_where_frame env _ _ _ _)), Hd.
    apply Hev, deliver_where_frame.
  - unfold jack_compute_all_port_total_latencies. apply foldl_preserves. intros e1 p.
    unfold jack_compute_port_total_latency. by destruct (in_use _).
Qed.

End keeps.

Lemma sort_graph_clients env e :
  clients (jack_sort_graph env e) =
  slist_sort (fun a b => jack_client_sort e a b <? 0) (clients e).
Proof.
  unfold jack_sort_graph. cbn zeta. set (e1 := e <| clients ::= _ |>).
  change (clients (?x <| timeout_count := 0 |>)) with (clients x).
  rewrite (keeps_latencies env clients); try done. intros. by apply (event_frame_get clients).
Qed.

(** Merging with a comparison that puts [front] elements first. *)
Section front.
Context (front : client_ptr -> bool) (lt : client_ptr -> client_ptr -> bool) (P : client_ptr -> Prop).
Context (Hlt : forall x y, P x -> P y -> front x = true -> front y = false ->
                           lt x y = true /\ lt y x = false).

Definition not_pushed (x y : client_ptr) : Prop := front y = true -> front x = true.

Lemma merge_front l1 l2 :
  Forall P l1 -> Forall P l2 -> StronglySorted not_pushed l1 -> StronglySorted not_pushed l2 ->
  StronglySorted not_pushed (slist_sort_merge lt l1 l2).
Proof.
  revert l2. induction l1 as [|x l1 IH1]; intros l2 P1; [by destruct l2|].
  induction l2 as [|y l2 IH2]; intros P2 H1 H2; [done|].
  change (slist_sort_merge lt (x :: l1) (y :: l2)) with
    (if lt x y then x :: slist_sort_merge lt l1 (y :: l2)
     else y :: slist_sort_merge lt (x :: l1) l2).
  apply StronglySorted_inv in H1 as H1'. destruct H1' as [S1 F1].
  apply StronglySorted_inv in H2 as H2'. destruct H2' as [S2 F2].
  apply Forall_cons in P1 as P1'. destruct P1' as [Px P1'].
  apply Forall_cons in P2 as P2'. destruct P2' as [Py P2'].
  unfold not_pushed in *. destruct (lt x y) eqn:E; constructor; auto.
  - assert (Hxy : front y = true -> front x = true).
    { intros Hy. destruct (front x) eqn:Hx; [done|]. destruct (Hlt y x Py Px Hy Hx). congruence. }
    rewrite merge_perm. apply Forall_app. split; [done|]. constructor; [done|].
    eapply Forall_impl; [exact F2|]. auto.
  - assert (Hxy : front x = true -> front y = true).
    { intros Hx. destruct (front y) eqn:Hy; [done|]. destruct (Hlt x y Px Py Hx Hy). congruence. }
    rewrite merge_perm. apply Forall_app. split; [|done]. constructor; [done|].
    eapply Forall_impl; [exact F1|]. auto.
Qed.

Lemma sort_front n l :
  (length l <= n)%nat -> Forall P l -> StronglySorted not_pushed (sort_fuel lt n l).
Proof.
  revert l. induction n as [|n IH]; intros l Hn Pl.
  { destruct l; [constructor|cbn in Hn; lia]. }
  destruct l as [|x [|y l]]; [constructor|repeat constructor|]. cbn [sort_fuel].
  set (k := x :: y :: l) in *. pose proof (half_bounds (length k) ltac:(cbn; lia)).
  apply merge_front; rewrite ?sort_fuel_perm;
    try (by apply Forall_take || by apply Forall_drop);
    apply IH; rewrite ?length_take, ?length_drop; try lia;
    (by apply Forall_take || by apply Forall_drop).
Qed.

End front.

(** Sorting the graph reorders the clients and puts every driver before
    every client that is not a driver, whatever the connections. *)
Theorem sort_drivers_first env e :
  graph_inv e ->
  let e' := jack_sort_graph env e in
  clients e' ≡ₚ clients e /\
  StronglySorted (not_pushed (driver_client e)) (clients e') /\ graph_inv e'.
Proof.
  intros H. cbn zeta. pose proof (same_graph_sort env e) as S. split_and!.
  - symmetry. apply S.
  - rewrite sort_graph_clients. apply (sort_front _ _ (fun c => c ∈ clients e)); [|done|by apply Forall_forall].
    intros x y Hx Hy Fx Fy. unfold jack_client_sort, driver_client in *. cbn zeta. rewrite Fx, Fy. cbn [andb negb].
    rewrite orb_true_r. split; [done|].
    assert (Hf : jack_client_feeds_transitive e y x = false).
    { destruct (feeds_transitive_spec e y x H Hy) as [_ Hf].
      destruct (jack_client_feeds_transitive e y x); [|done].
      pose proof (sort_tc_driver e y x H Hy (proj1 Hf eq_refl)) as Hd.
      unfold driver_client in Hd. congruence. }
    by rewrite Hf.
  - by eapply graph_inv_same.
Qed.

(** ** A server at rest *)

(** Clients and ports without any connection. *)
Record unconnected (e : engine) : Prop := {
  un_nodup : NoDup (clients e);
  un_clients : Forall (fun c => is_Some (client_store e !! c) /\ truefeeds (the_client e c) = [] /\
                 sortfeeds (the_client e c) = [] /\ fedcount (the_client e c) = 0) (clients e);
  un_ids : NoDup ((fun c => c_id (the_client e c)) <$> clients e);
  un_conns : conn_store e = ∅;
  un_ports : Forall (fun p => connections p = [] /\
               (has_flag (flags p) JackPortIsInput && has_flag (flags p) JackPortIsOutput) = false)
               (ports e);
  un_owned : Forall (fun c => forall p, (p < length (ports e))%nat -> in_use (the_port e p) = true ->
               client_id (the_port e p) = c_id (the_client e c) -> p ∈ c_ports (the_client e c)) (clients e);
  un_feedback : feedbackcount e = 0
}.

Lemma the_port_cases e p : the_port e p ∈ ports e \/ the_port e p = null_port.
Proof.
  unfold the_port. destruct (ports e !! p) as [x|] eqn:E; [left|by right].
  by eapply list_elem_of_lookup_2.
Qed.

Lemma unconnected_inv e : unconnected e -> graph_inv e.
Proof.
  intros [A B C D P O F]. rewrite Forall_forall in B. rewrite Forall_forall in P. rewrite Forall_forall in O.
  assert (Hl : conn_list e = []) by (unfold conn_list; by rewrite D, map_to_list_empty).
  constructor; rewrite ?Hl; try done.
  - intros c Hc. by apply B.
  - intros c d Hc Hd E. apply list_elem_of_lookup in Hc as [i Hi], Hd as [j Hj].
    assert (i = j) as ->.
    { eapply (NoDup_lookup _ i j (c_id (the_client e c)) C); rewrite list_lookup_fmap, ?Hi, ?Hj; cbn; congruence. }
    congruence.
  - intros k x. by rewrite D, lookup_empty.
  - intros p Hp. assert (E : connections (the_port e p) = [])
      by (destruct (the_port_cases e p) as [Hin| ->]; [by apply P|done]).
    rewrite E. split; [constructor|]. intros k. rewrite D. split; [by intros ?%not_elem_of_nil|].
    intros (x & Hx & _). by rewrite lookup_empty in Hx.
  - intros k k' x x'. by rewrite D, lookup_empty.
  - intros p Hi. destruct (the_port_cases e p) as [Hin|E]; [|by rewrite E in Hi].
    pose proof (proj2 (P _ Hin)) as Hf. by rewrite Hi in Hf.
  - intros c p Hc Hu Hid. apply O; try done. unfold the_port in Hu.
    destruct (ports e !! p) eqn:E; [by eapply lookup_lt_Some|done].
  - intros a Ha. by rewrite (proj1 (proj2 (B a Ha))).
  - intros a Ha. by rewrite (proj1 (proj2 (proj2 (B a Ha)))).
  - intros b Hb. rewrite (proj2 (proj2 (proj2 (B b Hb)))). by destruct (driver_client e b).
  - exists (clients e). split; [done|]. intros a b Ha. rewrite (proj1 (proj2 (proj2 (B a Ha)))).
    by intros ?%not_elem_of_nil.
Qed.

(** A driver with one capture and one playback port, and four clients with an
    input and an output each. *)
Definition sample_port (name : string) (owner fl : Z) : port :=
  null_port <| in_use := true |> <| p_name := name |> <| client_id := owner |> <| flags := fl |>
            <| has_mixdown := true |>.

Definition sample_client (i : Z) (name : string) (ty : ClientType) (ps : list port_ptr) : client :=
  null_client <| c_id := i |> <| c_name := name |> <| c_type := ty |> <| c_ports := ps |>
              <| active := true |> <| cbset ::= fun b => b <| process_cbset := true |> |>.

Definition sample_graph : engine :=
  empty_engine
    <| clients := [0; 1; 2; 3; 4]%nat |>
    <| client_store := list_to_map
         [(0%nat, sample_client 1 "system" ClientDriver [0; 1]%nat);
          (1%nat, sample_client 2 "a" ClientExternal [2; 3]%nat);
          (2%nat, sample_client 3 "x" ClientExternal [4; 5]%nat);
          (3%nat, sample_client 4 "y" ClientExternal [6; 7]%nat);
          (4%nat, sample_client 5 "b" ClientExternal [8; 9]%nat)] |>
    <| ports :=
         [sample_port "system:capture_1" 1 2; sample_port "system:playback_1" 1 1;
          sample_port "a:in" 2 1; sample_port "a:out" 2 2;
          sample_port "x:in" 3 1; sample_port "x:out" 3 2;
          sample_port "y:in" 4 1; sample_port "y:out" 4 2;
          sample_port "b:in" 5 1; sample_port "b:out" 5 2] |>
    <| driver := Some 0%nat |>.

Lemma sample_graph_inv : graph_inv sample_graph.
Proof.
  apply unconnected_inv. constructor; try reflexivity.
  - by apply (bool_decide_unpack _); vm_compute.
  - repeat constructor; by eexists.
  - by apply (bool_decide_unpack _); vm_compute.
  - repeat constructor.
  - repeat (constructor; [intros p Hp Hu Hid; do 10 (destruct p as [|p]; [vm_compute in Hid |- *;
      first [discriminate Hid | by apply elem_of_cons; auto | set_solver]|]); cbn in Hp; lia|]).
    constructor.
Qed.

Lemma connect_correct_witness :
  (jack_port_do_connect good_env "a:out" "b:in" sample_graph).1 = 0 /\
  graph_inv (jack_port_do_connect good_env "a:out" "b:in" sample_graph).2.
Proof.
  pose proof (connect_correct good_env "a:out" "b:in" sample_graph sample_graph_inv) as H.
  assert (E : (jack_port_do_connect good_env "a:out" "b:in" sample_graph).1 = 0)
    by (vm_compute; reflexivity).
  destruct (jack_port_do_connect good_env "a:out" "b:in" sample_graph) as [ret e'].
  split; [exact E|exact (proj1 H)].
Defined.

Lemma disconnect_correct_witness :
  (jack_port_do_disconnect good_env "a:out" "b:in" sample_graph).1 = -1 /\
  graph_inv (jack_port_do_disconnect good_env "a:out" "b:in" sample_graph).2.
Proof.
  pose proof (disconnect_correct good_env "a:out" "b:in" sample_graph sample_graph_inv) as H.
  assert (E : (jack_port_do_disconnect good_env "a:out" "b:in" sample_graph).1 = -1)
    by (vm_compute; reflexivity).
  destruct (jack_port_do_disconnect good_env "a:out" "b:in" sample_graph) as [ret e'].
  split; [exact E|exact (proj1 H)].
Defined.

(** The graph after a sequence of connections. *)
Definition connect_all (l : list (string * string)) (e : engine) : engine :=
  foldl (fun e '(s, d) => (jack_port_do_connect good_env s d e).2) e l.

Lemma connect_all_inv l e : graph_inv e -> graph_inv (connect_all l e).
Proof.
  revert e. induction l as [|[s d] l IH]; intros e H; [done|]. apply IH.
  pose proof (do_connect_cases good_env s d e H) as Hc.
  destruct (jack_port_do_connect good_env s d e) as [ret e'].
  destruct Hc as [[_ ->]|(sp & dp & c1 & c2 & _ & _ & _ & _ & _ & C & El)]; [done|].
  pose proof (connect_locked_inv good_env sp dp c1 c2 e H C) as Hl. rewrite <- El in Hl. apply Hl.
Qed.

(** a -> b -> a, a loop with one feedback connection, and a -> playback. *)
Definition looped : engine :=
  connect_all [("a:out", "b:in"); ("b:out", "a:in"); ("a:out", "system:playback_1")] sample_graph.

Lemma looped_inv : graph_inv looped.
Proof.
  unfold looped. generalize sample_graph_inv. generalize sample_graph. intros e H.
  by apply connect_all_inv.
Qed.

Lemma looped_clients : clients looped = [0; 1; 4; 3; 2]%nat.
Proof. vm_compute. reflexivity. Qed.

Lemma clear_connections_correct_witness :
  graph_inv (jack_port_clear_connections good_env 3 looped) /\
  forall k x, conn_store (jack_port_clear_connections good_env 3 looped) !! k = Some x ->
    source x <> 3%nat /\ destination x <> 3%nat.
Proof.
  destruct (clear_connections_correct good_env 3 looped) as (H1 & H2 & _).
  - exact looped_inv.
  - vm_compute. lia.
  - split; [exact H1|exact H2].
Defined.

Lemma sort_drivers_first_witness :
  StronglySorted (not_pushed (driver_client looped)) (clients (jack_sort_graph good_env looped)).
Proof.
  exact (proj1 (proj2 (sort_drivers_first good_env looped looped_inv))).
Defined.

Lemma feeds_transitive_correct_witness :
  jack_client_feeds_transitive looped 1 4 = true /\ tc (sort_edge looped) 1%nat 4%nat.
Proof.
  assert (E : jack_client_feeds_transitive looped 1 4 = true) by (vm_compute; reflexivity).
  split; [exact E|]. 
  assert (Hin : 1%nat ∈ clients looped) by (rewrite looped_clients; right; left).
  exact (proj1 (proj1 (proj2 (feeds_transitive_correct looped 1 4 looped_inv Hin))) E).
Defined.

Lemma check_acyclic_correct_witness :
  feedbackcount looped = 1 /\ graph_inv (jack_check_acyclic looped).
Proof.
  split; [vm_compute; reflexivity|]. exact (proj1 (check_acyclic_correct looped looped_inv)).
Defined.

(** ** Where the code and its comments part *)

(** The comparison of the merge sort is only a partial order, so the sort
    does not always respect sortfeeds: after connecting a to b among four
    clients, a feeds b and yet b comes before a in the execution order. *)
Theorem sort_order_violated :
  let e := connect_all [("a:out", "b:in")] (sample_graph <| clients := [1; 2; 3; 4]%nat |>) in
  sort_edge e 1%nat 4%nat /\ before (clients e) 4%nat 1%nat.
Proof.
  cbn zeta. split.
  - vm_compute. left.
  - exists 0%nat, 3%nat. vm_compute. split_and!; [reflexivity|reflexivity|lia].
Qed.

(** Connections to a driver are not counted, but their removal is: after
    connecting to and disconnecting from a playback port the driver's
    [fedcount] is -1, and from then on [jack_check_acyclic] never finds the
    graph acyclic again: the feedback connection of a broken loop stays. *)
Theorem driver_disconnect_blocks_acyclic :
  let disconnect s d e := (jack_port_do_disconnect good_env s d e).2 in
  let loop := connect_all [("a:out", "b:in"); ("b:out", "a:in")] in
  feedbackcount (disconnect "a:out" "b:in" (loop sample_graph)) = 0 /\
  let e := disconnect "a:out" "system:playback_1" (connect_all [("a:out", "system:playback_1")] sample_graph) in
  fedcount (the_client e 0) = -1 /\
  feedbackcount (disconnect "a:out" "b:in" (loop e)) = 1.
Proof. vm_compute. split_and!; reflexivity. Qed.

End Connect.
