(* ===== verification/GraphFrame.v ===== *)
(** * What graph operations leave alone

    Connecting, disconnecting, sorting and notifying only write the graph's
    own fields: the order of the client list, the feeds lists and counters,
    the execution chain, the connection lists, the latencies and the failure
    counts.  [eother] erases exactly these fields; an operation that keeps
    [eother] keeps the transport, the identities, flags and callbacks of the
    clients, the names, owners and buffers of the ports. *)

From S2P Require Import Prelude JSList Engine Events Graph GraphInv.

Local Open Scope Z_scope.

Module GraphFrame.
Import JSList Events Graph GraphInv.

Definition cother (x : client) : client :=
  x <| truefeeds := [] |> <| sortfeeds := [] |> <| fedcount := 0 |> <| tfedcount := 0 |>
    <| execution_order := 0 |> <| next_client := None |> <| subgraph_start_fd := 0 |>
    <| subgraph_wait_fd := 0 |> <| c_error := if dead x then c_error x else 0 |>.

Definition pother (p : port) : port :=
  p <| connections := [] |> <| monitor_requests := 0 |> <| total_latency := 0 |>.

Definition eother (e : engine) : engine :=
  e <| clients := [] |> <| client_store ::= fmap cother |> <| ports ::= fmap pother |>
    <| conn_store := ∅ |> <| feedbackcount := 0 |> <| fifo := [] |> <| problems := 0 |>
    <| timeout_count := 0 |> <| events := [] |> <| io_count := 0%nat |> <| crashed := false |>.

Record graph_frame (e e' : engine) : Prop := {
  gf_clients : clients e' ≡ₚ clients e;
  gf_other : eother e' = eother e
}.

#[global] Instance graph_frame_equivalence : Equivalence graph_frame.
Proof.
  split; [done| |].
  - intros e1 e2 []. by constructor.
  - intros e1 e2 e3 [] []. constructor; by etrans.
Qed.

(** ** Using it *)

Lemma graph_frame_get {A} (g : engine -> A) e e' :
  (forall x, g (eother x) = g x) -> graph_frame e e' -> g e' = g e.
Proof. intros Hg [_ E]. by rewrite <- (Hg e'), <- (Hg e), E. Qed.

Lemma graph_frame_client {A} (g : client -> A) e e' c :
  (forall x, g (cother x) = g x) -> graph_frame e e' -> g (the_client e' c) = g (the_client e c).
Proof.
  intros Hg [_ E]. apply (f_equal client_store) in E. cbn in E.
  apply (f_equal (lookup c)) in E. rewrite !lookup_fmap in E. unfold the_client.
  destruct (client_store e' !! c) as [x|], (client_store e !! c) as [y|]; cbn in E; try done.
  apply (inj Some) in E. cbn. by rewrite <- (Hg x), <- (Hg y), E.
Qed.

Lemma graph_frame_store e e' c :
  graph_frame e e' -> is_Some (client_store e' !! c) <-> is_Some (client_store e !! c).
Proof.
  intros [_ E]. apply (f_equal client_store) in E. cbn in E.
  apply (f_equal (lookup c)) in E. rewrite !lookup_fmap in E.
  destruct (client_store e' !! c), (client_store e !! c); cbn in E; split; intros []; try done; by eexists.
Qed.

Lemma graph_frame_port {A} (g : port -> A) e e' p :
  (forall x, g (pother x) = g x) -> graph_frame e e' -> g (the_port e' p) = g (the_port e p).
Proof.
  intros Hg [_ E]. apply (f_equal ports) in E. cbn in E.
  apply (f_equal (lookup p)) in E. rewrite !list_lookup_fmap in E. unfold the_port.
  destruct (ports e' !! p) as [x|], (ports e !! p) as [y|]; cbn in E; try done.
  apply (inj Some) in E. cbn. by rewrite <- (Hg x), <- (Hg y), E.
Qed.

Lemma graph_frame_length e e' : graph_frame e e' -> length (ports e') = length (ports e).
Proof.
  intros [_ E]. apply (f_equal ports), (f_equal length) in E. cbn in E. by rewrite !length_fmap in E.
Qed.

(** ** Establishing it *)

Lemma graph_frame_eq e e' : clients e' = clients e -> eother e' = eother e -> graph_frame e e'.
Proof. intros E1 E2. constructor; [by rewrite E1|done]. Qed.

Lemma graph_frame_stores e e' :
  clients e' ≡ₚ clients e -> cother <$> client_store e' = cother <$> client_store e ->
  pother <$> ports e' = pother <$> ports e ->
  eother (e' <| client_store := ∅ |> <| ports := [] |>)
    = eother (e <| client_store := ∅ |> <| ports := [] |>) ->
  graph_frame e e'.
Proof.
  intros Hc Es Ep Eo. constructor; [done|].
  pose (put := fun s ps r => r <| client_store := s |> <| ports := ps |> : engine).
  change (put (cother <$> client_store e') (pother <$> ports e')
            (eother (e' <| client_store := ∅ |> <| ports := [] |>))
          = put (cother <$> client_store e) (pother <$> ports e)
            (eother (e <| client_store := ∅ |> <| ports := [] |>))).
  clearbody put. congruence.
Qed.

Lemma graph_frame_upd_client c f e :
  (forall x, cother (f x) = cother x) -> graph_frame e (upd_client c f e).
Proof.
  intros Hf. apply graph_frame_stores; [done| |done|done].
  unfold upd_client. cbn. apply map_eq. intros i. rewrite !lookup_fmap.
  destruct (decide (c = i)) as [->|].
  - rewrite lookup_alter_eq. destruct (client_store e !! i); cbn; [by rewrite Hf|done].
  - by rewrite lookup_alter_ne.
Qed.

Lemma graph_frame_upd_port p f e :
  (forall x, pother (f x) = pother x) -> graph_frame e (upd_port p f e).
Proof.
  intros Hf. apply graph_frame_stores; [done|done| |done].
  unfold upd_port. cbn. apply list_eq. intros i. rewrite !list_lookup_fmap.
  destruct (decide (p = i)) as [->|].
  - rewrite list_lookup_alter_eq. destruct (ports e !! i); cbn; [by rewrite Hf|done].
  - by rewrite list_lookup_alter_ne.
Qed.

Lemma cother_no_error x : cother (no_error x) = cother x.
Proof. unfold cother, no_error. cbn. by destruct (dead x). Qed.

Lemma graph_frame_event e e' : event_frame e e' -> graph_frame e e'.
Proof.
  intros H. constructor; [by rewrite (event_frame_get clients e e')|].
  pose proof H as [Hc Hr].
  assert (E : cother <$> client_store e' = cother <$> client_store e).
  { apply map_eq. intros c. rewrite !lookup_fmap. specialize (Hc c).
    destruct (client_store e' !! c) as [x|], (client_store e !! c) as [y|]; cbn in *; try done.
    apply (inj Some) in Hc. f_equal. by rewrite <- (cother_no_error x), <- (cother_no_error y), Hc. }
  assert (Eo : forall x, eother x = (x <| client_store := ∅ |> <| problems := 0 |> <| events := [] |>
                 <| io_count := 0%nat |>) <| client_store := cother <$> client_store x |>
                 <| clients := [] |> <| ports ::= fmap pother |>
                 <| conn_store := ∅ |> <| feedbackcount := 0 |> <| fifo := [] |> <| timeout_count := 0 |> <| crashed := false |>)
    by done.
  by rewrite (Eo e'), (Eo e), Hr, E.
Qed.

Lemma graph_frame_foldl {A} (f : engine -> A -> engine) l e :
  (forall e a, graph_frame e (f e a)) -> graph_frame e (foldl f e l).
Proof.
  intros Hf. revert e. induction l as [|a l IH]; intros e; cbn; [done|]. etrans; [apply Hf|apply IH].
Qed.

(** Close a goal about a single update. *)
Ltac frame_step :=
  first [ done | apply graph_frame_upd_client; by intros
        | apply graph_frame_upd_port; by intros
        | apply graph_frame_eq; done ].

Lemma frame_latencies e : graph_frame e (jack_compute_all_port_total_latencies e).
Proof.
  apply graph_frame_foldl. intros e1 p. unfold jack_compute_port_total_latency.
  destruct (in_use _); frame_step.
Qed.

Lemma frame_record_feeds s d e : graph_frame e (record_feeds s d e).2.
Proof.
  unfold record_feeds. destruct (is_driver _); [done|]. destruct (decide _); [|done].
  set (e1 := upd_client s _ e). set (e2 := upd_client d _ e1).
  assert (H : graph_frame e e2) by (transitivity e1; frame_step). clearbody e2. cbn zeta.
  transitivity e2; [done|]. destruct (_ || _); cbn [snd]; [|frame_step].
  transitivity (upd_client d (fun x => x <| sortfeeds ::= cons s |>) e2); frame_step.
Qed.

Lemma frame_forget_feeds dr s d e : graph_frame e (forget_feeds dr s d e).
Proof.
  unfold forget_feeds. destruct (dr =? 0); [done|].
  set (e1 := upd_client s _ e). set (e2 := upd_client d _ e1).
  assert (H : graph_frame e e2) by (transitivity e1; frame_step). clearbody e2. cbn zeta.
  transitivity e2; [done|]. destruct (dr =? 1); [frame_step|].
  transitivity (upd_client d (fun x => x <| sortfeeds ::= slist_remove s |>) e2); frame_step.
Qed.

Lemma frame_add_connection sp dp s d e : graph_frame e (add_connection sp dp s d e).
Proof.
  unfold add_connection. pose proof (frame_record_feeds s d e) as H.
  destruct (record_feeds s d e) as [dr e1]. cbn [snd] in H. cbn zeta.
  set (e2 := e1 <| conn_store ::= _ |>).
  assert (H2 : graph_frame e1 e2) by frame_step. clearbody e2.
  transitivity e1; [done|]. transitivity e2; [done|].
  transitivity (upd_port dp (fun p => p <| connections ::= cons (fresh (dom (conn_store e1))) |>) e2);
    frame_step.
Qed.

Lemma frame_unlink_ports sp dp k e : graph_frame e (unlink_ports sp dp k e).
Proof.
  unfold unlink_ports. set (e1 := upd_port sp _ e). set (e2 := upd_port dp _ e1).
  assert (H : graph_frame e e2) by (transitivity e1; frame_step). clearbody e2. cbn zeta.
  transitivity e2; [done|]. destruct (decide _); frame_step.
Qed.

Lemma frame_reverse_feedback e k : graph_frame e (reverse_feedback e k).
Proof.
  unfold reverse_feedback. destruct (_ =? -1); [|done]. cbn zeta.
  match goal with |- graph_frame e (upd_client ?c ?f ?e2) => transitivity e2; [|frame_step] end.
  match goal with |- graph_frame e (upd_client ?c ?f ?e2) => transitivity e2; [|frame_step] end.
  frame_step.
Qed.

Lemma frame_check_acyclic e : graph_frame e (jack_check_acyclic e).
Proof.
  unfold jack_check_acyclic. set (e1 := foldl _ e (clients e)).
  assert (H1 : graph_frame e e1) by (apply graph_frame_foldl; intros; frame_step). clearbody e1.
  assert (Hl : forall fuel u st x r, acyclic_loop fuel u st x = Some r -> graph_frame x r.2).
  { induction fuel as [|fuel IH]; intros u st x r; cbn; [done|]. destruct (_ && _).
    - unfold acyclic_pass.
      assert (Hp : forall l st, graph_frame st.2 (foldl acyclic_visit st l).2).
      { induction l as [|c l IHl]; intros s; [done|]. cbn [foldl]. etrans; [|apply IHl].
        destruct s as [[u1 s1] x1]. unfold acyclic_visit. destruct (_ =? 0); [|done]. cbn [snd].
        etrans; [|apply graph_frame_foldl; intros; frame_step]. frame_step. }
      specialize (Hp (clients x) (u, true, x)). destruct (foldl _ _ _) as [[u' st'] x'].
      intros Hr. apply IH in Hr. by etrans.
    - by intros [= <-]. }
  destruct (acyclic_loop _ _ _ e1) as [[st e2]|] eqn:El; [|done].
  apply Hl in El. cbn in El. transitivity e1; [done|]. destruct st; [done|].
  transitivity e2; [done|]. set (e3 := foldl _ e2 (clients e2)).
  assert (H3 : graph_frame e2 e3).
  { apply graph_frame_foldl. intros. apply graph_frame_foldl. intros.
    apply graph_frame_foldl. intros. apply frame_reverse_feedback. }
  clearbody e3. transitivity e3; [done|frame_step].
Qed.

Section io.
Context (env : environment).

Lemma frame_fifo n e : graph_frame e (jack_get_fifo_fd env n e).2.
Proof.
  unfold jack_get_fifo_fd. destruct (negb _); [done|].
  destruct (_ >=? _); cbn zeta; destruct (_ <? 0); frame_step.
Qed.

Lemma frame_chain c s e :
  graph_frame e (chain_internal env c s e).2 /\ graph_frame e (chain_external env c s e).2.
Proof.
  split.
  - unfold chain_internal. set (r := match ch_subgraph s with Some _ => _ | None => _ end).
    assert (Hr : graph_frame e r.2).
    { unfold r. destruct (ch_subgraph s) as [q|]; [|done]. pose proof (frame_fifo (ch_n s) e) as Hk.
      destruct (jack_get_fifo_fd _ _ _) as [fd e1]. cbn [snd] in *. etrans; [exact Hk|]. frame_step. }
    clearbody r. destruct r as [n e1].
    pose proof (graph_frame_event e1 _ (deliver_frame env c (GraphReordered (ch_event s).1 (ch_event s).2) e1)) as Hd.
    destruct (jack_deliver_event _ _ _ _) as [st e2]. cbn [snd] in *. by etrans.
  - unfold chain_external. set (r := match ch_subgraph s with None => _ | Some _ => _ end).
    assert (Hr : graph_frame e r.2).
    { unfold r. destruct (ch_subgraph s) as [q|]; [cbn [snd]; frame_step|].
      pose proof (frame_fifo (ch_n s) e) as Hk.
      destruct (jack_get_fifo_fd _ _ _) as [fd e1]. cbn [snd] in *. etrans; [exact Hk|]. frame_step. }
    clearbody r. destruct r as [[sub up] e1]. cbn [snd] in Hr.
    pose proof (frame_fifo (execution_order (the_client e1 c) + 1) e1) as Hk.
    destruct (jack_get_fifo_fd _ _ e1) as [fd e2]. cbn [snd] in Hk.
    pose proof (graph_frame_event e2 _ (deliver_frame env c (GraphReordered (execution_order (the_client e1 c)) up) e2)) as Hd.
    destruct (jack_deliver_event _ _ _ e2) as [st e3]. cbn [snd] in *. etrans; [exact Hr|]. by etrans.
Qed.

Lemma frame_rechain e : graph_frame e (jack_rechain_graph env e).
Proof.
  unfold jack_rechain_graph.
  assert (Hl : forall fuel l s e, graph_frame e (rechain_loop env fuel l s e).2).
  { induction fuel as [|fuel IH]; intros l s e1; [done|]. destruct l as [|c next]; [done|].
    cbn [rechain_loop]. destruct (negb _); [apply IH|]. destruct (active _); [|apply IH].
    set (e2 := upd_client c _ e1). assert (E2 : graph_frame e1 e2) by frame_step. clearbody e2.
    destruct (frame_chain c s e2) as [K1 K2]. destruct (jack_client_is_internal _).
    - destruct (chain_internal _ _ _ _) as [s3 e3]. cbn [snd] in *.
      etrans; [exact E2|]. etrans; [exact K1|]. apply IH.
    - destruct (chain_external _ _ _ _) as [s3 e3]. cbn [snd] in *.
      etrans; [exact E2|]. etrans; [exact K2|]. apply IH. }
  pose proof (Hl (length (clients e)) (clients e) (mk_chain 0 None (0, 0)) e) as H.
  destruct (rechain_loop _ _ _ _ _) as [s e1]. cbn [snd] in H. destruct (ch_subgraph s) as [q|]; [|done].
  pose proof (frame_fifo (ch_n s) e1) as Hk. destruct (jack_get_fifo_fd _ _ _) as [fd e2].
  cbn [snd] in Hk. etrans; [exact H|]. etrans; [exact Hk|]. frame_step.
Qed.

Lemma frame_new_latency e : graph_frame e (jack_compute_new_latency env e).
Proof.
  assert (Hd : forall ev x, graph_frame x (deliver_driver env ev x)).
  { intros ev x. unfold deliver_driver. destruct (driver x); [|done]. apply graph_frame_event, deliver_frame. }
  unfold jack_compute_new_latency. cbn zeta.
  etrans; [|apply Hd]. etrans; [|apply graph_frame_event, deliver_where_frame].
  etrans; [|apply Hd]. apply graph_frame_event, deliver_where_frame.
Qed.

(** [jack_compute_new_latency] follows [engine->driver] without a test: a server that sorts its
    graph before it has a driver goes down, and this is the only way. *)
Lemma new_latency_crashed e :
  crashed (jack_compute_new_latency env e) = crashed e || bool_decide (driver e = None).
Proof.
  assert (K : forall cond ev l x, crashed (deliver_where env cond ev l x) = crashed x /\ driver (deliver_where env cond ev l x) = driver x).
  { intros cond ev l x. pose proof (deliver_where_frame env cond ev l x) as F.
    split; [by apply (event_frame_get crashed)|by apply (event_frame_get driver)]. }
  assert (D : forall ev x, crashed (deliver_driver env ev x) = crashed x || bool_decide (driver x = None) /\ driver (deliver_driver env ev x) = driver x).
  { intros ev x. unfold deliver_driver. destruct (driver x) as [c|] eqn:E; [|cbn; by rewrite E, orb_true_r].
    pose proof (deliver_frame env c ev x) as F. rewrite (event_frame_get crashed x _ ltac:(done) F), (event_frame_get driver x _ ltac:(done) F).
    by rewrite orb_false_r. }
  unfold jack_compute_new_latency. cbv zeta. rewrite (proj1 (D _ _)), !(proj1 (K _ _ _ _)), !(proj2 (K _ _ _ _)).
  rewrite (proj1 (D _ _)), (proj2 (D _ _)), (proj1 (K _ _ _ _)), (proj2 (K _ _ _ _)). by destruct (crashed e), (bool_decide _).
Qed.

Lemma frame_sort_graph e : graph_frame e (jack_sort_graph env e).
Proof.
  unfold jack_sort_graph. cbn zeta. set (e1 := e <| clients ::= _ |>).
  assert (H1 : graph_frame e e1) by (constructor; [apply sort_fuel_perm|done]). clearbody e1.
  transitivity e1; [done|]. etrans; [apply frame_latencies|]. etrans; [apply frame_rechain|].
  etrans; [apply frame_new_latency|]. frame_step.
Qed.

Lemma frame_disconnect_found sp dp k e : graph_frame e (disconnect_found env sp dp k e).
Proof.
  unfold disconnect_found. cbn zeta. set (e1 := unlink_ports sp dp k e).
  assert (H1 : graph_frame e e1) by apply frame_unlink_ports. clearbody e1.
  set (e2 := notify_connection _ _ _ _ _ _ e1).
  assert (H2 : graph_frame e1 e2) by apply graph_frame_event, notify_frame. clearbody e2.
  transitivity e1; [done|]. transitivity e2; [done|].
  match goal with |- graph_frame e2 (assign conn_store _ ?x) =>
    assert (H3 : graph_frame e2 x); [|generalize dependent x; intros e3 H3; transitivity e3; [done|frame_step]]
  end.
  destruct (jack_client_internal_by_id e2 _); [|done].
  destruct (jack_client_internal_by_id e2 _); [|done]. apply frame_forget_feeds.
Qed.

Lemma frame_disconnect_internal sp dp e :
  graph_frame e (jack_port_disconnect_internal env sp dp e).2.
Proof.
  unfold jack_port_disconnect_internal. cbn zeta.
  destruct (find _ _) as [k|].
  - pose proof (frame_disconnect_found sp dp k e) as H1. revert H1.
    generalize (disconnect_found env sp dp k e). intros e1 H1. cbn [snd].
    transitivity e1; [done|]. destruct (negb _).
    + transitivity (jack_check_acyclic e1); [apply frame_check_acyclic|apply frame_sort_graph].
    + apply frame_sort_graph.
  - cbn [snd]. destruct (negb _); [|apply frame_sort_graph].
    transitivity (jack_check_acyclic e); [apply frame_check_acyclic|apply frame_sort_graph].
Qed.

Lemma frame_clear_connections p e : graph_frame e (jack_port_clear_connections env p e).
Proof.
  unfold jack_port_clear_connections. cbn zeta. set (e1 := foldl _ e _).
  assert (H1 : graph_frame e e1)
    by (apply graph_frame_foldl; intros; apply frame_disconnect_internal).
  clearbody e1. transitivity e1; [done|frame_step].
Qed.

Lemma frame_connect s d e : graph_frame e (jack_port_do_connect env s d e).2.
Proof.
  unfold jack_port_do_connect. repeat (case_match; try done).
  unfold connect_locked. destruct (_ && _); [done|]. cbn [snd].
  etrans; [|apply frame_sort_graph]. etrans; [|apply graph_frame_event, notify_frame].
  apply frame_add_connection.
Qed.

End io.
End GraphFrame.
