(* ===== verification/Ports.v ===== *)
(** * Ports and their buffers (server/engine.c, libjack/port.c)

    Registration and removal of ports, the free lists of port buffers, and
    the layout of the buffers in the shared segment of each port type.  A
    result [None] of the layout stands for undefined behaviour of the source
    (a write behind the array of descriptions, a NULL dereference) or for a
    loop that does not end. *)

From S2P Require Import Prelude JSList Engine Events Graph.
From stdpp Require Import pretty.

Local Open Scope Z_scope.

Module Ports.
Import JSList Events Graph.

Definition JACK_DEFAULT_AUDIO_TYPE : string := "32 bit float mono audio".
Definition JACK_DEFAULT_MIDI_TYPE : string := "8 bit raw midi".
Definition JACK_BACKEND_ALIAS : string := "system".
Definition JACK_AUDIO_PORT_TYPE : Z := 0.
Definition ENXIO : Z := 6.

(** [req->x.port_info]. *)
Record port_request := mk_request {
  req_name : string;
  req_type : string;
  req_flags : Z;
  req_client_id : Z;
  req_port_id : Z
}.

(** ** The buffer lists *)

Definition jack_port_buffer_list (e : engine) (p : port_ptr) : port_buffer_list :=
  default (mk_blist [] None) (port_buffers e !! Z.to_nat (ptype_id (the_port e p))).

Definition upd_blist (t : Z) (f : port_buffer_list -> port_buffer_list) (e : engine) : engine :=
  e <| port_buffers ::= alter f (Z.to_nat t) |>.

(** [bi->offset]. *)
Definition bi_offset (b : port_buffer_list) (bi : nat) : Z :=
  default [] (blist_info b) !!! bi.

Definition jack_port_assign_buffer (p : port_ptr) (e : engine) : Z * engine :=
  let blist := jack_port_buffer_list e p in
  if has_flag (flags (the_port e p)) JackPortIsInput then
    (0, upd_port p (fun x => x <| p_offset := 0 |>) e)
  else
    match blist_freelist blist with
    | [] => (-1, e)
    | bi :: _ =>
        let e := upd_blist (ptype_id (the_port e p))
                   (fun b => b <| blist_freelist ::= slist_remove bi |>) e in
        (0, upd_port p (fun x => x <| p_offset := bi_offset blist bi |>
                                   <| buffer_info := Some bi |>) e)
    end.

Definition jack_port_release (p : port_ptr) (e : engine) : engine :=
  let e := upd_port p (fun x => x <| in_use := false |> <| alias1 := "" |> <| alias2 := "" |>) e in
  match buffer_info (the_port e p) with
  | Some bi =>
      let e := upd_blist (ptype_id (the_port e p))
                 (fun b => b <| blist_freelist ::= cons bi |>) e in
      upd_port p (fun x => x <| buffer_info := None |>) e
  | None => e
  end.

(** The first free slot of the port table, marked as used. *)
Definition jack_get_free_port (e : engine) : option port_ptr * engine :=
  match find_port (fun p => negb (in_use p)) 0 (ports e) with
  | Some i => (Some i, upd_port i (fun x => x <| in_use := true |>) e)
  | None => (None, e)
  end.

(** ** Registration *)

(** The index of the port type with this name. *)
Fixpoint find_port_type (name : string) (i : nat) (l : list port_type) : option nat :=
  match l with
  | [] => None
  | t :: l => if String.eqb name (type_name t) then Some i else find_port_type name (S i) l
  end.

(** [(flags & (a|b)) == (a|b)]. *)
Definition has_flags (fl bits : Z) : bool := Z.land fl bits =? bits.

(** [name + n]. *)
Definition skip (n : nat) (s : string) : string := String.substring n (String.length s - n) s.

(** The name, the first alias and the counters a new port gets: ports of the
    backend get predefined names, their own name becomes an alias. *)
Definition port_naming (req : port_request) (internal : bool) (x : port) (e : engine)
    : port * engine :=
  let name := req_name req in
  let fallback := (x <| p_name := name |>, e) in
  match internal, driver e with
  | true, Some d =>
      if String.prefix (c_name (the_client e d)) name then
        let prefix_len := if String.prefix "alsa_pcm:alsa_midi:" name then 9%nat else 0%nat in
        let playback := has_flags (req_flags req) (Z.lor JackPortIsPhysical JackPortIsInput) in
        let capture := has_flags (req_flags req) (Z.lor JackPortIsPhysical JackPortIsOutput) in
        let rename (kind : string) (n : Z) (alias : string) :=
          x <| p_name := (JACK_BACKEND_ALIAS +:+ kind +:+ pretty n)%string |> <| alias1 := alias |> in
        if String.eqb (req_type req) JACK_DEFAULT_AUDIO_TYPE then
          if playback then
            let n := s32 (audio_out_cnt e + 1) in
            (rename ":playback_"%string n name, e <| audio_out_cnt := n |>)
          else if capture then
            let n := s32 (audio_in_cnt e + 1) in
            (rename ":capture_"%string n name, e <| audio_in_cnt := n |>)
          else fallback
        else if String.eqb (req_type req) JACK_DEFAULT_MIDI_TYPE then
          if playback then
            let n := s32 (midi_out_cnt e + 1) in
            (rename ":midi_playback_"%string n (skip prefix_len name), e <| midi_out_cnt := n |>)
          else if capture then
            let n := s32 (midi_in_cnt e + 1) in
            (rename ":midi_capture_"%string n (skip prefix_len name), e <| midi_in_cnt := n |>)
          else fallback
        else fallback
      else fallback
  | _, _ => fallback
  end.

Section io.
Context (env : environment).

(** [req->x.port_info.port_id] after the call is the second component. *)
Definition jack_port_do_register (req : port_request) (internal : bool) (e : engine)
    : Z * Z * engine :=
  let error (e : engine) := (-1, req_port_id req, e) in
  match find_port_type (req_type req) 0 (port_types e) with
  | None => error e
  | Some i =>
      match jack_client_internal_by_id e (req_client_id req) with
      | None => error e
      | Some c =>
          match jack_get_port_by_name e (req_name req) with
          | Some _ => error e
          | None =>
              match jack_get_free_port e with
              | (None, e) => error e
              | (Some p, e) =>
                  let '(x, e) := port_naming req internal (the_port e p) e in
                  let ptid := from_option pt_id 0 (port_types e !! i) in
                  let e := upd_port p (fun _ =>
                             x <| ptype_id := ptid |> <| client_id := req_client_id req |>
                               <| flags := req_flags req |> <| latency := 0 |>
                               <| monitor_requests := 0 |> <| connections := [] |>
                               <| buffer_info := None |>) e in
                  let '(rc, e) := jack_port_assign_buffer p e in
                  if negb (rc =? 0) then error (jack_port_release p e)
                  else
                    let e := upd_client c (fun x => x <| c_ports ::= cons p |>) e in
                    let e := if active (the_client e c)
                             then jack_port_registration_notify env (Z.of_nat p) true e else e in
                    (0, Z.of_nat p, e)
              end
          end
      end
  end.

(** [port_id] is an unsigned integer.  [None]: the check lets [port_max]
    through, and [control->ports[port_max]] lies behind the port table. *)
Definition jack_port_do_unregister (req : port_request) (e : engine) : option (Z * engine) :=
  if req_port_id req >? zlen (ports e) then Some (-1, e)
  else
    let p := Z.to_nat (req_port_id req) in
    shared ← ports e !! p;
    if negb (client_id shared =? req_client_id req) then Some (-1, e)
    else
      match jack_client_internal_by_id e (client_id shared) with
      | None => Some (-1, e)
      | Some c =>
          let e := jack_port_clear_connections env p e in
          let e := jack_port_release p e in
          let e := upd_client c (fun x => x <| c_ports ::= slist_remove p |>) e in
          Some (0, jack_port_registration_notify env (req_port_id req) false e)
      end.

(** The ports at the other ends of a port's connections, in list order: the
    ids written to an external client, whose ports an internal client gets
    the names of.  [None]: the id is not checked at all. *)
Definition other_end (e : engine) (p : port_ptr) (k : conn_ptr) : Z :=
  let x := the_conn e k in
  if bool_decide (source x = p) then p_id (the_port e (destination x))
  else p_id (the_port e (source x)).

Definition jack_do_get_port_connections (port_id : Z) (e : engine) : option (list Z) :=
  let p := Z.to_nat port_id in
  port ← ports e !! p;
  Some (other_end e p <$> connections port).

(** ** The layout of a segment *)

Definition jack_port_type_buffer_size (t : port_type) (nframes : Z) : Z :=
  if buffer_scale_factor t <? 0 then pt_buffer_size t
  else u64 (buffer_scale_factor t * 4 * nframes).

(** [while (offset < size) { bi->offset = offset; offset += one_buffer; ++bi; }] *)
Fixpoint recompute_offsets (fuel : nat) (one_buffer size offset : Z) (bi : nat) (info : list Z)
    : option (list Z) :=
  match fuel with
  | O => None
  | S fuel =>
      if offset <? size then
        if decide (bi < length info)%nat then
          recompute_offsets fuel one_buffer size (s32 (offset + one_buffer)) (S bi)
            (<[bi := offset]> info)
        else None
      else Some info
  end.

(** The same loop of the allocation, which also appends to the free list. *)
Fixpoint chain_buffers (fuel : nat) (one_buffer size offset : Z) (bi : nat) (info : list Z)
    (free : list nat) : option (list Z * list nat) :=
  match fuel with
  | O => None
  | S fuel =>
      if offset <? size then
        if decide (bi < length info)%nat then
          chain_buffers fuel one_buffer size (s32 (offset + one_buffer)) (S bi)
            (<[bi := offset]> info) (free ++ [bi])
        else None
      else Some (info, free)
  end.

(** The part for a type whose array exists: the offsets of output ports follow. *)
Definition replace_offsets (ptid : Z) (info : list Z) (x : port) : port :=
  if in_use x && has_flag (flags x) JackPortIsOutput && (ptype_id x =? ptid) then
    match buffer_info x with
    | Some bi => x <| p_offset := info !!! bi |>
    | None => x
    end
  else x.

(** [block] is what [malloc] returns for the array. *)
Definition jack_engine_place_port_buffers (block : list Z) (ptid one_buffer size nports nframes : Z)
    (e : engine) : option engine :=
  pti ← port_buffers e !! Z.to_nat ptid;
  let fuel := S (Z.to_nat size) in
  '(info, e) ←
    match blist_info pti with
    | Some info =>
        info ← recompute_offsets fuel one_buffer size 0 0 info;
        let e := upd_blist ptid (fun b => b <| blist_info := Some info |>) e in
        Some (info, e <| ports ::= fmap (replace_offsets ptid info) |>)
    | None =>
        '(info, free) ← chain_buffers fuel one_buffer size 0 0 block (blist_freelist pti);
        match free with
        | [] => None
        | bi :: free =>
            let e := upd_blist ptid (fun _ => mk_blist free (Some info)) e in
            let e := e <| port_types ::= alter (fun t => t <| zero_buffer_offset := info !!! bi |>)
                                               (Z.to_nat ptid) |> in
            Some (info, if ptid =? JACK_AUDIO_PORT_TYPE then e <| silent_buffer := Some bi |> else e)
        end
    end;
  offsets ← mapM (fun i => info !! i) (seq 0 (Z.to_nat nports));
  Some (e <| buffer_inits ::= fun l => l ++ ((fun off => (ptid, off, one_buffer, nframes)) <$> offsets) |>).

(** What the memory allocators answer: the address of the segment of a type
    once it has been allocated and attached, or whether it could be resized;
    and the block [malloc] returns for that many buffer descriptions. *)
Record allocator := mk_allocator {
  al_shmalloc : Z -> Z -> option Z;
  al_resize : Z -> Z -> bool;
  al_malloc : Z -> list Z
}.

Section memory.
Context (mem : allocator).

(** The outer [None] is undefined behaviour, -1 the error return. *)
Definition jack_resize_port_segment (ptid nports : Z) (e : engine) : option (Z * engine) :=
  t ← port_types e !! Z.to_nat ptid;
  let one_buffer := s32 (jack_port_type_buffer_size t (buffer_size (control e))) in
  let size := s32 (nports * one_buffer) in
  let attached :=
    if default 0 (port_segment e !! Z.to_nat ptid) =? 0 then
      match al_shmalloc mem ptid size with
      | Some addr => Some (e <| port_segment ::= <[Z.to_nat ptid := addr]> |>)
      | None => None
      end
    else if al_resize mem ptid size then Some e else None in
  match attached with
  | None => Some (-1, e)
  | Some e =>
      e ← jack_engine_place_port_buffers (al_malloc mem nports) ptid one_buffer size nports
            (buffer_size (control e)) e;
      Some (0, jack_deliver_event_to_all env (AttachPortSegment ptid) e)
  end.

Fixpoint resize_all (ptids : list nat) (e : engine) : option (Z * engine) :=
  match ptids with
  | [] => Some (0, e)
  | i :: l =>
      '(rc, e) ← jack_resize_port_segment (Z.of_nat i) (zlen (ports e)) e;
      if negb (rc =? 0) then Some (-1, e) else resize_all l e
  end.

Definition jack_driver_buffer_size (nframes : Z) (e : engine) : option (Z * engine) :=
  let e := upd_control (fun c => c <| buffer_size := nframes |>) e in
  '(rc, e) ← resize_all (seq 0 (length (port_types e))) e;
  if negb (rc =? 0) then Some (-1, e)
  else Some (0, jack_deliver_event_to_all env BufferSizeChange e).

End memory.

(** ** Changing the buffer size *)

Definition jack_power_of_two (n : Z) : bool := Z.land n (u32 (n - 1)) =? 0.

(** [bufsize] is the method of the driver. *)
Definition jack_set_buffer_size_request (bufsize : Z -> engine -> Z * engine) (nframes : Z)
    (e : engine) : Z * engine :=
  match driver e with
  | None => (ENXIO, e)
  | Some _ => if negb (jack_power_of_two nframes) then (EINVAL, e) else bufsize nframes e
  end.

End io.
End Ports.
