(* ===== verification/PortsInv.v ===== *)
(** * The port table and its buffers: invariant and correctness

    Every output port holds a buffer of its type that no other port holds
    and that is not the zero buffer; the offsets follow the layout of the
    segment.  Registration, removal and a change of the buffer size keep
    this, and with it the invariant of the graph. *)

From S2P Require Import Prelude JSList Engine Events Graph GraphInv Connect GraphFrame Ports.

Local Open Scope Z_scope.

Module PortsInv.
Import JSList Events Graph GraphInv Connect GraphFrame Ports.

(** ** The invariant *)

(** The buffer of type [t] a port holds. *)
Definition holds (t : nat) (x : port) : option nat :=
  if in_use x && (ptype_id x =? Z.of_nat t) then buffer_info x else None.

Definition held (e : engine) (t : nat) : list nat := omap (holds t) (ports e).

(** [n] buffers of [one] bytes each, one behind the other. *)
Definition layout (one : Z) (n : nat) : list Z := (fun i => Z.of_nat i * one) <$> seq 0 n.

Record buffers_inv (e : engine) : Prop := {
  bi_length : length (port_buffers e) = length (port_types e);
  bi_nodup : forall t b, port_buffers e !! t = Some b -> NoDup (blist_freelist b ++ held e t);
  bi_range : forall t b i, port_buffers e !! t = Some b -> i ∈ blist_freelist b ++ held e t ->
    (1 <= i < length (ports e))%nat;
  bi_layout : forall t b, port_buffers e !! t = Some b ->
    match blist_info b with
    | None => blist_freelist b ++ held e t = []
    | Some info => exists one, 0 < one /\ info = layout one (length (ports e))
    end
}.

(** What holds of a port in use. *)
Definition port_ok (e : engine) (x : port) : Prop :=
  0 <= ptype_id x < zlen (port_types e) /\
  if has_flag (flags x) JackPortIsInput then buffer_info x = None /\ p_offset x = 0
  else exists bi, buffer_info x = Some bi /\
    (has_flag (flags x) JackPortIsOutput = true ->
     p_offset x = bi_offset (default (mk_blist [] None) (port_buffers e !! Z.to_nat (ptype_id x))) bi).

Record port_inv (e : engine) : Prop := {
  pi_buffers : buffers_inv e;
  pi_type_ids : forall i t, port_types e !! i = Some t -> pt_id t = Z.of_nat i;
  pi_ids : forall p x, ports e !! p = Some x -> p_id x = Z.of_nat p;
  pi_ports : forall p x, ports e !! p = Some x -> in_use x = true -> port_ok e x;
  pi_listed : forall c p, c ∈ clients e -> p ∈ c_ports (the_client e c) ->
    exists x, ports e !! p = Some x /\ in_use x = true /\ client_id x = c_id (the_client e c);
  pi_nodup : forall c, c ∈ clients e -> NoDup (c_ports (the_client e c));
  pi_unused : forall p x, ports e !! p = Some x -> in_use x = false ->
    buffer_info x = None \/ client_id x = 0;
  pi_nonzero : forall c, c ∈ clients e -> c_id (the_client e c) <> 0
}.

(** ** Lists *)

Lemma omap_insert_perm {A B} (f : A -> option B) (l : list A) i x :
  l !! i = Some x ->
  exists rest, omap f l ≡ₚ olist (f x) ++ rest /\
    forall y, omap f (<[i := y]> l) ≡ₚ olist (f y) ++ rest.
Proof.
  intros Hi. exists (omap f (take i l) ++ omap f (drop (S i) l)). split.
  - rewrite <- (take_drop_middle l i x Hi) at 1. rewrite omap_app, omap_cons_olist.
    rewrite !app_assoc. f_equiv. apply Permutation_app_comm.
  - intros y. assert (Hl : (i < length l)%nat) by (by eapply lookup_lt_Some).
    rewrite insert_take_drop by done. rewrite omap_app, omap_cons_olist.
    rewrite !app_assoc. f_equiv. apply Permutation_app_comm.
Qed.

Lemma layout_lookup one n i : (i < n)%nat -> layout one n !!! i = Z.of_nat i * one.
Proof.
  intros Hi. apply list_lookup_total_correct. unfold layout.
  rewrite list_lookup_fmap, lookup_seq_lt by done. done.
Qed.

(** ** Changing one port *)

Section change.
Context (e : engine) (p : port_ptr) (x y : port).
Context (Hx : ports e !! p = Some x).

Lemma holds_in_held t i : holds t x = Some i -> i ∈ held e t.
Proof. intros E. apply list_elem_of_omap. exists x. split; [by eapply list_elem_of_lookup_2|done]. Qed.

(** The lists of held buffers change at that port only. *)
Lemma held_change t e' :
  ports e' = <[p := y]> (ports e) ->
  exists rest, held e t ≡ₚ olist (holds t x) ++ rest /\ held e' t ≡ₚ olist (holds t y) ++ rest.
Proof.
  intros E. destruct (omap_insert_perm (holds t) (ports e) p x Hx) as (rest & H1 & H2).
  exists rest. split; [done|]. unfold held. rewrite E. apply H2.
Qed.

(** A buffer moves between the free list and the port, or stays. *)
Lemma buffers_inv_change e' :
  buffers_inv e -> ports e' = <[p := y]> (ports e) -> port_types e' = port_types e ->
  length (port_buffers e') = length (port_buffers e) ->
  (forall t b', port_buffers e' !! t = Some b' ->
     exists b, port_buffers e !! t = Some b /\ blist_info b' = blist_info b /\
       blist_freelist b' ++ olist (holds t y) ≡ₚ blist_freelist b ++ olist (holds t x)) ->
  buffers_inv e'.
Proof.
  intros B Ep Et El Hb.
  assert (Len : length (ports e') = length (ports e)) by (rewrite Ep; apply length_insert).
  assert (P : forall t b', port_buffers e' !! t = Some b' -> exists b, port_buffers e !! t = Some b /\
    blist_info b' = blist_info b /\ blist_freelist b' ++ held e' t ≡ₚ blist_freelist b ++ held e t).
  { intros t b' Hb'. destruct (Hb t b' Hb') as (b & Hb1 & Hi & Hp). exists b. split_and!; [done|done|].
    destruct (held_change t e' Ep) as (rest & -> & ->). by rewrite !app_assoc, Hp. }
  constructor.
  - rewrite El, Et. apply B.
  - intros t b' Hb'. destruct (P t b' Hb') as (b & H1 & _ & ->). by apply (bi_nodup e B).
  - intros t b' i Hb'. destruct (P t b' Hb') as (b & H1 & _ & ->). rewrite Len. by apply (bi_range e B).
  - intros t b' Hb'. destruct (P t b' Hb') as (b & H1 & -> & Hp). rewrite Len.
    pose proof (bi_layout e B t b H1) as L. destruct (blist_info b); [done|].
    apply Permutation_nil. by rewrite Hp, L.
Qed.

End change.

(** The arrays of descriptions are the same. *)
Definition same_info (e e' : engine) : Prop :=
  forall t : nat, blist_info <$> port_buffers e' !! t = blist_info <$> port_buffers e !! t.

#[global] Instance same_info_preorder : PreOrder same_info.
Proof. split; [done|]. intros e1 e2 e3 H1 H2 t. by rewrite H2. Qed.

Lemma same_info_length e e' : same_info e e' -> length (port_buffers e') = length (port_buffers e).
Proof.
  intros S. assert (E : blist_info <$> port_buffers e' = blist_info <$> port_buffers e)
    by (apply list_eq; intros t; by rewrite !list_lookup_fmap).
  apply (f_equal length) in E. by rewrite !length_fmap in E.
Qed.

Lemma same_info_offset e e' (t bi : nat) :
  same_info e e' ->
  bi_offset (default (mk_blist [] None) (port_buffers e' !! t)) bi
    = bi_offset (default (mk_blist [] None) (port_buffers e !! t)) bi.
Proof.
  intros S. specialize (S t). unfold bi_offset.
  destruct (port_buffers e' !! t), (port_buffers e !! t); cbn in *; try done.
  by apply (inj Some) in S as ->.
Qed.

Lemma port_ok_same_info e e' x :
  same_info e e' -> length (port_types e') = length (port_types e) -> port_ok e x -> port_ok e' x.
Proof.
  intros S Et [Ht Hb]. split; [by rewrite Et|]. destruct (has_flag _ _); [done|].
  destruct Hb as (bi & E & Ho). exists bi. split; [done|]. intros Hf.
  rewrite (same_info_offset e e') by done. by apply Ho.
Qed.

Lemma upd_blist_info t f e :
  (forall b, blist_info (f b) = blist_info b) -> same_info e (upd_blist t f e).
Proof.
  intros Hf i. unfold upd_blist. cbn. destruct (decide (Z.to_nat t = i)) as [->|].
  - rewrite list_lookup_alter_eq. destruct (port_buffers e !! i); cbn; [by rewrite Hf|done].
  - by rewrite list_lookup_alter_ne.
Qed.

Lemma the_port_lookup e p x : ports e !! p = Some x -> the_port e p = x.
Proof. intros E. unfold the_port. by rewrite E. Qed.

(** The type of a port and the index of its list. *)
Lemma type_index e t :
  buffers_inv e -> 0 <= t < zlen (port_types e) ->
  exists b, port_buffers e !! Z.to_nat t = Some b.
Proof. intros B Ht. apply lookup_lt_is_Some. rewrite (bi_length e B). lia. Qed.

Lemma holds_type (t : nat) x (bi : nat) :
  holds t x = Some bi -> in_use x = true /\ ptype_id x = Z.of_nat t /\ buffer_info x = Some bi.
Proof.
  unfold holds. destruct (in_use x); [|done]. destruct (Z.eqb_spec (ptype_id x) (Z.of_nat t)); [|done].
  by cbn.
Qed.

(** [jack_port_assign_buffer] on a new port: an input port has offset 0; any
    other one takes the first free buffer, or the call fails. *)
Lemma assign_buffer_spec e p x :
  buffers_inv e -> ports e !! p = Some x -> in_use x = true -> buffer_info x = None ->
  0 <= ptype_id x < zlen (port_types e) ->
  let '(rc, e') := jack_port_assign_buffer p e in
  (rc = -1 /\ e' = e /\ has_flag (flags x) JackPortIsInput = false /\
   exists b, port_buffers e !! Z.to_nat (ptype_id x) = Some b /\ blist_freelist b = []) \/
  (rc = 0 /\ exists y, ports e' = <[p := y]> (ports e) /\
     y = x <| p_offset := p_offset y |> <| buffer_info := buffer_info y |> /\
     e' = e <| ports := ports e' |> <| port_buffers := port_buffers e' |> /\
     same_info e e' /\ buffers_inv e' /\ port_ok e' y).
Proof.
  intros B Hx Hu Hn Ht. destruct (type_index e _ B Ht) as [b Hb].
  unfold jack_port_assign_buffer, jack_port_buffer_list. rewrite (the_port_lookup e p x Hx), Hb. cbn [default from_option id].
  destruct (has_flag (flags x) JackPortIsInput) eqn:Ef.
  - right. split; [done|]. exists (x <| p_offset := 0 |>).
    assert (Ep : ports (upd_port p (fun x => x <| p_offset := 0 |>) e) = <[p := x <| p_offset := 0 |>]> (ports e))
      by (by apply alter_insert_lookup).
    split_and!; [exact Ep|done|done|done| |].
    + apply (buffers_inv_change e p x (x <| p_offset := 0 |>)); try done. intros t b' Hb'. by exists b'.
    + split; [exact Ht|]. cbn. rewrite Ef. done.
  - destruct (blist_freelist b) as [|bi free] eqn:Efree; [left; split_and!; [done..|by exists b]|].
    right. split; [done|]. set (e1 := upd_blist _ _ e). set (g := fun x : port => x <| p_offset := _ |> <| buffer_info := _ |>). set (y := g x).
    assert (Ep : ports (upd_port p g e1) = <[p := y]> (ports e)) by exact (alter_insert_lookup g _ p x Hx).
    assert (S1 : same_info e e1) by (by apply upd_blist_info). 
    exists y. split_and!.
    + exact Ep.
    + done.
    + done.
    + intros t. exact (S1 t).
    + apply (buffers_inv_change e p x y); [done|done|exact Ep|done|cbn; apply length_alter|].
      intros t b'. cbn. intros Hb'. destruct (decide (Z.to_nat (ptype_id x) = t)) as [<-|Hne].
      * rewrite list_lookup_alter_eq, Hb in Hb'. apply (inj Some) in Hb' as <-. exists b. split_and!; [done|done|].
        cbn. rewrite Efree. cbn. rewrite decide_True by done. unfold holds. cbn. rewrite Hu, Hn.
        rewrite Z2Nat.id, Z.eqb_refl by lia. cbn. rewrite app_nil_r. apply Permutation_app_comm.
      * rewrite list_lookup_alter_ne in Hb' by done. exists b'. split_and!; [done|done|].
        unfold holds. cbn. rewrite Hn. destruct (Z.eqb_spec (ptype_id x) (Z.of_nat t)); [lia|].
        by destruct (in_use x).
    + split; [exact Ht|]. cbn. rewrite Ef. exists bi. split; [done|]. intros _.
      rewrite list_lookup_alter_eq, Hb. done.
Qed.

(** [jack_port_release] gives the buffer back. *)
Lemma release_spec e p x :
  buffers_inv e -> ports e !! p = Some x ->
  in_use x = true /\ 0 <= ptype_id x < zlen (port_types e) \/ buffer_info x = None ->
  let e' := jack_port_release p e in
  exists y, ports e' = <[p := y]> (ports e) /\ in_use y = false /\ buffer_info y = None /\
    connections y = connections x /\ flags y = flags x /\ p_id y = p_id x /\ client_id y = client_id x /\
    e' = e <| ports := ports e' |> <| port_buffers := port_buffers e' |> /\
    same_info e e' /\ buffers_inv e'.
Proof.
  intros B Hx Hor. cbn zeta. unfold jack_port_release. cbn zeta.
  set (y := x <| in_use := false |> <| alias1 := "" |> <| alias2 := "" |> <| buffer_info := None |>).
  set (f := fun x : port => x <| in_use := _ |> <| alias1 := _ |> <| alias2 := _ |>).
  assert (Hl : (p < length (ports e))%nat) by (by eapply lookup_lt_Some).
  rewrite the_port_upd, decide_True, (the_port_lookup e p x Hx) by done.
  change (buffer_info (f x)) with (buffer_info x). change (ptype_id (f x)) with (ptype_id x).
  assert (Hy : forall t, holds t y = None) by (intros t; done).
  destruct (buffer_info x) as [bi|] eqn:Ebi.
  - destruct Hor as [[Hu Ht]|]; [|done]. destruct (type_index e _ B Ht) as [b Hb]. exists y.
    match goal with |- context [ports ?e2 = _] => assert (Ep : ports e2 = <[p := y]> (ports e)) end.
    { change (alter (fun x : port => x <| buffer_info := None |>) p (alter f p (ports e)) = <[p := y]> (ports e)).
      rewrite (alter_insert_lookup f _ _ _ Hx).
      rewrite (alter_insert_lookup _ _ p (f x)) by (by apply list_lookup_insert_eq).
      by rewrite list_insert_insert_eq. }
    split_and!; try done.
    + intros t. cbn. destruct (decide (Z.to_nat (ptype_id x) = t)) as [->|].
      * rewrite list_lookup_alter_eq. by destruct (port_buffers e !! t).
      * by rewrite list_lookup_alter_ne.
    + apply (buffers_inv_change e p x y); [done|done|exact Ep|done|cbn; apply length_alter|].
      intros t b'. cbn [port_buffers upd_port upd_blist]. intros Hb'. rewrite Hy. cbn in Hb'.
      destruct (decide (Z.to_nat (ptype_id x) = t)) as [<-|Hne].
      * rewrite list_lookup_alter_eq, Hb in Hb'. apply (inj Some) in Hb' as <-. exists b. split_and!; [done|done|].
        cbn. unfold holds. rewrite Hu, Ebi, Z2Nat.id, Z.eqb_refl by lia. cbn. rewrite app_nil_r.
        apply (Permutation_app_comm [bi]).
      * rewrite list_lookup_alter_ne in Hb' by done. exists b'. split_and!; [done|done|].
        unfold holds. rewrite Ebi, Hu. destruct (Z.eqb_spec (ptype_id x) (Z.of_nat t)); [lia|done].
  - exists (f x). assert (Ep : ports (upd_port p f e) = <[p := f x]> (ports e)) by (by apply alter_insert_lookup).
    split_and!; try done.
    apply (buffers_inv_change e p x (f x)); try done. intros t b' Hb'. exists b'. split_and!; [done|done|].
    unfold holds. cbn. by rewrite Ebi; destruct (_ && _).
Qed.

(** ** The graph when an unconnected port changes *)

Definition cview_feeds (x : client) :=
  (c_id x, c_type x, truefeeds x, sortfeeds x, fedcount x).

Record port_changed (p : port_ptr) (e e' : engine) : Prop := {
  pc_clients : clients e' = clients e;
  pc_conns : conn_store e' = conn_store e;
  pc_feedback : feedbackcount e' = feedbackcount e;
  pc_length : length (ports e') = length (ports e);
  pc_store : forall d, is_Some (client_store e !! d) -> is_Some (client_store e' !! d);
  pc_client : forall d, cview_feeds (the_client e' d) = cview_feeds (the_client e d);
  pc_others : forall q, q <> p -> pview (the_port e' q) = pview (the_port e q);
  pc_listed : forall d q, d ∈ clients e -> q <> p -> in_use (the_port e q) = true ->
    q ∈ c_ports (the_client e d) -> q ∈ c_ports (the_client e' d);
  pc_unconnected : connections (the_port e' p) = [];
  pc_flags : has_flag (flags (the_port e' p)) JackPortIsInput = true ->
             has_flag (flags (the_port e' p)) JackPortIsOutput = false;
  pc_owned : in_use (the_port e' p) = true -> forall d, d ∈ clients e ->
    client_id (the_port e' p) = c_id (the_client e d) -> p ∈ c_ports (the_client e' d)
}.

Lemma graph_inv_port_changed p e e' :
  graph_inv e -> (p < length (ports e))%nat -> connections (the_port e p) = [] ->
  port_changed p e e' -> graph_inv e'.
Proof.
  intros H Hp Hun C.
  assert (Hno : forall k x, conn_store e !! k = Some x -> source x <> p /\ destination x <> p).
  { intros k x Hk. assert (Hn : k ∉ connections (the_port e p)) by (rewrite Hun; apply not_elem_of_nil).
    rewrite (proj2 (gi_lists e H p Hp)) in Hn. split; intros E; apply Hn; exists x; auto. }
  assert (V : forall d, c_id (the_client e' d) = c_id (the_client e d) /\
    driver_client e' d = driver_client e d /\ truefeeds (the_client e' d) = truefeeds (the_client e d) /\
    sortfeeds (the_client e' d) = sortfeeds (the_client e d) /\
    fedcount (the_client e' d) = fedcount (the_client e d)).
  { intros d. pose proof (pc_client p e e' C d) as E. unfold cview_feeds in E.
    injection E as E1 E2 E3 E4 E5. unfold driver_client, is_driver. by rewrite E1, E2, E3, E4, E5. }
  assert (P : forall q, q <> p -> client_id (the_port e' q) = client_id (the_port e q) /\
    flags (the_port e' q) = flags (the_port e q) /\
    connections (the_port e' q) = connections (the_port e q) /\
    in_use (the_port e' q) = in_use (the_port e q)).
  { intros q Hq. pose proof (pc_others p e e' C q Hq) as E. unfold pview in E. by injection E as -> -> -> ->. }
  assert (Ed : forall x, is_edge e' x = is_edge e x)
    by (intros x; unfold is_edge; by rewrite (proj1 (proj2 (V _)))).
  assert (Cl : conn_list e' = conn_list e) by (unfold conn_list; by rewrite (pc_conns p e e' C)).
  destruct C as [Cc Cs Cf Cn Cst _ _ Cli Cu Cfl Co]. constructor; rewrite ?Cc, ?Cs, ?Cn.
  - apply H.
  - intros c Hc. by apply Cst, H.
  - intros c d Hc Hd. rewrite (proj1 (V c)), (proj1 (V d)). by apply H.
  - intros k x Hk. destruct (Hno k x Hk) as [Hs Hd]. destruct (gi_conns e H k x Hk).
    destruct (P (source x) Hs) as (S1 & S2 & _ & S4), (P (destination x) Hd) as (D1 & D2 & _ & D4).
    constructor; rewrite ?Cn, ?Cc, ?S1, ?S2, ?S4, ?D1, ?D2, ?D4, ?(proj1 (V _)), ?(proj1 (proj2 (V _))); try done.
    by apply Cli.
  - intros q Hq. destruct (decide (q = p)) as [->|Hne].
    + rewrite Cu. pose proof (gi_lists e H p Hp) as L. by rewrite Hun in L.
    + rewrite (proj1 (proj2 (proj2 (P q Hne)))). by apply H.
  - apply H.
  - intros q. destruct (decide (q = p)) as [->|Hne]; [done|].
    rewrite (proj1 (proj2 (P q Hne))). apply H.
  - intros c q Hc Hu. rewrite (proj1 (V c)). destruct (decide (q = p)) as [->|Hne].
    + intros E. by apply Co.
    + destruct (P q Hne) as (-> & _ & _ & E4). rewrite E4 in Hu. intros E. apply Cli; [done..|]. by apply H.
  - intros a Ha. rewrite (proj1 (proj2 (proj2 (V a)))), Cl, (gi_truefeeds e H) by done.
    apply reflexive_eq, omap_pointwise. intros x. unfold true_target. by rewrite Ed.
  - intros a Ha. rewrite (proj1 (proj2 (proj2 (proj2 (V a))))), Cl, (gi_sortfeeds e H) by done.
    apply reflexive_eq, omap_pointwise. intros x. unfold sort_target. by rewrite Ed.
  - intros b Hb. destruct (V b) as (_ & -> & _ & _ & ->). rewrite Cl.
    pose proof (gi_fedcount e H b Hb) as Hf.
    destruct (driver_client e b); [done|]. rewrite Hf. apply countb_ext.
    intros x _. unfold fed_by. by rewrite Ed.
  - rewrite Cf, Cl. apply H.
  - destruct (gi_order e H) as (o & Ho & Hb). exists o. split; [by rewrite Ho, Cc|].
    intros a b Ha. rewrite Cc in Ha. rewrite (proj1 (proj2 (proj2 (proj2 (V a))))). by apply Hb.
Qed.

(** ** The port table under graph operations and single changes *)

Lemma omap_fmap_absorb {A B} (g : A -> A) (f : A -> option B) (l : list A) :
  (forall x, f (g x) = f x) -> omap f (g <$> l) = omap f l.
Proof. intros H. induction l as [|x l IH]; cbn; [done|]. by rewrite H, IH. Qed.

Lemma frame_lookup_port e e' p y :
  graph_frame e e' -> ports e' !! p = Some y -> exists x, ports e !! p = Some x /\ pother x = pother y.
Proof.
  intros F Hy. pose proof (f_equal (fun l => l !! p) (f_equal ports (gf_other e e' F))) as E. cbn in E.
  rewrite !list_lookup_fmap, Hy in E. destruct (ports e !! p) as [x|]; [|done]. exists x. split; [done|].
  by apply (inj Some) in E.
Qed.

Lemma port_inv_frame e e' : graph_frame e e' -> port_inv e -> port_inv e'.
Proof.
  intros F H. pose proof (f_equal ports (gf_other e e' F)) as Ep. cbn in Ep.
  pose proof (graph_frame_length e e' F) as Len.
  assert (Eb : port_buffers e' = port_buffers e) by (by apply (graph_frame_get port_buffers)).
  assert (Et : port_types e' = port_types e) by (by apply (graph_frame_get port_types)).
  assert (Hheld : forall t, held e' t = held e t).
  { intros t. unfold held. rewrite <- (omap_fmap_absorb pother) by done.
    rewrite Ep. by apply omap_fmap_absorb. }
  assert (Hc : forall c, c_ports (the_client e' c) = c_ports (the_client e c) /\
                         c_id (the_client e' c) = c_id (the_client e c)).
  { intros c. split; [by apply (graph_frame_client c_ports)|by apply (graph_frame_client c_id)]. }
  assert (Hin : forall c, c ∈ clients e' -> c ∈ clients e) by (intros c; by rewrite (gf_clients e e' F)).
  destruct H as [[B1 B2 B3 B4] P2 P3 P4 P5 P6 P7 P8]. constructor; [constructor|..].
  - by rewrite Eb, Et.
  - intros t b. rewrite Eb, Hheld. apply B2.
  - intros t b i. rewrite Eb, Hheld, Len. apply B3.
  - intros t b. rewrite Eb, Hheld, Len. apply B4.
  - by rewrite Et.
  - intros p y Hy. destruct (frame_lookup_port e e' p y F Hy) as (x & Hx & E).
    change (p_id (pother y) = Z.of_nat p). rewrite <- E. by exact (P3 p x Hx).
  - intros p y Hy Hu. destruct (frame_lookup_port e e' p y F Hy) as (x & Hx & E).
    change (port_ok e' (pother y)). rewrite <- E. change (port_ok e' x).
    apply (port_ok_same_info e); [|by rewrite Et|].
    + intros t. by rewrite Eb.
    + apply (P4 p); [done|]. change (in_use (pother x) = true). by rewrite E.
  - intros c p Hc1. destruct (Hc c) as [-> ->]. intros Hp.
    destruct (P5 c p (Hin c Hc1) Hp) as (x & Hx & Hu & Ho).
    pose proof (f_equal (fun l => l !! p) Ep) as E. cbn in E. rewrite !list_lookup_fmap, Hx in E.
    destruct (ports e' !! p) as [y|]; [|done]. apply (inj Some) in E. exists y. split; [done|].
    change (in_use (pother y) = true /\ client_id (pother y) = c_id (the_client e c)). by rewrite E.
  - intros c Hc1. rewrite (proj1 (Hc c)). by apply P6, Hin.
  - intros p y Hy Hu. destruct (frame_lookup_port e e' p y F Hy) as (x & Hx & E).
    change (buffer_info (pother y) = None \/ client_id (pother y) = 0). rewrite <- E. apply (P7 p x Hx).
    change (in_use (pother x) = false). by rewrite E.
  - intros c Hc1. rewrite (proj2 (Hc c)). by apply P8, Hin.
Qed.

Lemma port_inv_changed p y e e' :
  port_inv e -> ports e' = <[p := y]> (ports e) -> p_id y = Z.of_nat p ->
  buffers_inv e' -> same_info e e' -> port_types e' = port_types e -> clients e' = clients e ->
  (in_use y = true -> port_ok e' y) -> (in_use y = false -> buffer_info y = None) ->
  (forall d, c_id (the_client e' d) = c_id (the_client e d)) ->
  (forall d, d ∈ clients e -> NoDup (c_ports (the_client e' d)) /\
    forall q, q ∈ c_ports (the_client e' d) ->
      if decide (q = p) then (p < length (ports e))%nat /\ in_use y = true /\ client_id y = c_id (the_client e d)
      else q ∈ c_ports (the_client e d)) ->
  port_inv e'.
Proof.
  intros H Ep Hid B S Et Ec Hok Hun Hcid Hl.
  assert (Hlk : forall q z, ports e' !! q = Some z -> (q = p /\ z = y) \/ (q <> p /\ ports e !! q = Some z)).
  { intros q z. rewrite Ep. intros Hz. apply list_lookup_insert_Some in Hz as [(-> & -> & _)|[? ?]]; auto. }
  constructor; [done|by rewrite Et; apply H|..].
  - intros q z Hz. destruct (Hlk q z Hz) as [[-> ->]|[_ Hz']]; [done|by apply (pi_ids e H)].
  - intros q z Hz Hu. destruct (Hlk q z Hz) as [[-> ->]|[_ Hz']]; [by apply Hok|].
    apply (port_ok_same_info e); [done|by rewrite Et|]. by apply (pi_ports e H q).
  - intros d q Hd Hq. rewrite Ec in Hd. rewrite Hcid. destruct (Hl d Hd) as [_ Hl']. specialize (Hl' q Hq).
    rewrite Ep. destruct (decide (q = p)) as [->|Hne].
    + destruct Hl' as (Hlt & Hu & Ho). exists y. split; [by apply list_lookup_insert_eq|done].
    + rewrite list_lookup_insert_ne by done. by apply (pi_listed e H d).
  - intros d Hd. rewrite Ec in Hd. by apply Hl.
  - intros q z Hz Hu. destruct (Hlk q z Hz) as [[-> ->]|[_ Hz']]; [by left; apply Hun|by apply (pi_unused e H q)].
  - intros d Hd. rewrite Ec in Hd. rewrite Hcid. by apply H.
Qed.

(** ** One port and the list of its owner *)

Record server_inv (e : engine) : Prop := {
  sv_graph : graph_inv e;
  sv_ports : port_inv e
}.

Lemma server_inv_frame e e' : graph_frame e e' -> graph_inv e' -> server_inv e -> server_inv e'.
Proof. intros F H [_ P]. split; [done|by apply (port_inv_frame e)]. Qed.

Lemma server_inv_event e e' : event_frame e e' -> server_inv e -> server_inv e'.
Proof.
  intros F [H P]. split; [by apply (graph_inv_same e), H; apply same_graph_event|].
  by apply (port_inv_frame e); [apply graph_frame_event|].
Qed.

Definition legal_flags (fl : Z) : Prop :=
  has_flag fl JackPortIsInput = true -> has_flag fl JackPortIsOutput = false.

(** The entry [p] of the port table becomes [y]; buffers may have moved. *)
Record table_change (p : port_ptr) (y : port) (e e' : engine) : Prop := {
  tc_ports : ports e' = <[p := y]> (ports e);
  tc_clients : clients e' = clients e;
  tc_store : client_store e' = client_store e;
  tc_conns : conn_store e' = conn_store e;
  tc_feedback : feedbackcount e' = feedbackcount e;
  tc_types : port_types e' = port_types e;
  tc_info : same_info e e'
}.

Lemma table_change_trans p y z e1 e2 e3 :
  table_change p y e1 e2 -> table_change p z e2 e3 -> table_change p z e1 e3.
Proof.
  intros [A1 A2 A3 A4 A5 A6 A7] [B1 B2 B3 B4 B5 B6 B7].
  constructor; first [congruence|by rewrite B1, A1, list_insert_insert_eq|by transitivity e2].
Qed.

Lemma server_inv_table p c g x y e e1 :
  server_inv e -> c ∈ clients e -> ports e !! p = Some x -> connections x = [] ->
  table_change p y e e1 -> buffers_inv e1 -> p_id y = p_id x -> connections y = [] ->
  legal_flags (flags y) ->
  (in_use y = true -> port_ok e1 y /\ client_id y = c_id (the_client e c)) ->
  (in_use y = false -> buffer_info y = None) ->
  NoDup (g (c_ports (the_client e c))) ->
  (forall q, q ∈ g (c_ports (the_client e c)) <->
     if decide (q = p) then in_use y = true else q ∈ c_ports (the_client e c)) ->
  (forall d, d ∈ clients e -> d <> c -> p ∉ c_ports (the_client e d)) ->
  server_inv (upd_client c (fun x => x <| c_ports ::= g |>) e1).
Proof.
  intros [H P] Hc Hx Hcx T B Hid Hcy Hfl Hok Hun Hnd Hg Hout.
  assert (Hlt : (p < length (ports e))%nat) by (by eapply lookup_lt_Some).
  destruct (gi_store e H c Hc) as [z Hz].
  destruct T as [Tp Tc Ts Tk Tf Tt Ti]. set (e2 := upd_client c _ e1).
  assert (Cl : forall d, the_client e2 d = if decide (c = d) then (the_client e c) <| c_ports ::= g |>
                                           else the_client e d).
  { intros d. unfold e2. rewrite the_client_upd by (rewrite Ts; eauto). unfold the_client. by rewrite Ts. }
  assert (Hids : forall d, c_id (the_client e2 d) = c_id (the_client e d)).
  { intros d. rewrite Cl. by destruct (decide (c = d)) as [->|]. }
  assert (Hl : forall d, d ∈ clients e -> NoDup (c_ports (the_client e2 d)) /\
    forall q, q ∈ c_ports (the_client e2 d) <->
      if decide (q = p) then in_use y = true /\ d = c else q ∈ c_ports (the_client e d)).
  { intros d Hd. rewrite Cl. destruct (decide (c = d)) as [<-|Hne].
    - cbn. split; [done|]. intros q. rewrite Hg. destruct (decide (q = p)); naive_solver.
    - split; [by apply P|]. intros q. destruct (decide (q = p)) as [->|]; [|done].
      split; [intros Hq; by destruct (Hout d Hd (not_eq_sym Hne))|intros [_ ->]; done]. }
  assert (Hp2 : the_port e2 p = y)
    by (apply the_port_lookup; cbn; rewrite Tp; by apply list_lookup_insert_eq).
  assert (S2 : same_info e1 e2) by (intros t; done).
  split.
  - apply (graph_inv_port_changed p e); [done|done|by rewrite (the_port_lookup e p x)|].
    constructor; try done.
    + cbn. by rewrite Tp, length_insert.
    + intros d [w Hw]. cbn. rewrite Ts. destruct (decide (c = d)) as [<-|].
      * rewrite lookup_alter_eq, Hw. by eexists.
      * rewrite lookup_alter_ne by done. by eexists.
    + intros d. rewrite Cl. by destruct (decide (c = d)) as [<-|].
    + intros q Hq. unfold the_port. cbn. by rewrite Tp, list_lookup_insert_ne.
    + intros d q Hd Hq _ Hin. apply (proj2 (Hl d Hd) q). by rewrite decide_False.
    + by rewrite Hp2.
    + by rewrite Hp2.
    + rewrite Hp2. intros Hu d Hd E. apply (proj2 (Hl d Hd)). rewrite decide_True by done.
      split; [done|]. destruct (Hok Hu) as [_ E2]. rewrite E in E2. by apply (gi_ids e H).
  - apply (port_inv_changed p y e); try done.
    + rewrite Hid. by apply (pi_ids e P).
    + by destruct B; constructor.
    + intros Hu. apply (port_ok_same_info e1); [done|done|]. by apply Hok.
    + intros d Hd. split; [by apply Hl|]. intros q Hq. apply (proj2 (Hl d Hd)) in Hq.
      destruct (decide (q = p)); [|done]. destruct Hq as [Hu ->]. split_and!; [done|done|]. by apply Hok.
Qed.

(** ** Registration *)

Lemma find_port_type_spec name k l i :
  find_port_type name k l = Some i ->
  (k <= i)%nat /\ exists t, l !! (i - k)%nat = Some t /\ type_name t = name.
Proof.
  revert k. induction l as [|y l IH]; intros k; cbn; [done|].
  destruct (String.eqb_spec name (type_name y)) as [->|].
  - intros [= <-]. split; [lia|]. exists y. by rewrite Nat.sub_diag.
  - intros H. apply IH in H as (Hle & x & Hx & Hn). split; [lia|]. exists x.
    split; [|done]. replace (i - k)%nat with (S (i - S k)) by lia. done.
Qed.

(** Naming a port touches its name, its alias and the counters. *)
Lemma port_naming_spec req internal x e :
  let '(y, e') := port_naming req internal x e in
  y = x <| p_name := p_name y |> <| alias1 := alias1 y |> /\
  e' = e <| audio_out_cnt := audio_out_cnt e' |> <| audio_in_cnt := audio_in_cnt e' |>
         <| midi_out_cnt := midi_out_cnt e' |> <| midi_in_cnt := midi_in_cnt e' |>.
Proof.
  unfold port_naming. destruct internal; [|by destruct x, e]. destruct (driver e); [|by destruct x, e].
  repeat match goal with |- context [if ?b then _ else _] =>
    match b with context [if _ then _ else _] => fail 1 | _ => destruct b end end; by destruct x, e.
Qed.

(** The entry a registration writes, before the buffer is assigned. *)
Definition new_port (req : port_request) (x : port) (i : nat) : port :=
  x <| ptype_id := Z.of_nat i |> <| client_id := req_client_id req |> <| flags := req_flags req |>
    <| latency := 0 |> <| monitor_requests := 0 |> <| connections := [] |> <| buffer_info := None |>.

Section io.
Context (env : environment).

Lemma port_free_unlisted e p x d :
  server_inv e -> ports e !! p = Some x -> in_use x = false -> d ∈ clients e ->
  p ∉ c_ports (the_client e d).
Proof.
  intros [_ P] Hx Hu Hd Hp. destruct (pi_listed e P d p Hd Hp) as (y & Hy & Hy2 & _). congruence.
Qed.

(** No connection ends at a port that is not in use. *)
Lemma port_free_unconnected e p x :
  server_inv e -> ports e !! p = Some x -> in_use x = false -> connections x = [].
Proof.
  intros [H _] Hx Hu. pose proof (the_port_lookup e p x Hx) as E.
  destruct (connections x) as [|k l] eqn:Ec; [done|].
  assert (Hk : k ∈ connections (the_port e p)) by (rewrite E, Ec; left).
  apply (gi_lists e H) in Hk as (w & Hw & Hp); [|by eapply lookup_lt_Some].
  destruct (gi_conns e H k w Hw). destruct Hp as [<- | <-]; congruence.
Qed.

(** What a successful registration leaves behind in slot [p]. *)
Record registered (req : port_request) (e e' : engine) (p : port_ptr) : Prop := {
  rg_free : (p < length (ports e))%nat /\ in_use (the_port e p) = false;
  rg_in_use : in_use (the_port e' p) = true;
  rg_owner : client_id (the_port e' p) = req_client_id req;
  rg_flags : flags (the_port e' p) = req_flags req;
  rg_type : exists t, port_types e !! Z.to_nat (ptype_id (the_port e' p)) = Some t /\
                      type_name t = req_type req;
  rg_listed : exists c, jack_client_internal_by_id e (req_client_id req) = Some c /\
    c_ports (the_client e' c) = p :: c_ports (the_client e c);
  rg_others : forall q, q <> p -> the_port e' q = the_port e q
}.

Lemma reserve_spec req internal e p x0 i t :
  server_inv e -> ports e !! p = Some x0 -> in_use x0 = false -> port_types e !! i = Some t ->
  let e0 := upd_port p (fun x => x <| in_use := true |>) e in
  let '(x, e1) := port_naming req internal (the_port e0 p) e0 in
  let e2 := upd_port p (fun _ => x <| ptype_id := from_option pt_id 0 (port_types e1 !! i) |>
                 <| client_id := req_client_id req |> <| flags := req_flags req |> <| latency := 0 |>
                 <| monitor_requests := 0 |> <| connections := [] |> <| buffer_info := None |>) e1 in
  exists y, table_change p y e e2 /\ port_buffers e2 = port_buffers e /\ buffers_inv e2 /\ in_use y = true /\ p_id y = p_id x0 /\
    ptype_id y = Z.of_nat i /\ client_id y = req_client_id req /\ flags y = req_flags req /\
    connections y = [] /\ buffer_info y = None.
Proof.
  intros [H P] Hx Hu Ht. cbn zeta.
  assert (Hlt : (p < length (ports e))%nat) by (by eapply lookup_lt_Some).
  rewrite the_port_upd, decide_True, (the_port_lookup e p x0 Hx) by done.
  pose proof (port_naming_spec req internal (x0 <| in_use := true |>)
                (upd_port p (fun x => x <| in_use := true |>) e)) as N.
  destruct (port_naming _ _ _ _) as [x e1]. destruct N as [Ex Ee].
  assert (Et : port_types e1 = port_types e) by (by rewrite Ee).
  assert (Ep : ports e1 = alter (fun x => x <| in_use := true |>) p (ports e)) by (by rewrite Ee).
  rewrite Et, Ht. cbn [from_option]. rewrite (pi_type_ids e P i t Ht).
  set (y := x <| ptype_id := _ |> <| client_id := _ |> <| flags := _ |> <| latency := 0 |>
              <| monitor_requests := 0 |> <| connections := [] |> <| buffer_info := None |>).
  set (e2 := upd_port p (fun _ => y) e1).
  assert (E2 : ports e2 = <[p := y]> (ports e)).
  { unfold e2, upd_port. cbn. rewrite Ep, (alter_insert_lookup _ (ports e) p x0) by done.
    rewrite (alter_insert_lookup _ _ p (x0 <| in_use := true |>)) by (by apply list_lookup_insert_eq).
    by rewrite list_insert_insert_eq. }
  assert (T : table_change p y e e2).
  { constructor; [exact E2|..]; unfold e2; cbn; by rewrite Ee. }
  assert (Hy : in_use y = true) by (cbn; by rewrite Ex).
  assert (Eb : port_buffers e2 = port_buffers e) by (unfold e2; cbn; by rewrite Ee).
  exists y. split_and!; try done.
  - apply (buffers_inv_change e p x0 y); [done|apply P|done|apply T|apply same_info_length, T|].
    intros j b Hb. exists b. rewrite Eb in Hb. split_and!; [done|done|]. unfold holds. rewrite Hu, Hy. cbn. by destruct (_ =? _).
  - cbn. by rewrite Ex.
Qed.

(** Why a registration can fail. *)
Definition register_fails (req : port_request) (e : engine) : Prop :=
  find_port_type (req_type req) 0 (port_types e) = None \/
  jack_client_internal_by_id e (req_client_id req) = None \/
  (exists p, jack_get_port_by_name e (req_name req) = Some p) \/
  (forall p x, ports e !! p = Some x -> in_use x = true) \/
  (has_flag (req_flags req) JackPortIsInput = false /\
   exists i b, find_port_type (req_type req) 0 (port_types e) = Some i /\
     port_buffers e !! i = Some b /\ blist_freelist b = []).

Lemma find_port_none test i l :
  find_port test i l = None -> forall j x, l !! j = Some x -> test x = false.
Proof.
  revert i. induction l as [|y l IH]; intros i; cbn; [done|]. destruct (test y) eqn:Et; [done|].
  intros H [|j] x; cbn; [by intros [= <-]|]. by apply (IH (S i)).
Qed.

Lemma table_others p y e e' q : table_change p y e e' -> q <> p -> the_port e' q = the_port e q.
Proof. intros T Hq. unfold the_port. by rewrite (tc_ports p y e e' T), list_lookup_insert_ne. Qed.

Lemma table_port p y e e' : table_change p y e e' -> (p < length (ports e))%nat -> the_port e' p = y.
Proof.
  intros T Hp. apply the_port_lookup. rewrite (tc_ports p y e e' T). by apply list_lookup_insert_eq.
Qed.

Lemma upd_client_id c f e : (forall x, f x = x) -> upd_client c f e = e.
Proof.
  intros Hf. assert (E : alter f c (client_store e) = client_store e).
  { apply map_eq. intros d. destruct (decide (c = d)) as [->|]; [|by rewrite lookup_alter_ne].
    rewrite lookup_alter_eq. destruct (_ !! d); cbn; [by rewrite Hf|done]. }
  unfold upd_client. destruct e. cbn in *. unfold assign. cbn. by rewrite E.
Qed.

(** The failing end of a registration: the slot is given back. *)
Lemma release_reserved e e2 p x0 y c :
  server_inv e -> c ∈ clients e -> ports e !! p = Some x0 -> in_use x0 = false ->
  table_change p y e e2 -> buffers_inv e2 -> in_use y = true -> p_id y = p_id x0 -> connections y = [] ->
  0 <= ptype_id y < zlen (port_types e2) ->
  (legal_flags (flags y) -> server_inv (jack_port_release p e2)) /\
  (forall q, q <> p -> the_port (jack_port_release p e2) q = the_port e q) /\
  in_use (the_port (jack_port_release p e2) p) = false.
Proof.
  intros I Hc Hx Hu T B Hy Hid Hcy Ht.
  assert (Hlt : (p < length (ports e))%nat) by (by eapply lookup_lt_Some).
  assert (Hyl : ports e2 !! p = Some y) by (rewrite (tc_ports _ _ _ _ T); by apply list_lookup_insert_eq).
  destruct (release_spec e2 p y B Hyl (or_introl (conj Hy Ht))) as (z & Ez & Z1 & Z2 & Z3 & Z4 & Z5 & Z6 & Ee & Si & B3).
  set (e3 := jack_port_release p e2) in *.
  assert (T3 : table_change p z e e3).
  { apply (table_change_trans p y z e e2); [done|].
    constructor; [exact Ez|..|exact Si]; clearbody e3; by rewrite Ee. }
  split_and!; [|by intros q; apply (table_others p z)|by rewrite (table_port p z e e3)].
  intros Hfl. rewrite <- (upd_client_id c (fun x => x <| c_ports ::= id |>) e3) by (by intros []). apply (server_inv_table p c id x0 z e); try done.
  - by apply (port_free_unconnected e p).
  - by rewrite Z5.
  - by rewrite Z3.
  - by rewrite Z4.
  - by rewrite Z1.
  - by apply I.
  - intros q. cbn. destruct (decide (q = p)) as [->|]; [|done]. rewrite Z1. split; [|done].
    intros Hq. by destruct (port_free_unlisted e p x0 c I Hx Hu Hc).
  - intros d Hd _. by apply (port_free_unlisted e p x0).
Qed.

(** The successful end: the port joins its owner's list and is announced. *)
Lemma commit_registration req e e3 p x0 z c i t :
  server_inv e -> jack_client_internal_by_id e (req_client_id req) = Some c ->
  ports e !! p = Some x0 -> in_use x0 = false ->
  port_types e !! i = Some t -> type_name t = req_type req ->
  table_change p z e e3 -> buffers_inv e3 -> port_ok e3 z ->
  in_use z = true -> client_id z = req_client_id req -> flags z = req_flags req ->
  ptype_id z = Z.of_nat i -> p_id z = p_id x0 -> connections z = [] ->
  let e4 := upd_client c (fun x => x <| c_ports ::= cons p |>) e3 in
  let e5 := if active (the_client e4 c)
            then jack_port_registration_notify env (Z.of_nat p) true e4 else e4 in
  (legal_flags (req_flags req) -> server_inv e5) /\ registered req e e5 p.
Proof.
  intros I Ec Hx Hu Ht Htn T3 B3 Hok Z1 Z2 Z3 Z4 Z5 Z6 e4 e5.
  pose proof Ec as Ec'. apply by_id_member in Ec' as [Hc Hcid].
  assert (Hlt : (p < length (ports e))%nat) by (by eapply lookup_lt_Some).
  assert (I4 : legal_flags (req_flags req) -> server_inv e4).
  { intros Hfl. apply (server_inv_table p c (cons p) x0 z e); try done.
    - by apply (port_free_unconnected e p).
    - by rewrite Z3.
    - intros _. split; [done|]. by rewrite Z2.
    - by rewrite Z1.
    - constructor; [by apply (port_free_unlisted e p x0)|by apply I].
    - intros q. rewrite elem_of_cons. destruct (decide (q = p)); naive_solver.
    - intros d Hd _. by apply (port_free_unlisted e p x0). }
  assert (F : event_frame e4 e5) by (unfold e5; destruct (active _); [apply deliver_where_frame|done]).
  split; [intros Hfl; apply (server_inv_event e4); auto|]. clearbody e5.
  assert (E5 : forall q, the_port e5 q = the_port e3 q)
    by (intros q; unfold the_port; by rewrite (event_frame_get ports e4 e5)).
  pose proof (table_port p z e e3 T3 Hlt) as Ezp.
  constructor; rewrite ?E5, ?Ezp; try done.
  - by rewrite (the_port_lookup e p x0 Hx).
  - exists t. by rewrite Z4, Nat2Z.id.
  - exists c. split; [done|]. rewrite (event_frame_field c_ports e4 e5) by done. unfold e4.
    rewrite the_client_upd, decide_True by (done || rewrite (tc_store _ _ _ _ T3); by apply I). cbn.
    unfold the_client. by rewrite (tc_store _ _ _ _ T3).
  - intros q Hq. rewrite E5. by apply (table_others p z).
Qed.

(** Port registration, of a port that is not both an input and an output, keeps
    the invariants of graph, ports and buffers.  It fails with -1 for one of five reasons and then every port is as it
    was; or it returns 0 and a slot that was free now holds the new port, of
    the type that was asked for, listed by its owner; no other port changes. *)
Lemma register_spec req internal e :
  server_inv e ->
  let '(ret, id, e') := jack_port_do_register env req internal e in
  (legal_flags (req_flags req) -> server_inv e') /\
  (ret = -1 /\ register_fails req e /\
     (forall q, in_use (the_port e q) = true -> the_port e' q = the_port e q) /\
     (forall q, in_use (the_port e' q) = in_use (the_port e q)) \/
   ret = 0 /\ exists p, id = Z.of_nat p /\ registered req e e' p).
Proof.
  intros I. unfold jack_port_do_register, register_fails.
  destruct (find_port_type _ _ _) as [i|] eqn:Ei; [|by split; [|left; auto]].
  destruct (jack_client_internal_by_id _ _) as [c|] eqn:Ec; [|by split; [|left; auto]].
  destruct (jack_get_port_by_name _ _) as [q|] eqn:En; [split; [done|]; left; eauto 10|].
  unfold jack_get_free_port. destruct (find_port _ _ _) as [p|] eqn:Ef.
  2:{ split; [done|]. left. split_and!; try done. right. right. right. left. intros p x Hx.
      apply negb_false_iff. exact (find_port_none _ _ _ Ef p x Hx). }
  apply find_port_spec in Ef as (_ & x0 & Hx & Hu). rewrite Nat.sub_0_r in Hx. apply negb_true_iff in Hu.
  assert (Hlt : (p < length (ports e))%nat) by (by eapply lookup_lt_Some).
  pose proof Ei as Ei'. apply find_port_type_spec in Ei' as (_ & t & Ht & Htn). rewrite Nat.sub_0_r in Ht.
  pose proof Ec as Ec'. apply by_id_member in Ec' as [Hc Hcid].
  pose proof (reserve_spec req internal e p x0 i t I Hx Hu Ht) as R. cbn zeta in R.
  destruct (port_naming _ _ _ _) as [x e1]. cbn zeta.
  destruct R as (y & T & Eb & B & Y1 & Y2 & Y3 & Y4 & Y5 & Y6 & Y7).
  set (e2 := upd_port p _ e1) in *. clearbody e2. clear x e1.
  assert (Hyl : ports e2 !! p = Some y) by (rewrite (tc_ports _ _ _ _ T); by apply list_lookup_insert_eq).
  assert (Htr : 0 <= ptype_id y < zlen (port_types e2)).
  { rewrite Y3, (tc_types _ _ _ _ T). apply lookup_lt_Some in Ht. lia. }
  pose proof (assign_buffer_spec e2 p y B Hyl Y1 Y7 Htr) as A.
  destruct (jack_port_assign_buffer p e2) as [rc e3].
  destruct A as [(-> & -> & Hin & b & Hb & Hfr)|(-> & z & Ez & Yz & Ee & Si & B3 & Hok)]; cbn [negb Z.eqb].
  - destruct (release_reserved e e2 p x0 y c) as (I3 & Ho & Hp); try done; [].
    split; [by rewrite Y5 in I3|]. left. split; [done|]. split; [|split].
    + right. right. right. right. split; [by rewrite <- Y5|]. rewrite Y3, Nat2Z.id, Eb in Hb. eauto.
    + intros q Hq. apply Ho. intros ->. rewrite (the_port_lookup e p x0 Hx) in Hq. congruence.
    + intros q. destruct (decide (q = p)) as [->|]; [|by rewrite Ho].
      rewrite Hp. by rewrite (the_port_lookup e p x0 Hx).
  - assert (T3 : table_change p z e e3).
    { apply (table_change_trans p y z e e2); [done|].
      constructor; [exact Ez|..|exact Si]; by rewrite Ee. }
    destruct (commit_registration req e e3 p x0 z c i t) as [I5 R5]; try (done || by rewrite Yz).
    split; [exact I5|]. right. split; [done|]. by exists p.
Qed.

(** ** Removal *)

Lemma slist_remove_elem_iff (d : nat) l q : NoDup l -> q ∈ slist_remove d l <-> q ∈ l /\ q <> d.
Proof.
  induction 1 as [|x l Hx Hl IH]; cbn; [set_solver|]. case_decide as E; [subst|].
  - rewrite elem_of_cons. naive_solver.
  - rewrite !elem_of_cons, IH. naive_solver.
Qed.

Lemma slist_remove_nodup (d : nat) l : NoDup l -> NoDup (slist_remove d l).
Proof.
  induction 1 as [|x l Hx Hl IH]; cbn; [constructor|]. case_decide; [done|].
  constructor; [|done]. rewrite slist_remove_elem_iff by done. naive_solver.
Qed.

(** Releasing an unconnected port and taking it out of its owner's list. *)
Lemma release_listed e p x c :
  server_inv e -> c ∈ clients e -> ports e !! p = Some x -> connections x = [] ->
  client_id x = c_id (the_client e c) ->
  let e' := upd_client c (fun x => x <| c_ports ::= slist_remove p |>) (jack_port_release p e) in
  exists y, server_inv e' /\ table_change p y e (jack_port_release p e) /\
    in_use y = false /\ buffer_info y = None /\ p ∉ c_ports (the_client e' c).
Proof.
  intros I Hc Hx Hcx Hcid. cbn zeta.
  assert (Hor : in_use x = true /\ 0 <= ptype_id x < zlen (port_types e) \/ buffer_info x = None).
  { destruct (in_use x) eqn:Hu.
    - left. split; [done|]. by apply (pi_ports e (sv_ports e I) p x).
    - right. destruct (pi_unused e (sv_ports e I) p x Hx Hu) as [|E]; [done|].
      rewrite E in Hcid. by destruct (pi_nonzero e (sv_ports e I) c Hc). }
  destruct (release_spec e p x (pi_buffers e (sv_ports e I)) Hx Hor)
    as (y & Ey & Y1 & Y2 & Y3 & Y4 & Y5 & Y6 & Ee & Si & B).
  set (e1 := jack_port_release p e) in *. clearbody e1.
  assert (T : table_change p y e e1) by (constructor; [exact Ey|..|exact Si]; by rewrite Ee).
  assert (Hnd : NoDup (c_ports (the_client e c))) by (by apply I).
  exists y. split_and!; try done.
  - apply (server_inv_table p c (slist_remove p) x y e); try done.
    + by rewrite Y3.
    + rewrite Y4. pose proof (gi_flags e (sv_graph e I) p) as G.
      by rewrite (the_port_lookup e p x Hx) in G.
    + by rewrite Y1.
    + by apply slist_remove_nodup.
    + intros q. rewrite slist_remove_elem_iff, Y1 by done. destruct (decide (q = p)); naive_solver.
    + intros d Hd Hne Hp. destruct (pi_listed e (sv_ports e I) d p Hd Hp) as (w & Hw & _ & Ew).
      rewrite Hx in Hw. injection Hw as <-. apply Hne, (gi_ids e (sv_graph e I)); [done..|congruence].
  - rewrite the_client_upd, decide_True by (done || rewrite (tc_store _ _ _ _ T); by apply I). cbn.
    rewrite slist_remove_elem_iff by (unfold the_client; by rewrite (tc_store _ _ _ _ T)). naive_solver.
Qed.

(** Unregistering with a valid port id always returns and keeps the
    invariants.  It refuses, changing nothing, when the port is not the
    client's or the client does not exist; otherwise the port is free, holds
    no buffer, is in no client's list and at the end of no connection, and
    all other ports keep everything but their connections and latency. *)
Lemma unregister_spec req e :
  server_inv e -> 0 <= req_port_id req < zlen (ports e) ->
  let p := Z.to_nat (req_port_id req) in
  exists ret e', jack_port_do_unregister env req e = Some (ret, e') /\ server_inv e' /\
  (ret = -1 /\ e' = e /\ (client_id (the_port e p) <> req_client_id req \/
                           jack_client_internal_by_id e (req_client_id req) = None) \/
   ret = 0 /\ client_id (the_port e p) = req_client_id req /\
   in_use (the_port e' p) = false /\ buffer_info (the_port e' p) = None /\
   (forall c, c ∈ clients e' -> p ∉ c_ports (the_client e' c)) /\
   (forall k x, conn_store e' !! k = Some x -> source x <> p /\ destination x <> p) /\
   (forall q, q <> p -> pother (the_port e' q) = pother (the_port e q))).
Proof.
  intros I Hr p. unfold jack_port_do_unregister. fold p.
  destruct (Z.gtb_spec (req_port_id req) (zlen (ports e))); [lia|].
  assert (Hlt : (p < length (ports e))%nat) by lia.
  destruct (lookup_lt_is_Some_2 _ _ Hlt) as [x Hx]. rewrite Hx. cbn [mbind option_bind].
  rewrite (the_port_lookup e p x Hx).
  destruct (Z.eqb_spec (client_id x) (req_client_id req)) as [Eid|]; cbn [negb]; [|eauto 10].
  rewrite Eid. destruct (jack_client_internal_by_id e (req_client_id req)) as [c|] eqn:Ec; [|eauto 10].
  apply by_id_member in Ec as [Hc Hcid]. cbn zeta.
  destruct (clear_connections_spec env p e (sv_graph e I) Hlt) as (G1 & Hun & Hgone & _).
  pose proof (frame_clear_connections env p e) as F1.
  set (e1 := jack_port_clear_connections env p e) in *. clearbody e1.
  pose proof (server_inv_frame e e1 F1 G1 I) as I1.
  assert (Hlt1 : (p < length (ports e1))%nat) by (by rewrite (graph_frame_length e e1 F1)).
  destruct (lookup_lt_is_Some_2 _ _ Hlt1) as [x1 Hx1].
  pose proof (the_port_lookup e1 p x1 Hx1) as Ep1.
  destruct (release_listed e1 p x1 c) as (y & I2 & T & Y1 & Y2 & Hout); try done.
  { by rewrite (gf_clients e e1 F1). }
  { by rewrite <- Ep1. }
  { rewrite <- Ep1, (graph_frame_port client_id e e1), (graph_frame_client c_id e e1) by done.
    rewrite (the_port_lookup e p x Hx). congruence. }
  set (e3 := upd_client c _ _) in *.
  assert (F : event_frame e3 (jack_port_registration_notify env (req_port_id req) false e3))
    by apply deliver_where_frame.
  set (e4 := jack_port_registration_notify _ _ _ e3) in *. clearbody e4.
  assert (E4 : forall q, the_port e4 q = the_port (jack_port_release p e1) q)
    by (intros q; unfold the_port; by rewrite (event_frame_get ports e3 e4)).
  exists 0, e4. split; [done|]. split; [by apply (server_inv_event e3)|]. right.
  rewrite !E4, (table_port p y e1 _ T Hlt1). split_and!; try done.
  - intros d Hd Hp. pose proof (sv_ports e4 (server_inv_event e3 e4 F I2)) as P4.
    destruct (pi_listed e4 P4 d p Hd Hp) as (w & Hw & Hu & _).
    apply the_port_lookup in Hw. rewrite E4, (table_port p y e1 _ T Hlt1) in Hw. congruence.
  - intros k w Hw. rewrite (event_frame_get conn_store e3 e4) in Hw by done.
    apply (Hgone k). change (conn_store e3) with (conn_store (jack_port_release p e1)) in Hw.
    by rewrite (tc_conns _ _ _ _ T) in Hw.
  - intros q Hq. rewrite E4, (table_others p y e1 _ q T Hq). by apply (graph_frame_port pother).
Qed.

End io.
End PortsInv.
