(* ===== verification/Buffers.v ===== *)
(** * The layout of port buffers (server/engine.c)

    Laying out the buffers of a segment, on the first call and on a change
    of the buffer size; no two ports ever share a buffer. *)

From S2P Require Import Prelude JSList Engine Events Graph GraphInv Connect GraphFrame Ports.
From S2P Require Import PortsInv.

Local Open Scope Z_scope.

Module Buffers.
Import JSList Events Graph GraphInv Connect GraphFrame Ports PortsInv.

(** ** Disjointness *)

Lemma output_holds e p :
  port_inv e -> in_use (the_port e p) = true ->
  has_flag (flags (the_port e p)) JackPortIsInput = false ->
  exists x t bi, ports e !! p = Some x /\ ptype_id x = Z.of_nat t /\ holds t x = Some bi /\
    buffer_info x = Some bi /\ port_ok e x.
Proof.
  intros P Hu Hf. unfold the_port in *. destruct (ports e !! p) as [x|] eqn:Hx; [|done]. cbn in *.
  pose proof (pi_ports e P p x Hx Hu) as Hok. pose proof Hok as [Ht Hb]. rewrite Hf in Hb.
  destruct Hb as (bi & Eb & _). exists x, (Z.to_nat (ptype_id x)), bi. split_and!; try done; [lia|].
  unfold holds. by rewrite Hu, Z2Nat.id, Z.eqb_refl by lia.
Qed.

(** Two entries of a duplicate-free [omap] differ. *)
Lemma omap_nodup_ne {A B} (f : A -> option B) (l : list A) i j x y a b :
  NoDup (omap f l) -> i <> j -> l !! i = Some x -> l !! j = Some y ->
  f x = Some a -> f y = Some b -> a <> b.
Proof.
  revert i j. induction l as [|z l IH]; intros i j Hnd Hij Hi Hj Ha Hb; [done|].
  assert (Hin : forall w c n, l !! n = Some w -> f w = Some c -> c ∈ omap f l).
  { intros w c n Hn Hc. apply list_elem_of_omap. exists w. split; [by eapply list_elem_of_lookup_2|done]. }
  rewrite omap_cons_olist in Hnd. apply NoDup_app in Hnd as (_ & Hd & Hnd).
  destruct i as [|i], j as [|j]; cbn in Hi, Hj; try done.
  - injection Hi as ->. intros ->. apply (Hd b); [rewrite Ha; left|by eapply Hin].
  - injection Hj as ->. intros ->. apply (Hd b); [rewrite Hb; left|by eapply Hin].
  - apply (IH i j); [done|congruence|done..].
Qed.

(** Where the buffer of an output port lies, in a segment of buffers of [one] bytes. *)
Lemma output_offset e p t b one :
  port_inv e -> port_buffers e !! t = Some b -> blist_info b = Some (layout one (length (ports e))) ->
  let x := the_port e p in
  in_use x = true -> has_flag (flags x) JackPortIsInput = false -> has_flag (flags x) JackPortIsOutput = true ->
  ptype_id x = Z.of_nat t ->
  exists bi, ports e !! p = Some x /\ holds t x = Some bi /\ (1 <= bi < length (ports e))%nat /\ p_offset x = Z.of_nat bi * one.
Proof.
  intros P Hb Hi x Ux Ix Ox Et. destruct (output_holds e p P Ux Ix) as (y & t' & c & Hy & Ty & Hc & By & [_ Ky]).
  unfold x in *. clear x. rewrite (the_port_lookup e p y Hy) in *. assert (t' = t) by lia. subst t'.
  rewrite Ix in Ky. destruct Ky as (c' & Ec & Ho). rewrite By in Ec. injection Ec as <-.
  pose proof (bi_range e (pi_buffers e P) t b c Hb) as R. rewrite elem_of_app in R. specialize (R (or_intror (holds_in_held e p y Hy t c Hc))).
  exists c. split_and!; [done|done|lia|lia|]. rewrite (Ho Ox), Ty, Nat2Z.id, Hb. unfold bi_offset. cbn. rewrite Hi. apply layout_lookup. lia.
Qed.

(** Two output ports of a type have buffers of their own, behind the zero buffer. *)
Lemma outputs_apart e p q t b one :
  port_inv e -> port_buffers e !! t = Some b -> blist_info b = Some (layout one (length (ports e))) -> p <> q ->
  let x := the_port e p in let y := the_port e q in
  in_use x = true -> has_flag (flags x) JackPortIsInput = false -> has_flag (flags x) JackPortIsOutput = true ->
  in_use y = true -> has_flag (flags y) JackPortIsInput = false -> has_flag (flags y) JackPortIsOutput = true ->
  ptype_id x = Z.of_nat t -> ptype_id y = Z.of_nat t ->
  0 < one /\ one <= p_offset x /\ p_offset x + one <= zlen (ports e) * one /\
  (p_offset x + one <= p_offset y \/ p_offset y + one <= p_offset x).
Proof.
  intros P Hb Hi Hpq x y Ux Ix Ox Uy Iy Oy Tx Ty.
  destruct (output_offset e p t b one P Hb Hi Ux Ix Ox Tx) as (a & Lx & Ha & Ra & Ea).
  destruct (output_offset e q t b one P Hb Hi Uy Iy Oy Ty) as (c & Ly & Hc & Rc & Ec).
  pose proof (bi_nodup e (pi_buffers e P) t b Hb) as Hnd. apply NoDup_app in Hnd as (_ & _ & Hnd).
  assert (Hac : a <> c) by (by eapply (omap_nodup_ne (holds t) (ports e) p q)).
  assert (H1 : 0 < one).
  { pose proof (bi_layout e (pi_buffers e P) t b Hb) as L. rewrite Hi in L. destruct L as (one' & H1 & E).
    assert (E1 : layout one (length (ports e)) !!! 1%nat = layout one' (length (ports e)) !!! 1%nat) by (by rewrite E).
    rewrite !layout_lookup in E1 by lia. lia. }
  unfold x, y in *. rewrite Ea, Ec. split_and!; nia.
Qed.

(** ** The loops *)

Lemma layout_insert one info bi n :
  (bi < n)%nat -> length info = n -> take bi info = layout one bi ->
  take (S bi) (<[bi := Z.of_nat bi * one]> info) = layout one (S bi).
Proof.
  intros Hb Hl Ht. rewrite (take_S_r _ _ (Z.of_nat bi * one)) by (apply list_lookup_insert_eq; lia).
  rewrite take_insert_ge by lia. rewrite Ht. unfold layout. by rewrite seq_S, fmap_app.
Qed.

Section loops.
Context (one : Z) (n : nat).
Context (Hone : 0 < one) (Hfit : Z.of_nat n * one < 2 ^ 31).

Lemma next_offset (bi : nat) : (bi < n)%nat -> s32 (Z.of_nat bi * one + one) = Z.of_nat (S bi) * one.
Proof. intros Hb. rewrite swrap_small by nia. nia. Qed.

Lemma recompute_spec fuel bi info :
  length info = n -> (bi <= n)%nat -> (n - bi < fuel)%nat -> take bi info = layout one bi ->
  recompute_offsets fuel one (Z.of_nat n * one) (Z.of_nat bi * one) bi info = Some (layout one n).
Proof.
  revert bi info. induction fuel as [|fuel IH]; intros bi info Hl Hb Hf Ht; [lia|]. cbn.
  destruct (Z.ltb_spec (Z.of_nat bi * one) (Z.of_nat n * one)) as [Hlt|Hge].
  - assert (bi < n)%nat by nia. rewrite decide_True by lia. rewrite next_offset by done.
    apply IH; [by rewrite length_insert|lia|lia|]. by apply (layout_insert one info bi n).
  - assert (bi = n) by nia. subst bi. rewrite take_ge in Ht by lia. by rewrite Ht.
Qed.

Lemma chain_spec fuel bi info free :
  length info = n -> (bi <= n)%nat -> (n - bi < fuel)%nat -> take bi info = layout one bi ->
  chain_buffers fuel one (Z.of_nat n * one) (Z.of_nat bi * one) bi info free
    = Some (layout one n, free ++ seq bi (n - bi)).
Proof.
  revert bi info free. induction fuel as [|fuel IH]; intros bi info free Hl Hb Hf Ht; [lia|]. cbn.
  destruct (Z.ltb_spec (Z.of_nat bi * one) (Z.of_nat n * one)) as [Hlt|Hge].
  - assert (bi < n)%nat by nia. rewrite decide_True by lia. rewrite next_offset by done.
    rewrite IH; [|by rewrite length_insert|lia|lia|by apply (layout_insert one info bi n)].
    rewrite <- app_assoc. replace (n - bi)%nat with (S (n - S bi)) by lia. done.
  - assert (bi = n) by nia. subst bi. rewrite take_ge in Ht by lia.
    rewrite Nat.sub_diag. cbn. by rewrite app_nil_r, Ht.
Qed.

End loops.
(** ** Rebuilding the invariant with a new layout of one type *)

Definition same_but_offset (f : port -> port) : Prop :=
  forall x, f x = x <| p_offset := p_offset (f x) |>.

Record relaid (t : nat) (b : port_buffer_list) (f : port -> port) (e e' : engine) : Prop := {
  rl_ports : ports e' = f <$> ports e;
  rl_clients : clients e' = clients e;
  rl_store : client_store e' = client_store e;
  rl_conns : conn_store e' = conn_store e;
  rl_feedback : feedbackcount e' = feedbackcount e;
  rl_types : pt_id <$> port_types e' = pt_id <$> port_types e;
  rl_buffers : port_buffers e' = <[t := b]> (port_buffers e)
}.

Lemma relaid_graph t b f e e' : same_but_offset f -> relaid t b f e e' -> same_graph e e'.
Proof.
  intros Hf [R1 R2 R3 R4 R5 _ _]. constructor; [by rewrite R2|by rewrite R3| |done|done].
  rewrite R1, <- list_fmap_compose. apply list_fmap_ext. intros i x _. cbn. by rewrite Hf.
Qed.

Section relaid.
Context (t : nat) (b : port_buffer_list) (f : port -> port) (one : Z) (e e' : engine).
Context (Hf : same_but_offset f) (R : relaid t b f e e') (P : port_inv e).
Context (Hone : 0 < one) (Hinfo : blist_info b = Some (layout one (length (ports e)))).
Context (Hnd : NoDup (blist_freelist b ++ held e t)).
Context (Hrange : forall i, i ∈ blist_freelist b ++ held e t -> (1 <= i < length (ports e))%nat).
Context (Hother : forall x, ptype_id x <> Z.of_nat t -> f x = x).
Context (Hthis : forall p x, ports e !! p = Some x -> in_use x = true -> ptype_id x = Z.of_nat t ->
  if has_flag (flags x) JackPortIsInput then p_offset (f x) = p_offset x
  else forall bi, buffer_info x = Some bi -> has_flag (flags x) JackPortIsOutput = true ->
       p_offset (f x) = Z.of_nat bi * one).

Lemma relaid_length : length (ports e') = length (ports e).
Proof. by rewrite (rl_ports _ _ _ _ _ R), length_fmap. Qed.

Lemma relaid_types : length (port_types e') = length (port_types e).
Proof. pose proof (f_equal length (rl_types _ _ _ _ _ R)) as E. by rewrite !length_fmap in E. Qed.

Lemma relaid_held u : held e' u = held e u.
Proof.
  unfold held. rewrite (rl_ports _ _ _ _ _ R). apply omap_fmap_absorb.
  intros x. by rewrite Hf.
Qed.

Lemma relaid_lookup p y : ports e' !! p = Some y -> exists x, ports e !! p = Some x /\ y = f x.
Proof.
  rewrite (rl_ports _ _ _ _ _ R), list_lookup_fmap. destruct (ports e !! p) as [x|]; [|done].
  intros [= <-]. by exists x.
Qed.

Lemma relaid_blist u c :
  port_buffers e' !! u = Some c -> (u = t /\ c = b) \/ (u <> t /\ port_buffers e !! u = Some c).
Proof.
  rewrite (rl_buffers _ _ _ _ _ R). intros H.
  apply list_lookup_insert_Some in H as [(-> & -> & _)|[? ?]]; auto.
Qed.

Lemma relaid_port_ok p x : ports e !! p = Some x -> in_use x = true -> port_ok e' (f x).
Proof.
  intros Hx Hu. destruct (pi_ports e P p x Hx Hu) as [Ht Hb]. split.
  { rewrite Hf, relaid_types. exact Ht. }
  destruct (decide (ptype_id x = Z.of_nat t)) as [Et|Ht'].
  - specialize (Hthis p x Hx Hu Et). rewrite Hf. cbn.
    destruct (has_flag (flags x) JackPortIsInput); [by rewrite Hthis|].
    destruct Hb as (bi & Eb & _). exists bi. split; [done|]. intros Ho. rewrite (Hthis bi Eb Ho).
    rewrite (rl_buffers _ _ _ _ _ R), Et, Nat2Z.id, list_lookup_insert_eq.
    2:{ rewrite (bi_length e (pi_buffers e P)). lia. }
    unfold bi_offset. cbn. rewrite Hinfo. cbn. symmetry. apply layout_lookup.
    apply Hrange, elem_of_app. right. apply (holds_in_held e p x Hx). unfold holds.
    by rewrite Hu, Et, Z.eqb_refl.
  - rewrite Hother by done. destruct (has_flag _ _); [done|]. destruct Hb as (bi & Eb & Ho).
    exists bi. split; [done|]. intros Hout. rewrite (Ho Hout), (rl_buffers _ _ _ _ _ R).
    by rewrite list_lookup_insert_ne by lia.
Qed.

Lemma relaid_inv : port_inv e'.
Proof.
  pose proof relaid_length as Len. destruct P as [B P2 P3 P4 P5 P6 P7 P8].
  assert (Cl : forall c, the_client e' c = the_client e c)
    by (intros c; unfold the_client; by rewrite (rl_store _ _ _ _ _ R)).
  constructor; [constructor|..].
  - rewrite relaid_types, (rl_buffers _ _ _ _ _ R), length_insert. apply B.
  - intros u c Hc. rewrite relaid_held. destruct (relaid_blist u c Hc) as [[-> ->]|[_ Hc']]; [done|by apply B].
  - intros u c i Hc. rewrite relaid_held, Len.
    destruct (relaid_blist u c Hc) as [[-> ->]|[_ Hc']]; [apply Hrange|by apply B].
  - intros u c Hc. rewrite relaid_held, Len.
    destruct (relaid_blist u c Hc) as [[-> ->]|[_ Hc']]; [|by apply B]. rewrite Hinfo. by exists one.
  - intros i ty Hty. pose proof (f_equal (fun l => l !! i) (rl_types _ _ _ _ _ R)) as E. cbn in E.
    rewrite !list_lookup_fmap, Hty in E. destruct (port_types e !! i) as [ty'|] eqn:Et; [|done].
    cbn in E. injection E as ->. by apply P2.
  - intros p y Hy. destruct (relaid_lookup p y Hy) as (x & Hx & ->). rewrite Hf. by apply (P3 p x Hx).
  - intros p y Hy Hu. destruct (relaid_lookup p y Hy) as (x & Hx & ->).
    apply (relaid_port_ok p x Hx). by rewrite Hf in Hu.
  - intros c p Hc Hp. rewrite (rl_clients _ _ _ _ _ R) in Hc. rewrite Cl in *.
    destruct (P5 c p Hc Hp) as (x & Hx & Hu & Ho). exists (f x).
    rewrite (rl_ports _ _ _ _ _ R), list_lookup_fmap, Hx. split; [done|]. by rewrite Hf.
  - intros c Hc. rewrite (rl_clients _ _ _ _ _ R) in Hc. rewrite Cl. by apply P6.
  - intros p y Hy. destruct (relaid_lookup p y Hy) as (x & Hx & ->). rewrite Hf. by apply (P7 p x Hx).
  - intros c Hc. rewrite (rl_clients _ _ _ _ _ R) in Hc. rewrite Cl. by apply P8.
Qed.

End relaid.

Lemma replace_offsets_keeps ptid info : same_but_offset (replace_offsets ptid info).
Proof.
  intros x. unfold replace_offsets. destruct (_ && _); [|by destruct x]. destruct (buffer_info x) eqn:E; [|by destruct x].
  by destruct x.
Qed.

Lemma id_keeps : same_but_offset id.
Proof. intros x. by destruct x. Qed.

(** ** Placing the buffers of one type *)

(** What fixes the size of the buffers of a type. *)
Definition type_attrs (x : port_type) := (pt_id x, type_name x, buffer_scale_factor x, pt_buffer_size x).

(** The layout of type [t] is now that of buffers of [one] bytes. *)
Record placed (t : nat) (one nframes : Z) (e e' : engine) : Prop := {
  pl_layout : exists b, port_buffers e' !! t = Some b /\
    blist_info b = Some (layout one (length (ports e)));
  pl_others : forall u, u <> t -> port_buffers e' !! u = port_buffers e !! u;
  pl_length : length (ports e') = length (ports e);
  pl_types : type_attrs <$> port_types e' = type_attrs <$> port_types e;
  pl_control : control e' = control e;
  pl_inits : buffer_inits e' = buffer_inits e ++
    ((fun off => (Z.of_nat t, off, one, nframes)) <$> layout one (length (ports e)))
}.

Lemma mapM_layout one n : mapM (fun i => layout one n !! i) (seq 0 n) = Some (layout one n).
Proof.
  apply mapM_Some. unfold layout at 2. rewrite Forall2_fmap_r. apply Forall2_same_length_lookup_2; [done|].
  intros i x y Hx Hy. rewrite Hx in Hy. injection Hy as <-. apply lookup_seq in Hx as [-> Hi].
  unfold layout. by rewrite list_lookup_fmap, lookup_seq_lt.
Qed.

Lemma seq_range m n i : i ∈ seq m n <-> (m <= i < m + n)%nat.
Proof. rewrite list_elem_of_In. apply in_seq. Qed.

Section place.
Context (block : list Z) (t : nat) (one nframes : Z) (e : engine).
Let n := length (ports e).
Context (I : server_inv e) (Ht : (t < length (port_types e))%nat).
Context (Hone : 0 < one) (Hn : (0 < n)%nat) (Hfit : Z.of_nat n * one < 2 ^ 31).

Let fuel_enough : (n < S (Z.to_nat (Z.of_nat n * one)))%nat.
Proof. nia. Qed.

(** The resize: the array is already there. *)
Lemma place_again pti info :
  port_buffers e !! t = Some pti -> blist_info pti = Some info ->
  exists e', jack_engine_place_port_buffers block (Z.of_nat t) one (Z.of_nat n * one) (Z.of_nat n) nframes e
             = Some e' /\ server_inv e' /\ placed t one nframes e e'.
Proof.
  intros Hb Hi. pose proof (pi_buffers e (sv_ports e I)) as B.
  pose proof (bi_layout e B t pti Hb) as L. rewrite Hi in L. destruct L as (one0 & _ & ->).
  unfold jack_engine_place_port_buffers. rewrite !Nat2Z.id, Hb. cbn [mbind option_bind]. rewrite Hi.
  rewrite (recompute_spec one n Hone Hfit _ 0 (layout one0 n)).
  2:{ unfold layout. by rewrite length_fmap, length_seq. } 2:{ lia. } 2:{ lia. } 2:{ done. }
  cbn [mbind option_bind]. rewrite mapM_layout. cbn [mbind option_bind].
  eexists. split; [reflexivity|]. set (e' := assign buffer_inits _ _).
  set (b' := pti <| blist_info := Some (layout one n) |>).
  assert (Eb : port_buffers e' = <[t := b']> (port_buffers e)).
  { unfold e'. cbn. rewrite Nat2Z.id. by apply alter_insert_lookup. }
  assert (R : relaid t b' (replace_offsets (Z.of_nat t) (layout one n)) e e') by (by constructor).
  assert (Hlen : length (ports e') = length (ports e)) by (unfold e'; cbn; by rewrite length_fmap).
  split; [split|].
  - apply (graph_inv_same e), I. eapply relaid_graph; [apply replace_offsets_keeps|done].
  - apply (relaid_inv t b' (replace_offsets (Z.of_nat t) (layout one n)) one e e'); try done.
    + apply replace_offsets_keeps.
    + apply I.
    + exact (bi_nodup e B t pti Hb).
    + intros i. exact (bi_range e B t pti i Hb).
    + intros x Hx. unfold replace_offsets. destruct (Z.eqb_spec (ptype_id x) (Z.of_nat t)); [done|].
      by rewrite andb_false_r.
    + intros p x Hx Hu Etx. destruct (has_flag (flags x) JackPortIsInput) eqn:Ef.
      * destruct (pi_ports e (sv_ports e I) p x Hx Hu) as [_ K]. rewrite Ef in K. destruct K as [Kb _].
        unfold replace_offsets. rewrite Kb. by destruct (_ && _).
      * intros bi Hbi Ho. unfold replace_offsets. rewrite Hu, Ho, Etx, Z.eqb_refl, Hbi. cbn.
        apply layout_lookup, (bi_range e B t pti); [done|]. apply elem_of_app. right.
        apply (holds_in_held e p x Hx). unfold holds. by rewrite Hu, Etx, Z.eqb_refl.
  - constructor; try done.
    + exists b'. rewrite Eb, list_lookup_insert_eq; [done|]. rewrite (bi_length e B). done.
    + intros u Hu. by rewrite Eb, list_lookup_insert_ne.
Qed.

(** The first placement: the array and the free list are made. *)
Lemma place_first pti :
  length block = n -> port_buffers e !! t = Some pti -> blist_info pti = None ->
  exists e', jack_engine_place_port_buffers block (Z.of_nat t) one (Z.of_nat n * one) (Z.of_nat n) nframes e
             = Some e' /\ server_inv e' /\ placed t one nframes e e'.
Proof.
  intros Hlb Hb Hi. pose proof (pi_buffers e (sv_ports e I)) as B.
  pose proof (bi_layout e B t pti Hb) as L. rewrite Hi in L. apply app_eq_nil in L as [Lf Lh].
  unfold jack_engine_place_port_buffers. rewrite !Nat2Z.id, Hb. cbn [mbind option_bind]. rewrite Hi.
  rewrite (chain_spec one n Hone Hfit _ 0 block) by (done || lia).
  cbn [mbind option_bind]. rewrite Lf, Nat.sub_0_r. cbn [app].
  assert (Es : seq 0 n = 0%nat :: seq 1 (n - 1)) by (destruct n; [lia|cbn; by rewrite Nat.sub_0_r]).
  pose proof (mapM_layout one n) as M. rewrite Es in M. rewrite Es.
  cbn [mbind option_bind]. rewrite M. cbn [mbind option_bind].
  eexists. split; [reflexivity|]. set (e' := assign buffer_inits _ _).
  set (b' := mk_blist (seq 1 (n - 1)) (Some (layout one n))).
  assert (Eb : port_buffers e' = <[t := b']> (port_buffers e)).
  { unfold e'. destruct (_ =? _); cbn; rewrite Nat2Z.id; by apply (alter_insert_lookup (fun _ => b') _ t pti). }
  assert (Ety : type_attrs <$> port_types e' = type_attrs <$> port_types e).
  { assert (Ea : forall g : port_type -> port_type, (forall x, type_attrs (g x) = type_attrs x) ->
      type_attrs <$> alter g t (port_types e) = type_attrs <$> port_types e).
    { intros g Hg. apply list_eq. intros i. rewrite !list_lookup_fmap. destruct (decide (t = i)) as [->|].
      - rewrite list_lookup_alter_eq. destruct (port_types e !! i); cbn; [by rewrite Hg|done].
      - by rewrite list_lookup_alter_ne. }
    unfold e'. destruct (_ =? _); cbn; by apply Ea. }
  assert (R : relaid t b' id e e').
  { constructor; try (unfold e'; by destruct (_ =? _)); try exact Eb.
    - unfold e'. destruct (_ =? _); cbn; by rewrite list_fmap_id.
    - apply (f_equal (fmap (fun x => x.1.1.1))) in Ety. by rewrite <- !list_fmap_compose in Ety. }
  assert (Hheld : blist_freelist b' ++ held e t = seq 1 (n - 1)) by (cbn; by rewrite Lh, app_nil_r).
  split; [split|].
  - apply (graph_inv_same e), I. eapply relaid_graph; [apply id_keeps|done].
  - apply (relaid_inv t b' id one e e'); try done.
    + apply id_keeps.
    + apply I.
    + rewrite Hheld. apply NoDup_seq.
    + intros i. rewrite Hheld, seq_range. fold n. lia.
    + intros p x Hx Hu Etx. destruct (has_flag (flags x) JackPortIsInput); [done|]. intros bi Hbi.
      assert (Hin : bi ∈ held e t)
        by (apply (holds_in_held e p x Hx); unfold holds; by rewrite Hu, Etx, Z.eqb_refl).
      rewrite Lh in Hin. by apply not_elem_of_nil in Hin.
  - constructor; try done.
    + exists b'. rewrite Eb, list_lookup_insert_eq; [done|]. by rewrite (bi_length e B).
    + intros u Hu. by rewrite Eb, list_lookup_insert_ne.
    + apply (relaid_length t b' id e e' R).
    + unfold e'. by destruct (_ =? _).
    + unfold e'. by destruct (_ =? _).
Qed.

Lemma place_spec :
  length block = n ->
  exists e', jack_engine_place_port_buffers block (Z.of_nat t) one (Z.of_nat n * one) (Z.of_nat n) nframes e
             = Some e' /\ server_inv e' /\ placed t one nframes e e'.
Proof.
  intros Hl. assert (Hlt : (t < length (port_buffers e))%nat) by (by rewrite (bi_length e (pi_buffers e (sv_ports e I)))).
  destruct (lookup_lt_is_Some_2 _ _ Hlt) as [pti Hp]. destruct (blist_info pti) as [info|] eqn:Ei.
  - by apply (place_again pti info).
  - by apply (place_first pti).
Qed.

End place.
(** ** Changing the buffer size *)

(** The layout of type [i] is that of its buffers for [nframes] frames. *)
Definition laid_out (e : engine) (i : nat) (nframes : Z) : Prop :=
  exists t b, port_types e !! i = Some t /\ port_buffers e !! i = Some b /\
    blist_info b = Some (layout (jack_port_type_buffer_size t nframes) (length (ports e))).

(** The segments fit the 32-bit offsets. *)
Definition sizes_fit (e : engine) (nframes : Z) : Prop :=
  (0 < length (ports e))%nat /\
  forall i t, port_types e !! i = Some t -> 0 < jack_port_type_buffer_size t nframes /\
    zlen (ports e) * jack_port_type_buffer_size t nframes < 2 ^ 31.

(** What the changes of a segment leave alone. *)
Record segment_frame (e e' : engine) : Prop := {
  sf_length : length (ports e') = length (ports e);
  sf_types : type_attrs <$> port_types e' = type_attrs <$> port_types e;
  sf_control : control e' = control e
}.

#[global] Instance segment_frame_preorder : PreOrder segment_frame.
Proof. split; [done|]. intros e1 e2 e3 [] []. constructor; congruence. Qed.

Lemma type_attrs_size t t' n :
  type_attrs t = type_attrs t' -> jack_port_type_buffer_size t n = jack_port_type_buffer_size t' n.
Proof. intros E. injection E as _ _ E1 E2. unfold jack_port_type_buffer_size. by rewrite E1, E2. Qed.

Lemma segment_frame_type e e' i t' n :
  segment_frame e e' -> port_types e' !! i = Some t' ->
  exists t, port_types e !! i = Some t /\ jack_port_type_buffer_size t' n = jack_port_type_buffer_size t n.
Proof.
  intros S Ht. pose proof (f_equal (fun l => l !! i) (sf_types e e' S)) as E. cbn in E.
  rewrite !list_lookup_fmap, Ht in E. destruct (port_types e !! i) as [t|]; [|done].
  apply (inj Some) in E. exists t. split; [done|]. by apply type_attrs_size.
Qed.

Lemma sizes_fit_frame e e' n : segment_frame e e' -> sizes_fit e n -> sizes_fit e' n.
Proof.
  intros S [Hn Hs]. split; [by rewrite (sf_length e e' S)|]. intros i t' Ht.
  destruct (segment_frame_type e e' i t' n S Ht) as (t & Ht' & ->).
  rewrite (sf_length e e' S). by apply (Hs i).
Qed.

Section resize.
Context (env : environment) (mem : allocator).
Context (Hmalloc : forall n, 0 <= n -> zlen (al_malloc mem n) = n).

Lemma resize_spec e i :
  server_inv e -> (i < length (port_types e))%nat -> sizes_fit e (buffer_size (control e)) ->
  exists rc e', jack_resize_port_segment env mem (Z.of_nat i) (zlen (ports e)) e = Some (rc, e') /\
    server_inv e' /\ segment_frame e e' /\
    (forall u, u <> i -> port_buffers e' !! u = port_buffers e !! u) /\
    (rc = -1 \/ rc = 0 /\ laid_out e' i (buffer_size (control e))).
Proof.
  intros I Hi [Hn Hs]. destruct (lookup_lt_is_Some_2 _ _ Hi) as [t Ht]. destruct (Hs i t Ht) as [H1 H2].
  unfold jack_resize_port_segment. rewrite Nat2Z.id, Ht. cbn [mbind option_bind].
  set (one := jack_port_type_buffer_size t _) in *.
  rewrite (swrap_small 32 one) by (done || nia). rewrite (swrap_small 32 (_ * _)) by (done || nia).
  set (attached := if _ =? 0 then _ else _).
  assert (Ha : attached = None \/ exists s, attached = Some (e <| port_segment := s |>)).
  { unfold attached. destruct (_ =? 0).
    - destruct (al_shmalloc _ _ _); [right; by eexists|by left].
    - destruct (al_resize _ _ _); [right; exists (port_segment e); by destruct e|by left]. }
  clearbody attached. destruct Ha as [->|[s ->]].
  { exists (-1), e. split_and!; try done. by left. }
  set (e1 := e <| port_segment := s |>).
  assert (I1 : server_inv e1).
  { destruct I as [G [[] ]]. split; [by apply (graph_inv_same e)|]. by constructor; [constructor|..]. }
  destruct (place_spec (al_malloc mem (zlen (ports e))) i one (buffer_size (control e)) e1)
    as (e2 & E2 & I2 & P2); try done.
  { pose proof (Hmalloc (zlen (ports e)) ltac:(lia)). cbn. lia. }
  change (buffer_size (control e1)) with (buffer_size (control e)). cbn in E2. cbn.
  rewrite E2. cbn [mbind option_bind].
  set (e3 := jack_deliver_event_to_all env (AttachPortSegment (Z.of_nat i)) e2).
  assert (F : event_frame e2 e3) by apply deliver_where_frame. clearbody e3.
  assert (Hg : forall A (g : engine -> A), (forall x, g (x <| client_store := ∅ |> <| problems := 0 |>
      <| events := [] |> <| io_count := 0%nat |>) = g x) -> g e3 = g e2)
    by (intros A g Hg; by apply (event_frame_get g e2 e3)).
  destruct P2 as [[b [Pb Pi]] Po Pl Pt Pc _].
  exists 0, e3. split; [done|]. split; [by apply (server_inv_event e2)|]. split_and!.
  - constructor; [by rewrite (Hg _ ports) by done|by rewrite (Hg _ port_types) by done|by rewrite (Hg _ control) by done].
  - intros u Hu. rewrite (Hg _ port_buffers) by done. by apply Po.
  - right. split; [done|]. unfold laid_out. rewrite (Hg _ port_types), (Hg _ port_buffers), (Hg _ ports) by done.
    assert (S : segment_frame e e2) by (by constructor).
    assert (Hi2 : (i < length (port_types e2))%nat).
    { pose proof (f_equal length Pt) as E. rewrite !length_fmap in E. by rewrite E. }
    destruct (lookup_lt_is_Some_2 _ _ Hi2) as [t2 Ht2]. exists t2, b. split_and!; [done|done|].
    destruct (segment_frame_type e e2 i t2 (buffer_size (control e)) S Ht2) as (t' & Ht' & ->).
    rewrite Ht in Ht'. injection Ht' as <-. by rewrite Pl.
Qed.

Lemma laid_out_keep e e' i n :
  segment_frame e e' -> port_buffers e' !! i = port_buffers e !! i -> laid_out e i n -> laid_out e' i n.
Proof.
  intros S Eb (t & b & Ht & Hb & Hl).
  assert (Hi : (i < length (port_types e'))%nat).
  { apply lookup_lt_Some in Ht. pose proof (f_equal length (sf_types e e' S)) as E.
    rewrite !length_fmap in E. by rewrite E. }
  destruct (lookup_lt_is_Some_2 _ _ Hi) as [t' Ht']. exists t', b. split_and!; [done|by rewrite Eb|].
  destruct (segment_frame_type e e' i t' n S Ht') as (t2 & Ht2 & ->).
  rewrite Ht in Ht2. injection Ht2 as <-. by rewrite (sf_length e e' S).
Qed.

Lemma resize_all_spec l e :
  NoDup l -> (forall i, i ∈ l -> (i < length (port_types e))%nat) ->
  server_inv e -> sizes_fit e (buffer_size (control e)) ->
  exists rc e', resize_all env mem l e = Some (rc, e') /\ server_inv e' /\ segment_frame e e' /\
    (forall u, u ∉ l -> port_buffers e' !! u = port_buffers e !! u) /\
    (rc = -1 \/ rc = 0 /\ forall i, i ∈ l -> laid_out e' i (buffer_size (control e))).
Proof.
  intros Hnd. revert e. induction Hnd as [|i l Hi Hnd IH]; intros e Hl I Hs.
  { exists 0, e. split_and!; try done. right. split; [done|]. intros i Hi. by apply not_elem_of_nil in Hi. }
  destruct (resize_spec e i I (Hl i ltac:(left)) Hs) as (rc & e1 & E1 & I1 & S1 & O1 & R1).
  cbn [resize_all]. rewrite E1. cbn [mbind option_bind].
  destruct R1 as [->|[-> L1]]; cbn [negb Z.eqb].
  { exists (-1), e1. split_and!; try done; [|by left]. intros u Hu. apply O1. set_solver. }
  destruct (IH e1) as (rc & e2 & E2 & I2 & S2 & O2 & R2).
  { intros j Hj. pose proof (f_equal length (sf_types e e1 S1)) as E. rewrite !length_fmap in E.
    rewrite E. apply Hl. by right. }
  { done. }
  { rewrite (sf_control e e1 S1). by apply (sizes_fit_frame e). }
  exists rc, e2. rewrite (sf_control e e1 S1) in R2. split_and!; [done|done|by transitivity e1|..].
  - intros u Hu. rewrite O2, O1 by set_solver. done.
  - destruct R2 as [->|[-> L2]]; [by left|right]. split; [done|]. intros j Hj.
    apply elem_of_cons in Hj as [->|Hj]; [|by apply L2].
    apply (laid_out_keep e1); [done|by apply O2|done].
Qed.

(** A change of the buffer size by the driver, while the segments fit
    32-bit offsets: the call returns, keeps the invariants of graph, ports
    and buffers (so no two ports share a buffer afterwards either), and when
    it succeeds every segment is laid out for the new size. *)
Lemma driver_buffer_size_spec nframes e :
  server_inv e -> sizes_fit e nframes ->
  exists ret e', jack_driver_buffer_size env mem nframes e = Some (ret, e') /\ server_inv e' /\
    buffer_size (control e') = nframes /\ length (ports e') = length (ports e) /\
    length (port_types e') = length (port_types e) /\
    (ret = -1 \/ ret = 0 /\
       forall i, (i < length (port_types e))%nat -> laid_out e' i nframes).
Proof.
  intros I Hs. unfold jack_driver_buffer_size. set (e1 := upd_control _ e).
  assert (I1 : server_inv e1).
  { destruct I as [G [[] ]]. split; [by apply (graph_inv_same e)|]. by constructor; [constructor|..]. }
  assert (S : segment_frame e1 e1) by done.
  destruct (resize_all_spec (seq 0 (length (port_types e1))) e1) as (rc & e2 & E2 & I2 & S2 & _ & R).
  { apply NoDup_seq. } { intros i Hi. apply seq_range in Hi. lia. } { done. } { exact Hs. }
  rewrite E2. cbn [mbind option_bind]. change (buffer_size (control e1)) with nframes in R.
  assert (T2 : length (port_types e2) = length (port_types e)).
  { pose proof (f_equal length (sf_types e1 e2 S2)) as T2. by rewrite !length_fmap in T2. }
  destruct R as [->|[-> L]]; cbn [negb Z.eqb].
  { exists (-1), e2. split_and!; [done|done|by rewrite (sf_control e1 e2 S2)|by rewrite (sf_length e1 e2 S2)|done|by left]. }
  set (e3 := jack_deliver_event_to_all env BufferSizeChange e2).
  assert (F : event_frame e2 e3) by apply deliver_where_frame. clearbody e3.
  exists 0, e3. split; [done|]. split; [by apply (server_inv_event e2)|].
  rewrite (event_frame_get control e2 e3), (event_frame_get ports e2 e3), (event_frame_get port_types e2 e3) by done. split_and!.
  - by rewrite (sf_control e1 e2 S2).
  - by rewrite (sf_length e1 e2 S2).
  - done.
  - right. split; [done|]. intros i Hi. apply (laid_out_keep e2); [|by rewrite (event_frame_get port_buffers e2 e3)|].
    + constructor; [by rewrite (event_frame_get ports e2 e3)|by rewrite (event_frame_get port_types e2 e3)
        |by rewrite (event_frame_get control e2 e3)].
    + apply L, seq_range. cbn. lia.
Qed.

End resize.
End Buffers.
