(* ===== verification/PortRuns.v ===== *)
(** * The buffers of ports over time (server/engine.c)

    Ports come and go and the buffer size changes; whatever the order, each output port
    keeps a buffer of its own, of the size of the last change. *)

From S2P Require Import Prelude JSList Engine Events Graph GraphInv Connect GraphFrame Ports PortsInv Buffers.

Local Open Scope Z_scope.

Module PortRuns.
Import JSList Events Graph GraphInv Connect GraphFrame Ports PortsInv Buffers.

(** ** What registration leaves alone *)

Record info_frame (e e' : engine) : Prop := {
  if_types : port_types e' = port_types e;
  if_info : same_info e e';
  if_length : length (ports e') = length (ports e);
  if_size : buffer_size (control e') = buffer_size (control e)
}.

#[global] Instance info_frame_preorder : PreOrder info_frame.
Proof.
  split; [done|]. intros e1 e2 e3 [] []. constructor; [congruence|by transitivity e2|congruence..].
Qed.

Lemma info_event e e' : event_frame e e' -> info_frame e e'.
Proof.
  intros F. constructor; [by rewrite (event_frame_get port_types e e')| |by rewrite (event_frame_get ports e e')|by rewrite (event_frame_get control e e')].
  intros t. by rewrite (event_frame_get port_buffers e e').
Qed.

Lemma info_graph e e' : graph_frame e e' -> info_frame e e'.
Proof.
  intros F. constructor; [by rewrite (graph_frame_get port_types e e')| |by apply graph_frame_length|by rewrite (graph_frame_get control e e')].
  intros t. by rewrite (graph_frame_get port_buffers e e').
Qed.

Lemma info_port p f e : info_frame e (upd_port p f e).
Proof. constructor; try done. apply length_upd_port. Qed.

Lemma info_blist t f e : (forall b, blist_info (f b) = blist_info b) -> info_frame e (upd_blist t f e).
Proof. intros H. constructor; try done. by apply upd_blist_info. Qed.

Lemma info_assign p e : info_frame e (jack_port_assign_buffer p e).2.
Proof.
  unfold jack_port_assign_buffer. cbv zeta. destruct (has_flag _ _); [apply info_port|].
  destruct (blist_freelist _); [done|]. cbn [snd]. etransitivity; [|apply info_port]. by apply info_blist.
Qed.

Lemma info_release p e : info_frame e (jack_port_release p e).
Proof.
  unfold jack_port_release. cbv zeta. set (e1 := upd_port p _ e). transitivity e1; [apply info_port|].
  destruct (buffer_info _); [|done]. etransitivity; [|apply info_port]. by apply info_blist.
Qed.

Lemma info_naming req internal x e : info_frame e (port_naming req internal x e).2.
Proof. unfold port_naming. repeat case_match; by constructor. Qed.

Section io.
Context (env : environment).

Lemma info_register req internal e : info_frame e (jack_port_do_register env req internal e).2.
Proof.
  unfold jack_port_do_register, jack_get_free_port. destruct (find_port_type _ _ _) as [i|]; [|done].
  destruct (jack_client_internal_by_id _ _) as [c|]; [|done]. destruct (jack_get_port_by_name _ _); [done|].
  destruct (find_port _ _ _) as [p|]; [|done]. set (e0 := upd_port p _ e).
  assert (F0 : info_frame e e0) by apply info_port. clearbody e0. pose proof (info_naming req internal (the_port e0 p) e0) as F1.
  destruct (port_naming _ _ _ _) as [x e1]. cbn [snd] in F1. set (e2 := upd_port p _ e1).
  assert (F2 : info_frame e e2) by (transitivity e0; [done|]; transitivity e1; [done|]; apply info_port). clearbody e2.
  pose proof (info_assign p e2) as F3. destruct (jack_port_assign_buffer p e2) as [rc e3]. cbn [snd] in F3.
  assert (F : info_frame e e3) by (by transitivity e2). destruct (negb _); cbn [snd]; [transitivity e3; [done|apply info_release]|].
  set (e4 := upd_client c _ e3). assert (F4 : info_frame e e4) by (transitivity e3; [done|by constructor]). clearbody e4.
  destruct (active _); [|done]. transitivity e4; [done|]. apply info_event, deliver_where_frame.
Qed.

Lemma info_unregister req e ret e' : jack_port_do_unregister env req e = Some (ret, e') -> info_frame e e'.
Proof.
  unfold jack_port_do_unregister. destruct (_ >? _); [by intros [= _ <-]|]. destruct (ports e !! _) as [x|]; [|done].
  cbn [mbind option_bind]. destruct (negb _); [by intros [= _ <-]|]. destruct (jack_client_internal_by_id _ _) as [c|]; [|by intros [= _ <-]].
  cbv zeta. intros E. apply (inj Some), (f_equal snd) in E. cbn [snd] in E. rewrite <- E.
  etransitivity; [|apply info_event, deliver_where_frame]. set (e1 := jack_port_clear_connections _ _ e).
  transitivity e1; [apply info_graph, frame_clear_connections|]. transitivity (jack_port_release (Z.to_nat (req_port_id req)) e1); [apply info_release|by constructor].
Qed.

(** ** Runs *)

(** A port is registered or unregistered, or the buffer size changes, and that succeeds.  What the code does not
    check: a port is not both an input and an output, the segments stay below 2^31 bytes. *)
Inductive port_step : engine -> engine -> Prop :=
| ps_register req internal e : legal_flags (req_flags req) -> port_step e (jack_port_do_register env req internal e).2
| ps_unregister req ret e e' : 0 <= req_port_id req -> jack_port_do_unregister env req e = Some (ret, e') -> port_step e e'
| ps_buffer_size mem n e e' :
    (forall n, 0 <= n -> zlen (al_malloc mem n) = n) -> sizes_fit e n ->
    jack_driver_buffer_size env mem n e = Some (0, e') -> port_step e e'.

(** All types are laid out for the current buffer size. *)
Definition sized (e : engine) : Prop := forall i, (i < length (port_types e))%nat -> laid_out e i (buffer_size (control e)).

Lemma sized_frame e e' : info_frame e e' -> sized e -> sized e'.
Proof.
  intros [Ft Fi Fl Fs] H i Hi. rewrite Ft in Hi. destruct (H i Hi) as (t & b & Ht & Hb & El).
  specialize (Fi i). rewrite Hb in Fi. destruct (port_buffers e' !! i) as [b'|] eqn:Hb'; [|done]. cbn in Fi. apply (inj Some) in Fi.
  exists t, b'. rewrite Ft, Fl, Fs, Fi. done.
Qed.

Lemma buffer_size_sized mem n e e' :
  (forall n, 0 <= n -> zlen (al_malloc mem n) = n) -> sizes_fit e n -> server_inv e ->
  jack_driver_buffer_size env mem n e = Some (0, e') -> server_inv e' /\ sized e'.
Proof.
  intros Hm Hs I E. destruct (driver_buffer_size_spec env mem Hm n e I Hs) as (ret & e1 & E1 & I1 & S1 & _ & T1 & R).
  rewrite E in E1. injection E1 as <- <-. split; [done|]. destruct R as [?|[_ L]]; [done|].
  intros i Hi. rewrite S1. apply L. by rewrite <- T1.
Qed.

Lemma port_step_keeps e e' : port_step e e' -> server_inv e -> sized e -> server_inv e' /\ sized e'.
Proof.
  intros St I S. destruct St.
  - pose proof (register_spec env req internal e I) as R. pose proof (info_register req internal e) as F.
    destruct (jack_port_do_register env req internal e) as [[ret id] e']. cbn [snd] in *. destruct R as [R _].
    split; [by apply R|by apply (sized_frame e)].
  - split; [|by apply (sized_frame e); [eapply info_unregister|]].
    destruct (decide (req_port_id req < zlen (ports e))) as [Hlt|Hge].
    + destruct (unregister_spec env req e I ltac:(lia)) as (ret' & e1 & E & I1 & _). rewrite E in H0. by injection H0 as <- <-.
    + revert H0. unfold jack_port_do_unregister. destruct (_ >? _); [by intros [= _ <-]|].
      by rewrite (lookup_ge_None_2 (ports e) (Z.to_nat (req_port_id req))) by lia.
  - by eapply buffer_size_sized.
Qed.

(** An output port in use. *)
Definition output (x : port) : Prop :=
  in_use x = true /\ has_flag (flags x) JackPortIsOutput = true /\ has_flag (flags x) JackPortIsInput = false.


End io.
End PortRuns.
