(* ===== verification/Clients.v ===== *)
(** * Clients (server/clientengine.c)

    Creation, activation, deactivation and removal of clients, the choice of
    unique names, and the handling of clients that failed.  Locks are not
    modelled: each operation runs under the graph or the request lock. *)

From S2P Require Import Prelude JSList Engine Transport Events Graph Ports.

Local Open Scope Z_scope.

Module Clients.
Import JSList Transport Events Graph Ports.

Definition JackUseExactName : Z := 0x02.
Definition JackFailure : Z := 0x01.
Definition JackNameNotUnique : Z := 0x04.
Definition JackNoSuchClient : Z := 0x40.
Definition JackLoadFailure : Z := 0x80.
Definition JackInitFailure : Z := 0x100.
Definition JackVersionError : Z := 0x400.
Definition UINT_MAX : Z := 2 ^ 32 - 1.

(** ** Names *)

Definition jack_client_name_reserved (e : engine) (name : string) : bool :=
  existsb (fun r => String.eqb r.2 name) (reserved_client_names e).

Definition name_taken (e : engine) (name : string) : bool :=
  bool_decide (jack_client_by_name e name <> None) || jack_client_name_reserved e name.

(** [name] followed by a dash and two digits. *)
Definition digit (d : nat) : Ascii.ascii := Ascii.ascii_of_nat (48 + d).
Definition suffixed (name : string) (tens ones : nat) : string :=
  (name +:+ String (Ascii.ascii_of_nat 45) (String (digit tens) (String (digit ones) "")))%string.

(** [while (taken) { increment the two digits; give up after 99 }] *)
Fixpoint unique_loop (fuel : nat) (e : engine) (name : string) (tens ones : nat) : option string :=
  match fuel with
  | O => None
  | S fuel =>
      if name_taken e (suffixed name tens ones) then
        if decide (ones = 9%nat) then
          if decide (tens = 9%nat) then None
          else unique_loop fuel e name (S tens) 0
        else unique_loop fuel e name tens (S ones)
      else Some (suffixed name tens ones)
  end.

(** The new name, or [None] for the failure return. *)
Definition jack_generate_unique_name (e : engine) (name : string) : option string :=
  if Z.of_nat (String.length name) >? JACK_CLIENT_NAME_SIZE - 4 then None
  else unique_loop 100 e name 0 1.

(** The name to use, or [None] for an invalid one, and the status bits. *)
Definition jack_client_name_invalid (e : engine) (name : string) (options status : Z)
    : option string * Z :=
  if name_taken e name then
    let status := Z.lor status JackNameNotUnique in
    if has_flag options JackUseExactName then (None, Z.lor status JackFailure)
    else match jack_generate_unique_name e name with
         | None => (None, Z.lor status JackFailure)
         | Some n => (Some n, status)
         end
  else (Some name, status).

(** ** Leaving the graph *)

(** Some removals end the server: [exit], or an endless [sleep] after the
    waiting process has been told. *)
Inductive outcome :=
| Continues (e : engine)
| Terminates (e : engine).

Definition outcome_engine (o : outcome) : engine :=
  match o with Continues e => e | Terminates e => e end.

(** [finish] is the function of that name of an internal client. *)
Section io.
Context (env : environment) (finish : client_ptr -> engine -> engine).

Definition jack_client_disconnect_ports (c : client_ptr) (e : engine) : engine :=
  let e :=
    foldl (fun e p =>
      let e := jack_port_clear_connections env p e in
      let e := jack_port_registration_notify env (p_id (the_port e p)) false e in
      jack_port_release p e) e (c_ports (the_client e c)) in
  upd_client c (fun x => x <| truefeeds := [] |> <| sortfeeds := [] |> <| c_ports := [] |>) e.

Definition jack_client_do_deactivate (c : client_ptr) (sort_graph : bool) (e : engine)
    : Z * engine :=
  let e := upd_client c (fun x => x <| active := false |>) e in
  let e := jack_transport_client_exit c e in
  let e := if negb (jack_client_is_internal (the_client e c)) && (external_client_cnt e >? 0)
           then e <| external_client_cnt ::= Z.pred |> else e in
  (0, if sort_graph then jack_sort_graph env e else e).

Definition jack_zombify_client (c : client_ptr) (e : engine) : engine :=
  let e := upd_client c (fun x => x <| dead := true |>) e in
  let e := jack_client_disconnect_ports c e in
  (jack_client_do_deactivate c false e).2.

(** The notification of the others, then the block is freed. *)
Definition jack_client_delete (c : client_ptr) (e : engine) : engine :=
  jack_client_registration_notify env (c_name (the_client e c)) false e
    <| client_store ::= delete c |>.

(** [engine->session_pending_replies] and the end of a session. *)
Definition drop_session_reply (c : client_ptr) (e : engine) : engine :=
  if session_reply_pending (the_client e c) then
    let e := e <| session_pending_replies ::= Z.pred |> in
    if session_pending_replies e =? 0 then e <| session_reply_fd := -1 |> else e
  else e.

(** The list node of the client with this id goes. *)
Definition unlink_client (c : client_ptr) (e : engine) : engine :=
  match jack_client_internal_by_id e (c_id (the_client e c)) with
  | Some d => e <| clients ::= slist_remove d |>
  | None => e
  end.

Definition jack_remove_client (c : client_ptr) (e : engine) : outcome :=
  let e := if bool_decide (c_type (the_client e c) = ClientInternal) then finish c e else e in
  let e := if negb (dead (the_client e c)) then jack_zombify_client c e else e in
  let e := drop_session_reply c e in
  let e := unlink_client c e in
  let e := jack_client_delete c e in
  if temporary e && (zlen (clients e) <=? 1) then
    if wait_pid e >=? 0 then Terminates (e <| new_clients_allowed := false |>)
    else Terminates e
  else Continues e.

(** ** Failed clients *)

(** [finished_at'] is what a client's [finished_at] reads after it has been
    given the rest of the period. *)
Definition check_client (with_timeout_check : bool) (finished_at' : client_ptr -> Z)
    (acc : Z * engine) (c : client_ptr) : Z * engine :=
  let '(errs, e) := acc in
  let x := the_client e c in
  if negb (c_error x =? 0) then (errs + 1, e)
  else if with_timeout_check && (awake_at x >? 0) && (finished_at x =? 0) then
    if finished_at' c =? 0 then
      (errs + 1, upd_client c (fun x => x <| timed_out ::= Z.succ |> <| c_error ::= Z.succ |>) e)
    else (errs, upd_client c (fun x => x <| finished_at := finished_at' c |>) e
                  <| timeout_count ::= Z.succ |>)
  else acc.

Definition jack_check_clients (with_timeout_check : bool) (finished_at' : client_ptr -> Z)
    (e : engine) : Z * engine :=
  let '(errs, e) := foldl (check_client with_timeout_check finished_at') (0, e) (clients e) in
  (errs, if negb (errs =? 0) then jack_engine_signal_problems e else e).

(** [jack_slist_next] of the node that holds [c]. *)
Fixpoint next_node (l : list client_ptr) (c : client_ptr) : option client_ptr :=
  match l with
  | [] => None
  | x :: l => if decide (x = c) then head l else next_node l c
  end.

(** One failed client: removed when its sockets failed, else made a zombie.
    The flags are [need_sort] and [*exit_freewheeling_when_done]. *)
Definition remove_failed (c : client_ptr) (exit_fw : bool) (e : engine) : bool * outcome :=
  let x := the_client e c in
  let exit_fw := exit_fw || (freewheeling e && (c_id x =? fwclient e)) in
  (exit_fw,
   if c_error x >=? JACK_ERROR_WITH_SOCKETS then jack_remove_client c e
   else if negb (nozombies e) then
     Continues (upd_client c (fun x => x <| c_error := 0 |>) (jack_zombify_client c e))
   else Continues e).

(** The loop walks the nodes of the list, which removals sort in between:
    [tmp] is the successor of the node before the removal. *)
Fixpoint remove_loop (fuel : nat) (node : option client_ptr) (need_sort exit_fw : bool) (e : engine)
    : option (bool * bool * outcome) :=
  match fuel with
  | O => None
  | S fuel =>
      match node with
      | None => Some (need_sort, exit_fw, Continues e)
      | Some c =>
          let tmp := next_node (clients e) c in
          if negb (c_error (the_client e c) =? 0) then
            match remove_failed c exit_fw e with
            | (exit_fw, Continues e) => remove_loop fuel tmp true exit_fw e
            | (exit_fw, Terminates e) => Some (true, exit_fw, Terminates e)
            end
          else remove_loop fuel tmp need_sort exit_fw e
      end
  end.

(** Enough for one walk over the list after each of at most as many
    reorderings as there are clients. *)
Definition remove_fuel (e : engine) : nat :=
  let n := length (clients e) in (S n * S n)%nat.

Definition jack_remove_clients (exit_fw : bool) (e : engine) : option (bool * outcome) :=
  match remove_loop (remove_fuel e) (head (clients e)) false exit_fw e with
  | Some (true, exit_fw, Continues e) => Some (exit_fw, Continues (jack_sort_graph env e))
  | Some (_, exit_fw, o) => Some (exit_fw, o)
  | None => None
  end.

Definition jack_mark_client_socket_error (fd : Z) (e : engine) : engine :=
  match find (fun c => negb (jack_client_is_internal (the_client e c))
                       && (request_fd (the_client e c) =? fd)) (clients e) with
  | Some c => upd_client c (fun x => x <| c_error ::= fun n => n + JACK_ERROR_WITH_SOCKETS |>) e
  | None => e
  end.

(** ** Activation *)

Definition jack_client_activate (id : Z) (e : engine) : Z * engine :=
  match jack_client_internal_by_id e id with
  | None => (-1, e)
  | Some c =>
      let e := upd_client c (fun x => x <| active := true |>) e in
      let e := jack_transport_activate c e in
      let e := e <| external_client_cnt ::= Z.succ |> in
      let e := (jack_get_fifo_fd env (external_client_cnt e) e).2 in
      let e := jack_sort_graph env e in
      let e := foldl (fun e i => (jack_deliver_event env c (AttachPortSegment (Z.of_nat i)) e).2)
                     e (seq 0 (length (port_types e))) in
      let e := (jack_deliver_event env c BufferSizeChange e).2 in
      (0, foldl (fun e p => jack_port_registration_notify env (p_id (the_port e p)) true e)
                e (c_ports (the_client e c)))
  end.

Definition jack_client_deactivate (id : Z) (e : engine) : Z * engine :=
  match jack_client_internal_by_id e id with
  | None => (-1, e)
  | Some c =>
      let e := foldl (fun e p => jack_port_clear_connections env p e) e (c_ports (the_client e c)) in
      jack_client_do_deactivate c true e
  end.

(** ** Creation *)

(** What happens outside: the contents of the block [malloc] returns, whether
    the shared memory and the object file could be had, what the client's
    [initialize] does (non-zero is a failure), whether the answer arrives. *)
Record client_world := mk_world {
  cw_block : client;
  cw_shm_ok : bool;
  cw_load_ok : bool;
  cw_initialize : client_ptr -> engine -> Z * engine;
  cw_reply_ok : bool
}.

Section world.
Context (world : client_world).

(** The fields the function sets; [fedcount], [tfedcount] and the cycle times
    keep what the block contained. *)
Definition new_client (fd : Z) (type : ClientType) (name : string) (uuid id : Z) (block : client)
    : client :=
  jack_transport_client_new
    (block <| request_fd := fd |> <| event_fd := -1 |> <| c_ports := [] |> <| truefeeds := [] |>
       <| sortfeeds := [] |> <| execution_order := UINT_MAX |> <| next_client := None |>
       <| c_error := 0 |> <| c_type := type |> <| active := false |> <| dead := false |>
       <| timed_out := 0 |> <| c_id := id |> <| c_uid := uuid |> <| c_name := name |>
       <| subgraph_start_fd := -1 |> <| subgraph_wait_fd := -1 |>
       <| session_reply_pending := false |>
       <| cbset ::= fun b => b <| process_cbset := false |> <| bufsize_cbset := false |>
            <| srate_cbset := false |> <| xrun_cbset := false |> <| port_register_cbset := false |>
            <| port_connect_cbset := false |> <| graph_order_cbset := false |>
            <| client_register_cbset := false |> <| thread_cb_cbset := false |>
            <| session_cbset := false |> |>).

Definition jack_setup_client_control (fd : Z) (type : ClientType) (name : string) (uuid : Z)
    (e : engine) : option client_ptr * engine :=
  if bool_decide (type = ClientExternal) && negb (cw_shm_ok world) then (None, e)
  else
    let c := fresh (dom (client_store e)) in
    let id := next_client_id e in
    (Some c, e <| next_client_id := u32 (id + 1) |>
               <| client_store ::= <[c := new_client fd type name uuid id (cw_block world)]> |>).

Definition jack_ensure_uuid_unique (uuid : Z) (e : engine) : engine :=
  foldl (fun e c => if c_uid (the_client e c) =? uuid
                    then upd_client c (fun x => x <| c_uid := 0 |>) e else e) e (clients e).

(** [client], [*status], the name and the engine after the call. *)
Definition setup_client (type : ClientType) (name : string) (uuid options status client_fd : Z)
    (e : engine) : option client_ptr * Z * string * outcome :=
  match jack_client_name_invalid e name options status with
  | (None, status) => (None, status, name, Continues e)
  | (Some name, status) =>
      let e := if negb (uuid =? 0) then jack_ensure_uuid_unique uuid e else e in
      match jack_setup_client_control client_fd type name uuid e with
      | (None, e) => (None, Z.lor status (Z.lor JackFailure JackInitFailure), name, Continues e)
      | (Some c, e) =>
          if bool_decide (type = ClientInternal) && negb (cw_load_ok world) then
            (None, Z.lor status (Z.lor JackFailure JackLoadFailure), name,
             Continues (jack_client_delete c e))
          else
            let e := e <| clients ::= cons c |> in
            if bool_decide (type = ClientInternal) then
              let '(rc, e) := cw_initialize world c e in
              if negb (rc =? 0) then
                (None, Z.lor status (Z.lor JackFailure JackInitFailure), name,
                 jack_remove_client c e)
              else (Some c, status, name, Continues e)
            else (Some c, status, name, Continues e)
      end
  end.

Definition jack_create_driver_client (name : string) (e : engine) : option client_ptr * outcome :=
  let '(c, _, _, o) := setup_client ClientDriver name 0 JackUseExactName 0 (-1) e in (c, o).

Definition handle_unload_client (id : Z) (e : engine) : Z * outcome :=
  match jack_client_internal_by_id e id with
  | Some c => (0, jack_remove_client c e)
  | None => (Z.lor JackNoSuchClient JackFailure, Continues e)
  end.

(** The first reservation for the id, which is taken out of the list. *)
Definition jack_get_reserved_name (uuid : Z) (e : engine) : option string * engine :=
  match find (fun r => r.1 =? uuid) (reserved_client_names e) with
  | Some r => (Some r.2, e <| reserved_client_names ::= slist_remove r |>)
  | None => (None, e)
  end.

(** [jack_client_connect_request_t] as it arrives. *)
Record connect_request := mk_connect {
  cr_version_ok : bool;
  cr_load : bool;
  cr_type : ClientType;
  cr_options : Z;
  cr_uuid : Z;
  cr_name : string
}.

Definition jack_client_create (req : connect_request) (client_fd : Z) (e : engine) : Z * outcome :=
  if negb (cr_version_ok req) then (-1, Continues e)
  else if negb (cr_load req) then
    match jack_client_by_name e (cr_name req) with
    | Some c => if c_id (the_client e c) =? 0 then (-1, Continues e)
                else handle_unload_client (c_id (the_client e c)) e
    | None => (-1, Continues e)
    end
  else
    let '(name, e) :=
      if negb (cr_uuid req =? 0) then
        match jack_get_reserved_name (cr_uuid req) e with
        | (Some n, e) => (n, e)
        | (None, e) => (cr_name req, e)
        end
      else (cr_name req, e) in
    match setup_client (cr_type req) name (cr_uuid req) (cr_options req) 0 client_fd e with
    | (None, _, _, o) => (-1, o)
    | (Some c, _, _, Terminates e) => (-1, Terminates e)
    | (Some c, _, _, Continues e) =>
        if negb (cw_reply_ok world) then
          (-1, jack_remove_client c (upd_client c (fun x => x <| dead := true |>) e))
        else (0, Continues (jack_client_registration_notify env (c_name (the_client e c)) true e))
    end.

(** The requests about internal clients: the id or the status. *)
Definition jack_intclient_handle_request (name : string) (e : engine) : Z * Z :=
  match jack_client_by_name e name with
  | Some c => (0, c_id (the_client e c))
  | None => (Z.lor JackNoSuchClient JackFailure, 0)
  end.

Definition jack_intclient_load_request (name : string) (options : Z) (e : engine) : Z * Z * outcome :=
  match setup_client ClientInternal name 0 options 0 (-1) e with
  | (None, status, _, o) => (Z.lor status JackFailure, 0, o)
  | (Some c, status, _, o) => (status, c_id (the_client (outcome_engine o) c), o)
  end.

Definition jack_intclient_name_request (id : Z) (e : engine) : Z * string :=
  match jack_client_internal_by_id e id with
  | Some c => (0, c_name (the_client e c))
  | None => (Z.lor JackNoSuchClient JackFailure, ""%string)
  end.

Definition jack_intclient_unload_request (id : Z) (e : engine) : Z * outcome :=
  if negb (id =? 0) then handle_unload_client id e else (JackFailure, Continues e).

End world.

(** ** Reservations and identities (server/engine.c) *)

Definition jack_engine_get_max_uuid (e : engine) : Z :=
  foldl (fun r c => if c_uid (the_client e c) >? r then c_uid (the_client e c) else r) 0 (clients e).

Definition jack_do_get_client_by_uuid (uuid : Z) (e : engine) : option string :=
  c ← head (filter (fun c => c_uid (the_client e c) = uuid) (clients e));
  Some (c_name (the_client e c)).

Definition jack_do_reserve_name (name : string) (uuid : Z) (malloc_ok : bool) (e : engine)
    : Z * engine :=
  match jack_client_by_name e name with
  | Some _ => (-1, e)
  | None => if malloc_ok then (0, e <| reserved_client_names ::= fun l => l ++ [(uuid, name)] |>)
            else (-1, e)
  end.

End io.
End Clients.
