(* ===== verification/ClientsInv.v ===== *)
(** * Clients: names, and leaving the graph *)

From S2P Require Import Prelude JSList Engine Transport Events Graph GraphInv Connect.
From S2P Require Import GraphFrame Ports PortsInv Clients.

Local Open Scope Z_scope.

Module ClientsInv.
Import JSList Transport Events Graph GraphInv Connect GraphFrame Ports PortsInv Clients.

(** ** Unique names *)

Definition nth_name (name : string) (k : nat) : string := suffixed name (k / 10) (k mod 10).

Lemma unique_loop_spec e name fuel t o :
  (t <= 9)%nat -> (o <= 9)%nat -> (100 - (10 * t + o) <= fuel)%nat ->
  match unique_loop fuel e name t o with
  | Some n => exists k, (10 * t + o <= k <= 99)%nat /\ n = nth_name name k /\ name_taken e n = false /\
      forall j, (10 * t + o <= j < k)%nat -> name_taken e (nth_name name j) = true
  | None => forall j, (10 * t + o <= j <= 99)%nat -> name_taken e (nth_name name j) = true
  end.
Proof.
  revert t o. induction fuel as [|fuel IH]; intros t o Ht Ho Hf; [lia|]. cbn [unique_loop].
  assert (Ek : nth_name name (10 * t + o) = suffixed name t o).
  { unfold nth_name. f_equal.
    - symmetry. apply (Nat.div_unique _ 10 t o); lia.
    - symmetry. apply (Nat.mod_unique _ 10 t o); lia. }
  destruct (name_taken e (suffixed name t o)) eqn:Et.
  2:{ exists (10 * t + o)%nat. split_and!; [lia|lia|by rewrite Ek|done|lia]. }
  assert (Hnext : forall t' o', (10 * t' + o' = S (10 * t + o))%nat -> (t' <= 9)%nat -> (o' <= 9)%nat ->
    match unique_loop fuel e name t' o' with
    | Some n => exists k, (10 * t + o <= k <= 99)%nat /\ n = nth_name name k /\ name_taken e n = false /\
        forall j, (10 * t + o <= j < k)%nat -> name_taken e (nth_name name j) = true
    | None => forall j, (10 * t + o <= j <= 99)%nat -> name_taken e (nth_name name j) = true
    end).
  { intros t' o' E Ht' Ho'. specialize (IH t' o' Ht' Ho' ltac:(lia)).
    assert (Hj : forall j, (10 * t + o <= j)%nat -> j = (10 * t + o)%nat \/ (10 * t' + o' <= j)%nat) by lia.
    destruct (unique_loop fuel e name t' o').
    - destruct IH as (k & Hk & -> & Hn & Hall). exists k. split_and!; [lia|lia|done|done|].
      intros j Hjk. destruct (Hj j) as [->|]; [lia|by rewrite Ek|apply Hall; lia].
    - intros j Hjk. destruct (Hj j) as [->|]; [lia|by rewrite Ek|apply IH; lia]. }
  destruct (decide (o = 9%nat)) as [->|]; [|apply Hnext; lia].
  destruct (decide (t = 9%nat)) as [->|]; [|apply Hnext; lia].
  intros j Hj. replace j with 99%nat by lia. exact Et.
Qed.

Lemma string_length_app (a b : string) : String.length (a +:+ b) = (String.length a + String.length b)%nat.
Proof. induction a as [|x a IH]; [done|]. change (S (String.length (a +:+ b)) = S (String.length a + String.length b)). by f_equal. Qed.

Lemma name_free e n :
  name_taken e n = false -> jack_client_by_name e n = None /\ jack_client_name_reserved e n = false.
Proof.
  intros Ht. apply orb_false_iff in Ht as [H1 H2]. apply bool_decide_eq_false in H1. split; [|done].
  destruct (jack_client_by_name _ _) eqn:E; [|done]. exfalso. by apply H1.
Qed.

(** A name generated for a new client is the first of name-01 to name-99
    that no client bears and nobody reserved, and fits the 33 bytes of a
    client name; generation fails only for a name too long, or when all 99
    are taken. *)
Theorem generate_unique_name_correct e name :
  match jack_generate_unique_name e name with
  | Some n => exists k, (1 <= k <= 99)%nat /\ n = nth_name name k /\
      jack_client_by_name e n = None /\ jack_client_name_reserved e n = false /\
      Z.of_nat (String.length n) < JACK_CLIENT_NAME_SIZE /\
      forall j, (1 <= j < k)%nat -> name_taken e (nth_name name j) = true
  | None => JACK_CLIENT_NAME_SIZE - 4 < Z.of_nat (String.length name) \/
      forall j, (1 <= j <= 99)%nat -> name_taken e (nth_name name j) = true
  end.
Proof.
  unfold jack_generate_unique_name. rewrite Z.gtb_ltb.
  destruct (Z.ltb_spec (JACK_CLIENT_NAME_SIZE - 4) (Z.of_nat (String.length name))) as [|Hl]; [by left|].
  pose proof (unique_loop_spec e name 100 0 1 ltac:(lia) ltac:(lia) ltac:(lia)) as H.
  destruct (unique_loop 100 e name 0 1) as [n|]; [|by right].
  destruct H as (k & Hk & -> & Ht & Hall). exists k. apply name_free in Ht as [H1 H2].
  split_and!; [lia|lia|done|done|done| |done].
  unfold nth_name, suffixed. rewrite string_length_app. cbn [String.length].
  unfold JACK_CLIENT_NAME_SIZE in *. lia.
Qed.

Lemma name_valid_free e name options status n :
  (jack_client_name_invalid e name options status).1 = Some n -> name_taken e n = false.
Proof.
  unfold jack_client_name_invalid. destruct (name_taken e name) eqn:Et; [|by intros [= <-]].
  destruct (has_flag options JackUseExactName); [done|].
  unfold jack_generate_unique_name. destruct (_ >? _); [done|].
  pose proof (unique_loop_spec e name 100 0 1 ltac:(lia) ltac:(lia) ltac:(lia)) as H.
  destruct (unique_loop 100 e name 0 1) as [m|]; [|done]. intros [= <-].
  by destruct H as (k & _ & -> & Ht & _).
Qed.

(** The name a new client gets is borne by no other client; only when
    exact names are asked for, or no suffix is left, is the name refused. *)
Theorem client_name_unique e name options status :
  match (jack_client_name_invalid e name options status).1 with
  | Some n => jack_client_by_name e n = None /\ jack_client_name_reserved e n = false
  | None => name_taken e name = true /\
      (has_flag options JackUseExactName = true \/ jack_generate_unique_name e name = None)
  end.
Proof.
  destruct (jack_client_name_invalid e name options status).1 as [n|] eqn:E.
  - by apply name_free, (name_valid_free e name options status).
  - revert E. unfold jack_client_name_invalid. destruct (name_taken e name); [|done].
    destruct (has_flag options JackUseExactName); [by split; [|left]|].
    destruct (jack_generate_unique_name e name); [done|]. by split; [|right].
Qed.

(** ** Lists and updates *)

Lemma filter_slist_remove (P Q : nat -> Prop) `{!forall x, Decision (P x)} `{!forall x, Decision (Q x)}
    (p : nat) (l : list nat) :
  NoDup l -> ~ Q p -> (forall q, q <> p -> Q q <-> P q) -> filter Q l = slist_remove p (filter P l).
Proof.
  intros Hnd Hp HQ. induction Hnd as [|x l Hx Hnd IH]; [done|].
  destruct (decide (x = p)) as [->|Hne].
  - rewrite (filter_cons_False Q) by done.
    assert (E : filter Q l = filter P l).
    { clear IH. induction l as [|y l IHl]; [done|]. apply not_elem_of_cons in Hx as [Hy Hx]. inversion Hnd; subst.
      rewrite !filter_cons. destruct (decide (Q y)) as [Hq|Hq].
      - rewrite decide_True by (by apply HQ). by rewrite IHl.
      - rewrite decide_False by (intros Hq'; by apply Hq, HQ). by apply IHl. }
    rewrite E. destruct (decide (P p)).
    + rewrite filter_cons_True by done. cbn. by rewrite decide_True.
    + rewrite filter_cons_False by done. symmetry. apply slist_remove_notin. rewrite list_elem_of_filter. naive_solver.
  - destruct (decide (P x)).
    + rewrite !filter_cons_True by (done || by apply HQ). cbn. rewrite decide_False by done. by rewrite IH.
    + rewrite !filter_cons_False by (done || (intros Hq; by apply HQ in Hq)). done.
Qed.

Lemma upd_client_ext c f g e :
  (forall x, client_store e !! c = Some x -> f x = g x) -> upd_client c f e = upd_client c g e.
Proof.
  intros Hf. assert (E : alter f c (client_store e) = alter g c (client_store e)).
  { apply map_eq. intros d. destruct (decide (c = d)) as [<-|]; [|by rewrite !lookup_alter_ne].
    rewrite !lookup_alter_eq. destruct (client_store e !! c) eqn:Ec; cbn; [by rewrite Hf|done]. }
  exact (f_equal (fun m => e <| client_store := m |>) E).
Qed.

Lemma upd_client_same c f e : (forall x, client_store e !! c = Some x -> f x = x) -> upd_client c f e = e.
Proof. intros Hf. rewrite (upd_client_ext c f id e Hf). by apply upd_client_id. Qed.

(** ** A client that loses its ports

    While the ports of a client are released one by one its list still names
    them all; [with_ports c l e] is the state in which it names [l]. *)

Definition with_ports (c : client_ptr) (l : list port_ptr) (e : engine) : engine :=
  upd_client c (fun x => x <| c_ports := l |>) e.

(** The ports of [c] still in use. *)
Definition live (e : engine) (c : client_ptr) : list port_ptr :=
  filter (fun p => in_use (the_port e p) = true) (c_ports (the_client e c)).

Lemma with_ports_frame c l e e' : graph_frame e e' -> graph_frame (with_ports c l e) (with_ports c l e').
Proof.
  intros [Hc Ho].
  assert (Es : cother <$> client_store e' = cother <$> client_store e) by exact (f_equal client_store Ho).
  apply graph_frame_stores; [done| |exact (f_equal ports Ho)|].
  - unfold with_ports, upd_client. cbn. apply map_eq. intros d.
    pose proof (f_equal (lookup d) Es) as E. rewrite !lookup_fmap in *. destruct (decide (c = d)) as [->|].
    + rewrite !lookup_alter_eq. destruct (client_store e' !! d) as [x|], (client_store e !! d) as [y|];
        cbn in *; try done. apply (inj Some) in E.
      exact (f_equal (fun z => Some (z <| c_ports := l |>)) E).
    + by rewrite !lookup_alter_ne.
  - pose proof (f_equal (fun e => e <| client_store := ∅ |> <| ports := [] |>) Ho) as E. exact E.
Qed.

Lemma live_frame c e e' : graph_frame e e' -> live e' c = live e c.
Proof.
  intros F. unfold live. rewrite (graph_frame_client c_ports e e') by done.
  apply list_filter_iff. intros p. by rewrite (graph_frame_port in_use e e').
Qed.

Lemma release_with_ports p c l e :
  jack_port_release p (with_ports c l e) = with_ports c l (jack_port_release p e).
Proof.
  unfold jack_port_release, with_ports. cbn zeta.
  change (the_port (upd_port p ?f (upd_client c ?g e)) p) with (the_port (upd_port p f e) p).
  by destruct (buffer_info _).
Qed.

Lemma with_ports_remove p c l e :
  upd_client c (fun x => x <| c_ports ::= slist_remove p |>) (with_ports c l e)
    = with_ports c (slist_remove p l) e.
Proof.
  assert (E : alter (fun x => x <| c_ports ::= slist_remove p |>) c
                (alter (fun x => x <| c_ports := l |>) c (client_store e))
              = alter (fun x => x <| c_ports := slist_remove p l |>) c (client_store e)).
  { apply map_eq. intros d. destruct (decide (c = d)) as [->|].
    - rewrite !lookup_alter_eq. by destruct (client_store e !! d).
    - by rewrite !lookup_alter_ne. }
  exact (f_equal (fun m => e <| client_store := m |>) E).
Qed.

(** Only ports in use matter to the graph. *)
Lemma graph_inv_with_ports c l p e :
  graph_inv e -> c ∈ clients e -> (p < length (ports e))%nat -> connections (the_port e p) = [] ->
  (forall q, in_use (the_port e q) = true -> q ∈ c_ports (the_client e c) -> q ∈ l) ->
  graph_inv (with_ports c l e).
Proof.
  intros H Hc Hp Hun Hl. destruct (gi_store e H c Hc) as [z Hz].
  assert (Cl : forall d, the_client (with_ports c l e) d
    = if decide (c = d) then the_client e c <| c_ports := l |> else the_client e d)
    by (intros d; apply the_client_upd; eauto).
  apply (graph_inv_port_changed p e); [done..|]. constructor; try done.
  - intros d [w Hw]. cbn. destruct (decide (c = d)) as [<-|].
    + rewrite lookup_alter_eq, Hw. by eexists.
    + rewrite lookup_alter_ne by done. by eexists.
  - intros d. rewrite Cl. by destruct (decide (c = d)) as [<-|].
  - intros d q Hd _ Hu Hq. rewrite Cl. destruct (decide (c = d)) as [<-|]; [|done]. by apply Hl.
  - apply (gi_flags e H p).
  - intros Hu d Hd Ho. rewrite Cl. pose proof (gi_owned e H d p Hd Hu Ho) as Hin.
    destruct (decide (c = d)) as [<-|]; [|done]. by apply Hl.
Qed.

(** [jack_port_release] when only the table is considered. *)
Lemma release_table p x e :
  ports e !! p = Some x ->
  exists y, table_change p y e (jack_port_release p e) /\ in_use y = false /\
    connections y = connections x /\ flags y = flags x /\ client_id y = client_id x /\ p_id y = p_id x.
Proof.
  intros Hx. assert (Hlt : (p < length (ports e))%nat) by (by eapply lookup_lt_Some).
  unfold jack_port_release. cbn zeta.
  set (f := fun x : port => x <| in_use := false |> <| alias1 := "" |> <| alias2 := "" |>).
  destruct (buffer_info _) as [bi|].
  - exists (f x <| buffer_info := None |>). split_and!; try done. constructor; try done.
    + change (alter (fun x : port => x <| buffer_info := None |>) p (alter f p (ports e))
              = <[p := f x <| buffer_info := None |>]> (ports e)).
      rewrite (alter_insert_lookup f _ _ _ Hx).
      rewrite (alter_insert_lookup _ _ p (f x)) by (by apply list_lookup_insert_eq).
      by rewrite list_insert_insert_eq.
    + intros t. cbn. destruct (decide (Z.to_nat (ptype_id (the_port (upd_port p f e) p)) = t)) as [->|].
      * rewrite list_lookup_alter_eq. by destruct (port_buffers e !! t).
      * by rewrite list_lookup_alter_ne.
  - exists (f x). split_and!; try done. constructor; try done. by apply alter_insert_lookup.
Qed.

Lemma release_graph p e :
  graph_inv e -> (p < length (ports e))%nat -> connections (the_port e p) = [] ->
  graph_inv (jack_port_release p e).
Proof.
  intros H Hp Hun. destruct (lookup_lt_is_Some_2 _ _ Hp) as [x Hx].
  destruct (release_table p x e Hx) as (y & T & Y1 & Y2 & Y3 & _).
  pose proof (the_port_lookup e p x Hx) as Ex. pose proof (table_port p y e _ T Hp) as Ey.
  set (e' := jack_port_release p e) in *. clearbody e'.
  assert (Cl : forall d, the_client e' d = the_client e d)
    by (intros d; unfold the_client; by rewrite (tc_store p y e e' T)).
  apply (graph_inv_port_changed p e); [done..|]. constructor; try apply T.
  - rewrite (tc_ports p y e e' T). apply length_insert.
  - intros d. by rewrite (tc_store p y e e' T).
  - intros d. by rewrite Cl.
  - intros q Hq. by rewrite (table_others p y e e').
  - intros d q _ _ _. by rewrite Cl.
  - rewrite Ey, Y2, <- Ex. done.
  - rewrite Ey, Y3, <- Ex. apply H.
  - rewrite Ey, Y1. done.
Qed.

Section io.
Context (env : environment).

Definition drop_port (e : engine) (p : port_ptr) : engine :=
  jack_port_release p
    (jack_port_registration_notify env (p_id (the_port (jack_port_clear_connections env p e) p)) false
       (jack_port_clear_connections env p e)).

(** The invariant of the loop: but for the list of [c] all is well. *)
Record losing_ports (c : client_ptr) (e : engine) : Prop := {
  lp_graph : graph_inv e;
  lp_member : c ∈ clients e;
  lp_nodup : NoDup (c_ports (the_client e c));
  lp_ports : forall p, p ∈ c_ports (the_client e c) ->
    exists x, ports e !! p = Some x /\ client_id x = c_id (the_client e c);
  lp_server : server_inv (with_ports c (live e c) e)
}.

Lemma losing_start c e : server_inv e -> c ∈ clients e -> losing_ports c e.
Proof.
  intros I Hc.
  assert (Hl : live e c = c_ports (the_client e c)).
  { apply filter_all. intros p Hp. destruct (pi_listed e (sv_ports e I) c p Hc Hp) as (x & Hx & Hu & _).
    by rewrite (the_port_lookup e p x). }
  constructor; [apply I|done|by apply I| |].
  - intros p Hp. destruct (pi_listed e (sv_ports e I) c p Hc Hp) as (x & Hx & _ & Ho). eauto.
  - rewrite Hl. unfold with_ports. destruct (gi_store e (sv_graph e I) c Hc) as [z Hz].
    rewrite upd_client_same; [done|]. intros x Hx. unfold the_client. rewrite Hx. by destruct x.
Qed.

(** One turn of the loop. *)
Lemma losing_step c p e :
  losing_ports c e -> p ∈ c_ports (the_client e c) ->
  let e' := drop_port e p in
  losing_ports c e' /\ in_use (the_port e' p) = false /\
  (forall q, in_use (the_port e q) = false -> in_use (the_port e' q) = false) /\
  c_ports (the_client e' c) = c_ports (the_client e c).
Proof.
  intros L Hp. cbn zeta. unfold drop_port. destruct (lp_ports c e L p Hp) as (x & Hx & Ho).
  assert (Hlt : (p < length (ports e))%nat) by (by eapply lookup_lt_Some).
  destruct (clear_connections_spec env p e (lp_graph c e L) Hlt) as (G1 & Hun & _).
  pose proof (frame_clear_connections env p e) as F1.
  set (e1 := jack_port_clear_connections env p e) in *. clearbody e1.
  set (e2 := jack_port_registration_notify env _ false e1).
  assert (F2 : event_frame e1 e2) by apply deliver_where_frame. clearbody e2.
  assert (G2 : graph_inv e2) by (apply (graph_inv_same e1); [by apply same_graph_event|done]).
  assert (F : graph_frame e e2) by (transitivity e1; [done|by apply graph_frame_event]).
  assert (Hun2 : connections (the_port e2 p) = [])
    by (unfold the_port; by rewrite (event_frame_get ports e1 e2)).
  clear e1 G1 Hun F1 F2.
  assert (Hc2 : c ∈ clients e2) by (rewrite (gf_clients e e2 F); apply L).
  assert (Ec2 : c_ports (the_client e2 c) = c_ports (the_client e c)) by (by apply (graph_frame_client c_ports)).
  assert (Hlt2 : (p < length (ports e2))%nat) by (by rewrite (graph_frame_length e e2 F)).
  destruct (lookup_lt_is_Some_2 _ _ Hlt2) as [x2 Hx2]. pose proof (the_port_lookup e2 p x2 Hx2) as Ex2.
  assert (Hid2 : client_id x2 = c_id (the_client e2 c)).
  { rewrite <- Ex2, (graph_frame_port client_id e e2), (graph_frame_client c_id e e2) by done.
    by rewrite (the_port_lookup e p x Hx). }
  (* the state in which [c] lists its live ports *)
  assert (S2 : server_inv (with_ports c (live e2 c) e2)).
  { split.
    - apply (graph_inv_with_ports c _ p); try done. intros q Hu Hq. by apply list_elem_of_filter.
    - rewrite (live_frame c e e2 F). apply (port_inv_frame (with_ports c (live e c) e)).
      + by apply with_ports_frame.
      + apply L. }
  destruct (release_listed (with_ports c (live e2 c) e2) p x2 c) as (y & S3 & T & Y1 & _ & _); try done.
  { by rewrite <- Ex2. }
  { unfold with_ports. by rewrite (the_client_upd_field e2 c c _ c_id). }
  rewrite release_with_ports in S3, T. rewrite with_ports_remove in S3.
  destruct (release_table p x2 e2 Hx2) as (y' & T' & Y1' & _ & _ & Y4 & _).
  pose proof (release_graph p e2 G2 Hlt2 Hun2) as G3.
  set (e3 := jack_port_release p e2) in *. clearbody e3.
  assert (Cl : forall d, the_client e3 d = the_client e2 d)
    by (intros d; unfold the_client; by rewrite (tc_store _ _ _ _ T')).
  assert (Use : forall q, in_use (the_port e3 q) = if decide (q = p) then false else in_use (the_port e q)).
  { intros q. destruct (decide (q = p)) as [->|Hne].
    - by rewrite (table_port p y' e2 e3).
    - rewrite (table_others p y' e2 e3) by done. by apply (graph_frame_port in_use). }
  assert (Hlive : live e3 c = slist_remove p (live e2 c)).
  { unfold live at 1. rewrite Cl. unfold live. apply filter_slist_remove.
    - rewrite Ec2. apply L.
    - rewrite Use, decide_True by done. done.
    - intros q Hq. rewrite Use, decide_False by done. by rewrite (graph_frame_port in_use e e2). }
  rewrite Cl, Ec2. split_and!; [|by rewrite Use, decide_True| |done].
  - constructor; rewrite ?Cl, ?Ec2, ?(tc_clients _ _ _ _ T'); [done|done|apply L| |by rewrite Hlive].
    intros q Hq. destruct (lp_ports c e L q Hq) as (w & Hw & Hwo).
    rewrite (graph_frame_client c_id e e2) by done. rewrite (tc_ports _ _ _ _ T').
    destruct (decide (q = p)) as [->|Hne].
    + exists y'. split; [by apply list_lookup_insert_eq|]. rewrite Y4, Hid2. by apply (graph_frame_client c_id).
    + rewrite list_lookup_insert_ne by done.
      assert (Hq2 : (q < length (ports e2))%nat).
      { rewrite (graph_frame_length e e2 F). by eapply lookup_lt_Some. }
      destruct (lookup_lt_is_Some_2 _ _ Hq2) as [w2 Hw2]. exists w2. split; [done|].
      rewrite <- (the_port_lookup e2 q w2 Hw2), (graph_frame_port client_id e e2) by done.
      by rewrite (the_port_lookup e q w Hw).
  - intros q Hq. rewrite Use. by destruct (decide (q = p)).
Qed.

End io.
End ClientsInv.
