(* ===== verification/Frames.v ===== *)
(** * Independence of transport and graph

    The operations of the transport do not touch what the invariants of
    graph and ports talk about ([server_frame]), and those of graph and ports
    do not touch the transport ([transport_frame]).  Both are relations that
    hold of each single update and compose. *)

From S2P Require Import Prelude JSList Engine Transport Events Graph GraphInv Connect.
From S2P Require Import GraphFrame Ports PortsInv Clients ClientsInv.

Local Open Scope Z_scope.

Module Frames.
Import JSList Transport Events Graph GraphInv Connect GraphFrame Ports PortsInv Clients ClientsInv.

(** ** What graph and ports depend on *)

Record server_frame (e e' : engine) : Prop := {
  fr_clients : clients e' = clients e;
  fr_store : forall c, cview <$> client_store e' !! c = cview <$> client_store e !! c;
  fr_ports : ports e' = ports e;
  fr_conns : conn_store e' = conn_store e;
  fr_feedback : feedbackcount e' = feedbackcount e;
  fr_types : port_types e' = port_types e;
  fr_buffers : port_buffers e' = port_buffers e
}.

#[global] Instance server_frame_preorder : PreOrder server_frame.
Proof.
  split; [done|]. intros e1 e2 e3 [] []. constructor; congruence.
Qed.

Lemma server_frame_graph e e' : server_frame e e' -> same_graph e e'.
Proof. intros [A B C D E F G]. constructor; [by rewrite A|done|by rewrite C|done|done]. Qed.

Lemma server_frame_inv e e' : server_frame e e' -> server_inv e -> server_inv e'.
Proof.
  intros S [G P]. pose proof (server_frame_graph e e' S) as Sg. split; [by apply (graph_inv_same e)|].
  destruct S as [A B C D E F H].
  assert (V : forall c, c_id (the_client e' c) = c_id (the_client e c) /\
                        c_ports (the_client e' c) = c_ports (the_client e c)).
  { intros c. pose proof (same_graph_client e e' c Sg) as Ev. unfold cview in Ev.
    injection Ev as E1 _ E3 _ _ _. by rewrite E1, E3. }
  destruct P as [[B1 B2 B3 B4] P2 P3 P4 P5 P6 P7 P8].
  assert (Hh : forall t, held e' t = held e t) by (intros t; unfold held; by rewrite C).
  constructor; [constructor|..].
  - by rewrite H, F.
  - intros t b. rewrite H, Hh. apply B2.
  - intros t b i. rewrite H, Hh, C. apply B3.
  - intros t b. rewrite H, Hh, C. apply B4.
  - by rewrite F.
  - by rewrite C.
  - intros p x. rewrite C. intros Hx Hu. unfold port_ok. rewrite F, H. by apply (P4 p).
  - intros c p. rewrite A, C. destruct (V c) as [-> ->]. apply P5.
  - intros c. rewrite A. destruct (V c) as [_ ->]. apply P6.
  - by rewrite C.
  - intros c. rewrite A. destruct (V c) as [-> _]. apply P8.
Qed.

Lemma server_frame_client c f e : (forall x, cview (f x) = cview x) -> server_frame e (upd_client c f e).
Proof.
  intros Hf. constructor; try done. intros d. unfold upd_client. cbn. destruct (decide (c = d)) as [->|].
  - rewrite lookup_alter_eq. destruct (_ !! d); cbn; [by rewrite Hf|done].
  - by rewrite lookup_alter_ne.
Qed.

Lemma server_frame_event e e' : event_frame e e' -> server_frame e e'.
Proof.
  intros F. constructor; try (by apply (event_frame_get _ e e')).
  intros c. pose proof (ef_clients e e' F c) as E.
  destruct (client_store e' !! c) as [x|], (client_store e !! c) as [y|]; cbn in *; try done.
  apply (inj Some) in E. f_equal. change (cview (no_error x) = cview (no_error y)). by rewrite E.
Qed.

(** Walk through the updates of an operation. *)
Ltac server_frame :=
  repeat (cbv zeta; match goal with
    | |- server_frame ?e ?e => reflexivity
    | |- server_frame ?e (upd_control ?f ?e1) =>
        transitivity e1; [|by constructor]
    | |- server_frame ?e (upd_client ?c ?f ?e1) =>
        transitivity e1; [|by apply server_frame_client]
    | |- server_frame ?e (assign timebase_client ?f ?e1) =>
        transitivity e1; [|by constructor]
    | |- server_frame ?e (if ?b then _ else _) => destruct b
    end).

Lemma poll_new_frame c e : server_frame e (jack_sync_poll_new c e).
Proof. unfold jack_sync_poll_new. server_frame. Qed.

Lemma poll_deactivate_frame c e : server_frame e (jack_sync_poll_deactivate c e).
Proof. unfold jack_sync_poll_deactivate. server_frame. Qed.

Lemma transport_activate_frame c e : server_frame e (jack_transport_activate c e).
Proof.
  unfold jack_transport_activate.
  match goal with |- context [jack_sync_poll_new c ?e0] => pose proof (poll_new_frame c e0) as H end.
  cbv zeta. set (e1 := if is_slowsync (the_client e c) then _ else e).
  assert (S1 : server_frame e e1).
  { unfold e1. destruct (is_slowsync _); [|done]. etrans; [|exact H]. server_frame. }
  clearbody e1. transitivity e1; [done|]. server_frame.
Qed.

Lemma transport_exit_frame c e : server_frame e (jack_transport_client_exit c e).
Proof.
  unfold jack_transport_client_exit. cbv zeta. set (e1 := if decide _ then _ else e).
  assert (S1 : server_frame e e1) by (unfold e1; server_frame). clearbody e1.
  transitivity e1; [done|]. destruct (is_slowsync _); [|done].
  set (e2 := if active_slowsync _ then _ else e1).
  assert (S2 : server_frame e1 e2)
    by (unfold e2; destruct (active_slowsync _); [apply poll_deactivate_frame|done]).
  clearbody e2. transitivity e2; [done|]. server_frame.
Qed.

(** ** What the transport depends on *)

Definition tview (x : client) :=
  (active x, dead x, is_timebase x, is_slowsync x, active_slowsync x, sync_poll x).

(** ... and what else stays of a client: its identity, and its failure count
    once it is dead. *)
Definition lview (x : client) := (tview x, c_id x, c_type x, if dead x then c_error x else 0).

Record transport_frame (e e' : engine) : Prop := {
  tf_clients : clients e' ≡ₚ clients e;
  tf_store : forall c, lview <$> client_store e' !! c = lview <$> client_store e !! c;
  tf_clients_n : sync_clients (control e') = sync_clients (control e);
  tf_remain : sync_remain (control e') = sync_remain (control e);
  tf_timebase : timebase_client e' = timebase_client e;
  tf_nozombies : nozombies e' = nozombies e;
  tf_next_id : next_client_id e' = next_client_id e
}.

#[global] Instance transport_frame_preorder : PreOrder transport_frame.
Proof.
  split; [done|]. intros e1 e2 e3 [] []. constructor; first [congruence|by etrans].
Qed.

Lemma transport_frame_view e e' c : transport_frame e e' -> lview (the_client e' c) = lview (the_client e c).
Proof.
  intros F. pose proof (tf_store e e' F c) as E. unfold the_client.
  destruct (client_store e' !! c), (client_store e !! c); cbn in *; try done. by apply (inj Some) in E.
Qed.

Lemma countb_perm_eq {A} (p : A -> bool) l k : l ≡ₚ k -> countb p l = countb p k.
Proof. intros H. induction H; rewrite ?countb_cons; lia. Qed.

Lemma transport_frame_inv e e' : transport_frame e e' -> transport_inv e -> transport_inv e'.
Proof.
  intros F ([S1 S2 S3 S4 S5] & L & [T1 T2]).
  assert (V : forall c, active (the_client e' c) = active (the_client e c) /\
    is_timebase (the_client e' c) = is_timebase (the_client e c) /\
    is_slowsync (the_client e' c) = is_slowsync (the_client e c) /\
    active_slowsync (the_client e' c) = active_slowsync (the_client e c) /\
    sync_poll (the_client e' c) = sync_poll (the_client e c)).
  { intros c. pose proof (transport_frame_view e e' c F) as E. unfold lview, tview in E.
    injection E as E1 _ E3 E4 E5 E6 _ _ _. done. }
  assert (In : forall c, c ∈ clients e' -> c ∈ clients e) by (intros c; by rewrite (tf_clients e e' F)).
  assert (Ct : forall p, (forall c, p (the_client e' c) = p (the_client e c)) ->
            count_clients p e' = count_clients p e).
  { intros p Hp. unfold count_clients. rewrite (countb_perm_eq _ _ _ (tf_clients e e' F)).
    apply countb_ext. intros c _. apply Hp. }
  split_and!; [constructor|..|constructor].
  - by rewrite (tf_clients e e' F).
  - intros c Hc. destruct (S2 c (In c Hc)) as [x Hx]. pose proof (tf_store e e' F c) as E.
    rewrite Hx in E. destruct (client_store e' !! c); [by eexists|done].
  - intros c Hc. unfold sync_client_ok. destruct (V c) as (_ & _ & _ & -> & ->). by apply S3, In.
  - rewrite (tf_clients_n e e' F), S4. symmetry. apply Ct. intros c. apply V.
  - rewrite (tf_remain e e' F), S5. symmetry. apply Ct. intros c. unfold polled.
    destruct (V c) as (_ & _ & _ & -> & ->). done.
  - intros c Hc. unfold slow_ok. destruct (V c) as (-> & _ & -> & -> & _). by apply L, In.
  - intros c Hc. destruct (V c) as (_ & -> & _). rewrite (tf_timebase e e' F). by apply T1, In.
  - intros m. rewrite (tf_timebase e e' F), (tf_clients e e' F). apply T2.
Qed.

Lemma transport_frame_client c f e :
  (forall x, lview (f x) = lview x) -> transport_frame e (upd_client c f e).
Proof.
  intros Hf. constructor; try done. intros d. unfold upd_client. cbn. destruct (decide (c = d)) as [->|].
  - rewrite lookup_alter_eq. destruct (_ !! d); cbn; [by rewrite Hf|done].
  - by rewrite lookup_alter_ne.
Qed.

Lemma lview_cother x : lview (cother x) = lview x.
Proof. unfold lview. cbn. by destruct (dead x). Qed.

Lemma graph_frame_transport e e' : graph_frame e e' -> transport_frame e e'.
Proof.
  intros F. constructor; [apply F| |by rewrite (graph_frame_get control e e')
    |by rewrite (graph_frame_get control e e')|by apply (graph_frame_get timebase_client e e')
    |by apply (graph_frame_get nozombies e e')|by apply (graph_frame_get next_client_id e e')].
  intros c. pose proof (f_equal (lookup c) (f_equal client_store (gf_other e e' F))) as E. cbn in E.
  rewrite !lookup_fmap in E.
  destruct (client_store e' !! c) as [x|], (client_store e !! c) as [y|]; cbn in *; try done.
  apply (inj Some) in E. f_equal. by rewrite <- (lview_cother x), <- (lview_cother y), E.
Qed.

Lemma release_transport p e : transport_frame e (jack_port_release p e).
Proof. unfold jack_port_release. cbv zeta. by destruct (buffer_info _). Qed.

End Frames.
