(* ===== verification/Lifecycle.v ===== *)
(** * The life of a client (server/clientengine.c)

    Creation, activation, deactivation, death and removal keep the invariants
    of graph, ports, buffers and transport; a removed client leaves nothing
    behind. *)

From S2P Require Import Prelude JSList Engine Transport Events Graph GraphInv Connect.
From S2P Require Import GraphFrame Ports PortsInv Clients ClientsInv Frames.

Local Open Scope Z_scope.

Module Lifecycle.
Import JSList Transport Events Graph GraphInv Connect GraphFrame Ports PortsInv Clients ClientsInv Frames.

(** ** The graph when the set of clients changes *)

Lemma omap_ext_in {A B} (f g : A -> option B) (l : list A) :
  (forall x, x ∈ l -> f x = g x) -> omap f l = omap g l.
Proof.
  induction l as [|x l IH]; intros H; cbn; [done|]. rewrite (H x) by left.
  rewrite IH; [done|]. intros y Hy. apply H. by right.
Qed.

Lemma conn_list_lookup e x : x ∈ conn_list e <-> exists k, conn_store e !! k = Some x.
Proof.
  unfold conn_list. rewrite list_elem_of_fmap. split.
  - intros ([k y] & -> & Hin). exists k. by apply elem_of_map_to_list in Hin.
  - intros [k Hk]. exists (k, x). split; [done|]. by apply elem_of_map_to_list.
Qed.

(** A client nothing refers to yet. *)
Record newcomer (e : engine) (c : client_ptr) : Prop := {
  nc_truefeeds : truefeeds (the_client e c) = [];
  nc_sortfeeds : sortfeeds (the_client e c) = [];
  nc_fedcount : fedcount (the_client e c) = 0;
  nc_id : forall d, d ∈ clients e -> c_id (the_client e d) = c_id (the_client e c) -> d = c;
  nc_ports : forall p, in_use (the_port e p) = true -> client_id (the_port e p) <> c_id (the_client e c)
}.

Record members_change (e e' : engine) : Prop := {
  mc_nodup : NoDup (clients e');
  mc_store : forall c, c ∈ clients e' -> is_Some (client_store e' !! c);
  mc_conns : conn_store e' = conn_store e;
  mc_ports : ports e' = ports e;
  mc_feedback : feedbackcount e' = feedbackcount e;
  mc_ends : forall k x, conn_store e !! k = Some x -> srcclient x ∈ clients e' /\ dstclient x ∈ clients e';
  mc_old : forall c, c ∈ clients e' -> c ∈ clients e -> cview (the_client e' c) = cview (the_client e c);
  mc_new : forall c, c ∈ clients e' -> c ∉ clients e -> newcomer e' c
}.

Section members.
Context (e e' : engine) (H : graph_inv e) (M : members_change e e').

Let both c : c ∈ clients e' -> c ∈ clients e ->
  c_id (the_client e' c) = c_id (the_client e c) /\ driver_client e' c = driver_client e c /\
  c_ports (the_client e' c) = c_ports (the_client e c) /\
  truefeeds (the_client e' c) = truefeeds (the_client e c) /\
  sortfeeds (the_client e' c) = sortfeeds (the_client e c) /\
  fedcount (the_client e' c) = fedcount (the_client e c).
Proof.
  intros H1 H2. pose proof (mc_old e e' M c H1 H2) as E. unfold cview in E.
  injection E as E1 E2 E3 E4 E5 E6. unfold driver_client, is_driver. by rewrite E1, E2, E3, E4, E5, E6.
Qed.

Let ends_in x : x ∈ conn_list e ->
  srcclient x ∈ clients e /\ srcclient x ∈ clients e' /\ dstclient x ∈ clients e /\ dstclient x ∈ clients e'.
Proof.
  intros [k Hk]%conn_list_lookup. destruct (gi_conns e H k x Hk). by destruct (mc_ends e e' M k x Hk).
Qed.

Let edges x : x ∈ conn_list e -> is_edge e' x = is_edge e x.
Proof.
  intros Hx. destruct (ends_in x Hx) as (_ & _ & H1 & H2). unfold is_edge.
  by rewrite (proj1 (proj2 (both _ H2 H1))).
Qed.

Let same_list : conn_list e' = conn_list e.
Proof. unfold conn_list. by rewrite (mc_conns e e' M). Qed.

(** Nobody feeds a newcomer, and it feeds nobody. *)
Let no_targets c : c ∉ clients e ->
  omap (true_target e c) (conn_list e) = [] /\ omap (sort_target e c) (conn_list e) = [] /\
  countb (fed_by e c) (conn_list e) = 0.
Proof.
  intros Hc. assert (Hne : forall x, x ∈ conn_list e -> srcclient x <> c /\ dstclient x <> c).
  { intros x Hx. destruct (ends_in x Hx) as (H1 & _ & H2 & _). split; congruence. }
  assert (Hn : forall (A : Type) (f : connection -> option A),
    (forall x, x ∈ conn_list e -> f x = None) -> omap f (conn_list e) = []).
  { intros A f Hf. rewrite (omap_ext_in f (fun _ => None)) by done. clear. by induction (conn_list e). }
  split_and!.
  - apply Hn. intros x Hx. destruct (Hne x Hx) as [H1 _]. unfold true_target.
    rewrite bool_decide_eq_false_2 by done. by rewrite andb_false_r.
  - apply Hn. intros x Hx. destruct (Hne x Hx) as [H1 H2]. unfold sort_target.
    destruct (is_edge e x); [|done]. rewrite !decide_False by done. by destruct (_ =? 1).
  - apply countb_zero. intros x Hx. destruct (Hne x Hx) as [_ H2]. unfold fed_by.
    rewrite bool_decide_eq_false_2 by done. apply andb_false_r.
Qed.

Lemma members_conn_ok k x : conn_store e !! k = Some x -> conn_ok e' x.
Proof.
  intros Hk. assert (Hx : x ∈ conn_list e) by (apply conn_list_lookup; eauto).
  destruct (ends_in x Hx) as (S1 & S2 & D1 & D2).
  destruct (both _ S2 S1) as (Vs1 & Vs2 & Vs3 & _), (both _ D2 D1) as (Vd1 & Vd2 & _).
  destruct (gi_conns e H k x Hk). unfold the_port in *.
  constructor; unfold the_port; rewrite ?(mc_ports e e' M), ?Vs1, ?Vs2, ?Vs3, ?Vd1, ?Vd2; done.
Qed.

Lemma members_order : exists order, topological e' order.
Proof.
  destruct (gi_order e H) as (o & Ho & Hb). assert (Hno : NoDup o) by (rewrite Ho; apply H).
  exists (filter (fun c => c ∈ clients e') o ++ filter (fun c => c ∉ clients e) (clients e')). split.
  - apply NoDup_Permutation; [|apply M|].
    + apply NoDup_app. split_and!; [by apply NoDup_filter| |by apply NoDup_filter, M].
      intros c Hc1 Hc2. apply list_elem_of_filter in Hc1 as [_ Hc1], Hc2 as [Hc2 _]. by rewrite Ho in Hc1.
    + intros c. rewrite elem_of_app, !list_elem_of_filter, Ho.
      destruct (decide (c ∈ clients e)); naive_solver.
  - intros a b Ha Hab. destruct (decide (a ∈ clients e)) as [Ha'|Hn].
    + destruct (both a Ha Ha') as (_ & _ & _ & _ & E & _). rewrite E in Hab.
      apply before_app_l, before_filter; [done| |by apply Hb].
      rewrite (gi_sortfeeds e H a Ha') in Hab. apply list_elem_of_omap in Hab as (x & Hx & Ex).
      destruct (ends_in x Hx) as (_ & S2 & _ & D2). unfold sort_target in Ex.
      destruct (is_edge e x); [|done]. destruct (dir x =? 1); destruct (decide _); try done; congruence.
    + rewrite (nc_sortfeeds e' a (mc_new e e' M a Ha Hn)) in Hab. by apply not_elem_of_nil in Hab.
Qed.

Lemma members_graph : graph_inv e'.
Proof.
  assert (Pt : forall p, the_port e' p = the_port e p) by (intros p; unfold the_port; by rewrite (mc_ports e e' M)).
  constructor; rewrite ?same_list, ?(mc_conns e e' M), ?(mc_ports e e' M), ?(mc_feedback e e' M).
  - apply M.
  - apply M.
  - intros c d Hc Hd E. destruct (decide (c ∈ clients e)) as [Hc'|Hn].
    + destruct (decide (d ∈ clients e)) as [Hd'|Hn].
      * rewrite (proj1 (both c Hc Hc')), (proj1 (both d Hd Hd')) in E. by apply (gi_ids e H).
      * by apply (nc_id e' d (mc_new e e' M d Hd Hn)).
    + symmetry. by apply (nc_id e' c (mc_new e e' M c Hc Hn)).
  - apply members_conn_ok.
  - intros p Hp. rewrite Pt. by apply H.
  - apply H.
  - intros p. rewrite Pt. apply H.
  - intros c p Hc. rewrite Pt. intros Hu Ho. destruct (decide (c ∈ clients e)) as [Hc'|Hn].
    + destruct (both c Hc Hc') as (E1 & _ & E3 & _). rewrite E3. apply H; [done..|congruence].
    + exfalso. apply (nc_ports e' c (mc_new e e' M c Hc Hn) p); by rewrite Pt.
  - intros a Ha.
    rewrite (omap_ext_in _ (true_target e a)) by (intros x Hx; unfold true_target; by rewrite edges).
    destruct (decide (a ∈ clients e)) as [Ha'|Hn].
    + rewrite (proj1 (proj2 (proj2 (proj2 (both a Ha Ha'))))). by apply H.
    + by rewrite (nc_truefeeds e' a (mc_new e e' M a Ha Hn)), (proj1 (no_targets a Hn)).
  - intros a Ha.
    rewrite (omap_ext_in _ (sort_target e a)) by (intros x Hx; unfold sort_target; by rewrite edges).
    destruct (decide (a ∈ clients e)) as [Ha'|Hn].
    + rewrite (proj1 (proj2 (proj2 (proj2 (proj2 (both a Ha Ha')))))). by apply H.
    + by rewrite (nc_sortfeeds e' a (mc_new e e' M a Ha Hn)), (proj1 (proj2 (no_targets a Hn))).
  - intros b Hb. rewrite (countb_ext _ (fed_by e b)) by (intros x Hx; unfold fed_by; by rewrite edges).
    destruct (decide (b ∈ clients e)) as [Hb'|Hn].
    + destruct (both b Hb Hb') as (_ & -> & _ & _ & _ & ->). by apply H.
    + rewrite (nc_fedcount e' b (mc_new e e' M b Hb Hn)), (proj2 (proj2 (no_targets b Hn))).
      by destruct (driver_client e' b).
  - apply H.
  - apply members_order.
Qed.

End members.

(** ** Leaving the graph *)

(** No connection refers to [c], and no port in use is its own. *)
Record isolated (c : client_ptr) (e : engine) : Prop := {
  is_conns : forall k x, conn_store e !! k = Some x -> srcclient x <> c /\ dstclient x <> c;
  is_ports : forall p, in_use (the_port e p) = true -> client_id (the_port e p) <> c_id (the_client e c);
  is_list : c_ports (the_client e c) = []
}.

(** Connections and ports in use only go; the lists of other clients stay. *)
Record shrinks (c : client_ptr) (e e' : engine) : Prop := {
  sh_conns : forall k x', conn_store e' !! k = Some x' -> exists x, conn_store e !! k = Some x /\
    srcclient x' = srcclient x /\ dstclient x' = dstclient x;
  sh_ports : forall p, in_use (the_port e' p) = true ->
    in_use (the_port e p) = true /\ client_id (the_port e' p) = client_id (the_port e p);
  sh_lists : forall d, d <> c -> c_ports (the_client e' d) = c_ports (the_client e d);
  sh_ids : forall d, c_id (the_client e' d) = c_id (the_client e d)
}.

#[global] Instance shrinks_preorder c : PreOrder (shrinks c).
Proof.
  split.
  - intros e. constructor; eauto.
  - intros e1 e2 e3 [A1 A2 A3 A4] [B1 B2 B3 B4]. constructor.
    + intros k x3 H3. destruct (B1 k x3 H3) as (x2 & H2 & E1 & E2).
      destruct (A1 k x2 H2) as (x1 & H1 & E3 & E4). exists x1. split_and!; congruence.
    + intros p H3. destruct (B2 p H3) as [H2 E2]. destruct (A2 p H2) as [H1 E1]. split; congruence.
    + intros d Hd. by rewrite B3, A3.
    + intros d. by rewrite B4, A4.
Qed.

Lemma shrinks_isolated c d e e' : shrinks c e e' -> d <> c -> isolated d e -> isolated d e'.
Proof.
  intros S Hd [I1 I2 I3]. constructor.
  - intros k x' Hx'. destruct (sh_conns c e e' S k x' Hx') as (x & Hx & -> & ->). eauto.
  - intros p Hp. destruct (sh_ports c e e' S p Hp) as [Hu ->]. rewrite (sh_ids c e e' S). by apply I2.
  - by rewrite (sh_lists c e e' S).
Qed.

(** What neither connections, ports nor identities see. *)
Lemma shrinks_same c e e' :
  conn_store e' = conn_store e -> ports e' = ports e ->
  (forall d, c_ports (the_client e' d) = c_ports (the_client e d) /\
             c_id (the_client e' d) = c_id (the_client e d)) -> shrinks c e e'.
Proof.
  intros E1 E2 E3. constructor.
  - intros k x'. rewrite E1. eauto.
  - intros p. unfold the_port. by rewrite E2.
  - intros d _. apply E3.
  - intros d. apply E3.
Qed.

Lemma shrinks_server_frame c e e' : server_frame e e' -> shrinks c e e'.
Proof.
  intros S. apply shrinks_same; [apply S|apply S|]. intros d.
  pose proof (same_graph_client e e' d (server_frame_graph e e' S)) as E. unfold cview in E.
  by injection E as -> _ -> _ _ _.
Qed.

Section io.
Context (env : environment).

Lemma drop_port_shrinks c p e :
  losing_ports c e -> p ∈ c_ports (the_client e c) -> shrinks c e (drop_port env e p).
Proof.
  intros L Hp. destruct (lp_ports c e L p Hp) as (x & Hx & _).
  assert (Hlt : (p < length (ports e))%nat) by (by eapply lookup_lt_Some).
  destruct (clear_connections_spec env p e (lp_graph c e L) Hlt) as (_ & _ & _ & _ & Hs).
  pose proof (frame_clear_connections env p e) as F1. unfold drop_port.
  set (e1 := jack_port_clear_connections env p e) in *. clearbody e1. transitivity e1.
  { constructor.
    - intros k x' Hx'. destruct (Hs k x' Hx') as (y & Hy & _ & _ & E1 & E2). eauto.
    - intros q. rewrite (graph_frame_port in_use e e1), (graph_frame_port client_id e e1) by done. done.
    - intros d _. by apply (graph_frame_client c_ports).
    - intros d. by apply (graph_frame_client c_id). }
  set (e2 := jack_port_registration_notify env _ false e1).
  assert (F2 : event_frame e1 e2) by apply deliver_where_frame. clearbody e2. transitivity e2.
  { by apply shrinks_server_frame, server_frame_event. }
  assert (Hlt2 : (p < length (ports e2))%nat)
    by (by rewrite (event_frame_get ports e1 e2), (graph_frame_length e e1 F1)).
  destruct (lookup_lt_is_Some_2 _ _ Hlt2) as [x2 Hx2].
  destruct (release_table p x2 e2 Hx2) as (y & T & Y1 & _). set (e3 := jack_port_release p e2) in *. clearbody e3.
  assert (Cl : forall d, the_client e3 d = the_client e2 d)
    by (intros d; unfold the_client; by rewrite (tc_store _ _ _ _ T)).
  constructor; try (intros d; by rewrite Cl).
  - intros k x'. rewrite (tc_conns _ _ _ _ T). eauto.
  - intros q Hq. destruct (decide (q = p)) as [->|Hne].
    + rewrite (table_port p y e2 e3 T Hlt2), Y1 in Hq. done.
    + by rewrite (table_others p y e2 e3 q T Hne) in *.
Qed.

(** The loop over the ports. *)
Lemma losing_loop c l e :
  losing_ports c e -> (forall p, p ∈ l -> p ∈ c_ports (the_client e c)) ->
  let e' := foldl (drop_port env) e l in
  losing_ports c e' /\ transport_frame e e' /\ shrinks c e e' /\ (forall p, p ∈ l -> in_use (the_port e' p) = false) /\
  (forall p, in_use (the_port e p) = false -> in_use (the_port e' p) = false) /\
  c_ports (the_client e' c) = c_ports (the_client e c).
Proof.
  revert e. induction l as [|p l IH]; intros e L Hl; cbn zeta.
  { split_and!; try done. intros p Hp. by apply not_elem_of_nil in Hp. }
  destruct (losing_step env c p e L (Hl p ltac:(left))) as (L1 & U1 & K1 & E1).
  assert (F1 : transport_frame e (drop_port env e p)).
  { unfold drop_port. etrans; [|apply release_transport]. apply graph_frame_transport.
    etrans; [|apply graph_frame_event, deliver_where_frame]. apply frame_clear_connections. }
  pose proof (drop_port_shrinks c p e L (Hl p ltac:(left))) as S1.
  cbn [foldl]. set (e1 := drop_port env e p) in *. clearbody e1.
  destruct (IH e1 L1) as (L2 & F2 & S2 & U2 & K2 & E2).
  { intros q Hq. rewrite E1. apply Hl. by right. }
  set (e2 := foldl _ e1 l) in *. clearbody e2. split_and!; [done|by transitivity e1|by transitivity e1| |by auto|congruence].
  intros q Hq. apply elem_of_cons in Hq as [->|Hq]; auto.
Qed.

(** Once no port is in use, the client is in no connection. *)
Lemma losing_isolated c e :
  losing_ports c e -> (forall p, p ∈ c_ports (the_client e c) -> in_use (the_port e p) = false) ->
  (forall k x, conn_store e !! k = Some x -> srcclient x <> c /\ dstclient x <> c) /\
  (forall p, in_use (the_port e p) = true -> client_id (the_port e p) <> c_id (the_client e c)).
Proof.
  intros [H Hc _ _ _] Hu. split.
  - intros k x Hk. pose proof (gi_conns e H k x Hk) as C. split; intros E.
    + pose proof (co_listed e x C) as Hin. rewrite E in Hin. pose proof (co_src_used e x C) as Hs.
      by rewrite (Hu _ Hin) in Hs.
    + pose proof (co_dst_owner e x C) as Ho. rewrite E in Ho. pose proof (co_dst_used e x C) as Hd.
      pose proof (gi_owned e H c _ Hc Hd Ho) as Hin. by rewrite (Hu _ Hin) in Hd.
  - intros p Hp E. pose proof (gi_owned e H c p Hc Hp E) as Hin. by rewrite (Hu p Hin) in Hp.
Qed.

Lemma isolated_feeds c e :
  graph_inv e -> c ∈ clients e ->
  (forall k x, conn_store e !! k = Some x -> srcclient x <> c /\ dstclient x <> c) ->
  truefeeds (the_client e c) = [] /\ sortfeeds (the_client e c) = [].
Proof.
  intros H Hc Hno.
  assert (Hn : forall x, x ∈ conn_list e -> srcclient x <> c /\ dstclient x <> c)
    by (intros x [k Hk]%conn_list_lookup; eauto).
  assert (Hz : forall f : connection -> option client_ptr, (forall x, x ∈ conn_list e -> f x = None) ->
    omap f (conn_list e) = []).
  { intros f Hf. rewrite (omap_ext_in f (fun _ => None)) by done. clear. by induction (conn_list e). }
  split; apply Permutation_nil; symmetry.
  - rewrite (gi_truefeeds e H c Hc), Hz; [done|]. intros x Hx. destruct (Hn x Hx) as [H1 _].
    unfold true_target. rewrite bool_decide_eq_false_2 by done. by rewrite andb_false_r.
  - rewrite (gi_sortfeeds e H c Hc), Hz; [done|]. intros x Hx. destruct (Hn x Hx) as [H1 H2].
    unfold sort_target. destruct (is_edge e x); [|done]. rewrite !decide_False by done. by destruct (_ =? 1).
Qed.

Lemma disconnect_ports_spec c e :
  server_inv e -> c ∈ clients e ->
  let e' := jack_client_disconnect_ports env c e in
  server_inv e' /\ isolated c e' /\ transport_frame e e' /\ shrinks c e e'.
Proof.
  intros I Hc. cbn zeta. unfold jack_client_disconnect_ports.
  change (foldl _ e (c_ports (the_client e c))) with (foldl (drop_port env) e (c_ports (the_client e c))).
  destruct (losing_loop c (c_ports (the_client e c)) e (losing_start c e I Hc)) as (L & F & Sh & U & _ & E); [done|].
  set (e1 := foldl _ e _) in *. clearbody e1. rewrite <- E in U.
  destruct (losing_isolated c e1 L U) as [N1 N2].
  destruct (isolated_feeds c e1 (lp_graph c e1 L) (lp_member c e1 L) N1) as [T1 T2].
  destruct (gi_store e1 (lp_graph c e1 L) c (lp_member c e1 L)) as [z Hz].
  assert (Hl : live e1 c = []).
  { unfold live. destruct (filter _ _) as [|p l] eqn:Ef; [done|].
    assert (Hp : p ∈ filter (fun p => in_use (the_port e1 p) = true) (c_ports (the_client e1 c)))
      by (rewrite Ef; left). apply list_elem_of_filter in Hp as [Hp Hin]. by rewrite (U p Hin) in Hp. }
  assert (Ez : the_client e1 c = z) by (unfold the_client; by rewrite Hz).
  assert (Eq : upd_client c (fun x => x <| truefeeds := [] |> <| sortfeeds := [] |> <| c_ports := [] |>) e1
             = with_ports c [] e1).
  { apply upd_client_ext. intros x Hx. rewrite Hz in Hx. apply (inj Some) in Hx as <-.
    rewrite Ez in T1, T2. destruct z. cbn in T1, T2. by subst. }
  rewrite Eq. pose proof (lp_server c e1 L) as S. rewrite Hl in S. split_and!; [done|..].
  - constructor; [done| |].
    + unfold with_ports. rewrite (the_client_upd_field e1 c c _ c_id) by done. exact N2.
    + unfold with_ports. by rewrite the_client_upd, decide_True by eauto.
  - transitivity e1; [done|]. by apply transport_frame_client.
  - transitivity e1; [done|]. constructor; eauto.
    + intros d Hd. unfold with_ports. by rewrite the_client_upd_ne.
    + intros d. unfold with_ports. by apply (the_client_upd_field e1 c d _ c_id).
Qed.

End io.

(** ** Leaving the transport *)

Lemma exit_others c d e : d <> c -> the_client (jack_transport_client_exit c e) d = the_client e d.
Proof.
  intros Hd. assert (U : forall f e, the_client (upd_client c f e) d = the_client e d)
    by (intros f e0; by apply the_client_upd_ne).
  unfold jack_transport_client_exit. cbv zeta. set (e1 := if decide _ then _ else e).
  assert (E1 : the_client e1 d = the_client e d).
  { unfold e1. destruct (decide _); [|done]. destruct (dead _); [exact (U _ _)|done]. }
  clearbody e1. rewrite <- E1. destruct (is_slowsync _); [|done].
  set (e2 := if active_slowsync _ then _ else e1).
  assert (E2 : the_client e2 d = the_client e1 d).
  { unfold e2, jack_sync_poll_deactivate. destruct (active_slowsync _); [|done]. cbv zeta.
    etrans; [exact (U _ _)|]. destruct (sync_poll _); [exact (U _ _)|done]. }
  clearbody e2. rewrite <- E2. destruct (dead _); [apply U|done].
Qed.

(** What the exit keeps of the client itself. *)
Lemma exit_self {A} (g : client -> A) c e :
  (forall x b, g (x <| is_timebase := b |>) = g x) -> (forall x b, g (x <| timebase_new := b |>) = g x) ->
  (forall x b, g (x <| is_slowsync := b |>) = g x) -> (forall x b, g (x <| active_slowsync := b |>) = g x) ->
  (forall x b, g (x <| sync_poll := b |>) = g x) -> (forall x b, g (x <| sync_new := b |>) = g x) ->
  g (the_client (jack_transport_client_exit c e) c) = g (the_client e c).
Proof.
  intros G1 G2 G3 G4 G5 G6.
  assert (U : forall f e, (forall x, g (f x) = g x) -> g (the_client (upd_client c f e) c) = g (the_client e c))
    by (intros f e0; by apply the_client_upd_field).
  unfold jack_transport_client_exit. cbv zeta. set (e1 := if decide _ then _ else e).
  assert (E1 : g (the_client e1 c) = g (the_client e c)).
  { unfold e1. destruct (decide _); [|done]. destruct (dead _); [|done].
    refine (U _ e _). intros x. by rewrite G2, G1. }
  clearbody e1. rewrite <- E1. destruct (is_slowsync _); [|done].
  set (e2 := if active_slowsync _ then _ else e1).
  assert (E2 : g (the_client e2 c) = g (the_client e1 c)).
  { unfold e2, jack_sync_poll_deactivate. destruct (active_slowsync _); [|done]. cbv zeta.
    etrans; [refine (U _ _ _); intros x; apply G4|]. destruct (sync_poll _); [|done].
    refine (U _ e1 _). intros x. by rewrite G6, G5. }
  clearbody e2. rewrite <- E2. destruct (dead _); [apply U; intros x; apply G3|done].
Qed.

Lemma exit_keeps {A} (g : engine -> A) c e :
  (forall f e, g (upd_client c f e) = g e) -> (forall f e, g (upd_control f e) = g e) ->
  (forall e, g (e <| timebase_client := None |>) = g e) -> g (jack_transport_client_exit c e) = g e.
Proof.
  intros U C B. unfold jack_transport_client_exit. cbv zeta. set (e1 := if decide _ then _ else e).
  assert (E1 : g e1 = g e) by (unfold e1; destruct (decide _); [destruct (dead _); by rewrite C, ?B, ?U|done]).
  clearbody e1. rewrite <- E1. destruct (is_slowsync _); [|done].
  set (e2 := if active_slowsync _ then _ else e1).
  assert (E2 : g e2 = g e1).
  { unfold e2, jack_sync_poll_deactivate. destruct (active_slowsync _); [|done]. cbv zeta.
    rewrite C, U. destruct (sync_poll _); by rewrite ?C, ?U. }
  clearbody e2. rewrite <- E2. destruct (dead _); [apply U|done].
Qed.

Lemma exit_timebase c e :
  timebase_client (jack_transport_client_exit c e)
    = if decide (timebase_client e = Some c) then
        if dead (the_client e c) then None else timebase_client e
      else timebase_client e.
Proof.
  unfold jack_transport_client_exit. cbv zeta. set (e1 := if decide _ then _ else e).
  assert (E1 : timebase_client e1 = if decide (timebase_client e = Some c) then
        if dead (the_client e c) then None else timebase_client e else timebase_client e)
    by (unfold e1; destruct (decide _); [by destruct (dead _)|done]).
  clearbody e1. rewrite <- E1. destruct (is_slowsync _); [|done].
  set (e2 := if active_slowsync _ then _ else e1).
  assert (E2 : timebase_client e2 = timebase_client e1).
  { unfold e2, jack_sync_poll_deactivate. destruct (active_slowsync _); [|done]. cbv zeta. by destruct (sync_poll _). }
  clearbody e2. rewrite <- E2. clear E1 E2. by destruct (dead (the_client e2 c)).
Qed.

(** After its exit a client that was slow-sync is no longer waited for. *)
Lemma exit_slow c e :
  is_Some (client_store e !! c) ->
  implb (active_slowsync (the_client e c)) (is_slowsync (the_client e c)) = true ->
  active_slowsync (the_client (jack_transport_client_exit c e) c) = false.
Proof.
  intros Hs Hi. unfold jack_transport_client_exit. cbv zeta.
  set (e1 := if decide _ then _ else e).
  assert (E1 : is_Some (client_store e1 !! c) /\
    active_slowsync (the_client e1 c) = active_slowsync (the_client e c) /\
    is_slowsync (the_client e1 c) = is_slowsync (the_client e c)).
  { unfold e1. destruct (decide _); [|done]. destruct (dead _); [|done]. cbn.
    rewrite lookup_alter_eq. destruct Hs as [x Hx]. unfold the_client. cbn. rewrite lookup_alter_eq, Hx.
    split_and!; [by eexists|done|done]. }
  clearbody e1. destruct E1 as (Hs1 & Ea1 & E2). rewrite <- Ea1, <- E2 in Hi. clear Ea1 E2.
  destruct (is_slowsync (the_client e1 c)) eqn:Es; [|by destruct (active_slowsync _)].
  set (e2 := if active_slowsync _ then _ else e1).
  assert (E2 : active_slowsync (the_client e2 c) = false).
  { unfold e2. destruct (active_slowsync (the_client e1 c)) eqn:Ea; [|done].
    unfold jack_sync_poll_deactivate. cbv zeta. set (e3 := if sync_poll _ then _ else e1).
    assert (Hs3 : is_Some (client_store e3 !! c)).
    { unfold e3. destruct (sync_poll _); [|done]. cbn. rewrite lookup_alter_eq. destruct Hs1 as [x ->]. by eexists. }
    change (the_client (upd_control ?f ?x) c) with (the_client x c).
    by rewrite the_client_upd, decide_True. }
  clearbody e2. destruct (dead _); [|done]. by rewrite (the_client_upd_field e2 c c _ active_slowsync).
Qed.

(** ** Zombies *)

Record zombie (c : client_ptr) (e : engine) : Prop := {
  zb_dead : dead (the_client e c) = true;
  zb_inactive : active (the_client e c) = false;
  zb_timebase : timebase_client e <> Some c;
  zb_slow : active_slowsync (the_client e c) = false
}.

(** What happens to the rest when [c] leaves. *)
Record leaves (c : client_ptr) (e e' : engine) : Prop := {
  lv_clients : clients e' ≡ₚ clients e;
  lv_others : forall d, d <> c -> lview (the_client e' d) = lview (the_client e d);
  lv_shrinks : shrinks c e e';
  lv_timebase : timebase_client e' = timebase_client e \/ timebase_client e' = None;
  lv_nozombies : nozombies e' = nozombies e;
  lv_next_id : next_client_id e' = next_client_id e
}.

Lemma leaves_zombie c d e e' : leaves c e e' -> d <> c -> zombie d e -> zombie d e'.
Proof.
  intros L Hd [Z1 Z2 Z3 Z4]. pose proof (lv_others c e e' L d Hd) as E. unfold lview, tview in E.
  injection E as E1 E2 _ _ E5 _ _ _ _. constructor; try congruence.
  destruct (lv_timebase c e e' L) as [->| ->]; done.
Qed.

Lemma leaves_tframe c e e' : transport_frame e e' -> shrinks c e e' -> leaves c e e'.
Proof.
  intros F S. constructor; try apply F; [|done|left; apply F].
  intros d _. by apply transport_frame_view.
Qed.

#[global] Instance leaves_preorder c : PreOrder (leaves c).
Proof.
  split.
  - intros e. constructor; auto. reflexivity.
  - intros e1 e2 e3 [A1 A2 A3 A4 A5 A6] [B1 B2 B3 B4 B5 B6]. constructor; try congruence.
    + by etrans.
    + intros d Hd. by rewrite B2, A2.
    + by transitivity e2.
    + destruct B4 as [->| ->]; auto.
Qed.

(** An update of [c]'s own flags. *)
Lemma leaves_upd c f e : (forall x, cview (f x) = cview x) -> leaves c e (upd_client c f e).
Proof.
  intros Hf. constructor; auto.
  - intros d Hd. by rewrite the_client_upd_ne.
  - by apply shrinks_server_frame, server_frame_client.
Qed.

(** Ids are handed out in order, from 1 on. *)
Record ids_inv (e : engine) : Prop := {
  id_next : 0 < next_client_id e;
  id_clients : forall c, c ∈ clients e -> c_id (the_client e c) < next_client_id e;
  id_ports : forall p, in_use (the_port e p) = true -> client_id (the_port e p) < next_client_id e
}.

Lemma leaves_ids c e e' : leaves c e e' -> ids_inv e -> ids_inv e'.
Proof.
  intros L [H1 H2 H3]. pose proof (lv_shrinks c e e' L) as S. constructor; rewrite (lv_next_id c e e' L).
  - done.
  - intros d. rewrite (lv_clients c e e' L), (sh_ids c e e' S). apply H2.
  - intros p Hp. destruct (sh_ports c e e' S p Hp) as [Hu ->]. by apply H3.
Qed.

Section io.
Context (env : environment).

(** [jack_client_do_deactivate] but for the sort. *)
Lemma do_deactivate_spec c e :
  server_inv e -> transport_inv e -> c ∈ clients e ->
  let e' := (jack_client_do_deactivate env c false e).2 in
  server_inv e' /\ transport_inv e' /\ server_frame e e' /\ leaves c e e' /\
  active (the_client e' c) = false /\ dead (the_client e' c) = dead (the_client e c) /\
  c_error (the_client e' c) = c_error (the_client e c) /\
  active_slowsync (the_client e' c) = false /\
  (dead (the_client e c) = true -> timebase_client e' <> Some c).
Proof.
  intros I T Hc. cbn zeta. unfold jack_client_do_deactivate. cbn [snd].
  pose proof (deactivate_transport false c e T Hc) as T2. unfold deactivate_client in T2.
  set (e1 := upd_client c _ e) in *.
  assert (Hs : is_Some (client_store e !! c)) by (by apply T).
  assert (E1 : the_client e1 c = the_client e c <| active := false |>)
    by (unfold e1; by rewrite the_client_upd, decide_True).
  assert (Hs1 : is_Some (client_store e1 !! c)) by (unfold e1; cbn; by apply lookup_alter_is_Some).
  assert (F1 : server_frame e e1) by (by apply server_frame_client).
  assert (L1 : leaves c e e1) by (by apply leaves_upd).
  assert (Hi : implb (active_slowsync (the_client e1 c)) (is_slowsync (the_client e1 c)) = true).
  { rewrite E1. cbn. pose proof (proj1 (proj2 T) c Hc) as Ho. unfold slow_ok in Ho.
    destruct (active_slowsync _); [|done]. cbn in *. by apply andb_true_iff in Ho as [-> _]. }
  assert (Tb1 : timebase_client e1 = timebase_client e) by done. clearbody e1.
  pose proof (transport_exit_frame c e1) as F2. pose proof (exit_slow c e1 Hs1 Hi) as X1.
  pose proof (exit_timebase c e1) as X2.
  pose proof (exit_self active c e1 ltac:(done) ltac:(done) ltac:(done) ltac:(done) ltac:(done) ltac:(done)) as X3.
  pose proof (exit_self dead c e1 ltac:(done) ltac:(done) ltac:(done) ltac:(done) ltac:(done) ltac:(done)) as X4.
  pose proof (exit_self c_error c e1 ltac:(done) ltac:(done) ltac:(done) ltac:(done) ltac:(done) ltac:(done)) as X5.
  assert (L2 : leaves c e1 (jack_transport_client_exit c e1)).
  { constructor.
    - by rewrite (fr_clients _ _ F2).
    - intros d Hd. by rewrite exit_others.
    - by apply shrinks_server_frame.
    - rewrite X2. destruct (decide _); [|by left]. destruct (dead _); auto.
    - by apply (exit_keeps nozombies).
    - by apply (exit_keeps next_client_id). }
  set (e2 := jack_transport_client_exit c e1) in *. clearbody e2.
  set (e3 := if _ && _ then _ else e2).
  assert (F3 : server_frame e2 e3 /\ leaves c e2 e3 /\ transport_inv e3 /\
    the_client e3 c = the_client e2 c /\ timebase_client e3 = timebase_client e2).
  { unfold e3. destruct (_ && _); [|split_and!; done]. split_and!; try done.
    - constructor; auto. by apply shrinks_same.
    - by destruct T2 as ([] & ? & []). }
  destruct F3 as (F3 & L3 & T3 & E3 & Tb3). clearbody e3.
  assert (F : server_frame e e3) by (transitivity e1; [done|]; by transitivity e2).
  split_and!; try done.
  - by apply (server_frame_inv e).
  - transitivity e1; [done|]. by transitivity e2.
  - by rewrite E3, X3, E1.
  - by rewrite E3, X4, E1.
  - by rewrite E3, X5, E1.
  - by rewrite E3.
  - intros Hd. rewrite Tb3, X2, E1. cbn. rewrite Hd. by destruct (decide _).
Qed.

Lemma zombify_spec c e :
  server_inv e -> transport_inv e -> c ∈ clients e ->
  let e' := jack_zombify_client env c e in
  server_inv e' /\ transport_inv e' /\ isolated c e' /\ zombie c e' /\ leaves c e e'.
Proof.
  intros I T Hc. cbn zeta. unfold jack_zombify_client.
  set (e0 := upd_client c _ e).
  assert (I0 : server_inv e0) by (apply (server_frame_inv e); [by apply server_frame_client|done]).
  assert (T0 : transport_inv e0) by (by apply transport_inv_frame).
  assert (L0 : leaves c e e0) by (by apply leaves_upd).
  assert (D0 : dead (the_client e0 c) = true)
    by (unfold e0; rewrite the_client_upd, decide_True by (done || by apply T); done).
  assert (Hc0 : c ∈ clients e0) by done. clearbody e0.
  destruct (disconnect_ports_spec env c e0 I0 Hc0) as (I1 & S1 & F1 & Sh1).
  set (e1 := jack_client_disconnect_ports env c e0) in *. clearbody e1.
  pose proof (transport_frame_inv e0 e1 F1 T0) as T1.
  assert (Hc1 : c ∈ clients e1) by (by rewrite (tf_clients e0 e1 F1)).
  assert (D1 : dead (the_client e1 c) = true).
  { pose proof (transport_frame_view e0 e1 c F1) as E. unfold lview, tview in E. injection E as _ E2 _ _ _ _ _ _ _. congruence. }
  destruct (do_deactivate_spec c e1 I1 T1 Hc1) as (I2 & T2 & F2 & L2 & X1 & X2 & _ & X3 & X4).
  set (e2 := (jack_client_do_deactivate env c false e1).2) in *. clearbody e2.
  split_and!; [done|done| | |].
  - destruct S1 as [S1 S2 S3]. constructor.
    + by rewrite (fr_conns e1 e2 F2).
    + intros p. unfold the_port. rewrite (fr_ports e1 e2 F2), (sh_ids c e1 e2 (lv_shrinks c e1 e2 L2)). apply S2.
    + pose proof (same_graph_client e1 e2 c (server_frame_graph e1 e2 F2)) as E. unfold cview in E.
      injection E as _ _ E _ _ _. congruence.
  - constructor; [congruence|done|by apply X4|done].
  - transitivity e0; [done|]. transitivity e1; [by apply leaves_tframe|done].
Qed.

End io.

(** ** Removal *)

Lemma lview_no_error x : lview (no_error x) = lview x.
Proof. unfold lview. cbn. by destruct (dead x). Qed.

Lemma members_ports e e' :
  port_inv e -> ports e' = ports e -> port_types e' = port_types e -> port_buffers e' = port_buffers e ->
  (forall c, c ∈ clients e' ->
     c ∈ clients e /\ c_ports (the_client e' c) = c_ports (the_client e c) /\
       c_id (the_client e' c) = c_id (the_client e c) \/
     c_ports (the_client e' c) = [] /\ c_id (the_client e' c) <> 0) -> port_inv e'.
Proof.
  intros [[B1 B2 B3 B4] P2 P3 P4 P5 P6 P7 P8] Ep Et Eb Hc.
  assert (Hh : forall t, held e' t = held e t) by (intros t; unfold held; by rewrite Ep).
  constructor; [constructor|..].
  - by rewrite Eb, Et.
  - intros t b. rewrite Eb, Hh. apply B2.
  - intros t b i. rewrite Eb, Hh, Ep. apply B3.
  - intros t b. rewrite Eb, Hh, Ep. apply B4.
  - by rewrite Et.
  - by rewrite Ep.
  - intros p x. rewrite Ep. intros Hx Hu. unfold port_ok. rewrite Et, Eb. by apply (P4 p).
  - intros c p H1. rewrite Ep. destruct (Hc c H1) as [(H2 & -> & ->)|[-> _]]; [by apply P5|].
    intros Hp. by apply not_elem_of_nil in Hp.
  - intros c H1. destruct (Hc c H1) as [(H2 & -> & _)|[-> _]]; [by apply P6|constructor].
  - by rewrite Ep.
  - intros c H1. destruct (Hc c H1) as [(H2 & _ & ->)|[_ H2]]; [by apply P8|done].
Qed.

(** An isolated client can be taken out. *)
Lemma unlink_server c e e' :
  server_inv e -> isolated c e ->
  (forall d, d ∈ clients e' <-> d ∈ clients e /\ d <> c) -> NoDup (clients e') ->
  (forall d, d <> c -> client_store e' !! d = client_store e !! d) ->
  conn_store e' = conn_store e -> ports e' = ports e -> feedbackcount e' = feedbackcount e ->
  port_types e' = port_types e -> port_buffers e' = port_buffers e -> server_inv e'.
Proof.
  intros [G P] [I1 I2 I3] Hc Hnd Hst Ec Ep Ef Et Eb.
  assert (Cl : forall d, d <> c -> the_client e' d = the_client e d)
    by (intros d Hd; unfold the_client; by rewrite Hst).
  split.
  - apply (members_graph e); [done|]. constructor; try done.
    + intros d Hd. apply Hc in Hd as [Hd Hne]. rewrite Hst by done. by apply G.
    + intros k x Hk. destruct (I1 k x Hk) as [S D]. pose proof (gi_conns e G k x Hk) as C.
      split; apply Hc; (split; [apply C|done]).
    + intros d Hd _. apply Hc in Hd as [_ Hd]. by rewrite Cl.
    + intros d Hd Hn. apply Hc in Hd as [Hd _]. done.
  - apply (members_ports e); try done. intros d Hd. apply Hc in Hd as [Hd Hne]. left. by rewrite Cl.
Qed.

Lemma unlink_eq c e :
  graph_inv e -> c ∈ clients e -> unlink_client c e = e <| clients ::= slist_remove c |>.
Proof.
  intros G Hc. unfold unlink_client. rewrite by_id_unique; [done|done|].
  intros d Hd E. by apply (gi_ids e G).
Qed.

(** Taking an isolated zombie out of the list, telling the others, and
    freeing it. *)
Lemma delete_spec env c e :
  server_inv e -> transport_inv e -> c ∈ clients e -> isolated c e -> zombie c e ->
  let e' := jack_client_delete env c (unlink_client c e) in
  server_inv e' /\ transport_inv e' /\ (forall d, d ∈ clients e' <-> d ∈ clients e /\ d <> c) /\
  client_store e' !! c = None /\
  (forall d, d <> c -> lview (the_client e' d) = lview (the_client e d)) /\
  conn_store e' = conn_store e /\ ports e' = ports e /\ timebase_client e' = timebase_client e /\
  (forall d, d <> c -> cview (the_client e' d) = cview (the_client e d)) /\
  nozombies e' = nozombies e /\ next_client_id e' = next_client_id e.
Proof.
  intros I T Hc Hi Hz. cbn zeta. rewrite (unlink_eq c e (sv_graph e I) Hc). unfold jack_client_delete.
  pose proof (gi_nodup e (sv_graph e I)) as Hnd.
  set (e1 := e <| clients ::= slist_remove c |>).
  set (e2 := jack_client_registration_notify env _ false e1).
  assert (F : event_frame e1 e2) by apply deliver_where_frame.
  assert (G : forall A (g : engine -> A), (forall x, g (x <| client_store := ∅ |> <| problems := 0 |>
      <| events := [] |> <| io_count := 0%nat |>) = g x) -> g e2 = g e1)
    by (intros A g Hg; by apply (event_frame_get g e1 e2)).
  assert (I1 : server_inv e1).
  { apply (unlink_server c e); try done.
    - intros d. cbn. by apply slist_remove_elem_iff.
    - by apply slist_remove_nodup. }
  pose proof (server_inv_event e1 e2 F I1) as I2.
  assert (Cl : forall d, no_error <$> client_store e2 !! d = no_error <$> client_store e !! d) by apply F.
  assert (Ec : clients e2 = slist_remove c (clients e)) by (by rewrite (G _ clients)).
  assert (Hin : forall d, d ∈ clients e2 <-> d ∈ clients e /\ d <> c)
    by (intros d; rewrite Ec; by apply slist_remove_elem_iff).
  set (e3 := e2 <| client_store ::= delete c |>).
  assert (Cl3 : forall d, d <> c -> the_client e3 d = the_client e2 d)
    by (intros d Hd; unfold the_client; cbn; by rewrite lookup_delete_ne).
  assert (Isol2 : isolated c e2).
  { destruct Hi as [S1 S2 S3]. constructor.
    - by rewrite (G _ conn_store).
    - intros p. unfold the_port. rewrite (G _ ports), (event_frame_field c_id e1 e2) by done. apply S2.
    - by rewrite (event_frame_field c_ports e1 e2). }
  split_and!.
  - apply (unlink_server c e2); try done.
    + intros d. change (clients e3) with (clients e2). rewrite Hin. naive_solver.
    + change (NoDup (clients e2)). rewrite Ec. by apply slist_remove_nodup.
    + intros d Hd. cbn. by rewrite lookup_delete_ne.
  - apply (transport_frame_inv (drop_client c e)).
    2:{ apply drop_client_transport; [apply Hz|apply Hz|done]. }
    constructor; [| |exact (f_equal sync_clients (G _ control (fun _ => eq_refl)))
      |exact (f_equal sync_remain (G _ control (fun _ => eq_refl)))
      |exact (G _ timebase_client (fun _ => eq_refl))|exact (G _ nozombies (fun _ => eq_refl))
      |exact (G _ next_client_id (fun _ => eq_refl))].
    + change (clients e2 ≡ₚ filter (fun d => d <> c) (clients e)). rewrite Ec. by rewrite slist_remove_filter.
    + intros d.
      change (lview <$> delete c (client_store e2) !! d = lview <$> delete c (client_store e) !! d).
      destruct (decide (c = d)) as [->|Hne]; [by rewrite !lookup_delete_eq|].
      rewrite !lookup_delete_ne by done. specialize (Cl d).
      destruct (client_store e2 !! d) as [x|], (client_store e !! d) as [y|]; try done.
      apply (inj Some) in Cl. apply (f_equal Some).
      by rewrite <- (lview_no_error x), <- (lview_no_error y), Cl.
  - exact Hin.
  - cbn. apply lookup_delete_eq.
  - intros d Hd. rewrite Cl3 by done. by rewrite (event_frame_field lview e1 e2 d lview_no_error F).
  - exact (G _ conn_store (fun _ => eq_refl)).
  - exact (G _ ports (fun _ => eq_refl)).
  - exact (G _ timebase_client (fun _ => eq_refl)).
  - intros d Hd. rewrite Cl3 by done. by rewrite (event_frame_field cview e1 e2).
  - exact (G _ nozombies (fun _ => eq_refl)).
  - exact (G _ next_client_id (fun _ => eq_refl)).
Qed.

(** What the server expects of the [finish] function of an internal client:
    it takes down only what is the client's own. *)
Class FinishOk (finish : client_ptr -> engine -> engine) : Prop := {
  fin_server : forall c e, server_inv e -> transport_inv e -> c ∈ clients e -> server_inv (finish c e);
  fin_transport : forall c e, server_inv e -> transport_inv e -> c ∈ clients e -> transport_inv (finish c e);
  fin_leaves : forall c e, leaves c e (finish c e);
  fin_dead : forall c e, dead (the_client (finish c e) c) = dead (the_client e c);
  fin_isolated : forall c e, isolated c e -> isolated c (finish c e);
  fin_zombie : forall c e, zombie c e -> zombie c (finish c e)
}.

(** A client that needs nothing undone: FinishOk has an instance. *)
#[global] Instance finish_nothing : FinishOk (fun _ e => e).
Proof. split; auto; reflexivity. Qed.

(** Nothing is left of [c]; the others are as before. *)
Record removed (c : client_ptr) (e e' : engine) : Prop := {
  rm_clients : forall d, d ∈ clients e' <-> d ∈ clients e /\ d <> c;
  rm_store : client_store e' !! c = None;
  rm_conns : forall k x, conn_store e' !! k = Some x -> srcclient x <> c /\ dstclient x <> c;
  rm_ports : forall p, in_use (the_port e' p) = true -> client_id (the_port e' p) <> c_id (the_client e c);
  rm_timebase : timebase_client e' <> Some c;
  rm_others : forall d, d <> c -> lview (the_client e' d) = lview (the_client e d);
  rm_isolated : forall d, d <> c -> isolated d e -> isolated d e';
  rm_zombie : forall d, d <> c -> zombie d e -> zombie d e';
  rm_ids : ids_inv e -> ids_inv e';
  rm_nozombies : nozombies e' = nozombies e
}.

Section removal.
Context (env : environment) (finish : client_ptr -> engine -> engine) `{!FinishOk finish}.

Lemma session_frame c e : server_frame e (drop_session_reply c e) /\ leaves c e (drop_session_reply c e) /\
  the_client (drop_session_reply c e) c = the_client e c /\
  (transport_inv e -> transport_inv (drop_session_reply c e)) /\
  timebase_client (drop_session_reply c e) = timebase_client e.
Proof.
  unfold drop_session_reply. destruct (session_reply_pending _); [|split_and!; done]. cbv zeta.
  assert (L : forall z e', e' = e <| session_pending_replies ::= Z.pred |> \/
      e' = e <| session_pending_replies ::= Z.pred |> <| session_reply_fd := z |> -> leaves c e e').
  { intros z e' [->| ->]; constructor; auto; by apply shrinks_same. }
  destruct (_ =? 0); (split_and!; [by constructor|eapply (L (-1)); auto|done|by intros ([] & ? & [])|done]).
Qed.

Lemma remove_spec c e :
  server_inv e -> transport_inv e -> c ∈ clients e ->
  (dead (the_client e c) = true -> isolated c e /\ zombie c e) ->
  let e' := outcome_engine (jack_remove_client env finish c e) in
  server_inv e' /\ transport_inv e' /\ removed c e e'.
Proof.
  intros I T Hc Hd. cbn zeta. unfold jack_remove_client.
  set (e1 := if bool_decide _ then finish c e else e).
  assert (H1 : server_inv e1 /\ transport_inv e1 /\ leaves c e e1 /\
    (dead (the_client e1 c) = true -> isolated c e1 /\ zombie c e1)).
  { unfold e1. destruct (bool_decide _); [|split_and!; done]. split_and!.
    - by apply fin_server. - by apply fin_transport. - apply fin_leaves.
    - rewrite fin_dead. intros Hdd. destruct (Hd Hdd). by split; [apply fin_isolated|apply fin_zombie]. }
  destruct H1 as (I1 & T1 & L1 & D1). clearbody e1.
  assert (Hc1 : c ∈ clients e1) by (by rewrite (lv_clients c e e1 L1)).
  set (e2 := if negb _ then _ else e1).
  assert (H2 : server_inv e2 /\ transport_inv e2 /\ isolated c e2 /\ zombie c e2 /\ leaves c e1 e2).
  { unfold e2. destruct (dead (the_client e1 c)) eqn:Ed; cbn [negb].
    - destruct (D1 eq_refl). by split_and!.
    - by apply zombify_spec. }
  destruct H2 as (I2 & T2 & S2 & Z2 & L2). clearbody e2.
  assert (Hc2 : c ∈ clients e2) by (by rewrite (lv_clients c e1 e2 L2)).
  destruct (session_frame c e2) as (F3 & L3 & E3 & T3 & B3).
  set (e3 := drop_session_reply c e2) in *. clearbody e3. specialize (T3 T2).
  pose proof (server_frame_inv e2 e3 F3 I2) as I3.
  assert (Hc3 : c ∈ clients e3) by (by rewrite (fr_clients e2 e3 F3)).
  assert (S3 : isolated c e3).
  { destruct S2 as [S1 S2 S3]. constructor; rewrite ?(fr_conns e2 e3 F3), ?E3; [done| |done].
    intros p. unfold the_port. rewrite (fr_ports e2 e3 F3). apply S2. }
  assert (Z3 : zombie c e3) by (destruct Z2; constructor; by rewrite ?E3, ?B3).
  destruct (delete_spec env c e3 I3 T3 Hc3 S3 Z3) as (I4 & T4 & C4 & N4 & V4 & K4 & P4 & B4 & W4 & Nz4 & Ni4).
  set (e4 := jack_client_delete env c (unlink_client c e3)) in *. clearbody e4.
  assert (L : leaves c e e3) by (transitivity e1; [done|]; by transitivity e2).
  set (e5 := outcome_engine _).
  assert (E5 : e5 = e4 \/ e5 = e4 <| new_clients_allowed := false |>).
  { unfold e5. destruct (_ && _); [|by left]. destruct (_ >=? _); [by right|by left]. }
  assert (R4 : removed c e e4).
  { constructor.
    - intros d. by rewrite C4, (lv_clients c e e3 L).
    - done.
    - rewrite K4. apply S3.
    - intros p Hp. unfold the_port in *. rewrite P4 in *. rewrite <- (sh_ids c e e3 (lv_shrinks c e e3 L)).
      by apply (is_ports c e3 S3).
    - rewrite B4. apply Z3.
    - intros d Hne. rewrite V4 by done. by apply L.
    - intros d Hne Hi. destruct (shrinks_isolated c d e e3 (lv_shrinks c e e3 L) Hne Hi) as [X1 X2 X3].
      specialize (W4 d Hne). unfold cview in W4. injection W4 as W1 _ W3 _ _ _.
      constructor; [by rewrite K4| |congruence]. intros p. unfold the_port. rewrite P4, W1. apply X2.
    - intros d Hne Hz. destruct (leaves_zombie c d e e3 L Hne Hz) as [X1 X2 X3 X4].
      specialize (V4 d Hne). unfold lview, tview in V4. injection V4 as V1 V2 _ _ V5 _ _ _ _.
      constructor; congruence.
    - intros Hids. destruct (leaves_ids c e e3 L Hids) as [X1 X2 X3]. constructor; rewrite Ni4; [done| |].
      + intros d Hd'. apply C4 in Hd' as [Hd' Hne]. specialize (V4 d Hne). unfold lview in V4.
        injection V4 as _ _ _ _ _ _ V7 _ _. rewrite V7. by apply X2.
      + intros p. unfold the_port. rewrite P4. apply X3.
    - rewrite Nz4. apply L. }
  clearbody e5. destruct E5 as [->| ->]; [by split_and!|]. split_and!.
  - apply (server_frame_inv e4); [by constructor|done].
  - by destruct T4 as ([] & ? & []).
  - destruct R4 as [R1 R2 R3 R4 R5 R6 R7 R8 R10 R9]. constructor; try done.
    + intros d Hne Hi. destruct (R7 d Hne Hi). by constructor.
    + intros d Hne Hz. destruct (R8 d Hne Hz). by constructor.
    + intros Hids. destruct (R10 Hids). by constructor.
Qed.

End removal.
End Lifecycle.
