(* ===== verification/Removal.v ===== *)
(** * Failed clients are removed, and the walk over them ends

    [jack_remove_clients] walks the client list while the removals it makes
    sort that same list.  It ends nevertheless: every removal settles one
    client for good, and between two removals the walk only moves forward. *)

From S2P Require Import Prelude JSList Engine Transport Events Graph GraphInv Connect.
From S2P Require Import GraphFrame Ports PortsInv Clients ClientsInv Frames Lifecycle.

Local Open Scope Z_scope.

Module Removal.
Import JSList Transport Events Graph GraphInv Connect GraphFrame Ports PortsInv Clients ClientsInv
  Frames Lifecycle.

(** The invariant of the whole engine. *)
Record engine_inv (e : engine) : Prop := {
  ei_server : server_inv e;
  ei_transport : transport_inv e;
  ei_zombies : forall d, d ∈ clients e -> dead (the_client e d) = true -> isolated d e /\ zombie d e;
  ei_ids : ids_inv e
}.

Lemma isolated_frame d e e' :
  graph_frame e e' -> conn_store e' = conn_store e -> isolated d e -> isolated d e'.
Proof.
  intros F K [S1 S2 S3]. constructor.
  - by rewrite K.
  - intros p. rewrite (graph_frame_port in_use e e'), (graph_frame_port client_id e e'),
      (graph_frame_client c_id e e') by done. apply S2.
  - by rewrite (graph_frame_client c_ports e e').
Qed.

Lemma zombie_frame d e e' : transport_frame e e' -> zombie d e -> zombie d e'.
Proof.
  intros F [Z1 Z2 Z3 Z4]. pose proof (transport_frame_view e e' d F) as E. unfold lview, tview in E.
  injection E as E1 E2 _ _ E5 _ _ _ _. constructor; try congruence. by rewrite (tf_timebase e e' F).
Qed.

(** Graph operations that keep the connections keep the invariant. *)
Lemma engine_inv_frame e e' :
  graph_frame e e' -> same_graph e e' -> engine_inv e -> engine_inv e'.
Proof.
  intros F S [I T Z N]. pose proof (graph_frame_transport e e' F) as Ft. constructor.
  - apply (server_inv_frame e); [done| |done]. by apply (graph_inv_same e), I.
  - by apply (transport_frame_inv e).
  - intros d Hd Hdd. rewrite (gf_clients e e' F) in Hd.
    pose proof (transport_frame_view e e' d Ft) as E. unfold lview, tview in E. injection E as _ E2 _ _ _ _ _ _ _.
    destruct (Z d Hd) as [Hi Hz]; [congruence|].
    split; [by apply (isolated_frame d e); [|apply S|]|by apply (zombie_frame d e)].
  - apply (leaves_ids 0%nat e); [|done]. apply leaves_tframe; [done|]. constructor.
    + intros k x. rewrite (sg_conns e e' S). eauto.
    + intros p. by rewrite (graph_frame_port in_use e e'), (graph_frame_port client_id e e').
    + intros d _. by apply (graph_frame_client c_ports).
    + intros d. by apply (graph_frame_client c_id).
Qed.

Section removal.
Context (env : environment) (finish : client_ptr -> engine -> engine) `{!FinishOk finish}.

(** Removal and zombification keep the invariant of the engine. *)
Lemma remove_client_keeps c e :
  engine_inv e -> c ∈ clients e ->
  let e' := outcome_engine (jack_remove_client env finish c e) in engine_inv e' /\ removed c e e'.
Proof.
  intros [I T Z N] Hc. cbn zeta.
  destruct (remove_spec env finish c e I T Hc (Z c Hc)) as (I' & T' & R).
  set (e' := outcome_engine _) in *. clearbody e'. split; [|done].
  constructor; [done|done| |by apply R]. intros d Hd Hdd. apply (rm_clients c e e' R) in Hd as [Hd Hne].
  pose proof (rm_others c e e' R d Hne) as E. unfold lview, tview in E. injection E as _ E2 _ _ _ _ _ _ _.
  destruct (Z d Hd) as [Hi Hz]; [congruence|].
  split; [by apply (rm_isolated c e e' R)|by apply (rm_zombie c e e' R)].
Qed.

Lemma zombify_keeps c e :
  engine_inv e -> c ∈ clients e ->
  let e' := jack_zombify_client env c e in engine_inv e' /\ zombie c e' /\ leaves c e e'.
Proof.
  intros [I T Z N] Hc. cbn zeta. destruct (zombify_spec env c e I T Hc) as (I' & T' & S & Zc & L).
  set (e' := jack_zombify_client env c e) in *. clearbody e'. split_and!; [|done|done].
  constructor; [done|done| |by apply (leaves_ids c e)]. intros d Hd Hdd. destruct (decide (d = c)) as [->|Hne]; [done|].
  rewrite (lv_clients c e e' L) in Hd.
  pose proof (lv_others c e e' L d Hne) as E. unfold lview, tview in E. injection E as _ E2 _ _ _ _ _ _ _.
  destruct (Z d Hd) as [Hi Hz]; [congruence|].
  split; [by apply (shrinks_isolated c d e e'); [apply L|..]|by apply (leaves_zombie c d e e')].
Qed.

Lemma error_reset_inv c n e : engine_inv e -> engine_inv (upd_client c (fun x => x <| c_error := n |>) e).
Proof.
  intros [I T Z N]. set (e' := upd_client c _ e).
  assert (F : server_frame e e') by (by apply server_frame_client).
  assert (V : forall d, tview (the_client e' d) = tview (the_client e d))
    by (intros d; by apply (the_client_upd_field e c d _ tview)).
  constructor; [by apply (server_frame_inv e)|by apply transport_inv_frame| |].
  2:{ apply (leaves_ids c e); [by apply leaves_upd|done]. }
  intros d Hd Hdd. specialize (V d). unfold tview in V. injection V as V1 V2 _ _ V5 _.
  destruct (Z d Hd) as [[S1 S2 S3] [Z1 Z2 Z3 Z4]]; [congruence|]. split; constructor; try done; try congruence.
  - intros p. unfold e'. rewrite (the_client_upd_field e c d _ c_id) by done. apply S2.
  - unfold e'. by rewrite (the_client_upd_field e c d _ c_ports).
Qed.

(** C11: Removing a client keeps all invariants of the engine and leaves
    nothing of it: not in the client list, not in the heap, in no connection
    and in no feeds list, owning no port in use, not timebase master. *)
Theorem remove_client_correct c e :
  engine_inv e -> c ∈ clients e ->
  let e' := outcome_engine (jack_remove_client env finish c e) in
  engine_inv e' /\ (c ∉ clients e') /\ (forall d, d ∈ clients e -> d <> c -> d ∈ clients e') /\
  client_store e' !! c = None /\
  (forall k x, conn_store e' !! k = Some x -> srcclient x <> c /\ dstclient x <> c) /\
  (forall d, d ∈ clients e' -> (c ∉ truefeeds (the_client e' d)) /\ (c ∉ sortfeeds (the_client e' d))) /\
  (forall p, in_use (the_port e' p) = true -> client_id (the_port e' p) <> c_id (the_client e c)) /\
  timebase_client e' <> Some c.
Proof.
  intros H Hc. cbn zeta. destruct (remove_client_keeps c e H Hc) as [H' R].
  set (e' := outcome_engine _) in *. clearbody e'. split_and!; try apply R.
  - done.
  - intros Hin. apply (rm_clients c e e' R) in Hin as [_ []]. done.
  - intros d Hd Hne. by apply (rm_clients c e e' R).
  - intros d Hd. pose proof (sv_graph e' (ei_server e' H')) as G. split; intros Hin.
    + rewrite (gi_truefeeds e' G d Hd) in Hin. apply list_elem_of_omap in Hin as (x & Hx & E).
      apply conn_list_lookup in Hx as [k Hk]. destruct (rm_conns c e e' R k x Hk) as [_ Hn].
      unfold true_target in E. destruct (_ && _); [|done]. congruence.
    + rewrite (gi_sortfeeds e' G d Hd) in Hin. apply list_elem_of_omap in Hin as (x & Hx & E).
      apply conn_list_lookup in Hx as [k Hk]. destruct (rm_conns c e e' R k x Hk) as [Hs Hn].
      unfold sort_target in E. destruct (is_edge e' x); [|done].
      destruct (dir x =? 1); destruct (decide _); try done; congruence.
Qed.

(** ** The walk *)

(** A dead client without failures is never touched again. *)
Definition unsettled (e : engine) (c : client_ptr) : bool :=
  negb (dead (the_client e c) && (c_error (the_client e c) =? 0)).

Definition unsettled_count (e : engine) : Z := countb (unsettled e) (clients e).

Lemma lview_settled e e' d :
  lview (the_client e' d) = lview (the_client e d) -> unsettled e d = false -> unsettled e' d = false.
Proof.
  intros E. unfold lview, tview in E. injection E as _ E2 _ _ _ _ _ _ E9. unfold unsettled.
  destruct (dead (the_client e d)); [|done]. cbn. rewrite negb_false_iff. intros H.
  rewrite E2 in *. by rewrite E9, H.
Qed.

Lemma countb_le {A} (p q : A -> bool) l : (forall x, x ∈ l -> q x = false -> p x = false) -> countb p l <= countb q l.
Proof.
  induction l as [|x l IH]; intros H; [done|]. rewrite !countb_cons.
  assert (countb p l <= countb q l) by (apply IH; intros y Hy; apply H; by right).
  destruct (p x) eqn:Ep, (q x) eqn:Eq; cbn; try lia. rewrite (H x) in Ep by (done || left). done.
Qed.

(** Settling [c], or removing it, lowers the count. *)
Lemma settle_one c l l' (p q : client_ptr -> bool) :
  NoDup l -> NoDup l' -> c ∈ l -> (forall d, d ∈ l' -> d ∈ l) -> q c = true ->
  (c ∈ l' -> p c = false) -> (forall d, d <> c -> q d = false -> p d = false) ->
  countb p l' < countb q l.
Proof.
  intros Hl Hl' Hc Hsub Hqc Hpc Hother. unfold countb.
  assert (Hin : c :: filter (fun d => p d = true) l' ⊆+ filter (fun d => q d = true) l).
  { apply NoDup_submseteq.
    - constructor; [|by apply NoDup_filter]. rewrite list_elem_of_filter. intros [Hp Hin].
      by rewrite (Hpc Hin) in Hp.
    - intros d Hd. apply list_elem_of_filter. apply elem_of_cons in Hd as [->|Hd]; [done|].
      apply list_elem_of_filter in Hd as [Hp Hd]. split; [|by apply Hsub].
      destruct (decide (d = c)) as [->|Hne]; [done|].
      destruct (q d) eqn:Eq; [done|]. by rewrite (Hother d Hne Eq) in Hp. }
  apply submseteq_length in Hin. cbn [length] in Hin. lia.
Qed.

(** The nodes from [c] on. *)
Fixpoint rest_length (l : list client_ptr) (c : client_ptr) : nat :=
  match l with
  | [] => 0
  | x :: l => if decide (x = c) then S (length l) else rest_length l c
  end.

Definition remaining (e : engine) (node : option client_ptr) : nat :=
  match node with Some c => rest_length (clients e) c | None => 0 end.

Lemma rest_length_bound l c : (rest_length l c <= length l)%nat.
Proof. induction l as [|x l IH]; cbn; [done|]. case_decide; lia. Qed.

Lemma next_node_spec l c :
  NoDup l -> c ∈ l ->
  match next_node l c with
  | Some d => d ∈ l /\ d <> c /\ (rest_length l d < rest_length l c)%nat
  | None => True
  end /\ (0 < rest_length l c)%nat.
Proof.
  induction 1 as [|x l Hx Hl IH]; [intros Hc; by apply not_elem_of_nil in Hc|].
  intros Hc. cbn [next_node rest_length]. destruct (decide (x = c)) as [->|Hne].
  - split; [|lia]. destruct l as [|y l]; [done|]. cbn [head]. apply not_elem_of_cons in Hx as [Hxy Hx].
    split_and!; [set_solver|done|]. rewrite decide_False by done. cbn. rewrite decide_True by done. lia.
  - apply elem_of_cons in Hc as [->|Hc]; [done|]. destruct (IH Hc) as [Hn Hp]. split; [|done].
    destruct (next_node l c) as [d|]; [|done]. destruct Hn as (Hd & Hdc & Hlt).
    split_and!; [by right|done|]. rewrite decide_False; [done|]. intros ->. done.
Qed.

(** One failed client: what a removal or zombification amounts to. *)
Record handled (c : client_ptr) (e e' : engine) : Prop := {
  hd_inv : engine_inv e';
  hd_sub : forall d, d ∈ clients e' -> d ∈ clients e;
  hd_kept : forall d, d ∈ clients e -> d <> c -> d ∈ clients e';
  hd_settled : c ∈ clients e' -> unsettled e' c = false;
  hd_others : forall d, d <> c -> lview (the_client e' d) = lview (the_client e d)
}.

Lemma handled_count c e e' :
  engine_inv e -> c ∈ clients e -> c_error (the_client e c) <> 0 -> handled c e e' ->
  unsettled_count e' < unsettled_count e.
Proof.
  intros H Hc He [H' Hs Hk Hz Ho]. apply (settle_one c); try done.
  - apply H.
  - apply H'.
  - unfold unsettled. rewrite (proj2 (Z.eqb_neq _ _) He). by rewrite andb_false_r.
  - intros d Hne. apply lview_settled. by apply Ho.
Qed.

Lemma remove_handled c e :
  engine_inv e -> c ∈ clients e -> handled c e (outcome_engine (jack_remove_client env finish c e)).
Proof.
  intros H Hc. destruct (remove_client_keeps c e H Hc) as [H' R].
  set (e' := outcome_engine _) in *. clearbody e'. constructor; [done| | | |by apply R].
  - intros d Hd. by apply (rm_clients c e _ R) in Hd as [Hd _].
  - intros d Hd Hne. by apply (rm_clients c e _ R).
  - intros Hd. apply (rm_clients c e _ R) in Hd as [_ []]. done.
Qed.

Lemma zombify_handled c e :
  engine_inv e -> c ∈ clients e ->
  handled c e (upd_client c (fun x => x <| c_error := 0 |>) (jack_zombify_client env c e)).
Proof.
  intros H Hc. pose proof (zombify_keeps c e H Hc) as Hk. cbv zeta in Hk. revert Hk.
  generalize (jack_zombify_client env c e). intros e1 (H' & Hz & L).
  assert (Hs : is_Some (client_store e1 !! c)) by (apply (gi_store e1 (sv_graph e1 (ei_server e1 H'))); by rewrite (lv_clients c e e1 L)).
  constructor.
  - exact (error_reset_inv c 0 e1 H').
  - intros d. change (d ∈ clients e1 -> d ∈ clients e). by rewrite (lv_clients c e e1 L).
  - intros d Hd _. change (d ∈ clients e1). by rewrite (lv_clients c e e1 L).
  - intros _. unfold unsettled. rewrite the_client_upd, decide_True by done.
    change (negb (dead (the_client e1 c) && true) = false). by rewrite (zb_dead c e1 Hz).
  - intros d Hne. rewrite the_client_upd_ne by done. by apply L.
Qed.

Lemma remove_failed_spec c fw e :
  engine_inv e -> c ∈ clients e ->
  let o := (remove_failed env finish c fw e).2 in
  o = Continues e \/ handled c e (outcome_engine o).
Proof.
  intros H Hc. cbn zeta. unfold remove_failed. cbn [snd].
  destruct (_ >=? _); [right; by apply remove_handled|].
  destruct (negb _); [right; by apply zombify_handled|by left].
Qed.

Lemma remove_loop_spec n fuel node ns fw e :
  engine_inv e -> match node with Some c => c ∈ clients e | None => True end ->
  (length (clients e) <= n)%nat ->
  unsettled_count e * Z.of_nat (S n) + Z.of_nat (remaining e node) < Z.of_nat fuel ->
  exists ns' fw' o, remove_loop env finish fuel node ns fw e = Some (ns', fw', o) /\
    engine_inv (outcome_engine o) /\ forall d, d ∈ clients (outcome_engine o) -> d ∈ clients e.
Proof.
  revert node ns fw e. induction fuel as [|fuel IH]; intros node ns fw e H Hn Hl Hf.
  { pose proof (countb_nonneg (unsettled e) (clients e)). unfold unsettled_count in Hf. lia. }
  cbn [remove_loop]. destruct node as [c|]; [|by exists ns, fw, (Continues e)].
  pose proof (next_node_spec (clients e) c (gi_nodup e (sv_graph e (ei_server e H))) Hn) as [Hnext Hpos].
  set (tmp := next_node (clients e) c) in *. clearbody tmp.
  assert (Hsame : forall ns' fw', exists ns'' fw'' o,
    remove_loop env finish fuel tmp ns' fw' e = Some (ns'', fw'', o) /\
    engine_inv (outcome_engine o) /\ forall d, d ∈ clients (outcome_engine o) -> d ∈ clients e).
  { intros ns' fw'. apply IH; [done|by destruct tmp; [apply Hnext|]|done|].
    cbn [remaining] in Hf. destruct tmp as [t|]; cbn [remaining]; lia. }
  destruct (Z.eqb_spec (c_error (the_client e c)) 0) as [|He]; cbn [negb]; [apply Hsame|].
  pose proof (remove_failed_spec c fw e H Hn) as Hr. destruct (remove_failed env finish c fw e) as [fw1 o].
  cbn [snd] in Hr. destruct Hr as [->|Hh]; [apply Hsame|].
  destruct o as [e1|e1]; cbn [outcome_engine] in Hh.
  2:{ exists true, fw1, (Terminates e1). split; [done|]. split; apply Hh. }
  pose proof (handled_count c e e1 H Hn He Hh) as Hc.
  assert (Hl1 : (length (clients e1) <= n)%nat).
  { etrans; [|exact Hl]. apply submseteq_length, NoDup_submseteq; [apply (hd_inv c e e1 Hh)|apply Hh]. }
  destruct (IH tmp true fw1 e1) as (ns2 & fw2 & o2 & E2 & H2 & S2).
  - apply Hh.
  - destruct tmp as [t|]; [|done]. destruct Hnext as (H1 & H2 & _). by apply (hd_kept c e e1 Hh).
  - done.
  - assert (remaining e1 tmp <= n)%nat.
    { destruct tmp as [t|]; cbn; [|lia]. pose proof (rest_length_bound (clients e1) t). lia. }
    nia.
  - exists ns2, fw2, o2. split_and!; [done|done|]. intros d Hd. by apply (hd_sub c e e1 Hh), S2.
Qed.

Lemma remove_clients_spec fw e :
  engine_inv e ->
  exists fw' o, jack_remove_clients env finish fw e = Some (fw', o) /\ engine_inv (outcome_engine o) /\
    forall d, d ∈ clients (outcome_engine o) -> d ∈ clients e.
Proof.
  intros H. unfold jack_remove_clients, remove_fuel. set (n := length (clients e)).
  destruct (remove_loop_spec n (S n * S n) (head (clients e)) false fw e) as (ns & fw' & o & E & H' & S); try done.
  - destruct (clients e); [done|]. cbn. left.
  - assert (unsettled_count e <= Z.of_nat n).
    { unfold unsettled_count, countb. pose proof (length_filter (fun x => unsettled e x = true) (clients e)). lia. }
    assert (remaining e (head (clients e)) <= n)%nat.
    { destruct (head (clients e)); cbn; [|lia]. apply rest_length_bound. }
    pose proof (countb_nonneg (unsettled e) (clients e)). unfold unsettled_count in *. nia.
  - rewrite E. destruct ns, o as [e1|e1]; cbn [outcome_engine] in *; eauto 10.
    exists fw', (Continues (jack_sort_graph env e1)). cbn [outcome_engine]. split_and!; [done| |].
    + apply (engine_inv_frame e1); [apply frame_sort_graph|apply same_graph_sort|done].
    + intros d Hd. apply S. by rewrite (gf_clients e1 _ (frame_sort_graph env e1)) in Hd.
Qed.

(** C35: [jack_remove_clients] ends, although it walks a list its own removals
    sort, keeps all invariants of the engine, and brings in no client. *)
Theorem remove_clients_correct fw e :
  engine_inv e ->
  exists fw' o, jack_remove_clients env finish fw e = Some (fw', o) /\ engine_inv (outcome_engine o) /\
    forall d, d ∈ clients (outcome_engine o) -> d ∈ clients e.
Proof. exact (remove_clients_spec fw e). Qed.

End removal.
End Removal.
