(* ===== verification/Activation.v ===== *)
(** * Joining and leaving: creation, activation, deactivation

    The operations of server/clientengine.c that a client asks for, each
    keeping the invariant of the engine. *)

From S2P Require Import Prelude JSList Engine Transport Events Graph GraphInv Connect.
From S2P Require Import GraphFrame Ports PortsInv Clients ClientsInv Frames Lifecycle Removal.

Local Open Scope Z_scope.

Module Activation.
Import JSList Transport Events Graph GraphInv Connect GraphFrame Ports PortsInv Clients ClientsInv
  Frames Lifecycle Removal.

Lemma engine_inv_event e e' : event_frame e e' -> engine_inv e -> engine_inv e'.
Proof.
  intros F. apply engine_inv_frame; [by apply graph_frame_event|by apply same_graph_event].
Qed.

(** Changes of [c] alone that matter to nobody else. *)
Lemma engine_inv_leaves c e e' :
  engine_inv e -> server_inv e' -> transport_inv e' -> leaves c e e' ->
  (dead (the_client e' c) = true -> isolated c e' /\ zombie c e') -> engine_inv e'.
Proof.
  intros [I T Z N] I' T' L Hc. constructor; [done|done| |by apply (leaves_ids c e)].
  intros d Hd Hdd. destruct (decide (d = c)) as [->|Hne]; [by apply Hc|].
  rewrite (lv_clients c e e' L) in Hd.
  pose proof (lv_others c e e' L d Hne) as E. unfold lview, tview in E. injection E as _ E2 _ _ _ _ _ _ _.
  destruct (Z d Hd) as [Hi Hz]; [congruence|].
  split; [by apply (shrinks_isolated c d e e'); [apply L|..]|by apply (leaves_zombie c d e e')].
Qed.

(** The connections change, the ports do not. *)
Lemma engine_inv_graph e e' :
  graph_frame e e' -> graph_inv e' ->
  (forall k x d, conn_store e' !! k = Some x -> d ∈ clients e -> dead (the_client e d) = true ->
     srcclient x <> d /\ dstclient x <> d) ->
  engine_inv e -> engine_inv e'.
Proof.
  intros F G Hz [I T Z N]. pose proof (graph_frame_transport e e' F) as Ft.
  assert (V : forall d, dead (the_client e' d) = dead (the_client e d))
    by (intros d; by apply (graph_frame_client dead)).
  constructor; [by apply (server_inv_frame e)|by apply (transport_frame_inv e)| |].
  - intros d Hd Hdd. rewrite (gf_clients e e' F) in Hd. rewrite V in Hdd.
    destruct (Z d Hd Hdd) as [[S1 S2 S3] Hzd]. split; [|by apply (zombie_frame d e)]. constructor.
    + intros k x Hx. by apply (Hz k).
    + intros p. rewrite (graph_frame_port in_use e e'), (graph_frame_port client_id e e'),
        (graph_frame_client c_id e e') by done. apply S2.
    + by rewrite (graph_frame_client c_ports e e').
  - destruct N as [N1 N2 N3]. constructor; rewrite (tf_next_id e e' Ft); [done| |].
    + intros d. rewrite (gf_clients e e' F), (graph_frame_client c_id e e') by done. apply N2.
    + intros p. rewrite (graph_frame_port in_use e e'), (graph_frame_port client_id e e') by done. apply N3.
Qed.

(** The two ends of a connection, whatever its direction in the sort. *)
Definition same_ends (x x' : connection) : Prop :=
  source x' = source x /\ destination x' = destination x /\
  srcclient x' = srcclient x /\ dstclient x' = dstclient x.

(** ** Activation *)

Lemma activate_others c d e : d <> c -> the_client (jack_transport_activate c e) d = the_client e d.
Proof.
  intros Hd. assert (U : forall f e, the_client (upd_client c f e) d = the_client e d)
    by (intros f e0; by apply the_client_upd_ne).
  unfold jack_transport_activate. cbv zeta. set (e1 := if is_slowsync _ then _ else e).
  assert (E1 : the_client e1 d = the_client e d).
  { unfold e1. destruct (is_slowsync _); [|done]. unfold jack_sync_poll_new. cbv zeta.
    set (e2 := upd_control (fun t => t <| sync_clients ::= Z.succ |>) _).
    assert (E2 : the_client e2 d = the_client e d) by exact (U _ e). clearbody e2.
    set (e3 := upd_client c (fun x => x <| sync_new := true |>) _).
    assert (E3 : the_client e3 d = the_client e2 d) by exact (U _ _). clearbody e3.
    set (e4 := if negb _ then _ else e3).
    assert (E4 : the_client e4 d = the_client e3 d) by (unfold e4; destruct (negb _); [exact (U _ _)|done]).
    clearbody e4. rewrite <- E2, <- E3, <- E4. by destruct (decide _). }
  clearbody e1. rewrite <- E1. destruct (is_timebase _); [apply U|done].
Qed.

Lemma activate_keeps {A} (g : engine -> A) c e :
  (forall f e, g (upd_client c f e) = g e) -> (forall f e, g (upd_control f e) = g e) ->
  g (jack_transport_activate c e) = g e.
Proof.
  intros U C. unfold jack_transport_activate. cbv zeta. set (e1 := if is_slowsync _ then _ else e).
  assert (E1 : g e1 = g e).
  { unfold e1. destruct (is_slowsync _); [|done]. unfold jack_sync_poll_new. cbv zeta.
    set (e2 := upd_control (fun t => t <| sync_clients ::= Z.succ |>) _).
    assert (E2 : g e2 = g e) by (transitivity (g (upd_client c (fun x => x <| active_slowsync := true |>) e));
      [exact (C _ _)|exact (U _ e)]). clearbody e2.
    set (e3 := upd_client c (fun x => x <| sync_new := true |>) _).
    assert (E3 : g e3 = g e2) by (etransitivity; [exact (U _ _)|exact (C _ _)]). clearbody e3.
    set (e4 := if negb _ then _ else e3).
    assert (E4 : g e4 = g e3)
      by (unfold e4; destruct (negb _); [|done]; etransitivity; [exact (C _ _)|exact (U _ _)]).
    clearbody e4. rewrite <- E2, <- E3, <- E4. destruct (decide _); [exact (C _ _)|done]. }
  clearbody e1. rewrite <- E1. destruct (is_timebase _); [apply U|done].
Qed.

(** What the activation keeps of the client itself. *)
Lemma activate_self {A} (g : client -> A) c e :
  (forall x b, g (x <| timebase_new := b |>) = g x) -> (forall x b, g (x <| active_slowsync := b |>) = g x) ->
  (forall x b, g (x <| sync_poll := b |>) = g x) -> (forall x b, g (x <| sync_new := b |>) = g x) ->
  g (the_client (jack_transport_activate c e) c) = g (the_client e c).
Proof.
  intros G1 G2 G3 G4.
  assert (U : forall f e, (forall x, g (f x) = g x) -> g (the_client (upd_client c f e) c) = g (the_client e c))
    by (intros f e0; by apply the_client_upd_field).
  unfold jack_transport_activate. cbv zeta. set (e1 := if is_slowsync _ then _ else e).
  assert (E1 : g (the_client e1 c) = g (the_client e c)).
  { unfold e1. destruct (is_slowsync _); [|done]. unfold jack_sync_poll_new. cbv zeta.
    set (e2 := upd_control (fun t => t <| sync_clients ::= Z.succ |>) _).
    assert (E2 : g (the_client e2 c) = g (the_client e c)) by (refine (U _ e _); intros x; apply G2). clearbody e2.
    set (e3 := upd_client c (fun x => x <| sync_new := true |>) _).
    assert (E3 : g (the_client e3 c) = g (the_client e2 c)) by (refine (U _ _ _); intros x; apply G4). clearbody e3.
    set (e4 := if negb _ then _ else e3).
    assert (E4 : g (the_client e4 c) = g (the_client e3 c))
      by (unfold e4; destruct (negb _); [refine (U _ _ _); intros x; apply G3|done]).
    clearbody e4. rewrite <- E2, <- E3, <- E4. by destruct (decide _). }
  clearbody e1. rewrite <- E1. destruct (is_timebase _); [apply U; intros x; apply G1|done].
Qed.

Section io.
Context (env : environment).

Lemma activate_client_inv c e :
  engine_inv e -> c ∈ clients e -> active (the_client e c) = false -> dead (the_client e c) = false ->
  let e' := activate_client c e in
  engine_inv e' /\ clients e' = clients e /\ active (the_client e' c) = true /\
  dead (the_client e' c) = false /\ (forall d, d <> c -> the_client e' d = the_client e d).
Proof.
  intros H Hc Ha Hd. cbn zeta. pose proof (activate_transport c e (ei_transport e H) Hc Ha) as T.
  unfold activate_client in *. set (e1 := upd_client c _ e) in *.
  assert (Hs : is_Some (client_store e !! c)) by (by apply (ei_transport e H)).
  assert (E1 : the_client e1 c = the_client e c <| active := true |>)
    by (unfold e1; by rewrite the_client_upd, decide_True).
  assert (O1 : forall d, d <> c -> the_client e1 d = the_client e d)
    by (intros d Hne; unfold e1; by apply the_client_upd_ne).
  assert (F1 : server_frame e e1) by (by apply server_frame_client).
  assert (K : timebase_client e1 = timebase_client e /\ nozombies e1 = nozombies e /\
              next_client_id e1 = next_client_id e) by done. clearbody e1.
  pose proof (transport_activate_frame c e1) as F2.
  pose proof (activate_keeps timebase_client c e1 ltac:(done) ltac:(done)) as K1.
  pose proof (activate_keeps nozombies c e1 ltac:(done) ltac:(done)) as K2.
  pose proof (activate_keeps next_client_id c e1 ltac:(done) ltac:(done)) as K3.
  pose proof (activate_self active c e1 ltac:(done) ltac:(done) ltac:(done) ltac:(done)) as A1.
  pose proof (activate_self dead c e1 ltac:(done) ltac:(done) ltac:(done) ltac:(done)) as A2.
  assert (O2 : forall d, d <> c -> the_client (jack_transport_activate c e1) d = the_client e1 d)
    by (intros d Hne; by apply activate_others).
  set (e2 := jack_transport_activate c e1) in *. clearbody e2. rewrite E1 in A1, A2. cbn in A1, A2.
  assert (F : server_frame e e2) by (by transitivity e1).
  assert (L : leaves c e e2).
  { destruct K as (K4 & K5 & K6). constructor; try congruence.
    - by rewrite (fr_clients e e2 F).
    - intros d Hne. by rewrite O2, O1.
    - by apply shrinks_server_frame.
    - left. congruence. }
  split_and!; [|by apply F|done|congruence|intros d Hne; by rewrite O2, O1].
  apply (engine_inv_leaves c e); [done|by apply (server_frame_inv e), H|done|done|].
  rewrite A2, Hd. done.
Qed.

Lemma activate_spec id e :
  engine_inv e ->
  (forall c, jack_client_internal_by_id e id = Some c ->
     active (the_client e c) = false /\ dead (the_client e c) = false) ->
  let '(ret, e') := jack_client_activate env id e in
  engine_inv e' /\
  (ret = -1 /\ e' = e /\ jack_client_internal_by_id e id = None \/
   ret = 0 /\ exists c, jack_client_internal_by_id e id = Some c /\ active (the_client e' c) = true /\
     forall d, d <> c -> active (the_client e' d) = active (the_client e d)).
Proof.
  intros H Hpre. unfold jack_client_activate.
  destruct (jack_client_internal_by_id e id) as [c|] eqn:Eid; [|split; [done|by left]].
  destruct (Hpre c eq_refl) as [Ha Hd]. pose proof Eid as Hin. apply by_id_member in Hin as [Hc _].
  destruct (activate_client_inv c e H Hc Ha Hd) as (H1 & C1 & A1 & D1 & O1). cbv zeta in *.
  change (jack_transport_activate c (upd_client c (fun x => x <| active := true |>) e)) with (activate_client c e).
  set (e1 := activate_client c e) in *. clearbody e1.
  set (e2 := e1 <| external_client_cnt ::= Z.succ |>).
  assert (H2 : engine_inv e2).
  { apply (engine_inv_leaves c e1); [done|apply (server_frame_inv e1), H1; by constructor|..].
    - by destruct H1 as [_ ([] & ? & []) _ _].
    - constructor; auto. by apply shrinks_same.
    - change (the_client e2 c) with (the_client e1 c). by rewrite D1. }
  assert (V2 : forall d, the_client e2 d = the_client e1 d) by done. clearbody e2.
  assert (F2 : graph_frame e2 (jack_sort_graph env (jack_get_fifo_fd env (external_client_cnt e2) e2).2)).
  { etrans; [apply frame_fifo|apply frame_sort_graph]. }
  assert (S2 : same_graph e2 (jack_sort_graph env (jack_get_fifo_fd env (external_client_cnt e2) e2).2)).
  { etrans; [apply same_graph_fifo|apply same_graph_sort]. }
  set (e3 := jack_sort_graph env _) in *. clearbody e3.
  pose proof (engine_inv_frame e2 e3 F2 S2 H2) as H3.
  assert (V3 : forall d, active (the_client e3 d) = active (the_client e2 d))
    by (intros d; by apply (graph_frame_client active)).
  set (e4 := foldl _ e3 (seq _ _)).
  assert (F4 : event_frame e3 e4).
  { unfold e4. generalize (seq 0 (length (port_types e3))) as l. intros l. clear.
    revert e3. induction l as [|i l IH]; intros e3; [done|]. cbn [foldl]. etrans; [|apply IH]. apply deliver_frame. }
  clearbody e4. set (e5 := (jack_deliver_event env c BufferSizeChange e4).2).
  assert (F5 : event_frame e4 e5) by apply deliver_frame. clearbody e5.
  set (e6 := foldl _ e5 _).
  assert (F6 : event_frame e5 e6).
  { unfold e6. generalize (c_ports (the_client e5 c)) as l. intros l. clear.
    revert e5. induction l as [|i l IH]; intros e5; [done|]. cbn [foldl]. etrans; [|apply IH].
    apply deliver_where_frame. }
  clearbody e6. assert (F : event_frame e3 e6) by (transitivity e4; [done|]; by transitivity e5).
  split; [by apply (engine_inv_event e3)|]. right. split; [done|]. exists c. split; [done|].
  split; [by rewrite (event_frame_field active e3 e6), V3, V2|]. intros d Hne.
  rewrite (event_frame_field active e3 e6), V3, V2 by done. by rewrite O1.
Qed.

(** Activating a client that is neither active nor dead keeps the
    invariant of the engine and makes the client active; an unknown id is
    refused and changes nothing. *)
Theorem activate_correct id e :
  engine_inv e ->
  (forall c, jack_client_internal_by_id e id = Some c ->
     active (the_client e c) = false /\ dead (the_client e c) = false) ->
  let '(ret, e') := jack_client_activate env id e in
  engine_inv e' /\
  (ret = -1 /\ e' = e /\ jack_client_internal_by_id e id = None \/
   ret = 0 /\ exists c, jack_client_internal_by_id e id = Some c /\ active (the_client e' c) = true /\
     forall d, d <> c -> active (the_client e' d) = active (the_client e d)).
Proof. exact (activate_spec id e). Qed.

(** ** Deactivation *)

(** Clearing every port of a list. *)
Lemma clear_all l e :
  engine_inv e -> (forall p, p ∈ l -> (p < length (ports e))%nat) ->
  let e' := foldl (fun e p => jack_port_clear_connections env p e) e l in
  engine_inv e' /\ graph_frame e e' /\
  (forall k x', conn_store e' !! k = Some x' ->
     (source x' ∉ l) /\ (destination x' ∉ l) /\
     exists x, conn_store e !! k = Some x /\ same_ends x x') /\
  (forall k x, conn_store e !! k = Some x -> source x ∉ l -> destination x ∉ l ->
     exists x', conn_store e' !! k = Some x' /\ same_ends x x').
Proof.
  revert e. induction l as [|p l IH]; intros e H Hl; cbn [foldl].
  { split_and!; [done|done| |].
    - intros k x Hk. split_and!; [set_solver..|]. exists x. by repeat split.
    - intros k x Hk _ _. exists x. by repeat split. }
  destruct (clear_connections_spec env p e (sv_graph e (ei_server e H)) (Hl p ltac:(left)))
    as (G1 & _ & N1 & K1 & S1). cbv zeta in *.
  pose proof (frame_clear_connections env p e) as F1.
  set (e1 := jack_port_clear_connections env p e) in *. clearbody e1.
  assert (H1 : engine_inv e1).
  { apply (engine_inv_graph e); [done|done| |done]. intros k x' d Hx' Hd Hdd.
    destruct (S1 k x' Hx') as (x & Hx & _ & _ & -> & ->).
    by apply (is_conns d e (proj1 (ei_zombies e H d Hd Hdd)) k). }
  destruct (IH e1 H1) as (H2 & F2 & N2 & K2).
  { intros q Hq. rewrite (graph_frame_length e e1 F1). apply Hl. by right. }
  cbv zeta in *. set (e2 := foldl _ e1 l) in *. clearbody e2.
  split_and!; [done|by transitivity e1| |].
  - intros k x2 Hx2. destruct (N2 k x2 Hx2) as (A1 & A2 & x1 & Hx1 & E1).
    destruct (N1 k x1 Hx1) as [B1 B2], (S1 k x1 Hx1) as (x & Hx & C1 & C2 & C3 & C4).
    destruct E1 as (D1 & D2 & D3 & D4). split_and!.
    + rewrite D1 in *. set_solver.
    + rewrite D2 in *. set_solver.
    + exists x. split; [done|]. split_and!; congruence.
  - intros k x Hx Hs Hd. apply not_elem_of_cons in Hs as [Hs1 Hs2], Hd as [Hd1 Hd2].
    destruct (K1 k x Hx Hs1 Hd1) as (x1 & Hx1 & C1 & C2 & C3 & C4).
    destruct (K2 k x1 Hx1) as (x2 & Hx2 & D1 & D2 & D3 & D4); [congruence..|].
    exists x2. split; [done|]. split_and!; congruence.
Qed.

(** A connection of a client is one of its ports'. *)
Lemma conn_of_client c k x e :
  server_inv e -> conn_store e !! k = Some x -> srcclient x = c \/ dstclient x = c ->
  source x ∈ c_ports (the_client e c) \/ destination x ∈ c_ports (the_client e c).
Proof.
  intros [G _] Hx [<-|<-]; destruct (gi_conns e G k x Hx); [by left|right].
  by apply (gi_owned e G).
Qed.

(** A port of a client is no other client's. *)
Lemma port_of_client c k x e :
  server_inv e -> c ∈ clients e -> conn_store e !! k = Some x -> srcclient x <> c -> dstclient x <> c ->
  (source x ∉ c_ports (the_client e c)) /\ (destination x ∉ c_ports (the_client e c)).
Proof.
  intros [G P] Hc Hx Hs Hd. destruct (gi_conns e G k x Hx) as [_ _ M1 M2 O1 O2 _ _ _ _ _ _ _].
  split; intros Hin; destruct (pi_listed e P c _ Hc Hin) as (y & Hy & _ & Ho).
  - apply Hs. apply (gi_ids e G); [done|done|]. rewrite <- O1, <- Ho. by rewrite (the_port_lookup e _ y).
  - apply Hd. apply (gi_ids e G); [done|done|]. rewrite <- O2, <- Ho. by rewrite (the_port_lookup e _ y).
Qed.

Lemma deactivate_spec id e :
  engine_inv e ->
  let '(ret, e') := jack_client_deactivate env id e in
  engine_inv e' /\
  (ret = -1 /\ e' = e /\ jack_client_internal_by_id e id = None \/
   ret = 0 /\ exists c, jack_client_internal_by_id e id = Some c /\ active (the_client e' c) = false /\
     (forall k x, conn_store e' !! k = Some x -> srcclient x <> c /\ dstclient x <> c /\
        exists x0, conn_store e !! k = Some x0 /\ same_ends x0 x) /\
     (forall k x, conn_store e !! k = Some x -> srcclient x <> c -> dstclient x <> c ->
        exists x', conn_store e' !! k = Some x' /\ same_ends x x') /\
     (forall d, d <> c -> active (the_client e' d) = active (the_client e d))).
Proof.
  intros H. unfold jack_client_deactivate.
  destruct (jack_client_internal_by_id e id) as [c|] eqn:Eid; [|split; [done|by left]].
  pose proof Eid as Hin. apply by_id_member in Hin as [Hc _].
  pose proof (clear_all (c_ports (the_client e c)) e H) as Hcl. cbv zeta in Hcl.
  set (e1 := foldl _ e _) in *. destruct Hcl as (H1 & F1 & N1 & K1).
  { intros p Hp. destruct (pi_listed e (sv_ports e (ei_server e H)) c p Hc Hp) as (y & Hy & _).
    by eapply lookup_lt_Some. }
  clearbody e1. assert (Hc1 : c ∈ clients e1) by (by rewrite (gf_clients e e1 F1)).
  destruct (do_deactivate_spec env c e1 (ei_server e1 H1) (ei_transport e1 H1) Hc1)
    as (I2 & T2 & F2 & L2 & A2 & D2 & _ & S2 & Tb2). cbv zeta in *.
  change (jack_client_do_deactivate env c true e1) with
    (0, jack_sort_graph env (jack_client_do_deactivate env c false e1).2).
  set (e2 := (jack_client_do_deactivate env c false e1).2) in *. clearbody e2.
  assert (H2 : engine_inv e2).
  { apply (engine_inv_leaves c e1); [done..|]. rewrite D2. intros Hdd.
    destruct (ei_zombies e1 H1 c Hc1 Hdd) as [Hi Hz].
    split; [|constructor; [congruence|done|by apply Tb2|done]].
    destruct Hi as [B1 B2 B3]. constructor.
    - by rewrite (fr_conns e1 e2 F2).
    - intros p. unfold the_port. rewrite (fr_ports e1 e2 F2), (sh_ids c e1 e2 (lv_shrinks c e1 e2 L2)). apply B2.
    - pose proof (same_graph_client e1 e2 c (server_frame_graph e1 e2 F2)) as E. unfold cview in E.
      injection E as _ _ E _ _ _. congruence. }
  pose proof (frame_sort_graph env e2) as F3. pose proof (same_graph_sort env e2) as S3.
  set (e3 := jack_sort_graph env e2) in *. clearbody e3.
  split; [by apply (engine_inv_frame e2)|]. right. split; [done|]. exists c.
  assert (Ec : conn_store e3 = conn_store e1) by (by rewrite (sg_conns e2 e3 S3), (fr_conns e1 e2 F2)).
  split_and!; [done|by rewrite (graph_frame_client active e2 e3)|..].
  - intros k x. rewrite Ec. intros Hx. destruct (N1 k x Hx) as (Q1 & Q2 & x0 & Hx0 & E1 & E2 & E3 & E4).
    assert (~ (srcclient x = c \/ dstclient x = c)).
    { rewrite E3, E4. intros Hor.
      destruct (conn_of_client c k x0 e (ei_server e H) Hx0 Hor); congruence. }
    split_and!; [naive_solver..|]. exists x0. by repeat split.
  - intros k x Hx Hs Hd. rewrite Ec.
    destruct (port_of_client c k x e (ei_server e H) Hc Hx Hs Hd) as [Q1 Q2]. by apply (K1 k).
  - intros d Hne. rewrite (graph_frame_client active e2 e3) by done.
    pose proof (lv_others c e1 e2 L2 d Hne) as E. unfold lview, tview in E. injection E as E1 _.
    by rewrite E1, (graph_frame_client active e e1).
Qed.

(** Deactivating a client keeps the invariant of the engine, makes the
    client inactive and removes exactly its connections; nobody else's
    activity changes.  An unknown id is refused and changes nothing. *)
Theorem deactivate_correct id e :
  engine_inv e ->
  let '(ret, e') := jack_client_deactivate env id e in
  engine_inv e' /\
  (ret = -1 /\ e' = e /\ jack_client_internal_by_id e id = None \/
   ret = 0 /\ exists c, jack_client_internal_by_id e id = Some c /\ active (the_client e' c) = false /\
     (forall k x, conn_store e' !! k = Some x -> srcclient x <> c /\ dstclient x <> c /\
        exists x0, conn_store e !! k = Some x0 /\ same_ends x0 x) /\
     (forall k x, conn_store e !! k = Some x -> srcclient x <> c -> dstclient x <> c ->
        exists x', conn_store e' !! k = Some x' /\ same_ends x x') /\
     (forall d, d <> c -> active (the_client e' d) = active (the_client e d))).
Proof. exact (deactivate_spec id e). Qed.

End io.
End Activation.
