(* ===== verification/Creation.v ===== *)
(** * New clients (server/clientengine.c)

    [jack_client_create] for an external client: the name is unique, the id
    new, and the invariant of the engine holds afterwards, also when the
    answer cannot be delivered and the client is taken down again. *)

From S2P Require Import Prelude JSList Engine Transport Events Graph GraphInv Connect.
From S2P Require Import GraphFrame Ports PortsInv Clients ClientsInv Frames Lifecycle Removal.
From S2P Require Import Activation.

Local Open Scope Z_scope.

Module Creation.
Import JSList Transport Events Graph GraphInv Connect GraphFrame Ports PortsInv Clients ClientsInv.
Import Frames Lifecycle Removal Activation.

(** Operations that leave graph and ports alone. *)
Lemma engine_inv_transport e e' :
  server_frame e e' -> transport_inv e' -> next_client_id e' = next_client_id e ->
  (forall d, d ∈ clients e -> dead (the_client e' d) = true -> dead (the_client e d) = true /\ zombie d e') ->
  engine_inv e -> engine_inv e'.
Proof.
  intros F T' En Hz [I T Z N].
  assert (V : forall d, cview (the_client e' d) = cview (the_client e d))
    by (intros d; by apply (same_graph_client e e' d), server_frame_graph).
  assert (Pt : forall p, the_port e' p = the_port e p) by (intros p; unfold the_port; by rewrite (fr_ports e e' F)).
  constructor; [by apply (server_frame_inv e)|done| |].
  - intros d Hd Hdd. rewrite (fr_clients e e' F) in Hd. destruct (Hz d Hd Hdd) as [Hdd' Hzd].
    split; [|done]. destruct (Z d Hd Hdd') as [[S1 S2 S3] _]. specialize (V d). unfold cview in V.
    injection V as V1 _ V3 _ _ _. constructor; [by rewrite (fr_conns e e' F)| |congruence].
    intros p. rewrite Pt, V1. apply S2.
  - destruct N as [N1 N2 N3]. constructor; rewrite En; [done| |].
    + intros d. rewrite (fr_clients e e' F). specialize (V d). unfold cview in V. injection V as -> _ _ _ _ _. apply N2.
    + intros p. rewrite Pt. apply N3.
Qed.

Lemma engine_inv_frames e e' : server_frame e e' -> transport_frame e e' -> engine_inv e -> engine_inv e'.
Proof.
  intros F Ft H. apply (engine_inv_transport e e'); [done|by apply (transport_frame_inv e), H|apply Ft| |done].
  intros d Hd Hdd. pose proof (transport_frame_view e e' d Ft) as E. unfold lview, tview in E.
  injection E as _ E2 _ _ _ _ _ _ _. rewrite E2 in Hdd. split; [done|].
  apply (zombie_frame d e); [done|]. by apply (ei_zombies e H).
Qed.

Lemma ensure_uuid_frames uuid e :
  server_frame e (jack_ensure_uuid_unique uuid e) /\ transport_frame e (jack_ensure_uuid_unique uuid e) /\
  (forall d, c_name (the_client (jack_ensure_uuid_unique uuid e) d) = c_name (the_client e d)).
Proof.
  unfold jack_ensure_uuid_unique. generalize (clients e) as l. intros l. revert e.
  induction l as [|c l IH]; intros e; cbn [foldl]; [done|].
  set (e1 := if _ =? _ then _ else e).
  assert (H1 : server_frame e e1 /\ transport_frame e e1 /\
    forall d, c_name (the_client e1 d) = c_name (the_client e d)).
  { unfold e1. destruct (_ =? _); [|done]. split_and!.
    - by apply server_frame_client.
    - by apply transport_frame_client.
    - intros d. by apply the_client_upd_field. }
  clearbody e1. destruct H1 as (A1 & B1 & C1), (IH e1) as (A2 & B2 & C2).
  split_and!; [by transitivity e1|by transitivity e1|]. intros d. by rewrite C2, C1.
Qed.

Lemma reserved_frames uuid e :
  server_frame e (jack_get_reserved_name uuid e).2 /\ transport_frame e (jack_get_reserved_name uuid e).2 /\
  (forall d, the_client (jack_get_reserved_name uuid e).2 d = the_client e d).
Proof. unfold jack_get_reserved_name. destruct (find _ _); done. Qed.

Lemma client_new_idem x : jack_transport_client_new (jack_transport_client_new x) = jack_transport_client_new x.
Proof. destruct x as [???????????????[]]. vm_compute. reflexivity. Qed.

(** What a new client starts with. *)
Record fresh_client (id : Z) (x : client) : Prop := {
  fc_id : c_id x = id;
  fc_ports : c_ports x = [];
  fc_active : active x = false;
  fc_dead : dead x = false;
  fc_slow : active_slowsync x = false;
  fc_truefeeds : truefeeds x = [];
  fc_sortfeeds : sortfeeds x = [];
  fc_fedcount : fedcount x = 0;
  fc_transport : jack_transport_client_new x = x
}.

Lemma new_client_fresh fd type name uuid id block :
  fedcount block = 0 -> fresh_client id (new_client fd type name uuid id block).
Proof. intros Hf. constructor; [reflexivity..|exact Hf|apply client_new_idem]. Qed.

Section creation.
Context (env : environment) (finish : client_ptr -> engine -> engine) `{!FinishOk finish}.
Context (world : client_world).

(** The new client's block in the store and at the head of the list. *)
Definition arrive (c : client_ptr) (x : client) (e : engine) : engine :=
  e <| next_client_id := u32 (next_client_id e + 1) |> <| client_store ::= <[c := x]> |>
    <| clients ::= cons c |>.

Lemma arrival_inv x c e e' :
  engine_inv e -> next_client_id e < UINT_MAX -> fresh_client (next_client_id e) x ->
  c = fresh (dom (client_store e)) -> e' = arrive c x e ->
  engine_inv e' /\ (c ∉ clients e) /\ the_client e' c = x /\
  (forall d, d <> c -> the_client e' d = the_client e d) /\
  zombie c (upd_client c (fun x => x <| dead := true |>) e') /\
  isolated c e' /\ next_client_id e' = next_client_id e + 1 /\ clients e' = c :: clients e.
Proof.
  intros [I T Z [N1 N2 N3]] Hn [Hid Hp Hac Hdd Hsl Htf Hsf Hfd Ex] Hc E'.
  assert (Hfr : client_store e !! c = None) by (apply not_elem_of_dom; rewrite Hc; apply is_fresh).
  assert (Hcl : c ∉ clients e).
  { intros Hin. destruct (proj1 T) as [_ S _ _ _]. destruct (S c Hin). congruence. }
  assert (Ec : the_client e' c = x) by (unfold the_client; subst e'; cbn; by rewrite lookup_insert_eq).
  assert (Eo : forall d, d <> c -> the_client e' d = the_client e d)
    by (intros d Hd; unfold the_client; subst e'; cbn; by rewrite lookup_insert_ne).
  assert (En : next_client_id e' = next_client_id e + 1) by (subst e'; apply wrap_small; unfold UINT_MAX in Hn; lia).
  assert (Cl : clients e' = c :: clients e) by (by subst e').
  assert (Ks : conn_store e' = conn_store e /\ ports e' = ports e /\ timebase_client e' = timebase_client e /\
    port_types e' = port_types e /\ port_buffers e' = port_buffers e /\ feedbackcount e' = feedbackcount e) by (by subst e').
  assert (Es : client_store e' = <[c := x]> (client_store e)) by (by subst e').
  assert (T' : transport_inv e').
  { pose proof (add_client_transport c x e Hcl T) as Ta. unfold add_client in Ta.
    rewrite Ex in Ta. subst e'. by destruct Ta as ([] & ? & []). }
  clear E'. destruct Ks as (Kc & Kp & Kt & Kty & Kb & Kf).
  assert (Pt : forall p, the_port e' p = the_port e p) by (intros p; unfold the_port; by rewrite Kp).
  assert (Old : forall d, d ∈ clients e -> d <> c) by (intros d Hd ->; done).
  assert (Iso : isolated c e').
  { constructor; [|intros p; rewrite Pt, Ec, Hid; intros Hu; specialize (N3 p Hu); lia|by rewrite Ec].
    intros k y. rewrite Kc. intros Hy.
    destruct (gi_conns e (sv_graph e I) k y Hy) as [_ _ S D _ _ _ _ _ _ _ _ _]. split; congruence. }
  split_and!; [|done|done|done| |done|done|done].
  - constructor; [split|done| |].
    + apply (members_graph e); [apply I|]. constructor; try done; rewrite ?Cl.
      * constructor; [done|apply I].
      * intros d Hd. rewrite Es. apply lookup_insert_is_Some.
        destruct (decide (c = d)) as [|Hne]; [by left|right].
        split; [done|]. apply T. by apply elem_of_cons in Hd as [->|].
      * intros k y Hy. destruct (gi_conns e (sv_graph e I) k y Hy). split; by right.
      * intros d _ Hd'. by rewrite Eo by auto.
      * intros d Hd Hd'. apply elem_of_cons in Hd as [->|]; [|done]. constructor; rewrite ?Ec; try done.
        -- intros d Hd Eid. rewrite Cl in Hd. apply elem_of_cons in Hd as [->|Hd]; [done|].
           rewrite Eo, Hid in Eid by auto. specialize (N2 d Hd). lia.
        -- intros p Hu. pose proof (is_ports c e' Iso p Hu) as Hi. by rewrite Ec in Hi.
    + apply (members_ports e); try done; [apply I|]. intros d Hd. rewrite Cl in Hd.
      apply elem_of_cons in Hd as [->|Hd].
      * right. rewrite Ec. split; [done|]. rewrite Hid. lia.
      * left. by rewrite Eo by auto.
    + intros d Hd. rewrite Cl in Hd. apply elem_of_cons in Hd as [->|Hd]; [by rewrite Ec, Hdd|].
      specialize (Eo d (Old d Hd)). rewrite Eo. intros Hdd'.
      destruct (Z d Hd Hdd') as [[S1 S2 S3] [Z1 Z2 Z3 Z4]].
      split; constructor; rewrite ?Eo, ?Kc, ?Kt; try done. intros p. rewrite Pt. apply S2.
    + constructor; rewrite En; [lia| |].
      * intros d Hd. rewrite Cl in Hd. apply elem_of_cons in Hd as [->|Hd]; [rewrite Ec, Hid; lia|].
        rewrite Eo by auto. specialize (N2 d Hd). lia.
      * intros p. rewrite Pt. intros Hu. specialize (N3 p Hu). lia.
  - assert (Ed : the_client (upd_client c (fun x => x <| dead := true |>) e') c = x <| dead := true |>).
    { rewrite the_client_upd, decide_True, Ec; [done|done|]. rewrite Es, lookup_insert_eq. by eexists. }
    constructor; rewrite ?Ed; try done. change (timebase_client e' <> Some c). rewrite Kt.
    intros Htb. by apply Hcl, (ti_member e (proj2 (proj2 T))).
Qed.

(** [setup_client] for an external or a driver client. *)
Lemma setup_external_spec type name uuid options status fd e :
  type <> ClientInternal ->
  engine_inv e -> next_client_id e < UINT_MAX -> fedcount (cw_block world) = 0 ->
  let '(r, _, n, o) := setup_client env finish world type name uuid options status fd e in
  exists e1, o = Continues e1 /\ engine_inv e1 /\
  match r with
  | None => clients e1 = clients e
  | Some c =>
      clients e1 = c :: clients e /\ (c ∉ clients e) /\ name_taken e n = false /\
      fresh_client (next_client_id e) (the_client e1 c) /\ c_name (the_client e1 c) = n /\
      (forall d, d <> c -> c_name (the_client e1 d) = c_name (the_client e d)) /\
      zombie c (upd_client c (fun x => x <| dead := true |>) e1) /\ isolated c e1 /\
      next_client_id e1 = next_client_id e + 1
  end.
Proof.
  intros Hty H Hn Hf. unfold setup_client.
  pose proof (name_valid_free e name options status) as Hv.
  destruct (jack_client_name_invalid e name options status) as [[n|] st]; [|eauto].
  specialize (Hv n eq_refl). set (e1 := if negb (uuid =? 0) then _ else e).
  assert (H1 : engine_inv e1 /\ clients e1 = clients e /\ next_client_id e1 = next_client_id e /\
    forall d, c_name (the_client e1 d) = c_name (the_client e d)).
  { unfold e1. destruct (negb _); [|done]. destruct (ensure_uuid_frames uuid e) as (F & Ft & Hnm).
    split_and!; [by apply (engine_inv_frames e)|apply F|apply Ft|done]. }
  destruct H1 as (H1 & C1 & N1 & M1). clearbody e1.
  unfold jack_setup_client_control. destruct (bool_decide (type = ClientExternal) && _); [eauto|].
  rewrite (bool_decide_eq_false_2 (type = ClientInternal)) by done. cbn [andb].
  set (c := fresh (dom (client_store e1))). set (x := new_client fd _ n uuid _ _).
  pose proof (new_client_fresh fd type n uuid (next_client_id e1) (cw_block world) Hf) as Hx.
  fold x in Hx. assert (Hnm : c_name x = n) by reflexivity. clearbody x.
  eexists. split; [done|].
  destruct (arrival_inv x c e1 (arrive c x e1) H1 ltac:(lia) Hx eq_refl eq_refl)
    as (H2 & Hc & E2 & O2 & Z2 & I2 & N2 & C2).
  change (e1 <| next_client_id := _ |> <| client_store ::= _ |> <| clients ::= _ |>) with (arrive c x e1).
  set (e2 := arrive c x e1) in *. clearbody e2 c.
  split; [done|]. rewrite <- C1, <- N1. split_and!; try done; try congruence.
  intros d Hd. by rewrite O2.
Qed.

Lemma by_name_none e n d : jack_client_by_name e n = None -> d ∈ clients e -> c_name (the_client e d) <> n.
Proof.
  unfold jack_client_by_name. intros E Hd Hn. apply head_None in E.
  assert (Hin : d ∈ filter (fun c => c_name (the_client e c) = n) (clients e)) by (by apply list_elem_of_filter).
  rewrite E in Hin. by apply not_elem_of_nil in Hin.
Qed.

Lemma create_spec req fd e :
  engine_inv e -> next_client_id e < UINT_MAX -> fedcount (cw_block world) = 0 ->
  cr_type req = ClientExternal -> cr_load req = true ->
  let '(ret, o) := jack_client_create env finish world req fd e in
  let e' := outcome_engine o in
  engine_inv e' /\
  (ret = -1 /\ (forall d, d ∈ clients e' <-> d ∈ clients e) \/
   ret = 0 /\ o = Continues e' /\ exists c,
     clients e' = c :: clients e /\ (c ∉ clients e) /\ next_client_id e' = next_client_id e + 1 /\
     c_id (the_client e' c) = next_client_id e /\ c_ports (the_client e' c) = [] /\
     active (the_client e' c) = false /\ dead (the_client e' c) = false /\
     (forall d, d ∈ clients e -> c_name (the_client e' d) = c_name (the_client e d) /\
                                 c_name (the_client e' d) <> c_name (the_client e' c))).
Proof.
  intros H Hn Hf Ht Hl. unfold jack_client_create. rewrite Ht, Hl. cbn [negb].
  destruct (cr_version_ok req); cbn [negb]; [|split; [done|by left]].
  destruct (if negb (cr_uuid req =? 0) then _ else _) as [n e1] eqn:E.
  assert (H1 : engine_inv e1 /\ clients e1 = clients e /\ next_client_id e1 = next_client_id e /\
    forall d, the_client e1 d = the_client e d).
  { destruct (negb _); [|injection E as _ <-; done].
    destruct (reserved_frames (cr_uuid req) e) as (F & Ft & Hv).
    destruct (jack_get_reserved_name (cr_uuid req) e) as [[m|] e0]; injection E as _ <-;
      (split_and!; [by apply (engine_inv_frames e)|apply F|apply Ft|done]). }
  destruct H1 as (H1 & C1 & N1 & V1). clear E.
  pose proof (setup_external_spec ClientExternal n (cr_uuid req) (cr_options req) 0 fd e1 ltac:(done) H1 ltac:(lia) Hf) as Hs.
  destruct (setup_client _ _ _ _ _ _ _ _ _ _) as [[[r st] m] o].
  destruct Hs as (e2 & -> & H2 & Hr). destruct r as [c|].
  2:{ cbn. split; [done|]. left. split; [done|]. by rewrite Hr, C1. }
  destruct Hr as (C2 & Hc & Hfree & Hx & Hm & M2 & Z2 & I2 & N2).
  assert (Hcin : c ∈ clients e2) by (rewrite C2; left). rewrite C1 in C2, Hc.
  destruct (cw_reply_ok world); cbn [negb].
  - set (e3 := jack_client_registration_notify _ _ _ e2).
    assert (F : event_frame e2 e3) by apply deliver_where_frame. clearbody e3. cbn [outcome_engine].
    split; [by apply (engine_inv_event e2)|]. right. split_and!; [done|done|]. exists c.
    destruct Hx as [X1 X2 X3 X4 X5 X6 X7 X8 X9].
    assert (M3 : forall d, c_name (the_client e3 d) = c_name (the_client e2 d))
      by (intros d; by apply (event_frame_field c_name e2 e3)).
    split_and!.
    + by rewrite (event_frame_get clients e2 e3).
    + done.
    + rewrite (event_frame_get next_client_id e2 e3) by done. lia.
    + rewrite (event_frame_field c_id e2 e3) by done. lia.
    + by rewrite (event_frame_field c_ports e2 e3).
    + by rewrite (event_frame_field active e2 e3).
    + by rewrite (event_frame_field dead e2 e3).
    + intros d Hd. assert (Hne : d <> c) by (intros ->; done). rewrite !M3, Hm, (M2 d Hne).
      split; [by rewrite V1|]. apply by_name_none; [|by rewrite C1]. by apply name_free in Hfree as [? _].
  - set (e3 := upd_client c _ e2).
    assert (L : leaves c e2 e3) by (by apply leaves_upd).
    assert (H3 : engine_inv e3).
    { apply (engine_inv_leaves c e2); [done|apply (server_frame_inv e2), H2; by apply server_frame_client
        |by apply transport_inv_frame, H2|done|]. intros _. split; [|done].
      destruct I2 as [S1 S2 S3]. constructor; [done| |].
      - intros p. unfold e3. rewrite (the_client_upd_field e2 c c _ c_id) by done. apply S2.
      - unfold e3. by rewrite (the_client_upd_field e2 c c _ c_ports). }
    assert (C3 : clients e3 = c :: clients e) by done. clearbody e3.
    assert (Hc3 : c ∈ clients e3) by (rewrite C3; left).
    pose proof (remove_client_keeps env finish c e3 H3 Hc3) as HR. cbv zeta in HR. revert HR.
    generalize (jack_remove_client env finish c e3). intros o [H4 R]. cbv beta iota zeta.
    split; [exact H4|]. left. split; [done|]. intros d. rewrite (rm_clients c e3 _ R d), C3, elem_of_cons.
    split; [naive_solver|]. intros Hd. split; [by right|]. intros ->. done.
Qed.

(** What [setup_client] does whatever the block of the client contained. *)
Lemma setup_external_facts type name uuid options status fd e :
  type <> ClientInternal -> engine_inv e ->
  let '(r, _, n, o) := setup_client env finish world type name uuid options status fd e in
  exists e1, o = Continues e1 /\
  match r with
  | None => clients e1 = clients e
  | Some c =>
      clients e1 = c :: clients e /\ (c ∉ clients e) /\ name_taken e n = false /\ next_client_id e1 = u32 (next_client_id e + 1) /\
      c_id (the_client e1 c) = next_client_id e /\ c_ports (the_client e1 c) = [] /\ active (the_client e1 c) = false /\
      dead (the_client e1 c) = false /\ c_name (the_client e1 c) = n /\
      (forall d, d <> c -> c_name (the_client e1 d) = c_name (the_client e d) /\ c_id (the_client e1 d) = c_id (the_client e d))
  end.
Proof.
  intros Hty H. unfold setup_client. pose proof (name_valid_free e name options status) as Hv.
  destruct (jack_client_name_invalid e name options status) as [[n|] st]; [|eauto].
  specialize (Hv n eq_refl). set (e1 := if negb (uuid =? 0) then _ else e).
  assert (H1 : dom (client_store e1) = dom (client_store e) /\ clients e1 = clients e /\ next_client_id e1 = next_client_id e /\
    forall d, c_name (the_client e1 d) = c_name (the_client e d) /\ c_id (the_client e1 d) = c_id (the_client e d)).
  { unfold e1. destruct (negb _); [|done]. destruct (ensure_uuid_frames uuid e) as (F & Ft & Hnm). split_and!.
    - apply set_eq. intros d. pose proof (fr_store _ _ F d) as E. rewrite !elem_of_dom.
      destruct (client_store _ !! d), (client_store e !! d); cbn in E; try done; split; intros; by eexists.
    - apply F.
    - apply Ft.
    - intros d. split; [done|]. pose proof (same_graph_client e _ d (server_frame_graph _ _ F)) as E. unfold cview in E. by injection E. }
  destruct H1 as (D1 & C1 & N1 & M1). clearbody e1.
  unfold jack_setup_client_control. destruct (bool_decide (type = ClientExternal) && _); [eauto|].
  rewrite (bool_decide_eq_false_2 (type = ClientInternal)) by done. cbn [andb].
  set (c := fresh (dom (client_store e1))). set (x := new_client fd _ n uuid _ _).
  assert (Hx : c_id x = next_client_id e1 /\ c_ports x = [] /\ active x = false /\ dead x = false /\ c_name x = n) by done.
  assert (Hfr : c ∉ dom (client_store e)) by (rewrite <- D1; apply is_fresh). clearbody x c. eexists. split; [done|]. cbn.
  assert (Ec : forall d, the_client (e1 <| next_client_id := u32 (next_client_id e1 + 1) |> <| client_store ::= <[c:=x]> |> <| clients ::= cons c |>) d =
    if decide (d = c) then x else the_client e1 d).
  { intros d. unfold the_client. cbn. case_decide as Ed; [subst; by rewrite lookup_insert_eq|]. by rewrite lookup_insert_ne. }
  rewrite <- C1, <- N1, Ec, decide_True by done. destruct Hx as (X1 & X2 & X3 & X4 & X5). split_and!; try done.
  - rewrite C1. intros Hin. apply Hfr, elem_of_dom. by apply (ei_transport e H).
  - intros d Hd. rewrite Ec, decide_False by done. apply M1.
Qed.


End creation.
End Creation.
