(* ===== verification/Requests.v ===== *)
(** * Requests (server/engine.c)

    [do_request], which dispatches what clients ask for, with the operations
    that have no other home: sessions and freewheeling. *)

From S2P Require Import Prelude JSList Engine Transport Events Graph Ports Clients.

Local Open Scope Z_scope.

Module Requests.
Import JSList Transport Events Graph Ports Clients.

(** [jack_request_t]: the request types with the union members they use. *)
Inductive jack_request :=
| RegisterPort (info : port_request)
| UnRegisterPort (info : port_request)
| ConnectPorts (source_port destination_port : string)
| DisconnectPort (port_id : Z)
| DisconnectPorts (source_port destination_port : string)
| ActivateClient (client_id : Z)
| DeactivateClient (client_id : Z)
| SetTimeBaseClient (client_id : Z) (conditional : bool)
| ResetTimeBaseClient (client_id : Z)
| SetSyncClient (client_id : Z)
| ResetSyncClient (client_id : Z)
| SetSyncTimeout (timeout : Z)
| GetPortConnections (port_id : Z)
| FreeWheel (client_id : Z)
| StopFreeWheel
| SetBufferSize (nframes : Z)
| IntClientHandle (name : string)
| IntClientLoad (name : string) (options : Z)
| IntClientName (id : Z)
| IntClientUnload (id : Z)
| RecomputeTotalLatencies
| RecomputeTotalLatency (port_id : Z)
| GetClientByUUID (uuid : Z)
| ReserveName (name : string) (uuid : Z)
| SessionReply (client_id : Z)
| SessionNotify (reply_fd type : Z) (target : string)
| SessionHasCallback (name : string)
| OtherRequest.

(** What goes back to the client: [status], and an id, port ids or a name
    where the request asks for one. *)
Record answer := mk_answer {
  an_status : Z;
  an_id : Z;
  an_ids : list Z;
  an_name : string
}.

Definition status_only (z : Z) : answer := mk_answer z 0 [] "".

(** Whether the directory of the session exists, whether the directory of a
    client can be made, whether the replies about a client and the final one
    can be written. *)
Record session_world := mk_session {
  sw_stat_ok : bool;
  sw_mkdir_ok : client_ptr -> bool;
  sw_write_ok : client_ptr -> bool;
  sw_final_ok : bool
}.

(** What a request meets outside of the engine: the world of a new internal
    client, of a session, the driver's methods, memory and threads. *)
Record request_world := mk_request_world {
  rw_client : client_world;
  rw_session : session_world;
  rw_bufsize : Z -> engine -> Z * engine;
  rw_drivers_stop : Z;
  rw_drivers_start : Z;
  rw_thread_ok : bool;
  rw_malloc_ok : bool
}.

Section io.
Context (env : environment) (finish : client_ptr -> engine -> engine).

(** ** Sessions *)

Section session.
Context (w : session_world).

(** Clients without a uuid get the next one. *)
Definition ensure_uuids (e : engine) : engine :=
  foldl (fun e c => if c_uid (the_client e c) =? 0
                    then upd_client c (fun x => x <| c_uid := u32 (jack_engine_get_max_uuid e + 1) |>) e
                    else e) e (clients e).

Definition jack_send_session_reply (c : client_ptr) : Z := if sw_write_ok w c then 0 else -1.

(** The loop over the clients: [true] for the jump to [error_out]; a
    directory that cannot be made ends the loop. *)
Fixpoint session_loop (type : Z) (target : string) (l : list client_ptr) (e : engine) : bool * engine :=
  match l with
  | [] => (false, e)
  | c :: l =>
      let x := the_client e c in
      if session_cbset (cbset x) then
        if negb (String.eqb target "") && negb (String.eqb target (c_name x)) then session_loop type target l e
        else if negb (sw_mkdir_ok w c) then (false, e)
        else
          let '(reply, e) := jack_deliver_event env c (SaveSession type) e in
          if reply =? 1 then
            session_loop type target l
              (upd_client c (fun x => x <| session_reply_pending := true |>) (e <| session_pending_replies ::= Z.succ |>))
          else if reply =? 2 then
            if negb (jack_send_session_reply c =? 0) then (true, e) else session_loop type target l e
          else session_loop type target l e
      else session_loop type target l e
  end.

Definition send_final (e : engine) : Z * engine :=
  if sw_final_ok w then (0, e <| session_reply_fd := -1 |>) else (-3, e).

Definition jack_do_session_notify (type : Z) (target : string) (reply_fd : Z) (e : engine) : Z * engine :=
  if negb (session_reply_fd e =? -1) then send_final e
  else
    let e := e <| session_reply_fd := reply_fd |> <| session_pending_replies := 0 |> in
    let e := ensure_uuids e in
    if negb (sw_stat_ok w) then send_final e
    else
      let '(error, e) := session_loop type target (clients e) e in
      if error then (-3, e)
      else if negb (session_pending_replies e =? 0) then (0, e)
      else send_final e.

(** [None]: the client is not looked for before it is dereferenced. *)
Definition jack_do_session_reply (client_id : Z) (e : engine) : option (Z * engine) :=
  c ← jack_client_internal_by_id e client_id;
  let e := upd_client c (fun x => x <| session_reply_pending := false |>) e in
  if session_reply_fd e =? -1 then Some (0, e)
  else
    let e := e <| session_pending_replies ::= Z.pred |> in
    if negb (jack_send_session_reply c =? 0) then Some (0, e <| session_reply_fd := -1 |>)
    else if session_pending_replies e =? 0 then
      Some (if sw_final_ok w then 0 else -1, e <| session_reply_fd := -1 |>)
    else Some (0, e).

End session.

Definition jack_do_has_session_cb (name : string) (e : engine) : Z :=
  match jack_client_by_name e name with
  | None => -1
  | Some c => if session_cbset (cbset (the_client e c)) then 1 else 0
  end.

(** ** Freewheeling *)

(** The drivers are stopped, and the thread of [jack_engine_freewheel] runs
    the cycles instead.  [None]: the client is dereferenced unchecked. *)
Definition jack_start_freewheeling (w : request_world) (client_id : Z) (e : engine) : option (Z * engine) :=
  if freewheeling e then Some (0, e)
  else
    match driver e with
    | None => Some (-1, e)
    | Some _ =>
        if negb (rw_drivers_stop w =? 0) then Some (-1, e)
        else
          c ← jack_client_internal_by_id e client_id;
          let e := if runs_process (the_client e c) then e <| fwclient := client_id |> else e in
          let e := e <| freewheeling := true |> <| stop_freewheeling := false |> in
          let e := jack_deliver_event_to_all env StartFreewheel e in
          Some (if rw_thread_ok w then 0 else -1, e)
    end.

Definition jack_stop_freewheeling (w : request_world) (engine_exiting : bool) (e : engine) : Z * engine :=
  if negb (freewheeling e) then (0, e)
  else
    match driver e with
    | None => (-1, e)
    | Some _ =>
        let e := e <| stop_freewheeling := true |> <| fwclient := 0 |> <| freewheeling := false |> in
        if negb engine_exiting then
          let e := jack_deliver_event_to_all env StopFreewheel e in
          (if negb (rw_drivers_start w =? 0) then -1 else 0, e)
        else (0, e)
    end.

(** ** The dispatcher

    [internal] tells that the request does not come through a socket
    ([reply_fd] is NULL).  [None] is undefined behaviour of the source. *)
Definition do_request (w : request_world) (internal : bool) (req : jack_request) (e : engine)
    : option (answer * outcome) :=
  let simple (r : Z * engine) := Some (status_only r.1, Continues r.2) in
  match req with
  | RegisterPort info =>
      let '(status, id, e) := jack_port_do_register env info internal e in
      Some (mk_answer status id [] "", Continues e)
  | UnRegisterPort info => r ← jack_port_do_unregister env info e; simple r
  | ConnectPorts s d => simple (jack_port_do_connect env s d e)
  | DisconnectPort id => simple (jack_port_do_disconnect_all env id e)
  | DisconnectPorts s d => simple (jack_port_do_disconnect env s d e)
  | ActivateClient id => simple (jack_client_activate env id e)
  | DeactivateClient id => simple (jack_client_deactivate env id e)
  | SetTimeBaseClient id cond => simple (jack_timebase_set id cond e)
  | ResetTimeBaseClient id => simple (jack_timebase_reset id e)
  | SetSyncClient id => simple (jack_transport_client_set_sync id e)
  | ResetSyncClient id => simple (jack_transport_client_reset_sync id e)
  | SetSyncTimeout us => simple (jack_transport_set_sync_timeout us e)
  | GetPortConnections id =>
      if internal then None
      else ids ← jack_do_get_port_connections id e; Some (mk_answer 0 0 ids "", Continues e)
  | FreeWheel id => r ← jack_start_freewheeling w id e; simple r
  | StopFreeWheel => simple (jack_stop_freewheeling w false e)
  | SetBufferSize n => simple (jack_set_buffer_size_request (rw_bufsize w) n e)
  | IntClientHandle name =>
      let '(status, id) := jack_intclient_handle_request name e in
      Some (mk_answer status id [] "", Continues e)
  | IntClientLoad name options =>
      let '(status, id, o) := jack_intclient_load_request env finish (rw_client w) name options e in
      Some (mk_answer status id [] "", o)
  | IntClientName id =>
      let '(status, name) := jack_intclient_name_request id e in
      Some (mk_answer status 0 [] name, Continues e)
  | IntClientUnload id =>
      let '(status, o) := jack_intclient_unload_request env finish id e in Some (status_only status, o)
  | RecomputeTotalLatencies =>
      simple (0, jack_compute_new_latency env (jack_compute_all_port_total_latencies e))
  | RecomputeTotalLatency id =>
      _ ← ports e !! Z.to_nat id; simple (0, jack_compute_port_total_latency (Z.to_nat id) e)
  | GetClientByUUID uuid =>
      Some (match jack_do_get_client_by_uuid uuid e with
            | Some name => mk_answer 0 0 [] name
            | None => status_only (-1)
            end, Continues e)
  | ReserveName name uuid => simple (jack_do_reserve_name name uuid (rw_malloc_ok w) e)
  | SessionReply id => r ← jack_do_session_reply (rw_session w) id e; simple r
  | SessionNotify fd type target =>
      if internal then None else simple (jack_do_session_notify (rw_session w) type target fd e)
  | SessionHasCallback name => simple (jack_do_has_session_cb name e, e)
  | OtherRequest => simple (0, e)
  end.

End io.
End Requests.
