(* ===== verification/ServerOps.v ===== *)
(** * Every operation of the server keeps the invariant of the engine

    [engine_inv] through the transport requests, the connections, and the
    registration of ports. *)

From S2P Require Import Prelude JSList Engine Transport Events Graph GraphInv Acyclic Connect.
From S2P Require Import GraphFrame Ports PortsInv Buffers Clients ClientsInv Frames Lifecycle.
From S2P Require Import Removal Activation Creation.

Local Open Scope Z_scope.

Module ServerOps.
Import JSList Transport Events Graph GraphInv Acyclic Connect GraphFrame Ports PortsInv Buffers.
Import Clients ClientsInv Frames Lifecycle Removal Activation Creation.

(** ** Transport operations *)

(** The flags that tell a zombie. *)
Definition zview (x : client) := (dead x, active x, active_slowsync x).

(** The transport moves on; no client changes its standing. *)
Record tkeeps (e e' : engine) : Prop := {
  tk_server : server_frame e e';
  tk_view : forall d, zview (the_client e' d) = zview (the_client e d);
  tk_timebase : timebase_client e' = timebase_client e;
  tk_next : next_client_id e' = next_client_id e;
  tk_freewheeling : freewheeling e' = freewheeling e
}.

#[global] Instance tkeeps_preorder : PreOrder tkeeps.
Proof.
  split; [intros e; by constructor|]. intros e1 e2 e3 [A1 A2 A3 A4 A5] [B1 B2 B3 B4 B5].
  constructor; [by transitivity e2|congruence..].
Qed.

Lemma tkeeps_inv e e' : tkeeps e e' -> transport_inv e' -> engine_inv e -> engine_inv e'.
Proof.
  intros [F V Tb N Fw] T' H. apply (engine_inv_transport e); [done|done|done| |done].
  intros d Hd Hdd. specialize (V d). unfold zview in V. injection V as V1 V2 V3.
  rewrite V1 in Hdd. destruct (ei_zombies e H d Hd Hdd) as [_ [Z1 Z2 Z3 Z4]].
  split; [done|]. constructor; congruence.
Qed.

Lemma tkeeps_control f e : tkeeps e (upd_control f e).
Proof. by constructor. Qed.

Lemma tkeeps_crashed f e : tkeeps e (e <| crashed ::= f |>).
Proof. by constructor. Qed.

Lemma tkeeps_client c f e :
  (forall x, cview (f x) = cview x) -> (forall x, zview (f x) = zview x) -> tkeeps e (upd_client c f e).
Proof.
  intros H1 H2. constructor; [by apply server_frame_client| |done..].
  intros d. by apply the_client_upd_field.
Qed.

Lemma tkeeps_where (test : client -> bool) (f : client -> client) l n e :
  (forall x, cview (f x) = cview x) -> (forall x, zview (f x) = zview x) ->
  tkeeps e (foldl (fun '(n, e) c => if test (the_client e c)
                                    then (n + 1, upd_client c f e) else (n, e)) (n, e) l).2.
Proof.
  intros H1 H2. revert n e. induction l as [|c l IH]; intros n e; cbn [foldl]; [done|].
  destruct (test (the_client e c)); [|apply IH].
  transitivity (upd_client c f e); [by apply tkeeps_client|apply IH].
Qed.

Lemma tkeeps_poll_start e : tkeeps e (jack_sync_poll_start e).2.
Proof.
  unfold jack_sync_poll_start.
  pose proof (tkeeps_where active_slowsync (fun x => x <| sync_poll := true |>) (clients e) 0 e
                ltac:(done) ltac:(done)) as H.
  destruct (foldl _ _ _) as [n e1]. cbn [snd] in *. by transitivity e1; [|apply tkeeps_control].
Qed.

Lemma tkeeps_poll_stop e : tkeeps e (jack_sync_poll_stop e).2.
Proof.
  unfold jack_sync_poll_stop.
  pose proof (tkeeps_where (fun x => active_slowsync x && sync_poll x) (fun x => x <| sync_poll := false |>)
                (clients e) 0 e ltac:(done) ltac:(done)) as H.
  destruct (foldl _ _ _) as [n e1]. cbn [snd] in *. by transitivity e1; [|apply tkeeps_control].
Qed.

Lemma tkeeps_switch cmd e : tkeeps e (transport_switch cmd e).
Proof.
  assert (A : forall s e, tkeeps e (set_transport_state s e)) by (intros; apply tkeeps_control).
  assert (B : forall e, tkeeps e (start_or_roll e)).
  { intros e0. unfold start_or_roll. destruct (negb _); [|apply A].
    etransitivity; [apply A|apply tkeeps_poll_start]. }
  assert (C : forall e, tkeeps e (stop_transport e)).
  { intros e0. unfold stop_transport. cbv zeta. set (e1 := set_transport_state _ e0).
    transitivity e1; [apply A|]. destruct (negb _); [apply tkeeps_poll_stop|done]. }
  unfold transport_switch. destruct (transport_state _); [| |done|].
  - destruct (decide _); auto; done.
  - destruct (decide _); auto. destruct (new_pos _); [|done]. destruct (negb _); [|done].
    etransitivity; [apply A|apply tkeeps_poll_start].
  - destruct (decide _); auto. destruct (new_pos _); auto; done.
Qed.

Lemma tkeeps_cycle_end e e' : jack_transport_cycle_end e = Some e' -> tkeeps e e'.
Proof.
  unfold jack_transport_cycle_end. cbv zeta. set (e1 := upd_control promote_pending e).
  assert (K1 : tkeeps e e1) by apply tkeeps_control. clearbody e1.
  set (e2 := check_sync_results e1).
  assert (K2 : tkeeps e1 e2).
  { unfold e2, check_sync_results, jack_sync_timeout. destruct (decide _); [|done].
    destruct (_ =? 0); [apply tkeeps_control|]. cbv zeta.
    destruct (_ >? _); [|etransitivity; [|apply tkeeps_control]]; (etransitivity; [apply tkeeps_crashed|apply tkeeps_control]). }
  clearbody e2. destruct (latest_command e2) as [cmd e3] eqn:E3.
  assert (K3 : tkeeps e2 e3).
  { revert E3. unfold latest_command. destruct (decide _); intros [= _ <-]; [done|apply tkeeps_control]. }
  pose proof (tkeeps_switch cmd e3) as K4. set (e4 := transport_switch cmd e3) in *. clearbody e4.
  assert (K : tkeeps e e4) by (transitivity e1; [done|]; transitivity e2; [done|]; by transitivity e3).
  intros E. transitivity e4; [done|]. revert E. unfold next_position. cbv zeta.
  set (e5 := if decide (transport_state (control e4) = _) then _ else e4).
  assert (K5 : tkeeps e4 e5) by (unfold e5; destruct (decide _); [apply tkeeps_control|done]). clearbody e5.
  destruct (negb _).
  - destruct (jack_transport_copy_position _); [|done]. intros [= <-].
    transitivity e5; [done|]. do 2 (etransitivity; [|apply tkeeps_control]). apply tkeeps_control.
  - intros [= <-]. transitivity e5; [done|]. etransitivity; apply tkeeps_control.
Qed.

Lemma tkeeps_new_pos pos e e' : jack_transport_request_new_pos pos e = Some e' -> tkeeps e e'.
Proof.
  unfold jack_transport_request_new_pos. destruct (jack_generate_unique_id (control e)) as [uid t].
  destruct (jack_transport_copy_position _); [|done]. intros [= <-]. by constructor.
Qed.

Lemma tkeeps_call_sync ready c e : tkeeps e (jack_call_sync_client ready c e).
Proof.
  unfold jack_call_sync_client. cbv zeta. destruct (_ && _); [|done].
  set (e1 := if ready then _ else e).
  assert (K : tkeeps e e1).
  { unfold e1. destruct ready; [|done]. destruct (sync_poll _); [|done].
    etransitivity; [|apply tkeeps_control]. by apply tkeeps_client. }
  transitivity e1; [done|]. by apply tkeeps_client.
Qed.

Lemma tkeeps_call_timebase cb c e : tkeeps e (jack_call_timebase_master cb c e).
Proof.
  unfold jack_call_timebase_master. cbv zeta.
  destruct (is_timebase _); [|by apply tkeeps_client].
  destruct (if timebase_new _ then _ else _) as [np e1] eqn:E.
  assert (K : tkeeps e e1) by (destruct (timebase_new _); injection E as _ <-; [by apply tkeeps_client|done]).
  destruct (_ || _); [|done]. transitivity e1; [done|apply tkeeps_control].
Qed.

(** Requests that change who is master or who is waited for: zombies stay
    zombies, and nobody dies. *)
Record zkeeps (e e' : engine) : Prop := {
  zk_server : server_frame e e';
  zk_dead : forall d, dead (the_client e' d) = dead (the_client e d);
  zk_zombie : forall d, zombie d e -> zombie d e';
  zk_next : next_client_id e' = next_client_id e
}.

#[global] Instance zkeeps_preorder : PreOrder zkeeps.
Proof.
  split; [intros e; by constructor|]. intros e1 e2 e3 [A1 A2 A3 A4] [B1 B2 B3 B4].
  constructor; [by transitivity e2|congruence|auto|congruence].
Qed.

Lemma zkeeps_inv e e' : zkeeps e e' -> transport_inv e' -> engine_inv e -> engine_inv e'.
Proof.
  intros [F D Z N] T' H. apply (engine_inv_transport e); [done|done|done| |done].
  intros d Hd Hdd. rewrite D in Hdd. split; [done|]. by apply Z, (ei_zombies e H).
Qed.

Lemma zkeeps_tkeeps e e' : tkeeps e e' -> zkeeps e e'.
Proof.
  intros [F V Tb N]. assert (V' : forall d, dead (the_client e' d) = dead (the_client e d) /\
    active (the_client e' d) = active (the_client e d) /\
    active_slowsync (the_client e' d) = active_slowsync (the_client e d)).
  { intros d. specialize (V d). unfold zview in V. by injection V as -> -> ->. }
  constructor; [done|apply V'| |done].
  intros d [Z1 Z2 Z3 Z4]. destruct (V' d) as (W1 & W2 & W3). constructor; congruence.
Qed.

Lemma zkeeps_control f e : zkeeps e (upd_control f e).
Proof. apply zkeeps_tkeeps, tkeeps_control. Qed.

(** [c] may change its flags if it is no zombie, or by giving up the polling. *)
Lemma zkeeps_client c f e :
  (forall x, cview (f x) = cview x) -> (forall x, dead (f x) = dead x) ->
  (forall x, active (f x) = active x) ->
  (active (the_client e c) = false -> forall x, active_slowsync x = false -> active_slowsync (f x) = false) ->
  zkeeps e (upd_client c f e).
Proof.
  intros F1 F2 F3 F4. constructor; [by apply server_frame_client| | |done].
  - intros d. by apply the_client_upd_field.
  - intros d [Z1 Z2 Z3 Z4]. constructor; [by rewrite (the_client_upd_field e c d f dead)
      |by rewrite (the_client_upd_field e c d f active)|done|].
    destruct (decide (c = d)) as [->|Hne]; [|by rewrite the_client_upd_ne].
    destruct (client_store e !! d) as [x|] eqn:Ex.
    + rewrite the_client_upd, decide_True by (done || by eexists). by apply F4.
    + unfold the_client, upd_client. cbn. by rewrite lookup_alter_eq, Ex.
Qed.

Lemma zkeeps_poll_deactivate c e : zkeeps e (jack_sync_poll_deactivate c e).
Proof.
  unfold jack_sync_poll_deactivate. cbv zeta. set (e1 := if sync_poll _ then _ else e).
  assert (K : zkeeps e e1).
  { unfold e1. destruct (sync_poll _); [|done]. etransitivity; [|apply zkeeps_control].
    by apply zkeeps_tkeeps, tkeeps_client. }
  transitivity e1; [done|]. etransitivity; [|apply zkeeps_control]. by apply zkeeps_client.
Qed.

Lemma zkeeps_poll_new c e : zkeeps e (jack_sync_poll_new c e).
Proof.
  unfold jack_sync_poll_new. cbv zeta. set (e1 := upd_control _ e).
  transitivity e1; [apply zkeeps_control|]. set (e2 := upd_client c (fun x => x <| sync_new := true |>) e1).
  transitivity e2; [by apply zkeeps_tkeeps, tkeeps_client|]. clearbody e1 e2.
  set (e3 := if negb _ then _ else e2).
  assert (K : zkeeps e2 e3).
  { unfold e3. destruct (negb _); [|done]. etransitivity; [|apply zkeeps_control].
    by apply zkeeps_tkeeps, tkeeps_client. }
  transitivity e3; [done|]. destruct (decide _); [apply zkeeps_control|done].
Qed.

Lemma timebase_reset_keeps i e : engine_inv e -> engine_inv (jack_timebase_reset i e).2.
Proof.
  intros H. apply (zkeeps_inv e); [|by apply timebase_reset_transport, H|done].
  unfold jack_timebase_reset. destruct (jack_client_internal_by_id e i) as [c|]; [|done].
  destruct (decide _) as [Hm|]; [|done]. cbn [snd]. etransitivity; [|apply zkeeps_control].
  set (e1 := upd_client c _ e). assert (K : zkeeps e e1) by (by apply zkeeps_tkeeps, tkeeps_client).
  clearbody e1. transitivity e1; [done|]. constructor; try done. intros d []. by constructor.
Qed.

(** The source does not ask whether the client is dead; a zombie that became
    master would leave a dangling [timebase_client] when it is removed. *)
Lemma timebase_set_keeps i cond e :
  engine_inv e -> (forall c, jack_client_internal_by_id e i = Some c -> dead (the_client e c) = false) ->
  engine_inv (jack_timebase_set i cond e).2.
Proof.
  intros H Hlive. apply (zkeeps_inv e); [|by apply timebase_set_transport, H|done].
  unfold jack_timebase_set. destruct (jack_client_internal_by_id e i) as [c|]; [|done].
  specialize (Hlive c eq_refl). destruct (_ && _); [by destruct (decide _)|]. cbv zeta. cbn [snd].
  set (e1 := match timebase_client e with Some m => _ | None => e end).
  assert (K1 : zkeeps e e1)
    by (unfold e1; destruct (timebase_client e); [by apply zkeeps_tkeeps, tkeeps_client|done]).
  rewrite <- (zk_dead e e1 K1) in Hlive. clearbody e1. transitivity e1; [done|].
  set (e2 := e1 <| timebase_client := Some c |>).
  assert (K2 : zkeeps e1 e2).
  { constructor; try done. intros d [Z1 Z2 Z3 Z4]. constructor; try done.
    change (Some c <> Some d). intros [= ->]. congruence. }
  transitivity e2; [done|]. clearbody e2. set (e3 := upd_client c _ e2).
  transitivity e3; [by apply zkeeps_tkeeps, tkeeps_client|]. clearbody e3.
  destruct (active _); [|done]. by apply zkeeps_tkeeps, tkeeps_client.
Qed.

Lemma reset_sync_keeps i e : engine_inv e -> engine_inv (jack_transport_client_reset_sync i e).2.
Proof.
  intros H. apply (zkeeps_inv e); [|by apply reset_sync_transport, H|done].
  unfold jack_transport_client_reset_sync. destruct (jack_client_internal_by_id e i) as [c|]; [|done].
  destruct (is_slowsync _); [|done]. cbv zeta. cbn [snd]. set (e1 := if active_slowsync _ then _ else e).
  assert (K : zkeeps e e1) by (unfold e1; destruct (active_slowsync _); [apply zkeeps_poll_deactivate|done]).
  transitivity e1; [done|]. by apply zkeeps_tkeeps, tkeeps_client.
Qed.

Lemma set_sync_keeps i e : engine_inv e -> engine_inv (jack_transport_client_set_sync i e).2.
Proof.
  intros H. apply (zkeeps_inv e); [|by apply set_sync_transport, H|done].
  unfold jack_transport_client_set_sync. destruct (jack_client_internal_by_id e i) as [c|]; [|done].
  cbv zeta. cbn [snd]. set (e1 := if negb _ then _ else e).
  assert (K : zkeeps e e1).
  { unfold e1. destruct (negb _); [|done]. set (e2 := upd_client c _ e).
    assert (K2 : zkeeps e e2) by (by apply zkeeps_tkeeps, tkeeps_client). clearbody e2.
    transitivity e2; [done|]. destruct (active (the_client e2 c)) eqn:Ea; [|done].
    etransitivity; [|apply zkeeps_control]. apply zkeeps_client; try done. by rewrite Ea. }
  transitivity e1; [done|]. destruct (active_slowsync _); [apply zkeeps_poll_new|done].
Qed.

(** ** Connections *)

Section io.
Context (env : environment).

Lemma ends_zombie e e' :
  engine_inv e -> graph_frame e e' -> graph_inv e' ->
  (forall k x', ends e' !! k = Some x' -> ends e !! k = Some x') -> engine_inv e'.
Proof.
  intros H F G Hs. apply (engine_inv_graph e); [done|done| |done]. intros k x d Hx Hd Hdd.
  destruct (ends_inv e k (x <| dir := 0 |>)) as (y & Hy & E); [by apply Hs, ends_some|].
  injection E as _ _ E1 E2. rewrite E1, E2. by apply (is_conns d e (proj1 (ei_zombies e H d Hd Hdd)) k).
Qed.

(** A zombie is not active, so nothing is connected to it. *)
Lemma connect_keeps src dst e : engine_inv e -> engine_inv (jack_port_do_connect env src dst e).2.
Proof.
  intros H. pose proof (sv_graph e (ei_server e H)) as G. pose proof (frame_connect env src dst e) as F.
  pose proof (do_connect_cases env src dst e G) as Hc.
  destruct (jack_port_do_connect env src dst e) as [ret e']. cbn [snd] in *.
  destruct Hc as [[_ ->]|(sp & dp & s & d & _ & _ & As & Ad & _ & C & El)]; [done|].
  pose proof (connect_locked_inv env sp dp s d e G C) as Hl. rewrite <- El in Hl.
  destruct Hl as [G' [[_ ->]|(_ & k & x & Hk & Hs & _ & _ & E3 & E4)]]; [done|].
  apply (engine_inv_graph e); [done|done| |done]. intros j y z Hy Hz Hzd.
  destruct (ei_zombies e H z Hz Hzd) as [Hi [_ Hna _ _]]. rewrite Hs in Hy.
  destruct (decide (j = k)) as [->|Hne].
  - rewrite lookup_insert_eq in Hy. injection Hy as <-. rewrite E3, E4. split; congruence.
  - rewrite lookup_insert_ne in Hy by done. by apply (is_conns z e Hi j).
Qed.

Lemma disconnect_keeps src dst e : engine_inv e -> engine_inv (jack_port_do_disconnect env src dst e).2.
Proof.
  intros H. pose proof (sv_graph e (ei_server e H)) as G. unfold jack_port_do_disconnect.
  destruct (jack_get_port_by_name e src) as [sp|] eqn:Es; [|done].
  destruct (jack_get_port_by_name e dst) as [dp|]; [|done].
  pose proof (frame_disconnect_internal env sp dp e) as F.
  pose proof (disconnect_internal_spec env sp dp e G (proj1 (port_by_name_spec e src sp Es))) as Hd.
  destruct (jack_port_disconnect_internal env sp dp e) as [ret e']. cbn [snd] in *.
  destruct Hd as [G' Hd]. apply (ends_zombie e); [done..|]. intros k x' Hx.
  assert (Hcases : ends e' = ends e \/ exists j, ends e' = delete j (ends e))
    by (destruct ret; naive_solver).
  destruct Hcases as [E|[j E]]; rewrite E in Hx; [done|]. by apply lookup_delete_Some in Hx as [_ Hx].
Qed.

Lemma disconnect_all_keeps id e :
  0 <= id -> engine_inv e -> engine_inv (jack_port_do_disconnect_all env id e).2.
Proof.
  intros Hid H. unfold jack_port_do_disconnect_all. destruct (Z.geb_spec id (zlen (ports e))); [done|]. cbn [snd].
  destruct (clear_all env [Z.to_nat id] e H) as (H1 & _).
  { intros p Hp. apply list_elem_of_singleton in Hp as ->. lia. }
  cbn [foldl] in H1. set (e1 := jack_port_clear_connections _ _ e) in *. clearbody e1.
  apply (engine_inv_frame e1); [apply frame_sort_graph|apply same_graph_sort|done].
Qed.

(** ** Ports and buffers *)

(** Who owns what stays; names, offsets and buffers may change. *)
Record owner_frame (e e' : engine) : Prop := {
  of_transport : transport_frame e e';
  of_conns : conn_store e' = conn_store e;
  of_used : forall p, in_use (the_port e' p) = in_use (the_port e p);
  of_owner : forall p, client_id (the_port e' p) = client_id (the_port e p);
  of_lists : forall d, c_ports (the_client e' d) = c_ports (the_client e d)
}.

#[global] Instance owner_frame_preorder : PreOrder owner_frame.
Proof.
  split; [intros e; by constructor|]. intros e1 e2 e3 [] []. constructor; [by transitivity e2|congruence..].
Qed.

Lemma owner_frame_ids e e' d : owner_frame e e' -> c_id (the_client e' d) = c_id (the_client e d).
Proof.
  intros [F _ _ _ _]. pose proof (transport_frame_view e e' d F) as E. unfold lview, tview in E.
  by injection E as _ _ _ _ _ _ -> _ _.
Qed.

Lemma owner_frame_event e e' : event_frame e e' -> owner_frame e e'.
Proof.
  intros F. constructor.
  - by apply graph_frame_transport, graph_frame_event.
  - by apply (event_frame_get conn_store e e').
  - intros p. unfold the_port. by rewrite (event_frame_get ports e e').
  - intros p. unfold the_port. by rewrite (event_frame_get ports e e').
  - intros d. by apply (event_frame_field c_ports e e').
Qed.

(** A rewriting of the port table that keeps the owners. *)
Lemma owner_frame_map (f : port -> port) e e' :
  transport_frame e e' -> client_store e' = client_store e -> conn_store e' = conn_store e ->
  ports e' = f <$> ports e -> (forall x, in_use (f x) = in_use x) -> (forall x, client_id (f x) = client_id x) ->
  owner_frame e e'.
Proof.
  intros F Es Ec Ep F1 F2. constructor; [done|done|..].
  - intros p. unfold the_port. rewrite Ep, list_lookup_fmap. destruct (ports e !! p); cbn; auto.
  - intros p. unfold the_port. rewrite Ep, list_lookup_fmap. destruct (ports e !! p); cbn; auto.
  - intros d. unfold the_client. by rewrite Es.
Qed.

(** Ports of [c], who is alive, come and go. *)
Lemma engine_inv_ports c e e' :
  engine_inv e -> server_inv e' -> transport_frame e e' -> c ∈ clients e -> dead (the_client e c) = false ->
  (forall k x', conn_store e' !! k = Some x' -> exists x, conn_store e !! k = Some x /\
     srcclient x' = srcclient x /\ dstclient x' = dstclient x) ->
  (forall p, in_use (the_port e' p) = true ->
     in_use (the_port e p) = true /\ client_id (the_port e' p) = client_id (the_port e p) \/
     client_id (the_port e' p) = c_id (the_client e c)) ->
  (forall d, d <> c -> c_ports (the_client e' d) = c_ports (the_client e d)) -> engine_inv e'.
Proof.
  intros H I' F Hc Hlive Hk Hp Hl.
  assert (V : forall d, dead (the_client e' d) = dead (the_client e d) /\ c_id (the_client e' d) = c_id (the_client e d)).
  { intros d. pose proof (transport_frame_view e e' d F) as E. unfold lview, tview in E.
    by injection E as _ -> _ _ _ _ -> _ _. }
  constructor; [done|by apply (transport_frame_inv e), H| |].
  - intros d Hd. rewrite (tf_clients e e' F) in Hd. destruct (V d) as [-> Vi]. intros Hdd.
    destruct (ei_zombies e H d Hd Hdd) as [[S1 S2 S3] Z]. split; [|by apply (zombie_frame d e)].
    assert (Hne : d <> c) by congruence. constructor.
    + intros k x' Hx. destruct (Hk k x' Hx) as (x & Hx0 & -> & ->). by apply (S1 k).
    + intros p Hu. rewrite Vi. destruct (Hp p Hu) as [[Hu0 ->]| ->]; [by apply S2|].
      intros E. apply Hne. symmetry. by apply (gi_ids e (sv_graph e (ei_server e H))).
    + by rewrite Hl.
  - destruct (ei_ids e H) as [N1 N2 N3]. constructor; rewrite (tf_next_id e e' F); [done| |].
    + intros d. rewrite (tf_clients e e' F), (proj2 (V d)). apply N2.
    + intros p Hu. destruct (Hp p Hu) as [[Hu0 ->]| ->]; [by apply N3|by apply N2].
Qed.

Lemma engine_inv_owner e e' : engine_inv e -> server_inv e' -> owner_frame e e' -> engine_inv e'.
Proof.
  intros H I' O. pose proof (of_transport e e' O) as F.
  constructor; [done|by apply (transport_frame_inv e), H| |].
  - intros d Hd Hdd. rewrite (tf_clients e e' F) in Hd.
    pose proof (transport_frame_view e e' d F) as E. unfold lview, tview in E. injection E as _ E2 _ _ _ _ _ _ _.
    destruct (ei_zombies e H d Hd) as [[S1 S2 S3] Z]; [congruence|]. split; [|by apply (zombie_frame d e)].
    constructor; [by rewrite (of_conns e e' O)| |by rewrite (of_lists e e' O)].
    intros p. rewrite (of_used e e' O), (of_owner e e' O), (owner_frame_ids e e' d O). apply S2.
  - destruct (ei_ids e H) as [N1 N2 N3]. constructor; rewrite (tf_next_id e e' F); [done| |].
    + intros d. rewrite (tf_clients e e' F), (owner_frame_ids e e' d O). apply N2.
    + intros p. rewrite (of_used e e' O), (of_owner e e' O). apply N3.
Qed.

(** Work on the port table and the buffer lists only. *)
Record table_frame (e e' : engine) : Prop := {
  tb_transport : transport_frame e e';
  tb_store : client_store e' = client_store e;
  tb_conns : conn_store e' = conn_store e
}.

#[local] Instance table_frame_preorder : PreOrder table_frame.
Proof. split; [done|]. intros e1 e2 e3 [] []. constructor; [by transitivity e2|congruence..]. Qed.

Lemma table_frame_release p e : table_frame e (jack_port_release p e).
Proof. unfold jack_port_release. cbv zeta. by destruct (buffer_info _). Qed.

Lemma table_frame_assign p e : table_frame e (jack_port_assign_buffer p e).2.
Proof. unfold jack_port_assign_buffer. cbv zeta. destruct (has_flag _ _); [done|]. by destruct (blist_freelist _). Qed.

Lemma table_frame_naming req internal x e : table_frame e (port_naming req internal x e).2.
Proof.
  pose proof (port_naming_spec req internal x e) as H. destruct (port_naming req internal x e) as [y e'].
  destruct H as [_ E]. cbn [snd]. constructor; [|by rewrite E..]. constructor; by rewrite E.
Qed.

Lemma register_frame req internal e :
  let e' := (jack_port_do_register env req internal e).2 in
  transport_frame e e' /\ conn_store e' = conn_store e /\
  (forall d, jack_client_internal_by_id e (req_client_id req) <> Some d ->
     c_ports (the_client e' d) = c_ports (the_client e d)).
Proof.
  cbv zeta. unfold jack_port_do_register. cbv zeta.
  destruct (find_port_type _ _ _) as [i|]; [|done]. destruct (jack_client_internal_by_id e _) as [c|]; [|done].
  destruct (jack_get_port_by_name _ _); [done|]. unfold jack_get_free_port. destruct (find_port _ _ _) as [p|]; [|done].
  set (e0 := upd_port p _ e). assert (F0 : table_frame e e0) by done. clearbody e0.
  pose proof (table_frame_naming req internal (the_port e0 p) e0) as F1.
  destruct (port_naming _ _ _ _) as [x e1]. cbn [snd] in F1. set (e2 := upd_port p _ e1).
  assert (F2 : table_frame e1 e2) by done. clearbody e2. pose proof (table_frame_assign p e2) as F3.
  destruct (jack_port_assign_buffer p e2) as [rc e3]. cbn [snd] in F3.
  assert (F : table_frame e e3) by (transitivity e0; [done|]; transitivity e1; [done|]; by transitivity e2).
  destruct (negb _); cbn [snd].
  - pose proof (table_frame_release p e3) as F4. set (e4 := jack_port_release p e3) in *. clearbody e4.
    assert (F5 : table_frame e e4) by (by transitivity e3). destruct F5 as [T S C].
    split_and!; [done|done|]. intros d _. unfold the_client. by rewrite S.
  - destruct F as [T S C]. set (e4 := upd_client c _ e3).
    assert (T4 : transport_frame e3 e4) by (by apply transport_frame_client).
    assert (C4 : conn_store e4 = conn_store e3) by done.
    assert (L4 : forall d, d <> c -> the_client e4 d = the_client e3 d) by (intros d Hd; by apply the_client_upd_ne).
    clearbody e4. set (e5 := if active _ then _ else e4).
    assert (F5 : event_frame e4 e5) by (unfold e5; destruct (active _); [apply deliver_where_frame|done]).
    clearbody e5. split_and!.
    + transitivity e3; [done|]. transitivity e4; [done|]. by apply graph_frame_transport, graph_frame_event.
    + rewrite (event_frame_get conn_store e4 e5) by done. congruence.
    + intros d Hd. rewrite (event_frame_field c_ports e4 e5), L4 by (done || congruence).
      unfold the_client. by rewrite S.
Qed.

Lemma register_keeps req internal e :
  engine_inv e -> legal_flags (req_flags req) ->
  (forall c, jack_client_internal_by_id e (req_client_id req) = Some c -> dead (the_client e c) = false) ->
  engine_inv (jack_port_do_register env req internal e).2.
Proof.
  intros H Hfl Hlive. pose proof (register_frame req internal e) as F. cbv zeta in F.
  pose proof (register_spec env req internal e (ei_server e H)) as R.
  destruct (jack_port_do_register env req internal e) as [[ret id] e'] eqn:E. cbn [snd] in *.
  destruct F as (Ft & Fc & Fl), R as [I' R]. specialize (I' Hfl).
  destruct (jack_client_internal_by_id e (req_client_id req)) as [c|] eqn:Ec.
  2:{ unfold jack_port_do_register in E. rewrite Ec in E. by destruct (find_port_type _ _ _); injection E as _ _ <-. }
  pose proof Ec as Ec'. apply by_id_member in Ec' as [Hc Hid].
  apply (engine_inv_ports c e); [done|done|done|done|by apply Hlive|rewrite Fc; eauto| |intros d Hd; apply Fl; congruence].
  intros q Hq. destruct R as [(_ & _ & R1 & R2)|(_ & p & _ & Rp)].
  - left. rewrite R2 in Hq. by rewrite R1.
  - destruct (decide (q = p)) as [->|Hne].
    + right. by rewrite (rg_owner req e e' p Rp), Hid.
    + left. by rewrite (rg_others req e e' p Rp) in *.
Qed.


(** After the connections of the port have gone. *)
Lemma unregister_rest c p n e :
  engine_inv e -> c ∈ clients e -> (p < length (ports e))%nat ->
  let e1 := upd_client c (fun x => x <| c_ports ::= slist_remove p |>) (jack_port_release p e) in
  let e' := jack_port_registration_notify env n false e1 in
  server_inv e' -> engine_inv e'.
Proof.
  intros H Hc Hp. cbv zeta. destruct (lookup_lt_is_Some_2 _ _ Hp) as [x Hx].
  destruct (release_table p x e Hx) as (y & T & Y1 & _). pose proof (table_frame_release p e) as [Ft Fs Fk].
  set (e1 := jack_port_release p e) in *. clearbody e1.
  set (e2 := upd_client c _ e1).
  assert (T2 : transport_frame e1 e2) by (by apply transport_frame_client).
  assert (K2 : conn_store e2 = conn_store e1 /\ ports e2 = ports e1) by done.
  assert (L2 : forall d, d <> c -> the_client e2 d = the_client e1 d) by (intros d Hd; by apply the_client_upd_ne).
  assert (Hs : is_Some (client_store e1 !! c)) by (rewrite Fs; by apply (ei_transport e H)).
  assert (C2 : c_ports (the_client e2 c) = slist_remove p (c_ports (the_client e c))).
  { unfold e2. rewrite the_client_upd, decide_True by done. cbn. unfold the_client. by rewrite Fs. }
  clearbody e2. set (e3 := jack_port_registration_notify env n false e2).
  assert (F3 : event_frame e2 e3) by apply deliver_where_frame. clearbody e3. intros I3.
  pose proof (owner_frame_event e2 e3 F3) as O3.
  assert (Ft3 : transport_frame e e3).
  { transitivity e1; [done|]. transitivity e2; [done|]. apply O3. }
  assert (V : forall d, the_client e1 d = the_client e d) by (intros d; unfold the_client; by rewrite Fs).
  assert (Sh : shrinks c e e3).
  { constructor.
    - intros k x'. rewrite (of_conns e2 e3 O3), (proj1 K2), Fk. eauto.
    - intros q. rewrite (of_used e2 e3 O3), (of_owner e2 e3 O3).
      assert (E2 : the_port e2 q = the_port e1 q) by (unfold the_port; by rewrite (proj2 K2)). rewrite E2.
      destruct (decide (q = p)) as [->|Hne]; [by rewrite (table_port p y e e1 T Hp), Y1|].
      by rewrite (table_others p y e e1 q T Hne).
    - intros d Hd. by rewrite (of_lists e2 e3 O3), L2, V.
    - intros d. rewrite (owner_frame_ids e2 e3 d O3). pose proof (transport_frame_view e1 e2 d T2) as E.
      unfold lview, tview in E. injection E as _ _ _ _ _ _ E _ _. by rewrite E, V. }
  apply (engine_inv_leaves c e); [done|done|by apply (transport_frame_inv e), H|by apply leaves_tframe|].
  intros Hdd. pose proof (transport_frame_view e e3 c Ft3) as E. unfold lview, tview in E.
  injection E as _ E2 _ _ _ _ E7 _ _. rewrite E2 in Hdd.
  destruct (ei_zombies e H c Hc Hdd) as [[S1 S2 S3] Z]. split; [|by apply (zombie_frame c e)]. constructor.
  - intros k x' Hx'. destruct (sh_conns c e e3 Sh k x' Hx') as (x0 & Hx0 & -> & ->). by apply (S1 k).
  - intros q Hq. destruct (sh_ports c e e3 Sh q Hq) as [Hu ->]. rewrite E7. by apply S2.
  - by rewrite (of_lists e2 e3 O3), C2, S3.
Qed.

Lemma unregister_keeps req e ret e' :
  engine_inv e -> 0 <= req_port_id req ->
  jack_port_do_unregister env req e = Some (ret, e') -> engine_inv e'.
Proof.
  intros H Hz E. assert (Hr : 0 <= req_port_id req < zlen (ports e) \/ e' = e).
  { revert E. unfold jack_port_do_unregister. destruct (Z.gtb_spec (req_port_id req) (zlen (ports e))); [intros [= _ <-]; by right|].
    destruct (decide (req_port_id req = zlen (ports e))); [|intros _; left; lia].
    by rewrite (lookup_ge_None_2 (ports e) (Z.to_nat (req_port_id req))) by lia. }
  destruct Hr as [Hr| ->]; [|done].
  destruct (unregister_spec env req e (ei_server e H) Hr) as (ret' & e0 & E' & I' & _).
  rewrite E in E'. injection E' as <- <-. revert E. unfold jack_port_do_unregister.
  destruct (Z.gtb_spec (req_port_id req) (zlen (ports e))); [lia|].
  assert (Hlt : (Z.to_nat (req_port_id req) < length (ports e))%nat) by lia.
  destruct (lookup_lt_is_Some_2 _ _ Hlt) as [x Hx]. rewrite Hx. cbn [mbind option_bind].
  destruct (negb _); [by intros [= _ <-]|].
  destruct (jack_client_internal_by_id e (client_id x)) as [c|] eqn:Ec; [|by intros [= _ <-]].
  apply by_id_member in Ec as [Hc _]. cbv zeta.
  destruct (clear_all env [Z.to_nat (req_port_id req)] e H) as (H1 & F1 & _).
  { intros p Hp. by apply list_elem_of_singleton in Hp as ->. }
  cbn [foldl] in H1, F1. set (e1 := jack_port_clear_connections _ _ e) in *. clearbody e1.
  intros E. apply (inj Some), (f_equal snd) in E. cbn [snd] in E. rewrite <- E in *.
  apply unregister_rest; [done|by rewrite (gf_clients e e1 F1)|by rewrite (graph_frame_length e e1 F1)|done].
Qed.

(** Unregistering with a valid port id always returns and keeps the
    invariant of the engine.  It refuses, changing nothing, when the port is
    not the client's or the client does not exist; otherwise the port is free,
    holds no buffer, is in no client's list and at the end of no connection,
    and all other ports keep everything but their connections and latency. *)
Theorem unregister_correct req e :
  engine_inv e -> 0 <= req_port_id req < zlen (ports e) ->
  let p := Z.to_nat (req_port_id req) in
  exists ret e', jack_port_do_unregister env req e = Some (ret, e') /\ engine_inv e' /\
  (ret = -1 /\ e' = e /\ (client_id (the_port e p) <> req_client_id req \/
                           jack_client_internal_by_id e (req_client_id req) = None) \/
   ret = 0 /\ client_id (the_port e p) = req_client_id req /\
   in_use (the_port e' p) = false /\ buffer_info (the_port e' p) = None /\
   (forall c, c ∈ clients e' -> p ∉ c_ports (the_client e' c)) /\
   (forall k x, conn_store e' !! k = Some x -> source x <> p /\ destination x <> p) /\
   (forall q, q <> p -> pother (the_port e' q) = pother (the_port e q))).
Proof.
  intros H Hr. destruct (unregister_spec env req e (ei_server e H) Hr) as (ret & e' & E & _ & R).
  exists ret, e'. split; [done|]. split; [by apply (unregister_keeps req e ret); [|lia|]|done].
Qed.

(** ** Buffer sizes *)

Lemma replace_offsets_owner t info x :
  in_use (replace_offsets t info x) = in_use x /\ client_id (replace_offsets t info x) = client_id x.
Proof. unfold replace_offsets. destruct (_ && _); [|done]. by destruct (buffer_info x). Qed.

Lemma place_owner block ptid one size nports nframes e e' :
  jack_engine_place_port_buffers block ptid one size nports nframes e = Some e' -> owner_frame e e'.
Proof.
  unfold jack_engine_place_port_buffers. destruct (port_buffers e !! _) as [pti|]; [|done].
  cbn [mbind option_bind]. destruct (match blist_info pti with Some _ => _ | None => _ end) as [[info e1]|] eqn:E; [|done].
  assert (O : owner_frame e e1).
  { destruct (blist_info pti).
    - destruct (recompute_offsets _ _ _ _ _ _) as [i2|]; [|done]. cbn in E. injection E as -> <-.
      apply (owner_frame_map (replace_offsets ptid info)); try done; intros x; apply replace_offsets_owner.
    - destruct (chain_buffers _ _ _ _ _ _ _) as [[i2 [|bi free]]|]; [done| |done]. cbn in E.
      destruct (ptid =? _); injection E as _ <-; by constructor. }
  cbn [mbind option_bind]. destruct (mapM _ _) as [offs|]; [|done]. cbn [mbind option_bind]. intros [= <-].
  transitivity e1; [done|]. by constructor.
Qed.

Section memory.
Context (mem : allocator) (Hmem : forall n, 0 <= n -> zlen (al_malloc mem n) = n).

Lemma resize_owner ptid nports e rc e' :
  jack_resize_port_segment env mem ptid nports e = Some (rc, e') -> owner_frame e e'.
Proof.
  unfold jack_resize_port_segment. destruct (port_types e !! _) as [t|]; [|done].
  cbn [mbind option_bind]. cbv zeta. set (attached := if _ =? 0 then _ else _).
  assert (Ha : forall e1, attached = Some e1 -> owner_frame e e1).
  { intros e1. unfold attached. destruct (_ =? 0).
    - destruct (al_shmalloc _ _ _); intros [= <-]. by constructor.
    - destruct (al_resize _ _ _); by intros [= <-]. }
  clearbody attached. destruct attached as [e1|]; [|by intros [= _ <-]]. specialize (Ha e1 eq_refl).
  destruct (jack_engine_place_port_buffers _ _ _ _ _ _ e1) as [e2|] eqn:E2; [|done]. cbn [mbind option_bind].
  intros E. apply (inj Some), (f_equal snd) in E. cbn [snd] in E. rewrite <- E.
  transitivity e1; [done|]. transitivity e2; [by eapply place_owner|]. apply owner_frame_event, deliver_where_frame.
Qed.

Lemma resize_all_owner l e rc e' : resize_all env mem l e = Some (rc, e') -> owner_frame e e'.
Proof.
  revert e. induction l as [|i l IH]; intros e; cbn [resize_all]; [by intros [= _ <-]|].
  destruct (jack_resize_port_segment _ _ _ _ _) as [[rc1 e1]|] eqn:E1; [|done]. cbn [mbind option_bind].
  apply resize_owner in E1. destruct (negb _); [by intros [= _ <-]|].
  intros E. transitivity e1; [done|by apply IH].
Qed.

Lemma driver_buffer_size_owner n e rc e' :
  jack_driver_buffer_size env mem n e = Some (rc, e') -> owner_frame e e'.
Proof.
  unfold jack_driver_buffer_size. cbv zeta. set (e1 := upd_control _ e).
  assert (O1 : owner_frame e e1) by (by constructor). clearbody e1.
  destruct (resize_all _ _ _ _) as [[rc2 e2]|] eqn:E2; [|done]. cbn [mbind option_bind].
  apply resize_all_owner in E2. assert (O2 : owner_frame e e2) by (by transitivity e1).
  destruct (negb _); [by intros [= _ <-]|]. intros E. apply (inj Some), (f_equal snd) in E. cbn [snd] in E.
  rewrite <- E. transitivity e2; [done|]. apply owner_frame_event, deliver_where_frame.
Qed.

Lemma driver_buffer_size_keeps n e rc e' :
  engine_inv e -> sizes_fit e n -> jack_driver_buffer_size env mem n e = Some (rc, e') -> engine_inv e'.
Proof.
  intros H Hs E. destruct (driver_buffer_size_spec env mem Hmem n e (ei_server e H) Hs) as (rc' & e0 & E' & I' & _).
  rewrite E in E'. injection E' as <- <-. apply (engine_inv_owner e); [done|done|by eapply driver_buffer_size_owner].
Qed.

(** A change of the buffer size, when the segments stay below 2^31 bytes,
    always returns and keeps the invariant of the engine.  When it succeeds
    the buffers of every port type lie one after the other in its segment and
    every output port in use points to the buffer it holds. *)
Theorem driver_buffer_size_correct n e :
  engine_inv e -> sizes_fit e n ->
  exists ret e', jack_driver_buffer_size env mem n e = Some (ret, e') /\ engine_inv e' /\
    buffer_size (control e') = n /\ length (ports e') = length (ports e) /\
    (ret = -1 \/ ret = 0 /\ forall i, (i < length (port_types e))%nat -> laid_out e' i n).
Proof.
  intros H Hs. destruct (driver_buffer_size_spec env mem Hmem n e (ei_server e H) Hs) as (rc & e' & E & _ & R1 & R2 & _ & R).
  exists rc, e'. split; [done|]. split; [by apply (driver_buffer_size_keeps n e rc)|done].
Qed.

End memory.

(** ** Failed clients and reservations *)

(** The count of failures is nobody's concern but the remover's. *)
Lemma error_keeps c f e :
  (forall x, cview (f x) = cview x) -> (forall x, tview (f x) = tview x) ->
  engine_inv e -> engine_inv (upd_client c f e).
Proof.
  intros F1 F2 H.
  assert (V : forall x, sync_poll (f x) = sync_poll x /\ active_slowsync (f x) = active_slowsync x /\
    is_timebase (f x) = is_timebase x /\ slow_ok (f x) = slow_ok x /\ zview (f x) = zview x).
  { intros x. specialize (F2 x). unfold tview in F2. injection F2 as E1 E2 E3 E4 E5 E6.
    unfold slow_ok, zview. by rewrite E1, E2, E3, E4, E5, E6. }
  apply (tkeeps_inv e); [|apply transport_inv_frame; [apply V|apply V|intros x; by destruct (V x) as (_ & _ & _ & -> & _)|apply V|apply H]|done].
  apply tkeeps_client; [done|apply V].
Qed.

Lemma mark_socket_error_keeps fd e : engine_inv e -> engine_inv (jack_mark_client_socket_error fd e).
Proof.
  intros H. unfold jack_mark_client_socket_error. destruct (find _ _); [|done]. by apply error_keeps.
Qed.

Lemma engine_inv_counts e e' :
  server_frame e e' -> client_store e' = client_store e -> control e' = control e ->
  timebase_client e' = timebase_client e -> nozombies e' = nozombies e -> next_client_id e' = next_client_id e ->
  engine_inv e -> engine_inv e'.
Proof.
  intros F Es Ec Et En Ei. apply engine_inv_frames; [done|].
  constructor; try done; [by rewrite (fr_clients e e' F)|by rewrite Es|by rewrite Ec..].
Qed.

Lemma check_clients_keeps timeout fin e : engine_inv e -> engine_inv (jack_check_clients timeout fin e).2.
Proof.
  intros H. unfold jack_check_clients.
  assert (K : forall l n e, engine_inv e -> engine_inv (foldl (check_client timeout fin) (n, e) l).2).
  { clear e H. induction l as [|c l IH]; intros n e H; [done|]. cbn [foldl].
    destruct (check_client timeout fin (n, e) c) as [n1 e1] eqn:E. apply IH. revert E. unfold check_client. cbv zeta.
    destruct (negb _); [by intros [= _ <-]|]. destruct (_ && _); [|by intros [= _ <-]].
    destruct (fin c =? 0); intros E; apply (f_equal snd) in E; cbn [snd] in E; rewrite <- E.
    - by apply error_keeps.
    - set (e2 := upd_client c _ e). assert (H2 : engine_inv e2) by (by apply error_keeps). clearbody e2.
      by apply (engine_inv_counts e2). }
  specialize (K (clients e) 0 e H). destruct (foldl _ _ _) as [n e1]. cbn [snd] in *.
  destruct (negb _); [|done]. by apply (engine_inv_counts e1).
Qed.

Lemma reserve_name_keeps name uuid ok e : engine_inv e -> engine_inv (jack_do_reserve_name name uuid ok e).2.
Proof.
  intros H. unfold jack_do_reserve_name. destruct (jack_client_by_name e name); [done|].
  destruct ok; [|done]. by apply (engine_inv_counts e).
Qed.

End io.

End ServerOps.
