(* ===== verification/RequestsInv.v ===== *)
(** * Requests keep the invariant (server/engine.c)

    Every request [do_request] dispatches keeps the invariant of the engine,
    on every branch, under the conditions that the code leaves to its
    callers. *)

From S2P Require Import Prelude JSList Engine Transport Events Graph GraphInv Connect.
From S2P Require Import GraphFrame Ports PortsInv Buffers Clients ClientsInv Frames Lifecycle.
From S2P Require Import Removal Activation Creation Requests ServerOps.

Local Open Scope Z_scope.

Module RequestsInv.
Import JSList Transport Events Graph GraphInv Connect GraphFrame Ports PortsInv Buffers.
Import Clients ClientsInv Frames Lifecycle Removal Activation Creation Requests ServerOps.

Definition live (e : engine) (id : Z) : Prop :=
  forall c, jack_client_internal_by_id e id = Some c -> dead (the_client e c) = false.

(** What the requests rely on: the [initialize] of an internal client uses
    the engine only through its operations and does not take its own client
    away, and a driver's [bufsize] method refuses or calls
    [jack_driver_buffer_size]. *)
Class WorldOk (env : environment) (w : request_world) : Prop := {
  wo_init : forall c e, engine_inv e -> c ∈ clients e ->
    engine_inv (cw_initialize (rw_client w) c e).2 /\ c ∈ clients (cw_initialize (rw_client w) c e).2;
  wo_bufsize : forall n e, (rw_bufsize w n e).2 = e \/
    exists mem ret, (forall n, 0 <= n -> zlen (al_malloc mem n) = n) /\
      jack_driver_buffer_size env mem n e = Some (ret, (rw_bufsize w n e).2)
}.

(** What the code does not check; port ids are unsigned. *)
Definition request_ok (w : request_world) (req : jack_request) (e : engine) : Prop :=
  match req with
  | RegisterPort info => legal_flags (req_flags info) /\ live e (req_client_id info)
  | UnRegisterPort info => 0 <= req_port_id info /\ req_port_id info <> zlen (ports e)
  | DisconnectPort id => 0 <= id
  | ActivateClient id => forall c, jack_client_internal_by_id e id = Some c ->
      active (the_client e c) = false /\ dead (the_client e c) = false
  | SetTimeBaseClient id _ => live e id
  | SetBufferSize n => sizes_fit e n
  | IntClientLoad _ _ => next_client_id e < UINT_MAX /\ fedcount (cw_block (rw_client w)) = 0
  | _ => True
  end.

(** A branch that returns an engine the frames relate by computation. *)
Ltac answered := let E := fresh in intros E; apply (inj Some) in E; subst; done.

Ltac returns := let E := fresh in
  intros E; apply (inj Some) in E;
  apply (f_equal snd) in E; cbn [snd] in E; subst; cbn [outcome_engine snd].

(** The transport steps among the requests. *)
Lemma transport_step_inv e e' : tstep e e' -> tkeeps e e' -> engine_inv e -> engine_inv e'.
Proof. intros St K H. apply (tkeeps_inv e); [done| |done]. by apply (tstep_transport e), H. Qed.

Section requests.
Context (env : environment) (finish : client_ptr -> engine -> engine) `{!FinishOk finish}.
Context (w : request_world) `{!WorldOk env w}.

(** ** Internal clients *)

(** An object file that cannot be loaded costs an id. *)
Lemma load_failure_keeps c x e :
  engine_inv e -> next_client_id e < UINT_MAX -> client_store e !! c = None ->
  engine_inv (jack_client_delete env c
    (e <| next_client_id := u32 (next_client_id e + 1) |> <| client_store ::= <[c := x]> |>)).
Proof.
  intros H Hn Hc. set (e1 := e <| next_client_id := u32 (next_client_id e + 1) |>).
  assert (E1 : next_client_id e1 = next_client_id e + 1) by (apply wrap_small; unfold UINT_MAX in Hn; destruct H as [_ _ _ []]; lia).
  assert (H1 : engine_inv e1).
  { destruct H as [I T Z [N1 N2 N3]]. constructor.
    - by apply (server_frame_inv e).
    - by destruct T as ([] & ? & []).
    - intros d Hd Hdd. destruct (Z d Hd Hdd) as [[] []]. by split; constructor.
    - constructor; rewrite E1; [lia| |]; [intros d Hd; specialize (N2 d Hd); change (the_client e1 d) with (the_client e d); lia|].
      intros p Hu. specialize (N3 p Hu). change (the_port e1 p) with (the_port e p). lia. }
  assert (Hc1 : client_store e1 !! c = None) by done. clearbody e1. clear H Hc E1 Hn.
  unfold jack_client_delete. set (e2 := e1 <| client_store ::= _ |>).
  set (e3 := jack_client_registration_notify _ _ _ e2).
  assert (F : event_frame e2 e3) by apply deliver_where_frame. clearbody e3.
  apply (engine_inv_event e1); [|done]. destruct F as [F1 F2]. constructor.
  - intros d. cbn. destruct (decide (d = c)) as [->|Hd].
    + by rewrite lookup_delete_eq, Hc1.
    + rewrite lookup_delete_ne, F1 by done. cbn. by rewrite lookup_insert_ne.
  - exact F2.
Qed.

Lemma load_request_keeps name options e :
  engine_inv e -> next_client_id e < UINT_MAX -> fedcount (cw_block (rw_client w)) = 0 ->
  engine_inv (outcome_engine (jack_intclient_load_request env finish (rw_client w) name options e).2).
Proof.
  intros H Hn Hf. unfold jack_intclient_load_request, setup_client.
  destruct (jack_client_name_invalid e name options 0) as [[n|] st]; [|done].
  cbn [negb Z.eqb]. unfold jack_setup_client_control.
  rewrite (bool_decide_eq_false_2 (ClientInternal = ClientExternal)) by done.
  rewrite (bool_decide_eq_true_2 (ClientInternal = ClientInternal)) by done. cbn [andb].
  set (c := fresh (dom (client_store e))). set (x := new_client _ _ _ _ _ _).
  assert (Hx : fresh_client (next_client_id e) x) by (by apply new_client_fresh).
  assert (Hc : client_store e !! c = None) by (apply not_elem_of_dom; apply is_fresh).
  clearbody x. destruct (cw_load_ok _); cbn [negb].
  2:{ by apply load_failure_keeps. }
  destruct (arrival_inv x c e (arrive c x e) H Hn Hx eq_refl eq_refl) as (H2 & _ & _ & _ & _ & _ & _ & C2).
  change (e <| next_client_id := _ |> <| client_store ::= _ |> <| clients ::= _ |>) with (arrive c x e).
  assert (Hin : c ∈ clients (arrive c x e)) by (rewrite C2; left).
  destruct (wo_init c (arrive c x e) H2 Hin) as [H3 Hc3].
  destruct (cw_initialize (rw_client w) c (arrive c x e)) as [rc e3]. cbn [snd] in *.
  destruct (negb _); [|done]. by apply (remove_client_keeps env finish c e3).
Qed.

Lemma unload_keeps id e :
  engine_inv e -> engine_inv (outcome_engine (handle_unload_client env finish id e).2).
Proof.
  unfold handle_unload_client. destruct (jack_client_internal_by_id e id) as [c|] eqn:E; [|done].
  apply by_id_member in E as [Hc _]. intros H. by apply (remove_client_keeps env finish c e).
Qed.

(** ** Sessions and freewheeling *)

Definition quiet (e e' : engine) : Prop := server_frame e e' /\ transport_frame e e'.

#[global] Instance quiet_preorder : PreOrder quiet.
Proof. split; [split; reflexivity|]. intros a b c [] []. split; by transitivity b. Qed.

Lemma quiet_keeps e e' : quiet e e' -> engine_inv e -> engine_inv e'.
Proof. intros [F T]. by apply engine_inv_frames. Qed.

Lemma quiet_client c f e :
  (forall x, cview (f x) = cview x) -> (forall x, lview (f x) = lview x) -> quiet e (upd_client c f e).
Proof. split; [by apply server_frame_client|by apply transport_frame_client]. Qed.

Lemma quiet_event e e' : event_frame e e' -> quiet e e'.
Proof.
  intros F. split; [by apply server_frame_event|]. by apply graph_frame_transport, graph_frame_event.
Qed.

Lemma ensure_uuids_quiet e : quiet e (ensure_uuids e).
Proof.
  unfold ensure_uuids. generalize (clients e) as l. intros l. revert e.
  induction l as [|c l IH]; intros e; cbn [foldl]; [reflexivity|].
  transitivity (if c_uid (the_client e c) =? 0
    then upd_client c (fun x => x <| c_uid := u32 (jack_engine_get_max_uuid e + 1) |>) e else e); [|apply IH].
  destruct (_ =? 0); [by apply quiet_client|reflexivity].
Qed.

Lemma send_final_quiet sw e : quiet e (send_final sw e).2.
Proof. unfold send_final. by destruct (sw_final_ok sw). Qed.

Lemma session_loop_quiet sw type target l e : quiet e (session_loop env sw type target l e).2.
Proof.
  revert e. induction l as [|c l IH]; intros e; cbn [session_loop]; [reflexivity|].
  destruct (session_cbset _); [|apply IH]. destruct (_ && _); [apply IH|].
  destruct (negb (sw_mkdir_ok sw c)); [reflexivity|].
  pose proof (quiet_event _ _ (deliver_frame env c (SaveSession type) e)) as F.
  destruct (jack_deliver_event _ _ _ _) as [reply e1]. cbn [snd] in F. transitivity e1; [done|].
  destruct (reply =? 1).
  - etransitivity; [|apply IH]. transitivity (e1 <| session_pending_replies ::= Z.succ |>); [done|].
    by apply quiet_client.
  - destruct (reply =? 2); [|apply IH]. destruct (negb _); [reflexivity|apply IH].
Qed.

Lemma session_notify_quiet sw type target fd e : quiet e (jack_do_session_notify env sw type target fd e).2.
Proof.
  unfold jack_do_session_notify. destruct (negb _); [apply send_final_quiet|]. cbv zeta.
  set (e0 := e <| session_reply_fd := fd |> <| session_pending_replies := 0 |>).
  transitivity e0; [done|]. pose proof (ensure_uuids_quiet e0) as Q. clearbody e0.
  transitivity (ensure_uuids e0); [done|]. generalize (ensure_uuids e0) as e1. intros e1.
  destruct (negb (sw_stat_ok sw)); [apply send_final_quiet|].
  pose proof (session_loop_quiet sw type target (clients e1) e1) as Q1.
  destruct (session_loop _ _ _ _ _ _) as [err e2]. cbn [snd] in Q1. transitivity e2; [done|].
  destruct err; [reflexivity|]. destruct (negb _); [reflexivity|apply send_final_quiet].
Qed.

Lemma session_reply_quiet sw id e r : jack_do_session_reply sw id e = Some r -> quiet e r.2.
Proof.
  unfold jack_do_session_reply. destruct (jack_client_internal_by_id e id) as [c|]; [|done].
  cbn [mbind option_bind]. cbv zeta.
  set (e1 := upd_client c _ e). assert (Q : quiet e e1) by (by apply quiet_client). clearbody e1.
  intros E. transitivity e1; [done|]. revert E. destruct (session_reply_fd e1 =? -1); [answered|].
  destruct (negb _); [answered|]. destruct (_ =? 0); answered.
Qed.

Lemma start_freewheeling_quiet id e r : jack_start_freewheeling env w id e = Some r -> quiet e r.2.
Proof.
  unfold jack_start_freewheeling. destruct (freewheeling e); [answered|].
  destruct (driver e); [|answered]. destruct (negb _); [answered|].
  destruct (jack_client_internal_by_id e id) as [c|]; [|done]. cbn [mbind option_bind]. cbv zeta.
  set (e1 := if runs_process _ then _ else e).
  assert (Q : quiet e e1) by (unfold e1; by destruct (runs_process _)). clearbody e1.
  intros E. apply (inj Some) in E. subst r. cbn [snd]. transitivity e1; [done|].
  transitivity (e1 <| freewheeling := true |> <| stop_freewheeling := false |>); [done|].
  apply quiet_event, deliver_where_frame.
Qed.

Lemma stop_freewheeling_quiet exiting e : quiet e (jack_stop_freewheeling env w exiting e).2.
Proof.
  unfold jack_stop_freewheeling. destruct (negb _); [reflexivity|]. destruct (driver e); [|reflexivity].
  cbv zeta. destruct (negb exiting); [|done].
  transitivity (e <| stop_freewheeling := true |> <| fwclient := 0 |> <| freewheeling := false |>); [done|].
  apply quiet_event, deliver_where_frame.
Qed.

(** ** The dispatcher *)

Lemma latencies_keep e :
  engine_inv e -> engine_inv (jack_compute_new_latency env (jack_compute_all_port_total_latencies e)).
Proof.
  intros H. apply (engine_inv_frame (jack_compute_all_port_total_latencies e));
    [apply frame_new_latency|apply same_graph_new_latency|].
  by apply (engine_inv_frame e); [apply frame_latencies|apply same_graph_latencies|].
Qed.

Lemma latency_keeps p e : engine_inv e -> engine_inv (jack_compute_port_total_latency p e).
Proof.
  unfold jack_compute_port_total_latency. destruct (in_use _); [|done].
  apply engine_inv_frame; [frame_step|by apply same_graph_upd_port].
Qed.

Lemma bufsize_request_keeps n e :
  sizes_fit e n -> engine_inv e -> engine_inv (jack_set_buffer_size_request (rw_bufsize w) n e).2.
Proof.
  intros Hs H. unfold jack_set_buffer_size_request. destruct (driver e); [|done].
  destruct (negb _); [done|]. destruct (wo_bufsize n e) as [->|(mem & ret & Hm & E)]; [done|].
  by eapply driver_buffer_size_keeps.
Qed.

(** Every request keeps the invariant, whatever the answer. *)
Lemma do_request_keeps internal req e ans o :
  engine_inv e -> request_ok w req e -> do_request env finish w internal req e = Some (ans, o) ->
  engine_inv (outcome_engine o).
Proof.
  intros H Hr. destruct req; cbn [do_request request_ok] in *; cbv zeta.
  - destruct Hr as [Hf Hl]. pose proof (register_keeps env info internal e H Hf Hl) as K.
    destruct (jack_port_do_register _ _ _ _) as [[st id] e']. by returns.
  - destruct (jack_port_do_unregister env info e) as [[ret e']|] eqn:E; [|done]. returns.
    by eapply unregister_keeps; [|apply Hr|].
  - returns. by apply connect_keeps.
  - returns. by apply disconnect_all_keeps.
  - returns. by apply disconnect_keeps.
  - pose proof (activate_spec env client_id e H) as K.
    destruct (jack_client_activate env client_id e) as [ret e']. returns. by apply K.
  - pose proof (deactivate_spec env client_id e H) as K.
    destruct (jack_client_deactivate env client_id e) as [ret e']. returns. by apply K.
  - returns. by apply timebase_set_keeps.
  - returns. by apply timebase_reset_keeps.
  - returns. by apply set_sync_keeps.
  - returns. by apply reset_sync_keeps.
  - returns. by apply (transport_step_inv e); [constructor|apply tkeeps_control|].
  - destruct internal; [done|]. destruct (jack_do_get_port_connections port_id e); [|done]. by returns.
  - destruct (jack_start_freewheeling env w client_id e) as [r|] eqn:E; [|done]. returns.
    by apply (quiet_keeps e); [eapply start_freewheeling_quiet|].
  - returns. apply (quiet_keeps e); [apply stop_freewheeling_quiet|done].
  - returns. by apply bufsize_request_keeps.
  - destruct (jack_intclient_handle_request name e). by returns.
  - pose proof (load_request_keeps name options e H) as K.
    destruct (jack_intclient_load_request _ _ _ _ _ _) as [[st id] o']. returns. destruct Hr. by apply K.
  - destruct (jack_intclient_name_request id e). by returns.
  - unfold jack_intclient_unload_request. destruct (negb _); [|by returns].
    pose proof (unload_keeps id e H) as K. destruct (handle_unload_client _ _ _ _). by returns.
  - returns. by apply latencies_keep.
  - destruct (ports e !! Z.to_nat port_id); [|done]. returns. by apply latency_keeps.
  - by returns.
  - returns. by apply reserve_name_keeps.
  - destruct (jack_do_session_reply (rw_session w) client_id e) as [r|] eqn:E; [|done]. returns.
    by apply (quiet_keeps e); [eapply session_reply_quiet|].
  - destruct internal; [done|]. returns. apply (quiet_keeps e); [apply session_notify_quiet|done].
  - by returns.
  - by returns.
Qed.

(** ** Unknown clients *)

(** The client a request is about. *)
Definition request_client (req : jack_request) : option Z :=
  match req with
  | RegisterPort info | UnRegisterPort info => Some (req_client_id info)
  | ActivateClient id | DeactivateClient id | SetTimeBaseClient id _ | ResetTimeBaseClient id
  | SetSyncClient id | ResetSyncClient id | IntClientName id | IntClientUnload id => Some id
  | _ => None
  end.

(** C18: A request about a client id that no client has is refused with a
    non-zero status and changes nothing; but a session reply, and a request to
    freewheel when the drivers have stopped, dereference the missing client. *)
Theorem unknown_client_refused internal id e :
  jack_client_internal_by_id e id = None ->
  (forall req, request_client req = Some id -> request_ok w req e ->
     exists ans, do_request env finish w internal req e = Some (ans, Continues e) /\ an_status ans <> 0) /\
  do_request env finish w internal (SessionReply id) e = None /\
  (freewheeling e = false -> is_Some (driver e) -> rw_drivers_stop w = 0 ->
   do_request env finish w internal (FreeWheel id) e = None).
Proof.
  intros E. split_and!.
  - intros req Hid Hok. destruct req; try done; cbn [request_client request_ok do_request] in *;
      apply (inj Some) in Hid; subst id.
    + unfold jack_port_do_register. rewrite E. destruct (find_port_type _ _ _); by eexists.
    + unfold jack_port_do_unregister. destruct (Z.gtb_spec (req_port_id info) (zlen (ports e))); [by eexists|].
      destruct (ports e !! Z.to_nat (req_port_id info)) as [x|] eqn:Ex.
      2:{ apply lookup_ge_None in Ex. lia. }
      cbn [mbind option_bind]. destruct (client_id x =? _) eqn:Ei; cbn [negb]; [|by eexists].
      apply Z.eqb_eq in Ei. rewrite Ei, E. by eexists.
    + unfold jack_client_activate. rewrite E. by eexists.
    + unfold jack_client_deactivate. rewrite E. by eexists.
    + unfold jack_timebase_set. rewrite E. by eexists.
    + unfold jack_timebase_reset. rewrite E. by eexists.
    + unfold jack_transport_client_set_sync. rewrite E. by eexists.
    + unfold jack_transport_client_reset_sync. rewrite E. by eexists.
    + unfold jack_intclient_name_request. rewrite E. by eexists.
    + unfold jack_intclient_unload_request, handle_unload_client. rewrite E.
      destruct (negb _); by eexists.
  - cbn [do_request]. unfold jack_do_session_reply. by rewrite E.
  - intros Ef [d Ed] Es. cbn [do_request]. unfold jack_start_freewheeling. by rewrite Ef, Ed, Es, E.
Qed.

End requests.

(** ** The course of a session *)

(** The replies of these clients arrive one after the other. *)
Fixpoint session_replies (sw : session_world) (ids : list Z) (e : engine) : option engine :=
  match ids with
  | [] => Some e
  | id :: ids => r ← jack_do_session_reply sw id e; session_replies sw ids r.2
  end.

Lemma by_id_same e e' id :
  clients e' = clients e -> (forall c, c_id (the_client e' c) = c_id (the_client e c)) ->
  jack_client_internal_by_id e' id = jack_client_internal_by_id e id.
Proof.
  intros C I. unfold jack_client_internal_by_id. rewrite C. f_equal. apply list_filter_iff.
  intros c. by rewrite I.
Qed.

Lemma session_reply_ok sw id e :
  (forall c, sw_write_ok sw c = true) -> is_Some (jack_client_internal_by_id e id) -> session_reply_fd e <> -1 ->
  exists ret e', jack_do_session_reply sw id e = Some (ret, e') /\
    session_pending_replies e' = session_pending_replies e - 1 /\
    session_reply_fd e' = (if session_pending_replies e - 1 =? 0 then -1 else session_reply_fd e) /\
    forall id', jack_client_internal_by_id e' id' = jack_client_internal_by_id e id'.
Proof.
  intros Hw [c Hc] Hfd. unfold jack_do_session_reply. rewrite Hc. cbn [mbind option_bind]. cbv zeta.
  set (e1 := upd_client c _ e).
  assert (H1 : session_reply_fd e1 = session_reply_fd e /\ session_pending_replies e1 = session_pending_replies e /\
    forall id', jack_client_internal_by_id e1 id' = jack_client_internal_by_id e id').
  { split_and!; [done|done|]. intros id'. apply by_id_same; [done|]. intros d. by apply the_client_upd_field. }
  clearbody e1. destruct H1 as (F1 & P1 & I1). rewrite F1.
  destruct (Z.eqb_spec (session_reply_fd e) (-1)); [done|]. unfold jack_send_session_reply. rewrite Hw.
  cbn [negb Z.eqb]. rewrite <- P1, <- F1.
  change (session_pending_replies (e1 <| session_pending_replies ::= Z.pred |>))
    with (Z.pred (session_pending_replies e1)). rewrite <- Z.sub_1_r.
  destruct (session_pending_replies e1 - 1 =? 0); (do 2 eexists; split_and!; [done|cbn; lia|done|exact I1]).
Qed.


(** A session request that comes while another session waits for
    replies is answered as empty, but ends the other session: from then on
    the replies of the clients are dropped, whatever could be written. *)
Theorem session_request_ends_pending env sw sw' type target fd e :
  session_reply_fd e <> -1 -> sw_final_ok sw = true ->
  let '(ret, e') := jack_do_session_notify env sw type target fd e in
  ret = 0 /\ session_reply_fd e' = -1 /\ session_pending_replies e' = session_pending_replies e /\
  forall id c, jack_client_internal_by_id e' id = Some c ->
    jack_do_session_reply sw' id e' = Some (0, upd_client c (fun x => x <| session_reply_pending := false |>) e').
Proof.
  intros Hfd Hw. unfold jack_do_session_notify. destruct (Z.eqb_spec (session_reply_fd e) (-1)); [done|].
  cbn [negb]. unfold send_final. rewrite Hw. split_and!; [done..|]. intros id c E.
  unfold jack_do_session_reply. by rewrite E.
Qed.

End RequestsInv.
