(* ===== verification/Cycle.v ===== *)
(** * The process cycle (server/engine.c, libjack/client.c)

    What happens in one period: the server runs the internal clients itself
    and starts the chains of external clients through FIFOs; each client of a
    chain waits on its FIFO, processes, and wakes the next one.  A cycle of
    the model is sequential; ChainThreads.v shows that the interleavings of
    the real threads run the clients of a chain in the same order. *)

From S2P Require Import Prelude JSList Engine Transport Events Graph Clients.

Local Open Scope Z_scope.

Module Cycle.
Import JSList Transport Events Graph Clients.

(** ** Callbacks

    A client sets flags in its control block, which the server reads. *)

Definition set_cbset (c : client_ptr) (f : callbacks -> callbacks) (e : engine) : Z * engine :=
  (0, upd_client c (fun x => x <| cbset ::= f |>) e).

(** "You cannot set callbacks on an active client." *)
Definition if_inactive (c : client_ptr) (e : engine) (r : Z * engine) : Z * engine :=
  if active (the_client e c) then (-1, e) else r.

Definition jack_set_process_callback (c : client_ptr) (set : bool) (e : engine) : Z * engine :=
  if_inactive c e (if thread_cb_cbset (cbset (the_client e c)) then (-1, e)
                   else set_cbset c (fun b => b <| process_cbset := set |>) e).

Definition jack_set_process_thread (c : client_ptr) (set : bool) (e : engine) : Z * engine :=
  if_inactive c e (if process_cbset (cbset (the_client e c)) then (-1, e)
                   else set_cbset c (fun b => b <| thread_cb_cbset := set |>) e).

Definition jack_set_graph_order_callback (c : client_ptr) (set : bool) (e : engine) : Z * engine :=
  if_inactive c e (set_cbset c (fun b => b <| graph_order_cbset := set |>) e).

Definition jack_set_xrun_callback (c : client_ptr) (set : bool) (e : engine) : Z * engine :=
  if_inactive c e (set_cbset c (fun b => b <| xrun_cbset := set |>) e).

Definition jack_set_buffer_size_callback (c : client_ptr) (set : bool) (e : engine) : Z * engine :=
  set_cbset c (fun b => b <| bufsize_cbset := set |>) e.

Definition jack_set_port_registration_callback (c : client_ptr) (set : bool) (e : engine) : Z * engine :=
  if_inactive c e (set_cbset c (fun b => b <| port_register_cbset := set |>) e).

Definition jack_set_port_connect_callback (c : client_ptr) (set : bool) (e : engine) : Z * engine :=
  if_inactive c e (set_cbset c (fun b => b <| port_connect_cbset := set |>) e).

Definition jack_set_client_registration_callback (c : client_ptr) (set : bool) (e : engine) : Z * engine :=
  if_inactive c e (set_cbset c (fun b => b <| client_register_cbset := set |>) e).

Definition jack_set_session_callback (c : client_ptr) (set : bool) (e : engine) : Z * engine :=
  if_inactive c e (set_cbset c (fun b => b <| session_cbset := set |>) e).

Definition callback_setters : list (client_ptr -> bool -> engine -> Z * engine) :=
  [jack_set_process_callback; jack_set_process_thread; jack_set_graph_order_callback; jack_set_xrun_callback;
   jack_set_buffer_size_callback; jack_set_port_registration_callback; jack_set_port_connect_callback;
   jack_set_client_registration_callback; jack_set_session_callback].

(** ** The client library *)

(** The FIFOs a client waits on and writes to, and who is before it. *)
Record graph_fds := mk_fds {
  graph_wait : Z;
  graph_next : Z;
  upstream_is_jackd : bool
}.

Definition jack_handle_reorder (n upstream : Z) : graph_fds := mk_fds n (n + 1) (negb (upstream =? 0)).

(** The FIFOs of a client after the events it has received. *)
Definition client_fds (c : client_ptr) (evs : list (client_ptr * jack_event)) : option graph_fds :=
  foldl (fun fds ev =>
           match ev with
           | (d, GraphReordered n up) => if decide (d = c) then Some (jack_handle_reorder n up) else fds
           | _ => fds
           end) None evs.

(** When a client that hung past the poll goes on: not in this cycle, before [jack_check_clients]
    looks at the clients, or after it and before the read of the byte. *)
Inductive resumption := NotResumed | ResumedBeforeCheck | ResumedBeforeRead.

#[global] Instance resumption_eq_dec : EqDecision resumption.
Proof. solve_decision. Defined.

(** What the clients and the machine contribute to a cycle: the results of
    process, sync and timebase callbacks, times, which clients hang in their
    callback, which processes live, the results of system calls. *)
Record cycle_world := mk_cycle {
  cy_process : client_ptr -> Z;
  cy_sync : client_ptr -> bool;
  cy_timebase : jack_transport_state_t -> Z -> jack_position_t -> bool -> jack_position_t;
  cy_signalled : client_ptr -> Z;
  cy_awake : client_ptr -> Z;
  cy_finished : client_ptr -> Z;
  cy_late : client_ptr -> Z;
  cy_hangs : client_ptr -> bool;
  cy_resumes : client_ptr -> resumption;
  cy_alive : client_ptr -> bool;
  cy_write_ok : client_ptr -> bool;
  cy_poll_fails : client_ptr -> bool;
  cy_poll : client_ptr -> Z * Z * Z;
  cy_excessive_delay : bool;
  cy_graph_lock : bool;
  cy_problem_lock : bool;
  cy_driver_read : Z;
  cy_driver_write : Z;
  cy_period_usecs : Z;
  cy_timeout_threshold : Z
}.

Section cycle.
Context (env : environment) (w : cycle_world).

(** [jack_thread_wait] (and [jack_cycle_wait]): the client wakes up.  (The
    very first wake-up of a thread, [jack_thread_first_wait], does not set the
    state and calls no sync callback.) *)
Definition client_wakes (c : client_ptr) (e : engine) : engine :=
  let e := upd_client c (fun x => x <| awake_at := cy_awake w c |>) e in
  let e := upd_client c (fun x => x <| c_state := Running |>) e in
  if sync_cb_cbset (cbset (the_client e c)) then jack_call_sync_client (cy_sync w c) c e else e.

(** [jack_client_thread_aux]: [status = (client->process (...) == client->engine->buffer_size)];
    a client with a thread of its own passes the status to [jack_cycle_signal]. *)
Definition process_status (c : client_ptr) (e : engine) : Z :=
  let x := the_client e c in
  if thread_cb_cbset (cbset x) then cy_process w c
  else if process_cbset (cbset x) then if cy_process w c =? buffer_size (control e) then 1 else 0
  else 0.

(** [jack_thread_wait] (and [jack_cycle_signal]): the client has processed. *)
Definition client_signals (c : client_ptr) (status : Z) (e : engine) : engine :=
  let e := upd_client c (fun x => x <| c_state := Finished |>) e in
  let e := upd_client c (fun x => x <| last_status := status |>) e in
  let e := if (status =? 0) && timebase_cb_cbset (cbset (the_client e c))
           then jack_call_timebase_master (cy_timebase w) c e else e in
  upd_client c (fun x => x <| finished_at := cy_finished w c |>) e.

(** The external client whose thread waits on a FIFO. *)
Definition waits_on (e : engine) (n : Z) (c : client_ptr) : bool :=
  let x := the_client e c in
  bool_decide (c_type x = ClientExternal) && active x && runs_process x &&
  bool_decide (graph_wait <$> client_fds c (events e) = Some n).

(** A byte in the FIFO [n] passes from client to client.  The FIFO it ends up
    in, the clients that processed, in order. *)
Fixpoint run_chain (fuel : nat) (n : Z) (e : engine) : option Z * list client_ptr * engine :=
  match fuel with
  | O => (Some n, [], e)
  | S fuel =>
      match find (waits_on e n) (clients e) with
      | None => (Some n, [], e)
      | Some c =>
          let e := client_wakes c e in
          if cy_hangs w c then (None, [], e)
          else
            let e := client_signals c (process_status c e) e in
            let '(n, log, e) := run_chain fuel (n + 1) e in
            (n, c :: log, e)
      end
  end.

(** The client that hung in the middle of its callback finishes, and the byte goes on from there. *)
Definition resume_chain (e : engine) : option Z * list client_ptr * engine :=
  match find (fun c => bool_decide (c_type (the_client e c) = ClientExternal) && bool_decide (c_state (the_client e c) = Running)) (clients e) with
  | None => (None, [], e)
  | Some c =>
      let e := client_signals c (process_status c e) e in
      match client_fds c (events e) with
      | Some fds =>
          let '(n, log, e) := run_chain (length (clients e)) (graph_next fds) e in
          (n, c :: log, e)
      | None => (None, [c], e)
      end
  end.

(** The number of the FIFO the server has opened as [fd]. *)
Definition fifo_of (e : engine) (fd : Z) : option Z :=
  if fd <? 0 then None else Z.of_nat ∘ fst <$> list_find (fun x => x = fd) (fifo e).

(** ** The server *)

Definition jack_process_internal (c : client_ptr) (rest : list client_ptr) (e : engine)
    : list client_ptr * list client_ptr * engine :=
  let e := upd_client c (fun x => x <| c_state := Running |>) e in
  let e := if sync_cb_cbset (cbset (the_client e c))
           then jack_call_sync_client (cy_sync w c) c e else e in
  let '(log, e) :=
    if process_cbset (cbset (the_client e c)) then
      ([c], if negb (cy_process w c =? 0) then e <| process_errors ::= Z.succ |> else e)
    else ([], e) in
  let e := if timebase_cb_cbset (cbset (the_client e c))
           then jack_call_timebase_master (cy_timebase w) c e else e in
  let e := upd_client c (fun x => x <| c_state := Finished |>) e in
  (if negb (process_errors e =? 0) then [] else rest, log, e).

Definition check_status (acc : Z * engine) (c : client_ptr) : Z * engine :=
  if bool_decide (c_type (the_client acc.2 c) = ClientExternal) then
    let acc := if cy_alive w c then acc
               else (acc.1 + 1, upd_client c (fun x => x <| c_error ::= Z.succ |>) acc.2) in
    if negb (last_status (the_client acc.2 c) =? 0) then
      (acc.1 + 1, upd_client c (fun x => x <| c_error ::= Z.succ |>) acc.2)
    else acc
  else acc.

Definition jack_check_client_status (e : engine) : Z * engine := foldl check_status (0, e) (clients e).

(** [while (node) { if (jack_client_is_internal (node->data)) break; ... }] *)
Fixpoint next_internal (e : engine) (l : list client_ptr) : list client_ptr :=
  match l with
  | [] => []
  | c :: l' => if jack_client_is_internal (the_client e c) then l else next_internal e l'
  end.

(** The wait for the byte in [subgraph_wait_fd].  When it does not arrive in time or the
    poll fails, [cy_poll] gives the result, the events (which a failing poll
    does not set) and the time that was left of the
    last [poll]: the status; [None] while a freewheeling server goes on
    waiting ([goto again]); [inr] when it finds a client gone. *)
Definition subgraph_poll (c : client_ptr) (arrived : bool) (e : engine) : option (Z + engine) :=
  let '(pollret, revents, usecs) := if arrived && negb (cy_poll_fails w c) then (1, POLLIN, 0) else cy_poll w c in
  let status := if pollret <? 0 then -1 else 0 in
  let status := if negb (Z.land revents (Z.lnot POLLIN) =? 0) then -2 else status in
  if negb (Z.land revents POLLIN =? 0) then Some (inl 0)
  else if negb (status =? 0) then Some (inl status)
  else if freewheeling e then
    let '(err, e) := jack_check_client_status e in
    if negb (err =? 0) then Some (inr e) else None
  else if usecs <? 200 then Some (inl 0) else Some (inl 1).

(** What clients do while the server does not look. *)
Definition meanwhile (c : client_ptr) (r : resumption) (stop : option Z) (e : engine) : option Z * list client_ptr * engine :=
  if bool_decide (stop = None /\ cy_resumes w c = r) then resume_chain e else (stop, [], e).

Definition jack_process_external (c : client_ptr) (rest : list client_ptr) (e : engine)
    : option (list client_ptr * list client_ptr * engine) :=
  let e := upd_client c (fun x => x <| c_state := Triggered |> <| signalled_at := cy_signalled w c |>) e in
  match fifo_of e (subgraph_start_fd (the_client e c)), cy_write_ok w c with
  | Some start, true =>
      let '(stop, log, e) := run_chain (S (length (clients e))) start e in
      let wait := fifo_of e (subgraph_wait_fd (the_client e c)) in
      match subgraph_poll c (bool_decide (is_Some stop /\ stop = wait)) e with
      | None => None
      | Some (inr e) => Some ([], log, e)
      | Some (inl status) =>
          let '(stop, log1, e) := meanwhile c ResumedBeforeCheck stop e in
          let '(errs, e) := if negb (status =? 0) then jack_check_clients true (cy_late w) e
                            else (0, e <| timeout_count := 0 |>) in
          if negb (errs =? 0) then Some ([], log ++ log1, e <| process_errors ::= Z.succ |>)
          else
            let '(stop, log2, e) := meanwhile c ResumedBeforeRead stop e in
            let log := log ++ log1 ++ log2 in
            if negb (bool_decide (is_Some stop /\ stop = wait)) then
              Some ([], log, upd_client c (fun x => x <| c_error ::= Z.succ |>) e)
            else Some (next_internal e (c :: rest), log, e)
      end
  | _, _ => Some ([], [], jack_engine_signal_problems (e <| process_errors ::= Z.succ |>))
  end.

(** Whether [jack_engine_process] runs the client. *)
Definition to_process (x : client) : bool := active x && runs_process x && negb (dead x).

Fixpoint process_loop (fuel : nat) (nodes : list client_ptr) (e : engine)
    : option (list client_ptr * engine) :=
  match fuel, nodes with
  | O, _ | _, [] => Some ([], e)
  | S fuel, c :: rest =>
      if negb (process_errors e =? 0) then Some ([], e)
      else if negb (to_process (the_client e c)) then process_loop fuel rest e
      else
        '(next, log, e) ← if jack_client_is_internal (the_client e c)
                          then Some (jack_process_internal c rest e)
                          else jack_process_external c rest e;
        '(log', e) ← process_loop fuel next e;
        Some (log ++ log', e)
  end.

Definition reset_timing (x : client) : client :=
  x <| c_state := NotTriggered |> <| timed_out := 0 |> <| awake_at := 0 |> <| finished_at := 0 |>.

(** The result, the clients that processed, and the engine. *)
Definition jack_engine_process (e : engine) : option (Z * list client_ptr * engine) :=
  let e := e <| process_errors := 0 |> in
  let e := foldl (fun e c => upd_client c reset_timing e) e (clients e) in
  '(log, e) ← process_loop (length (clients e)) (clients e) e;
  Some (if process_errors e >? 0 then 1 else 0, log, e).

(** [jack_calc_cpu_load] is statistics in floating point. *)
Definition jack_engine_post_process (e : engine) : option engine :=
  e ← jack_transport_cycle_end e;
  Some (jack_check_clients false (fun _ => 0) e).2.

(** Without the frame timer and the delay statistics. *)
Definition jack_engine_delay (e : engine) : engine := jack_deliver_event_to_all env XRun e.

(** [delays] is [consecutive_excessive_delays], [cy_excessive_delay] the test
    that the delay exceeds the spare time; the result is the status, the new
    count, the clients that processed and the engine. *)
Definition jack_run_one_cycle (delays : Z) (e : engine) : option (Z * Z * list client_ptr * engine) :=
  if negb (freewheeling e) && cy_excessive_delay w then
    if delays + 1 >? 10 then Some (-1, delays + 1, [], e)
    else Some (0, delays + 1, [], jack_engine_delay e)
  else if negb (cy_graph_lock w) then Some (0, 0, [], e)
  else if negb (cy_problem_lock w) then Some (0, 0, [], e)
  else if negb (problems e =? 0)
          || (negb (cy_timeout_threshold w =? 0)
              && (timeout_count e >? 1 + cy_timeout_threshold w * 1000 / cy_period_usecs w))
  then Some (0, 0, [], e)
  else if negb (freewheeling e) && negb (cy_driver_read w =? 0) then Some (-1, 0, [], e)
  else
    '(ret, log, e) ← jack_engine_process e;
    let e := if negb (ret =? 0) then (jack_check_client_status e).2 else e in
    if negb (freewheeling e) && negb (cy_driver_write w =? 0) then Some (-1, 0, log, e)
    else
      e ← jack_engine_post_process e;
      Some (0, 0, log, e).

End cycle.
End Cycle.
