(* ===== verification/Chain.v ===== *)
(** * The execution chain (server/engine.c)

    [jack_rechain_graph] numbers the clients that process and tells each the
    FIFO it waits on.  When the FIFOs can be opened and the clients answer,
    the numbers, the events and the descriptors the server keeps in the
    first client of each subgraph fit together. *)

From S2P Require Import Prelude JSList Engine Transport Events Graph Cycle.

Local Open Scope Z_scope.

Module Chain.
Import JSList Transport Events Graph Cycle.

(** The FIFOs are there, opening them gives different descriptors, and every
    client answers. *)
Class ChainEnv (env : environment) : Prop := {
  ce_usable : forall n, 0 <= n -> env_fifo_stat env n = FifoPresent \/ env_fifo_stat env n = FifoAbsent true;
  ce_open : forall n, 0 <= n -> 0 <= env_fifo_open env n;
  ce_inj : forall n m, 0 <= n -> 0 <= m -> env_fifo_open env n = env_fifo_open env m -> n = m;
  ce_alive : forall k, io_alive (env_reply env k) = true;
  ce_write : forall k, io_write_ok (env_reply env k) = true;
  ce_poll : forall k, poll_status (env_reply env k) = 0;
  ce_status : forall k, exists s, io_status (env_reply env k) = Some s /\ 0 <= s
}.

#[global] Instance good_env_chain : ChainEnv good_env.
Proof. split; intros; cbn in *; try done; try lia; auto; [by eexists]. Qed.

Section chain.
Context (env : environment) `{!ChainEnv env}.

(** ** FIFOs *)

Definition fifo_ok (e : engine) : Prop :=
  forall i fd, fifo e !! i = Some fd -> fd < 0 \/ fd = env_fifo_open env (Z.of_nat i).

Definition opened (e : engine) (n : Z) : Prop := 0 <= n /\ fifo e !! Z.to_nat n = Some (env_fifo_open env n).

Lemma fifo_of_opened e n : fifo_ok e -> opened e n -> fifo_of e (env_fifo_open env n) = Some n.
Proof.
  intros Hok [Hn Ho]. unfold fifo_of. pose proof (ce_open n Hn).
  destruct (Z.ltb_spec (env_fifo_open env n) 0); [lia|].
  destruct (list_find (fun x => x = env_fifo_open env n) (fifo e)) as [[i x]|] eqn:E.
  - apply list_find_Some in E as (Ei & -> & _). cbn. f_equal.
    destruct (Hok i _ Ei) as [|E]; [lia|]. symmetry. apply ce_inj; [lia|lia|done].
  - exfalso. apply list_find_None in E. rewrite Forall_forall in E. apply (E (env_fifo_open env n)); [|done].
    by apply list_elem_of_lookup_2 in Ho.
Qed.

Lemma get_fifo_spec n e :
  0 <= n <= zlen (fifo e) -> fifo_ok e ->
  exists f, jack_get_fifo_fd env n e = (env_fifo_open env n, e <| fifo := f |>) /\
    f !! Z.to_nat n = Some (env_fifo_open env n) /\
    fifo_ok (e <| fifo := f |>) /\ zlen (fifo e) <= zlen f /\ n < zlen f /\
    (forall m, opened e m -> opened (e <| fifo := f |>) m).
Proof.
  intros Hn Hok. unfold jack_get_fifo_fd.
  set (usable := match env_fifo_stat env n with FifoPresent => true | _ => _ end).
  assert (Eu : usable = true) by (unfold usable; destruct (ce_usable n ltac:(lia)) as [-> | ->]; done).
  rewrite Eu. cbn [negb]. clear usable Eu.
  set (g := if n >=? zlen (fifo e) then fifo e ++ replicate 16 (-1) else fifo e).
  assert (Eg : (if n >=? zlen (fifo e) then e <| fifo ::= fun f => f ++ replicate 16 (-1) |> else e) = e <| fifo := g |>).
  { unfold g. destruct (n >=? _); [done|]. destruct e. reflexivity. }
  rewrite Eg. cbv zeta. clear Eg.
  assert (Hg : n < zlen g /\ zlen (fifo e) <= zlen g /\
    (forall i fd, g !! i = Some fd -> fifo e !! i = Some fd \/ fd = -1) /\
    (forall i fd, fifo e !! i = Some fd -> g !! i = Some fd)).
  { unfold g. destruct (n >=? zlen (fifo e)) eqn:E.
    - rewrite length_app, length_replicate. split_and!; [lia|lia| |].
      + intros i fd. rewrite lookup_app. destruct (fifo e !! i) eqn:Ei; [by left; congruence|].
        intros Hr. apply lookup_replicate in Hr as [-> _]. by right.
      + intros i fd Hi. by apply lookup_app_l_Some.
    - split_and!; [lia|lia|auto|auto]. }
  destruct Hg as (Hl & Hm & Hb & Hf). clearbody g. cbn [fifo].
  assert (Hgo : forall i fd, g !! i = Some fd -> fd < 0 \/ fd = env_fifo_open env (Z.of_nat i)).
  { intros i fd Hi. destruct (Hb i fd Hi) as [Hi'| ->]; [by apply (Hok i)|left; lia]. }
  destruct (lookup_lt_is_Some_2 g (Z.to_nat n) ltac:(lia)) as [fd Hfd].
  change (fifo (e <| fifo := g |>)) with g. rewrite Hfd. cbn [default from_option id].
  pose proof (ce_open n ltac:(lia)) as Ho.
  destruct (Z.ltb_spec fd 0) as [Hneg|Hpos].
  - exists (<[Z.to_nat n := env_fifo_open env n]> g). destruct (Z.ltb_spec (env_fifo_open env n) 0); [lia|].
    split_and!.
    + reflexivity.
    + apply list_lookup_insert_eq. lia.
    + intros i y. cbn. destruct (decide (i = Z.to_nat n)) as [->|Hne].
      * rewrite list_lookup_insert_eq by lia. intros [= <-]. right. by rewrite Z2Nat.id by lia.
      * rewrite list_lookup_insert_ne by done. apply Hgo.
    + rewrite length_insert. lia.
    + rewrite length_insert. lia.
    + intros m [Hm0 Hmo]. split; [done|]. cbn. destruct (decide (Z.to_nat m = Z.to_nat n)) as [E|Hne].
      * apply Hf in Hmo. rewrite E, Hfd in Hmo. injection Hmo as ->. pose proof (ce_open m Hm0). lia.
      * rewrite list_lookup_insert_ne by done. by apply Hf.
  - exists g. destruct (Hgo _ _ Hfd) as [|E]; [lia|]. rewrite Z2Nat.id in E by lia. subst fd.
    split_and!; [done|done|exact Hgo|lia|lia|]. intros m [Hm0 Hmo]. split; [done|]. by apply Hf.
Qed.

(** ** What the loop changes *)

(** What decides whether and how a client processes. *)
Definition chain_view (x : client) := (c_type x, active x, dead x, runs_process x).

Definition runnable (e : engine) (c : client_ptr) : bool :=
  active (the_client e c) && runs_process (the_client e c).

Definition internal (e : engine) (c : client_ptr) : bool := jack_client_is_internal (the_client e c).

Definition fds_of (e : engine) (c : client_ptr) : option graph_fds := client_fds c (events e).

(** [S]: the clients that may be given a place, [W]: those whose
    [subgraph_wait_fd] may change. *)
Record chain_frame (S W : client_ptr -> Prop) (e e' : engine) : Prop := {
  cf_clients : clients e' = clients e;
  cf_members : forall d, is_Some (client_store e' !! d) <-> is_Some (client_store e !! d);
  cf_view : forall d, chain_view (the_client e' d) = chain_view (the_client e d);
  cf_place : forall d, ~ S d -> fds_of e' d = fds_of e d /\ c_error (the_client e' d) = c_error (the_client e d) /\
    subgraph_start_fd (the_client e' d) = subgraph_start_fd (the_client e d);
  cf_wait : forall d, ~ W d -> subgraph_wait_fd (the_client e' d) = subgraph_wait_fd (the_client e d);
  cf_fifo : fifo_ok e -> fifo_ok e';
  cf_length : zlen (fifo e) <= zlen (fifo e');
  cf_opened : forall n, opened e n -> opened e' n
}.

Lemma chain_frame_refl S W e : chain_frame S W e e.
Proof. constructor; try done. Qed.

Lemma chain_frame_trans (S W S' W' S'' W'' : client_ptr -> Prop) e1 e2 e3 :
  chain_frame S W e1 e2 -> chain_frame S' W' e2 e3 ->
  (forall d, S d \/ S' d -> S'' d) -> (forall d, W d \/ W' d -> W'' d) -> chain_frame S'' W'' e1 e3.
Proof.
  intros [A1 A2 A3 A4 A5 A6 A7 A8] [B1 B2 B3 B4 B5 B6 B7 B8] HS HW. constructor.
  - congruence.
  - intros d. by rewrite B2, A2.
  - intros d. by rewrite B3, A3.
  - intros d Hd. destruct (A4 d) as (<- & <- & <-); [naive_solver|]. apply B4. naive_solver.
  - intros d Hd. rewrite B5, A5; naive_solver.
  - auto.
  - lia.
  - auto.
Qed.

Lemma chain_frame_weak (S W S' W' : client_ptr -> Prop) e e' :
  chain_frame S W e e' -> (forall d, S d -> S' d) -> (forall d, W d -> W' d) -> chain_frame S' W' e e'.
Proof. intros [] HS HW. constructor; auto. Qed.

Lemma view_runnable e e' d : chain_view (the_client e' d) = chain_view (the_client e d) ->
  runnable e' d = runnable e d /\ internal e' d = internal e d /\ dead (the_client e' d) = dead (the_client e d).
Proof.
  unfold chain_view. intros E. injection E as E1 E2 E3 E4. unfold runnable, internal, jack_client_is_internal.
  by rewrite E1, E2, E3, E4.
Qed.

Lemma frame_runnable S W e e' d : chain_frame S W e e' ->
  runnable e' d = runnable e d /\ internal e' d = internal e d /\ dead (the_client e' d) = dead (the_client e d).
Proof. intros F. apply view_runnable, F. Qed.

(** An update of one client. *)
Lemma chain_frame_upd (S W : client_ptr -> Prop) c f e :
  (forall x, chain_view (f x) = chain_view x) ->
  (S c \/ forall x, c_error (f x) = c_error x /\ subgraph_start_fd (f x) = subgraph_start_fd x) ->
  (W c \/ forall x, subgraph_wait_fd (f x) = subgraph_wait_fd x) ->
  chain_frame S W e (upd_client c f e).
Proof.
  intros V Hs Hw. constructor; try done.
  - intros d. cbn. destruct (decide (d = c)) as [->|Hd].
    + rewrite lookup_alter_eq. apply fmap_is_Some.
    + by rewrite lookup_alter_ne.
  - intros d. by apply the_client_upd_field.
  - intros d Hd. split; [done|]. destruct Hs as [Hs|Hs].
    + by rewrite the_client_upd_ne by (intros ->; done).
    + split; apply the_client_upd_field; apply Hs.
  - intros d Hd. destruct Hw as [Hw|Hw]; [|by apply the_client_upd_field].
    by rewrite the_client_upd_ne by (intros ->; done).
Qed.

Lemma chain_frame_fifo S W f e :
  fifo_ok (e <| fifo := f |>) -> zlen (fifo e) <= zlen f ->
  (forall m, opened e m -> opened (e <| fifo := f |>) m) -> chain_frame S W e (e <| fifo := f |>).
Proof. intros Hok Hl Ho. constructor; try done. Qed.

Lemma client_fds_app c evs ev :
  client_fds c (evs ++ [ev]) =
  match ev with
  | (d, GraphReordered n up) => if decide (d = c) then Some (jack_handle_reorder n up) else client_fds c evs
  | _ => client_fds c evs
  end.
Proof. unfold client_fds. rewrite foldl_app. cbn. by destruct ev as [d []]. Qed.

Lemma chain_frame_socket c e : chain_frame (eq c) (fun _ => False) e (socket_error c e).
Proof.
  apply (chain_frame_trans (eq c) (fun _ => False) (eq c) (fun _ => False) _ _ e
    (upd_client c (fun x => x <| c_error ::= fun n => n + JACK_ERROR_WITH_SOCKETS |>) e)); [| |naive_solver..].
  - apply chain_frame_upd; [done|by left|by right].
  - constructor; done.
Qed.

Lemma chain_frame_event c n up e :
  chain_frame (eq c) (fun _ => False) e (e <| events ::= fun l => l ++ [(c, GraphReordered n up)] |>).
Proof.
  constructor; try done. intros d Hd. split; [|done]. unfold fds_of. cbn [events].
  etransitivity; [apply (client_fds_app d (events e))|]. cbv beta iota. by rewrite decide_False.
Qed.

(** The event reaches a client that is alive, and nobody else hears of it. *)
Lemma deliver_reorder c n up e :
  chain_frame (eq c) (fun _ => False) e (jack_deliver_event env c (GraphReordered n up) e).2 /\
  (active (the_client e c) = true -> dead (the_client e c) = false -> c_error (the_client e c) = 0 ->
   internal e c = false ->
   fds_of (jack_deliver_event env c (GraphReordered n up) e).2 c = Some (jack_handle_reorder n up)).
Proof.
  unfold jack_deliver_event. set (r := env_reply env _). cbv zeta. set (e1 := e <| io_count ::= S |>).
  assert (F1 : chain_frame (eq c) (fun _ => False) e e1) by (constructor; done).
  change (the_client e c) with (the_client e1 c). change (internal e c) with (internal e1 c). clearbody e1.
  assert (T : forall e2, chain_frame (eq c) (fun _ => False) e1 e2 -> chain_frame (eq c) (fun _ => False) e e2)
    by (intros e2 F2; apply (chain_frame_trans _ _ _ _ _ _ e e1 e2 F1 F2); naive_solver).
  split.
  - apply T. destruct (unreachable _ _); [apply chain_frame_refl|]. destruct (jack_client_is_internal _).
    { cbn [snd]. destruct (internal_handles _ _); [apply chain_frame_event|apply chain_frame_refl]. }
    destruct (active _); [|apply chain_frame_refl]. cbn [snd].
    assert (Eq : io_write_ok r = true) by apply ce_write. rewrite Eq.
    set (e2 := e1 <| events ::= _ |>). assert (F2 : chain_frame (eq c) (fun _ => False) e1 e2) by apply chain_frame_event.
    clearbody e2. destruct (_ <? 0); [|done].
    apply (chain_frame_trans _ _ _ _ _ _ e1 e2 _ F2 (chain_frame_socket c e2)); naive_solver.
  - intros Ha Hd He Hi. unfold unreachable. rewrite Ha, Hd, He.
    assert (Eq : io_write_ok r = true) by apply ce_write. rewrite Eq.
    assert (Eq' : io_alive r = true) by apply ce_alive. rewrite Eq'.
    unfold internal in Hi. rewrite Hi. rewrite andb_false_r. cbn [orb Z.geb Z.compare JACK_ERROR_WITH_SOCKETS].
    replace (0 >=? JACK_ERROR_WITH_SOCKETS) with false by reflexivity. cbn [snd].
    assert (Ev : forall b e2, fds_of (if b : bool then socket_error c e2 else e2) c = fds_of e2 c) by (intros []; done).
    rewrite Ev. unfold fds_of. etransitivity; [apply (client_fds_app c (events e1))|]. cbv beta iota.
    by rewrite decide_True.
Qed.

(** ** The places *)

(** The server waits for the subgraph of [sub] on the FIFO [n]. *)
Definition ends_at (e : engine) (sub : option client_ptr) (n : Z) : Prop :=
  match sub with Some g => fifo_of e (subgraph_wait_fd (the_client e g)) = Some n | None => True end.

(** The clients [l] have their places from the number [n] on, in the open
    subgraph of [sub] as far as the next internal client that processes. *)
Fixpoint staged (e : engine) (sub : option client_ptr) (n : Z) (l : list client_ptr) : Prop :=
  match l with
  | [] => ends_at e sub n
  | c :: l =>
      if negb (runnable e c) then staged e sub n l
      else if internal e c then ends_at e sub n /\ staged e None (if sub is Some _ then n + 1 else n) l
      else graph_wait <$> fds_of e c = Some n /\
           match sub with
           | None => fifo_of e (subgraph_start_fd (the_client e c)) = Some n /\ staged e (Some c) (n + 1) l
           | Some g => staged e (Some g) (n + 1) l
           end
  end.

Definition close_chain (r : chain_state * engine) : engine :=
  match ch_subgraph r.1 with
  | Some g => let '(fd, e) := jack_get_fifo_fd env (ch_n r.1) r.2 in
              upd_client g (fun x => x <| subgraph_wait_fd := fd |>) e
  | None => r.2
  end.

(** Closing a subgraph: the FIFO after its last client. *)
Lemma close_spec g n e :
  is_Some (client_store e !! g) -> 0 <= n <= zlen (fifo e) -> fifo_ok e ->
  exists e', (let '(fd, e) := jack_get_fifo_fd env n e in
              upd_client g (fun x => x <| subgraph_wait_fd := fd |>) e) = e' /\
    chain_frame (fun _ => False) (eq g) e e' /\ n < zlen (fifo e') /\ opened e' n /\
    subgraph_wait_fd (the_client e' g) = env_fifo_open env n.
Proof.
  intros Hg Hn Hok. destruct (get_fifo_spec n e Hn Hok) as (f & -> & Hf & Hokf & Hl & Hlt & Ho).
  eexists. split; [done|]. split_and!.
  - apply (chain_frame_trans (fun _ => False) (fun _ => False) (fun _ => False) (eq g) _ _ e (e <| fifo := f |>));
      [by apply chain_frame_fifo| |naive_solver..].
    apply chain_frame_upd; [done|by right|by left].
  - done.
  - split; [lia|done].
  - by rewrite the_client_upd, decide_True.
Qed.

Lemma ends_here S W e e' g n :
  chain_frame S W e e' -> fifo_ok e -> opened e n -> subgraph_wait_fd (the_client e g) = env_fifo_open env n ->
  ~ W g -> ends_at e' (Some g) n.
Proof.
  intros F Hok Ho E Hg. unfold ends_at. rewrite (cf_wait S W e e' F g Hg), E.
  apply fifo_of_opened; [by apply (cf_fifo S W e e' F)|by apply (cf_opened S W e e' F)].
Qed.

Lemma chain_internal_spec c s e :
  0 <= ch_n s <= zlen (fifo e) -> fifo_ok e ->
  (forall g, ch_subgraph s = Some g -> is_Some (client_store e !! g)) ->
  let '(s', e') := chain_internal env c s e in
  ch_subgraph s' = None /\ ch_n s' = (if ch_subgraph s is Some _ then ch_n s + 1 else ch_n s) /\ ch_n s' <= zlen (fifo e') /\
  chain_frame (eq c) (fun d => ch_subgraph s = Some d) e e' /\
  (forall g, ch_subgraph s = Some g -> opened e' (ch_n s) /\
     subgraph_wait_fd (the_client e' g) = env_fifo_open env (ch_n s)).
Proof.
  intros Hn Hok Hg. unfold chain_internal.
  assert (H1 : exists n e1,
    (match ch_subgraph s with
     | Some g => let '(fd, e) := jack_get_fifo_fd env (ch_n s) e in
                 (ch_n s + 1, upd_client g (fun x => x <| subgraph_wait_fd := fd |>) e)
     | None => (ch_n s, e) end) = (n, e1) /\
    n = (if ch_subgraph s is Some _ then ch_n s + 1 else ch_n s) /\ n <= zlen (fifo e1) /\
    chain_frame (fun _ => False) (fun d => ch_subgraph s = Some d) e e1 /\
    (forall g, ch_subgraph s = Some g -> opened e1 (ch_n s) /\
       subgraph_wait_fd (the_client e1 g) = env_fifo_open env (ch_n s))).
  { destruct (ch_subgraph s) as [g|].
    - destruct (close_spec g (ch_n s) e (Hg g eq_refl) Hn Hok) as (e1 & E & F & Hl & Ho & Hw).
      destruct (jack_get_fifo_fd env (ch_n s) e) as [fd e0]. subst e1. eexists _, _. split_and!; [done|done|lia| |].
      + apply (chain_frame_weak _ _ _ _ _ _ F); naive_solver.
      + by intros ? [= <-].
    - exists (ch_n s), e. split_and!; [done|done|lia|apply chain_frame_refl|done]. }
  destruct H1 as (n & e1 & -> & En & Hl & F & Hw).
  destruct (deliver_reorder c (ch_event s).1 (ch_event s).2 e1) as [F2 _].
  destruct (jack_deliver_event _ _ _ _) as [st e2]. cbn [snd] in F2. split_and!; [done|done| | |].
  - cbn. pose proof (cf_length _ _ _ _ F2). lia.
  - apply (chain_frame_trans _ _ _ _ _ _ e e1 e2 F F2); naive_solver.
  - intros g Eg. destruct (Hw g Eg) as [Ho E]. split; [by apply (cf_opened _ _ _ _ F2)|].
    by rewrite (cf_wait _ _ _ _ F2) by auto.
Qed.

Lemma chain_external_spec c s e :
  0 <= ch_n s <= zlen (fifo e) -> (is_Some (ch_subgraph s) -> ch_n s < zlen (fifo e)) ->
  fifo_ok e -> is_Some (client_store e !! c) -> execution_order (the_client e c) = ch_n s -> runnable e c = true -> internal e c = false ->
  dead (the_client e c) = false -> c_error (the_client e c) = 0 ->
  let '(s', e') := chain_external env c s e in
  ch_subgraph s' = Some (default c (ch_subgraph s)) /\ ch_n s' = ch_n s + 1 /\ ch_n s' < zlen (fifo e') /\
  chain_frame (eq c) (fun d => ch_subgraph s = Some d) e e' /\
  graph_wait <$> fds_of e' c = Some (ch_n s) /\
  (ch_subgraph s = None -> opened e' (ch_n s) /\
     subgraph_start_fd (the_client e' c) = env_fifo_open env (ch_n s)).
Proof.
  intros Hn Hn' Hok Hc Eo Hr Hi Hd He. unfold chain_external.
  set (W := fun d => ch_subgraph s = Some d).
  assert (H1 : exists up e1,
    (match ch_subgraph s with
     | None => let '(fd, e) := jack_get_fifo_fd env (ch_n s) e in
               (c, 1, upd_client c (fun x => x <| subgraph_start_fd := fd |>) e)
     | Some g => (g, 0, upd_client g (fun x => x <| subgraph_wait_fd := -1 |>) e)
     end) = (default c (ch_subgraph s), up, e1) /\ chain_frame (eq c) W e e1 /\
    execution_order (the_client e1 c) = ch_n s /\ c_error (the_client e1 c) = 0 /\
    (ch_subgraph s = None -> opened e1 (ch_n s) /\ ch_n s < zlen (fifo e1) /\
       subgraph_start_fd (the_client e1 c) = env_fifo_open env (ch_n s))).
  { unfold W. destruct (ch_subgraph s) as [g|].
    - exists 0, (upd_client g (fun x => x <| subgraph_wait_fd := -1 |>) e).
      split_and!; [done|apply chain_frame_upd; [done|by right|by left]| | |done];
        by rewrite the_client_upd_field.
    - destruct (get_fifo_spec (ch_n s) e Hn Hok) as (f & -> & Hf & Hokf & Hl & Hlt & Ho).
      eexists 1, _. split_and!; [done| |by rewrite (the_client_upd_field _ _ _ _ execution_order)
        |by rewrite (the_client_upd_field _ _ _ _ c_error)|].
      + apply (chain_frame_trans (eq c) (fun _ => False) (eq c) (fun _ => False) _ _ e (e <| fifo := f |>));
          [by apply chain_frame_fifo| |naive_solver..].
        apply chain_frame_upd; [done|by left|by right].
      + intros _. split_and!; [split; [lia|done]|done|]. by rewrite the_client_upd, decide_True. }
  destruct H1 as (up & e1 & -> & F1 & Eo1 & Ee1 & Hs1). rewrite Eo1.
  assert (Hl1 : ch_n s + 1 <= zlen (fifo e1)).
  { pose proof (cf_length _ _ _ _ F1). destruct (ch_subgraph s); [specialize (Hn' ltac:(by eexists)); lia|].
    destruct (Hs1 eq_refl) as (_ & ? & _). lia. }
  destruct (get_fifo_spec (ch_n s + 1) e1 ltac:(lia) (cf_fifo _ _ _ _ F1 Hok)) as (f & -> & Hf & Hokf & Hl & Hlt & Ho).
  set (e2 := e1 <| fifo := f |>) in *.
  assert (F2 : chain_frame (eq c) W e1 e2) by (by apply chain_frame_fifo).
  assert (C2 : the_client e2 c = the_client e1 c /\ ch_n s + 1 < zlen (fifo e2)) by done.
  destruct C2 as [C2 L2]. clearbody e2.
  pose proof (deliver_frame env c (GraphReordered (ch_n s) up) e2) as Ev.
  destruct (deliver_reorder c (ch_n s) up e2) as [F3 D3].
  destruct (jack_deliver_event env c (GraphReordered (ch_n s) up) e2) as [st e3]. cbn [snd] in F3, D3, Ev.
  assert (F : chain_frame (eq c) W e1 e3) by (apply (chain_frame_trans _ _ _ _ _ _ e1 e2 e3 F2 F3); naive_solver).
  destruct (frame_runnable _ _ e e1 c F1) as (R1 & I1 & Dd1).
  destruct (frame_runnable _ _ e1 e2 c F2) as (R2 & I2 & Dd2).
  split_and!; [done|done| | | |].
  - cbn. pose proof (cf_length _ _ _ _ F3). lia.
  - apply (chain_frame_trans _ _ _ _ _ _ e e1 e3 F1 F); naive_solver.
  - rewrite D3; [done| | | |]; [|by rewrite Dd2, Dd1|by rewrite C2|by rewrite I2, I1].
    rewrite Hr in R1. rewrite R1 in R2. unfold runnable in R2. by apply andb_prop in R2 as [-> _].
  - intros Es. destruct (Hs1 Es) as (O1 & _ & S1). split; [by apply (cf_opened _ _ _ _ F)|].
    by rewrite (event_frame_field subgraph_start_fd e2 e3), C2.
Qed.

(** The clients a chain is made of: known, and without failure where they
    process. *)
Definition sound (e : engine) (l : list client_ptr) : Prop :=
  forall c, c ∈ l -> is_Some (client_store e !! c) /\
    (runnable e c = true -> dead (the_client e c) = false /\ c_error (the_client e c) = 0).

Lemma sound_frame (S W : client_ptr -> Prop) e e' l :
  chain_frame S W e e' -> (forall d, d ∈ l -> ~ S d) -> sound e l -> sound e' l.
Proof.
  intros F Hd Hs c Hc. destruct (Hs c Hc) as [Hm Hr], (frame_runnable S W e e' c F) as (-> & _ & ->).
  split; [by apply (cf_members _ _ _ _ F)|]. intros R. destruct (Hr R) as [-> He]. split; [done|].
  by destruct (cf_place _ _ _ _ F c (Hd c Hc)) as (_ & -> & _).
Qed.

Lemma skip_nothing l : skip_inactive true l = l.
Proof. by destruct l. Qed.

(** The variables of the loop fit the engine and the rest of the list. *)
Definition chain_ready (s : chain_state) (l : list client_ptr) (e : engine) : Prop :=
  (forall g, ch_subgraph s = Some g -> (g ∉ l) /\ is_Some (client_store e !! g) /\ ch_n s < zlen (fifo e)) /\
  0 <= ch_n s <= zlen (fifo e) /\ fifo_ok e.

Section step.
Context (fuel : nat) (c : client_ptr) (l : list client_ptr) (s : chain_state) (e e' : engine).
Context (IH : forall s e, sound e l -> chain_ready s l e -> close_chain (rechain_loop env fuel l s e) = e' ->
  chain_frame (fun d => d ∈ l) (fun d => d ∈ l \/ ch_subgraph s = Some d) e e' /\
  staged e' (ch_subgraph s) (ch_n s) l).
Context (Hc : c ∉ l) (Hl : sound e (c :: l)) (Hs : chain_ready s (c :: l) e) (Er : runnable e c = true).
Context (Eo : execution_order (the_client e c) = ch_n s).

Lemma internal_case :
  internal e c = true ->
  close_chain (let '(s, e) := chain_internal env c s e in rechain_loop env fuel l s e) = e' ->
  chain_frame (fun d => d ∈ c :: l) (fun d => d ∈ c :: l \/ ch_subgraph s = Some d) e e' /\
  staged e' (ch_subgraph s) (ch_n s) (c :: l).
Proof.
  intros Ei E. destruct Hs as (Hg & Hn & Hok).
  pose proof (chain_internal_spec c s e Hn Hok ltac:(intros g H; by destruct (Hg g H) as (_ & ? & _))) as C.
  destruct (chain_internal env c s e) as [s2 e2]. destruct C as (S2 & N2 & L2 & F2 & W2).
  assert (N2' : 0 <= ch_n s2) by (rewrite N2; destruct (ch_subgraph s); lia).
  destruct (IH s2 e2) as [F St]; [| |done|].
  - apply (sound_frame _ _ e e2 l F2); [intros d Hd ->; done|]. intros d Hd. apply Hl. by right.
  - split; [intros g; by rewrite S2|]. split; [lia|]. by apply (cf_fifo _ _ _ _ F2).
  - split.
    + apply (chain_frame_trans _ _ _ _ _ _ e e2 e' F2 F); intros d; rewrite ?S2, elem_of_cons; naive_solver.
    + cbn [staged]. destruct (frame_runnable _ _ e2 e' c F) as (-> & -> & _).
      destruct (frame_runnable _ _ e e2 c F2) as (-> & -> & _). rewrite Er, Ei. cbn [negb].
      rewrite S2, N2 in St. split; [|done]. destruct (ch_subgraph s) as [g|] eqn:Eg; [|done].
      destruct (W2 g eq_refl) as [Ho Hw]. destruct (Hg g eq_refl) as (Hgl & _).
      apply (ends_here _ _ e2 e' g (ch_n s) F); [by apply (cf_fifo _ _ _ _ F2)|done|done|].
      rewrite S2. set_solver.
Qed.

Lemma external_case :
  internal e c = false ->
  close_chain (let '(s, e) := chain_external env c s e in rechain_loop env fuel l s e) = e' ->
  chain_frame (fun d => d ∈ c :: l) (fun d => d ∈ c :: l \/ ch_subgraph s = Some d) e e' /\
  staged e' (ch_subgraph s) (ch_n s) (c :: l).
Proof.
  intros Ei E. destruct Hs as (Hg & Hn & Hok). destruct (Hl c ltac:(left)) as [Hcm Hcr].
  destruct (Hcr Er) as [Hd He].
  pose proof (chain_external_spec c s e Hn ltac:(intros [g H]; by destruct (Hg g H) as (_ & _ & ?)) Hok Hcm Eo Er Ei Hd He) as C.
  destruct (chain_external env c s e) as [s2 e2]. destruct C as (S2 & N2 & L2 & F2 & P2 & O2).
  assert (Ok2 : fifo_ok e2) by (by apply (cf_fifo _ _ _ _ F2)).
  destruct (IH s2 e2) as [F St]; [| |done|].
  - apply (sound_frame _ _ e e2 l F2); [intros d Hd' ->; done|]. intros d Hd'. apply Hl. by right.
  - split; [|split; [lia|done]]. rewrite S2. intros g Eg. apply (inj Some) in Eg. subst g.
    destruct (ch_subgraph s) as [g|] eqn:Es; cbn [default from_option id].
    + destruct (Hg g eq_refl) as (Hgl & Hgm & _). split_and!; [set_solver|by apply (cf_members _ _ _ _ F2)|lia].
    + split_and!; [done|by apply (cf_members _ _ _ _ F2)|lia].
  - split.
    + apply (chain_frame_trans _ _ _ _ _ _ e e2 e' F2 F); intros d; rewrite ?S2, ?elem_of_cons; [naive_solver|].
      destruct (ch_subgraph s); cbn; naive_solver.
    + cbn [staged]. destruct (frame_runnable _ _ e2 e' c F) as (-> & -> & _).
      destruct (frame_runnable _ _ e e2 c F2) as (-> & -> & _). rewrite Er, Ei. cbn [negb].
      destruct (cf_place _ _ _ _ F c Hc) as (-> & _ & Ss). rewrite S2, N2 in St.
      split; [done|]. destruct (ch_subgraph s) as [g|]; [done|]. destruct (O2 eq_refl) as [Ho Hw].
      split; [|done]. rewrite Ss, Hw. apply fifo_of_opened; [by apply (cf_fifo _ _ _ _ F)|by apply (cf_opened _ _ _ _ F)].
Qed.

End step.

(** The loop of [jack_rechain_graph] with the part after it. *)
Lemma rechain_staged fuel l s e e' :
  (length l <= fuel)%nat -> NoDup l -> sound e l -> chain_ready s l e ->
  close_chain (rechain_loop env fuel l s e) = e' ->
  chain_frame (fun d => d ∈ l) (fun d => d ∈ l \/ ch_subgraph s = Some d) e e' /\
  staged e' (ch_subgraph s) (ch_n s) l.
Proof.
  revert fuel s e. induction l as [|c l IH]; intros fuel s e Hf Hnd Hl (Hs & Hn & Hok) E.
  { replace (rechain_loop env fuel [] s e) with (s, e) in E by (by destruct fuel). unfold close_chain in E.
    cbn [fst snd] in E. cbn [staged]. destruct (ch_subgraph s) as [g|]; [|subst e'; split; [apply chain_frame_refl|done]].
    destruct (Hs g eq_refl) as (_ & Hg & _).
    destruct (close_spec g (ch_n s) e Hg Hn Hok) as (e1 & E1 & F & Hlt & Ho & Hw).
    assert (e' = e1) as -> by (rewrite <- E, <- E1; by destruct (jack_get_fifo_fd env (ch_n s) e)).
    split; [apply (chain_frame_weak _ _ _ _ e e1 F); naive_solver|].
    apply (ends_here (fun _ => False) (fun _ => False) e1 e1); [apply chain_frame_refl|by apply (cf_fifo _ _ _ _ F)|done|done|tauto]. }
  destruct fuel as [|fuel]; [cbn in Hf; lia|]. cbn [rechain_loop] in E. apply NoDup_cons in Hnd as [Hc Hnd].
  destruct (Hl c ltac:(left)) as [Hcm Hcr].
  assert (Hl' : sound e l) by (intros d Hd; apply Hl; by right).
  assert (Hs' : chain_ready s l e).
  { split; [|done]. intros g Hg. destruct (Hs g Hg) as (Hx & Hy). split; [set_solver|done]. }
  cbn [staged]. destruct (runnable e c) eqn:Er.
  2:{ assert (E' : close_chain (rechain_loop env fuel l s e) = e').
      { rewrite <- E. unfold runnable in Er. destruct (runs_process (the_client e c)); [|done]. cbn [negb].
        rewrite andb_true_r in Er. by rewrite Er. }
      destruct (IH fuel s e ltac:(cbn in Hf; lia) Hnd Hl' Hs' E') as [F St].
      destruct (frame_runnable _ _ e e' c F) as (-> & _ & _). rewrite Er. cbn [negb]. split; [|done].
      apply (chain_frame_weak _ _ _ _ e e' F); [intros d H; by right|]. intros d [H|H]; [left; by right|by right]. }
  specialize (Hcr eq_refl) as [Hdd Hce]. unfold runnable in Er. apply andb_prop in Er as [Ea Ep].
  rewrite Ep, Ea in E. cbn [negb andb] in E. rewrite skip_nothing in E.
  set (e1 := upd_client c (fun x => x <| execution_order := ch_n s |> <| next_client := head l |>) e) in E.
  assert (F1 : chain_frame (fun _ => False) (fun _ => False) e e1) by (apply chain_frame_upd; [done|by right|by right]).
  assert (Eo : execution_order (the_client e1 c) = ch_n s) by (unfold e1; by rewrite the_client_upd, decide_True).
  assert (Hl1 : sound e1 (c :: l)) by (apply (sound_frame _ _ e e1 _ F1); [tauto|done]).
  assert (Hs1 : chain_ready s (c :: l) e1).
  { split; [|by split]. intros g Hg. destruct (Hs g Hg) as (Hx & Hy & Hz). split_and!; [done|by apply (cf_members _ _ _ _ F1)|done]. }
  destruct (frame_runnable _ _ e e1 c F1) as (R1 & I1 & D1).
  assert (Er1 : runnable e1 c = true) by (rewrite R1; unfold runnable; by rewrite Ea, Ep).
  change (jack_client_is_internal (the_client e c)) with (internal e c) in E. rewrite <- I1 in E.
  assert (G : chain_frame (fun d => d ∈ c :: l) (fun d => d ∈ c :: l \/ ch_subgraph s = Some d) e1 e' /\
              staged e' (ch_subgraph s) (ch_n s) (c :: l)).
  { clearbody e1. clear e F1 Hl' Hs' Hs Hn Hok R1 I1 D1 Ea Ep Hdd Hce Hl Hcm. destruct (internal e1 c) eqn:Ei.
    - apply (internal_case fuel c l s e1 e'); try done. intros s0 e0 H1 H2. apply IH; [cbn in Hf; lia|done|done|done].
    - apply (external_case fuel c l s e1 e'); try done. intros s0 e0 H1 H2. apply IH; [cbn in Hf; lia|done|done|done]. }
  destruct G as [F St]. split; [|exact St].
  apply (chain_frame_trans _ _ _ _ _ _ e e1 e' F1 F); intros d [[]|H]; exact H.
Qed.

(** After [jack_rechain_graph] all clients have their places, numbered from 0. *)
Lemma rechain_places e :
  NoDup (clients e) -> sound e (clients e) -> fifo_ok e ->
  chain_frame (fun d => d ∈ clients e) (fun d => d ∈ clients e) e (jack_rechain_graph env e) /\
  staged (jack_rechain_graph env e) None 0 (clients e).
Proof.
  intros Hnd Hs Hok.
  assert (E : close_chain (rechain_loop env (length (clients e)) (clients e) (mk_chain 0 None (0, 0)) e) =
              jack_rechain_graph env e).
  { unfold close_chain, jack_rechain_graph. by destruct (rechain_loop _ _ _ _ _). }
  assert (R : chain_ready (mk_chain 0 None (0, 0)) (clients e) e) by (split; [done|split; [cbn; lia|done]]).
  destruct (rechain_staged _ _ _ _ _ (le_n _) Hnd Hs R E) as [F St].
  split; [|exact St]. apply (chain_frame_weak _ _ _ _ _ _ F); [done|]. by intros d [|].
Qed.

End chain.
End Chain.
