(* ===== verification/CycleOrder.v ===== *)
(** * Every client processes once per cycle, in order

    After the graph has been sorted and chained, [jack_engine_process] runs
    each client that is active and has a callback exactly once, in the order
    of the list, provided that no internal client that does not process lies
    inside a subgraph of external clients. *)

From S2P Require Import Prelude JSList Engine Transport Events Graph GraphInv Clients Frames.
From S2P Require Import Lifecycle Removal Cycle Chain.

Local Open Scope Z_scope.

Module CycleOrder.
Import JSList Transport Events Graph GraphInv Clients Frames Lifecycle Removal Cycle Chain.

(** ** What the order of a cycle depends on *)

Definition cycle_view (x : client) :=
  (chain_view x, process_cbset (cbset x), subgraph_start_fd x, subgraph_wait_fd x).

Record cycle_frame (e e' : engine) : Prop := {
  cy_clients : clients e' = clients e;
  cy_fds : forall d, fds_of e' d = fds_of e d;
  cy_fifo : fifo e' = fifo e;
  cy_errors : process_errors e' = process_errors e;
  cy_view : forall d, cycle_view (the_client e' d) = cycle_view (the_client e d)
}.

#[global] Instance cycle_frame_preorder : PreOrder cycle_frame.
Proof. split; [done|]. intros e1 e2 e3 [] []. constructor; intros; congruence. Qed.

Lemma cycle_frame_upd c f e : (forall x, cycle_view (f x) = cycle_view x) -> cycle_frame e (upd_client c f e).
Proof. intros V. constructor; try done. intros d. by apply the_client_upd_field. Qed.

Lemma cycle_frame_sync ready c e : cycle_frame e (jack_call_sync_client ready c e).
Proof.
  unfold jack_call_sync_client. destruct (_ && _); [|done].
  set (e1 := if ready then _ else e). assert (H1 : cycle_frame e e1).
  { unfold e1. destruct ready; [|done]. destruct (sync_poll _); [|done].
    transitivity (upd_client c (fun x => x <| sync_poll := false |>) e); [by apply cycle_frame_upd|done]. }
  clearbody e1. transitivity e1; [done|by apply cycle_frame_upd].
Qed.

Lemma cycle_frame_timebase cb c e : cycle_frame e (jack_call_timebase_master cb c e).
Proof.
  unfold jack_call_timebase_master. destruct (is_timebase _); [|by apply cycle_frame_upd].
  destruct (timebase_new _).
  - transitivity (upd_client c (fun x => x <| timebase_new := false |>) e); [by apply cycle_frame_upd|].
    by destruct (_ || _).
  - by destruct (_ || _).
Qed.

Section order.
Context (env : environment) (w : cycle_world).

Lemma cycle_frame_wakes c e : cycle_frame e (client_wakes w c e).
Proof.
  unfold client_wakes. set (e1 := upd_client c _ e).
  assert (H1 : cycle_frame e e1) by (by apply cycle_frame_upd). clearbody e1.
  set (e2 := upd_client c _ e1). assert (H2 : cycle_frame e1 e2) by (by apply cycle_frame_upd). clearbody e2.
  transitivity e1; [done|]. transitivity e2; [done|]. cbv zeta.
  destruct (sync_cb_cbset _); [apply cycle_frame_sync|done].
Qed.

Lemma cycle_frame_signals c st e : cycle_frame e (client_signals w c st e).
Proof.
  unfold client_signals. set (e1 := upd_client c _ e).
  assert (H1 : cycle_frame e e1) by (by apply cycle_frame_upd). clearbody e1.
  set (e2 := upd_client c _ e1). assert (H2 : cycle_frame e1 e2) by (by apply cycle_frame_upd). clearbody e2.
  transitivity e1; [done|]. transitivity e2; [done|]. cbv zeta.
  set (e3 := if _ && _ then _ else e2).
  assert (H3 : cycle_frame e2 e3) by (unfold e3; destruct (_ && _); [apply cycle_frame_timebase|done]).
  clearbody e3. transitivity e3; [done|by apply cycle_frame_upd].
Qed.

Lemma frame_waits e e' n c : cycle_frame e e' -> waits_on e' n c = waits_on e n c.
Proof.
  intros F. unfold waits_on. change (client_fds c (events e')) with (fds_of e' c).
  rewrite (cy_fds e e' F). pose proof (cy_view e e' F c) as V. unfold cycle_view, chain_view in V.
  injection V as V1 V2 V3 V4 _ _ _. by rewrite V1, V2, V4.
Qed.

(** ** One subgraph *)

(** The byte runs along a list of clients that wait on consecutive FIFOs. *)
Lemma run_chain_block blk n fuel i e0 e :
  (forall c, cy_hangs w c = false) -> cycle_frame e0 e ->
  (forall m d, n <= m <= n + zlen blk -> d ∈ clients e0 ->
     waits_on e0 m d = true <-> blk !! Z.to_nat (m - n) = Some d) ->
  (forall c, c ∈ blk -> c ∈ clients e0) -> (i <= length blk)%nat -> (length blk - i < fuel)%nat ->
  exists e', run_chain w fuel (n + Z.of_nat i) e = (Some (n + zlen blk), drop i blk, e') /\ cycle_frame e0 e'.
Proof.
  intros Hh F Hw Hm. revert i e F. induction fuel as [|fuel IH]; intros i e F Hi Hf; [lia|]. cbn [run_chain].
  rewrite (cy_clients e0 e F).
  destruct (find (waits_on e (n + Z.of_nat i)) (clients e0)) as [c|] eqn:E.
  - apply find_some in E as [Hc Hwc]. apply list_elem_of_In in Hc. rewrite (frame_waits e0 e _ c F) in Hwc.
    apply Hw in Hwc; [|lia|done]. replace (Z.to_nat (n + Z.of_nat i - n)) with i in Hwc by lia.
    pose proof (lookup_lt_Some _ _ _ Hwc) as Hlt. rewrite Hh.
    set (e1 := client_wakes w c e). assert (F1 : cycle_frame e0 e1) by (transitivity e; [done|apply cycle_frame_wakes]).
    clearbody e1. set (e2 := client_signals w c _ e1).
    assert (F2 : cycle_frame e0 e2) by (transitivity e1; [done|apply cycle_frame_signals]). clearbody e2.
    destruct (IH (S i) e2 F2) as (e' & E' & F'); [lia|lia|].
    replace (n + Z.of_nat i + 1) with (n + Z.of_nat (S i)) by lia. rewrite E'. exists e'. split; [|done].
    by rewrite (drop_S _ _ _ Hwc).
  - exists e. split; [|done]. assert (Ei : i = length blk).
    { destruct (decide (i = length blk)) as [|Hne]; [done|exfalso].
      destruct (lookup_lt_is_Some_2 blk i ltac:(lia)) as [c Hc].
      assert (Hin : c ∈ clients e0) by (apply Hm; by apply list_elem_of_lookup_2 in Hc).
      assert (Hwc : waits_on e0 (n + Z.of_nat i) c = true)
        by (apply Hw; [lia|done|]; by replace (Z.to_nat (n + Z.of_nat i - n)) with i by lia).
      rewrite <- (frame_waits e0 e _ c F) in Hwc.
      pose proof (find_none _ _ E c) as Hn. rewrite Hn in Hwc; [done|by apply list_elem_of_In]. }
    subst i. by rewrite drop_all.
Qed.

(** ** The list of clients *)

(** The clients of a subgraph, as far as the next internal client. *)
Fixpoint block (e : engine) (l : list client_ptr) : list client_ptr :=
  match l with
  | [] => []
  | c :: l => if internal e c then [] else if runnable e c then c :: block e l else block e l
  end.

(** No internal client that does not process lies inside a subgraph
    ([opened]: a subgraph has begun). *)
Fixpoint tidy (e : engine) (opened : bool) (l : list client_ptr) : bool :=
  match l with
  | [] => true
  | c :: l =>
      if internal e c then (runnable e c || negb opened) && tidy e (opened && negb (runnable e c)) l
      else tidy e (opened || runnable e c) l
  end.

(** The clients whose callback is called. *)
Definition processes (e : engine) (c : client_ptr) : bool :=
  runnable e c && (negb (internal e c) || process_cbset (cbset (the_client e c))).

Abbreviation wait_of e c := (graph_wait <$> fds_of e c).

Lemma staged_waits e sub n l c :
  staged e sub n l -> c ∈ l -> runnable e c = true -> internal e c = false ->
  exists k, n <= k /\ wait_of e c = Some k.
Proof.
  revert sub n. induction l as [|d l IH]; intros sub n St Hc Hr Hi; [by apply not_elem_of_nil in Hc|].
  cbn [staged] in St. apply elem_of_cons in Hc as [<-|Hc].
  - rewrite Hr, Hi in St. cbn [negb] in St. destruct St as [St _]. exists n. split; [lia|done].
  - destruct (runnable e d); cbn [negb] in St; [|by apply (IH sub)].
    destruct (internal e d).
    + destruct St as [_ St]. destruct (IH _ _ St Hc Hr Hi) as (k & Hk & E). exists k. split; [|done].
      destruct sub; lia.
    + destruct St as [_ St]. destruct sub as [g|]; [|destruct St as [_ St]];
        (destruct (IH _ _ St Hc Hr Hi) as (k & Hk & E); exists k; split; [lia|done]).
Qed.

(** The part of a subgraph that is still ahead. *)
Lemma staged_block e g n l :
  tidy e true l = true -> staged e (Some g) n l ->
  ends_at e (Some g) (n + zlen (block e l)) /\
  (forall i c, block e l !! i = Some c -> wait_of e c = Some (n + Z.of_nat i)) /\
  staged e None (n + zlen (block e l) + 1) (next_internal e l) /\
  tidy e false (next_internal e l) = true /\
  filter (processes e) l = block e l ++ filter (processes e) (next_internal e l) /\
  (forall c, c ∈ l -> runnable e c = true -> internal e c = false -> c ∈ block e l \/ c ∈ next_internal e l).
Proof.
  revert n. induction l as [|c l IH]; intros n Ht St; cbn [block next_internal tidy staged length] in *.
  { split_and!; [by rewrite Z.add_0_r|done|done|done|done|set_solver]. }
  change (jack_client_is_internal (the_client e c)) with (internal e c). destruct (internal e c) eqn:Ei.
  - apply andb_prop in Ht as [Hr Ht]. rewrite orb_false_r in Hr. rewrite Hr in *. cbn [negb andb] in *.
    destruct St as [En St]. cbn [length]. rewrite Z.add_0_r. split_and!; try done.
    + cbn [staged]. rewrite Hr, Ei. done.
    + cbn [tidy]. by rewrite Ei, Hr.
    + set_solver.
  - assert (Hp : processes e c = runnable e c) by (unfold processes; by rewrite Ei, andb_true_r).
    destruct (runnable e c) eqn:Er; cbn [negb orb] in *.
    + destruct St as [Ew St]. destruct (IH (n + 1) Ht St) as (A & B & C & D & E & G). cbn [length].
      replace (n + Z.of_nat (S (length (block e l)))) with (n + 1 + zlen (block e l)) by lia. split_and!; try done.
      * intros [|i] d; cbn; [intros [= <-]; by rewrite Z.add_0_r|]. intros Hd. rewrite (B i d Hd). f_equal. lia.
      * rewrite filter_cons_True by (by rewrite Hp). by rewrite E.
      * intros d Hd Hr' Hi'. apply elem_of_cons in Hd as [->|Hd]; [left; left|]. destruct (G d Hd Hr' Hi'); [left; by right|by right].
    + destruct (IH n Ht St) as (A & B & C & D & E & G). split_and!; try done.
      * rewrite filter_cons_False by (rewrite Hp; exact id). done.
      * intros d Hd Hr' Hi'. apply elem_of_cons in Hd as [->|Hd]; [congruence|]. by apply G.
Qed.

Lemma frame_class e e' c : cycle_frame e e' ->
  runnable e' c = runnable e c /\ internal e' c = internal e c /\ dead (the_client e' c) = dead (the_client e c) /\
  process_cbset (cbset (the_client e' c)) = process_cbset (cbset (the_client e c)) /\
  subgraph_start_fd (the_client e' c) = subgraph_start_fd (the_client e c) /\
  subgraph_wait_fd (the_client e' c) = subgraph_wait_fd (the_client e c).
Proof.
  intros F. pose proof (cy_view e e' F c) as V. unfold cycle_view in V. injection V as V1 V2 V3 V4 V5 V6 V7.
  assert (V' : chain_view (the_client e' c) = chain_view (the_client e c)) by (unfold chain_view; congruence).
  destruct (view_runnable e e' c V') as (-> & -> & ->). done.
Qed.

Lemma next_internal_frame e e' l : cycle_frame e e' -> next_internal e' l = next_internal e l.
Proof.
  intros F. induction l as [|c l IH]; [done|]. cbn. destruct (frame_class e e' c F) as (_ & E & _).
  unfold internal in E. by rewrite E, IH.
Qed.

Lemma next_internal_incl e l c : c ∈ next_internal e l -> c ∈ l.
Proof.
  induction l as [|d l IH]; [done|]. cbn. destruct (jack_client_is_internal _); [done|]. intros H. right. by apply IH.
Qed.

Lemma next_internal_length e l : (length (next_internal e l) <= length l)%nat.
Proof. induction l as [|d l IH]; cbn; [lia|]. destruct (jack_client_is_internal _); cbn; lia. Qed.

Lemma block_length e l : (length (block e l) <= length l)%nat.
Proof. induction l as [|d l IH]; cbn; [lia|]. destruct (internal e d), (runnable e d); cbn; lia. Qed.

Lemma block_incl e l c : c ∈ block e l -> c ∈ l /\ runnable e c = true /\ internal e c = false.
Proof.
  induction l as [|d l IH]; cbn; [by intros ?%not_elem_of_nil|]. destruct (internal e d) eqn:Ei; [by intros ?%not_elem_of_nil|].
  destruct (runnable e d) eqn:Er; [rewrite elem_of_cons; intros [->|H]|intros H].
  - split_and!; [left|done|done].
  - destruct (IH H). split; [by right|done].
  - destruct (IH H). split; [by right|done].
Qed.

Lemma waits_char e c m : waits_on e m c = true <-> runnable e c = true /\ c_type (the_client e c) = ClientExternal /\ wait_of e c = Some m.
Proof.
  unfold waits_on, runnable. change (client_fds c (events e)) with (fds_of e c).
  rewrite !andb_true_iff, !bool_decide_eq_true. tauto.
Qed.

Lemma external_type e c : internal e c = false <-> c_type (the_client e c) = ClientExternal.
Proof. unfold internal, jack_client_is_internal. destruct (c_type _); naive_solver. Qed.

(** ** The server's loop *)

Section loop.
Context (e0 : engine).
Context (Hdead : forall c, c ∈ clients e0 -> runnable e0 c = true -> dead (the_client e0 c) = false).
Context (Hhang : forall c, cy_hangs w c = false) (Hwrite : forall c, cy_write_ok w c = true) (Hpoll : forall c, cy_poll_fails w c = false).
Context (Hproc : forall c, internal e0 c = true -> cy_process w c = 0).

(** The nodes ahead, from the number [n] on. *)
Record ahead (n : Z) (nodes : list client_ptr) : Prop := {
  ah_in : forall c, c ∈ nodes -> c ∈ clients e0;
  ah_length : (length nodes <= length (clients e0))%nat;
  ah_staged : staged e0 None n nodes;
  ah_tidy : tidy e0 false nodes = true;
  ah_before : forall d, d ∈ clients e0 -> d ∉ nodes -> runnable e0 d = true -> internal e0 d = false ->
    exists k, k < n /\ wait_of e0 d = Some k
}.

Lemma ahead_skip n c l : ahead n (c :: l) -> (runnable e0 c = false \/ internal e0 c = true) -> ahead n l.
Proof.
  intros [A B C D E] Hc. constructor.
  - intros d Hd. apply A. by right.
  - cbn in B. lia.
  - cbn [staged] in C. destruct (runnable e0 c); [|done]. destruct Hc as [|Hc]; [done|]. rewrite Hc in C.
    by destruct C as [_ C].
  - cbn [tidy] in D. destruct (internal e0 c); [by apply andb_prop in D as [_ D]|].
    destruct Hc as [Hc|]; [|done]. by rewrite Hc in D.
  - intros d Hd Hn Hr Hi. apply E; [done| |done|done]. rewrite not_elem_of_cons. split; [|done].
    intros ->. destruct Hc; congruence.
Qed.

Lemma process_internal_ok c rest e :
  cycle_frame e0 e -> process_errors e0 = 0 -> internal e0 c = true ->
  exists e', jack_process_internal w c rest e =
    (rest, if process_cbset (cbset (the_client e0 c)) then [c] else [], e') /\ cycle_frame e0 e'.
Proof.
  intros F Hz Hi. unfold jack_process_internal. cbv zeta. set (e1 := upd_client c _ e).
  assert (H1 : cycle_frame e0 e1) by (transitivity e; [done|by apply cycle_frame_upd]). clearbody e1.
  set (e2 := if sync_cb_cbset _ then _ else e1).
  assert (H2 : cycle_frame e0 e2) by (unfold e2; destruct (sync_cb_cbset _); [transitivity e1; [done|apply cycle_frame_sync]|done]).
  clearbody e2. rewrite (Hproc c Hi). destruct (frame_class e0 e2 c H2) as (_ & _ & _ & -> & _). cbn [negb Z.eqb].
  destruct (process_cbset _);
    (set (e3 := if timebase_cb_cbset _ then _ else e2);
     assert (H3 : cycle_frame e0 e3) by (unfold e3; destruct (timebase_cb_cbset _); [transitivity e2; [done|apply cycle_frame_timebase]|done]);
     clearbody e3; set (e4 := upd_client c _ e3);
     assert (H4 : cycle_frame e0 e4) by (transitivity e3; [done|by apply cycle_frame_upd]); clearbody e4;
     exists e4; split; [|done]; by rewrite (cy_errors e0 e4 H4), Hz).
Qed.

Section subgraph.
Context (n : Z) (c : client_ptr) (rest : list client_ptr).
Context (A : ahead n (c :: rest)) (Hr : runnable e0 c = true) (Hi : internal e0 c = false).

Let blk := c :: block e0 rest.

Lemma subgraph_staged :
  wait_of e0 c = Some n /\ fifo_of e0 (subgraph_start_fd (the_client e0 c)) = Some n /\
  staged e0 (Some c) (n + 1) rest /\ tidy e0 true rest = true.
Proof.
  pose proof (ah_staged n _ A) as St. pose proof (ah_tidy n _ A) as Ti. cbn [staged tidy] in St, Ti.
  rewrite Hr, Hi in St. rewrite Hi, Hr in Ti. cbn in St, Ti. tauto.
Qed.

Lemma subgraph_block i d : blk !! i = Some d -> wait_of e0 d = Some (n + Z.of_nat i).
Proof.
  destruct subgraph_staged as (Ew & _ & St & Ti). destruct (staged_block e0 c (n + 1) rest Ti St) as (_ & B & _).
  destruct i as [|i]; cbn; [intros [= <-]; by rewrite Z.add_0_r|]. intros Hd. rewrite (B i d Hd). f_equal. lia.
Qed.

Lemma subgraph_members d : d ∈ blk -> d ∈ clients e0 /\ runnable e0 d = true /\ internal e0 d = false.
Proof.
  intros Hd. apply elem_of_cons in Hd as [->|Hd].
  - split; [|done]. apply (ah_in n _ A). left.
  - destruct (block_incl e0 rest d Hd) as (Hin & ? & ?). split; [|done]. apply (ah_in n _ A). by right.
Qed.

(** Who waits on the FIFOs of the subgraph. *)
Lemma subgraph_waits m d :
  n <= m <= n + zlen blk -> d ∈ clients e0 -> waits_on e0 m d = true <-> blk !! Z.to_nat (m - n) = Some d.
Proof.
  intros Hm Hd. rewrite waits_char, <- external_type. split.
  - intros (Hrd & Hid & Ew). destruct subgraph_staged as (_ & _ & St & Ti).
    destruct (staged_block e0 c (n + 1) rest Ti St) as (_ & _ & St' & _ & _ & Cl).
    assert (Hcase : d ∈ blk \/ d ∈ next_internal e0 rest).
    { destruct (decide (d ∈ c :: rest)) as [Hin|Hn].
      - apply elem_of_cons in Hin as [->|Hin]; [left; left|]. destruct (Cl d Hin Hrd Hid); [left; by right|by right].
      - destruct (ah_before n _ A d Hd Hn Hrd Hid) as (k & Hk & E). rewrite E in Ew. injection Ew as ->. lia. }
    destruct Hcase as [Hb|Hx].
    + apply list_elem_of_lookup in Hb as [i Hb]. pose proof (subgraph_block i d Hb) as E. rewrite E in Ew.
      injection Ew as <-. by replace (Z.to_nat (n + Z.of_nat i - n)) with i by lia.
    + destruct (staged_waits e0 None _ _ d St' Hx Hrd Hid) as (k & Hk & E). rewrite E in Ew. injection Ew as ->.
      unfold blk in Hm. cbn [length] in Hm. lia.
  - intros Hb. destruct (subgraph_members d) as (_ & Hrd & Hid); [by apply list_elem_of_lookup_2 in Hb|].
    split_and!; [done|done|]. rewrite (subgraph_block _ _ Hb). f_equal. lia.
Qed.

Lemma subgraph_ahead : ahead (n + zlen blk + 1) (next_internal e0 rest).
Proof.
  destruct subgraph_staged as (_ & _ & St & Ti).
  destruct (staged_block e0 c (n + 1) rest Ti St) as (_ & _ & St' & Ti' & _ & Cl).
  assert (El : n + zlen blk + 1 = n + 1 + zlen (block e0 rest) + 1) by (unfold blk; cbn [length]; lia).
  constructor.
  - intros d Hd. apply (ah_in n _ A). right. by apply (next_internal_incl e0).
  - pose proof (ah_length n _ A) as L. pose proof (next_internal_length e0 rest). cbn in L. lia.
  - by rewrite El.
  - done.
  - intros d Hd Hn Hrd Hid. destruct (decide (d ∈ blk)) as [Hb|Hb].
    + apply list_elem_of_lookup in Hb as [i Hb]. exists (n + Z.of_nat i). split; [|by apply subgraph_block].
      apply lookup_lt_Some in Hb. lia.
    + destruct (ah_before n _ A d Hd) as (k & Hk & E); [|done|done|].
      * rewrite not_elem_of_cons. split; [intros ->; apply Hb; left|]. intros Hin.
        destruct (Cl d Hin Hrd Hid) as [?|?]; [apply Hb; by right|done].
      * exists k. split; [lia|done].
Qed.

Lemma process_external_ok e :
  cycle_frame e0 e ->
  exists e', jack_process_external w c rest e = Some (next_internal e0 rest, blk, e') /\ cycle_frame e0 e'.
Proof.
  intros F. unfold jack_process_external. cbv zeta. set (e1 := upd_client c _ e).
  assert (H1 : cycle_frame e0 e1) by (transitivity e; [done|by apply cycle_frame_upd]). clearbody e1.
  destruct subgraph_staged as (Ew & Es & St & Ti).
  destruct (staged_block e0 c (n + 1) rest Ti St) as (En & _).
  destruct (frame_class e0 e1 c H1) as (_ & _ & _ & _ & E1 & _).
  assert (Ef : fifo_of e1 (subgraph_start_fd (the_client e1 c)) = Some n)
    by (rewrite E1; unfold fifo_of; rewrite (cy_fifo e0 e1 H1); exact Es).
  rewrite Ef, Hwrite.
  assert (Hl : (length blk - 0 < S (length (clients e1)))%nat).
  { rewrite (cy_clients e0 e1 H1). pose proof (ah_length n _ A) as L. pose proof (block_length e0 rest).
    unfold blk. cbn in *. lia. }
  destruct (run_chain_block blk n (S (length (clients e1))) 0 e0 e1 Hhang H1 subgraph_waits) as (e2 & E2 & H2);
    [intros d Hd; by apply subgraph_members|lia|done|].
  rewrite Z.add_0_r in E2. rewrite E2. clear E2. destruct (frame_class e0 e2 c H2) as (_ & Ei2 & _ & _ & _ & W2).
  assert (Ea : Some (n + zlen blk) = fifo_of e2 (subgraph_wait_fd (the_client e2 c))).
  { rewrite W2. unfold fifo_of. rewrite (cy_fifo e0 e2 H2). unfold ends_at, fifo_of in En. rewrite En. f_equal.
    unfold blk. cbn [length]. lia. }
  rewrite bool_decide_eq_true_2 by (split; [by eexists|exact Ea]).
  unfold subgraph_poll, meanwhile. rewrite Hpoll. cbn [andb negb]. change (Z.land POLLIN POLLIN) with 1. cbn [negb Z.eqb].
  rewrite !(bool_decide_eq_false_2 (Some _ = None /\ _)) by (by intros [? _]). cbn [negb Z.eqb app].
  rewrite bool_decide_eq_true_2 by (split; [by eexists|exact Ea]). cbn [negb]. rewrite app_nil_r.
  set (e3 := e2 <| timeout_count := 0 |>). assert (H3 : cycle_frame e0 e3) by (transitivity e2; done).
  exists e3. split; [|done]. rewrite (next_internal_frame e0 e3 _ H3). cbn [next_internal]. unfold internal in Hi.
  by rewrite Hi.
Qed.

End subgraph.

(** The loop over the nodes. *)
Lemma process_loop_ok fuel n nodes e :
  process_errors e0 = 0 -> (length nodes <= fuel)%nat -> ahead n nodes -> cycle_frame e0 e ->
  exists e', process_loop w fuel nodes e = Some (filter (processes e0) nodes, e') /\ cycle_frame e0 e'.
Proof.
  intros Hz. revert n nodes e. induction fuel as [|fuel IH]; intros n nodes e Hf A F.
  { destruct nodes; [|cbn in Hf; lia]. by exists e. }
  destruct nodes as [|c rest]; [by exists e|]. cbn [process_loop]. rewrite (cy_errors e0 e F), Hz. cbn [negb Z.eqb].
  destruct (frame_class e0 e c F) as (Er & Ei & Ed & Ec & _).
  assert (Et : to_process (the_client e c) = runnable e0 c).
  { unfold to_process. change (active (the_client e c) && runs_process (the_client e c)) with (runnable e c).
    rewrite Er, Ed. destruct (runnable e0 c) eqn:E; [|done].
    by rewrite (Hdead c (ah_in n _ A c ltac:(left)) E). }
  rewrite Et. change (jack_client_is_internal (the_client e c)) with (internal e c). rewrite Ei.
  destruct (runnable e0 c) eqn:Hr; cbn [negb].
  2:{ destruct (IH n rest e) as (e' & E' & F'); [cbn in Hf; lia|by apply (ahead_skip n c); auto|done|].
      exists e'. rewrite E'. split; [|done]. rewrite filter_cons_False; [done|]. unfold processes. rewrite Hr. exact id. }
  destruct (internal e0 c) eqn:Hi.
  - destruct (process_internal_ok c rest e F Hz Hi) as (e1 & E1 & F1). rewrite E1. cbn [mbind option_bind].
    destruct (IH n rest e1) as (e' & E' & F'); [cbn in Hf; lia|by apply (ahead_skip n c); auto|done|].
    rewrite E'. cbn [mbind option_bind]. exists e'. split; [|done]. do 2 f_equal.
    destruct (process_cbset (cbset (the_client e0 c))) eqn:Ep.
    + rewrite filter_cons_True; [done|]. unfold processes. by rewrite Hr, Hi, Ep.
    + rewrite filter_cons_False; [done|]. unfold processes. rewrite Hr, Hi, Ep. exact id.
  - destruct (process_external_ok n c rest A Hr Hi e F) as (e1 & E1 & F1). rewrite E1. cbn [mbind option_bind].
    assert (Hf' : (length (next_internal e0 rest) <= fuel)%nat)
      by (pose proof (next_internal_length e0 rest); cbn in Hf; lia).
    destruct (IH _ _ e1 Hf' (subgraph_ahead n c rest A Hr Hi) F1) as (e' & E' & F'). rewrite E'. cbn [mbind option_bind]. exists e'. split; [|done]. do 2 f_equal.
    destruct (subgraph_staged n c rest A Hr Hi) as (_ & _ & St & Ti).
    destruct (staged_block e0 c (n + 1) rest Ti St) as (_ & _ & _ & _ & Ef & _).
    rewrite filter_cons_True by (unfold processes; by rewrite Hr, Hi). by rewrite Ef.
Qed.

End loop.

(** Places depend on the descriptors, the events and the callbacks alone. *)
Section ext.
Context (e e' : engine).
Context (Hfds : forall d, fds_of e' d = fds_of e d) (Hfifo : fifo e' = fifo e).
Context (Hview : forall d, cycle_view (the_client e' d) = cycle_view (the_client e d)).

Lemma ext_class c :
  runnable e' c = runnable e c /\ internal e' c = internal e c /\ processes e' c = processes e c /\
  dead (the_client e' c) = dead (the_client e c).
Proof.
  pose proof (Hview c) as V. unfold cycle_view in V. injection V as V1 V2 V3 V4 V5 V6 V7.
  assert (V' : chain_view (the_client e' c) = chain_view (the_client e c)) by (unfold chain_view; congruence).
  unfold processes. destruct (view_runnable e e' c V') as (-> & -> & ->). by rewrite V5.
Qed.

Lemma ext_fds c : fifo_of e' (subgraph_start_fd (the_client e' c)) = fifo_of e (subgraph_start_fd (the_client e c)) /\
  fifo_of e' (subgraph_wait_fd (the_client e' c)) = fifo_of e (subgraph_wait_fd (the_client e c)).
Proof.
  pose proof (Hview c) as V. unfold cycle_view in V. injection V as _ _ _ _ _ V6 V7. unfold fifo_of.
  by rewrite Hfifo, V6, V7.
Qed.

Lemma staged_ext sub n l : staged e sub n l -> staged e' sub n l.
Proof.
  assert (En : forall s k, ends_at e s k -> ends_at e' s k)
    by (intros [g|] k; cbn; [destruct (ext_fds g) as [_ ->]|]; done).
  revert sub n. induction l as [|c l IH]; intros sub n; cbn [staged]; [apply En|].
  destruct (ext_class c) as (-> & -> & _), (ext_fds c) as [-> _]. rewrite Hfds.
  destruct (negb _); [apply IH|]. destruct (internal e c).
  - intros [H1 H2]. split; [by apply En|by apply IH].
  - intros [H1 H2]. split; [done|]. destruct sub; [by apply IH|]. destruct H2. split; [done|by apply IH].
Qed.

Lemma tidy_ext b l : tidy e' b l = tidy e b l.
Proof.
  revert b. induction l as [|c l IH]; intros b; cbn [tidy]; [done|].
  destruct (ext_class c) as (-> & -> & _). by rewrite !IH.
Qed.

Lemma processes_ext (l : list client_ptr) : filter (processes e') l = filter (processes e) l.
Proof. apply list_filter_iff. intros c. by destruct (ext_class c) as (_ & _ & -> & _). Qed.

End ext.

Lemma reset_frame l e : cycle_frame e (foldl (fun e c => upd_client c reset_timing e) e l).
Proof.
  revert e. induction l as [|c l IH]; intros e; [done|]. cbn. etransitivity; [|apply IH]. by apply cycle_frame_upd.
Qed.

(** A cycle over clients that have their places. *)
Lemma engine_process_ok e :
  (forall c, c ∈ clients e -> runnable e c = true -> dead (the_client e c) = false) ->
  (forall c, cy_hangs w c = false) -> (forall c, cy_write_ok w c = true) -> (forall c, cy_poll_fails w c = false) ->
  (forall c, internal e c = true -> cy_process w c = 0) ->
  staged e None 0 (clients e) -> tidy e false (clients e) = true ->
  exists e', jack_engine_process w e = Some (0, filter (processes e) (clients e), e') /\
    cycle_frame (e <| process_errors := 0 |>) e'.
Proof.
  intros Hd Hh Hw Hl Hp St Ti. unfold jack_engine_process. cbv zeta. set (e0 := e <| process_errors := 0 |>).
  set (e1 := foldl _ e0 _). assert (F1 : cycle_frame e0 e1) by apply reset_frame.
  rewrite (cy_clients e0 e1 F1).
  assert (A : ahead e0 0 (clients e0)).
  { constructor; [done|done|by apply (staged_ext e)|by rewrite (tidy_ext e)|]. by intros d Hin Hn. }
  clearbody e1. destruct (process_loop_ok e0 Hd Hh Hw Hl Hp (length (clients e0)) 0 (clients e0) e1 eq_refl (le_n _) A F1)
    as (e' & -> & F'). cbn [mbind option_bind]. rewrite (cy_errors e0 e' F'). exists e'. split; [|exact F'].
  by rewrite (processes_ext e e0).
Qed.

End order.

(** ** After a sort *)

Section sorted.
Context (env : environment) `{!ChainEnv env} (w : cycle_world).

Lemma cycle_frame_deliver c ev e :
  (forall n up, ev <> GraphReordered n up) -> cycle_frame e (jack_deliver_event env c ev e).2.
Proof.
  intros Hev. pose proof (deliver_frame env c ev e) as F. constructor.
  - by apply (event_frame_get clients).
  - intros d. unfold fds_of.
    assert (K : forall l, client_fds d (l ++ [(c, ev)]) = client_fds d l).
    { intros l. rewrite client_fds_app. destruct ev as [| | | | |n up| | | | | | | | | ]; try done. by destruct (Hev n up). }
    clear F. unfold jack_deliver_event. cbv zeta. destruct (unreachable _ _); [done|].
    destruct (jack_client_is_internal _); [destruct (internal_handles _ _); [apply K|done]|].
    destruct (active _); [|done]. cbn [snd].
    assert (S : forall (b : bool) e2, events (if b then socket_error c e2 else e2) = events e2) by (intros []; done).
    rewrite S. destruct (io_write_ok _); [apply K|done].
  - by apply (event_frame_get fifo).
  - by apply (event_frame_get process_errors).
  - intros d. by apply (event_frame_field cycle_view e _ d).
Qed.

Lemma cycle_frame_new_latency e : cycle_frame e (jack_compute_new_latency env e).
Proof.
  assert (L : forall m l e, cycle_frame e (deliver_where env (fun _ _ => true) (LatencyCallback m) l e)).
  { intros m l. unfold deliver_where. induction l as [|c l IH]; intros e1; [done|]. cbn. etransitivity; [|apply IH].
    by apply cycle_frame_deliver. }
  assert (D : forall m e, cycle_frame e (deliver_driver env (LatencyCallback m) e)).
  { intros m e1. unfold deliver_driver. destruct (driver e1); [|done]. by apply cycle_frame_deliver. }
  unfold jack_compute_new_latency. cbv zeta.
  etransitivity; [|apply D]. etransitivity; [|apply L]. etransitivity; [apply L|apply D].
Qed.

Lemma latencies_ports e : exists ps, jack_compute_all_port_total_latencies e = e <| ports := ps |>.
Proof.
  unfold jack_compute_all_port_total_latencies. generalize (seq 0 (length (ports e))). intros l.
  assert (K : forall e, exists ps, foldl (fun e p => jack_compute_port_total_latency p e) e l = e <| ports := ps |>).
  { clear e. induction l as [|p l IH]; intros e; [exists (ports e); by destruct e|]. cbn [foldl].
    destruct (IH (jack_compute_port_total_latency p e)) as [ps ->].
    exists ps. unfold jack_compute_port_total_latency. by destruct (in_use _). }
  apply K.
Qed.

(** The places after a sort. *)
Lemma sort_places e :
  engine_inv e -> fifo_ok env e -> (forall c, c ∈ clients e -> c_error (the_client e c) = 0) ->
  let e1 := jack_sort_graph env e in
  staged e1 None 0 (clients e1) /\ NoDup (clients e1) /\
  (forall c, internal e1 c = internal e c) /\
  (forall c, c ∈ clients e1 -> runnable e1 c = true -> dead (the_client e1 c) = false).
Proof.
  intros H Hok He. unfold jack_sort_graph. cbv zeta. set (lt := fun a b => jack_client_sort e a b <? 0).
  set (e1 := e <| clients ::= slist_sort lt |>).
  assert (P : clients e1 ≡ₚ clients e) by apply sort_fuel_perm.
  assert (S1 : forall c, the_client e1 c = the_client e c) by done.
  assert (K1 : client_store e1 = client_store e /\ fifo e1 = fifo e) by done. clearbody e1. destruct K1 as [K1 F1].
  destruct (latencies_ports e1) as [ps ->]. set (e2 := e1 <| ports := ps |>).
  assert (P2 : clients e2 ≡ₚ clients e) by done.
  assert (S2 : forall c, the_client e2 c = the_client e c) by done.
  assert (K2 : client_store e2 = client_store e /\ fifo e2 = fifo e) by done. clearbody e2. destruct K2 as [K2 F2].
  assert (Hr : forall c, c ∈ clients e -> runnable e c = true -> dead (the_client e c) = false).
  { intros c Hc R. destruct (dead (the_client e c)) eqn:Ed; [|done].
    destruct (ei_zombies e H c Hc Ed) as [_ Z]. unfold runnable in R. by rewrite (zb_inactive c e Z) in R. }
  assert (Nd : NoDup (clients e2)) by (rewrite P2; apply H).
  assert (Sd : sound e2 (clients e2)).
  { intros c Hc. rewrite P2 in Hc. split.
    - rewrite K2. destruct (proj1 (ei_transport e H)) as [_ S _ _ _]. by apply S.
    - unfold runnable. rewrite !S2. intros R. split; [by apply Hr|by apply He]. }
  assert (Ok2 : fifo_ok env e2) by (intros i fd; rewrite F2; apply Hok).
  destruct (rechain_places env e2 Nd Sd Ok2) as [F St]. set (e3 := jack_rechain_graph env e2) in *. clearbody e3.
  pose proof (cycle_frame_new_latency e3) as F4. set (e4 := jack_compute_new_latency env e3) in *. clearbody e4.
  change (clients (e4 <| timeout_count := 0 |>)) with (clients e4).
  assert (C4 : clients e4 = clients e2) by (rewrite (cy_clients _ _ F4); apply F). rewrite C4.
  split_and!.
  - apply (staged_ext e3); [intros d; apply F4|apply F4|intros d; apply F4|done].
  - done.
  - intros c. destruct (frame_class e3 e4 c F4) as (_ & E4 & _), (frame_runnable env _ _ e2 e3 c F) as (_ & E3 & _).
    change (internal (e4 <| timeout_count := 0 |>) c) with (internal e4 c). rewrite E4, E3. unfold internal. by rewrite S2.
  - intros c Hc. destruct (frame_class e3 e4 c F4) as (R4 & _ & D4 & _), (frame_runnable env _ _ e2 e3 c F) as (R3 & _ & D3).
    change (runnable (e4 <| timeout_count := 0 |>) c) with (runnable e4 c). rewrite R4, R3.
    change (the_client (e4 <| timeout_count := 0 |>) c) with (the_client e4 c). rewrite D4, D3.
    unfold runnable. rewrite !S2. rewrite P2 in Hc. by apply Hr.
Qed.

(** C5: After the server has sorted its graph, the clients that are active and have
    a callback process exactly once in a cycle, in the order of the sorted list, across
    the internal clients and the chains of external ones, and the cycle succeeds.  Nothing
    may go wrong: no client has an error, hangs or fails in its callback, writes and polls succeed, and the
    FIFOs are open under the descriptors of [ChainEnv].  And no
    internal client without anything to do may lie inside a chain of external
    ones ([tidy]): then the claim is false, see [idle_internal_client_runs_twice]. *)
Theorem cycle_in_order e :
  engine_inv e -> fifo_ok env e -> (forall c, c ∈ clients e -> c_error (the_client e c) = 0) ->
  (forall c, cy_hangs w c = false) -> (forall c, cy_write_ok w c = true) -> (forall c, cy_poll_fails w c = false) ->
  (forall c, internal e c = true -> cy_process w c = 0) ->
  let e1 := jack_sort_graph env e in tidy e1 false (clients e1) = true ->
  exists log e', jack_engine_process w e1 = Some (0, log, e') /\
    log = filter (processes e1) (clients e1) /\ NoDup log /\ clients e' = clients e1.
Proof.
  intros H Hok He Hh Hw Hl Hp. pose proof (sort_places e H Hok He) as P. cbv zeta in *.
  revert P. generalize (jack_sort_graph env e). intros e1 (St & Nd & Ei & Hd) Ti.
  destruct (engine_process_ok w e1 Hd Hh Hw Hl ltac:(intros c; rewrite Ei; apply Hp) St Ti) as (e' & E & F).
  eexists _, e'. split_and!; [exact E|done|by apply NoDup_filter|by rewrite (cy_clients _ _ F)].
Qed.

End sorted.
End CycleOrder.
