(* ===== verification/CycleInv.v ===== *)
(** * The cycle keeps the invariant (server/engine.c)

    Whatever clients and drivers do in a cycle, [jack_run_one_cycle] keeps the
    invariant of the engine; what a failing client leads to. *)

From S2P Require Import Prelude JSList Engine Transport TransportCycle Events Graph GraphInv.
From S2P Require Import Connect GraphFrame Ports PortsInv Clients ClientsInv Frames Lifecycle Removal Activation.
From S2P Require Import Creation ServerOps Requests RequestsInv Cycle.

Local Open Scope Z_scope.

Module CycleInv.
Import JSList Transport TransportCycle Events Graph GraphInv Connect GraphFrame Ports PortsInv.
Import Clients ClientsInv.
Import Frames Lifecycle Removal Activation Creation ServerOps Requests RequestsInv Cycle.

(** What every part of a cycle keeps. *)
Record keeps (e e' : engine) : Prop := {
  kp_inv : engine_inv e -> engine_inv e';
  kp_clients : clients e' = clients e;
  kp_freewheeling : freewheeling e' = freewheeling e;
  kp_request : request_time (control e') = request_time (control e)
}.

#[global] Instance keeps_preorder : PreOrder keeps.
Proof. split; [done|]. intros a b c [] []. constructor; [auto|congruence..]. Qed.

Lemma keeps_client c f e :
  (forall x, cview (f x) = cview x) -> (forall x, tview (f x) = tview x) -> keeps e (upd_client c f e).
Proof. intros F1 F2. constructor; try done. by apply error_keeps. Qed.

Lemma keeps_counts e e' :
  server_frame e e' -> client_store e' = client_store e -> control e' = control e ->
  timebase_client e' = timebase_client e -> nozombies e' = nozombies e -> next_client_id e' = next_client_id e ->
  freewheeling e' = freewheeling e -> keeps e e'.
Proof. intros F ? E. intros. constructor; [by apply engine_inv_counts|apply F|done|by rewrite E]. Qed.

Lemma keeps_sync ready c e : c ∈ clients e -> keeps e (jack_call_sync_client ready c e).
Proof.
  intros Hc. constructor; [|apply tkeeps_call_sync| |].
  - intros H. by apply (transport_step_inv e); [constructor|apply tkeeps_call_sync|].
  - unfold jack_call_sync_client. destruct (_ && _), ready; try done. by destruct (sync_poll _).
  - unfold jack_call_sync_client. destruct (_ && _), ready; try done. by destruct (sync_poll _).
Qed.

Lemma keeps_timebase cb c e : keeps e (jack_call_timebase_master cb c e).
Proof.
  constructor; [|apply tkeeps_call_timebase| |].
  - intros H. by apply (transport_step_inv e); [constructor|apply tkeeps_call_timebase|].
  - unfold jack_call_timebase_master. destruct (is_timebase _); [|done].
    by destruct (timebase_new _); destruct (_ || _).
  - by destruct (call_timebase_control cb c e) as [p ->].
Qed.

(** A flag of the control block. *)
Lemma keeps_cbset c f e : keeps e (set_cbset c f e).2.
Proof. by apply keeps_client. Qed.

Lemma setter_keeps setter c set e : setter ∈ callback_setters -> keeps e (setter c set e).2.
Proof.
  assert (I : forall r, keeps e r.2 -> keeps e (if_inactive c e r).2) by (intros r K; unfold if_inactive; by destruct (active _)).
  unfold callback_setters. rewrite !elem_of_cons, elem_of_nil.
  intros [-> | [-> | [-> | [-> | [-> | [-> | [-> | [-> | [-> | []]]]]]]]]]; try (apply I; apply keeps_cbset).
  - apply I. destruct (thread_cb_cbset _); [done|apply keeps_cbset].
  - apply I. destruct (process_cbset _); [done|apply keeps_cbset].
  - apply keeps_cbset.
Qed.

Section cycle.
Context (env : environment) (w : cycle_world).

Lemma wakes_keeps c e : c ∈ clients e -> keeps e (client_wakes w c e).
Proof.
  intros Hc. unfold client_wakes. set (e1 := upd_client c _ e).
  assert (K1 : keeps e e1) by (by apply keeps_client). clearbody e1.
  set (e2 := upd_client c _ e1). assert (K2 : keeps e1 e2) by (by apply keeps_client). clearbody e2. cbv zeta.
  transitivity e1; [done|]. transitivity e2; [done|]. destruct (sync_cb_cbset _); [|done].
  apply keeps_sync. by rewrite (kp_clients _ _ K2), (kp_clients _ _ K1).
Qed.

Lemma signals_keeps c st e : keeps e (client_signals w c st e).
Proof.
  unfold client_signals. set (e1 := upd_client c _ e).
  assert (K1 : keeps e e1) by (by apply keeps_client). clearbody e1.
  set (e2 := upd_client c _ e1). assert (K2 : keeps e1 e2) by (by apply keeps_client). clearbody e2. cbv zeta.
  transitivity e1; [done|]. transitivity e2; [done|].
  transitivity (if (st =? 0) && timebase_cb_cbset (cbset (the_client e2 c))
                then jack_call_timebase_master (cy_timebase w) c e2 else e2).
  - destruct (_ && _); [apply keeps_timebase|done].
  - by apply keeps_client.
Qed.

Lemma run_chain_keeps fuel n e : keeps e (run_chain w fuel n e).2.
Proof.
  revert n e. induction fuel as [|fuel IH]; intros n e; [done|]. cbn [run_chain].
  destruct (find _ _) as [c|] eqn:E; [|done]. apply find_some in E as [Hc _]. apply list_elem_of_In in Hc.
  pose proof (wakes_keeps c e Hc) as K1. set (e1 := client_wakes w c e) in *. clearbody e1. cbv zeta.
  destruct (cy_hangs w c); [done|]. transitivity e1; [done|].
  etransitivity; [apply (signals_keeps c (process_status w c e1))|]. set (e2 := client_signals w c _ e1). clearbody e2.
  specialize (IH (n + 1) e2). by destruct (run_chain w fuel (n + 1) e2) as [[m log] e3].
Qed.

Lemma meanwhile_keeps c r stop e : keeps e (meanwhile w c r stop e).2.
Proof.
  unfold meanwhile, resume_chain. destruct (bool_decide _); [|done]. destruct (find _ _) as [d|]; [|done]. cbv zeta.
  pose proof (signals_keeps d (process_status w d e) e) as K1. set (e1 := client_signals w d _ e) in *. clearbody e1.
  destruct (client_fds d _) as [f|]; [|done]. pose proof (run_chain_keeps (length (clients e1)) (graph_next f) e1) as K2.
  destruct (run_chain w _ _ e1) as [[n log] e2]. by transitivity e1.
Qed.

Lemma check_status_keeps e : keeps e (jack_check_client_status w e).2.
Proof.
  unfold jack_check_client_status. generalize (clients e) as l. intros l.
  assert (G : forall z e, keeps e (foldl (check_status w) (z, e) l).2); [|apply G].
  clear e. induction l as [|c l IH]; intros z e; [done|]. cbn [foldl].
  assert (S : keeps e (check_status w (z, e) c).2).
  { unfold check_status. cbn [snd fst]. destruct (bool_decide _); [|done].
    destruct (cy_alive w c); cbn [snd fst]; (destruct (negb _); cbn [snd]; [|try done]).
    - by apply keeps_client.
    - etransitivity; by apply keeps_client.
    - by apply keeps_client. }
  destruct (check_status w (z, e) c) as [z1 e1]. transitivity e1; [done|apply IH].
Qed.

(** [jack_check_clients] changes clients and counts only. *)
Lemma check_clients_rest {A} (g : engine -> A) timeout fin e :
  (forall c f e, g (upd_client c f e) = g e) -> (forall f e, g (e <| timeout_count ::= f |>) = g e) ->
  (forall f e, g (e <| problems ::= f |>) = g e) -> g (jack_check_clients timeout fin e).2 = g e.
Proof.
  intros G1 G2 G3. unfold jack_check_clients.
  assert (K : forall l n e, g (foldl (check_client timeout fin) (n, e) l).2 = g e).
  { clear e. induction l as [|c l IH]; intros n e; [done|]. cbn [foldl].
    assert (S : g (check_client timeout fin (n, e) c).2 = g e).
    { unfold check_client. cbv zeta. destruct (negb _); [done|]. destruct (_ && _); [|done].
      destruct (fin c =? 0); cbn [snd]; by rewrite ?G2, G1. }
    destruct (check_client timeout fin (n, e) c) as [n1 e1]. by rewrite IH. }
  specialize (K (clients e) 0 e). destruct (foldl _ _ _) as [n e1]. cbn [snd] in *. destruct (negb _); [|done].
  unfold jack_engine_signal_problems. by rewrite G3.
Qed.

Lemma check_clients_cycle timeout fin e : keeps e (jack_check_clients timeout fin e).2.
Proof.
  constructor; [apply check_clients_keeps|by apply (check_clients_rest clients)|by apply (check_clients_rest freewheeling)|].
  by apply (check_clients_rest (fun e => request_time (control e))).
Qed.

Lemma process_internal_keeps c rest e : c ∈ clients e -> keeps e (jack_process_internal w c rest e).2.
Proof.
  intros Hc. unfold jack_process_internal. cbv zeta. set (e1 := upd_client c _ e).
  assert (K1 : keeps e e1) by (by apply keeps_client). clearbody e1.
  set (e2 := if sync_cb_cbset _ then _ else e1).
  assert (K2 : keeps e e2).
  { transitivity e1; [done|]. unfold e2. destruct (sync_cb_cbset _); [|done]. apply keeps_sync. by rewrite (kp_clients _ _ K1). }
  clearbody e2. destruct (if process_cbset _ then _ else _) as [log e3] eqn:E3.
  assert (K3 : keeps e e3).
  { transitivity e2; [done|]. apply (f_equal snd) in E3. cbn [snd] in E3. subst e3.
    destruct (process_cbset _); [|done]. cbn [snd]. destruct (negb _); [|done]. by apply keeps_counts. }
  clear E3. set (e4 := if timebase_cb_cbset _ then _ else e3).
  assert (K4 : keeps e e4) by (transitivity e3; [done|]; unfold e4; destruct (timebase_cb_cbset _); [apply keeps_timebase|done]).
  clearbody e4. cbn [snd]. transitivity e4; [done|]. by apply keeps_client.
Qed.

Lemma poll_keeps c arrived e e' : subgraph_poll w c arrived e = Some (inr e') -> keeps e e'.
Proof.
  unfold subgraph_poll. destruct (if arrived && _ then _ else _) as [[r v] u]. cbv zeta.
  do 2 (destruct (negb _); [done|]). destruct (freewheeling e); [|by destruct (u <? 200)].
  pose proof (check_status_keeps e) as K. destruct (jack_check_client_status w e) as [err e1].
  destruct (negb _); [|done]. by intros [= <-].
Qed.

Lemma process_external_keeps c rest e next log e' :
  jack_process_external w c rest e = Some (next, log, e') ->
  keeps e e' /\ (forall d, d ∈ next -> d ∈ c :: rest).
Proof.
  unfold jack_process_external. cbv zeta. set (e1 := upd_client c _ e).
  assert (K1 : keeps e e1) by (by apply keeps_client). clearbody e1.
  assert (N : forall e2, (forall d, d ∈ next_internal e2 (c :: rest) -> d ∈ c :: rest)).
  { intros e2. generalize (c :: rest). induction l as [|d l IH]; cbn; [done|].
    destruct (jack_client_is_internal _); [done|]. intros x Hx. right. by apply IH. }
  assert (Fail : Some ([], [], jack_engine_signal_problems (e1 <| process_errors ::= Z.succ |>)) = Some (next, log, e') ->
    keeps e e' /\ (forall d, d ∈ next -> d ∈ c :: rest)).
  { intros [= <- _ <-]. split; [|set_solver]. transitivity e1; [done|]. by apply keeps_counts. }
  destruct (fifo_of e1 _) as [start|]; [|done]. destruct (cy_write_ok w c); [|done]. clear Fail.
  pose proof (run_chain_keeps (S (length (clients e1))) start e1) as K2.
  destruct (run_chain w _ start e1) as [[stop lg] e2]. cbn [snd] in K2.
  assert (K : keeps e e2) by (by transitivity e1). clear K1 K2 e1. cbv zeta.
  destruct (subgraph_poll w c _ e2) as [[st|e3]|] eqn:Ep; [| |done].
  2:{ intros [= <- _ <-]. split; [|set_solver]. transitivity e2; [done|by eapply poll_keeps]. }
  pose proof (meanwhile_keeps c ResumedBeforeCheck stop e2) as Km.
  destruct (meanwhile w c ResumedBeforeCheck stop e2) as [[stop1 lg1] e2']. cbn [snd] in Km.
  destruct (if negb (st =? 0) then _ else _) as [errs e3] eqn:E3.
  assert (K3 : keeps e e3).
  { transitivity e2; [done|]. transitivity e2'; [done|]. apply (f_equal snd) in E3. cbn [snd] in E3. subst e3.
    destruct (negb _); [apply check_clients_cycle|]. by apply keeps_counts. }
  clear E3. destruct (negb (errs =? 0)).
  { intros [= <- _ <-]. split; [|set_solver]. transitivity e3; [done|]. by apply keeps_counts. }
  pose proof (meanwhile_keeps c ResumedBeforeRead stop1 e3) as Kr.
  destruct (meanwhile w c ResumedBeforeRead stop1 e3) as [[stop2 lg2] e4]. cbn [snd] in Kr.
  assert (K4 : keeps e e4) by (by transitivity e3).
  destruct (negb _); intros [= <- _ <-].
  - split; [|set_solver]. transitivity e4; [done|]. by apply keeps_client.
  - split; [done|apply N].
Qed.

Lemma process_internal_next c rest e d : d ∈ (jack_process_internal w c rest e).1.1 -> d ∈ c :: rest.
Proof.
  unfold jack_process_internal. cbv zeta. destruct (if process_cbset _ then _ else _) as [? ?]. cbn [fst].
  destruct (negb _); set_solver.
Qed.

Lemma process_loop_keeps fuel nodes e log e' :
  (forall d, d ∈ nodes -> d ∈ clients e) -> process_loop w fuel nodes e = Some (log, e') -> keeps e e'.
Proof.
  revert nodes e log. induction fuel as [|fuel IH]; intros nodes e log Hn; [by intros [= _ <-]|].
  destruct nodes as [|c rest]; [by intros [= _ <-]|]. cbn [process_loop].
  destruct (negb _); [by intros [= _ <-]|].
  destruct (negb _); [apply IH; intros d Hd; apply Hn; by right|].
  assert (Step : forall next lg e1, keeps e e1 -> (forall d, d ∈ next -> d ∈ c :: rest) ->
    ('(log', e) ← process_loop w fuel next e1; Some (lg ++ log', e)) = Some (log, e') -> keeps e e').
  { intros next lg e1 K1 Hnx. destruct (process_loop w fuel next e1) as [[lg2 e2]|] eqn:E2; [|done].
    cbn [mbind option_bind]. intros [= _ <-]. transitivity e1; [done|]. apply (IH next e1 lg2); [|done].
    intros d Hd. rewrite (kp_clients _ _ K1). by apply Hn, Hnx. }
  destruct (jack_client_is_internal _).
  - pose proof (process_internal_keeps c rest e (Hn c ltac:(left))) as K1.
    pose proof (process_internal_next c rest e) as Nx.
    destruct (jack_process_internal w c rest e) as [[next lg] e1]. cbn [fst snd mbind option_bind] in *. by apply Step.
  - destruct (jack_process_external w c rest e) as [[[next lg] e1]|] eqn:E1; [|done]. cbn [mbind option_bind].
    destruct (process_external_keeps c rest e next lg e1 E1) as [K1 Nx]. by apply Step.
Qed.

Lemma reset_keeps l e : keeps e (foldl (fun e c => upd_client c reset_timing e) e l).
Proof.
  revert e. induction l as [|c l IH]; intros e; [done|]. cbn. etransitivity; [|apply IH]. by apply keeps_client.
Qed.

Lemma engine_process_keeps e ret log e' : jack_engine_process w e = Some (ret, log, e') -> keeps e e'.
Proof.
  unfold jack_engine_process. cbv zeta. set (e0 := e <| process_errors := 0 |>).
  assert (K0 : keeps e e0) by (by apply keeps_counts). clearbody e0.
  pose proof (reset_keeps (clients e0) e0) as K1. set (e1 := foldl _ e0 _) in *. clearbody e1.
  destruct (process_loop w _ _ e1) as [[lg e2]|] eqn:E2; [|done]. cbn [mbind option_bind]. intros [= _ _ <-].
  transitivity e0; [done|]. transitivity e1; [done|]. by apply process_loop_keeps in E2.
Qed.

Lemma run_one_cycle_keeps d e ret d' log e' :
  engine_inv e -> jack_run_one_cycle env w d e = Some (ret, d', log, e') -> engine_inv e'.
Proof.
  intros H. unfold jack_run_one_cycle. destruct (_ && cy_excessive_delay w).
  { destruct (_ >? 10); [by intros [= _ _ _ <-]|]. intros [= _ _ _ <-].
    by apply (engine_inv_event e); [apply deliver_where_frame|]. }
  do 2 (destruct (negb _); [by intros [= _ _ _ <-]|]). destruct (_ || _); [by intros [= _ _ _ <-]|].
  destruct (_ && _); [by intros [= _ _ _ <-]|].
  destruct (jack_engine_process w e) as [[[r lg] e1]|] eqn:E1; [|done]. cbn [mbind option_bind]. cbv zeta.
  apply engine_process_keeps in E1. set (e2 := if negb (r =? 0) then _ else e1).
  assert (K2 : keeps e e2) by (transitivity e1; [done|]; unfold e2; destruct (negb _); [apply check_status_keeps|done]).
  clearbody e2. specialize (kp_inv _ _ K2 H) as H2. destruct (_ && _); [by intros [= _ _ _ <-]|].
  unfold jack_engine_post_process. destruct (jack_transport_cycle_end e2) as [e3|] eqn:E3; [|done].
  cbn [mbind option_bind]. intros [= _ _ _ <-]. apply check_clients_keeps.
  by apply (transport_step_inv e2); [econstructor|eapply tkeeps_cycle_end|].
Qed.

(** ** Cycles end *)

Lemma process_external_total c rest e :
  freewheeling e = false -> exists r, jack_process_external w c rest e = Some r.
Proof.
  intros Hf. unfold jack_process_external. cbv zeta. set (e1 := upd_client c _ e).
  assert (F1 : freewheeling e1 = false) by done. clearbody e1.
  destruct (fifo_of e1 _) as [start|]; [|by eexists]. destruct (cy_write_ok w c); [|by eexists].
  pose proof (run_chain_keeps (S (length (clients e1))) start e1) as K.
  destruct (run_chain w _ start e1) as [[stop lg] e2]. cbn [snd] in K. cbv zeta.
  assert (P : forall b, exists z, subgraph_poll w c b e2 = Some (inl z)).
  { intros b. unfold subgraph_poll. destruct (if b && _ then _ else _) as [[r v] u]. cbv zeta.
    do 2 (destruct (negb _); [by eexists|]). rewrite (kp_freewheeling _ _ K), F1. destruct (u <? 200); by eexists. }
  destruct (P (bool_decide (is_Some stop /\ stop = fifo_of e2 (subgraph_wait_fd (the_client e2 c))))) as [z ->].
  destruct (meanwhile w c ResumedBeforeCheck stop e2) as [[stop1 lg1] e2'].
  destruct (if negb (z =? 0) then _ else _) as [errs e3]. destruct (negb (errs =? 0)); [by eexists|].
  destruct (meanwhile w c ResumedBeforeRead stop1 e3) as [[stop2 lg2] e4].
  destruct (negb _); by eexists.
Qed.

Lemma process_loop_total fuel nodes e :
  (forall d, d ∈ nodes -> d ∈ clients e) -> freewheeling e = false -> exists r, process_loop w fuel nodes e = Some r.
Proof.
  revert nodes e. induction fuel as [|fuel IH]; intros nodes e Hn Hf; [by eexists|].
  destruct nodes as [|c rest]; [by eexists|]. cbn [process_loop]. destruct (negb _); [by eexists|].
  destruct (negb _); [apply IH; [intros d Hd; apply Hn; by right|done]|].
  assert (Step : forall next lg e1, keeps e e1 -> (forall d, d ∈ next -> d ∈ c :: rest) ->
    exists r, ('(log', e) ← process_loop w fuel next e1; Some (lg ++ log', e)) = Some r).
  { intros next lg e1 K Nx. destruct (IH next e1) as [[lg2 e2] ->].
    - intros d Hd. rewrite (kp_clients _ _ K). by apply Hn, Nx.
    - by rewrite (kp_freewheeling _ _ K).
    - by eexists. }
  destruct (jack_client_is_internal _).
  - pose proof (process_internal_keeps c rest e (Hn c ltac:(left))) as K1.
    pose proof (process_internal_next c rest e) as Nx.
    destruct (jack_process_internal w c rest e) as [[next lg] e1]. cbn [fst snd mbind option_bind] in *. by apply Step.
  - destruct (process_external_total c rest e Hf) as [[[next lg] e1] E1]. rewrite E1. cbn [mbind option_bind].
    destruct (process_external_keeps c rest e next lg e1 E1) as [K1 Nx]. by apply Step.
Qed.

Lemma one_cycle_ends d e :
  engine_inv e -> freewheeling e = false -> request_quiet (control e) ->
  exists ret d' log e', jack_run_one_cycle env w d e = Some (ret, d', log, e') /\ engine_inv e'.
Proof.
  intros H Hf Hq.
  assert (T : exists r, jack_run_one_cycle env w d e = Some r).
  { unfold jack_run_one_cycle. destruct (_ && cy_excessive_delay w); [destruct (_ >? 10); by eexists|].
    do 2 (destruct (negb _); [by eexists|]). destruct (_ || _); [by eexists|]. destruct (_ && _); [by eexists|].
    destruct (jack_engine_process w e) as [[[r lg] e1]|] eqn:E1.
    - cbn [mbind option_bind]. cbv zeta. apply engine_process_keeps in E1. set (e2 := if negb (r =? 0) then _ else e1).
      assert (K2 : keeps e e2) by (transitivity e1; [done|]; unfold e2; destruct (negb _); [apply check_status_keeps|done]).
      clearbody e2. destruct (_ && _); [by eexists|]. unfold jack_engine_post_process.
      destruct (cycle_end_total e2) as [e3 ->]; [right; by rewrite (kp_request _ _ K2)|]. by eexists.
    - exfalso. revert E1. unfold jack_engine_process. cbv zeta. set (e0 := e <| process_errors := 0 |>).
      pose proof (reset_keeps (clients e0) e0) as K1. set (e1 := foldl _ e0 _) in *. 
      destruct (process_loop_total (length (clients e1)) (clients e1) e1) as [[lg e2] ->]; [done| |done].
      by rewrite (kp_freewheeling _ _ K1). }
  destruct T as [[[[ret d'] log] e'] E]. exists ret, d', log, e'. split; [done|]. by eapply run_one_cycle_keeps.
Qed.

(** A period of the server ends, and keeps the invariant of the engine,
    whatever the clients' callbacks return, whether they hang, die or cannot be
    woken, and whatever drivers and locks do, unless a client is stopped in the
    middle of writing a transport request. *)
Theorem cycle_ends d e :
  engine_inv e -> freewheeling e = false -> request_quiet (control e) ->
  exists ret d' log e', jack_run_one_cycle env w d e = Some (ret, d', log, e') /\ engine_inv e'.
Proof. apply one_cycle_ends. Qed.

(** What else a period leaves alone. *)
Lemma one_cycle_frame d e ret d' log e' :
  jack_run_one_cycle env w d e = Some (ret, d', log, e') ->
  freewheeling e' = freewheeling e /\ request_time (control e') = request_time (control e).
Proof.
  unfold jack_run_one_cycle. destruct (_ && cy_excessive_delay w).
  { destruct (_ >? 10); [by intros [= _ _ _ <-]|]. intros [= _ _ _ <-].
    pose proof (ef_rest _ _ (deliver_where_frame env (fun _ _ => true) XRun (clients e) e)) as R.
    split; [exact (f_equal freewheeling R)|exact (f_equal (fun e => request_time (control e)) R)]. }
  do 2 (destruct (negb _); [by intros [= _ _ _ <-]|]). destruct (_ || _); [by intros [= _ _ _ <-]|].
  destruct (_ && _); [by intros [= _ _ _ <-]|].
  destruct (jack_engine_process w e) as [[[r lg] e1]|] eqn:E1; [|done]. cbn [mbind option_bind]. cbv zeta.
  apply engine_process_keeps in E1. set (e2 := if negb (r =? 0) then _ else e1).
  assert (K2 : keeps e e2) by (transitivity e1; [done|]; unfold e2; destruct (negb _); [apply check_status_keeps|done]).
  clearbody e2. destruct (_ && _); [intros [= _ _ _ <-]; split; apply K2|].
  unfold jack_engine_post_process. destruct (jack_transport_cycle_end e2) as [e3|] eqn:E3; [|done].
  cbn [mbind option_bind]. intros [= _ _ _ <-]. pose proof (check_clients_cycle false (fun _ => 0) e3) as [_ _ K3 K4].
  rewrite K3, K4. pose proof (cycle_end_spec e2 e3 E3) as (_ & _ & _ & (_ & -> & _) & _).
  split; [|apply K2]. rewrite <- (kp_freewheeling _ _ K2). by apply (tk_freewheeling e2), tkeeps_cycle_end.
Qed.

(** ** A client that is late *)

(** The others are left alone, failures are only added. *)
Record checked (l : list client_ptr) (acc acc' : Z * engine) : Prop := {
  ck_errs : acc.1 <= acc'.1;
  ck_problems : problems acc'.2 = problems acc.2;
  ck_other : forall c, c ∉ l -> the_client acc'.2 c = the_client acc.2 c;
  ck_store : forall c, is_Some (client_store acc.2 !! c) -> is_Some (client_store acc'.2 !! c)
}.

Lemma check_fold timeout fin l acc : checked l acc (foldl (check_client timeout fin) acc l).
Proof.
  revert acc. induction l as [|d l IH]; intros [n e]; cbn [foldl]; [by constructor|].
  assert (S : checked [d] (n, e) (check_client timeout fin (n, e) d)).
  { assert (U : forall f c, c ∉ [d] -> the_client (upd_client d f e) c = the_client e c)
      by (intros f c Hc; apply the_client_upd_ne; set_solver).
    assert (M : forall f c, is_Some (client_store e !! c) -> is_Some (client_store (upd_client d f e) !! c)).
    { intros f c Hc. cbn. destruct (decide (c = d)) as [->|]; [rewrite lookup_alter_eq; by apply fmap_is_Some|].
      by rewrite lookup_alter_ne. }
    unfold check_client. cbv zeta. destruct (negb _); [constructor; try done; cbn; lia|].
    destruct (_ && _); [|by constructor]. destruct (fin d =? 0); constructor; cbn [fst snd]; try lia; try done.
    - intros c Hc. by apply U.
    - intros c Hc. by apply M.
    - intros c Hc. by apply (U (fun x => x <| finished_at := fin d |>)).
    - intros c Hc. by apply (M (fun x => x <| finished_at := fin d |>)). }
  specialize (IH (check_client timeout fin (n, e) d)). destruct S as [S1 S2 S3 S4], IH as [I1 I2 I3 I4]. constructor.
  - lia.
  - congruence.
  - intros c Hc. apply not_elem_of_cons in Hc as [Hd Hc]. rewrite I3, S3; [done|set_solver|done].
  - auto.
Qed.

(** C17: A client that woke up in a cycle and has not finished in time is
    found by [jack_check_clients]: it is marked, the server is told about the
    problem, and until the server has dealt with it no client processes. *)
Theorem late_client_stops_cycles fin c d e :
  engine_inv e -> c ∈ clients e -> c_error (the_client e c) = 0 ->
  awake_at (the_client e c) > 0 -> finished_at (the_client e c) = 0 -> fin c = 0 ->
  let '(errs, e') := jack_check_clients true fin e in
  errs > 0 /\ c_error (the_client e' c) = 1 /\ timed_out (the_client e' c) = timed_out (the_client e c) + 1 /\
  problems e' = problems e + 1 /\
  (0 <= problems e -> cy_excessive_delay w = false -> jack_run_one_cycle env w d e' = Some (0, 0, [], e')).
Proof.
  intros H Hc He Ha Hn Hf. unfold jack_check_clients.
  assert (Nd : NoDup (clients e)) by apply H.
  assert (Hs : is_Some (client_store e !! c)) by (destruct (proj1 (ei_transport e H)) as [_ S _ _ _]; by apply S).
  destruct (list_elem_of_split _ _ Hc) as (l1 & l2 & El). rewrite El in Nd |- *.
  apply NoDup_app in Nd as (_ & N1 & N2). apply NoDup_cons in N2 as [N2 _].
  assert (N1' : c ∉ l1) by (intros Hx; apply (N1 c Hx); left).
  rewrite foldl_app. cbn [foldl].
  destruct (check_fold true fin l1 (0, e)) as [L1 P1 S1 M1]. specialize (S1 c N1'). specialize (M1 c Hs).
  destruct (foldl (check_client true fin) (0, e) l1) as [n1 e1]. cbn [fst snd] in *.
  assert (E1 : check_client true fin (n1, e1) c =
    (n1 + 1, upd_client c (fun x => x <| timed_out ::= Z.succ |> <| c_error ::= Z.succ |>) e1)).
  { unfold check_client. rewrite S1, He, Hn, Hf. cbn [negb Z.eqb andb].
    by replace (awake_at (the_client e c) >? 0) with true by lia. }
  rewrite E1. set (e2 := upd_client c _ e1).
  assert (C2 : the_client e2 c = the_client e c <| timed_out ::= Z.succ |> <| c_error ::= Z.succ |>)
    by (unfold e2; by rewrite the_client_upd, decide_True, S1).
  assert (P2 : problems e2 = problems e) by done. clearbody e2.
  destruct (check_fold true fin l2 (n1 + 1, e2)) as [L3 P3 S3 _]. specialize (S3 c N2).
  destruct (foldl (check_client true fin) (n1 + 1, e2) l2) as [n3 e3]. cbn [fst snd] in *.
  replace (n3 =? 0) with false by lia. cbn [negb]. unfold jack_engine_signal_problems.
  set (e4 := e3 <| problems ::= Z.succ |>).
  assert (P4 : problems e4 = problems e + 1) by (cbn; lia).
  split_and!; [lia| | |done|].
  - change (the_client e4 c) with (the_client e3 c). rewrite S3, C2. cbn. rewrite He. done.
  - change (the_client e4 c) with (the_client e3 c). rewrite S3, C2. cbn. lia.
  - intros Hp Hw. unfold jack_run_one_cycle. rewrite Hw, andb_false_r, P4.
    replace (problems e + 1 =? 0) with false by lia. cbn [negb orb]. destruct (cy_graph_lock w), (cy_problem_lock w); done.
Qed.

End cycle.
End CycleInv.
