(* ===== verification/Server.v ===== *)
(** * The server: its start and everything that happens to it

    [jack_engine_new] (server/engine.c) and the requests a running server
    handles, as one transition system.  The main theorem says that the
    invariant of the engine holds in every state the server can reach. *)

From S2P Require Import Prelude JSList Engine Transport Events Graph GraphInv Acyclic Connect.
From S2P Require Import GraphFrame Ports PortsInv Buffers Clients ClientsInv Frames Lifecycle.
From S2P Require Import Removal Activation Creation ServerOps Requests RequestsInv Cycle CycleInv.

Local Open Scope Z_scope.

Module Server.
Import JSList Transport Events Graph GraphInv Acyclic Connect GraphFrame Ports PortsInv Buffers.
Import Clients ClientsInv Frames Lifecycle Removal Activation Creation ServerOps Requests RequestsInv.
Import Cycle CycleInv.

(** ** Start *)

(** [jack_builtin_port_types] (libjack/port.c); what is not initialised is 0. *)
Definition jack_builtin_port_types : list port_type :=
  [mk_port_type 0 JACK_DEFAULT_AUDIO_TYPE 1 0 0; mk_port_type 0 JACK_DEFAULT_MIDI_TYPE 1 0 0].

(** Whether the kernel gives what the start needs, and what [malloc] leaves
    in [buffer_info] of the internal ports. *)
Record startup := mk_startup {
  su_realtime_ok : bool;
  su_pipe_ok : bool;
  su_shm_ok : bool;
  su_sockets_ok : bool;
  su_buffer_info : nat -> option nat
}.

(** The command line. *)
Record options := mk_options {
  opt_realtime : bool;
  opt_temporary : bool;
  opt_port_max : nat;
  opt_wait_pid : Z;
  opt_nozombies : bool
}.

(** An entry of the port table in a fresh (zeroed) shared segment. *)
Definition fresh_port (su : startup) (i : nat) : port :=
  null_port <| p_id := Z.of_nat i |> <| buffer_info := su_buffer_info su i |>.

(** The structure [calloc] returns, filled in. *)
Definition new_engine (su : startup) (opt : options) : engine :=
  empty_engine
    <| next_client_id := 1 |> <| temporary := opt_temporary opt |> <| wait_pid := opt_wait_pid opt |>
    <| nozombies := opt_nozombies opt |> <| fifo := replicate 16 (-1) |>
    <| port_types := imap (fun i t => t <| pt_id := Z.of_nat i |>) jack_builtin_port_types |>
    <| port_buffers := replicate 2 (mk_blist [] None) |> <| port_segment := [0; 0] |>
    <| ports := fresh_port su <$> seq 0 (opt_port_max opt) |>
    <| control ::= fun t => t <| buffer_size := 0 |> |>.

Definition jack_engine_new (env : environment) (su : startup) (opt : options) : option engine :=
  if opt_realtime opt && negb (su_realtime_ok su) then None
  else if negb (su_pipe_ok su) then None
  else if negb (su_shm_ok su) then None
  else if negb (su_sockets_ok su) then None
  else
    let e := jack_transport_init (new_engine su opt) in
    let e := (jack_set_sample_rate 0 e).2 in
    Some (jack_get_fifo_fd env 0 e).2.

Lemma fresh_port_lookup su n p x : (fresh_port su <$> seq 0 n) !! p = Some x -> x = fresh_port su p.
Proof.
  rewrite list_lookup_fmap. destruct (seq 0 n !! p) as [i|] eqn:E; [|done].
  apply lookup_seq in E as [-> _]. by intros [= <-].
Qed.

Lemma fresh_port_default su opt e p :
  ports e = ports (new_engine su opt) -> exists bi i, the_port e p = null_port <| p_id := i |> <| buffer_info := bi |>.
Proof.
  intros Ep. unfold the_port. rewrite Ep. cbn. destruct (_ !! p) as [x|] eqn:E.
  - apply fresh_port_lookup in E as ->. cbn. unfold fresh_port. eauto.
  - exists None, 0. done.
Qed.

Lemma held_fresh su n t : omap (holds t) (fresh_port su <$> seq 0 n) = [].
Proof. generalize (seq 0 n). intros l. induction l as [|i l IH]; [done|]. cbn. exact IH. Qed.

(** A server without clients and connections, its port table empty. *)
Section fresh.
Context (su : startup) (opt : options) (e : engine).
Context (Hc : clients e = []) (Hk : conn_store e = ∅) (Hp : ports e = ports (new_engine su opt)).
Context (Ht : port_types e = port_types (new_engine su opt)).
Context (Hb : port_buffers e = port_buffers (new_engine su opt)).

Let no_client c : c ∉ clients e.
Proof. rewrite Hc. apply not_elem_of_nil. Qed.

Lemma new_engine_graph : feedbackcount e = 0 -> graph_inv e.
Proof.
  intros Hf.
  assert (Pd : forall p, exists bi i, the_port e p = null_port <| p_id := i |> <| buffer_info := bi |>)
    by (intros p; by apply (fresh_port_default su opt)).
  assert (Nk : forall k x, conn_store e !! k <> Some x) by (intros k x; by rewrite Hk).
  assert (El : conn_list e = []) by (unfold conn_list; by rewrite Hk, map_to_list_empty).
  constructor; try (intros c Hin; by destruct (no_client c)).
  - rewrite Hc. constructor.
  - intros c d Hin. by destruct (no_client c).
  - intros k x Hx. by destruct (Nk k x).
  - intros p _. destruct (Pd p) as (bi & i & ->). split; [constructor|]. intros k. split.
    + intros Hin. by apply not_elem_of_nil in Hin.
    + intros (x & Hx & _). by destruct (Nk k x).
  - intros k k' x x' Hx. by destruct (Nk k x).
  - intros p. by destruct (Pd p) as (bi & i & ->).
  - intros c p Hin. by destruct (no_client c).
  - by rewrite El, Hf.
  - exists []. split; [by rewrite Hc|]. intros a b Ha. by destruct (no_client a).
Qed.

Lemma new_engine_ports : port_inv e.
Proof.
  assert (Hh : forall t, held e t = []) by (intros t; unfold held; rewrite Hp; apply held_fresh).
  assert (Px : forall p x, ports e !! p = Some x -> x = fresh_port su p)
    by (intros p x; rewrite Hp; apply fresh_port_lookup).
  assert (Bx : forall t b, port_buffers e !! t = Some b -> b = mk_blist [] None).
  { intros t b. rewrite Hb. intros Hx. apply lookup_replicate in Hx. by destruct Hx. }
  constructor; [constructor|..].
  - by rewrite Hb, Ht.
  - intros t b ->%Bx. rewrite Hh. constructor.
  - intros t b i ->%Bx. rewrite Hh. intros Hin. by apply not_elem_of_nil in Hin.
  - intros t b ->%Bx. by rewrite Hh.
  - intros i t. rewrite Ht. cbn. destruct i as [|[|i]]; by intros [= <-].
  - intros p x ->%Px. done.
  - intros p x ->%Px. done.
  - intros c p Hin. by destruct (no_client c).
  - intros c Hin. by destruct (no_client c).
  - intros p x ->%Px _. by right.
  - intros c Hin. by destruct (no_client c).
Qed.

Lemma new_engine_inv :
  feedbackcount e = 0 -> next_client_id e = 1 -> transport_inv e -> engine_inv e.
Proof.
  intros Hf Hn T. constructor; [split; [by apply new_engine_graph|apply new_engine_ports]|done| |].
  - intros d Hd. by destruct (no_client d).
  - constructor; [lia|intros c Hin; by destruct (no_client c)|].
    intros p. by destruct (fresh_port_default su opt e p Hp) as (bi & i & ->).
Qed.

End fresh.

Lemma start_inv env su opt e :
  clients e = [] -> conn_store e = ∅ -> ports e = ports (new_engine su opt) ->
  port_types e = port_types (new_engine su opt) -> port_buffers e = port_buffers (new_engine su opt) ->
  feedbackcount e = 0 -> next_client_id e = 1 ->
  engine_inv (jack_get_fifo_fd env 0 (jack_set_sample_rate 0 (jack_transport_init e)).2).2.
Proof.
  intros C K P T B F N. set (e1 := (jack_set_sample_rate 0 _).2).
  apply (engine_inv_frame e1); [apply frame_fifo|apply same_graph_fifo|].
  apply (new_engine_inv su opt); [exact C|exact K|exact P|exact T|exact B|exact F|exact N|].
  apply transport_inv_control; [done|done|]. by apply init_transport.
Qed.

Lemma engine_new_inv env su opt e : jack_engine_new env su opt = Some e -> engine_inv e.
Proof.
  unfold jack_engine_new. destruct (_ && _); [done|]. do 3 (destruct (negb _); [done|]). cbv zeta.
  intros E. apply (inj Some) in E. rewrite <- E. apply (start_inv env su opt); reflexivity.
Qed.

(** ** What happens to a running server *)

(** [jack_use_driver], as far as the engine is concerned: the driver, or its client here, is
    known before [attach] is called and forgotten when it fails.  What [attach] does are
    steps of their own: it sets the buffer size and the sample rate and makes requests. *)
Definition use_driver (d : option client_ptr) (e : engine) : engine := e <| driver := d |>.

(** One request, one callback of the cycle or one intervention of the server itself. *)
Inductive server_action :=
| Create (world : client_world) (req : connect_request) (fd : Z)
| CreateDriver (world : client_world) (name : string)
| UseDriver (d : option client_ptr)
| Unload (id : Z)
| Request (w : request_world) (internal : bool) (req : jack_request)
| BufferSize (mem : allocator) (nframes : Z)
| SampleRate (nframes : Z)
| NewPosition (pos : jack_position_t)
| TransportStart
| TransportStop
| CycleStart (time : Z)
| CallSync (ready : bool) (c : client_ptr)
| CallTimebase (cb : jack_transport_state_t -> Z -> jack_position_t -> bool -> jack_position_t) (c : client_ptr)
| CycleEnd
| Cycle (w : cycle_world) (delays : Z)
| Callback (which : nat) (c : client_ptr) (set : bool)
| Event (c : client_ptr) (ev : jack_event)
| SocketError (fd : Z)
| CheckClients (timeout : bool) (fin : client_ptr -> Z)
| RemoveFailed (freewheeling : bool).

Section server.
Context (env : environment) (finish : client_ptr -> engine -> engine) `{!FinishOk finish}.

(** [None]: undefined behaviour, or an assertion that fails. *)
Definition perform (a : server_action) (e : engine) : option outcome :=
  match a with
  | Create world req fd => Some (jack_client_create env finish world req fd e).2
  | CreateDriver world name => Some (jack_create_driver_client env finish world name e).2
  | UseDriver d => Some (Continues (use_driver d e))
  | Unload id => Some (handle_unload_client env finish id e).2
  | Request w internal req => snd <$> do_request env finish w internal req e
  | BufferSize mem n => (fun r => Continues r.2) <$> jack_driver_buffer_size env mem n e
  | SampleRate n => Some (Continues (jack_set_sample_rate n e).2)
  | NewPosition pos => Continues <$> jack_transport_request_new_pos pos e
  | TransportStart => Some (Continues (jack_transport_start e))
  | TransportStop => Some (Continues (jack_transport_stop e))
  | CycleStart t => Some (Continues (jack_transport_cycle_start t e))
  | CallSync ready c => if decide (c ∈ clients e) then Some (Continues (jack_call_sync_client ready c e)) else None
  | CallTimebase cb c => Some (Continues (jack_call_timebase_master cb c e))
  | CycleEnd => Continues <$> jack_transport_cycle_end e
  | Cycle w d => (fun r => Continues r.2) <$> jack_run_one_cycle env w d e
  | Callback i c set => (fun setter => Continues (setter c set e).2) <$> callback_setters !! i
  | Event c ev => Some (Continues (jack_deliver_event env c ev e).2)
  | SocketError fd => Some (Continues (jack_mark_client_socket_error fd e))
  | CheckClients timeout fin => Some (Continues (jack_check_clients timeout fin e).2)
  | RemoveFailed fw => snd <$> jack_remove_clients env finish fw e
  end.

(** A server that followed a null pointer takes no further step. *)
Definition server_step (a : server_action) (e e' : engine) : Prop :=
  crashed e = false /\ perform a e = Some (Continues e').

(** What the code does not check and the invariant needs.  A block that [malloc] returns for a
    client must have a zero in [fedcount], which is not initialised, and the client ids must
    not run out; a socket brings external clients and unloads internal ones; the segments stay below 2^31 bytes;
    and the conditions [request_ok] of requests: no port is both an input and an output,
    nobody acts for a dead client or activates one twice.  [WorldOk] and
    [FinishOk] are about the functions of clients that are loaded into the server. *)
Definition lawful (a : server_action) (e : engine) : Prop :=
  match a with
  | Create world req _ => cr_load req = true -> next_client_id e < UINT_MAX /\ fedcount (cw_block world) = 0 /\ cr_type req = ClientExternal
  | CreateDriver world _ => next_client_id e < UINT_MAX /\ fedcount (cw_block world) = 0
  | Request w _ req => WorldOk env w /\ request_ok w req e
  | BufferSize mem n => (forall n, 0 <= n -> zlen (al_malloc mem n) = n) /\ sizes_fit e n
  | _ => True
  end.

Definition lawful_step (e e' : engine) : Prop := exists a, lawful a e /\ server_step a e e'.

Lemma driver_keeps world name e e' :
  next_client_id e < UINT_MAX -> fedcount (cw_block world) = 0 ->
  (jack_create_driver_client env finish world name e).2 = Continues e' -> engine_inv e -> engine_inv e'.
Proof.
  intros Hn Hf E H. unfold jack_create_driver_client in E.
  pose proof (setup_external_spec env finish world ClientDriver name 0 JackUseExactName 0 (-1) e
                ltac:(done) H Hn Hf) as S.
  destruct (setup_client _ _ _ _ _ _ _ _ _ _) as [[[r st] m] o]. cbn [snd] in E.
  destruct S as (e1 & -> & H1 & _). by injection E as <-.
Qed.

Lemma create_keeps world req fd e :
  lawful (Create world req fd) e -> engine_inv e -> engine_inv (outcome_engine (jack_client_create env finish world req fd e).2).
Proof.
  intros L H. cbn [lawful] in L. destruct (cr_load req) eqn:El.
  - destruct (L eq_refl) as (Hn & Hf & Ht). pose proof (create_spec env finish world req fd e H Hn Hf Ht El) as C.
    by destruct (jack_client_create env finish world req fd e) as [ret o], C.
  - unfold jack_client_create. rewrite El. destruct (negb _); [done|]. cbn [negb].
    destruct (jack_client_by_name e (cr_name req)) as [c|]; [|done]. destruct (_ =? 0); [done|]. by apply unload_keeps.
Qed.

Lemma lawful_step_inv e e' : lawful_step e e' -> engine_inv e -> engine_inv e'.
Proof.
  intros (a & L & _ & St) H. destruct a; cbn [perform] in St.
  - apply (inj Some) in St. pose proof (create_keeps world req fd e L H) as K. by rewrite St in K.
  - apply (inj Some) in St. destruct L. by eapply driver_keeps.
  - injection St as <-. by apply (engine_inv_counts e).
  - apply (inj Some) in St. pose proof (unload_keeps env finish id e H) as K. by rewrite St in K.
  - destruct (do_request _ _ _ _ _ _) as [[ans o]|] eqn:E; [|done]. injection St as ->. destruct L as [Lw Lr].
    exact (do_request_keeps env finish w internal req e ans _ H Lr E).
  - destruct (jack_driver_buffer_size _ _ _ _) as [[ret e1]|] eqn:E; [|done]. injection St as <-. destruct L. by eapply driver_buffer_size_keeps.
  - injection St as <-. by apply (transport_step_inv e); [constructor|apply tkeeps_control|].
  - destruct (jack_transport_request_new_pos _ _) as [e1|] eqn:E; [|done]. injection St as <-.
    by apply (transport_step_inv e); [econstructor|eapply tkeeps_new_pos|].
  - injection St as <-. by apply (transport_step_inv e); [constructor|apply tkeeps_control|].
  - injection St as <-. by apply (transport_step_inv e); [constructor|apply tkeeps_control|].
  - injection St as <-. by apply (transport_step_inv e); [constructor|apply tkeeps_control|].
  - case_decide; [|done]. injection St as <-. by apply (transport_step_inv e); [constructor|apply tkeeps_call_sync|].
  - injection St as <-. by apply (transport_step_inv e); [constructor|apply tkeeps_call_timebase|].
  - destruct (jack_transport_cycle_end e) as [e1|] eqn:E; [|done]. injection St as <-.
    by apply (transport_step_inv e); [econstructor|eapply tkeeps_cycle_end|].
  - destruct (jack_run_one_cycle _ _ _ _) as [[[[ret d'] log] e1]|] eqn:E; [|done]. injection St as <-. by eapply run_one_cycle_keeps.
  - destruct (callback_setters !! which) as [setter|] eqn:E; [|done]. injection St as <-.
    apply (setter_keeps setter c set); [by eapply list_elem_of_lookup_2|done].
  - injection St as <-. by apply (engine_inv_event e); [apply deliver_frame|].
  - injection St as <-. by apply mark_socket_error_keeps.
  - injection St as <-. by apply check_clients_keeps.
  - destruct (remove_clients_spec env finish freewheeling e H) as (fw2 & o & E & H' & _). rewrite E in St. by injection St as ->.
Qed.

Lemma reachable_engine_inv e e' : rtc lawful_step e e' -> engine_inv e -> engine_inv e'.
Proof. induction 1; eauto using lawful_step_inv. Qed.

(** C1: The invariant of the engine holds in every state a server reaches from its start by
    any sequence of requests, cycles, event deliveries, client failures and removals that
    are [lawful], which names what the code leaves to chance and to its clients:
    the graph of clients and its
    feeds lists agree with the connections and have a topological order, every
    port in use is listed by its owner and holds a buffer of its own, the
    sync and timebase bookkeeping is exact, zombies own nothing. *)
Theorem server_invariant su opt e0 e :
  jack_engine_new env su opt = Some e0 -> rtc lawful_step e0 e -> engine_inv e.
Proof. intros E R. apply (reachable_engine_inv e0); [done|]. by eapply engine_new_inv. Qed.

End server.

End Server.
