(* ===== verification/ServerRun.v ===== *)
(** * A run of the server

    A server is started, a driver and two clients arrive, register ports,
    are activated and connected, one of them fails.  Every state of the run
    satisfies the invariant, which is what the theorems about single
    operations ask for: each is applied here to a state of the run. *)

From S2P Require Import Prelude JSList Engine Transport Events Graph GraphInv Acyclic Connect.
From S2P Require Import GraphFrame Ports PortsInv Buffers PortRuns Clients ClientsInv Frames Lifecycle.
From S2P Require Import Removal Activation Creation ServerOps Requests RequestsInv Server.

Local Open Scope Z_scope.

Module ServerRun.
Import JSList Transport Events Graph GraphInv Acyclic Connect GraphFrame Ports PortsInv Buffers PortRuns.
Import Clients ClientsInv Frames Lifecycle Removal Activation Creation ServerOps Requests RequestsInv Server.

Definition su0 : startup := mk_startup true true true true (fun _ => None).
Definition opt0 : options := mk_options false false 6 (-1) false.
Definition world0 : client_world := mk_world null_client true true (fun _ e => (0, e)) true.
Definition mem0 : allocator :=
  mk_allocator (fun _ _ => Some 4096) (fun _ _ => true) (fun n => replicate (Z.to_nat n) 0).
Definition nothing : client_ptr -> engine -> engine := fun _ e => e.
Definition connect0 (name : string) : connect_request := mk_connect true true ClientExternal 0 0 name.

Abbreviation step := (lawful_step good_env nothing).

Lemma mem0_malloc n : 0 <= n -> zlen (al_malloc mem0 n) = n.
Proof. intros H. cbn. rewrite length_replicate. lia. Qed.

#[local] Instance nothing_ok : FinishOk nothing.
Proof. exact finish_nothing. Qed.

(** The requests of the run. *)
Definition out_port : port_request := mk_request "synth:out" JACK_DEFAULT_AUDIO_TYPE JackPortIsOutput 2 0.
Definition out_port2 : port_request := mk_request "synth:out2" JACK_DEFAULT_AUDIO_TYPE JackPortIsOutput 2 0.
Definition in_port : port_request := mk_request "system:in" JACK_DEFAULT_AUDIO_TYPE JackPortIsInput 1 0.

Definition run_start : engine := default empty_engine (jack_engine_new good_env su0 opt0).
Definition run_system : engine :=
  outcome_engine (jack_create_driver_client good_env nothing world0 "system" run_start).2.
Definition run_driver : engine := use_driver (Some 0%nat) run_system.
Definition run_sized : engine :=
  from_option snd run_driver (jack_driver_buffer_size good_env mem0 64 run_driver).
Definition run_client : engine :=
  outcome_engine (jack_client_create good_env nothing world0 (connect0 "synth") 7 run_sized).2.
Definition run_port1 : engine := (jack_port_do_register good_env out_port false run_client).2.
Definition run_port2 : engine := (jack_port_do_register good_env in_port false run_port1).2.
Definition run_ports : engine := (jack_port_do_register good_env out_port2 false run_port2).2.
Definition run_active1 : engine := (jack_client_activate good_env 1 run_ports).2.
Definition run_active : engine := (jack_client_activate good_env 2 run_active1).2.
Definition run_connected : engine :=
  (jack_port_do_connect good_env "synth:out" "system:in" run_active).2.
Definition run_failed : engine := jack_mark_client_socket_error 7 run_connected.

Lemma run_start_new : jack_engine_new good_env su0 opt0 = Some run_start.
Proof. vm_compute. reflexivity. Qed.

(** The conditions of the steps, evaluated. *)
Ltac run_legal := vm_compute; first [discriminate | reflexivity].
Ltac run_live := intros c E; vm_compute in E; injection E as <-; vm_compute; auto.

Lemma do_step a e e' : lawful good_env a e -> crashed e = false -> perform good_env nothing a e = Some (Continues e') -> step e e'.
Proof. intros L C P. by exists a. Qed.

Ltac run_create := intros _; split; [|split]; vm_compute; reflexivity.

Lemma run_system_step : step run_start run_system.
Proof. apply (do_step (CreateDriver world0 "system")); [split; vm_compute; reflexivity|vm_compute; reflexivity..]. Qed.

Lemma run_driver_step : step run_system run_driver.
Proof. apply (do_step (UseDriver (Some 0%nat))); [exact I|vm_compute; reflexivity|reflexivity]. Qed.

Lemma run_driver_reachable : rtc step run_start run_driver.
Proof. exact (rtc_l _ _ _ _ run_system_step (rtc_l _ _ _ _ run_driver_step (rtc_refl _ _))). Qed.

Lemma run_sizes_fit : sizes_fit run_driver 64.
Proof.
  split; [apply Nat.ltb_lt; vm_compute; reflexivity|]. intros i t Ht.
  destruct i as [|[|i]]; vm_compute in Ht; [injection Ht as <-; vm_compute; auto..|discriminate Ht].
Qed.

Lemma run_sized_step : step run_driver run_sized.
Proof.
  apply (do_step (BufferSize mem0 64)); [exact (conj mem0_malloc run_sizes_fit)|vm_compute; reflexivity..].
Qed.

Lemma run_client_step : step run_sized run_client.
Proof. apply (do_step (Create world0 (connect0 "synth") 7)); [run_create|vm_compute; reflexivity..]. Qed.

Definition session0 : session_world := mk_session true (fun _ => true) (fun _ => true) true.
Definition rw0 : request_world := mk_request_world world0 session0 (fun _ e => (0, e)) 0 0 true true.

#[local] Instance rw0_ok : WorldOk good_env rw0.
Proof. split; [intros c e H Hc; exact (conj H Hc)|intros n e; left; reflexivity]. Qed.

(** A request of a client in another process. *)
Lemma request_step req e e' :
  request_ok rw0 req e -> crashed e = false -> perform good_env nothing (Request rw0 false req) e = Some (Continues e') -> step e e'.
Proof. intros Hr. apply do_step. exact (conj rw0_ok Hr). Qed.

Ltac run_request := vm_compute; reflexivity.

Lemma run_port1_step : step run_client run_port1.
Proof. apply (request_step (RegisterPort out_port)); [split; [run_legal|run_live]|run_request..]. Qed.

Lemma run_port2_step : step run_port1 run_port2.
Proof. apply (request_step (RegisterPort in_port)); [split; [run_legal|run_live]|run_request..]. Qed.

Lemma run_ports_step : step run_port2 run_ports.
Proof. apply (request_step (RegisterPort out_port2)); [split; [run_legal|run_live]|run_request..]. Qed.

Lemma run_active1_step : step run_ports run_active1.
Proof. apply (request_step (ActivateClient 1)); [run_live|run_request..]. Qed.

Lemma run_active_step : step run_active1 run_active.
Proof. apply (request_step (ActivateClient 2)); [run_live|run_request..]. Qed.

Lemma run_connected_step : step run_active run_connected.
Proof. apply (request_step (ConnectPorts "synth:out" "system:in")); [exact I|run_request..]. Qed.

Lemma run_failed_step : step run_connected run_failed.
Proof. apply (do_step (SocketError 7)); [exact I|vm_compute; reflexivity..]. Qed.

Lemma run_client_reachable : rtc step run_start run_client.
Proof.
  exact (rtc_r _ _ _ (rtc_r _ _ _ run_driver_reachable run_sized_step) run_client_step).
Qed.

Lemma run_ports_reachable : rtc step run_start run_ports.
Proof.
  apply (rtc_r _ _ _ (rtc_r _ _ _ (rtc_r _ _ _ run_client_reachable run_port1_step) run_port2_step) run_ports_step).
Qed.

Lemma run_connected_reachable : rtc step run_start run_connected.
Proof.
  apply (rtc_r _ _ _ (rtc_r _ _ _ (rtc_r _ _ _ run_ports_reachable run_active1_step) run_active_step)
           run_connected_step).
Qed.

Lemma run_failed_reachable : rtc step run_start run_failed.
Proof. exact (rtc_r _ _ _ run_connected_reachable run_failed_step). Qed.

Lemma run_inv e : rtc step run_start e -> engine_inv e.
Proof.
  intros R. apply (reachable_engine_inv good_env nothing run_start); [done|].
  exact (engine_new_inv good_env su0 opt0 run_start run_start_new).
Qed.

(** ** The theorems at states of the run *)

Lemma server_invariant_witness : engine_inv run_connected.
Proof.
  exact (server_invariant good_env nothing su0 opt0 run_start run_connected run_start_new
           run_connected_reachable).
Defined.


Lemma unregister_correct_witness :
  exists ret e', jack_port_do_unregister good_env (out_port) run_connected = Some (ret, e') /\
    engine_inv e'.
Proof.
  destruct (unregister_correct good_env (out_port) run_connected
    (run_inv _ run_connected_reachable) ltac:(vm_compute; split; [discriminate|reflexivity]))
    as (ret & e' & E & H & _). exists ret, e'. exact (conj E H).
Defined.

(** The buffer size is set again, then two output ports and an input port are registered. *)
Definition run_resized : engine := from_option snd run_client (jack_driver_buffer_size good_env mem0 64 run_client).
Definition registered0 (req : port_request) (e : engine) : engine := (jack_port_do_register good_env req false e).2.
Definition run_three : engine := registered0 out_port2 (registered0 in_port (registered0 out_port run_resized)).

Lemma run_client_fits : sizes_fit run_client 64.
Proof.
  split; [apply Nat.ltb_lt; vm_compute; reflexivity|]. intros i t Ht.
  destruct i as [|[|i]]; vm_compute in Ht; [injection Ht as <-; vm_compute; auto..|discriminate Ht].
Qed.


Lemma driver_buffer_size_correct_witness :
  exists ret e', jack_driver_buffer_size good_env mem0 64 run_driver = Some (ret, e') /\ engine_inv e'.
Proof.
  destruct (driver_buffer_size_correct good_env mem0 mem0_malloc 64 run_driver
    (run_inv _ run_driver_reachable) run_sizes_fit) as (ret & e' & E & H & _).
  exists ret, e'. exact (conj E H).
Defined.

Lemma remove_client_correct_witness :
  1%nat ∈ clients run_connected /\
  1%nat ∉ clients (outcome_engine (jack_remove_client good_env nothing 1 run_connected)).
Proof.
  assert (Hin : 1%nat ∈ clients run_connected) by (apply list_elem_of_In; vm_compute; auto).
  exact (conj Hin (proj1 (proj2 (remove_client_correct good_env nothing 1 run_connected
                                   (run_inv _ run_connected_reachable) Hin)))).
Defined.

Lemma remove_clients_correct_witness :
  exists fw o, jack_remove_clients good_env nothing false run_failed = Some (fw, o) /\
    engine_inv (outcome_engine o).
Proof.
  destruct (remove_clients_correct good_env nothing false run_failed (run_inv _ run_failed_reachable))
    as (fw & o & E & H & _). exists fw, o. exact (conj E H).
Defined.

Lemma activate_correct_witness : engine_inv (jack_client_activate good_env 2 run_active1).2.
Proof.
  pose proof (activate_correct good_env 2 run_active1
    (run_inv _ (rtc_r _ _ _ run_ports_reachable run_active1_step)) ltac:(run_live)) as H.
  destruct (jack_client_activate good_env 2 run_active1) as [ret e']. exact (proj1 H).
Defined.

Lemma deactivate_correct_witness : engine_inv (jack_client_deactivate good_env 2 run_connected).2.
Proof.
  pose proof (deactivate_correct good_env 2 run_connected (run_inv _ run_connected_reachable)) as H.
  destruct (jack_client_deactivate good_env 2 run_connected) as [ret e']. exact (proj1 H).
Defined.


(** The second client of that name is called synth-01. *)
Example second_synth :
  (fun c => c_name (the_client (outcome_engine (jack_client_create good_env nothing world0 (connect0 "synth") 8 run_client).2) c))
    <$> clients (outcome_engine (jack_client_create good_env nothing world0 (connect0 "synth") 8 run_client).2)
  = ["synth-01"; "synth"; "system"]%string.
Proof. vm_compute. reflexivity. Qed.

(** ** Requests and sessions *)

Lemma unknown_client_refused_witness :
  (exists ans, do_request good_env nothing rw0 false (ActivateClient 77) run_connected =
     Some (ans, Continues run_connected) /\ an_status ans <> 0) /\
  do_request good_env nothing rw0 false (SessionReply 77) run_connected = None.
Proof.
  destruct (unknown_client_refused good_env nothing rw0 false 77 run_connected
              ltac:(vm_compute; reflexivity)) as (H1 & H2 & _).
  refine (conj (H1 (ActivateClient 77) eq_refl _) H2).
  intros c E. vm_compute in E. discriminate E.
Defined.

(** A session that waits for both clients. *)
Definition run_session : engine := run_connected <| session_reply_fd := 9 |> <| session_pending_replies := 2 |>.


Lemma session_request_ends_pending_witness :
  (jack_do_session_notify good_env session0 1 "" 11 run_session).1 = 0 /\
  session_reply_fd (jack_do_session_notify good_env session0 1 "" 11 run_session).2 = -1.
Proof.
  pose proof (session_request_ends_pending good_env session0 session0 1 "" 11 run_session
                ltac:(discriminate) eq_refl) as H.
  destruct (jack_do_session_notify _ _ _ _ _ _) as [ret e']. destruct H as (H1 & H2 & _). exact (conj H1 H2).
Defined.

End ServerRun.
