(* ===== verification/CycleRun.v ===== *)
(** * Cycles of a running server

    Two external clients and an internal one are set up on the server of
    ServerRun.v.  With the internal client active a cycle runs every client
    once; with it idle in between, the external clients run twice. *)

From S2P Require Import Prelude JSList Engine Transport TransportCycle Events Graph Ports Clients.
From S2P Require Import Removal Requests RequestsInv Cycle Chain CycleOrder CycleInv Server ServerRun.

Local Open Scope Z_scope.

Module CycleRun.
Import JSList Transport TransportCycle Events Graph Ports Clients Removal Requests RequestsInv.
Import Cycle Chain CycleOrder CycleInv Server ServerRun.

(** A machine on which nothing goes wrong. *)
Definition good_cycle : cycle_world :=
  mk_cycle (fun _ => 0) (fun _ => true) (fun _ _ pos _ => pos) (fun _ => 10) (fun _ => 11) (fun _ => 12)
    (fun _ => 0) (fun _ => false) (fun _ => NotResumed) (fun _ => true) (fun _ => true) (fun _ => false) (fun _ => (0, 0, 500)) false true true 0 0 1000 0.

Definition set_up (name : string) (fd : Z) (e : engine) : engine :=
  outcome_engine (jack_client_create good_env nothing world0 (connect0 name) fd e).2.
Definition load (name : string) (e : engine) : engine :=
  outcome_engine (jack_intclient_load_request good_env nothing world0 name 0 e).2.
Definition with_process (c : client_ptr) (e : engine) : engine := (jack_set_process_callback c true e).2.
Definition activated (id : Z) (e : engine) : engine := (jack_client_activate good_env id e).2.

Definition run_a : engine := set_up "a" 7 run_sized.
Definition run_i : engine := load "i" run_a.
Definition run_c : engine := set_up "c" 9 run_i.
Definition run_process : engine := with_process 1 (with_process 2 (with_process 3 run_c)).
(** "i" (id 3) is left idle. *)
Definition run_idle : engine := activated 4 (activated 2 run_process).
(** All of them run. *)
Definition run_all : engine := activated 4 (activated 3 (activated 2 run_process)).

Lemma run_sized_reachable : rtc step run_start run_sized.
Proof. exact (rtc_r _ _ _ run_driver_reachable run_sized_step). Qed.

Lemma run_c_reachable : rtc step run_start run_c.
Proof.
  eapply rtc_r; [eapply rtc_r; [eapply rtc_r; [exact run_sized_reachable|]|]|].
  - apply (do_step (Create world0 (connect0 "a") 7)); [run_create|vm_compute; reflexivity..].
  - apply (request_step (IntClientLoad "i" 0)); [split; vm_compute; reflexivity|run_request..].
  - apply (do_step (Create world0 (connect0 "c") 9)); [run_create|vm_compute; reflexivity..].
Qed.

Lemma with_process_step c e : crashed e = false -> step e (with_process c e).
Proof. intros H. by apply (do_step (Callback 0 c true)). Qed.

Lemma run_process_reachable : rtc step run_start run_process.
Proof.
  unfold run_process. do 3 (eapply rtc_r; [|apply with_process_step; vm_compute; reflexivity]). exact run_c_reachable.
Qed.

Lemma run_a_active : rtc step run_start (activated 2 run_process).
Proof.
  refine (rtc_r _ _ _ run_process_reachable _). apply (request_step (ActivateClient 2)); [run_live|run_request..].
Qed.

Lemma run_idle_reachable : rtc step run_start run_idle.
Proof.
  refine (rtc_r _ _ _ run_a_active _). apply (request_step (ActivateClient 4)); [run_live|run_request..].
Qed.

Lemma run_all_reachable : rtc step run_start run_all.
Proof.
  refine (rtc_r _ (activated 3 (activated 2 run_process)) _ (rtc_r _ _ _ run_a_active _) _).
  - apply (request_step (ActivateClient 3)); [run_live|run_request..].
  - apply (request_step (ActivateClient 4)); [run_live|run_request..].
Qed.

(** In a state the server can reach, an internal client that is loaded
    but not active lies between two external clients.  [jack_rechain_graph]
    puts both into one subgraph, but [jack_process_external] stops at the idle
    client and starts the second one again through descriptors of an earlier
    chain: in a single successful cycle a client processes twice. *)
Theorem idle_internal_client_runs_twice :
  exists log e', rtc step run_start run_idle /\ jack_engine_process good_cycle run_idle = Some (0, log, e') /\
    ~ NoDup log.
Proof.
  eexists _, _. split; [exact run_idle_reachable|]. split; [vm_compute; reflexivity|].
  apply (bool_decide_eq_false (NoDup _)). vm_compute. reflexivity.
Qed.

(** ** The theorems about cycles at states of the run *)


Definition fifo_okb (e : engine) : bool :=
  forallb (fun p => (p.2 <? 0) || (p.2 =? 100 + Z.of_nat p.1)) (imap pair (fifo e)).

Lemma fifo_okb_ok e : fifo_okb e = true -> fifo_ok good_env e.
Proof.
  unfold fifo_okb. rewrite forallb_forall. intros H i fd Hi.
  specialize (H (i, fd)). cbn in H. destruct (fd <? 0) eqn:E; [left; lia|right]. cbn in H. apply Z.eqb_eq, H.
  apply list_elem_of_In, list_elem_of_lookup. exists i. by rewrite list_lookup_imap, Hi.
Qed.

Lemma no_errors e : forallb (fun c => c_error (the_client e c) =? 0) (clients e) = true ->
  forall c, c ∈ clients e -> c_error (the_client e c) = 0.
Proof. rewrite forallb_forall. intros H c Hc. apply Z.eqb_eq, H, list_elem_of_In, Hc. Qed.

Lemma cycle_in_order_witness :
  exists log e', jack_engine_process good_cycle (jack_sort_graph good_env run_all) = Some (0, log, e') /\
    log = [3%nat; 2%nat; 1%nat] /\ NoDup log.
Proof.
  destruct (cycle_in_order good_env good_cycle run_all (run_inv _ run_all_reachable)
    (fifo_okb_ok run_all ltac:(vm_compute; reflexivity)) (no_errors run_all ltac:(vm_compute; reflexivity))
    (fun _ => eq_refl) (fun _ => eq_refl) (fun _ => eq_refl) (fun _ _ => eq_refl) ltac:(vm_compute; reflexivity))
    as (log & e' & E & El & Nd & _).
  exists log, e'. refine (conj E (conj _ Nd)). rewrite El. vm_compute. reflexivity.
Defined.

Lemma cycle_ends_witness :
  exists ret d' log e', jack_run_one_cycle good_env good_cycle 0 run_all = Some (ret, d', log, e') /\ engine_inv e'.
Proof.
  apply (cycle_ends good_env good_cycle 0 run_all); [exact (run_inv _ run_all_reachable)|vm_compute; reflexivity..].
Defined.

(** Client "a" woke up and did not finish. *)
Definition run_late : engine := upd_client 1 (fun x => x <| awake_at := 11 |>) run_all.

Lemma run_late_inv : engine_inv run_late.
Proof. apply (kp_inv run_all); [apply keeps_client; reflexivity|exact (run_inv _ run_all_reachable)]. Qed.

Lemma late_client_stops_cycles_witness :
  let '(errs, e') := jack_check_clients true (fun _ => 0) run_late in
  errs > 0 /\ c_error (the_client e' 1%nat) = 1 /\ jack_run_one_cycle good_env good_cycle 0 e' = Some (0, 0, [], e').
Proof.
  pose proof (late_client_stops_cycles good_env good_cycle (fun _ => 0) 1%nat 0 run_late run_late_inv
    ltac:(apply (bool_decide_eq_true (_ ∈ _)); vm_compute; reflexivity) ltac:(vm_compute; reflexivity)
    ltac:(vm_compute; reflexivity) ltac:(vm_compute; reflexivity) eq_refl) as H.
  destruct (jack_check_clients true (fun _ => 0) run_late) as [errs e']. destruct H as (H1 & H2 & _ & _ & H5).
  refine (conj H1 (conj H2 (H5 _ eq_refl))). vm_compute. discriminate.
Defined.

End CycleRun.
