(* ===== verification/Wakeups.v ===== *)
(** * Wake-ups of the server (server/engine.c, [jack_run_cycle])

    A driver wakes the server with a number of frames; the server runs as many
    periods as fit into them.  The frame timer (floating point) is left out. *)

From S2P Require Import Prelude JSList Engine Transport TransportCycle Events Graph.
From S2P Require Import Clients Lifecycle Removal ServerOps Requests RequestsInv Cycle CycleInv Server ServerRun CycleRun.

Local Open Scope Z_scope.

Module Wakeup.
Import Transport TransportCycle Clients Removal Requests RequestsInv Cycle CycleInv.

Definition EIO : Z := 5.

Section wakeup.
Context (env : environment).

(** The loop; [ws k] is what clients and the machine contribute to period [k].
    The result, the number of periods that were run, [consecutive_excessive_delays]
    and the engine. *)
Fixpoint run_cycles (fuel : nat) (ws : nat -> cycle_world) (k : nat) (left b_size delays : Z) (e : engine) : option (Z * nat * Z * engine) :=
  if left >=? b_size then
    match fuel with
    | O => None
    | S fuel =>
        '(ret, delays, _, e) ← jack_run_one_cycle env (ws k) delays e;
        if negb (ret =? 0) then Some (EIO, S k, delays, e)
        else run_cycles fuel ws (S k) (u32 (left - b_size)) b_size delays e
    end
  else Some (0, k, delays, e).

Definition jack_run_cycle (fuel : nat) (ws : nat -> cycle_world) (nframes delays : Z) (e : engine) : option (Z * nat * Z * engine) :=
  run_cycles fuel ws 0 nframes (buffer_size (control e)) delays e.

Lemma run_cycles_spec ws b : 0 < b < 2 ^ 32 -> forall fuel k n d e,
  engine_inv e -> freewheeling e = false -> request_quiet (control e) -> 0 <= n < 2 ^ 32 -> (Z.to_nat (n / b) <= fuel)%nat ->
  exists ret k' d' e', run_cycles fuel ws k n b d e = Some (ret, k', d', e') /\ engine_inv e' /\
    (ret = 0 /\ Z.of_nat k' = Z.of_nat k + n / b \/ ret = EIO /\ Z.of_nat k < Z.of_nat k' <= Z.of_nat k + n / b).
Proof.
  intros Hb. induction fuel as [|fuel IH]; intros k n d e H Hf Hq Hl Hfuel;
    cbn [run_cycles]; rewrite Z.geb_leb; (destruct (Z.leb_spec b n) as [Hle|Hlt];
      [|exists 0, k, d, e; split; [done|]; split; [done|]; left; rewrite Z.div_small by lia; lia]).
  - assert (1 <= n / b) by (apply Z.div_le_lower_bound; lia). lia.
  - destruct (one_cycle_ends env (ws k) d e H Hf Hq) as (ret & d1 & log & e1 & E & H1). rewrite E. cbn [mbind option_bind].
    destruct (one_cycle_frame env (ws k) d e ret d1 log e1 E) as [F1 F2].
    assert (Hdiv : n / b = (n - b) / b + 1) by (replace (n - b) with (n + (-1) * b) by lia; rewrite Z.div_add by lia; lia).
    assert (0 <= (n - b) / b) by (apply Z.div_pos; lia).
    destruct (ret =? 0); cbn [negb].
    + rewrite (wrap_small 32 (n - b)) by lia.
      destruct (IH (S k) (n - b) d1 e1) as (ret' & k' & d' & e' & E' & H' & Hr); [done|congruence|unfold request_quiet in *; congruence|lia|lia|].
      exists ret', k', d', e'. split; [done|]. split; [done|]. rewrite Hdiv. destruct Hr as [[-> Hr]|[-> Hr]]; [left|right]; (split; [done|lia]).
    + exists EIO, (S k), d1, e1. split; [done|]. split; [done|]. right. split; [done|lia].
Qed.


(** With a buffer size of 0, which a client can ask for, a wake-up does
    not end: as long as the periods do not fail, the loop goes on for ever. *)
Theorem zero_buffer_size_hangs ws nframes e :
  buffer_size (control e) = 0 -> 0 <= nframes < 2 ^ 32 -> problems e <> 0 ->
  (forall k, cy_excessive_delay (ws k) = false /\ cy_graph_lock (ws k) = true /\ cy_problem_lock (ws k) = true) ->
  forall fuel d, jack_run_cycle fuel ws nframes d e = None.
Proof.
  intros Hb Hn Hp Hw fuel d. unfold jack_run_cycle. rewrite Hb. generalize 0%nat. revert d. induction fuel as [|fuel IH]; intros d k; cbn [run_cycles];
    rewrite (proj2 (Z.geb_le nframes 0)) by lia; [done|].
  unfold jack_run_one_cycle. destruct (Hw k) as (-> & -> & ->). rewrite andb_false_r. cbn [negb]. rewrite (proj2 (Z.eqb_neq _ _) Hp).
  cbn [negb orb mbind option_bind Z.eqb]. rewrite Z.sub_0_r, (wrap_small 32) by lia. apply IH.
Qed.
End wakeup.

(** ** At states of the run *)

Import ServerRun CycleRun.


(** The run with a driver that took a buffer size of 0, and a problem reported. *)
Definition run_zero : engine := run_all <| control := control run_all <| buffer_size := 0 |> |> <| problems := 1 |>.

Lemma zero_buffer_size_hangs_witness :
  forall fuel, jack_run_cycle good_env fuel (fun _ => good_cycle) 64 0 run_zero = None.
Proof.
  intros fuel. apply (zero_buffer_size_hangs good_env (fun _ => good_cycle) 64 run_zero);
    [reflexivity|lia|vm_compute; discriminate|intros _; repeat split; reflexivity].
Defined.
End Wakeup.
