(* ===== verification/ChainThreads.v ===== *)
(** * A subgraph of concurrent clients (libjack/client.c, server/engine.c)

    The clients of a subgraph are processes of their own that pass a byte
    along FIFOs: client [i] waits on FIFO [i], writes to FIFO [i + 1] when it
    has processed and only then takes its own byte out ([jack_wake_next_client]);
    the server writes to FIFO 0 and waits on the last one.  For every
    interleaving, over any number of cycles: one client processes at a time,
    in the order of the chain, and every cycle comes to its end. *)

From stdpp Require Import functions.
From S2P Require Import Prelude.

Module ChainThreads.

(** Where a client's thread is: in the [poll] of [jack_client_core_wait], in
    its process callback, in [jack_wake_next_client] between its [write] and
    its [read]. *)
Inductive phase := Waiting | Processing | Signalled.

#[global] Instance phase_eq_dec : EqDecision phase.
Proof. solve_decision. Defined.

Record threads := mk_threads {
  bytes : nat -> nat;
  phases : nat -> phase;
  server_waits : bool;
  log : list nat;
  cycles : nat
}.

Definition init : threads := mk_threads (fun _ => 0) (fun _ => Waiting) false [] 0.

Section chain.
(** The number of clients of the subgraph. *)
Context (k : nat).

(** [write (client->subgraph_start_fd, ...)] in [jack_process_external]. *)
Definition server_start (s : threads) : threads :=
  mk_threads (<[0 := S (bytes s 0)]> (bytes s)) (phases s) true (log s) (cycles s).

(** The [read] from [subgraph_wait_fd] there. *)
Definition server_read (s : threads) : threads :=
  mk_threads (<[k := pred (bytes s k)]> (bytes s)) (phases s) false (log s) (S (cycles s)).

(** [jack_client_core_wait] returns and the callback is called. *)
Definition client_wake (i : nat) (s : threads) : threads :=
  mk_threads (bytes s) (<[i := Processing]> (phases s)) (server_waits s) (log s ++ [i]) (cycles s).

(** [write (client->graph_next_fd, ...)]. *)
Definition client_signal (i : nat) (s : threads) : threads :=
  mk_threads (<[S i := S (bytes s (S i))]> (bytes s)) (<[i := Signalled]> (phases s)) (server_waits s) (log s) (cycles s).

(** [poll] with timeout 0 and [read (client->graph_wait_fd, ...)]. *)
Definition client_cleanup (i : nat) (s : threads) : threads :=
  mk_threads (<[i := pred (bytes s i)]> (bytes s)) (<[i := Waiting]> (phases s)) (server_waits s) (log s) (cycles s).

Inductive thread_step : threads -> threads -> Prop :=
| th_start s : server_waits s = false -> thread_step s (server_start s)
| th_read s : server_waits s = true -> 0 < bytes s k -> thread_step s (server_read s)
| th_wake i s : i < k -> phases s i = Waiting -> 0 < bytes s i -> thread_step s (client_wake i s)
| th_signal i s : i < k -> phases s i = Processing -> thread_step s (client_signal i s)
| th_cleanup i s : i < k -> phases s i = Signalled -> thread_step s (client_cleanup i s).

(** ** The invariant *)

(** Where the byte of the cycle is: nowhere, in a FIFO, with a client. *)
Inductive place := AtServer | InFifo (j : nat) | WithClient (j : nat).

#[global] Instance place_eq_dec : EqDecision place.
Proof. solve_decision. Defined.

Definition started (p : place) : nat :=
  match p with AtServer => 0 | InFifo j => j | WithClient j => S j end.

Definition valid_place (p : place) : Prop :=
  match p with AtServer => True | InFifo j => j <= k | WithClient j => j < k end.

Definition one (P : Prop) `{Decision P} : nat := if decide P then 1 else 0.

Fixpoint rounds (n : nat) : list nat :=
  match n with O => [] | S n => rounds n ++ seq 0 k end.

Record chain_inv (p : place) (s : threads) : Prop := {
  ch_place : valid_place p;
  ch_server : server_waits s = bool_decide (p <> AtServer);
  ch_bytes : forall i, i < k ->
    bytes s i = one (p = InFifo i) + one (p = WithClient i) + one (phases s i = Signalled);
  ch_last : bytes s k = one (p = InFifo k);
  ch_processing : forall i, i < k -> phases s i = Processing <-> p = WithClient i;
  ch_log : log s = rounds (cycles s) ++ seq 0 (started p)
}.

Lemma init_inv : chain_inv AtServer init.
Proof. constructor; try done. Qed.

Lemma one_true (P : Prop) `{Decision P} : P -> one P = 1.
Proof. intros. unfold one. by rewrite decide_True. Qed.

(** Case analysis on where the byte is and which FIFO an update is about. *)
Ltac chain_cases :=
  unfold one in *; repeat (case_decide; simplify_eq; try congruence; try lia).

Ltac chain_updates :=
  repeat match goal with
  | |- context [<[?a := ?x]> ?f ?b] =>
      destruct (decide (a = b)); [first [lia|subst; rewrite fn_lookup_insert]|rewrite fn_lookup_insert_ne by done]
  end.

Lemma idle_place p s : chain_inv p s -> server_waits s = false -> p = AtServer.
Proof.
  intros [_ Sv _ _ _ _] Hs. rewrite Hs in Sv. symmetry in Sv. apply bool_decide_eq_false in Sv.
  by destruct (decide (p = AtServer)).
Qed.

Lemma server_start_inv s : 0 < k -> chain_inv AtServer s -> chain_inv (InFifo 0) (server_start s).
Proof.
  intros Hk [V Sv B L P G]. constructor; cbn; [lia|done| | | |by rewrite G].
  - intros i Hi. specialize (B i Hi). chain_updates; chain_cases.
  - rewrite fn_lookup_insert_ne, L by lia. chain_cases.
  - intros i Hi. rewrite (P i Hi). naive_solver.
Qed.

Lemma read_inv p s : chain_inv p s -> 0 < bytes s k -> p = InFifo k /\ chain_inv AtServer (server_read s).
Proof.
  intros [V Sv B L P G] Hb. assert (p = InFifo k) as -> by (rewrite L in Hb; chain_cases). split; [done|].
  constructor; cbn; [done|done| | | |].
  - intros i Hi. rewrite fn_lookup_insert_ne by lia. rewrite (B i Hi). chain_cases.
  - rewrite fn_lookup_insert, L. chain_cases.
  - intros i Hi. rewrite (P i Hi). naive_solver.
  - by rewrite G, app_nil_r.
Qed.

Lemma wake_inv p i s :
  i < k -> chain_inv p s -> phases s i = Waiting -> 0 < bytes s i ->
  p = InFifo i /\ chain_inv (WithClient i) (client_wake i s).
Proof.
  intros Hi [V Sv B L P G] Hp Hb.
  assert (p = InFifo i) as ->.
  { rewrite (B i Hi), Hp in Hb. destruct (decide (p = WithClient i)) as [E|E]; [apply P in E; congruence|]. chain_cases. }
  split; [done|]. constructor; cbn; [done|done| | | |].
  - intros j Hj. specialize (B j Hj). rewrite B. chain_updates; chain_cases.
  - rewrite L. chain_cases.
  - intros j Hj. specialize (P j Hj). chain_updates; naive_solver.
  - change (log s ++ [i] = rounds (cycles s) ++ seq 0 (S i)). by rewrite G, <- app_assoc, seq_S.
Qed.

Lemma signal_inv p i s :
  i < k -> chain_inv p s -> phases s i = Processing ->
  p = WithClient i /\ chain_inv (InFifo (S i)) (client_signal i s).
Proof.
  intros Hi [V Sv B L P G] Hp. assert (p = WithClient i) as -> by (by apply P). split; [done|].
  constructor; cbn; [lia|done| | | |done].
  - intros j Hj. specialize (B j Hj). chain_updates; rewrite ?B; chain_cases.
  - destruct (decide (S i = k)) as [E|E]; [rewrite E, fn_lookup_insert, L|rewrite fn_lookup_insert_ne, L by done]; chain_cases.
  - intros j Hj. specialize (P j Hj). chain_updates; naive_solver.
Qed.

Lemma cleanup_inv p i s :
  i < k -> chain_inv p s -> phases s i = Signalled -> chain_inv p (client_cleanup i s).
Proof.
  intros Hi [V Sv B L P G] Hp. constructor; cbn; [done|done| | | |done].
  - intros j Hj. specialize (B j Hj). chain_updates; rewrite ?B; chain_cases.
  - rewrite fn_lookup_insert_ne by lia. done.
  - intros j Hj. specialize (P j Hj). chain_updates; [|done]. split; [done|]. intros E. apply P in E. congruence.
Qed.

Lemma chain_step_inv p s s' : 0 < k -> chain_inv p s -> thread_step s s' -> exists p', chain_inv p' s'.
Proof.
  intros Hk I St. destruct St as [s Hs|s Hs Hb|i s Hi Hp Hb|i s Hi Hp|i s Hi Hp].
  - rewrite (idle_place p s I Hs) in I. eexists. by apply server_start_inv.
  - destruct (read_inv p s I Hb). by eexists.
  - destruct (wake_inv p i s Hi I Hp Hb). by eexists.
  - destruct (signal_inv p i s Hi I Hp). by eexists.
  - exists p. by apply cleanup_inv.
Qed.

Lemma chain_reachable s : 0 < k -> rtc thread_step init s -> exists p, chain_inv p s.
Proof.
  intros Hk. assert (H : forall a b, rtc thread_step a b -> (exists p, chain_inv p a) -> exists p, chain_inv p b).
  { induction 1 as [|a b c St _ IH]; [done|]. intros [p I]. apply IH. by eapply chain_step_inv. }
  intros R. apply (H _ _ R). exists AtServer. apply init_inv.
Qed.

(** ** Progress *)

(** Steps the cycle still needs: each client wakes, signals and cleans up. *)
Definition ahead (p : place) : nat :=
  match p with AtServer => 0 | InFifo j => 2 * (k - j) + 1 | WithClient j => 2 * (k - j) end.

Definition uncleaned (s : threads) : nat := length (filter (fun i => phases s i = Signalled) (seq 0 k)).

Definition remaining (p : place) (s : threads) : nat := 2 * ahead p + uncleaned s.

Lemma filter_count_change {A} (P Q : A -> Prop) `{!forall x, Decision (P x), !forall x, Decision (Q x)} (l : list A) a :
  NoDup l -> a ∈ l -> (forall x, x <> a -> P x <-> Q x) -> ~ P a -> Q a ->
  length (filter Q l) = S (length (filter P l)).
Proof.
  induction l as [|x l IH]; intros Nd Ha Hx Hp Hq; [by apply not_elem_of_nil in Ha|].
  apply NoDup_cons in Nd as [Nx Nd]. apply elem_of_cons in Ha as [<-|Ha].
  - rewrite filter_cons_True, filter_cons_False by done. cbn. f_equal.
    assert (E : filter Q l = filter P l); [|by rewrite E]. clear IH Nd Hp Hq. induction l as [|y l IH]; [done|].
    apply not_elem_of_cons in Nx as [Ny Nx]. rewrite !filter_cons. pose proof (Hx y ltac:(done)) as Hy.
    specialize (IH Nx). repeat case_decide; try (by exfalso; tauto); congruence.
  - assert (x <> a) by (intros ->; done). rewrite !filter_cons.
    pose proof (Hx x ltac:(done)) as Hy. repeat case_decide; cbn; try (by exfalso; tauto); rewrite IH; auto.
Qed.

(** Every step but the start of a new cycle brings the end of the cycle
    nearer. *)
Lemma step_nearer p s s' :
  0 < k -> chain_inv p s -> thread_step s s' -> server_waits s = true ->
  exists p', chain_inv p' s' /\ remaining p' s' < remaining p s.
Proof.
  intros Hk I St Hw. unfold remaining. destruct St as [s Hs|s Hs Hb|i s Hi Hp Hb|i s Hi Hp|i s Hi Hp]; [congruence|..].
  - destruct (read_inv p s I Hb) as [-> I']. exists AtServer. split; [done|].
    change (uncleaned (server_read s)) with (uncleaned s). cbn. lia.
  - destruct (wake_inv p i s Hi I Hp Hb) as [-> I']. exists (WithClient i). split; [done|].
    assert (E : uncleaned (client_wake i s) = uncleaned s).
    { unfold uncleaned. f_equal. apply list_filter_iff. intros j. cbn.
      destruct (decide (i = j)) as [->|]; [rewrite fn_lookup_insert, Hp; done|by rewrite fn_lookup_insert_ne]. }
    rewrite E. cbn. lia.
  - destruct (signal_inv p i s Hi I Hp) as [-> I']. exists (InFifo (S i)). split; [done|].
    assert (E : uncleaned (client_signal i s) = S (uncleaned s)).
    { unfold uncleaned. apply (filter_count_change _ _ _ i); [apply NoDup_ListNoDup, seq_NoDup|apply elem_of_seq; lia| | |].
      - intros x Hx. cbn. by rewrite fn_lookup_insert_ne.
      - by rewrite Hp.
      - cbn. by rewrite fn_lookup_insert. }
    rewrite E. cbn [ahead]. lia.
  - exists p. split; [by apply cleanup_inv|].
    assert (E : uncleaned s = S (uncleaned (client_cleanup i s))).
    { unfold uncleaned. apply (filter_count_change _ _ _ i); [apply NoDup_ListNoDup, seq_NoDup|apply elem_of_seq; lia| | |done].
      - intros x Hx. cbn. by rewrite fn_lookup_insert_ne.
      - cbn. by rewrite fn_lookup_insert. }
    rewrite E. lia.
Qed.

(** ... and while the server waits there is always a step to take. *)
Lemma step_possible p s : chain_inv p s -> server_waits s = true -> exists s', thread_step s s'.
Proof.
  intros [V Sv B L P G] Hw. rewrite Hw in Sv. symmetry in Sv. apply bool_decide_eq_true in Sv.
  destruct p as [|j|j]; [done| |].
  - cbn in V. destruct (decide (j = k)) as [->|].
    + eexists. apply th_read; [done|]. rewrite L, one_true by done. lia.
    + assert (Hj : j < k) by lia. specialize (B j Hj). destruct (phases s j) eqn:E.
      * eexists. apply (th_wake j); [done|done|]. rewrite B, one_true by done. lia.
      * apply P in E; [done|done].
      * eexists. by apply (th_cleanup j).
  - eexists. by apply (th_signal j), P.
Qed.

(** C7: However the threads of a subgraph interleave, over any number of
    cycles: at most one client is in its callback, the callbacks run in the
    order of the chain, round after round, and the server is never ahead of
    the clients: when it has seen the end of a cycle every client has processed
    in it. *)
Theorem chain_threads_in_order s :
  0 < k -> rtc thread_step init s ->
  (forall i j, i < k -> j < k -> phases s i = Processing -> phases s j = Processing -> i = j) /\
  (exists n, n <= k /\ log s = rounds (cycles s) ++ seq 0 n) /\
  (server_waits s = false -> log s = rounds (cycles s)).
Proof.
  intros Hk R. destruct (chain_reachable s Hk R) as [p I]. pose proof I as [V Sv B L P G]. split_and!.
  - intros i j Hi Hj Pi Pj. apply P in Pi; [|done]. apply P in Pj; [|done]. congruence.
  - exists (started p). split; [|done]. destruct p; cbn in *; lia.
  - intros Hs. rewrite (idle_place p s I Hs) in G. cbn in G. by rewrite app_nil_r in G.
Qed.

(** C20: A started cycle ends: while the server waits some thread can go on,
    and there is a bound on the steps the threads can take before the server
    gets its byte. *)
Theorem chain_threads_complete s :
  0 < k -> rtc thread_step init s -> server_waits s = true ->
  (exists s', thread_step s s') /\
  exists bound, bound <= 5 * k + 2 /\
    forall n s', nsteps thread_step n s s' -> bound < n -> exists m t, m <= n /\ nsteps thread_step m s t /\ server_waits t = false.
Proof.
  intros Hk R Hw. destruct (chain_reachable s Hk R) as [p I]. split; [by eapply step_possible|].
  exists (remaining p s). split.
  - unfold remaining, uncleaned. pose proof (length_filter (fun i => phases s i = Signalled) (seq 0 k)) as Hl.
    rewrite length_seq in Hl. pose proof (ch_place p s I) as V. destruct p; cbn in *; lia.
  - intros n s'. clear R. revert s p I Hw. induction n as [|n IH]; intros s p I Hw St Hb; [lia|].
    inversion St as [|? ? s1 ? St1 Stn]; subst.
    destruct (step_nearer p s s1 Hk I St1 Hw) as (p1 & I1 & Hlt). destruct (server_waits s1) eqn:E1.
    + destruct (IH s1 p1 I1 E1 Stn ltac:(lia)) as (m & t & Hm & Ht & Et). exists (S m), t.
      split_and!; [lia|by econstructor|done].
    + exists 1, s1. split_and!; [lia|by apply nsteps_once|done].
Qed.

End chain.

(** Two clients; the first has woken the second and not yet cleaned up. *)
Definition half_way : threads := client_wake 1 (client_signal 0 (client_wake 0 (server_start init))).

Lemma started_reachable : rtc (thread_step 2) init (server_start init).
Proof. apply rtc_once, th_start. reflexivity. Qed.

Lemma half_way_reachable : rtc (thread_step 2) init half_way.
Proof.
  refine (rtc_r _ (client_signal 0 (client_wake 0 (server_start init))) _
            (rtc_r _ (client_wake 0 (server_start init)) _ (rtc_r _ _ _ started_reachable _) _) _).
  - apply th_wake; [lia|reflexivity|vm_compute; lia].
  - apply th_signal; [lia|reflexivity].
  - apply th_wake; [lia|reflexivity|vm_compute; lia].
Qed.

Lemma chain_threads_in_order_witness :
  exists n, n <= 2 /\ log half_way = rounds 2 (cycles half_way) ++ seq 0 n.
Proof.
  destruct (chain_threads_in_order 2 half_way ltac:(lia) half_way_reachable) as (_ & H & _). exact H.
Defined.

Lemma chain_threads_complete_witness : exists s', thread_step 2 (server_start init) s'.
Proof.
  destruct (chain_threads_complete 2 (server_start init) ltac:(lia) started_reachable eq_refl) as [H _]. exact H.
Defined.

End ChainThreads.
