(* ===== verification/Bytes.v ===== *)
(** * Integers in memory

    Fields of packed structures as the bytes they occupy.  A block of memory
    is the list of its bytes, each a [Z] in [0, 256); the host is
    little-endian.  [get_le] and [put_le] read and write an unsigned integer
    of [n] bytes at an offset. *)

From S2P Require Import Prelude.

Local Open Scope Z_scope.

Fixpoint le_bytes (n : nat) (z : Z) : list Z :=
  match n with
  | O => []
  | S n => z mod 256 :: le_bytes n (z / 256)
  end.

Fixpoint le_value (l : list Z) : Z :=
  match l with
  | [] => 0
  | b :: l => b + 256 * le_value l
  end.

Lemma length_le_bytes n z : length (le_bytes n z) = n.
Proof. revert z. induction n; intros; cbn; auto. Qed.

Lemma le_value_bytes n z : le_value (le_bytes n z) = z mod 2 ^ (8 * Z.of_nat n).
Proof.
  revert z. induction n as [|n IH]; intros z; [by rewrite Z.mod_1_r|]. cbn [le_bytes le_value].
  rewrite IH. replace (8 * Z.of_nat (S n)) with (8 + 8 * Z.of_nat n) by lia.
  rewrite Z.pow_add_r by lia. change (2 ^ 8) with 256. rewrite Z.rem_mul_r by lia. lia.
Qed.

(** ** Stores and loads *)

Lemma load_store_same (m d : list Z) off :
  0 <= off -> off + zlen d <= zlen m -> load_n (store_n m off d) off (zlen d) = d.
Proof.
  intros Ho Hl. apply list_eq. intros i. unfold load_n, store_n.
  destruct (decide (i < length d)%nat) as [Hi|Hi].
  - rewrite lookup_take_lt, lookup_drop, list_lookup_inserts by lia. f_equal. lia.
  - rewrite lookup_take_ge by lia. symmetry. apply lookup_ge_None. lia.
Qed.

Lemma load_store_other (m d : list Z) off off' n :
  0 <= off -> 0 <= off' -> off' + n <= off \/ off + zlen d <= off' ->
  load_n (store_n m off d) off' n = load_n m off' n.
Proof.
  intros Ho Ho' Hd. apply list_eq. intros i. unfold load_n, store_n.
  destruct (decide (i < Z.to_nat n)%nat) as [Hi|Hi].
  - rewrite !lookup_take_lt, !lookup_drop by lia. destruct Hd.
    + by rewrite list_lookup_inserts_lt by lia.
    + by rewrite list_lookup_inserts_ge by lia.
  - by rewrite !lookup_take_ge by lia.
Qed.

Definition get_le (m : list Z) (off : Z) (n : nat) : Z := le_value (load_n m off (Z.of_nat n)).
Definition put_le (m : list Z) (off : Z) (n : nat) (v : Z) : list Z := store_n m off (le_bytes n v).

Lemma length_put_le m off n v : length (put_le m off n v) = length m.
Proof. apply length_store_n. Qed.

Lemma get_put_same m off n v :
  0 <= off -> off + Z.of_nat n <= zlen m -> 0 <= v < 2 ^ (8 * Z.of_nat n) -> get_le (put_le m off n v) off n = v.
Proof.
  intros Ho Hl Hv. unfold get_le, put_le. pose proof (length_le_bytes n v) as E.
  replace (Z.of_nat n) with (zlen (le_bytes n v)) by lia.
  rewrite load_store_same, le_value_bytes by lia. by apply Z.mod_small.
Qed.

Lemma load_put_other m off n v off' k :
  0 <= off -> 0 <= off' -> off' + k <= off \/ off + Z.of_nat n <= off' ->
  load_n (put_le m off n v) off' k = load_n m off' k.
Proof. intros. unfold put_le. apply load_store_other; rewrite ?length_le_bytes; lia. Qed.

Lemma get_put_other m off n v off' k :
  0 <= off -> 0 <= off' -> off' + Z.of_nat k <= off \/ off + Z.of_nat n <= off' ->
  get_le (put_le m off n v) off' k = get_le m off' k.
Proof. intros. unfold get_le. by rewrite load_put_other. Qed.

Lemma get_store_other m d off off' k :
  0 <= off -> 0 <= off' -> off' + Z.of_nat k <= off \/ off + zlen d <= off' ->
  get_le (store_n m off d) off' k = get_le m off' k.
Proof. intros. unfold get_le. by rewrite load_store_other. Qed.

Lemma le_value_app a b : le_value (a ++ b) = le_value a + 2 ^ (8 * zlen a) * le_value b.
Proof.
  induction a as [|x a IH]; cbn [app le_value length]; [lia|]. rewrite IH.
  replace (8 * Z.of_nat (S (length a))) with (8 + 8 * zlen a) by lia. rewrite Z.pow_add_r by lia. lia.
Qed.

(** An integer of [n + k] bytes is its low and its high part. *)
Lemma get_le_split m off n k :
  0 <= off -> off + Z.of_nat (n + k) <= zlen m ->
  get_le m off (n + k) = get_le m off n + 2 ^ (8 * Z.of_nat n) * get_le m (off + Z.of_nat n) k.
Proof.
  intros Ho Hl. unfold get_le. rewrite Nat2Z.inj_add, <- load_n_app, le_value_app by lia.
  rewrite length_load_n by lia. done.
Qed.

Lemma get_put_low m off n k v :
  0 <= off -> off + Z.of_nat (n + k) <= zlen m ->
  get_le (put_le m off (n + k) v) off n = v mod 2 ^ (8 * Z.of_nat n).
Proof.
  intros Ho Hl. unfold get_le, put_le. rewrite <- le_value_bytes. f_equal.
  assert (E : load_n (store_n m off (le_bytes (n + k) v)) off (Z.of_nat n)
    = take n (load_n (store_n m off (le_bytes (n + k) v)) off (zlen (le_bytes (n + k) v)))).
  { unfold load_n. rewrite take_take, length_le_bytes. f_equal. lia. }
  rewrite E, load_store_same by (rewrite ?length_le_bytes; lia). clear. revert v.
  induction n as [|n IH]; intros v; cbn; [done|]. by rewrite IH.
Qed.

Lemma get_byte m off b : load_n m off 1 = [b] -> get_le m off 1 = b.
Proof. intros E. unfold get_le. change (Z.of_nat 1) with 1. rewrite E. cbn. lia. Qed.

Lemma get_le_load m m' off n : load_n m' off (Z.of_nat n) = load_n m off (Z.of_nat n) -> get_le m' off n = get_le m off n.
Proof. intros E. unfold get_le. by rewrite E. Qed.

(** ** Overwriting *)

Lemma lookup_store_n (m d : list Z) off i :
  0 <= off -> store_n m off d !! i =
    if decide (off <= Z.of_nat i < off + zlen d /\ (i < length m)%nat) then d !! (i - Z.to_nat off)%nat else m !! i.
Proof.
  intros Ho. unfold store_n. destruct (decide _) as [[Hi Hm]|Hi].
  - by rewrite list_lookup_inserts by lia.
  - destruct (decide (i < length m)%nat).
    + destruct (decide (Z.of_nat i < off)); [by rewrite list_lookup_inserts_lt by lia|by rewrite list_lookup_inserts_ge by lia].
    + rewrite !lookup_ge_None_2; [done|lia|rewrite length_inserts; lia].
Qed.

Lemma store_store_same (m a b : list Z) off :
  0 <= off -> zlen a = zlen b -> store_n (store_n m off a) off b = store_n m off b.
Proof.
  intros Ho E. apply list_eq. intros i. rewrite !lookup_store_n, length_store_n, E by lia. by destruct (decide _).
Qed.

Lemma lookup_load_n (m : list Z) off n i :
  0 <= off -> load_n m off n !! i = if decide (Z.of_nat i < n) then m !! (Z.to_nat off + i)%nat else None.
Proof.
  intros Ho. unfold load_n. destruct (decide _); [by rewrite lookup_take_lt, lookup_drop by lia|].
  by rewrite lookup_take_ge by lia.
Qed.

Lemma load_store_prefix (m d : list Z) off k :
  0 <= off -> off + zlen d <= k -> k <= zlen m -> load_n (store_n m off d) 0 k = store_n (load_n m 0 k) off d.
Proof.
  intros Ho Hk Hm. pose proof (length_load_n m 0 k ltac:(lia) ltac:(lia) ltac:(lia)). apply list_eq. intros i.
  rewrite lookup_load_n, !lookup_store_n, lookup_load_n by lia. rewrite Nat.add_0_l.
  destruct (decide (Z.of_nat i < k)), (decide (off <= Z.of_nat i < off + zlen d /\ (i < length m)%nat)),
    (decide (off <= Z.of_nat i < off + zlen d /\ (i < length (load_n m 0 k))%nat)); try done; lia.
Qed.

Lemma put_put_same m off n a b : 0 <= off -> put_le (put_le m off n a) off n b = put_le m off n b.
Proof. intros. unfold put_le. apply store_store_same; [done|]. by rewrite !length_le_bytes. Qed.

Lemma load_put_prefix m off n v k :
  0 <= off -> off + Z.of_nat n <= k -> k <= zlen m -> load_n (put_le m off n v) 0 k = put_le (load_n m 0 k) off n v.
Proof. intros. unfold put_le. apply load_store_prefix; rewrite ?length_le_bytes; lia. Qed.

Lemma store_put_other m off n v off' d :
  0 <= off -> off + Z.of_nat n <= off' -> store_n (put_le m off n v) off' d = put_le (store_n m off' d) off n v.
Proof.
  intros Ho Hd. unfold put_le. apply list_eq. intros i. rewrite !lookup_store_n, !length_store_n, length_le_bytes by lia.
  repeat destruct (decide _); try done; lia.
Qed.

(** An integer among other bytes. *)
Lemma get_le_among (a b : list Z) n v :
  get_le (a ++ le_bytes n v ++ b) (zlen a) n = v mod 2 ^ (8 * Z.of_nat n).
Proof.
  unfold get_le, load_n. rewrite !Nat2Z.id, drop_app_length.
  rewrite take_app_length' by (by rewrite length_le_bytes). apply le_value_bytes.
Qed.

#[global] Opaque get_le put_le.

(** Reads behind writes to other places. *)
Ltac mem_frame :=
  repeat first
    [ rewrite get_put_other by (cbn; lia) | rewrite load_put_other by (cbn; lia)
    | rewrite get_store_other by (cbn; lia) | rewrite load_store_other by (cbn; lia)
    | rewrite length_put_le | rewrite length_store_n ].
