(* ===== verification/MidiPort.v ===== *)
(** * MIDI port buffers (libjack/midiport.c)

    A MIDI buffer is one block of memory.  At its start lies the header
    [jack_midi_port_info_private_t]; behind it grows the table of events, and
    from the end of the block downwards grow the bytes of the events that do
    not fit into their table entry.  The model works on the bytes themselves,
    so what the two regions do to each other is part of it.  A pointer into
    the buffer is its offset. *)

From S2P Require Import Prelude Bytes.

Local Open Scope Z_scope.

Module MidiPort.

Definition MIDI_INLINE_MAX : Z := 4.
Definition ENODATA : Z := 61.
Definition ENOBUFS : Z := 105.

(** ** The packed structures *)

(** [sizeof (jack_midi_port_info_private_t)] and its members. *)
Definition info_size : Z := 20.
Definition nframes (m : list Z) : Z := get_le m 0 4.
Definition buffer_size (m : list Z) : Z := get_le m 4 4.
Definition event_count (m : list Z) : Z := get_le m 8 4.
Definition last_write_loc (m : list Z) : Z := get_le m 12 4.
Definition events_lost (m : list Z) : Z := get_le m 16 4.
Definition set_event_count (v : Z) (m : list Z) : list Z := put_le m 8 4 v.
Definition set_last_write_loc (v : Z) (m : list Z) : list Z := put_le m 12 4 v.
Definition set_events_lost (v : Z) (m : list Z) : list Z := put_le m 16 4 v.

(** [sizeof (jack_midi_port_internal_event_t)]: two 16-bit members and the
    union of the offset and the inline bytes. *)
Definition jack_midi_internal_event_size : Z := 8.
Definition event_at (i : Z) : Z := info_size + i * jack_midi_internal_event_size.
Definition ev_time (m : list Z) (ev : Z) : Z := get_le m ev 2.
Definition ev_size (m : list Z) (ev : Z) : Z := get_le m (ev + 2) 2.
(** [byte_offset] is signed. *)
Definition ev_byte_offset (m : list Z) (ev : Z) : Z := s32 (get_le m (ev + 4) 4).
Definition ev_inline (ev : Z) : Z := ev + 4.

(** ** Operations *)

Definition jack_midi_event_data (m : list Z) (ev : Z) : Z :=
  if ev_size m ev <=? MIDI_INLINE_MAX then ev_inline ev else ev_byte_offset m ev.

Definition jack_midi_buffer_init (m : list Z) (size nframes : Z) : list Z :=
  set_events_lost 0 (set_last_write_loc 0 (set_event_count 0 (put_le (put_le m 0 4 nframes) 4 4 size))).

Definition jack_midi_get_event_count (m : list Z) : Z := event_count m.

(** The error code and, on success, time, size and data pointer. *)
Definition jack_midi_event_get (m : list Z) (event_idx : Z) : Z * option (Z * Z * Z) :=
  if event_idx >=? event_count m then (ENODATA, None)
  else
    let ev := event_at event_idx in
    (0, Some (ev_time m ev, ev_size m ev, jack_midi_event_data m ev)).

Definition jack_midi_max_event_size (m : list Z) : Z :=
  let used_size := info_size + last_write_loc m + u32 (event_count m + 1) * jack_midi_internal_event_size in
  if used_size >? buffer_size m then 0
  else if buffer_size m - used_size <? MIDI_INLINE_MAX then MIDI_INLINE_MAX
  else buffer_size m - used_size.

(** The pointer to write the data to, [None] for NULL. *)
Definition jack_midi_event_reserve (m : list Z) (time data_size : Z) : option Z * list Z :=
  let failed := (None, set_events_lost (u32 (events_lost m + 1)) m) in
  if time >=? nframes m then failed
  else if (event_count m >? 0) && (time <? ev_time m (event_at (event_count m - 1))) then failed
  else if data_size <=? 0 then failed
  else if jack_midi_max_event_size m <? data_size then failed
  else
    let ev := event_at (event_count m) in
    let size := buffer_size m in
    let m := put_le m ev 2 (u16 time) in
    let m := put_le m (ev + 2) 2 (u16 data_size) in
    let '(retbuf, m) :=
      if data_size <=? MIDI_INLINE_MAX then (ev_inline ev, m)
      else
        let m := set_last_write_loc (u32 (last_write_loc m + data_size)) m in
        let off := size - 1 - last_write_loc m in
        (off, put_le m (ev + 4) 4 (u32 off)) in
    (Some retbuf, set_event_count (u32 (event_count m + 1)) m).

Definition jack_midi_event_write (m : list Z) (time : Z) (data : list Z) : Z * list Z :=
  match jack_midi_event_reserve m time (zlen data) with
  | (Some retbuf, m) => (0, store_n m retbuf data)
  | (None, m) => (ENOBUFS, m)
  end.

Definition jack_midi_clear_buffer (m : list Z) : list Z :=
  set_events_lost 0 (set_last_write_loc 0 (set_event_count 0 m)).

Definition jack_midi_get_lost_event_count (m : list Z) : Z := events_lost m.

(** *** Mixing

    [ins] are the buffers of the connected output ports, in the order of the
    connections, and [mix] is the buffer of the input port.  The mixdown uses
    [last_write_loc] of each source for the number of events read so far. *)

Definition unread (m : list Z) : bool := event_count m >? last_write_loc m.
Definition next_event (m : list Z) : Z := event_at (last_write_loc m).

(** The source with the earliest unread event: its index and that time. *)
Fixpoint find_earliest (ins : list (list Z)) (j : nat) (best : option (nat * Z)) : option (nat * Z) :=
  match ins with
  | [] => best
  | m :: ins =>
      let time := ev_time m (next_event m) in
      let earlier := match best with None => true | Some (_, t) => time <? t end in
      find_earliest ins (S j) (if unread m && earlier then Some (j, time) else best)
  end.

(** [for (i = 0; i < num_events; ++i)], [n] iterations to go. *)
Fixpoint mix_loop (n : nat) (i num_events : Z) (mix : list Z) (ins : list (list Z)) : list Z * list (list Z) :=
  match n with
  | O => (mix, ins)
  | S n =>
      match find_earliest ins 0 None with
      | None => mix_loop n (i + 1) num_events mix ins
      | Some (j, _) =>
          let m := ins !!! j in
          let ev := next_event m in
          let data := load_n m (jack_midi_event_data m ev) (ev_size m ev) in
          let '(err, mix) := jack_midi_event_write mix (ev_time m ev) data in
          let ins := alter (fun m => set_last_write_loc (u32 (last_write_loc m + 1)) m) j ins in
          if negb (err =? 0) then (set_events_lost (u32 (num_events - i)) mix, ins)
          else mix_loop n (i + 1) num_events mix ins
      end
  end.

(** [None] when the assertion fails. *)
Definition jack_midi_port_mixdown (mix : list Z) (ins : list (list Z)) : option (list Z * list (list Z)) :=
  let mix := jack_midi_clear_buffer mix in
  let num_events := foldl (fun n m => u32 (n + event_count m)) 0 ins in
  let lost_events := foldl (fun n m => u32 (n + events_lost m)) 0 ins in
  let ins := set_last_write_loc 0 <$> ins in
  let '(mix, ins) := mix_loop (Z.to_nat num_events) 0 num_events mix ins in
  if event_count mix =? u32 (num_events - events_lost mix)
  then Some (set_events_lost (u32 (events_lost mix + lost_events)) mix, ins)
  else None.

(** ** What a buffer holds

    An abstract buffer is the list of its events, time and bytes. *)

Abbreviation event := (Z * list Z)%type (only parsing).

(** The bytes the events take at the end of the block. *)
Definition big_size (d : list Z) : Z := if zlen d <=? MIDI_INLINE_MAX then 0 else zlen d.
Fixpoint used (evs : list event) : Z :=
  match evs with [] => 0 | (_, d) :: evs => big_size d + used evs end.

(** Table and data do not touch.  The data end one byte before the end of the
    block, so the table may only reach up to the end when there are none. *)
Definition room (bs : Z) (evs : list event) : Prop :=
  info_size + 8 * zlen evs + used evs <= bs - (if decide (used evs = 0) then 0 else 1).

Definition data_at (bs : Z) (evs : list event) (i : nat) (d : list Z) : Z :=
  if zlen d <=? MIDI_INLINE_MAX then ev_inline (event_at (Z.of_nat i)) else bs - 1 - used (take (S i) evs).

Record stored (m : list Z) (bs : Z) (evs : list event) (i : nat) (t : Z) (d : list Z) : Prop := {
  st_time : ev_time m (event_at (Z.of_nat i)) = t;
  st_size : ev_size m (event_at (Z.of_nat i)) = zlen d;
  st_offset : MIDI_INLINE_MAX < zlen d -> get_le m (event_at (Z.of_nat i) + 4) 4 = data_at bs evs i d;
  st_data : load_n m (data_at bs evs i d) (zlen d) = d
}.

Record midi_rep (m : list Z) (bs nf lost : Z) (evs : list event) : Prop := {
  mr_size : zlen m = bs;
  mr_bs_bound : info_size <= bs < 2 ^ 31;
  mr_nf_bound : 0 <= nf <= 2 ^ 16;
  mr_lost_bound : 0 <= lost < 2 ^ 32;
  mr_nframes : nframes m = nf;
  mr_buffer_size : buffer_size m = bs;
  mr_count : event_count m = zlen evs;
  mr_loc : last_write_loc m = used evs;
  mr_lost : events_lost m = lost;
  mr_room : room bs evs;
  mr_legal : forall i t d, evs !! i = Some (t, d) -> 0 <= t < nf /\ 0 < zlen d < 2 ^ 16;
  mr_events : forall i t d, evs !! i = Some (t, d) -> stored m bs evs i t d
}.

(** When an event is taken. *)
Definition last_time (evs : list event) : Z := from_option fst 0 (last evs).
Definition accepts (bs nf : Z) (evs : list event) (t n : Z) : bool :=
  (t <? nf) && (last_time evs <=? t) && (0 <? n) &&
  (info_size + used evs + 8 * (zlen evs + 1) + (if n <=? MIDI_INLINE_MAX then 0 else n) <=? bs).

Lemma event_at_eq i : event_at i = 20 + 8 * i.
Proof. unfold event_at, info_size, jack_midi_internal_event_size. lia. Qed.

Lemma big_size_nonneg d : 0 <= big_size d.
Proof. unfold big_size. destruct (_ <=? _); lia. Qed.

Lemma used_nonneg evs : 0 <= used evs.
Proof. induction evs as [|[t d] evs IH]; cbn; [lia|]. pose proof (big_size_nonneg d). lia. Qed.

Lemma used_app l k : used (l ++ k) = used l + used k.
Proof. induction l as [|[t d] l IH]; cbn; [done|lia]. Qed.

Lemma room_alt bs evs :
  room bs evs <-> info_size + 8 * zlen evs + used evs <= bs /\
                  (used evs = 0 \/ info_size + 8 * zlen evs + used evs <= bs - 1).
Proof. unfold room. pose proof (used_nonneg evs). destruct (decide _); lia. Qed.

Lemma room_snoc bs evs t d :
  room bs (evs ++ [(t, d)]) <->
  info_size + 8 * (zlen evs + 1) + used evs + big_size d <= bs /\
  (used evs + big_size d = 0 \/ info_size + 8 * (zlen evs + 1) + used evs + big_size d <= bs - 1).
Proof. rewrite room_alt, used_app, length_app. cbn. lia. Qed.

(** The data of event [i] lie between those of the events behind it and
    those of the events before it. *)
Lemma used_take evs i t d :
  evs !! i = Some (t, d) -> big_size d <= used (take (S i) evs) <= used evs.
Proof.
  intros Hi. rewrite (take_S_r _ _ _ Hi), used_app. cbn.
  pose proof (used_nonneg (take i evs)). split; [lia|].
  rewrite <- (take_drop (S i) evs) at 2. rewrite used_app, (take_S_r _ _ _ Hi), used_app. cbn.
  pose proof (used_nonneg (drop (S i) evs)). lia.
Qed.

(** A table entry and the data of an event lie in the parts of the block that
    are theirs. *)
Lemma event_place bs evs i t d :
  room bs evs -> evs !! i = Some (t, d) ->
  info_size <= event_at (Z.of_nat i) /\ event_at (Z.of_nat i) + 8 <= info_size + 8 * zlen evs /\
  (zlen d <= MIDI_INLINE_MAX /\ data_at bs evs i d = event_at (Z.of_nat i) + 4 \/
   MIDI_INLINE_MAX < zlen d /\ bs - 1 - used evs <= data_at bs evs i d /\
     data_at bs evs i d + zlen d <= bs - 1 /\ info_size + 8 * zlen evs <= data_at bs evs i d).
Proof.
  intros R Hi. pose proof (lookup_lt_Some _ _ _ Hi). destruct (used_take evs i t d Hi) as [U1 U2].
  unfold event_at, data_at, ev_inline, event_at, jack_midi_internal_event_size, room in *.
  unfold big_size in U1. change MIDI_INLINE_MAX with 4 in *. change info_size with 20 in *.
  destruct (Z.leb_spec (zlen d) 4); (split; [lia|]); (split; [lia|]); [left; lia|right].
  destruct (decide _); lia.
Qed.

Lemma data_at_app bs evs k i t d :
  evs !! i = Some (t, d) -> data_at bs (evs ++ k) i d = data_at bs evs i d.
Proof.
  intros Hi. unfold data_at. destruct (_ <=? _); [done|]. pose proof (lookup_lt_Some _ _ _ Hi).
  by rewrite take_app_le by lia.
Qed.

(** [m'] differs from [m] only in the header, behind the table, and below the
    data: the events stay. *)
Lemma stored_frame m m' bs evs k i t d :
  midi_rep m bs (nframes m) (events_lost m) evs -> evs !! i = Some (t, d) ->
  (forall off n, info_size <= off -> 0 <= n ->
     off + n <= info_size + 8 * zlen evs \/ bs - 1 - used evs <= off /\ off + n <= bs - 1 ->
     load_n m' off n = load_n m off n) ->
  stored m' bs (evs ++ k) i t d.
Proof.
  intros M Hi F. destruct (mr_events _ _ _ _ _ M i t d Hi) as [S1 S2 S3 S4].
  destruct (event_place bs evs i t d (mr_room _ _ _ _ _ M) Hi) as (P1 & P2 & P3).
  pose proof (mr_room _ _ _ _ _ M) as R. unfold room in R. pose proof (used_nonneg evs).
  change info_size with 20 in *. change MIDI_INLINE_MAX with 4 in *.
  assert (8 * zlen evs + 20 <= bs) by (destruct (decide _); lia).
  assert (G : forall off n, 20 <= off -> off + Z.of_nat n <= 20 + 8 * zlen evs -> get_le m' off n = get_le m off n).
  { intros off n H1 H2. apply get_le_load, F; lia. }
  constructor; rewrite ?(data_at_app bs evs k i t d Hi); unfold ev_time, ev_size.
  - rewrite G by (cbn; lia). exact S1.
  - rewrite G by (cbn; lia). exact S2.
  - intros Hb. rewrite G by (cbn; lia). by apply S3.
  - rewrite F; [done|lia..].
Qed.

(** ** Writing *)

Lemma max_event_size_eq m bs nf lost evs :
  midi_rep m bs nf lost evs ->
  jack_midi_max_event_size m =
    let free := bs - (info_size + used evs + 8 * (zlen evs + 1)) in
    if free <? 0 then 0 else if free <? MIDI_INLINE_MAX then MIDI_INLINE_MAX else free.
Proof.
  intros [L B _ _ _ E1 E2 E3 _ R _ _]. unfold jack_midi_max_event_size. rewrite E1, E2, E3. cbv zeta.
  unfold room in R. pose proof (used_nonneg evs). change info_size with 20 in *.
  unfold jack_midi_internal_event_size. rewrite wrap_small by (destruct (decide _); lia).
  bool_cases; lia.
Qed.

Lemma reserve_test m bs nf lost evs t n :
  midi_rep m bs nf lost evs -> 0 <= t ->
  jack_midi_event_reserve m t n =
    if accepts bs nf evs t n then
      let ev := event_at (zlen evs) in
      let m := put_le (put_le m ev 2 (u16 t)) (ev + 2) 2 (u16 n) in
      let '(retbuf, m) :=
        if n <=? MIDI_INLINE_MAX then (ev_inline ev, m)
        else
          let m := set_last_write_loc (u32 (last_write_loc m + n)) m in
          let off := bs - 1 - last_write_loc m in
          (off, put_le m (ev + 4) 4 (u32 off)) in
      (Some retbuf, set_event_count (u32 (event_count m + 1)) m)
    else (None, set_events_lost (u32 (lost + 1)) m).
Proof.
  intros M Ht. unfold jack_midi_event_reserve. rewrite (max_event_size_eq m bs nf lost evs M).
  pose proof (mr_events _ _ _ _ _ M) as Hev. pose proof (mr_room _ _ _ _ _ M) as R.
  destruct M as [L B _ _ E0 E1 E2 E3 E4 _ _ _]. rewrite E0, E1, E2, E4. cbv zeta.
  assert (Hl : (zlen evs >? 0) && (t <? ev_time m (event_at (zlen evs - 1))) = (t <? last_time evs)).
  { unfold last_time. destruct evs as [|x l] using rev_ind; [cbn; bool_cases; lia|]. clear IHl.
    rewrite last_snoc, length_app. destruct x as [u d]. cbn [from_option fst length].
    specialize (Hev (length l) u d). rewrite lookup_app_r, Nat.sub_diag in Hev by lia.
    destruct (Hev eq_refl) as [<- _ _ _]. replace (Z.of_nat (length l + 1) - 1) with (Z.of_nat (length l)) by lia.
    bool_cases; lia. }
  rewrite Hl. unfold accepts. pose proof (used_nonneg evs). change info_size with 20 in *.
  change MIDI_INLINE_MAX with 4 in *. set (free := bs - (20 + used evs + 8 * (zlen evs + 1))).
  assert (Ef : free = bs - (20 + used evs + 8 * (zlen evs + 1))) by done. clearbody free.
  destruct (Z.leb_spec n 4), (Z.ltb_spec free 0); [|destruct (Z.ltb_spec free 4)| |destruct (Z.ltb_spec free 4)];
    bool_cases; cbn [andb]; lia || done.
Qed.

(** A refused event is counted as lost; the events stay. *)
Lemma refused_rep m bs nf lost evs n :
  midi_rep m bs nf lost evs -> 0 <= n < 2 ^ 32 -> midi_rep (set_events_lost n m) bs nf n evs.
Proof.
  intros M Hl. pose proof M as [L B N _ E0 E1 E2 E3 E4 R G _].
  unfold nframes, buffer_size, event_count, last_write_loc, events_lost in *.
  constructor; unfold nframes, buffer_size, event_count, last_write_loc, events_lost, set_events_lost;
    mem_frame; try done.
  - apply get_put_same; [lia|change info_size with 20 in B; cbn; lia|done].
  - intros i t d Hi. rewrite <- (app_nil_r evs).
    apply (stored_frame m); [|done|].
    + unfold nframes, events_lost. rewrite E0, E4. exact M.
    + intros off k H1 H2 H3. change info_size with 20 in *. by rewrite load_put_other by (cbn; lia).
Qed.

(** The event is in its place, those before it stay in theirs. *)
Lemma appended_rep m m' bs nf lost evs t d :
  midi_rep m bs nf lost evs -> room bs (evs ++ [(t, d)]) -> 0 <= t < nf -> 0 < zlen d < 2 ^ 16 ->
  zlen m' = bs -> nframes m' = nframes m -> buffer_size m' = buffer_size m -> events_lost m' = events_lost m ->
  event_count m' = zlen evs + 1 -> last_write_loc m' = used evs + big_size d ->
  (forall off n, info_size <= off -> 0 <= n ->
     off + n <= info_size + 8 * zlen evs \/ bs - 1 - used evs <= off /\ off + n <= bs - 1 ->
     load_n m' off n = load_n m off n) ->
  stored m' bs (evs ++ [(t, d)]) (length evs) t d ->
  midi_rep m' bs nf lost (evs ++ [(t, d)]).
Proof.
  intros M R Ht Hd L' F0 F1 F4 F2 F3 F St. pose proof M as [L B N Lb E0 E1 E2 E3 E4 _ G _].
  constructor; try congruence.
  - rewrite length_app. cbn. lia.
  - rewrite used_app. cbn. lia.
  - intros i u x Hi. apply lookup_app_Some in Hi as [Hi|[Hi Hx]]; [by apply (G i)|].
    destruct (i - length evs)%nat as [|[|j]]; cbn in Hx; [|done..]. injection Hx as <- <-. done.
  - intros i u x Hi. pose proof Hi as Hi'. apply lookup_app_Some in Hi as [Hi|[Hi Hx]].
    + apply (stored_frame m); [by rewrite E0, E4|done|done].
    + destruct (i - length evs)%nat as [|[|j]] eqn:Ei; cbn in Hx; [|done..]. injection Hx as <- <-.
      by replace i with (length evs) by lia.
Qed.

Lemma take_all_snoc evs (x : event) : take (S (length evs)) (evs ++ [x]) = evs ++ [x].
Proof. apply take_ge. rewrite length_app. cbn. lia. Qed.

Lemma write_inline m bs nf lost evs t d :
  midi_rep m bs nf lost evs -> 0 <= t < nf -> 0 < zlen d <= MIDI_INLINE_MAX ->
  room bs (evs ++ [(t, d)]) ->
  let ev := event_at (zlen evs) in
  let m1 := put_le (put_le m ev 2 (u16 t)) (ev + 2) 2 (u16 (zlen d)) in
  midi_rep (store_n (set_event_count (u32 (event_count m1 + 1)) m1) (ev_inline ev) d) bs nf lost (evs ++ [(t, d)]).
Proof.
  intros M Ht Hd R ev m1. pose proof M as [L B N Lb E0 E1 E2 E3 E4 R0 _ _].
  assert (Bd : big_size d = 0) by (unfold big_size; bool_cases; lia).
  pose proof R as R'. rewrite room_snoc, Bd in R'.
  pose proof (used_nonneg evs). change info_size with 20 in *. change MIDI_INLINE_MAX with 4 in *.
  assert (Hev : 20 <= ev /\ ev = 20 + 8 * zlen evs /\ ev + 8 <= bs /\ (used evs = 0 \/ ev + 8 <= bs - 1 - used evs)).
  { unfold ev, event_at, jack_midi_internal_event_size. change info_size with 20. lia. }
  destruct Hev as (V1 & V2 & V3 & V4). unfold ev_inline. clearbody ev.
  assert (Tt : u16 t = t) by (apply wrap_small; lia). assert (Td : u16 (zlen d) = zlen d) by (apply wrap_small; lia).
  assert (C1 : event_count m1 = zlen evs) by (unfold m1, event_count; mem_frame; exact E2).
  rewrite C1, (wrap_small 32) by lia. unfold m1, set_event_count. rewrite Tt, Td.
  apply (appended_rep m); try done; try lia.
  - mem_frame. done.
  - unfold nframes. by mem_frame.
  - unfold buffer_size. by mem_frame.
  - unfold events_lost. by mem_frame.
  - unfold event_count. mem_frame. apply get_put_same; rewrite ?length_put_le; cbn; lia.
  - unfold last_write_loc in *. mem_frame. lia.
  - intros off n H1 H2 H3. destruct (decide (n = 0)) as [->|]; [by rewrite !load_n_zero|].
    change info_size with 20 in *. destruct V4, H3; lia || by mem_frame.
  - constructor.
    + unfold ev_time, event_at, jack_midi_internal_event_size. change info_size with 20.
      replace (20 + Z.of_nat (length evs) * 8) with ev by lia. mem_frame. apply get_put_same; cbn; lia.
    + unfold ev_size, event_at, jack_midi_internal_event_size. change info_size with 20.
      replace (20 + Z.of_nat (length evs) * 8) with ev by lia. mem_frame.
      apply get_put_same; rewrite ?length_put_le; cbn; lia.
    + change MIDI_INLINE_MAX with 4. lia.
    + unfold data_at. change MIDI_INLINE_MAX with 4. destruct (Z.leb_spec (zlen d) 4); [|lia].
      unfold ev_inline, event_at, jack_midi_internal_event_size. change info_size with 20.
      replace (20 + Z.of_nat (length evs) * 8) with ev by lia.
      apply load_store_same; rewrite ?length_put_le; lia.
Qed.

Lemma write_big m bs nf lost evs t d :
  midi_rep m bs nf lost evs -> 0 <= t < nf -> MIDI_INLINE_MAX < zlen d < 2 ^ 16 ->
  room bs (evs ++ [(t, d)]) ->
  let ev := event_at (zlen evs) in
  let m1 := put_le (put_le m ev 2 (u16 t)) (ev + 2) 2 (u16 (zlen d)) in
  let m2 := set_last_write_loc (u32 (last_write_loc m1 + zlen d)) m1 in
  let off := bs - 1 - last_write_loc m2 in
  let m3 := put_le m2 (ev + 4) 4 (u32 off) in
  midi_rep (store_n (set_event_count (u32 (event_count m3 + 1)) m3) off d) bs nf lost (evs ++ [(t, d)]).
Proof.
  intros M Ht Hd R ev m1 m2 off m3. pose proof M as [L B N Lb E0 E1 E2 E3 E4 R0 _ _].
  assert (Bd : big_size d = zlen d) by (unfold big_size; bool_cases; lia).
  pose proof R as R'. rewrite room_snoc, Bd in R'.
  pose proof (used_nonneg evs). change info_size with 20 in *. change MIDI_INLINE_MAX with 4 in *.
  assert (Hev : ev = 20 + 8 * zlen evs) by apply event_at_eq. clearbody ev.
  assert (Tt : u16 t = t) by (apply wrap_small; lia). assert (Td : u16 (zlen d) = zlen d) by (apply wrap_small; lia).
  assert (L1 : last_write_loc m1 = used evs) by (unfold m1, last_write_loc; mem_frame; exact E3).
  assert (Lm1 : zlen m1 = bs) by (unfold m1; by mem_frame).
  assert (L2 : last_write_loc m2 = used evs + zlen d).
  { unfold m2, set_last_write_loc, last_write_loc at 1. rewrite L1, (wrap_small 32) by lia.
    apply get_put_same; cbn; lia. }
  assert (Eo : off = bs - 1 - used evs - zlen d) by (unfold off; lia). clearbody off.
  assert (C1 : event_count m3 = zlen evs) by (unfold m3, m2, m1, set_last_write_loc, event_count; mem_frame; exact E2).
  rewrite C1, (wrap_small 32) by lia. unfold m3, m2, m1, set_event_count, set_last_write_loc. fold m1.
  rewrite L1, (wrap_small 32 off), (wrap_small 32 (used evs + zlen d)) by lia.
  unfold m1. rewrite Tt, Td. clear m1 m2 m3 L1 Lm1 L2 C1.
  apply (appended_rep m); try done; try lia.
  - mem_frame. done.
  - unfold nframes. by mem_frame.
  - unfold buffer_size. by mem_frame.
  - unfold events_lost. by mem_frame.
  - unfold event_count. mem_frame. apply get_put_same; rewrite ?length_put_le; cbn; lia.
  - unfold last_write_loc in *. mem_frame. rewrite Bd. apply get_put_same; rewrite ?length_put_le; cbn; lia.
  - intros off' n H1 H2 H3. change info_size with 20 in *. destruct H3; by mem_frame.
  - assert (Hat : event_at (Z.of_nat (length evs)) = ev) by (rewrite event_at_eq; lia).
    assert (Hda : data_at bs (evs ++ [(t, d)]) (length evs) d = off).
    { unfold data_at. change MIDI_INLINE_MAX with 4. destruct (Z.leb_spec (zlen d) 4); [lia|].
      rewrite take_all_snoc, used_app. cbn. lia. }
    constructor; rewrite ?Hat, ?Hda.
    + unfold ev_time. mem_frame. apply get_put_same; cbn; lia.
    + unfold ev_size. mem_frame. apply get_put_same; rewrite ?length_put_le; cbn; lia.
    + intros _. mem_frame. apply get_put_same; rewrite ?length_put_le; cbn; lia.
    + apply load_store_same; rewrite ?length_put_le; lia.
Qed.

Lemma write_spec m bs nf lost evs t d :
  midi_rep m bs nf lost evs -> 0 <= t -> zlen d < 2 ^ 16 ->
  let '(ret, m') := jack_midi_event_write m t d in
  if accepts bs nf evs t (zlen d) then
    ret = 0 /\ (room bs (evs ++ [(t, d)]) -> midi_rep m' bs nf lost (evs ++ [(t, d)]))
  else ret = ENOBUFS /\ midi_rep m' bs nf (u32 (lost + 1)) evs.
Proof.
  intros M Ht Hd. unfold jack_midi_event_write. rewrite (reserve_test m bs nf lost evs t _ M Ht).
  destruct (accepts bs nf evs t (zlen d)) eqn:Ea.
  2:{ split; [done|]. apply (refused_rep m bs nf lost); [done|]. by apply wrap_bound. }
  assert (Hc : 0 <= t < nf /\ 0 < zlen d).
  { unfold accepts in Ea. repeat (apply andb_true_iff in Ea as [Ea ?]). lia. }
  cbv zeta. destruct (Z.leb_spec (zlen d) MIDI_INLINE_MAX); (split; [done|]); intros R.
  - apply write_inline; [done|lia|lia|done].
  - apply write_big; [done|lia|lia|done].
Qed.

(** ** Reading *)

(** Reading does not look at [last_write_loc], which the mixdown reuses. *)
Lemma stored_get m bs nf lost evs m' i t d :
  midi_rep m bs nf lost evs -> (forall off n, info_size <= off -> load_n m' off n = load_n m off n) ->
  evs !! i = Some (t, d) ->
  ev_time m' (event_at (Z.of_nat i)) = t /\ ev_size m' (event_at (Z.of_nat i)) = zlen d /\
  jack_midi_event_data m' (event_at (Z.of_nat i)) = data_at bs evs i d /\
  load_n m' (data_at bs evs i d) (zlen d) = d.
Proof.
  intros M F Hi. destruct (mr_events _ _ _ _ _ M i t d Hi) as [S1 S2 S3 S4].
  destruct (event_place bs evs i t d (mr_room _ _ _ _ _ M) Hi) as (P1 & P2 & P3).
  pose proof (mr_bs_bound _ _ _ _ _ M) as B. change info_size with 20 in *. change MIDI_INLINE_MAX with 4 in *.
  assert (G : forall off n, 20 <= off -> get_le m' off n = get_le m off n)
    by (intros off n Ho; by apply get_le_load, F).
  unfold jack_midi_event_data, ev_time, ev_size, ev_byte_offset, ev_inline in *. rewrite !G by lia.
  change MIDI_INLINE_MAX with 4. rewrite S2. split_and!; [done|done| |].
  - destruct (Z.leb_spec (zlen d) 4).
    + lia.
    + rewrite S3 by lia. apply swrap_small; lia.
  - rewrite F; [done|lia].
Qed.

Lemma event_get_spec m bs nf lost evs i :
  midi_rep m bs nf lost evs ->
  match evs !! i with
  | Some (t, d) => exists p, jack_midi_event_get m (Z.of_nat i) = (0, Some (t, zlen d, p)) /\
      load_n m p (zlen d) = d /\ info_size <= p /\ p + zlen d <= bs
  | None => jack_midi_event_get m (Z.of_nat i) = (ENODATA, None)
  end.
Proof.
  intros M. unfold jack_midi_event_get. rewrite (mr_count _ _ _ _ _ M).
  destruct (evs !! i) as [[t d]|] eqn:Ei.
  - pose proof (lookup_lt_Some _ _ _ Ei). destruct (Z.geb_spec (Z.of_nat i) (zlen evs)); [lia|]. cbv zeta.
    destruct (stored_get m bs nf lost evs m i t d M ltac:(done) Ei) as (-> & -> & -> & Hd).
    exists (data_at bs evs i d). split; [done|]. split; [done|].
    destruct (event_place bs evs i t d (mr_room _ _ _ _ _ M) Ei) as (P1 & P2 & P3).
    pose proof (mr_room _ _ _ _ _ M) as R. rewrite room_alt in R. pose proof (used_nonneg evs).
    change info_size with 20 in *. change MIDI_INLINE_MAX with 4 in *. lia.
  - apply lookup_ge_None in Ei. by destruct (Z.geb_spec (Z.of_nat i) (zlen evs)); [|lia].
Qed.

Lemma init_rep m bs nf :
  zlen m = bs -> info_size <= bs < 2 ^ 31 -> 0 <= nf <= 2 ^ 16 -> midi_rep (jack_midi_buffer_init m bs nf) bs nf 0 [].
Proof.
  intros L B N. change info_size with 20 in *.
  unfold jack_midi_buffer_init, set_events_lost, set_last_write_loc, set_event_count.
  constructor; try done; unfold nframes, buffer_size, event_count, last_write_loc, events_lost; mem_frame;
    try (apply get_put_same; rewrite ?length_put_le; cbn; lia); try done.
  rewrite room_alt. change info_size with 20. cbn. lia.
Qed.

Lemma clear_rep m bs nf lost evs :
  midi_rep m bs nf lost evs -> midi_rep (jack_midi_clear_buffer m) bs nf 0 [].
Proof.
  intros [L B N Lb E0 E1 E2 E3 E4 R G S]. unfold nframes, buffer_size in E0, E1. change info_size with 20 in *.
  unfold jack_midi_clear_buffer, set_events_lost, set_last_write_loc, set_event_count.
  constructor; try done; unfold nframes, buffer_size, event_count, last_write_loc, events_lost; mem_frame;
    try (apply get_put_same; rewrite ?length_put_le; cbn; lia); try done.
  rewrite room_alt. change info_size with 20. cbn. lia.
Qed.

(** ** Writing a list of events and reading it back *)

Definition legal_event (nf : Z) (x : event) : Prop := 0 <= x.1 < nf /\ 0 < zlen x.2 < 2 ^ 16.
Definition not_later (x y : event) : Prop := x.1 <= y.1.
Definition legal_events (nf : Z) (evs : list event) : Prop :=
  Forall (legal_event nf) evs /\ StronglySorted not_later evs.

Lemma room_prefix bs l k : room bs (l ++ k) -> room bs l.
Proof.
  rewrite !room_alt, used_app, length_app. pose proof (used_nonneg l). pose proof (used_nonneg k). lia.
Qed.

Lemma accepts_next bs nf l t d k :
  legal_events nf (l ++ (t, d) :: k) -> room bs (l ++ (t, d) :: k) -> accepts bs nf l t (zlen d) = true.
Proof.
  intros [L1 L2] R. replace (l ++ (t, d) :: k) with ((l ++ [(t, d)]) ++ k) in R by (by rewrite <- app_assoc).
  apply room_prefix in R. rewrite room_snoc in R.
  assert (Hx : legal_event nf (t, d)) by (eapply Forall_forall; [exact L1|]; apply elem_of_app; right; left).
  destruct Hx as [Ht Hd]. cbn [fst snd] in *.
  assert (Hl : last_time l <= t).
  { unfold last_time. destruct (last l) as [x|] eqn:E; cbn; [|lia]. apply last_Some_elem_of in E.
    apply (StronglySorted_app_1_elem_of not_later l ((t, d) :: k) x (t, d)); [done|done|left]. }
  unfold accepts, big_size in *. change MIDI_INLINE_MAX with 4 in *.
  repeat (apply andb_true_intro; split); destruct (Z.leb_spec (zlen d) 4); lia.
Qed.

Definition write_all (m : list Z) (evs : list event) : list Z :=
  foldl (fun m x => (jack_midi_event_write m x.1 x.2).2) m evs.

Lemma write_all_rep m bs nf lost l evs :
  midi_rep m bs nf lost l -> legal_events nf (l ++ evs) -> room bs (l ++ evs) ->
  midi_rep (write_all m evs) bs nf lost (l ++ evs).
Proof.
  revert m l. induction evs as [|[t d] evs IH]; intros m l M L R; [by rewrite app_nil_r|].
  pose proof (accepts_next bs nf l t d evs L R) as Ha. cbn [write_all foldl].
  replace (l ++ (t, d) :: evs) with ((l ++ [(t, d)]) ++ evs) in * by (by rewrite <- app_assoc).
  apply IH; [|done|done].
  assert (Hx : legal_event nf (t, d)) by (eapply Forall_forall; [exact (proj1 L)|]; set_solver).
  destruct Hx as [Ht Hd]. cbn [fst snd] in *.
  pose proof (write_spec m bs nf lost l t d M ltac:(lia) ltac:(lia)) as W. cbn [fst snd].
  destruct (jack_midi_event_write m t d) as [ret m']. rewrite Ha in W. apply W. by apply room_prefix in R.
Qed.

(** C15: Round trip of MIDI buffers: events written in order of time into an
    initialised buffer in which table and data keep one byte of distance are
    all read back, with their times, sizes and bytes; behind the last one the
    reader gets ENODATA, and no event counts as lost. *)
Theorem midi_roundtrip m bs nf evs :
  zlen m = bs -> info_size <= bs < 2 ^ 31 -> 0 <= nf <= 2 ^ 16 -> legal_events nf evs -> room bs evs ->
  let m' := write_all (jack_midi_buffer_init m bs nf) evs in
  jack_midi_get_event_count m' = zlen evs /\ jack_midi_get_lost_event_count m' = 0 /\
  forall i, match evs !! i with
    | Some (t, d) => exists p, jack_midi_event_get m' (Z.of_nat i) = (0, Some (t, zlen d, p)) /\
        load_n m' p (zlen d) = d /\ info_size <= p /\ p + zlen d <= bs
    | None => jack_midi_event_get m' (Z.of_nat i) = (ENODATA, None)
    end.
Proof.
  intros L B N Hl R. cbv zeta.
  pose proof (write_all_rep _ bs nf 0 [] evs (init_rep m bs nf L B N) Hl R) as M. cbn [app] in M.
  split; [apply M|]. split; [apply M|]. intros i. by apply (event_get_spec _ bs nf 0).
Qed.

(** C38: The largest event [jack_midi_max_event_size] allows, when it needs
    more than the inline bytes, is accepted by [jack_midi_event_write] but
    cannot be read back: its first byte overwrites the highest byte of its own
    offset, and unless that byte is 0 [jack_midi_event_get] returns a pointer
    outside of the buffer. *)
Theorem max_size_event_corrupted m bs nf lost evs t b d :
  midi_rep m bs nf lost evs -> bs < 2 ^ 24 -> last_time evs <= t < nf -> 0 <= t -> 0 < b < 256 ->
  zlen (b :: d) = jack_midi_max_event_size m -> MIDI_INLINE_MAX < zlen (b :: d) < 2 ^ 16 ->
  let '(ret, m') := jack_midi_event_write m t (b :: d) in
  ret = 0 /\ exists p, jack_midi_event_get m' (zlen evs) = (0, Some (t, zlen (b :: d), p)) /\ (p < 0 \/ bs <= p).
Proof.
  intros M Hbs Ht Ht0 Hb Hmax Hn. set (n := zlen (b :: d)) in *.
  rewrite (max_event_size_eq m bs nf lost evs M) in Hmax. cbv zeta in Hmax.
  pose proof M as [L B N Lb E0 E1 E2 E3 E4 R0 _ _]. rewrite room_alt in R0. pose proof (used_nonneg evs).
  change info_size with 20 in *. change MIDI_INLINE_MAX with 4 in *.
  assert (Hn' : n = bs - (20 + used evs + 8 * (zlen evs + 1))) by (revert Hmax; bool_cases; lia). clear Hmax.
  assert (Ha : accepts bs nf evs t n = true).
  { unfold accepts. change MIDI_INLINE_MAX with 4. change info_size with 20. destruct (Z.leb_spec n 4); [lia|].
    repeat (apply andb_true_intro; split); lia. }
  unfold jack_midi_event_write. fold n. rewrite (reserve_test m bs nf lost evs t n M ltac:(lia)), Ha. cbv zeta.
  change MIDI_INLINE_MAX with 4. destruct (Z.leb_spec n 4); [lia|].
  set (ev := event_at (zlen evs)). assert (Hev : ev = 20 + 8 * zlen evs) by apply event_at_eq.
  set (m1 := put_le (put_le m ev 2 (u16 t)) (ev + 2) 2 (u16 n)).
  assert (Tt : u16 t = t) by (apply wrap_small; lia). assert (Td : u16 n = n) by (apply wrap_small; lia).
  assert (L1 : last_write_loc m1 = used evs) by (unfold m1, last_write_loc; mem_frame; exact E3).
  assert (Lm1 : zlen m1 = bs) by (unfold m1; by mem_frame). rewrite L1, (wrap_small 32 (used evs + n)) by lia.
  set (m2 := set_last_write_loc (used evs + n) m1).
  assert (L2 : last_write_loc m2 = used evs + n) by (apply get_put_same; cbn; lia).
  rewrite L2. set (off := bs - 1 - (used evs + n)). assert (Eo : off = ev + 7) by lia. clearbody off ev.
  rewrite (wrap_small 32 off) by lia. set (m3 := put_le m2 (ev + 4) 4 off).
  assert (C3 : event_count m3 = zlen evs) by (unfold m3, m2, m1, set_last_write_loc, event_count; mem_frame; exact E2).
  rewrite C3, (wrap_small 32 (zlen evs + 1)) by lia. split; [done|].
  unfold jack_midi_event_get. set (m' := store_n (set_event_count (zlen evs + 1) m3) off (b :: d)).
  assert (Lm3 : zlen m3 = bs) by (unfold m3, m2, set_last_write_loc; by mem_frame).
  assert (C' : event_count m' = zlen evs + 1).
  { unfold m', event_count, set_event_count. mem_frame. apply get_put_same; cbn; lia. }
  rewrite C'. destruct (Z.geb_spec (zlen evs) (zlen evs + 1)); [lia|]. cbv zeta.
  replace (event_at (zlen evs)) with ev by (by rewrite event_at_eq).
  assert (V1 : ev_time m' ev = t).
  { unfold m', m3, m2, m1, ev_time, set_event_count, set_last_write_loc. mem_frame. rewrite Tt. apply get_put_same; cbn; lia. }
  assert (V2 : ev_size m' ev = n).
  { unfold m', m3, m2, m1, ev_size, set_event_count, set_last_write_loc. mem_frame. rewrite Td.
    apply get_put_same; rewrite ?length_put_le; cbn; lia. }
  assert (V3 : get_le m' (ev + 4) 4 = off + 2 ^ 24 * b).
  { change (get_le m' (ev + 4) (3 + 1) = off + 2 ^ 24 * b).
    rewrite (get_le_split m' (ev + 4) 3 1) by (unfold m', set_event_count; mem_frame; cbn; lia). f_equal; [|f_equal].
    - unfold m', m3, set_event_count. mem_frame. change (get_le (put_le m2 (ev + 4) (3 + 1) off) (ev + 4) 3 = off).
      rewrite (get_put_low _ _ 3 1).
      + cbn. apply Z.mod_small. lia.
      + lia.
      + unfold m2, set_last_write_loc. mem_frame. cbn. lia.
    - apply get_byte. replace (ev + 4 + Z.of_nat 3) with off by lia.
      assert (E : load_n m' off 1 = take 1 (load_n m' off n)).
      { unfold load_n. rewrite take_take. f_equal. lia. }
      rewrite E. unfold m', n. rewrite load_store_same; [done|lia|]. unfold set_event_count. mem_frame. lia. }
  exists (ev_byte_offset m' ev). split.
  - unfold jack_midi_event_data. rewrite V1, V2. change MIDI_INLINE_MAX with 4.
    destruct (Z.leb_spec n 4); [lia|done].
  - unfold ev_byte_offset. rewrite V3. destruct (decide (b < 128)).
    + right. rewrite swrap_small by lia. lia.
    + left. assert (Es : s32 (off + 2 ^ 24 * b) = off + 2 ^ 24 * b - 2 ^ 32).
      { unfold swrap. rewrite (mod_once _ (2 ^ 32)) by lia. lia. }
      rewrite Es. lia.
Qed.

(** ** Examples *)

Definition note : event := (3, [144; 60; 100]).
Definition sysex : event := (5, [240; 1; 2; 3; 4; 5; 6; 7; 8; 9; 247]).

Lemma midi_roundtrip_witness :
  let m := write_all (jack_midi_buffer_init (replicate 56 0) 56 64) [note; sysex] in
  jack_midi_get_event_count m = 2 /\
  exists p, jack_midi_event_get m 1 = (0, Some (5, 11, p)) /\ load_n m p 11 = sysex.2.
Proof.
  destruct (midi_roundtrip (replicate 56 0) 56 64 [note; sysex]) as (H1 & _ & H2).
  - reflexivity.
  - split; vm_compute; [discriminate|reflexivity].
  - split; vm_compute; discriminate.
  - split.
    + repeat constructor; vm_compute; congruence.
    + repeat constructor; vm_compute; congruence.
  - vm_compute. discriminate.
  - split; [exact H1|]. destruct (H2 1%nat) as (p & E & D & _). exists p. exact (conj E D).
Defined.

Lemma max_size_event_corrupted_witness :
  exists p, jack_midi_event_get (jack_midi_event_write (jack_midi_buffer_init (replicate 39 0) 39 64) 5 sysex.2).2 0
            = (0, Some (5, 11, p)) /\ (p < 0 \/ 39 <= p).
Proof.
  pose proof (max_size_event_corrupted (jack_midi_buffer_init (replicate 39 0) 39 64) 39 64 0 [] 5 240 [1; 2; 3; 4; 5; 6; 7; 8; 9; 247]
    (init_rep (replicate 39 0) 39 64 eq_refl ltac:(split; vm_compute; [discriminate|reflexivity]) ltac:(split; vm_compute; discriminate))
    ltac:(reflexivity) ltac:(split; vm_compute; [discriminate|reflexivity]) ltac:(discriminate)
    ltac:(split; reflexivity) ltac:(vm_compute; reflexivity) ltac:(split; reflexivity)) as H.
  change sysex.2 with (240 :: [1; 2; 3; 4; 5; 6; 7; 8; 9; 247]).
  destruct (jack_midi_event_write _ 5 _) as [ret m']. exact (proj2 H).
Defined.

End MidiPort.
