(* ===== verification/MidiMix.v ===== *)
(** * Mixing MIDI buffers (libjack/midiport.c)

    [jack_midi_port_mixdown] merges the events of all connected ports in
    order of time; of events with the same time, those of the earlier
    connection come first. *)

From S2P Require Import Prelude Bytes MidiPort.

Local Open Scope Z_scope.

Module MidiMix.
Import MidiPort.

(** ** The merge it implements *)

(** The first list whose head is earliest, with that time. *)
Fixpoint pick (rem : list (list event)) (j : nat) (best : option (nat * Z)) : option (nat * Z) :=
  match rem with
  | [] => best
  | l :: rem =>
      pick rem (S j)
        (match l with
         | (t, _) :: _ => if match best with None => true | Some (_, u) => t <? u end then Some (j, t) else best
         | [] => best
         end)
  end.

Fixpoint merge_events (n : nat) (rem : list (list event)) : list event :=
  match n with
  | O => []
  | S n =>
      match pick rem 0 None with
      | Some (j, _) =>
          match rem !!! j with
          | x :: l => x :: merge_events n (<[j := l]> rem)
          | [] => []
          end
      | None => []
      end
  end.

(** [t] is no later than any head. *)
Definition earliest (t : Z) (rem : list (list event)) : Prop :=
  forall k u d l, rem !! k = Some ((u, d) :: l) -> t <= u.

Lemma pick_spec rem j best :
  match pick rem j best with
  | None => best = None /\ forall l, l ∈ rem -> l = []
  | Some (i, t) => earliest t rem /\
      (best = Some (i, t) \/
       (j <= i)%nat /\ (exists d l, rem !! (i - j)%nat = Some ((t, d) :: l)) /\
       forall b u, best = Some (b, u) -> t < u)
  end.
Proof.
  revert j best. induction rem as [|l rem IH]; intros j best; cbn [pick].
  { destruct best as [[i t]|]; [|split; [done|set_solver]]. split; [|by left]. by intros k u d l. }
  set (best' := match l with (t, _) :: _ => _ | [] => best end). specialize (IH (S j) best').
  assert (Hb : best' = best /\ (l = [] \/ exists u d l' b v, l = (u, d) :: l' /\ best = Some (b, v) /\ v <= u) \/
    exists u d l', l = (u, d) :: l' /\ best' = Some (j, u) /\ forall b v, best = Some (b, v) -> u < v).
  { unfold best'. destruct l as [|[u d] l']; [by left; auto|]. destruct best as [[b v]|].
    - destruct (Z.ltb_spec u v); [right|left]; [exists u, d, l'; split_and!; [done..|congruence]|].
      split; [done|]. right. by exists u, d, l', b, v.
    - right. by exists u, d, l'. }
  clearbody best'. destruct (pick rem (S j) best') as [[i t]|].
  - destruct IH as [He Hi].
    assert (Hcase : (best' = best \/ exists u d l', l = (u, d) :: l' /\ best' = Some (j, u)) ) by naive_solver.
    split.
    + intros [|k] u d l' Hk; cbn in Hk; [|by apply (He k u d l')]. injection Hk as ->.
      destruct Hb as [[-> [?|(u0 & d0 & l0 & b & v & [= -> -> ->] & -> & Hv)]]|(u0 & d0 & l0 & [= -> -> ->] & -> & _)]; [done|..].
      * destruct Hi as [[= -> ->]|(_ & _ & Hlt)]; [done|]. specialize (Hlt b v eq_refl). lia.
      * destruct Hi as [[= -> ->]|(_ & _ & Hlt)]; [lia|]. specialize (Hlt j u0 eq_refl). lia.
    + destruct Hb as [[-> _]|(u0 & d0 & l0 & -> & -> & Hlt0)].
      * destruct Hi as [Hi|(Hj & (d & l' & Hk) & Hlt)]; [by left|right]. split_and!; [lia| |done].
        exists d, l'. by replace (i - j)%nat with (S (i - S j)) by lia.
      * right. destruct Hi as [[= <- <-]|(Hj & (d & l' & Hk) & Hlt)].
        -- split_and!; [lia| |done]. exists d0, l0. by rewrite Nat.sub_diag.
        -- split_and!; [lia| |].
           ++ exists d, l'. by replace (i - j)%nat with (S (i - S j)) by lia.
           ++ intros b v Hbv. specialize (Hlt j u0 eq_refl). specialize (Hlt0 b v Hbv). lia.
  - destruct IH as [-> Hr]. destruct Hb as [[E Hl]|(u & d & l' & _ & [=] & _)]. split; [done|].
    intros x [->|Hx]%elem_of_cons; [|by apply Hr].
    destruct Hl as [|(u & d & l' & b & v & _ & [=] & _)]; [done|congruence].
Qed.

Lemma concat_insert_perm (rem : list (list event)) j x l :
  rem !! j = Some (x :: l) -> concat rem ≡ₚ x :: concat (<[j := l]> rem).
Proof.
  revert j. induction rem as [|k rem IH]; intros [|j]; cbn; try done.
  - by intros [= ->].
  - intros Hj. rewrite (IH j Hj). by rewrite Permutation_middle.
Qed.

Lemma pick_some rem i t :
  pick rem 0 None = Some (i, t) -> earliest t rem /\ exists d l, rem !! i = Some ((t, d) :: l).
Proof.
  intros E. pose proof (pick_spec rem 0 None) as H. rewrite E in H.
  destruct H as [He [|(_ & (d & l & Hk) & _)]]; [done|]. rewrite Nat.sub_0_r in Hk. eauto.
Qed.

Lemma pick_none rem : pick rem 0 None = None -> concat rem = [].
Proof.
  intros E. pose proof (pick_spec rem 0 None) as H. rewrite E in H. destruct H as [_ H]. clear E.
  induction rem as [|l rem IH]; [done|]. cbn. rewrite (H l) by left. apply IH. intros k Hk. apply H. by right.
Qed.

(** One step of the merge. *)
Lemma merge_step n rem :
  (0 < length (concat rem))%nat ->
  exists j t d l, pick rem 0 None = Some (j, t) /\ rem !! j = Some ((t, d) :: l) /\ earliest t rem /\
    merge_events (S n) rem = (t, d) :: merge_events n (<[j := l]> rem) /\
    length (concat rem) = S (length (concat (<[j := l]> rem))).
Proof.
  intros Hn. destruct (pick rem 0 None) as [[j t]|] eqn:E.
  - destruct (pick_some rem j t E) as (He & d & l & Hj). exists j, t, d, l. split_and!; try done.
    + cbn [merge_events]. rewrite E, (list_lookup_total_correct _ _ _ Hj). done.
    + by rewrite (concat_insert_perm rem j (t, d) l Hj).
  - apply pick_none in E. rewrite E in Hn. cbn in Hn. lia.
Qed.

Lemma mix_merge_perm n rem : n = length (concat rem) -> merge_events n rem ≡ₚ concat rem.
Proof.
  revert rem. induction n as [|n IH]; intros rem Hn.
  { cbn. by destruct (concat rem). }
  destruct (merge_step n rem ltac:(lia)) as (j & t & d & l & _ & Hj & _ & -> & Hl).
  rewrite (concat_insert_perm rem j (t, d) l Hj). apply Permutation_skip, IH. lia.
Qed.

Lemma earliest_all t rem x :
  earliest t rem -> Forall (StronglySorted not_later) rem -> x ∈ concat rem -> t <= x.1.
Proof.
  intros He Hs Hx. apply list_elem_of_In, in_concat in Hx as (l & Hl & Hx).
  apply list_elem_of_In in Hl, Hx. pose proof (proj1 (Forall_forall _ _) Hs l Hl) as Sl.
  apply list_elem_of_lookup in Hl as [k Hk]. destruct l as [|[u d] l]; [by apply not_elem_of_nil in Hx|].
  specialize (He k u d l Hk). apply StronglySorted_inv in Sl as [_ Sf].
  apply elem_of_cons in Hx as [->|Hx]; [done|]. pose proof (proj1 (Forall_forall _ _) Sf x Hx) as Hn.
  unfold not_later in Hn. cbn in *. lia.
Qed.

Lemma mix_merge_sorted n rem :
  n = length (concat rem) -> Forall (StronglySorted not_later) rem -> StronglySorted not_later (merge_events n rem).
Proof.
  revert rem. induction n as [|n IH]; intros rem Hn Hs; [constructor|].
  destruct (merge_step n rem ltac:(lia)) as (j & t & d & l & _ & Hj & He & -> & Hl).
  assert (Hs' : Forall (StronglySorted not_later) (<[j := l]> rem)).
  { apply Forall_insert; [done|]. apply (Forall_lookup_1 _ _ _ _ Hs) in Hj. by apply StronglySorted_inv in Hj as [? _]. }
  constructor; [apply IH; [lia|done]|]. apply Forall_forall. intros x Hx.
  rewrite mix_merge_perm in Hx by lia. unfold not_later. cbn. apply (earliest_all t rem); [done..|].
  rewrite (concat_insert_perm rem j (t, d) l Hj). by right.
Qed.

(** ** Sources during the mixdown *)

(** A source whose unread events are [rem]: the events of a buffer from the
    one on that its [last_write_loc] tells. *)
Definition source (m : list Z) (rem : list event) : Prop :=
  exists m0 bs nf lost evs r,
    midi_rep m0 bs nf lost evs /\ (forall off n, info_size <= off -> load_n m off n = load_n m0 off n) /\
    event_count m = zlen evs /\ last_write_loc m = Z.of_nat r /\ (r <= length evs)%nat /\ rem = drop r evs /\
    zlen m = bs.

Lemma count_bound bs evs : room bs evs -> zlen evs <= bs.
Proof. rewrite room_alt. pose proof (used_nonneg evs). change info_size with 20. lia. Qed.

Lemma source_start m bs nf lost evs : midi_rep m bs nf lost evs -> source (set_last_write_loc 0 m) evs.
Proof.
  intros M. pose proof M as [L B _ _ _ _ E2 _ _ _ _ _]. change info_size with 20 in B.
  exists m, bs, nf, lost, evs, 0%nat. unfold set_last_write_loc, event_count, last_write_loc in *.
  split_and!; [done|..|lia|done|].
  - intros off n Ho. change info_size with 20 in Ho. by mem_frame.
  - by mem_frame.
  - apply get_put_same; cbn; lia.
  - by mem_frame.
Qed.

Lemma source_unread m rem : source m rem -> unread m = match rem with [] => false | _ => true end.
Proof.
  intros (m0 & bs & nf & lost & evs & r & M & F & E1 & E2 & Hr & -> & L). unfold unread. rewrite E1, E2.
  destruct (drop r evs) as [|x l] eqn:Ed.
  - apply (f_equal length) in Ed. rewrite length_drop in Ed. cbn in Ed. bool_cases; lia.
  - apply (f_equal length) in Ed. rewrite length_drop in Ed. cbn in Ed. bool_cases; lia.
Qed.

Lemma source_head m t d l :
  source m ((t, d) :: l) ->
  ev_time m (next_event m) = t /\
  load_n m (jack_midi_event_data m (next_event m)) (ev_size m (next_event m)) = d.
Proof.
  intros (m0 & bs & nf & lost & evs & r & M & F & E1 & E2 & Hr & Ed & L). unfold next_event. rewrite E2.
  assert (Hx : evs !! r = Some (t, d)) by (rewrite <- (Nat.add_0_r r), <- lookup_drop, <- Ed; done).
  destruct (stored_get m0 bs nf lost evs m r t d M F Hx) as (-> & -> & -> & H). done.
Qed.

Lemma source_advance m x l :
  source m (x :: l) -> source (set_last_write_loc (u32 (last_write_loc m + 1)) m) l.
Proof.
  intros (m0 & bs & nf & lost & evs & r & M & F & E1 & E2 & Hr & Ed & L).
  assert (Hlt : (r < length evs)%nat).
  { apply (f_equal length) in Ed. rewrite length_drop in Ed. cbn in Ed. lia. }
  pose proof (count_bound bs evs (mr_room _ _ _ _ _ M)). pose proof (mr_bs_bound _ _ _ _ _ M) as B.
  change info_size with 20 in B. rewrite E2, (wrap_small 32) by lia.
  exists m0, bs, nf, lost, evs, (S r). unfold set_last_write_loc, event_count, last_write_loc in *.
  split_and!; [done|..|lia| |].
  - intros off n Ho. change info_size with 20 in *. mem_frame. by apply F.
  - by mem_frame.
  - replace (Z.of_nat r + 1) with (Z.of_nat (S r)) by lia. apply get_put_same; cbn; lia.
  - replace (S r) with (r + 1)%nat by lia. by rewrite <- drop_drop, <- Ed.
  - by mem_frame.
Qed.

Lemma find_earliest_pick ins rem j best : Forall2 source ins rem -> find_earliest ins j best = pick rem j best.
Proof.
  intros H. revert j best. induction H as [|m l ins rem Hm H IH]; intros j best; [done|]. cbn [find_earliest pick].
  rewrite IH. f_equal. rewrite (source_unread m l Hm). destruct l as [|[t d] l]; [done|].
  destruct (source_head m t d l Hm) as [-> _]. by destruct best as [[b u]|].
Qed.

(** ** The loop *)

Lemma mix_loop_rep n i num bs nf lost mix out ins rem :
  n = length (concat rem) -> Forall2 source ins rem -> midi_rep mix bs nf lost out ->
  legal_events nf (out ++ merge_events n rem) -> room bs (out ++ merge_events n rem) ->
  midi_rep (mix_loop n i num mix ins).1 bs nf lost (out ++ merge_events n rem).
Proof.
  revert i mix out ins rem. induction n as [|n IH]; intros i mix out ins rem Hn Hs M L R.
  { by rewrite app_nil_r. }
  destruct (merge_step n rem ltac:(lia)) as (j & t & d & l & Ep & Hj & _ & Em & Hl). rewrite Em in *.
  cbn [mix_loop]. rewrite (find_earliest_pick ins rem 0 None Hs), Ep.
  destruct (Forall2_lookup_r _ _ _ _ _ Hs Hj) as (m & Hm & Sm).
  rewrite (list_lookup_total_correct _ _ _ Hm). destruct (source_head m t d l Sm) as [-> ->].
  pose proof (accepts_next bs nf out t d _ L R) as Ha.
  assert (Hx : legal_event nf (t, d)) by (eapply Forall_forall; [exact (proj1 L)|]; set_solver).
  destruct Hx as [Ht Hd]. cbn [fst snd] in *.
  pose proof (write_spec mix bs nf lost out t d M ltac:(lia) ltac:(lia)) as W.
  destruct (jack_midi_event_write mix t d) as [err mix']. rewrite Ha in W. destruct W as [-> W].
  cbn [negb Z.eqb]. replace (out ++ (t, d) :: merge_events n (<[j := l]> rem))
    with ((out ++ [(t, d)]) ++ merge_events n (<[j := l]> rem)) in * by (by rewrite <- app_assoc).
  apply IH; [lia| |by apply W, (room_prefix bs _ _ R)|done|done].
  apply Forall2_lookup. intros k. destruct (decide (j = k)) as [->|Hne].
  - rewrite list_lookup_alter_eq, Hm. cbn. rewrite list_lookup_insert_eq by (by eapply lookup_lt_Some).
    constructor. by apply (source_advance m (t, d)).
  - rewrite list_lookup_alter_ne, list_lookup_insert_ne by done. by apply Forall2_lookup.
Qed.

Lemma used_perm l k : l ≡ₚ k -> used l = used k.
Proof. induction 1 as [|[t d] l k _ IH|[t d] [u x] l|l k j _ IH1 _ IH2]; cbn; lia. Qed.

Lemma room_perm bs l k : l ≡ₚ k -> room bs l -> room bs k.
Proof. intros P. by rewrite !room_alt, (used_perm l k P), P. Qed.

(** [sum += x] on a 32-bit word. *)
Lemma fold_wrap (f : list Z -> Z) ins n :
  foldl (fun n m => u32 (n + f m)) (u32 n) ins = u32 (n + foldr (fun m s => f m + s) 0 ins).
Proof.
  revert n. induction ins as [|m ins IH]; intros n; cbn; [by rewrite Z.add_0_r|].
  replace (u32 (u32 n + f m)) with (u32 (n + f m)) by (unfold wrap; by rewrite Zplus_mod_idemp_l).
  rewrite IH. f_equal. lia.
Qed.

Lemma fold_wrap_0 (f : list Z -> Z) ins :
  foldl (fun n m => u32 (n + f m)) 0 ins = u32 (foldr (fun m s => f m + s) 0 ins).
Proof. exact (fold_wrap f ins 0). Qed.

Lemma sum_counts nf ins evss :
  Forall2 (fun m evs => exists bs lost, midi_rep m bs nf lost evs) ins evss ->
  foldr (fun m s => event_count m + s) 0 ins = zlen (concat evss).
Proof.
  intros H. induction H as [|m evs ins evss (b & lo & M) H IH]; [done|]. cbn.
  rewrite IH, (mr_count _ _ _ _ _ M), length_app. lia.
Qed.

(** C16: The mixdown of MIDI buffers loses nothing when the events of all
    connected ports have room in the buffer of the input port: afterwards the
    buffer holds exactly the merge of their events, sorted by time, the events
    of one time in the order of the connections; the lost events of the
    sources are added up, and the assertion at the end holds. *)
Theorem mixdown_correct bs nf lost old mix ins evss :
  midi_rep mix bs nf lost old ->
  Forall2 (fun m evs => exists bs lost, midi_rep m bs nf lost evs) ins evss ->
  Forall (StronglySorted not_later) evss -> room bs (concat evss) ->
  exists mix' ins', jack_midi_port_mixdown mix ins = Some (mix', ins') /\
    let evs := merge_events (length (concat evss)) evss in
    midi_rep mix' bs nf (u32 (foldr (fun m s => events_lost m + s) 0 ins)) evs /\
    evs ≡ₚ concat evss /\ StronglySorted not_later evs.
Proof.
  intros M Hs So R. pose proof (count_bound bs _ R) as Hc. pose proof (mr_bs_bound _ _ _ _ _ M) as B.
  unfold jack_midi_port_mixdown. cbv zeta. rewrite !fold_wrap_0.
  rewrite (sum_counts nf ins evss Hs), (wrap_small 32 (zlen (concat evss))), Nat2Z.id by lia.
  set (n := length (concat evss)). pose proof (mix_merge_perm n evss eq_refl) as P.
  pose proof (mix_merge_sorted n evss eq_refl So) as S.
  assert (Sr : Forall2 source (set_last_write_loc 0 <$> ins) evss).
  { apply Forall2_fmap_l. apply (Forall2_impl _ _ _ _ Hs). intros m evs (b & lo & Mm). by eapply source_start. }
  assert (L : legal_events nf ([] ++ merge_events n evss)).
  { split; [|done]. cbn. rewrite P. apply Forall_concat, Forall_forall. intros evs He.
    apply list_elem_of_lookup in He as [k Hk]. destruct (Forall2_lookup_r _ _ _ _ _ Hs Hk) as (m & _ & b & lo & Mm).
    apply Forall_lookup. intros i [t d] Hi. exact (mr_legal _ _ _ _ _ Mm i t d Hi). }
  pose proof (mix_loop_rep n 0 (Z.of_nat n) bs nf 0 _ [] _ evss eq_refl Sr (clear_rep _ _ _ _ _ M) L
                (room_perm bs _ _ (symmetry P) R)) as Ml.
  destruct (mix_loop n 0 (Z.of_nat n) _ _) as [mix1 ins1]. cbn [fst app] in Ml.
  rewrite (mr_count _ _ _ _ _ Ml), (mr_lost _ _ _ _ _ Ml), Z.sub_0_r, Z.add_0_l.
  rewrite (Permutation_length P), (wrap_small 32 (Z.of_nat n)), Z.eqb_refl by lia.
  assert (Ew : u32 (u32 (foldr (fun m s => events_lost m + s) 0 ins)) = u32 (foldr (fun m s => events_lost m + s) 0 ins))
    by (unfold wrap; by rewrite Z.mod_mod).
  rewrite Ew. eexists _, _. split; [done|]. split_and!; [|done|done].
  apply (refused_rep mix1 bs nf 0); [done|]. by apply wrap_bound.
Qed.

Lemma mixdown_correct_witness :
  let a := write_all (jack_midi_buffer_init (replicate 56 0) 56 64) [note; sysex] in
  let b := write_all (jack_midi_buffer_init (replicate 56 0) 56 64) [(3, [128; 60; 0]); (4, [128; 61; 0])] in
  exists mix ins, jack_midi_port_mixdown (jack_midi_buffer_init (replicate 80 0) 80 64) [a; b] = Some (mix, ins) /\
    midi_rep mix 80 64 0 [note; (3, [128; 60; 0]); (4, [128; 61; 0]); sysex].
Proof.
  assert (I : forall bs m, zlen m = bs -> info_size <= bs < 2 ^ 31 -> midi_rep (jack_midi_buffer_init m bs 64) bs 64 0 [])
    by (intros bs m L B; apply init_rep; [done|done|lia]).
  assert (W : forall evs, legal_events 64 evs -> room 56 evs ->
    midi_rep (write_all (jack_midi_buffer_init (replicate 56 0) 56 64) evs) 56 64 0 evs).
  { intros evs L R. apply (write_all_rep _ 56 64 0 [] evs); [|done|done]. apply I; [reflexivity|split; reflexivity || discriminate]. }
  destruct (mixdown_correct 80 64 0 [] (jack_midi_buffer_init (replicate 80 0) 80 64)
    [write_all (jack_midi_buffer_init (replicate 56 0) 56 64) [note; sysex];
     write_all (jack_midi_buffer_init (replicate 56 0) 56 64) [(3, [128; 60; 0]); (4, [128; 61; 0])]]
    [[note; sysex]; [(3, [128; 60; 0]); (4, [128; 61; 0])]]) as (mix & ins & E & M & _).
  - apply I; [reflexivity|split; reflexivity || discriminate].
  - repeat constructor; exists 56, 0; apply W.
    + split; repeat constructor; vm_compute; congruence.
    + vm_compute. discriminate.
    + split; repeat constructor; vm_compute; congruence.
    + vm_compute. discriminate.
  - repeat constructor; vm_compute; congruence.
  - vm_compute. discriminate.
  - exists mix, ins. split; [exact E|]. exact M.
Defined.

End MidiMix.
