(* ===== verification/Shm.v ===== *)
(** * The registry of shared memory (libjack/shm.c, jack/shm.h)

    All servers and clients of a machine share one registry: the names of the
    running servers and the shared memory segments in use, with the process
    that made each.  A semaphore serializes the updates.  The functions are
    computations of one process on what the kernel keeps; they can block on the
    semaphore.  The POSIX variant of the interface is modelled. *)

From S2P Require Import Prelude.
From stdpp Require Import pretty.

Local Open Scope Z_scope.

Module Shm.

Definition MAX_SERVERS : nat := 8.
Definition MAX_SHM_ID : nat := 256.
Definition JACK_SERVER_NAME_SIZE : nat := 256.
Definition JACK_SHM_MAGIC : Z := 0x4a41434b.
Definition JACK_SHM_NULL_INDEX : Z := -1.
Definition shm_POSIX : Z := 1.
Definition EEXIST : Z := 17.
Definition ENOSPC : Z := 28.
Definition ENOMEM : Z := 12.
Definition ENOENT : Z := 2.
Definition EINVAL : Z := 22.

(** ** Data *)

Record jack_shm_server_t := mk_server { sv_pid : Z; sv_name : string }.

Record jack_shm_registry_t := mk_entry {
  en_index : Z;
  en_allocator : Z;
  en_size : Z;
  en_id : string
}.

(** The numbers by which versions recognise their registries. *)
Record jack_shm_layout := mk_layout {
  ly_magic : Z;
  ly_protocol : Z;
  ly_type : Z;
  ly_size : Z;
  ly_hdr_len : Z;
  ly_entry_len : Z
}.

#[global] Instance layout_eq_dec : EqDecision jack_shm_layout.
Proof. solve_decision. Defined.

(** [jack_shm_header_t] and the array behind it. *)
Record registry := mk_registry {
  rg_layout : jack_shm_layout;
  rg_server : list jack_shm_server_t;
  rg_entries : list jack_shm_registry_t
}.

Record jack_shm_info_t := mk_info { in_index : Z; in_attached : bool }.

(** What the kernel keeps: the memory of every registry that was made, the one
    the name of the registry leads to, the names of the other segments, and the
    value of the semaphore. *)
Record kernel := mk_kernel {
  registries : list registry;
  bound : option nat;
  segments : gset string;
  sem : Z
}.

(** A process: its id, [jack_shm_header] with [jack_shm_registry], its
    [jack_shm_server_prefix], and what the kernel adds to the semaphore when it
    exits ([SEM_UNDO]). *)
Record process := mk_process {
  pid : Z;
  header : option nat;
  prefix : string;
  semadj : Z
}.

Inductive kill_result := Alive | NoSuchProcess | NotPermitted.

(** The answers of the system: who lives, whether segments can be opened, made
    and mapped; the layout of this build, the user id as text. *)
Record shm_world := mk_shm_world {
  sw_kill : Z -> kill_result;
  sw_access_rc : Z;
  sw_create_rc : Z;
  sw_registry_size_rc : Z;
  sw_map_ok : bool;
  sw_open_ok : bool;
  sw_truncate_ok : bool;
  sw_attach_ok : bool;
  sw_attach_map_ok : bool;
  sw_layout : jack_shm_layout;
  sw_uid : string
}.

(** ** Computations of a process *)

Inductive result (A : Type) :=
| Ok (a : A) (p : process) (k : kernel)
| Blocks
| Undefined.
Arguments Ok {A} a p k.
Arguments Blocks {A}.
Arguments Undefined {A}.

Definition M (A : Type) : Type := process -> kernel -> result A.

#[global] Instance M_ret : MRet M := fun A a p k => Ok a p k.
#[global] Instance M_bind : MBind M := fun A B f m p k =>
  match m p k with Ok a p k => f a p k | Blocks => Blocks | Undefined => Undefined end.

Definition undefined {A} : M A := fun _ _ => Undefined.
Definition ask : M process := fun p k => Ok p p k.
Definition put_process (p : process) : M unit := fun _ k => Ok tt p k.
Definition look : M kernel := fun p k => Ok k p k.
Definition put_kernel (k : kernel) : M unit := fun p _ => Ok tt p k.

(** Access through [jack_shm_header]; a NULL pointer is undefined behaviour. *)
Definition get_registry : M registry := fun p k =>
  match header p with
  | None => Undefined
  | Some i => match registries k !! i with Some r => Ok r p k | None => Undefined end
  end.

Definition put_registry (r : registry) : M unit := fun p k =>
  match header p with
  | None => Undefined
  | Some i => Ok tt p (mk_kernel (<[i := r]> (registries k)) (bound k) (segments k) (sem k))
  end.

(** The semaphore exists; the first user of the machine makes it with value 1. *)
Definition jack_shm_lock_registry : M unit := fun p k =>
  if sem k <=? 0 then Blocks
  else Ok tt (mk_process (pid p) (header p) (prefix p) (semadj p + 1))
             (mk_kernel (registries k) (bound k) (segments k) (sem k - 1)).

Definition jack_shm_unlock_registry : M unit := fun p k =>
  Ok tt (mk_process (pid p) (header p) (prefix p) (semadj p - 1))
        (mk_kernel (registries k) (bound k) (segments k) (sem k + 1)).

(** [shm_unlink]. *)
Definition jack_remove_shm (id : string) : M unit := fun p k =>
  Ok tt p (mk_kernel (registries k) (bound k) (segments k ∖ {[id]}) (sem k)).

Definition remove_registry : M unit := fun p k =>
  Ok tt p (mk_kernel (registries k) None (segments k) (sem k)).

Section shm.
Context (w : shm_world).

(** ** The registry *)

Definition empty_server : jack_shm_server_t := mk_server 0 "".
Definition empty_entry (i : nat) : jack_shm_registry_t := mk_entry (Z.of_nat i) 0 0 "".

Definition init_registry : registry :=
  mk_registry (sw_layout w) (replicate MAX_SERVERS empty_server) (empty_entry <$> seq 0 MAX_SHM_ID).

Definition jack_shm_init_registry : M unit := put_registry init_registry.

Definition jack_shm_validate_registry : M Z :=
  r ← get_registry; mret (if decide (rg_layout r = sw_layout w) then 0 else -1).

Fixpoint string_take (n : nat) (s : string) : string :=
  match n, s with
  | S n, String c s => String c (string_take n s)
  | _, _ => EmptyString
  end.

(** [snprintf (prefix, sizeof (prefix), "/jack-%d:%s:", getuid (), server_name)]. *)
Definition server_prefix (server_name : string) : string :=
  string_take (JACK_SERVER_NAME_SIZE - 1) ("/jack-" +:+ sw_uid w +:+ ":" +:+ server_name +:+ ":").

Definition jack_set_server_prefix (server_name : string) : M unit :=
  p ← ask; put_process (mk_process (pid p) (header p) (server_prefix server_name) (semadj p)).

Definition set_header (i : nat) : M unit :=
  p ← ask; put_process (mk_process (pid p) (Some i) (prefix p) (semadj p)).

Definition jack_access_registry : M Z :=
  k ← look;
  match bound k with
  | None => mret ENOENT
  | Some i =>
      if negb (sw_access_rc w =? 0) then mret (sw_access_rc w)
      else if negb (sw_map_ok w) then mret EINVAL
      else _ ← set_header i; mret 0
  end.

(** Memory of a new segment is zero. *)
Definition zero_registry : registry :=
  mk_registry (mk_layout 0 0 0 0 0 0) (replicate MAX_SERVERS empty_server)
    (replicate MAX_SHM_ID (mk_entry 0 0 0 "")).

Definition jack_create_registry : M Z :=
  if negb (sw_create_rc w =? 0) then mret (sw_create_rc w)
  else if negb (sw_registry_size_rc w =? 0) then _ ← remove_registry; mret (sw_registry_size_rc w)
  else if negb (sw_map_ok w) then _ ← remove_registry; mret EINVAL
  else
    k ← look;
    _ ← match bound k with
        | Some i => set_header i
        | None =>
            let i := length (registries k) in
            _ ← put_kernel (mk_kernel (registries k ++ [zero_registry]) (Some i) (segments k) (sem k));
            set_header i
        end;
    _ ← jack_shm_init_registry; mret 0.

(** An invalid registry falls through to the case of a bad one.  There
    [jack_release_shm] unmaps as many bytes as the entry -2 of the array says,
    which lies in the array of servers; the old mapping is not used again when
    a new registry can be made. *)
Definition jack_server_initialize_shm (new_registry : bool) : M Z :=
  p ← ask;
  if decide (is_Some (header p)) then mret 0
  else
    _ ← jack_shm_lock_registry;
    rc ← jack_access_registry;
    rc ← if new_registry then _ ← remove_registry; mret ENOENT else mret rc;
    rc ← if rc =? ENOENT then jack_create_registry
         else if rc =? 0 then
           v ← jack_shm_validate_registry;
           if v =? 0 then mret 0 else _ ← remove_registry; jack_create_registry
         else if rc =? EINVAL then _ ← remove_registry; jack_create_registry
         else mret rc;
    _ ← jack_shm_unlock_registry;
    mret rc.

Definition jack_initialize_shm (server_name : string) : M Z :=
  p ← ask;
  if decide (is_Some (header p)) then mret 0
  else
    _ ← jack_set_server_prefix server_name;
    _ ← jack_shm_lock_registry;
    rc ← jack_access_registry;
    rc ← if rc =? 0 then jack_shm_validate_registry else mret rc;
    _ ← jack_shm_unlock_registry;
    mret rc.

(** ** Segments *)

(** [snprintf (name, ..., "/jack-%d", registry->index)]. *)
Definition segment_name (index : Z) : string := "/jack-" +:+ pretty index.

(** The first entry with size 0. *)
Definition jack_get_free_shm_info (r : registry) : option nat :=
  fst <$> list_find (fun en => en_size en = 0) (rg_entries r).

Definition set_entry (i : nat) (en : jack_shm_registry_t) (r : registry) : registry :=
  mk_registry (rg_layout r) (rg_server r) (<[i := en]> (rg_entries r)).

Definition release_entry (i : nat) (r : registry) : registry :=
  match rg_entries r !! i with
  | Some en => set_entry i (mk_entry (en_index en) 0 0 "") r
  | None => r
  end.

Definition jack_release_shm_entry (i : nat) : M unit := r ← get_registry; put_registry (release_entry i r).

Definition jack_release_shm_info (i : nat) : M unit :=
  r ← get_registry; p ← ask;
  match rg_entries r !! i with
  | None => undefined
  | Some en =>
      if en_allocator en =? pid p then
        _ ← jack_shm_lock_registry; _ ← jack_release_shm_entry i; jack_shm_unlock_registry
      else mret tt
  end.

(** [si] stays as it is when the allocation fails. *)
Definition jack_shmalloc (size : Z) (si : jack_shm_info_t) : M (Z * jack_shm_info_t) :=
  let fail := (-1, si) in
  _ ← jack_shm_lock_registry;
  r ← get_registry; p ← ask;
  rc ← match jack_get_free_shm_info r with
       | None => mret fail
       | Some i =>
           match rg_entries r !! i with
           | None => mret fail
           | Some en =>
               let name := segment_name (en_index en) in
               if negb (sw_open_ok w) then mret fail
               else
                 k ← look;
                 _ ← put_kernel (mk_kernel (registries k) (bound k) (segments k ∪ {[name]}) (sem k));
                 if negb (sw_truncate_ok w) then mret fail
                 else
                   _ ← put_registry (set_entry i (mk_entry (en_index en) (pid p) size name) r);
                   mret (0, mk_info (en_index en) false)
           end
       end;
  _ ← jack_shm_unlock_registry;
  mret rc.

(** An index outside of the array is undefined behaviour. *)
Definition entry_at (r : registry) (index : Z) : option jack_shm_registry_t :=
  if index <? 0 then None else rg_entries r !! Z.to_nat index.

Definition jack_destroy_shm (si : jack_shm_info_t) : M unit :=
  if in_index si =? JACK_SHM_NULL_INDEX then mret tt
  else
    r ← get_registry;
    match entry_at r (in_index si) with
    | None => undefined
    | Some en => _ ← jack_remove_shm (en_id en); jack_release_shm_info (Z.to_nat (in_index si))
    end.

Definition jack_attach_shm (si : jack_shm_info_t) : M (Z * jack_shm_info_t) :=
  r ← get_registry; k ← look;
  match entry_at r (in_index si) with
  | None => undefined
  | Some en =>
      if negb (bool_decide (en_id en ∈ segments k) && sw_attach_ok w) then mret (-1, si)
      else if negb (sw_attach_map_ok w) then mret (-1, mk_info (in_index si) false)
      else mret (0, mk_info (in_index si) true)
  end.

(** [jack_release_shm] only unmaps. *)
Definition jack_resize_shm (size : Z) (si : jack_shm_info_t) : M (Z * jack_shm_info_t) :=
  _ ← jack_destroy_shm si;
  r ← jack_shmalloc size si;
  if negb (r.1 =? 0) then mret (-1, r.2) else jack_attach_shm r.2.

(** ** Servers *)

(** The first loop of [jack_register_server]: the early return, if any, and
    the array with the entries of dead servers of this name cleared. *)
Fixpoint scan_servers (me : Z) (name : string) (l : list jack_shm_server_t)
    : option Z * list jack_shm_server_t :=
  match l with
  | [] => (None, [])
  | s :: l =>
      if negb (String.eqb (sv_name s) name) then
        let '(ret, l) := scan_servers me name l in (ret, s :: l)
      else if sv_pid s =? me then (Some 0, s :: l)
      else match sw_kill w (sv_pid s) with
           | Alive => (Some EEXIST, s :: l)
           | _ => let '(ret, l) := scan_servers me name l in (ret, empty_server :: l)
           end
  end.

Definition set_servers (l : list jack_shm_server_t) (r : registry) : registry :=
  mk_registry (rg_layout r) l (rg_entries r).

(** The early returns leave the registry locked. *)
Definition jack_register_server (server_name : string) (new_registry : bool) : M Z :=
  _ ← jack_set_server_prefix server_name;
  rc ← jack_server_initialize_shm new_registry;
  if negb (rc =? 0) then mret ENOMEM
  else
    _ ← jack_shm_lock_registry;
    r ← get_registry; p ← ask;
    let '(early, servers) := scan_servers (pid p) (prefix p) (rg_server r) in
    _ ← put_registry (set_servers servers r);
    match early with
    | Some ret => mret ret
    | None =>
        match list_find (fun s => sv_pid s = 0) servers with
        | None => mret ENOSPC
        | Some (i, _) =>
            _ ← put_registry (set_servers (<[i := mk_server (pid p) (prefix p)]> servers) r);
            _ ← jack_shm_unlock_registry;
            mret 0
        end
    end.

Definition jack_unregister_server : M unit :=
  _ ← jack_shm_lock_registry;
  r ← get_registry; p ← ask;
  _ ← put_registry (set_servers ((fun s => if sv_pid s =? pid p then empty_server else s) <$> rg_server r) r);
  jack_shm_unlock_registry.

(** Whether [jack_cleanup_shm] destroys the segment of an entry. *)
Definition to_destroy (me : Z) (en : jack_shm_registry_t) : bool :=
  if en_allocator en =? 0 then false
  else if en_allocator en =? me then true
  else match sw_kill w (en_allocator en) with NoSuchProcess => true | _ => false end.

(** [jack_release_shm] gets a copy of the first sixteen bytes of an entry in
    place of a [jack_shm_info_t]: on a 64-bit little-endian machine the address
    [attached_at] is made of the bytes of [size] and the first four of [id]. *)
Definition byte_at (n : nat) (s : string) : Z :=
  match String.get n s with Some c => Z.of_nat (Ascii.nat_of_ascii c) | None => 0 end.

Definition copied_address (en : jack_shm_registry_t) : Z :=
  en_size en mod 2 ^ 32 + 2 ^ 32 * byte_at 0 (en_id en) + 2 ^ 40 * byte_at 1 (en_id en)
    + 2 ^ 48 * byte_at 2 (en_id en) + 2 ^ 56 * byte_at 3 (en_id en).

Definition MAP_FAILED : Z := 2 ^ 64 - 1.
Definition page_size : Z := 4096.
Definition user_space : Z := 2 ^ 47.

(** [munmap] refuses an address that does not start a page, an empty range and
    what is not memory of the process. *)
Definition unmaps (addr size : Z) : bool :=
  (addr mod page_size =? 0) && (0 <? size) && (addr + size <=? user_space).

(** [jack_release_shm] on that copy: [false] when memory at an address that is
    none would be unmapped, or the index lies outside of the array. *)
Definition release_copy (r : registry) (en : jack_shm_registry_t) : bool :=
  if copied_address en =? MAP_FAILED then true
  else match entry_at r (en_index en) with
       | Some en' => negb (unmaps (copied_address en) (en_size en'))
       | None => false
       end.

(** One round of the loop of [jack_cleanup_shm]. *)
Definition cleanup_entry (me : Z) (acc : registry * gset string) (i : nat) : option (registry * gset string) :=
  let '(r, segs) := acc in
  match rg_entries r !! i with
  | None => Some acc
  | Some en =>
      if (en_allocator en =? me) && negb (en_allocator en =? 0) && negb (release_copy r en) then None
      else if to_destroy me en then
        let index := en_index en in
        let '(r, segs) :=
          if (index >=? 0) && (index <? Z.of_nat MAX_SHM_ID) then
            match rg_entries r !! Z.to_nat index with
            | Some en' => (release_entry (Z.to_nat index) r, segs ∖ {[en_id en']})
            | None => (r, segs)
            end
          else (r, segs) in
        match rg_entries r !! i with
        | Some en => Some (set_entry i (mk_entry (en_index en) 0 0 (en_id en)) r, segs)
        | None => Some (r, segs)
        end
      else Some acc
  end.

Definition cleanup_entries (me : Z) (acc : registry * gset string) (l : list nat) : option (registry * gset string) :=
  foldl (fun acc i => acc ≫= fun a => cleanup_entry me a i) (Some acc) l.

Definition jack_cleanup_shm : M Z :=
  _ ← jack_shm_lock_registry;
  r ← get_registry; p ← ask; k ← look;
  match cleanup_entries (pid p) (r, segments k) (seq 0 MAX_SHM_ID) with
  | None => undefined
  | Some (r, segs) =>
      _ ← put_kernel (mk_kernel (registries k) (bound k) segs (sem k));
      _ ← put_registry r;
      _ ← jack_shm_unlock_registry;
      mret 1
  end.

(** ** Well-formed registries *)

Record entry_ok (i : nat) (en : jack_shm_registry_t) : Prop := {
  eo_index : en_index en = Z.of_nat i;
  eo_size : 0 <= en_size en;
  eo_free : en_size en = 0 -> en_allocator en = 0 /\ en_id en = "";
  eo_used : en_size en <> 0 -> en_allocator en <> 0 /\ en_id en = segment_name (Z.of_nat i)
}.

Record registry_ok (r : registry) : Prop := {
  ro_servers : length (rg_server r) = MAX_SERVERS;
  ro_length : length (rg_entries r) = MAX_SHM_ID;
  ro_entries : forall i en, rg_entries r !! i = Some en -> entry_ok i en
}.

Lemma init_registry_ok : registry_ok init_registry.
Proof.
  constructor; cbn [rg_server rg_entries init_registry].
  - apply length_replicate.
  - by rewrite length_fmap, length_seq.
  - intros i en. rewrite list_lookup_fmap. destruct (seq 0 MAX_SHM_ID !! i) as [j|] eqn:E; [|done].
    apply lookup_seq in E as [-> _]. intros [= <-]. by constructor.
Qed.

(** The process [p] uses the registry [r]. *)
Record attached (p : process) (k : kernel) (i : nat) (r : registry) : Prop := {
  at_header : header p = Some i;
  at_registry : registries k !! i = Some r
}.

Definition update (i : nat) (r : registry) (segs : gset string) (k : kernel) : kernel :=
  mk_kernel (<[i := r]> (registries k)) (bound k) segs (sem k).

Lemma update_same p k i r : attached p k i r -> update i r (segments k) k = k.
Proof. intros [_ E]. unfold update. rewrite list_insert_id by done. by destruct k. Qed.

Lemma relock (p : process) h :
  header p = h -> mk_process (pid p) h (prefix p) (semadj p + 1 - 1) = p.
Proof. intros <-. destruct p. f_equal. cbn. lia. Qed.

Lemma kernel_eta (k : kernel) : mk_kernel (registries k) (bound k) (segments k) (sem k) = k.
Proof. by destruct k. Qed.

Lemma resem rs b sg (z : Z) : mk_kernel rs b sg (z - 1 + 1) = mk_kernel rs b sg z.
Proof. f_equal. lia. Qed.

(** ** Segments *)

Ltac run_shm := unfold mbind, M_bind, jack_shm_lock_registry, get_registry, ask, look, put_kernel, put_process,
  put_registry, jack_shm_unlock_registry, mret, M_ret, jack_remove_shm; cbn [option_bind option_fmap].

(** Run a function up to the registry it has locked, and to its end. *)
Ltac take_lock k Hs Hh Hr :=
  run_shm; try (destruct (Z.leb_spec (sem k) 0); [lia|]);
  cbn [header registries pid]; rewrite Hh; cbn [registries]; rewrite Hr; cbn [header registries pid].
Ltac give_lock Hh :=
  cbn [header registries bound segments sem pid prefix semadj];
  rewrite ?Hh, ?resem, ?kernel_eta, ?(relock _ _ Hh); try reflexivity.

Lemma shmalloc_eq size si0 p k i r :
  attached p k i r -> 0 < sem k ->
  jack_shmalloc size si0 p k =
  match jack_get_free_shm_info r ≫= fun j => (fun en => (j, en)) <$> rg_entries r !! j with
  | None => Ok (-1, si0) p k
  | Some (j, en) =>
      if negb (sw_open_ok w) then Ok (-1, si0) p k
      else if negb (sw_truncate_ok w) then
        Ok (-1, si0) p (update i r (segments k ∪ {[segment_name (en_index en)]}) k)
      else Ok (0, mk_info (en_index en) false) p
             (update i (set_entry j (mk_entry (en_index en) (pid p) size (segment_name (en_index en))) r)
                (segments k ∪ {[segment_name (en_index en)]}) k)
  end.
Proof.
  intros [Hh Hr] Hs. unfold jack_shmalloc. destruct (jack_get_free_shm_info r) as [j|] eqn:Ef;
    [destruct (rg_entries r !! j) as [en|] eqn:Ej|]; cbn [mbind option_bind fmap option_fmap option_map].
  - take_lock k Hs Hh Hr. rewrite Ef, Ej. unfold update. rewrite (list_insert_id _ i r Hr).
    destruct (sw_open_ok w), (sw_truncate_ok w); cbn [negb header registries bound segments sem pid prefix semadj];
      rewrite ?Hh; cbn [header registries bound segments sem pid prefix semadj]; give_lock Hh.
  - take_lock k Hs Hh Hr. rewrite Ef, Ej. give_lock Hh.
  - take_lock k Hs Hh Hr. rewrite Ef. give_lock Hh.
Qed.

(** What [jack_destroy_shm] does to the segment of an entry. *)
Lemma destroy_eq si p k i r en :
  attached p k i r -> 0 < sem k -> in_index si <> JACK_SHM_NULL_INDEX -> entry_at r (in_index si) = Some en ->
  jack_destroy_shm si p k =
  Ok tt p (update i (if en_allocator en =? pid p then release_entry (Z.to_nat (in_index si)) r else r)
             (segments k ∖ {[en_id en]}) k).
Proof.
  intros [Hh Hr] Hs Hi He. unfold jack_destroy_shm. destruct (Z.eqb_spec (in_index si) JACK_SHM_NULL_INDEX); [done|].
  unfold jack_release_shm_info, jack_release_shm_entry. take_lock k Hs Hh Hr. rewrite He.
  unfold entry_at in He. destruct (in_index si <? 0); [done|]. cbn [header registries]. rewrite Hh. cbn [registries]. rewrite Hr.
  cbn [header registries]. rewrite He. cbn [pid].
  destruct (en_allocator en =? pid p); cbn [sem header registries].
  - destruct (Z.leb_spec (sem k) 0); [lia|]. cbn [header registries]. rewrite Hh. cbn [registries]. rewrite Hr.
    give_lock Hh.
  - unfold update. by rewrite (list_insert_id _ i r Hr).
Qed.

(** ** Clean-up *)

Definition cleared (en : jack_shm_registry_t) : jack_shm_registry_t := mk_entry (en_index en) 0 0 "".

Definition cleaned (me : Z) (en : jack_shm_registry_t) : jack_shm_registry_t :=
  if to_destroy me en then cleared en else en.

(** The copy of an entry in use makes an address outside of the memory of
    every process. *)
Lemma release_copy_harmless r i en :
  rg_entries r !! i = Some en -> entry_ok i en -> en_allocator en <> 0 -> release_copy r en = true.
Proof.
  intros Ei [Ex Hz Hf Hu] Ha. unfold release_copy. destruct (_ =? MAP_FAILED); [done|].
  unfold entry_at. rewrite Ex. replace (Z.of_nat i <? 0) with false by lia. rewrite Nat2Z.id, Ei.
  destruct (decide (en_size en = 0)) as [E|E]; [by destruct (Hf E)|]. destruct (Hu E) as [_ En].
  unfold unmaps, copied_address. rewrite En.
  change (byte_at 0 (segment_name _)) with 47. change (byte_at 1 (segment_name _)) with 106.
  change (byte_at 2 (segment_name _)) with 97. change (byte_at 3 (segment_name _)) with 99.
  pose proof (Z.mod_pos_bound (en_size en) (2 ^ 32) ltac:(lia)). unfold user_space.
  destruct (Z.leb_spec ((en_size en) mod 2 ^ 32 + 2 ^ 32 * 47 + 2 ^ 40 * 106 + 2 ^ 48 * 97 + 2 ^ 56 * 99 + en_size en) (2 ^ 47));
    [lia|]. by rewrite andb_false_r.
Qed.

Lemma cleanup_entry_eq me r segs i en :
  rg_entries r !! i = Some en -> entry_ok i en -> (i < MAX_SHM_ID)%nat ->
  cleanup_entry me (r, segs) i =
  Some (set_entry i (cleaned me en) r, if to_destroy me en then segs ∖ {[en_id en]} else segs).
Proof.
  intros Ei He Hi. assert (Ex := eo_index i en He). unfold cleanup_entry, cleaned. rewrite Ei.
  replace (_ && negb (release_copy r en)) with false.
  2:{ symmetry. destruct (Z.eqb_spec (en_allocator en) 0) as [E|E]; cbn [negb]; [by rewrite andb_false_r|].
      rewrite (release_copy_harmless r i en Ei He E). apply andb_false_r. }
  destruct (to_destroy me en).
  - rewrite Ex. replace ((Z.of_nat i >=? 0) && (Z.of_nat i <? Z.of_nat MAX_SHM_ID)) with true by lia.
    rewrite Nat2Z.id, Ei. unfold release_entry. rewrite Ei. unfold set_entry. cbn [rg_entries rg_layout rg_server].
    rewrite list_lookup_insert_eq by (by eapply lookup_lt_Some). cbn [en_index en_id]. rewrite list_insert_insert_eq.
    unfold cleared. by rewrite Ex.
  - unfold set_entry. rewrite list_insert_id by done. by destruct r.
Qed.

Definition destroyed (me : Z) (l : list jack_shm_registry_t) : gset string :=
  list_to_set (en_id <$> filter (fun en => to_destroy me en = true) l).

Lemma cleanup_fold me r segs n :
  registry_ok r -> (n <= MAX_SHM_ID)%nat ->
  cleanup_entries me (r, segs) (seq 0 n) =
  Some (mk_registry (rg_layout r) (rg_server r) ((cleaned me <$> take n (rg_entries r)) ++ drop n (rg_entries r)),
   segs ∖ destroyed me (take n (rg_entries r))).
Proof.
  intros [_ Hl He]. unfold cleanup_entries in *. induction n as [|n IH]; intros Hn.
  - cbn. unfold destroyed. cbn. do 2 f_equal; [by destruct r|set_solver].
  - rewrite seq_S, foldl_app, IH by lia. cbn [foldl Nat.add mbind option_bind].
    destruct (lookup_lt_is_Some_2 (rg_entries r) n ltac:(rewrite Hl; lia)) as [en En].
    assert (Lt : length (cleaned me <$> take n (rg_entries r)) = n)
      by (rewrite length_fmap, length_take, Hl; lia).
    rewrite (cleanup_entry_eq me _ _ n en); [| |by apply He|lia].
    + rewrite (take_S_r _ _ _ En), fmap_app. cbn [fmap list_fmap]. rewrite (drop_S _ _ _ En). do 2 f_equal.
      * unfold set_entry. cbn [rg_layout rg_server rg_entries]. f_equal.
        rewrite insert_app_r_alt by lia. rewrite Lt, Nat.sub_diag. cbn. by rewrite <- app_assoc.
      * unfold destroyed. rewrite filter_app, fmap_app, list_to_set_app_L. rewrite filter_cons.
        destruct (to_destroy me en); [rewrite decide_True by done|rewrite decide_False by done]; cbn; set_solver.
    + cbn [rg_entries]. rewrite lookup_app_r by lia. rewrite Lt, Nat.sub_diag, lookup_drop, Nat.add_0_r. done.
Qed.

Lemma cleanup_eq p k i r :
  attached p k i r -> 0 < sem k -> registry_ok r ->
  jack_cleanup_shm p k =
  Ok 1 p (update i (mk_registry (rg_layout r) (rg_server r) (cleaned (pid p) <$> rg_entries r))
            (segments k ∖ destroyed (pid p) (rg_entries r)) k).
Proof.
  intros [Hh Hr] Hs Hok. unfold jack_cleanup_shm. take_lock k Hs Hh Hr. cbn [segments].
  rewrite (cleanup_fold (pid p) r (segments k) MAX_SHM_ID Hok (le_n _)).
  rewrite <- (ro_length r Hok), firstn_all, drop_all, app_nil_r. give_lock Hh.
Qed.

Lemma segment_name_inj a b : segment_name a = segment_name b -> a = b.
Proof. unfold segment_name. intros E. by apply (inj (String.append _)), (inj pretty) in E. Qed.

Lemma set_entry_ok r i en : registry_ok r -> entry_ok i en -> registry_ok (set_entry i en r).
Proof.
  intros [S L E] Hen. constructor; [done|by cbn; rewrite length_insert|]. intros j x. cbn.
  destruct (decide (j = i)) as [->|Hne]; [|rewrite list_lookup_insert_ne by done; apply E].
  destruct (decide (i < length (rg_entries r))%nat).
  - rewrite list_lookup_insert_eq by done. by intros [= <-].
  - rewrite list_insert_ge by lia. apply E.
Qed.

Lemma cleared_ok i en : entry_ok i en -> entry_ok i (cleared en).
Proof. intros [E _ _ _]. by constructor. Qed.

(** What a process finds where. *)
Lemma updated_attached p k i r r' segs : attached p k i r -> attached p (update i r' segs k) i r'.
Proof. intros [Hh Hr]. constructor; [done|]. cbn. apply list_lookup_insert_eq. by eapply lookup_lt_Some. Qed.

Lemma free_entry r j en :
  registry_ok r -> jack_get_free_shm_info r = Some j -> rg_entries r !! j = Some en ->
  en = mk_entry (Z.of_nat j) 0 0 "".
Proof.
  intros Hok Ef Ej. unfold jack_get_free_shm_info in Ef. apply fmap_Some in Ef as ([j' x] & Ef & ->).
  apply list_find_Some in Ef as (Ex & Hx & _). cbn [fst] in Ej. rewrite Ex in Ej. apply (inj Some) in Ej. subst x.
  destruct (ro_entries r Hok j' en Ex) as [E1 E2 E3 E4]. destruct (E3 Hx) as [E5 E6].
  destruct en as [a b c d]. cbn in *. by subst.
Qed.

(** A segment of positive size gets an entry that was unused, and no
    entry another process or segment uses changes; the allocation fails, with
    the registry as it was, only when all entries are in use or the system
    refuses the segment. *)
Theorem shmalloc_correct size si0 p k i r :
  attached p k i r -> 0 < sem k -> registry_ok r -> pid p <> 0 -> 0 < size ->
  exists ret si r' k', jack_shmalloc size si0 p k = Ok (ret, si) p k' /\ sem k' = sem k /\
    attached p k' i r' /\ registry_ok r' /\ rg_server r' = rg_server r /\
    (ret = 0 /\ (exists j, in_index si = Z.of_nat j /\ (j < MAX_SHM_ID)%nat /\
       rg_entries r !! j = Some (empty_entry j) /\
       rg_entries r' = <[j := mk_entry (Z.of_nat j) (pid p) size (segment_name (Z.of_nat j))]> (rg_entries r) /\
       segment_name (Z.of_nat j) ∈ segments k') \/
     ret = -1 /\ si = si0 /\ r' = r /\
       ((forall j en, rg_entries r !! j = Some en -> en_size en <> 0) \/ sw_open_ok w = false \/ sw_truncate_ok w = false)).
Proof.
  intros A Hs Hok Hp Hz. rewrite (shmalloc_eq size si0 p k i r A Hs).
  destruct (jack_get_free_shm_info r) as [j|] eqn:Ef; cbn [mbind option_bind].
  2:{ eexists _, _, r, k. split_and!; [done|done|done|done|done|]. right. split_and!; [done|done|done|]. left.
      intros j en Ej Hen. unfold jack_get_free_shm_info in Ef. apply fmap_None, list_find_None in Ef.
      rewrite Forall_lookup in Ef. by apply (Ef j en Ej). }
  assert (Hj : exists en, rg_entries r !! j = Some en).
  { unfold jack_get_free_shm_info in Ef. apply fmap_Some in Ef as ([j' x] & Ef & ->). apply list_find_Some in Ef as (Ex & _).
    by exists x. }
  destruct Hj as [en Ej]. rewrite Ej. cbn [fmap option_fmap option_map].
  pose proof (free_entry r j en Hok Ef Ej) as Een. rewrite Een. cbn [en_index].
  destruct (sw_open_ok w) eqn:Eo; cbn [negb].
  2:{ eexists _, _, r, k. split_and!; [done|done|done|done|done|]. right. split_and!; auto. }
  destruct (sw_truncate_ok w) eqn:Et; cbn [negb].
  2:{ eexists _, _, r, _. split_and!; [done|done|by apply (updated_attached p k i r)|done|done|]. right. split_and!; auto. }
  eexists _, _, _, _. split_and!; [done|done|by apply (updated_attached p k i r)| |done|].
  - apply set_entry_ok; [done|]. constructor; cbn; [done|lia|lia|done].
  - left. split; [done|]. exists j. split_and!; [done| |by rewrite Ej, Een|done|cbn; set_solver].
    rewrite <- (ro_length r Hok). by eapply lookup_lt_Some.
Qed.

(** What a process has allocated it can give back: registry and segment
    names are exactly as before. *)
Theorem shmalloc_destroy size si0 p k i r si k' :
  attached p k i r -> 0 < sem k -> registry_ok r -> pid p <> 0 -> 0 < size ->
  (forall j, segment_name j ∈ segments k -> exists n en, rg_entries r !! n = Some en /\ en_size en <> 0 /\ j = Z.of_nat n) ->
  jack_shmalloc size si0 p k = Ok (0, si) p k' -> jack_destroy_shm si p k' = Ok tt p k.
Proof.
  intros A Hs Hok Hp Hz Hseg E.
  rewrite (shmalloc_eq size si0 p k i r A Hs) in E. destruct (jack_get_free_shm_info r) as [j|] eqn:Ef; [|discriminate E].
  cbn [mbind option_bind] in E. destruct (rg_entries r !! j) as [en|] eqn:Ej; [|discriminate E].
  cbn [fmap option_fmap option_map] in E. destruct (sw_open_ok w), (sw_truncate_ok w); cbn [negb] in E; try discriminate E.
  pose proof (free_entry r j en Hok Ef Ej) as Een. subst en. cbn [en_index] in E. injection E as <- <-.
  set (r1 := set_entry _ _ r). set (k1 := update i r1 _ k).
  assert (A1 : attached p k1 i r1) by (by apply (updated_attached p k i r)).
  assert (Hj : (j < length (rg_entries r))%nat) by (by eapply lookup_lt_Some).
  assert (E1 : entry_at r1 (Z.of_nat j) = Some (mk_entry (Z.of_nat j) (pid p) size (segment_name (Z.of_nat j)))).
  { unfold entry_at. replace (Z.of_nat j <? 0) with false by lia. rewrite Nat2Z.id. by apply list_lookup_insert_eq. }
  rewrite (destroy_eq (mk_info (Z.of_nat j) false) p k1 i r1 _ A1 Hs ltac:(cbn; unfold JACK_SHM_NULL_INDEX; lia) E1).
  cbn [en_allocator en_id in_index]. rewrite Z.eqb_refl, Nat2Z.id. f_equal.
  assert (Er : release_entry j r1 = r).
  { unfold release_entry, r1. cbn [rg_entries set_entry]. rewrite list_lookup_insert_eq by done. unfold set_entry.
    cbn [en_index rg_layout rg_server rg_entries]. rewrite list_insert_insert_eq.
    rewrite list_insert_id by done. by destruct r. }
  rewrite Er. unfold update, k1. cbn [registries bound segments sem update]. rewrite list_insert_insert_eq.
  rewrite (list_insert_id _ i r (at_registry p k i r A)).
  assert (Hn : segment_name (Z.of_nat j) ∉ segments k).
  { intros Hin. destruct (Hseg _ Hin) as (n & en & En & Hne & Ejn). apply Nat2Z.inj in Ejn. subst n.
    rewrite Ej in En. by injection En as <-. }
  replace ((segments k ∪ {[segment_name (Z.of_nat j)]}) ∖ {[segment_name (Z.of_nat j)]}) with (segments k) by set_solver.
  by rewrite kernel_eta.
Qed.

(** ** What clean-up leaves *)

Definition abandoned (me : Z) (en : jack_shm_registry_t) : Prop :=
  en_allocator en <> 0 /\ (en_allocator en = me \/ sw_kill w (en_allocator en) = NoSuchProcess).

Lemma to_destroy_spec me en : to_destroy me en = true <-> abandoned me en.
Proof.
  unfold to_destroy, abandoned. destruct (Z.eqb_spec (en_allocator en) 0); [naive_solver|].
  destruct (Z.eqb_spec (en_allocator en) me); [naive_solver|].
  destruct (sw_kill w (en_allocator en)); naive_solver.
Qed.

Lemma cleaned_ok me i en : entry_ok i en -> entry_ok i (cleaned me en).
Proof. unfold cleaned. destruct (to_destroy me en); [apply cleared_ok|done]. Qed.

Lemma destroyed_spec me l x : x ∈ destroyed me l <-> exists en, en ∈ l /\ abandoned me en /\ x = en_id en.
Proof.
  unfold destroyed. rewrite elem_of_list_to_set, list_elem_of_fmap. setoid_rewrite list_elem_of_filter.
  setoid_rewrite <- to_destroy_spec. naive_solver.
Qed.

(** The entries in use have names of their own. *)
Lemma used_names_distinct r i j a b :
  registry_ok r -> rg_entries r !! i = Some a -> rg_entries r !! j = Some b ->
  en_size a <> 0 -> en_size b <> 0 -> en_id a = en_id b -> i = j.
Proof.
  intros Hok Ea Eb Ha Hb E. destruct (eo_used i a (ro_entries r Hok i a Ea) Ha) as [_ Ia].
  destruct (eo_used j b (ro_entries r Hok j b Eb) Hb) as [_ Ib]. rewrite Ia, Ib in E.
  apply segment_name_inj in E. lia.
Qed.

Lemma abandoned_used r me i en :
  registry_ok r -> rg_entries r !! i = Some en -> abandoned me en -> en_size en <> 0.
Proof. intros Hok E [Ha _] Hz. by destruct (eo_free i en (ro_entries r Hok i en E) Hz). Qed.

(** C21: The clean-up frees every entry this process or a process that is gone
    has made and removes the names of their segments; every other entry stays
    as it is and keeps its segment. *)
Theorem cleanup_correct p k i r :
  attached p k i r -> 0 < sem k -> registry_ok r ->
  exists r' k', jack_cleanup_shm p k = Ok 1 p k' /\ sem k' = sem k /\ attached p k' i r' /\
    registry_ok r' /\ rg_server r' = rg_server r /\ segments k' ⊆ segments k /\
    forall j en, rg_entries r !! j = Some en ->
      (abandoned (pid p) en -> rg_entries r' !! j = Some (empty_entry j) /\ en_id en ∉ segments k') /\
      (~ abandoned (pid p) en -> rg_entries r' !! j = Some en /\
         (en_size en <> 0 -> en_id en ∈ segments k -> en_id en ∈ segments k')).
Proof.
  intros A Hs Hok. rewrite (cleanup_eq p k i r A Hs Hok). eexists _, _.
  split_and!; [done|done|by apply (updated_attached p k i r)| |done|cbn; set_solver|].
  - constructor; cbn [rg_server rg_entries]; [apply Hok|rewrite length_fmap; apply Hok|].
    intros j en. rewrite list_lookup_fmap. intros (x & Ex & ->)%fmap_Some. by apply cleaned_ok, (ro_entries r Hok).
  - intros j en Ej. cbn [rg_entries segments update]. rewrite list_lookup_fmap, Ej. cbn [fmap option_fmap option_map].
    split; intros Ha.
    + assert (Hd := Ha). apply to_destroy_spec in Hd. unfold cleaned. rewrite Hd. split.
      * unfold cleared. by rewrite (eo_index j en (ro_entries r Hok j en Ej)).
      * rewrite elem_of_difference, destroyed_spec. intros [_ []]. exists en. split_and!; [|done|done].
        by eapply list_elem_of_lookup_2.
    + unfold cleaned. destruct (to_destroy (pid p) en) eqn:Ed; [by apply to_destroy_spec in Ed|]. split; [done|].
      intros Hu Hin. rewrite elem_of_difference, destroyed_spec. split; [done|]. intros (x & Hx & Hax & E).
      apply list_elem_of_lookup in Hx as [n En].
      assert (j = n) as <-
        by (apply (used_names_distinct r j n en x Hok Ej En Hu); [by eapply abandoned_used|done]).
      naive_solver.
Qed.

(** ** Registered servers *)

Record servers_ok (l : list jack_shm_server_t) : Prop := {
  so_free : forall s, s ∈ l -> sv_pid s = 0 -> sv_name s = "";
  so_unique : forall i j s t, l !! i = Some s -> l !! j = Some t ->
    sv_name s <> "" -> sv_name s = sv_name t -> i = j
}.

Lemma scan_none me name l : Forall (fun s => sv_name s <> name) l -> scan_servers me name l = (None, l).
Proof.
  induction 1 as [|s l Hs _ IH]; [done|]. cbn. rewrite IH. by destruct (String.eqb_spec (sv_name s) name).
Qed.

Lemma servers_ok_tail s l : servers_ok (s :: l) -> servers_ok l.
Proof.
  intros [F U]. constructor; [intros t Ht; apply F; by right|].
  intros i j a b Ea Eb Hn E. by injection (U (S i) (S j) a b Ea Eb Hn E).
Qed.

(** Of the servers at most one has the name. *)
Lemma scan_servers_spec me name l :
  name <> "" -> servers_ok l ->
  Forall (fun s => sv_name s <> name) l /\ scan_servers me name l = (None, l) \/
  exists j s, l !! j = Some s /\ sv_name s = name /\ sv_pid s <> 0 /\
    scan_servers me name l =
      (if sv_pid s =? me then (Some 0, l)
       else match sw_kill w (sv_pid s) with
            | Alive => (Some EEXIST, l)
            | _ => (None, <[j := empty_server]> l)
            end).
Proof.
  intros Hn. induction l as [|s l IH]; intros Hok; [by left|]. cbn [scan_servers].
  destruct (String.eqb_spec (sv_name s) name) as [E|E]; cbn [negb].
  - right. exists 0%nat, s. split_and!; [done|done| |].
    + intros Hz. apply Hn. rewrite <- E. by apply (so_free _ Hok); [left|].
    + assert (F : Forall (fun t => sv_name t <> name) l).
      { apply Forall_lookup. intros j t Et Ht. rewrite <- E in Ht.
        by discriminate (so_unique _ Hok 0%nat (S j) s t eq_refl Et ltac:(by rewrite E) ltac:(done)). }
      rewrite (scan_none me name l F). by destruct (sv_pid s =? me), (sw_kill w (sv_pid s)).
  - destruct (IH (servers_ok_tail s l Hok)) as [[F ->]|(j & t & Et & Hnt & Hp & ->)].
    + left. split; [by constructor|done].
    + right. exists (S j), t. split_and!; [done|done|done|].
      by destruct (sv_pid t =? me), (sw_kill w (sv_pid t)).
Qed.

(** A process with the lock held, and the kernel then. *)
Definition locked (p : process) : process := mk_process (pid p) (header p) (prefix p) (semadj p + 1).
Definition lock (k : kernel) : kernel := mk_kernel (registries k) (bound k) (segments k) (sem k - 1).
Definition with_prefix (name : string) (p : process) : process :=
  mk_process (pid p) (header p) (server_prefix name) (semadj p).

Lemma register_eq name new p k i r :
  attached p k i r -> 0 < sem k ->
  jack_register_server name new p k =
  let '(early, servers) := scan_servers (pid p) (server_prefix name) (rg_server r) in
  let held := fun ret => Ok ret (locked (with_prefix name p)) (lock (update i (set_servers servers r) (segments k) k)) in
  match early, list_find (fun s => sv_pid s = 0) servers with
  | Some ret, _ => held ret
  | None, None => held ENOSPC
  | None, Some (j, _) =>
      Ok 0 (with_prefix name p)
        (update i (set_servers (<[j := mk_server (pid p) (server_prefix name)]> servers) r) (segments k) k)
  end.
Proof.
  intros [Hh Hr] Hs. unfold jack_register_server, jack_set_server_prefix, jack_server_initialize_shm. run_shm.
  cbn [header]. rewrite decide_True by (rewrite Hh; done). cbn [Z.eqb negb].
  take_lock k Hs Hh Hr. cbn [prefix].
  destruct (scan_servers _ _ (rg_server r)) as [[ret|] l]; [unfold lock, locked, with_prefix, update; by rewrite Hh|].
  destruct (list_find _ l) as [[j x]|]; cbn [header registries];
    [|unfold lock, locked, with_prefix, update; by rewrite Hh].
  cbn [header registries bound segments sem pid prefix semadj].
  rewrite list_insert_insert_eq. unfold with_prefix, update. rewrite Hh, resem. do 2 f_equal. lia.
Qed.

(** Writing an entry that was free or had the name leaves the other servers. *)
Definition others_same (name : string) (l l' : list jack_shm_server_t) : Prop :=
  forall s, sv_name s <> name -> sv_name s <> "" -> s ∈ l <-> s ∈ l'.

Lemma insert_others name l j old x :
  l !! j = Some old -> (sv_name old = name \/ sv_name old = "") -> (sv_name x = name \/ sv_name x = "") ->
  others_same name l (<[j := x]> l).
Proof.
  intros Ej Ho Hx s H1 H2. rewrite !list_elem_of_lookup. split; intros [n En]; exists n.
  - rewrite list_lookup_insert_ne; [done|]. intros <-. rewrite Ej in En. injection En as <-. naive_solver.
  - rewrite list_lookup_insert in En. destruct (decide _) as [[-> _]|]; [injection En as <-; naive_solver|done].
Qed.

Lemma insert_servers_ok l j x :
  servers_ok l -> (sv_pid x = 0 -> sv_name x = "") -> (forall s, s ∈ l -> sv_name x = "" \/ sv_name s <> sv_name x) ->
  servers_ok (<[j := x]> l).
Proof.
  intros [F U] Hx Hnew. constructor.
  - intros s Hs. apply list_elem_of_lookup in Hs as [n En]. rewrite list_lookup_insert in En.
    destruct (decide _); [by injection En as <-|]. apply F. by eapply list_elem_of_lookup_2.
  - intros a b s t Ea Eb Hn E. rewrite list_lookup_insert in Ea, Eb. destruct (decide _) as [[<- _]|], (decide _) as [[<- _]|].
    + done.
    + injection Ea as <-. destruct (Hnew t); [by eapply list_elem_of_lookup_2|done|by rewrite E in *].
    + injection Eb as <-. destruct (Hnew s); [by eapply list_elem_of_lookup_2|by rewrite E in Hn|done].
    + by apply (U a b s t).
Qed.

Lemma server_prefix_nonempty name : server_prefix name <> "".
Proof. done. Qed.

(** The array the scan leaves when it does not return. *)
Lemma scanned_ok me name l l' :
  name <> "" -> servers_ok l -> scan_servers me name l = (None, l') ->
  servers_ok l' /\ others_same name l l' /\ Forall (fun s => sv_name s <> name) l' /\
  (list_find (fun s => sv_pid s = 0) l' = None -> l' = l).
Proof.
  intros Hn Hok E. destruct (scan_servers_spec me name l Hn Hok) as [[F E']|(j & s & Ej & Hs & Hp & E')]; rewrite E' in E.
  - injection E as <-. split_and!; [done|done|done|done].
  - assert (El : l' = <[j := empty_server]> l)
      by (destruct (sv_pid s =? me); [done|]; destruct (sw_kill w (sv_pid s)); congruence).
    assert (Lj : (j < length l)%nat) by (by eapply lookup_lt_Some). subst l'. split_and!.
    + apply insert_servers_ok; [done|done|by left].
    + apply (insert_others name l j s); [done|by left|by right].
    + apply Forall_lookup. intros n t En Et. rewrite list_lookup_insert in En. destruct (decide _) as [[-> _]|Hd].
      * injection En as <-. by apply Hn.
      * apply Hd. split; [|done]. apply (so_unique l Hok j n s t Ej En); congruence.
    + intros Hf%list_find_None. rewrite Forall_lookup in Hf. exfalso.
      by apply (Hf j empty_server); [apply list_lookup_insert_eq|].
Qed.

(** Another process that lives has the name; this process has it; no place is
    left, also after clearing the place of a dead server of this name. *)
Definition name_taken (name : string) (me : Z) (l : list jack_shm_server_t) : Prop :=
  exists s, s ∈ l /\ sv_name s = name /\ sv_pid s <> me /\ sw_kill w (sv_pid s) = Alive.

Definition places_taken (name : string) (l : list jack_shm_server_t) : Prop :=
  Forall (fun s => sv_pid s <> 0 /\ sv_name s <> name) l.

(** What the registration in the array [l] returns, and what it leaves. *)
Record registration (name : string) (me : Z) (l l' : list jack_shm_server_t) (ret : Z) : Prop := {
  rn_ok : servers_ok l';
  rn_others : others_same name l l';
  rn_taken : name_taken name me l -> ret = EEXIST /\ l' = l;
  rn_full : places_taken name l -> ret = ENOSPC /\ l' = l;
  rn_done : ~ name_taken name me l -> ~ places_taken name l -> ret = 0 /\ mk_server me name ∈ l'
}.

Lemma register_in_array p k i r name new :
  attached p k i r -> 0 < sem k -> servers_ok (rg_server r) -> pid p <> 0 ->
  exists ret p' k' l', jack_register_server name new p k = Ok ret p' k' /\ header p' = Some i /\
    pid p' = pid p /\ prefix p' = server_prefix name /\
    registries k' = <[i := set_servers l' r]> (registries k) /\ bound k' = bound k /\ segments k' = segments k /\
    registration (server_prefix name) (pid p) (rg_server r) l' ret.
Proof.
  intros A Hs Hok Hp. rewrite (register_eq name new p k i r A Hs). set (n := server_prefix name).
  assert (Hn : n <> "") by apply server_prefix_nonempty. destruct A as [Hh Hr].
  destruct (scan_servers (pid p) n (rg_server r)) as [[ret|] l] eqn:E.
  - destruct (scan_servers_spec (pid p) n (rg_server r) Hn Hok) as [[_ E']|(j & s & Ej & Hsn & Hz & E')];
      rewrite E in E'; [discriminate E'|].
    assert (Hin : s ∈ rg_server r) by (by eapply list_elem_of_lookup_2).
    assert (Hfull : ~ places_taken n (rg_server r))
      by (intros F; unfold places_taken in F; rewrite Forall_forall in F; naive_solver).
    destruct (Z.eqb_spec (sv_pid s) (pid p)) as [Hme|Hme].
    + injection E' as -> ->. eexists _, _, _, _. split_and!; [done..|]. constructor; [done|done| |done|].
      * intros (t & Ht & Htn & Htp & _). exfalso. apply Htp. apply list_elem_of_lookup in Ht as [j' Ej'].
        assert (j' = j) as -> by (apply (so_unique _ Hok j' j t s Ej' Ej); congruence). congruence.
      * intros _ _. split; [done|]. by rewrite <- Hme, <- Hsn; destruct s.
    + destruct (sw_kill w (sv_pid s)) eqn:Ek; [|discriminate E'..]. injection E' as -> ->.
      eexists _, _, _, _. split_and!; [done..|]. constructor; [done..|]. intros []. by exists s.
  - destruct (scanned_ok _ _ _ _ Hn Hok E) as (Hok' & Ho & Hnone & Hfull).
    assert (Hfree : ~ name_taken n (pid p) (rg_server r)).
    { intros (t & Ht & Htn & Htp & Hl).
      destruct (scan_servers_spec (pid p) n (rg_server r) Hn Hok) as [[F _]|(j & s & Ej & Hsn & Hz & E')];
        [rewrite Forall_forall in F; by apply (F t Ht)|].
      apply list_elem_of_lookup in Ht as [j' Ej'].
      assert (j' = j) as -> by (apply (so_unique _ Hok j' j t s Ej' Ej); congruence).
      rewrite Ej in Ej'. injection Ej' as ->. rewrite E, Hl in E'.
      destruct (Z.eqb_spec (sv_pid t) (pid p)); [done|discriminate E']. }
    destruct (list_find _ l) as [[j x]|] eqn:Ef.
    + apply list_find_Some in Ef as (Ej & Hx & _). assert (Hxn : sv_name x = "")
        by (apply (so_free l Hok'); [by eapply list_elem_of_lookup_2|done]).
      eexists _, _, _, _. split_and!; [done..|]. constructor; [| |done| |].
      * apply insert_servers_ok; [done|done|]. intros s Hin. right. rewrite Forall_forall in Hnone. by apply Hnone.
      * intros s H1 H2. rewrite (Ho s H1 H2). by apply (insert_others n l j x); [done|right|left|..].
      * intros F. exfalso. unfold places_taken in F.
        assert (El : l = rg_server r).
        { rewrite scan_none in E; [by injection E|]. eapply Forall_impl; [exact F|]. by intros ? []. }
        subst l. rewrite Forall_lookup in F. by destruct (F j x Ej).
      * intros _ _. split; [done|]. apply list_elem_of_lookup_2 with j, list_lookup_insert_eq. by eapply lookup_lt_Some.
    + rewrite (Hfull eq_refl) in *. apply list_find_None in Ef.
      eexists _, _, _, _. split_and!; [done..|]. constructor; [done|done|done|done|]. intros _ [].
      unfold places_taken. apply Forall_forall. intros s Hin. rewrite Forall_forall in Ef, Hnone. split; [by apply Ef|by apply Hnone].
Qed.

(** The early returns of the registration leave the registry locked: when
    the name belongs to a live process, or to this one, nobody can allocate,
    clean up or unregister until the process exits and the kernel undoes its
    semaphore operations. *)
Theorem register_keeps_lock name new p k i r s :
  attached p k i r -> sem k = 1 -> servers_ok (rg_server r) ->
  s ∈ rg_server r -> sv_name s = server_prefix name -> sv_pid s = pid p \/ sw_kill w (sv_pid s) = Alive ->
  exists ret p' k', jack_register_server name new p k = Ok ret p' k' /\
    (sv_pid s = pid p -> ret = 0) /\ sem k' + semadj p' = sem k + semadj p /\
    forall q size si, jack_shmalloc size si q k' = Blocks /\ jack_cleanup_shm q k' = Blocks /\
      jack_unregister_server q k' = Blocks.
Proof.
  intros A Hs Hok Hin Hn Hl. rewrite (register_eq name new p k i r A ltac:(lia)).
  assert (E : exists ret, scan_servers (pid p) (server_prefix name) (rg_server r) = (Some ret, rg_server r) /\
                (sv_pid s = pid p -> ret = 0)).
  { destruct (scan_servers_spec (pid p) (server_prefix name) (rg_server r) (server_prefix_nonempty name) Hok)
      as [[F _]|(j & t & Ej & Ht & _ & ->)]; [rewrite Forall_forall in F; by apply F in Hin|].
    apply list_elem_of_lookup in Hin as [n En].
    assert (n = j) as <-
      by (apply (so_unique _ Hok n j s t En Ej); [rewrite Hn; apply server_prefix_nonempty|congruence]).
    rewrite Ej in En. injection En as ->. destruct (Z.eqb_spec (sv_pid s) (pid p)); [by eexists|].
    destruct Hl as [Hl| ->]; [done|by eexists]. }
  destruct E as (ret & -> & Hret). eexists _, _, _. split_and!; [done|done|cbn; lia|]. intros q size si.
  unfold jack_shmalloc, jack_cleanup_shm, jack_unregister_server. run_shm.
  unfold lock, update. cbn [sem]. rewrite Hs. done.
Qed.

(** ** Finding the registry *)

(** The name of the registry leads to memory. *)
Definition kernel_ok (k : kernel) : Prop := forall i, bound k = Some i -> is_Some (registries k !! i).

(** The system refuses nothing about the registry. *)
Record registry_allowed : Prop := {
  ra_access : sw_access_rc w = 0;
  ra_create : sw_create_rc w = 0;
  ra_size : sw_registry_size_rc w = 0;
  ra_map : sw_map_ok w = true
}.

Definition with_header (i : nat) (p : process) : process := mk_process (pid p) (Some i) (prefix p) (semadj p).

Lemma access_eq p k i :
  registry_allowed -> bound k = Some i -> jack_access_registry p k = Ok 0 (with_header i p) k.
Proof.
  intros [Ea _ _ Em] Eb. unfold jack_access_registry, set_header. run_shm. rewrite Eb, Ea, Em. done.
Qed.

Definition fresh_registry (k : kernel) : kernel :=
  mk_kernel (registries k ++ [init_registry]) (Some (length (registries k))) (segments k) (sem k).

(** Where no registry has the name, creating one makes fresh memory. *)
Lemma create_eq p k :
  registry_allowed -> bound k = None ->
  jack_create_registry p k = Ok 0 (with_header (length (registries k)) p) (fresh_registry k).
Proof.
  intros [_ Ec Es Em] Eb. unfold jack_create_registry, jack_shm_init_registry, set_header. rewrite Ec, Es, Em. cbn [Z.eqb negb].
  run_shm. rewrite Eb. cbn [header registries bound segments sem]. unfold with_header, fresh_registry. do 2 f_equal.
  rewrite insert_app_r_alt by lia. by rewrite Nat.sub_diag.
Qed.

(** Whatever had the name, a new registry gets it. *)
Lemma recreate_eq p k :
  registry_allowed ->
  jack_create_registry p (mk_kernel (registries k) None (segments k) (sem k)) =
  Ok 0 (with_header (length (registries k)) p) (fresh_registry k).
Proof. intros Ha. by apply (create_eq p (mk_kernel (registries k) None (segments k) (sem k)) Ha). Qed.

Lemma with_header_twice i j p : with_header i (with_header j p) = with_header i p.
Proof. done. Qed.

Lemma unlock_eq i p k :
  jack_shm_unlock_registry (with_header i (locked p)) (fresh_registry (lock k)) =
    Ok tt (with_header i p) (fresh_registry k) /\
  jack_shm_unlock_registry (with_header i (locked p)) (lock k) = Ok tt (with_header i p) k.
Proof.
  unfold jack_shm_unlock_registry, with_header, fresh_registry, lock, locked.
  split; cbn; rewrite resem, ?kernel_eta; do 2 f_equal; lia.
Qed.

(** A server attaches to the registry of this version that has the name, or
    makes a new, empty one; the lock is released. *)
Theorem server_initialize_correct new p k :
  registry_allowed -> kernel_ok k -> header p = None -> 0 < sem k ->
  exists i, new = false /\ bound k = Some i /\ jack_server_initialize_shm new p k = Ok 0 (with_header i p) k /\
      (exists r, registries k !! i = Some r /\ rg_layout r = sw_layout w) \/
    i = length (registries k) /\ jack_server_initialize_shm new p k = Ok 0 (with_header i p) (fresh_registry k).
Proof.
  intros Ha Hk Hh Hs. unfold jack_server_initialize_shm. unfold mbind, M_bind, mret, M_ret, ask.
  rewrite decide_False by (rewrite Hh; by intros []).
  replace (jack_shm_lock_registry p k) with (Ok tt (locked p) (lock k))
    by (unfold jack_shm_lock_registry; by destruct (Z.leb_spec (sem k) 0); [lia|]).
  unfold remove_registry. destruct (bound k) as [i|] eqn:Eb.
  - rewrite (access_eq (locked p) (lock k) i Ha Eb). destruct (Hk i Eb) as [r Er]. destruct new.
    + cbn [Z.eqb ENOENT Pos.eqb]. rewrite (recreate_eq _ _ Ha), with_header_twice. eexists. right.
      split; [done|]. by rewrite (proj1 (unlock_eq _ _ _)).
    + cbn [Z.eqb ENOENT Pos.eqb]. unfold jack_shm_validate_registry, get_registry, mbind, M_bind, mret, M_ret.
      cbn [header with_header registries lock]. rewrite Er. destruct (decide _) as [El|El]; cbn [Z.eqb].
      * exists i. left. split_and!; [done|done| |by eexists]. by rewrite (proj2 (unlock_eq _ _ _)).
      * rewrite (recreate_eq _ (lock k) Ha), with_header_twice. eexists. right. split; [done|].
        by rewrite (proj1 (unlock_eq _ _ _)).
  - unfold jack_access_registry, mbind, M_bind, look, mret, M_ret. cbn [bound lock]. rewrite Eb. exists (length (registries k)). right.
    split; [done|].
    destruct new; cbn [Z.eqb ENOENT Pos.eqb]; [rewrite (recreate_eq (locked p) (lock k) Ha)|rewrite (create_eq (locked p) (lock k) Ha Eb)];
      by rewrite (proj1 (unlock_eq _ _ _)).
Qed.

(** The registry a starting server uses, before the start: the one its process
    has mapped, or the one the name leads to when that is of this version, or a
    new one, in new memory unless the system denies a name it then opens. *)
Definition registry_used (new : bool) (p : process) (k : kernel) : nat * registry :=
  let fresh := (length (registries k), init_registry) in
  match header p, bound k with
  | Some i, _ => (i, default init_registry (registries k !! i))
  | None, None => fresh
  | None, Some i =>
      if new then fresh
      else if sw_access_rc w =? 0 then
        match registries k !! i with
        | Some r => if decide (rg_layout r = sw_layout w) then (i, r) else fresh
        | None => fresh
        end
      else if sw_access_rc w =? ENOENT then (i, init_registry)
      else fresh
  end.

(** Creating the registry where memory [b] has the name, or none. *)
Lemma create_cases p k b :
  (forall i, b = Some i -> is_Some (registries k !! i)) ->
  exists rc p' k', jack_create_registry p (mk_kernel (registries k) b (segments k) (sem k)) = Ok rc p' k' /\
    pid p' = pid p /\ prefix p' = prefix p /\ semadj p' = semadj p /\ segments k' = segments k /\ sem k' = sem k /\
    (rc <> 0 /\ ~ registry_allowed /\ registries k' = registries k \/
     rc = 0 /\ sw_map_ok w = true /\ header p' = Some (default (length (registries k)) b) /\
       registries k' = match b with
                       | Some i => <[i := init_registry]> (registries k)
                       | None => registries k ++ [init_registry]
                       end).
Proof.
  intros Hb. unfold jack_create_registry, remove_registry, jack_shm_init_registry, set_header. run_shm.
  destruct (Z.eqb_spec (sw_create_rc w) 0) as [E1|E1]; cbn [negb];
    [|eexists _, _, _; split_and!; [done..|left; split_and!; [done| |done]]; by intros []].
  destruct (Z.eqb_spec (sw_registry_size_rc w) 0) as [E2|E2]; cbn [negb];
    [|eexists _, _, _; split_and!; [done..|left; split_and!; [done| |done]]; by intros []].
  destruct (sw_map_ok w) eqn:E3; cbn [negb];
    [|eexists _, _, _; split_and!; [done..|left; split_and!; [done| |done]]; intros []; congruence].
  destruct b as [i|]; cbn [bound header registries]; eexists _, _, _; split_and!; try done; right; split_and!; try done.
  cbn. rewrite insert_app_r_alt by lia. by rewrite Nat.sub_diag.
Qed.

(** How the start ends: the process uses the registry [r], or nothing is
    mapped that it could use. *)
Definition started (p : process) (k : kernel) (i : nat) (r : registry) (res : result Z) : Prop :=
  exists rc p' k', res = Ok rc p' k' /\
    pid p' = pid p /\ prefix p' = prefix p /\ segments k' = segments k /\ sem k' = sem k /\
    (rc <> 0 /\ ~ registry_allowed /\ registries k' = registries k \/
     rc = 0 /\ attached p' k' i r /\ forall j, j <> i -> registries k' !! j = registries k !! j).

Lemma started_refused p k i r rc p' b :
  rc <> 0 -> ~ registry_allowed -> pid p' = pid p -> prefix p' = prefix p ->
  started p k i r
    ((_ ← jack_shm_unlock_registry; mret rc : M Z) p' (mk_kernel (registries k) b (segments k) (sem k - 1))).
Proof.
  intros Hrc Ha Hp Hx. eexists _, _, _. split; [reflexivity|]. cbn. split_and!; [done|done|done|lia|by left].
Qed.

Lemma started_create p k p' b :
  (forall i, b = Some i -> is_Some (registries k !! i)) -> pid p' = pid p -> prefix p' = prefix p ->
  started p k (default (length (registries k)) b) init_registry
    ((rc ← jack_create_registry; _ ← jack_shm_unlock_registry; mret rc : M Z) p'
       (mk_kernel (registries k) b (segments k) (sem k - 1))).
Proof.
  intros Hb Hp Hx.
  destruct (create_cases p' (mk_kernel (registries k) None (segments k) (sem k - 1)) b Hb)
    as (rc & q & k' & E & Eq & Ex & _ & Eg & Es & Hc).
  cbn [registries segments sem] in *. eexists rc, _, _.
  split; [unfold mbind, M_bind; rewrite E; reflexivity|]. cbn [pid prefix segments sem registries header].
  split_and!; [congruence|congruence|done|lia|].
  destruct Hc as [(Hrc & Ha & Er)|(Hrc & _ & Hh & Er)]; [by left|right]. split; [done|].
  destruct b as [i|]; cbn [default] in *; rewrite Er; (split; [constructor; cbn; [done|]|]).
  - apply list_lookup_insert_eq, lookup_lt_is_Some, Hb. done.
  - intros j Hj. by rewrite list_lookup_insert_ne.
  - by rewrite lookup_app_r, Nat.sub_diag by lia.
  - intros j Hj. destruct (decide (j < length (registries k))%nat); [by rewrite lookup_app_l|].
    rewrite !(proj2 (lookup_ge_None _ j)); [done|lia|rewrite length_app; cbn; lia].
Qed.

Lemma started_unmapped p k p' b i r :
  (forall i, b = Some i -> is_Some (registries k !! i)) -> pid p' = pid p -> prefix p' = prefix p -> sw_map_ok w = false ->
  started p k i r
    ((rc ← jack_create_registry; _ ← jack_shm_unlock_registry; mret rc : M Z) p'
       (mk_kernel (registries k) b (segments k) (sem k - 1))).
Proof.
  intros Hb Hp Hx Hm.
  destruct (create_cases p' (mk_kernel (registries k) None (segments k) (sem k - 1)) b Hb)
    as (rc & q & k' & E & Eq & Ex & _ & Eg & Es & Hc).
  cbn [registries segments sem] in *. eexists rc, _, _.
  split; [unfold mbind, M_bind; rewrite E; reflexivity|]. cbn [pid prefix segments sem registries header].
  split_and!; [congruence|congruence|done|lia|left]. destruct Hc as [?|(_ & Hc & _)]; [done|congruence].
Qed.

(** The start of a server, whatever the system answers. *)
Lemma server_initialize_cases new p k :
  kernel_ok k -> header p = None -> 0 < sem k ->
  started p k (registry_used new p k).1 (registry_used new p k).2 (jack_server_initialize_shm new p k).
Proof.
  intros Hk Hh Hs. unfold registry_used, jack_server_initialize_shm. rewrite Hh.
  unfold mbind at 1, M_bind at 1, ask. rewrite decide_False by (rewrite Hh; by intros []).
  unfold mbind at 1, M_bind at 1. replace (jack_shm_lock_registry p k) with (Ok tt (locked p) (lock k))
    by (unfold jack_shm_lock_registry; by destruct (Z.leb_spec (sem k) 0); [lia|]).
  assert (C0 : forall p' b, (forall i, b = Some i -> is_Some (registries k !! i)) -> pid p' = pid p -> prefix p' = prefix p ->
    started p k (default (length (registries k)) b) init_registry
      ((rc ← jack_create_registry; _ ← jack_shm_unlock_registry; mret rc : M Z) p'
         (mk_kernel (registries k) b (segments k) (sem k - 1)))) by (intros; by apply started_create).
  assert (C1 : forall i r p' b, (forall i, b = Some i -> is_Some (registries k !! i)) -> pid p' = pid p -> prefix p' = prefix p ->
    sw_map_ok w = false ->
    started p k i r
      ((rc ← jack_create_registry; _ ← jack_shm_unlock_registry; mret rc : M Z) p'
         (mk_kernel (registries k) b (segments k) (sem k - 1)))) by (intros; by apply started_unmapped).
  unfold mbind, M_bind, mret, M_ret in *. unfold jack_access_registry, look, mbind, M_bind, mret, M_ret, set_header, ask, put_process.
  unfold lock. cbn [bound registries segments sem]. destruct (bound k) as [i|] eqn:Eb; cbn [Z.eqb ENOENT Pos.eqb].
  2:{ destruct new; [apply (C0 (locked p) None)|apply (C0 (locked p) None)]; done. }
  destruct (Hk i Eb) as [r Er].
  assert (Hi : forall j, Some i = Some j -> is_Some (registries k !! j)) by (intros j [= <-]; by exists r).
  assert (N : forall j, @None nat = Some j -> is_Some (registries k !! j)) by done.
  destruct (Z.eqb_spec (sw_access_rc w) 0) as [E0|E0]; cbn [negb].
  - destruct (sw_map_ok w) eqn:Em; cbn [negb].
    + destruct new; [by apply (C0 (with_header i (locked p)) None N)|]. unfold ENOENT, EINVAL.
      unfold jack_shm_validate_registry, get_registry, mbind, M_bind, mret, M_ret. cbn [Z.eqb Pos.eqb header registries pid prefix semadj locked].
      rewrite Er. destruct (decide (rg_layout r = sw_layout w)) as [El|El]; cbn [Z.eqb].
      * eexists _, _, _. split; [reflexivity|]. cbn. split_and!; [done|done|done|lia|right].
        split_and!; [done|by constructor|done].
      * by apply (C0 (with_header i (locked p)) None N).
    + destruct new; cbn [Z.eqb ENOENT EINVAL Pos.eqb]; by apply (C1 _ _ (locked p) None N).
  - destruct new; [by apply (C0 (locked p) None N)|].
    destruct (Z.eqb_spec (sw_access_rc w) ENOENT) as [E1|E1]; [by apply (C0 (locked p) (Some i) Hi)|].
    destruct (Z.eqb_spec (sw_access_rc w) 0) as [E3|E3]; [done|].
    destruct (Z.eqb_spec (sw_access_rc w) EINVAL) as [E2|E2]; [by apply (C0 (locked p) None N)|].
    apply (started_refused p k _ _ (sw_access_rc w) (locked p) (Some i)); [done| |done|done]. by intros [].
Qed.

(** What follows the start is what a process does that has the registry mapped. *)
Lemma register_after name new p k p' k' :
  header p = None -> jack_server_initialize_shm new (with_prefix name p) k = Ok 0 p' k' ->
  is_Some (header p') -> prefix p' = server_prefix name ->
  jack_register_server name new p k = jack_register_server name new p' k'.
Proof.
  intros Hh E Hs Hx. unfold jack_register_server, jack_set_server_prefix, put_process, ask. unfold mbind, M_bind.
  change (mk_process (pid p) (header p) (server_prefix name) (semadj p)) with (with_prefix name p). rewrite E.
  replace (mk_process (pid p') (header p') (server_prefix name) (semadj p')) with p' by (rewrite <- Hx; by destruct p').
  unfold jack_server_initialize_shm, mbind, M_bind, ask, mret, M_ret. by rewrite decide_True.
Qed.

Lemma register_refused name new p k rc p' k' :
  header p = None -> jack_server_initialize_shm new (with_prefix name p) k = Ok rc p' k' -> rc <> 0 ->
  jack_register_server name new p k = Ok ENOMEM p' k'.
Proof.
  intros Hh E Hrc. unfold jack_register_server, jack_set_server_prefix, put_process, ask, mbind, M_bind.
  change (mk_process (pid p) (header p) (server_prefix name) (semadj p)) with (with_prefix name p). rewrite E.
  destruct (Z.eqb_spec rc 0); [done|]. done.
Qed.

(** C22: A server starts on the registry of this version, or makes one, and
    registers there; other registries and the segments stay.  It gets EEXIST just if another
    live process has the name,
    ENOSPC just if all places are taken and none by a server of this name,
    ENOMEM when the system gives no registry, and otherwise 0, with the name
    registered for its process; servers of other names stay in every case.  (The registry is
    not locked and its names are unique.  Names contain the user, so that a process which
    [kill] may not signal is not a server of the name.) *)
Theorem register_server_correct name new p k :
  let i := (registry_used new p k).1 in
  let r := (registry_used new p k).2 in
  kernel_ok k -> (forall j, header p = Some j -> is_Some (registries k !! j)) -> 0 < sem k -> pid p <> 0 ->
  servers_ok (rg_server r) ->
  exists ret p' k', jack_register_server name new p k = Ok ret p' k' /\
    pid p' = pid p /\ prefix p' = server_prefix name /\ segments k' = segments k /\
    (ret = ENOMEM /\ header p = None /\ ~ registry_allowed /\ registries k' = registries k \/
     (forall j, j <> i -> registries k' !! j = registries k !! j) /\
     exists l', attached p' k' i (set_servers l' r) /\
       registration (server_prefix name) (pid p) (rg_server r) l' ret).
Proof.
  intros i r Hk Hm Hs Hp Hok.
  assert (H : (exists p' k', jack_register_server name new p k = Ok ENOMEM p' k' /\ header p = None /\ ~ registry_allowed /\
               pid p' = pid p /\ prefix p' = server_prefix name /\ segments k' = segments k /\ registries k' = registries k) \/
            exists p' k', attached p' k' i r /\ 0 < sem k' /\ pid p' = pid p /\ segments k' = segments k /\
              (forall j, j <> i -> registries k' !! j = registries k !! j) /\
              jack_register_server name new p k = jack_register_server name new p' k').
  { subst i r. destruct (header p) as [i|] eqn:Hh.
    - right. exists p, k. unfold registry_used. rewrite Hh. destruct (Hm i eq_refl) as [r Er].
      split_and!; try done. constructor; [done|]. cbn. by rewrite Er.
    - destruct (server_initialize_cases new (with_prefix name p) k Hk Hh Hs) as (rc & p' & k' & E & Ep & Ex & Eg & Es & Hc).
      change (registry_used new (with_prefix name p) k) with (registry_used new p k) in Hc. cbn [pid prefix with_prefix] in Ep, Ex.
      destruct Hc as [(Hrc & Ha & Er)|(-> & A & Eo)]; [left|right]; exists p', k'.
      + split_and!; try done. by eapply register_refused.
      + split_and!; try done; [lia|]. eapply register_after; try done. by rewrite (at_header _ _ _ _ A). }
  destruct H as [(p' & k' & E & H1 & H2 & H3 & H4 & H5 & H6)|(p' & k' & A & Hs' & Ep & Eg & Eo & E')].
  { exists ENOMEM, p', k'. split_and!; [done..|by left]. }
  destruct (register_in_array p' k' i r name new A Hs' Hok ltac:(congruence))
    as (ret & q & k1 & l' & E1 & Hq & Hqp & Hqx & Er & _ & Eg' & R).
  exists ret, q, k1. split_and!; [congruence|congruence|done|congruence|right].
  rewrite Er. split; [intros j Hj; rewrite list_lookup_insert_ne by done; by apply Eo|].
  exists l'. split; [|by rewrite <- Ep]. constructor; [done|]. rewrite Er. apply list_lookup_insert_eq.
  eapply lookup_lt_Some, A.
Qed.

(** A client that finds a registry of another version is told so once: the
    next call succeeds, with the incompatible registry in use. *)
Theorem initialize_shm_twice name p k i r :
  registry_allowed -> bound k = Some i -> registries k !! i = Some r -> rg_layout r <> sw_layout w ->
  header p = None -> 0 < sem k ->
  exists p', jack_initialize_shm name p k = Ok (-1) p' k /\ jack_initialize_shm name p' k = Ok 0 p' k /\
    attached p' k i r.
Proof.
  intros Ha Eb Er El Hh Hs. exists (with_header i (with_prefix name p)).
  split_and!; [|done|by constructor].
  unfold jack_initialize_shm, jack_set_server_prefix, mbind, M_bind, mret, M_ret, ask, put_process.
  rewrite decide_False by (rewrite Hh; by intros []).
  replace (jack_shm_lock_registry _ k) with (Ok tt (locked (with_prefix name p)) (lock k))
    by (unfold jack_shm_lock_registry; by destruct (Z.leb_spec (sem k) 0); [lia|]).
  rewrite (access_eq _ (lock k) i Ha Eb). cbn [Z.eqb].
  unfold jack_shm_validate_registry, get_registry, mbind, M_bind, mret, M_ret.
  cbn [header with_header registries lock]. rewrite Er, decide_False by done.
  by rewrite (proj2 (unlock_eq _ _ _)).
Qed.

End shm.

(** ** A machine with one registry *)

(** Process 42 starts where process 7 has died and process 100 runs. *)
Definition w0 : shm_world :=
  mk_shm_world (fun q => if q =? 7 then NoSuchProcess else Alive) 0 0 0 true true true true true
    (mk_layout JACK_SHM_MAGIC 24 shm_POSIX 71000 2100 268) "1000".

Definition p0 : process := mk_process 42 (Some 0%nat) "" 0.

Definition r0 : registry :=
  set_entry 1 (mk_entry 1 100 4096 (segment_name 1)) (set_entry 0 (mk_entry 0 7 512 (segment_name 0)) (init_registry w0)).

Definition k0 : kernel := mk_kernel [r0] (Some 0%nat) {[segment_name 0; segment_name 1]} 1.

(** The registry with a server on the default name. *)
Definition named (q : Z) : registry :=
  set_servers (<[0%nat := mk_server q (server_prefix w0 "default")]> (replicate MAX_SERVERS empty_server)) r0.

Definition k_named (q : Z) : kernel := mk_kernel [named q] (Some 0%nat) {[segment_name 0; segment_name 1]} 1.

Lemma r0_ok : registry_ok r0.
Proof.
  unfold r0. apply set_entry_ok; [apply set_entry_ok; [apply init_registry_ok|]|];
    constructor; cbn [en_index en_size en_allocator en_id]; lia || done.
Qed.

Lemma named_ok q : q <> 0 -> servers_ok (rg_server (named q)).
Proof.
  intros Hq. apply insert_servers_ok; [|done|].
  - constructor; [by intros s [-> _]%elem_of_replicate|].
    by intros i j s t [-> _]%lookup_replicate_1 [-> _]%lookup_replicate_1.
  - intros s [-> _]%elem_of_replicate. by right.
Qed.

Lemma shmalloc_correct_witness :
  exists ret si k', jack_shmalloc w0 8192 (mk_info JACK_SHM_NULL_INDEX false) p0 k0 = Ok (ret, si) p0 k' /\ sem k' = 1.
Proof.
  destruct (shmalloc_correct w0 8192 (mk_info JACK_SHM_NULL_INDEX false) p0 k0 0 r0) as (ret & si & r' & k' & E & Es & _);
    [by constructor|done|apply r0_ok|done|done|]. by exists ret, si, k'.
Defined.

Lemma shmalloc_destroy_witness :
  exists si k', jack_shmalloc w0 8192 (mk_info JACK_SHM_NULL_INDEX false) p0 k0 = Ok (0, si) p0 k' /\
    in_index si = 2 /\ jack_destroy_shm si p0 k' = Ok tt p0 k0.
Proof.
  eexists _, _. split; [rewrite (shmalloc_eq w0 _ _ p0 k0 0 r0); [reflexivity|by constructor|done]|]. split; [reflexivity|].
  apply (shmalloc_destroy w0 8192 (mk_info JACK_SHM_NULL_INDEX false) p0 k0 0 r0); [by constructor|done|apply r0_ok|done|done| |].
  - intros j. cbn [segments k0]. rewrite elem_of_union, !elem_of_singleton.
    intros [E|E]; apply segment_name_inj in E; subst j; [exists 0%nat|exists 1%nat]; eexists; split_and!; done.
  - rewrite (shmalloc_eq w0 _ _ p0 k0 0 r0); [reflexivity|by constructor|done].
Defined.

Lemma cleanup_correct_witness :
  exists r' k', jack_cleanup_shm w0 p0 k0 = Ok 1 p0 k' /\ attached p0 k' 0 r' /\
    rg_entries r' !! 0%nat = Some (empty_entry 0) /\ (segment_name 0 ∉ segments k') /\
    rg_entries r' !! 1%nat = Some (mk_entry 1 100 4096 (segment_name 1)) /\ segment_name 1 ∈ segments k'.
Proof.
  destruct (cleanup_correct w0 p0 k0 0 r0) as (r' & k' & E & _ & A & _ & _ & _ & H); [by constructor|done|apply r0_ok|].
  destruct (H 0%nat (mk_entry 0 7 512 (segment_name 0)) eq_refl) as [[H1 H2] _]; [split; [done|by right]|].
  destruct (H 1%nat (mk_entry 1 100 4096 (segment_name 1)) eq_refl) as [_ [H3 H4]]; [intros [_ [?|?]]; discriminate|].
  exists r', k'. split_and!; [exact E|exact A|exact H1|exact H2|exact H3|apply H4; [discriminate|]].
  cbn [segments k0 en_id]. set_solver.
Defined.

(** A process that has nothing mapped takes over the name of the dead process 7. *)
Lemma register_server_correct_witness :
  exists p' k' l', jack_register_server w0 "default" false (mk_process 42 None "" 0) (k_named 7) = Ok 0 p' k' /\
    attached p' k' 0 (set_servers l' (named 7)) /\ mk_server 42 (server_prefix w0 "default") ∈ l'.
Proof.
  destruct (register_server_correct w0 "default" false (mk_process 42 None "" 0) (k_named 7)) as (ret & p' & k' & E & _ & _ & _ & H);
    [by intros i [= <-]; eexists|done|done|done|by apply named_ok|].
  destruct H as [(_ & _ & Ha & _)|(_ & l' & A & R)]; [by destruct Ha|].
  destruct (rn_done _ _ _ _ _ _ R) as [-> Hin]; [| |by exists p', k', l'].
  - intros (s & Hs & Hn & _ & Hl). change (s ∈ mk_server 7 (server_prefix w0 "default") :: replicate 7 empty_server) in Hs.
    apply elem_of_cons in Hs as [->|[-> _]%elem_of_replicate]; done.
  - intros F. by destruct (Forall_lookup_1 _ _ 0 (mk_server 7 (server_prefix w0 "default")) F).
Defined.

(** A stale entry with the id this process has now. *)
Lemma register_keeps_lock_witness :
  exists p' k', jack_register_server w0 "default" false p0 (k_named 42) = Ok 0 p' k' /\
    jack_cleanup_shm w0 p' k' = Blocks.
Proof.
  destruct (register_keeps_lock w0 "default" false p0 (k_named 42) 0 (named 42) (mk_server 42 (server_prefix w0 "default")))
    as (ret & p' & k' & E & Hr & _ & H); [by constructor|done|by apply named_ok| |done|by left|].
  - by apply list_elem_of_lookup_2 with 0%nat.
  - rewrite (Hr eq_refl) in E. exists p', k'. split; [done|apply (H p' 0 (mk_info 0 false))].
Defined.

End Shm.
