(* ===== verification/NetPacket.v ===== *)
(** * Packets of the network driver (drivers/netjack/netjack_packet.c)

    One packet per period goes over UDP.  The sender cuts it into datagrams of
    at most [mtu] bytes, each with the header of the packet and a fragment
    number; the receiver puts the fragments, which come in any order, together
    in a cache of packets.  Memory is a list of bytes on a little-endian host;
    [None] is an access outside of a block, or a loop that does not end. *)

From S2P Require Import Prelude Bytes.

Local Open Scope Z_scope.

Module NetPacket.

(** ** The header *)

(** [struct _jacknet_packet_header]: fourteen words. *)
Definition HEADER_FIELDS : nat := 14.
Definition sizeof_header : Z := 56.
Definition off_framecnt : Z := 36.
Definition off_fragment_nr : Z := 52.

Definition JACK_MAX_FRAMES : Z := 4294967295.
Definition CELT_MODE : Z := 1000.

(** [ntohl] and [htonl] of a little-endian host. *)
Definition ntohl (z : Z) : Z := le_value (rev (le_bytes 4 z)).
Definition htonl (z : Z) : Z := ntohl z.

Definition get_net (m : list Z) (off : Z) : Z := ntohl (get_le m off 4).
Definition put_net (m : list Z) (off v : Z) : list Z := put_le m off 4 (htonl v).

Definition packet_header_hton (m : list Z) : list Z :=
  foldl (fun m i => put_le m (4 * Z.of_nat i) 4 (htonl (get_le m (4 * Z.of_nat i) 4))) m (seq 0 HEADER_FIELDS).

Definition packet_header_ntoh (m : list Z) : list Z :=
  foldl (fun m i => put_le m (4 * Z.of_nat i) 4 (ntohl (get_le m (4 * Z.of_nat i) 4))) m (seq 0 HEADER_FIELDS).

Definition get_sample_size (bitdepth : Z) : Z :=
  if bitdepth =? 8 then 1 else if bitdepth =? 16 then 2 else if bitdepth =? CELT_MODE then 1 else 4.

(** ** The cache *)

Record cache_packet := mk_packet {
  valid : bool;
  num_fragments : Z;
  packet_size : Z;
  pk_mtu : Z;
  recv_timestamp : Z;
  framecnt : Z;
  fragment_array : list Z;
  packet_buf : list Z
}.

Record packet_cache := mk_cache {
  packets : list cache_packet;
  pc_mtu : Z;
  master_address : list Z;
  master_address_valid : bool;
  last_framecnt_retreived : Z;
  last_framecnt_retreived_valid : bool
}.

Definition set_packets (l : list cache_packet) (pc : packet_cache) : packet_cache :=
  mk_cache l (pc_mtu pc) (master_address pc) (master_address_valid pc)
    (last_framecnt_retreived pc) (last_framecnt_retreived_valid pc).

Definition set_last (f : Z) (v : bool) (pc : packet_cache) : packet_cache :=
  mk_cache (packets pc) (pc_mtu pc) (master_address pc) (master_address_valid pc) f v.

Definition set_master (a : list Z) (v : bool) (pc : packet_cache) : packet_cache :=
  mk_cache (packets pc) (pc_mtu pc) a v (last_framecnt_retreived pc) (last_framecnt_retreived_valid pc).

(** [memcpy]; the length is a [size_t]. *)
Definition memcpy (dst : list Z) (off : Z) (src : list Z) (soff n : Z) : option (list Z) :=
  if (off + n <=? zlen dst) && (soff + n <=? zlen src) then Some (store_n dst off (load_n src soff n)) else None.

Definition set_fragment (l : list Z) (i : Z) : option (list Z) :=
  if i <? zlen l then Some (<[Z.to_nat i := 1]> l) else None.

(** ** Making a cache *)

(** [malloc]: the block of the i-th packet, with what is in it. *)
Record heap := mk_heap {
  heap_cache : bool;
  heap_fragments : nat -> Z -> option (list Z);
  heap_buffer : nat -> Z -> option (list Z);
  heap_address : list Z;
  heap_timestamp : Z
}.

(** Division of [size_t]; the result is an [int]. *)
Definition fragment_number (pkt_size mtu : Z) : Z :=
  let fragment_payload_size := s32 (u64 (mtu - sizeof_header)) in
  if u64 pkt_size =? sizeof_header then 1
  else s32 (u64 (u64 (u64 pkt_size - sizeof_header - 1) / u64 fragment_payload_size + 1)).

Fixpoint new_packets (h : heap) (pkt_size mtu : Z) (i n : nat) : option (list cache_packet) :=
  match n with
  | O => Some []
  | S n =>
      let fn := fragment_number pkt_size mtu in
      match heap_fragments h i fn, heap_buffer h i pkt_size with
      | Some fa, Some buf =>
          l ← new_packets h pkt_size mtu (S i) n;
          Some (mk_packet false fn pkt_size mtu (heap_timestamp h) 0 fa buf :: l)
      | _, _ => None
      end
  end.

(** [None] when [malloc] fails. *)
Definition packet_cache_new (h : heap) (num_packets : nat) (pkt_size mtu : Z) : option packet_cache :=
  if heap_cache h then
    l ← new_packets h pkt_size mtu 0 num_packets;
    Some (mk_cache l mtu (heap_address h) false 0 false)
  else None.

(** ** Packets in the cache *)

Definition clear_fragments (pk : cache_packet) : list Z :=
  store_n (fragment_array pk) 0 (replicate (Z.to_nat (num_fragments pk)) 0).

Definition cache_packet_reset (pk : cache_packet) : cache_packet :=
  mk_packet false (num_fragments pk) (packet_size pk) (pk_mtu pk) (recv_timestamp pk) (framecnt pk)
    (clear_fragments pk) (packet_buf pk).

Definition cache_packet_set_framecnt (f : Z) (pk : cache_packet) : cache_packet :=
  mk_packet true (num_fragments pk) (packet_size pk) (pk_mtu pk) (recv_timestamp pk) f
    (clear_fragments pk) (packet_buf pk).

Definition set_content (fa buf : list Z) (pk : cache_packet) : cache_packet :=
  mk_packet (valid pk) (num_fragments pk) (packet_size pk) (pk_mtu pk) (recv_timestamp pk) (framecnt pk) fa buf.

(** The sizes mix [uint32_t], [int] and [size_t]. *)
Definition cache_packet_add_fragment (pk : cache_packet) (rx : list Z) (rcv_len : Z) : option cache_packet :=
  let fragment_payload_size := s32 (u64 (pk_mtu pk - sizeof_header)) in
  let fragment_nr := get_net rx off_fragment_nr in
  if negb (get_net rx off_framecnt =? framecnt pk) then Some pk
  else if fragment_nr =? 0 then
    buf ← memcpy (packet_buf pk) 0 rx 0 (u64 rcv_len);
    fa ← set_fragment (fragment_array pk) 0;
    Some (set_content fa buf pk)
  else if fragment_nr <? u32 (num_fragments pk) then
    if u64 (u32 (fragment_nr * fragment_payload_size + rcv_len) - sizeof_header)
         <=? u64 (packet_size pk - sizeof_header) then
      buf ← memcpy (packet_buf pk) (sizeof_header + u32 (fragment_nr * fragment_payload_size)) rx sizeof_header
              (u64 (rcv_len - sizeof_header));
      fa ← set_fragment (fragment_array pk) fragment_nr;
      Some (set_content fa buf pk)
    else Some pk
  else Some pk.

Definition cache_packet_is_complete (pk : cache_packet) : bool :=
  forallb (fun x => negb (x =? 0)) (take (Z.to_nat (num_fragments pk)) (fragment_array pk)).

Definition find_packet (pc : packet_cache) (f : Z) : option nat :=
  fst <$> list_find (fun pk => valid pk = true /\ framecnt pk = f) (packets pc).

Definition packet_cache_get_free_packet (pc : packet_cache) : option nat :=
  fst <$> list_find (fun pk => valid pk = false) (packets pc).

Definition packet_cache_get_oldest_packet (pc : packet_cache) : nat :=
  let '(_, _, retval) :=
    foldl (fun '(i, minimal_frame, retval) pk =>
             if valid pk && (framecnt pk <? minimal_frame) then (S i, framecnt pk, i) else (S i, minimal_frame, retval))
          (0%nat, JACK_MAX_FRAMES, 0%nat) (packets pc) in
  retval.

Definition update_packet (i : nat) (g : cache_packet -> cache_packet) (pc : packet_cache) : packet_cache :=
  set_packets (alter g i (packets pc)) pc.

Definition packet_cache_get_packet (pc : packet_cache) (f : Z) : nat * packet_cache :=
  match find_packet pc f with
  | Some i => (i, pc)
  | None =>
      match packet_cache_get_free_packet pc with
      | Some i => (i, update_packet i (cache_packet_set_framecnt f) pc)
      | None =>
          let i := packet_cache_get_oldest_packet pc in
          (i, update_packet i (fun pk => cache_packet_set_framecnt f (cache_packet_reset pk)) pc)
      end
  end.

(** ** Receiving *)

(** A datagram: who sent it, its bytes, and the time when it is read. *)
Record datagram := mk_datagram { dg_from : list Z; dg_bytes : list Z; dg_time : Z }.

Definition stamp (t : Z) (pk : cache_packet) : cache_packet :=
  mk_packet (valid pk) (num_fragments pk) (packet_size pk) (pk_mtu pk) t (framecnt pk) (fragment_array pk) (packet_buf pk).

(** One round of the loop of [packet_cache_drain_socket]; [rx] is the receive
    buffer with what earlier datagrams have left in it. *)
Definition receive (pc : packet_cache) (rx : list Z) (d : datagram) : option (packet_cache * list Z) :=
  let data := take (Z.to_nat (pc_mtu pc)) (dg_bytes d) in
  let rx := store_n rx 0 data in
  if master_address_valid pc && negb (bool_decide (dg_from d = master_address pc)) then Some (pc, rx)
  else
    let pc := if master_address_valid pc then pc else set_master (dg_from d) true pc in
    let f := get_net rx off_framecnt in
    if last_framecnt_retreived_valid pc && (f <=? last_framecnt_retreived pc) then Some (pc, rx)
    else
      let '(i, pc) := packet_cache_get_packet pc f in
      pk ← packets pc !! i;
      pk ← cache_packet_add_fragment pk rx (zlen data);
      Some (set_packets (<[i := stamp (dg_time d) pk]> (packets pc)) pc, rx).

(** The datagrams that wait in the socket. *)
Fixpoint packet_cache_drain_socket (pc : packet_cache) (rx : list Z) (l : list datagram) : option packet_cache :=
  match l with
  | [] => Some pc
  | d :: l => '(pc, rx) ← receive pc rx d; packet_cache_drain_socket pc rx l
  end.

Definition packet_cache_reset_master_address (pc : packet_cache) : packet_cache :=
  set_last 0 false (set_master (master_address pc) false pc).

Definition packet_cache_clear_old_packets (f : Z) (pc : packet_cache) : packet_cache :=
  set_packets ((fun pk => if valid pk && (framecnt pk <? f) then cache_packet_reset pk else pk) <$> packets pc) pc.

(** The packet, when it is there and complete; then its number is remembered. *)
Definition packet_cache_retreive_packet_pointer (pc : packet_cache) (f pkt_size : Z)
    : (Z * option (list Z * Z)) * packet_cache :=
  match find_packet pc f ≫= fun i => packets pc !! i with
  | Some pk =>
      if cache_packet_is_complete pk then ((pkt_size, Some (packet_buf pk, recv_timestamp pk)), set_last f true pc)
      else ((-1, None), pc)
  | None => ((-1, None), pc)
  end.

Definition packet_cache_release_packet (pc : packet_cache) (f : Z) : Z * packet_cache :=
  match find_packet pc f with
  | None => (-1, pc)
  | Some i =>
      match packets pc !! i with
      | Some pk =>
          if cache_packet_is_complete pk then
            (0, packet_cache_clear_old_packets f (update_packet i cache_packet_reset pc))
          else (-1, pc)
      | None => (-1, pc)
      end
  end.

(** The loop of [packet_cache_get_next_available_framecnt], with its break. *)
Fixpoint next_available (expected best_offset : Z) (found : bool) (l : list cache_packet) : option Z :=
  match l with
  | [] => if found then Some (u32 (expected + best_offset)) else None
  | pk :: l =>
      if negb (valid pk) || negb (cache_packet_is_complete pk) then next_available expected best_offset found l
      else if framecnt pk <? expected then next_available expected best_offset found l
      else
        let offset := u32 (framecnt pk - expected) in
        if best_offset <? offset then next_available expected best_offset found l
        else if offset =? 0 then Some (u32 (expected + offset))
        else next_available expected offset true l
  end.

Definition packet_cache_get_next_available_framecnt (pc : packet_cache) (expected : Z) : option Z :=
  next_available expected (JACK_MAX_FRAMES / 2 - 1) false (packets pc).

Definition packet_cache_get_highest_available_framecnt (pc : packet_cache) : option Z :=
  foldl (fun best pk =>
           if negb (valid pk) || negb (cache_packet_is_complete pk) then best
           else if framecnt pk <? default 0 best then best else Some (framecnt pk))
        None (packets pc).

Fixpoint find_latency (expected best_offset : Z) (found : bool) (l : list cache_packet) : option Z :=
  match l with
  | [] => if found then Some (u32 (JACK_MAX_FRAMES - best_offset)) else None
  | pk :: l =>
      if negb (valid pk) || negb (cache_packet_is_complete pk) then find_latency expected best_offset found l
      else
        let offset := u32 (framecnt pk - expected) in
        if offset <? best_offset then find_latency expected best_offset found l
        else if offset =? 0 then Some (u32 (JACK_MAX_FRAMES - offset))
        else find_latency expected offset true l
  end.

Definition packet_cache_find_latency (pc : packet_cache) (expected : Z) : option Z :=
  find_latency expected 0 false (packets pc).

(** ** Sending *)

(** The loop of [netjack_sendto]; [off] is [packet_bufX].  The datagrams sent
    and the state after the loop. *)
Fixpoint send_loop (fuel : nat) (buf tx : list Z) (pkt_size mtu off frag_cnt : Z)
    : option (list (list Z) * list Z * Z * Z) :=
  let payload := mtu - sizeof_header in
  if off <? pkt_size - payload then
    match fuel with
    | O => None
    | S fuel =>
        let tx := put_net tx off_fragment_nr frag_cnt in
        tx ← memcpy tx sizeof_header buf off (u64 payload);
        '(sent, tx', off', cnt) ← send_loop fuel buf tx pkt_size mtu (off + payload) (frag_cnt + 1);
        Some (load_n tx 0 mtu :: sent, tx', off', cnt)
    end
  else Some ([], tx, off, frag_cnt).

(** [tx] is the block of [mtu + 10] bytes on the stack.  The datagrams, and the
    packet, in which a packet that fits has its fragment number set. *)
Definition netjack_sendto (tx buf : list Z) (pkt_size mtu : Z) : option (list (list Z) * list Z) :=
  if pkt_size <=? mtu then
    let buf := put_net buf off_fragment_nr 0 in Some ([load_n buf 0 pkt_size], buf)
  else
    tx ← memcpy tx 0 buf 0 sizeof_header;
    '(sent, tx, off, cnt) ← send_loop (Z.to_nat pkt_size) buf tx pkt_size mtu sizeof_header 0;
    let last_payload_size := pkt_size - off in
    tx ← memcpy tx sizeof_header buf off (u64 last_payload_size);
    let tx := put_net tx off_fragment_nr cnt in
    Some (sent ++ [load_n tx 0 (last_payload_size + sizeof_header)], buf).

End NetPacket.
