(* ===== verification/NetFragments.v ===== *)
(** * Cutting packets into fragments

    What [netjack_sendto] sends: the fragments of a packet, each a header and
    a part of the payload, in order and each once. *)

From S2P Require Import Prelude Bytes NetPacket.

Local Open Scope Z_scope.

Module NetFragments.
Import NetPacket.

(** ** Byte order *)

Lemma le_bytes_range n z : Forall (fun b => 0 <= b < 256) (le_bytes n z).
Proof. revert z. induction n as [|n IH]; intros z; constructor; [apply Z.mod_pos_bound; lia|apply IH]. Qed.

Lemma le_bytes_value l : Forall (fun b => 0 <= b < 256) l -> le_bytes (length l) (le_value l) = l.
Proof.
  induction 1 as [|b l Hb _ IH]; [done|]. cbn [length le_bytes le_value].
  rewrite <- (Z.mod_unique (b + 256 * le_value l) 256 (le_value l) b) by lia.
  by rewrite <- (Z.div_unique (b + 256 * le_value l) 256 (le_value l) b), IH by lia.
Qed.

Lemma ntohl_bound z : 0 <= ntohl z < 2 ^ 32.
Proof.
  unfold ntohl. rewrite <- (le_bytes_value (rev (le_bytes 4 z))).
  - rewrite length_rev, length_le_bytes, le_value_bytes. apply Z.mod_pos_bound. lia.
  - apply Forall_rev, le_bytes_range.
Qed.

(** Conversions to and from network order are inverse. *)
Lemma ntohl_htonl z : 0 <= z < 2 ^ 32 -> ntohl (htonl z) = z.
Proof.
  intros Hz. unfold htonl, ntohl.
  pose proof (le_bytes_value (rev (le_bytes 4 z)) ltac:(apply Forall_rev, le_bytes_range)) as E.
  rewrite length_rev, length_le_bytes in E. rewrite E, rev_involutive, le_value_bytes. by apply Z.mod_small.
Qed.

Lemma get_put_net m off v : 0 <= off -> off + 4 <= zlen m -> 0 <= v < 2 ^ 32 -> get_net (put_net m off v) off = v.
Proof.
  intros. unfold get_net, put_net. rewrite get_put_same; [by apply ntohl_htonl|lia|lia|apply ntohl_bound].
Qed.

Lemma get_put_net_other m off v off' :
  0 <= off -> 0 <= off' -> off' + 4 <= off \/ off + 4 <= off' -> get_net (put_net m off v) off' = get_net m off'.
Proof. intros. unfold get_net, put_net. by rewrite get_put_other by lia. Qed.

Lemma length_put_net m off v : length (put_net m off v) = length m.
Proof. apply length_put_le. Qed.

(** ** Fragments *)

Section fragments.
Context (mtu pkt_size : Z).

Record sizes_ok : Prop := {
  sz_mtu : sizeof_header < mtu < 2 ^ 31;
  sz_pkt : sizeof_header <= pkt_size < 2 ^ 31
}.
Context (SZ : sizes_ok).

Definition payload : Z := mtu - sizeof_header.
Definition fragments : Z := if pkt_size =? sizeof_header then 1 else (pkt_size - sizeof_header - 1) / payload + 1.
Definition frag_off (j : Z) : Z := sizeof_header + j * payload.
Definition frag_len (j : Z) : Z := Z.min payload (pkt_size - frag_off j).
Definition header_of (buf : list Z) (j : Z) : list Z := put_net (load_n buf 0 sizeof_header) off_fragment_nr j.
Definition frag (buf : list Z) (j : Z) : list Z := header_of buf j ++ load_n buf (frag_off j) (frag_len j).

(** The fragments cover the payload. *)
Lemma fragments_cover :
  1 <= fragments <= 2 ^ 31 /\ (fragments - 1) * payload <= pkt_size - sizeof_header <= fragments * payload /\
  (1 < fragments -> (fragments - 1) * payload < pkt_size - sizeof_header).
Proof using SZ.
  destruct SZ as [Hm Hp]. unfold fragments. assert (0 < payload) by (unfold payload; lia).
  unfold sizeof_header in *. destruct (Z.eqb_spec pkt_size 56); [nia|].
  pose proof (Z.div_mod (pkt_size - 56 - 1) payload ltac:(lia)). pose proof (Z.mod_pos_bound (pkt_size - 56 - 1) payload ltac:(lia)).
  assert (0 <= (pkt_size - 56 - 1) / payload) by (apply Z.div_pos; lia).
  assert ((pkt_size - 56 - 1) / payload <= pkt_size - 56 - 1) by (apply Z.div_le_upper_bound; nia). split_and!; nia.
Qed.

Lemma frag_bounds j :
  0 <= j < fragments -> sizeof_header <= frag_off j /\ 0 <= frag_len j <= payload /\ frag_off j + frag_len j <= pkt_size /\
  (j < fragments - 1 -> frag_len j = payload) /\ (j = fragments - 1 -> frag_off j + frag_len j = pkt_size).
Proof using SZ.
  intros Hj. pose proof fragments_cover as (H1 & H2 & H3). assert (0 < payload) by (unfold payload; destruct SZ; lia).
  unfold frag_len, frag_off in *. split_and!; nia.
Qed.

Lemma fragment_number_eq : fragment_number pkt_size mtu = fragments.
Proof using SZ.
  destruct SZ as [Hm Hp]. pose proof fragments_cover as (H1 & H2 & H3). unfold fragment_number, fragments, payload, sizeof_header in *.
  rewrite (wrap_small 64 pkt_size) by lia. destruct (Z.eqb_spec pkt_size 56); [done|].
  rewrite (wrap_small 64 (mtu - 56)) by lia. rewrite (swrap_small 32 (mtu - 56)) by lia.
  rewrite (wrap_small 64 (mtu - 56)), (wrap_small 64 (pkt_size - 56 - 1)) by lia.
  assert ((pkt_size - 56 - 1) / (mtu - 56) <= pkt_size - 56 - 1) by (apply Z.div_le_upper_bound; nia).
  rewrite wrap_small by lia. apply swrap_small; lia.
Qed.

Lemma length_header_of buf j : zlen buf = pkt_size -> zlen (header_of buf j) = sizeof_header.
Proof using SZ.
  intros Hb. unfold header_of. rewrite length_put_net. apply length_load_n; destruct SZ; unfold sizeof_header in *; lia.
Qed.

Lemma length_frag buf j : zlen buf = pkt_size -> 0 <= j < fragments -> zlen (frag buf j) = sizeof_header + frag_len j.
Proof using SZ.
  intros Hb Hj. destruct (frag_bounds j Hj) as (? & ? & ? & _). unfold frag. rewrite length_app, Nat2Z.inj_add.
  rewrite length_header_of by done. rewrite length_load_n; unfold sizeof_header in *; lia.
Qed.

(** ** Sending *)

(** [tx] has the header of the packet, but for the fragment number. *)
Definition same_header (tx buf : list Z) : Prop := forall v, header_of tx v = header_of buf v.

Lemma memcpy_ok dst off src soff n :
  off + n <= zlen dst -> soff + n <= zlen src -> memcpy dst off src soff n = Some (store_n dst off (load_n src soff n)).
Proof using. intros. unfold memcpy. by rewrite (proj2 (Z.leb_le _ _)), (proj2 (Z.leb_le _ _)) by lia. Qed.

(** The bytes of a datagram that was put together in [tx]. *)
Lemma built_datagram tx buf v off n :
  zlen tx = mtu + 10 -> zlen buf = pkt_size -> same_header tx buf -> 0 <= off -> 0 <= n <= payload -> off + n <= pkt_size ->
  load_n (store_n (put_net tx off_fragment_nr v) sizeof_header (load_n buf off n)) 0 (sizeof_header + n) =
    header_of buf v ++ load_n buf off n /\
  same_header (store_n (put_net tx off_fragment_nr v) sizeof_header (load_n buf off n)) buf.
Proof using SZ.
  intros Ht Hb Hs Ho Hn Hp. assert (Hln : zlen (load_n buf off n) = n) by (apply length_load_n; lia).
  destruct SZ as [Hm Hq]. unfold payload, sizeof_header, off_fragment_nr in *.
  assert (E : forall m, zlen m = mtu + 10 -> load_n (store_n (put_net m 52 v) 56 (load_n buf off n)) 0 56 = put_net (load_n m 0 56) 52 v).
  { intros m Hz. rewrite load_store_other by lia. unfold put_net. apply load_put_prefix; lia. }
  split.
  - rewrite <- load_n_app by lia. rewrite (E tx Ht). change (0 + 56) with 56. f_equal; [by apply Hs|].
    rewrite <- Hln at 2. apply load_store_same; [lia|]. rewrite length_put_net. lia.
  - intros u. rewrite <- (Hs u). unfold header_of, sizeof_header, off_fragment_nr. rewrite (E tx Ht).
    unfold put_net. by rewrite put_put_same.
Qed.

Lemma send_loop_spec buf : zlen buf = pkt_size -> forall fuel tx j,
  zlen tx = mtu + 10 -> same_header tx buf -> 0 <= j <= fragments - 1 -> fragments - 1 - j <= Z.of_nat fuel ->
  exists tx', send_loop fuel buf tx pkt_size mtu (frag_off j) j =
      Some (frag buf <$> seqZ j (fragments - 1 - j), tx', frag_off (fragments - 1), fragments - 1) /\
  zlen tx' = mtu + 10 /\ same_header tx' buf.
Proof using SZ.
  intros Hb. pose proof fragments_cover as (H1 & H2 & H3). assert (Hpos : 0 < payload) by (unfold payload; destruct SZ; lia).
  induction fuel as [|fuel IH]; intros tx j Ht Hs Hj Hf.
  - assert (j = fragments - 1) as -> by lia. exists tx. unfold send_loop. fold payload.
    replace (frag_off (fragments - 1) <? pkt_size - payload) with false by (unfold frag_off in *; nia).
    by rewrite Z.sub_diag.
  - destruct (decide (j = fragments - 1)) as [->|Hne].
    + exists tx. cbn [send_loop]. fold payload.
      replace (frag_off (fragments - 1) <? pkt_size - payload) with false by (unfold frag_off in *; nia).
      by rewrite Z.sub_diag.
    + destruct (frag_bounds j ltac:(lia)) as (B1 & B2 & B3 & B4 & _). specialize (B4 ltac:(lia)). rewrite B4 in B3.
      cbn [send_loop]. fold payload.
      replace (frag_off j <? pkt_size - payload) with true by (unfold frag_off in *; nia).
      assert (Hsm : u64 payload = payload) by (apply wrap_small; destruct SZ; unfold payload, sizeof_header in *; lia).
      rewrite Hsm, memcpy_ok by (rewrite ?length_put_net; unfold payload, sizeof_header in *; lia). cbn [mbind option_bind].
      destruct (built_datagram tx buf j (frag_off j) payload Ht Hb Hs ltac:(unfold sizeof_header in *; lia) ltac:(lia) B3) as [D1 D2].
      destruct (IH (store_n (put_net tx off_fragment_nr j) sizeof_header (load_n buf (frag_off j) payload)) (j + 1))
        as (tx' & E & T1 & T2); [by rewrite length_store_n, length_put_net|done|lia|lia|].
      exists tx'. replace (frag_off j + payload) with (frag_off (j + 1)) by (unfold frag_off; lia). rewrite E. cbn [mbind option_bind].
      split; [|done]. rewrite (seqZ_cons j) by lia. rewrite fmap_cons. do 4 f_equal.
      replace (sizeof_header + payload) with mtu in D1 by (unfold payload; lia). f_equal.
      * unfold frag. by rewrite B4, <- D1.
      * do 2 f_equal; lia.
Qed.

Lemma load_all (m : list Z) n : zlen m = n -> load_n m 0 n = m.
Proof using. intros <-. unfold load_n. rewrite drop_0. apply take_ge. lia. Qed.

(** What the packet is with fragment number 0. *)
Definition numbered (buf : list Z) : list Z := put_net buf off_fragment_nr 0.

Lemma numbered_frag buf : zlen buf = pkt_size -> fragments = 1 -> numbered buf = frag buf 0.
Proof using SZ.
  intros Hb H1. destruct (frag_bounds 0 ltac:(lia)) as (_ & _ & _ & _ & B). specialize (B ltac:(lia)).
  destruct SZ as [Hm Hp]. unfold numbered, frag, header_of, frag_off, sizeof_header, off_fragment_nr, put_net in *.
  rewrite <- load_put_prefix by lia. rewrite Z.mul_0_l, Z.add_0_r in *.
  rewrite <- (load_put_other buf 52 4 (htonl 0) 56) by lia.
  change (load_n (put_le buf 52 4 (htonl 0)) 56 (frag_len 0)) with (load_n (put_le buf 52 4 (htonl 0)) (0 + 56) (frag_len 0)).
  rewrite load_n_app by lia. rewrite B. symmetry. apply load_all. rewrite length_put_le. lia.
Qed.

(** A packet is sent as its fragments, in order, each once. *)
Theorem sendto_fragments tx buf :
  zlen tx = mtu + 10 -> zlen buf = pkt_size ->
  exists buf', netjack_sendto tx buf pkt_size mtu = Some (frag buf <$> seqZ 0 fragments, buf').
Proof using SZ.
  intros Ht Hb. pose proof fragments_cover as (H1 & H2 & H3). destruct SZ as [Hm Hp]. unfold netjack_sendto.
  destruct (Z.leb_spec pkt_size mtu).
  - assert (E1 : fragments = 1) by (unfold payload, sizeof_header in *; nia). eexists. do 2 f_equal.
    rewrite E1. change (frag buf <$> seqZ 0 1) with [frag buf 0]. rewrite <- numbered_frag by done. f_equal.
    unfold numbered. apply load_all. rewrite length_put_net. lia.
  - assert (1 < fragments) by (unfold payload, sizeof_header in *; nia).
    rewrite memcpy_ok by (unfold sizeof_header in *; lia). cbn [mbind option_bind].
    destruct (send_loop_spec buf Hb (Z.to_nat pkt_size) (store_n tx 0 (load_n buf 0 sizeof_header)) 0)
      as (tx' & E & T1 & T2); [by rewrite length_store_n| |lia|unfold payload, sizeof_header in *; nia|].
    { intros v. unfold header_of. f_equal.
      pose proof (length_load_n buf 0 sizeof_header ltac:(lia) ltac:(done) ltac:(lia)) as L.
      rewrite <- L at 2. apply load_store_same; unfold sizeof_header in *; lia. }
    replace (frag_off 0) with sizeof_header in E by (unfold frag_off; lia). rewrite E. cbn [mbind option_bind].
    destruct (frag_bounds (fragments - 1) ltac:(lia)) as (B1 & B2 & B3 & _ & B5). specialize (B5 eq_refl).
    replace (pkt_size - frag_off (fragments - 1)) with (frag_len (fragments - 1)) by lia.
    rewrite (wrap_small 64 (frag_len _)) by (unfold payload, sizeof_header in *; lia).
    rewrite memcpy_ok by (unfold payload, sizeof_header in *; lia). cbn [mbind option_bind].
    eexists. do 2 f_equal. rewrite Z.sub_0_r.
    replace (seqZ 0 fragments) with (seqZ 0 (fragments - 1) ++ [fragments - 1]).
    2:{ replace (seqZ 0 fragments) with (seqZ 0 (fragments - 1 + 1)) by (f_equal; lia). by rewrite seqZ_app by lia. }
    rewrite fmap_app. f_equal. change (frag buf <$> [fragments - 1]) with [frag buf (fragments - 1)]. f_equal.
    rewrite Z.add_comm. unfold put_net. rewrite <- store_put_other by done.
    by apply (built_datagram tx' buf); try done; unfold sizeof_header in *; lia.
Qed.

End fragments.
End NetFragments.
