(* ===== verification/NetCache.v ===== *)
(** * Putting packets together

    Fragments of several packets reach the cache in any order, some of them
    twice.  The invariant [cache_inv] relates the cache to the set of datagrams
    that have arrived. *)

From S2P Require Import Prelude Bytes NetPacket NetFragments.

Local Open Scope Z_scope.

Module NetCache.
Import NetPacket NetFragments.

Lemma load_store_within (m d : list Z) off a n :
  0 <= off -> 0 <= a -> a + n <= zlen d -> off + zlen d <= zlen m ->
  load_n (store_n m off d) (off + a) n = load_n d a n.
Proof.
  intros. apply list_eq. intros i. rewrite !lookup_load_n, lookup_store_n by lia. destruct (decide _); [|done].
  rewrite decide_True by lia. f_equal. lia.
Qed.

Lemma get_net_prefix m k off : 0 <= off -> off + 4 <= k -> get_net (load_n m 0 k) off = get_net m off.
Proof. intros. unfold get_net. f_equal. apply get_le_load. rewrite load_n_prefix by lia. done. Qed.

Section cache.
Context (mtu pkt_size : Z) (SZ : sizes_ok mtu pkt_size).

Abbreviation payload := (payload mtu).
Abbreviation fragments := (fragments mtu pkt_size).
Abbreviation frag_off := (frag_off mtu).
Abbreviation frag_len := (frag_len mtu pkt_size).
Abbreviation frag := (frag mtu pkt_size).

(** ** One packet *)

Record packet_ok (pk : cache_packet) : Prop := {
  po_fragments : num_fragments pk = fragments;
  po_size : packet_size pk = pkt_size;
  po_mtu : pk_mtu pk = mtu;
  po_array : zlen (fragment_array pk) = fragments;
  po_buffer : zlen (packet_buf pk) = pkt_size
}.

Definition got (pk : cache_packet) (j : Z) : Prop := exists b, fragment_array pk !! Z.to_nat j = Some b /\ b <> 0.

(** The fragments that have arrived are those of the packet [buf]. *)
Record holds (pk : cache_packet) (buf : list Z) : Prop := {
  ho_part : forall j, 0 <= j < fragments -> got pk j ->
    load_n (packet_buf pk) (frag_off j) (frag_len j) = load_n buf (frag_off j) (frag_len j);
  ho_header : got pk 0 -> load_n (packet_buf pk) 0 sizeof_header = header_of buf 0
}.

(** The packet of a period. *)
Record packet_for (f : Z) (buf : list Z) : Prop := {
  pf_length : zlen buf = pkt_size;
  pf_framecnt : get_net buf off_framecnt = f
}.

Lemma header_numbers f buf j m :
  packet_for f buf -> 0 <= j < fragments -> load_n m 0 sizeof_header = header_of buf j ->
  get_net m off_framecnt = f /\ get_net m off_fragment_nr = j.
Proof using SZ.
  intros [Hl Hf] Hj E. pose proof (fragments_cover mtu pkt_size SZ) as (H1 & _).
  rewrite <- !(get_net_prefix m sizeof_header) by done. rewrite E. unfold header_of.
  pose proof (length_header_of mtu pkt_size SZ buf j Hl) as L. unfold header_of in L. rewrite length_put_net in L.
  unfold off_framecnt, off_fragment_nr, sizeof_header in *. split.
  - rewrite get_put_net_other by lia. rewrite get_net_prefix by lia. done.
  - apply get_put_net; lia.
Qed.

(** A datagram says which fragment of which packet it is. *)
Lemma frag_header buf j : zlen buf = pkt_size -> load_n (frag buf j) 0 sizeof_header = header_of buf j.
Proof using SZ.
  intros Hl. unfold NetFragments.frag, load_n. rewrite drop_0. apply take_app_length'.
  pose proof (length_header_of mtu pkt_size SZ buf j Hl). lia.
Qed.

Lemma frag_payload buf j :
  zlen buf = pkt_size -> 0 <= j < fragments ->
  load_n (frag buf j) sizeof_header (frag_len j) = load_n buf (frag_off j) (frag_len j).
Proof using SZ.
  intros Hl Hj. destruct (frag_bounds mtu pkt_size SZ j Hj) as (B1 & B2 & B3 & _). unfold NetFragments.frag, load_n.
  pose proof (length_header_of mtu pkt_size SZ buf j Hl). rewrite drop_app_length' by lia. rewrite take_take. f_equal. lia.
Qed.

Lemma frag_inj f f' buf buf' j j' :
  packet_for f buf -> packet_for f' buf' -> 0 <= j < fragments -> 0 <= j' < fragments ->
  frag buf j = frag buf' j' -> f = f' /\ j = j'.
Proof using SZ.
  intros P P' Hj Hj' E.
  destruct (header_numbers f buf j (frag buf j) P Hj (frag_header _ _ (pf_length _ _ P))) as [E1 E2].
  destruct (header_numbers f' buf' j' (frag buf' j') P' Hj' (frag_header _ _ (pf_length _ _ P'))) as [E3 E4].
  rewrite E in E1, E2. split; congruence.
Qed.

Lemma set_fragment_ok (l : list Z) j : 0 <= j < zlen l -> set_fragment l j = Some (<[Z.to_nat j := 1]> l).
Proof using. intros. unfold set_fragment. by rewrite (proj2 (Z.ltb_lt _ _)) by lia. Qed.

Lemma got_insert pk pk' i j :
  fragment_array pk' = <[Z.to_nat i := 1]> (fragment_array pk) -> 0 <= i < zlen (fragment_array pk) -> 0 <= j ->
  got pk' j <-> i = j \/ got pk j.
Proof using.
  intros E Hi Hj. unfold got. rewrite E. destruct (decide (i = j)) as [->|Hne].
  - rewrite list_lookup_insert_eq by lia. naive_solver.
  - rewrite list_lookup_insert_ne by lia. naive_solver.
Qed.

(** Memory after the copy of a fragment. *)
Lemma copied_holds pk fa m buf j d :
  packet_ok pk -> holds pk buf -> zlen buf = pkt_size -> 0 <= j < fragments ->
  fa = <[Z.to_nat j := 1]> (fragment_array pk) ->
  (j = 0 /\ d = frag buf 0 /\ m = store_n (packet_buf pk) 0 d \/
   0 < j /\ d = load_n buf (frag_off j) (frag_len j) /\ m = store_n (packet_buf pk) (frag_off j) d) ->
  holds (set_content fa m pk) buf.
Proof using SZ.
  intros Hok [Hp Hh] Hl Hj -> Hm. destruct (frag_bounds mtu pkt_size SZ j Hj) as (B1 & B2 & B3 & _).
  assert (Hpos : 0 < payload) by (unfold NetFragments.payload; destruct SZ; lia).
  pose proof (po_buffer pk Hok) as Lb. pose proof (po_array pk Hok) as La.
  assert (Hoff : forall x y, 0 <= x < y -> frag_off x + payload <= frag_off y) by (unfold NetFragments.frag_off; nia).
  assert (H0 : frag_off 0 = sizeof_header) by (unfold NetFragments.frag_off; lia).
  pose proof (fun x Hx => got_insert pk (set_content (<[Z.to_nat j:=1]> (fragment_array pk)) m pk) j x eq_refl
    ltac:(lia) Hx) as Hgot.
  destruct Hm as [(-> & -> & ->)|(Hj0 & -> & ->)].
  - pose proof (length_frag mtu pkt_size SZ buf 0 Hl Hj) as Lf. constructor; cbn [packet_buf set_content].
    + intros x Hx G. apply Hgot in G; [|lia]. destruct (decide (x = 0)) as [->|Hne].
      * rewrite <- (frag_payload buf 0 Hl Hj), H0. apply (load_store_within (packet_buf pk) (frag buf 0) 0 sizeof_header);
          unfold sizeof_header in *; lia.
      * destruct G as [<-|G]; [done|]. rewrite load_store_other; [by apply Hp| |specialize (Hoff 0 x)|specialize (Hoff 0 x)];
          unfold sizeof_header in *; lia.
    + intros _. rewrite <- (frag_header buf 0 Hl). apply (load_store_within (packet_buf pk) (frag buf 0) 0 0);
        unfold sizeof_header in *; lia.
  - assert (Ld : zlen (load_n buf (frag_off j) (frag_len j)) = frag_len j) by (apply length_load_n; unfold sizeof_header in *; lia).
    constructor; cbn [packet_buf set_content].
    + intros x Hx G. apply Hgot in G; [|lia]. destruct (frag_bounds mtu pkt_size SZ x Hx) as (C1 & C2 & C3 & _).
      destruct (decide (x = j)) as [->|Hne].
      * rewrite <- Ld at 2. apply load_store_same; unfold sizeof_header in *; lia.
      * destruct G as [<-|G]; [done|]. rewrite load_store_other; [by apply Hp|..]; unfold sizeof_header in *; try lia.
        destruct (decide (x < j)); [specialize (Hoff x j)|specialize (Hoff j x)]; lia.
    + intros G. apply Hgot in G; [|lia]. destruct G as [->|G]; [lia|].
      rewrite load_store_other; [by apply Hh|..]; unfold sizeof_header in *; lia.
Qed.

(** The receive buffer with a datagram in it. *)
Definition received (rx : list Z) (buf : list Z) (j : Z) : Prop :=
  zlen rx = mtu /\ load_n rx 0 (zlen (frag buf j)) = frag buf j.

Lemma received_parts rx buf j :
  zlen buf = pkt_size -> 0 <= j < fragments -> received rx buf j ->
  load_n rx 0 sizeof_header = header_of buf j /\
  load_n rx sizeof_header (frag_len j) = load_n buf (frag_off j) (frag_len j).
Proof using SZ.
  intros Hl Hj [Hx E]. pose proof (length_frag mtu pkt_size SZ buf j Hl Hj) as Lf.
  destruct (frag_bounds mtu pkt_size SZ j Hj) as (B1 & B2 & B3 & _).
  rewrite <- (frag_header buf j Hl), <- (frag_payload buf j Hl Hj), <- E, Lf.
  split; symmetry; apply load_n_prefix; unfold sizeof_header; lia.
Qed.

(** A fragment of the packet goes to its place. *)
Lemma add_fragment_ok pk rx buf j :
  packet_ok pk -> holds pk buf -> packet_for (framecnt pk) buf -> 0 <= j < fragments -> received rx buf j ->
  exists m, cache_packet_add_fragment pk rx (zlen (frag buf j)) =
      Some (set_content (<[Z.to_nat j := 1]> (fragment_array pk)) m pk) /\
    zlen m = pkt_size /\ holds (set_content (<[Z.to_nat j := 1]> (fragment_array pk)) m pk) buf.
Proof using SZ.
  intros Hok Hh Hf Hj Hr. pose proof (pf_length _ _ Hf) as Hl. destruct (received_parts rx buf j Hl Hj Hr) as [R1 R2].
  destruct (header_numbers _ buf j rx Hf Hj R1) as [E1 E2]. destruct (frag_bounds mtu pkt_size SZ j Hj) as (B1 & B2 & B3 & _).
  pose proof (fragments_cover mtu pkt_size SZ) as (F1 & _). pose proof (length_frag mtu pkt_size SZ buf j Hl Hj) as Lf.
  destruct SZ as [Sm Sp]. destruct Hr as [Hx Er]. pose proof (copied_holds pk) as Hcopy. destruct Hok as [O1 O2 O3 O4 O5].
  unfold cache_packet_add_fragment. rewrite E1, E2, Z.eqb_refl. cbn [negb]. destruct (Z.eqb_spec j 0) as [->|Hne].
  - rewrite (wrap_small 64) by (unfold NetFragments.payload, sizeof_header in *; lia).
    rewrite memcpy_ok by (unfold NetFragments.payload, sizeof_header in *; lia). rewrite Er. cbn [mbind option_bind].
    rewrite set_fragment_ok by lia. eexists. split; [done|]. rewrite length_store_n. split; [done|].
    eapply Hcopy; [by constructor|done|done|done|reflexivity|left; split_and!; reflexivity].
  - rewrite O1, O2, O3. rewrite (wrap_small 32 fragments), (proj2 (Z.ltb_lt j _)) by lia.
    assert (Es : s32 (u64 (mtu - sizeof_header)) = payload)
      by (unfold sizeof_header in *; rewrite wrap_small, swrap_small by lia; done).
    rewrite Es, Lf. assert (Eo : j * payload + (sizeof_header + frag_len j) = frag_off j + frag_len j)
      by (unfold NetFragments.frag_off; lia).
    assert (Hpos : 0 <= j * payload) by (unfold NetFragments.payload in *; nia).
    assert (Eo' : sizeof_header + j * payload = frag_off j) by (unfold NetFragments.frag_off; lia).
    rewrite Eo. unfold NetFragments.payload, sizeof_header in B1, B2, Sm, Sp |- *.
    rewrite (wrap_small 32 (frag_off j + frag_len j)), (wrap_small 64 (frag_off j + frag_len j - 56)),
      (wrap_small 64 (pkt_size - 56)) by lia.
    rewrite (proj2 (Z.leb_le _ _)) by lia. fold payload. replace (56 + frag_len j - 56) with (frag_len j) by lia.
    fold sizeof_header in Eo' |- *. unfold NetFragments.payload in *.
    rewrite (wrap_small 64), (wrap_small 32) by (unfold sizeof_header in *; lia). rewrite Eo'.
    rewrite memcpy_ok by (unfold sizeof_header in *; lia). rewrite R2. cbn [mbind option_bind].
    rewrite set_fragment_ok by lia. eexists. split; [done|]. rewrite length_store_n. split; [done|].
    eapply Hcopy; [by constructor|done|done|done|reflexivity|right; split_and!; [lia|reflexivity|reflexivity]].
Qed.

Lemma complete_spec pk :
  packet_ok pk -> cache_packet_is_complete pk = true <-> forall j, 0 <= j < fragments -> got pk j.
Proof using.
  intros [O1 _ _ O4 _]. unfold cache_packet_is_complete. rewrite O1, take_ge by lia. rewrite forallb_forall.
  setoid_rewrite <- list_elem_of_In.
  split.
  - intros H j Hj. destruct (lookup_lt_is_Some_2 (fragment_array pk) (Z.to_nat j)) as [b Eb]; [lia|].
    exists b. split; [done|]. specialize (H b (list_elem_of_lookup_2 _ _ _ Eb)). intros ->. done.
  - intros H b [n Eb]%list_elem_of_lookup. pose proof (lookup_lt_Some _ _ _ Eb).
    destruct (H (Z.of_nat n) ltac:(lia)) as (b' & Eb' & Hne). rewrite Nat2Z.id in Eb'. rewrite Eb in Eb'.
    injection Eb' as <-. by destruct (Z.eqb_spec b 0).
Qed.

(** A complete packet is the one that was sent, with fragment number 0. *)
Lemma complete_buffer pk buf :
  packet_ok pk -> holds pk buf -> zlen buf = pkt_size -> cache_packet_is_complete pk = true ->
  packet_buf pk = numbered buf.
Proof using SZ.
  intros Hok [Hp Hh] Hl Hc. pose proof (proj1 (complete_spec pk Hok) Hc) as Hall. pose proof (fragments_cover mtu pkt_size SZ) as (F1 & F2 & _).
  assert (Hpos : 0 < payload) by (unfold NetFragments.payload; destruct SZ; lia). pose proof (po_buffer pk Hok) as Lb.
  assert (En : load_n (numbered buf) 0 sizeof_header = header_of buf 0).
  { unfold numbered, header_of, put_net. apply load_put_prefix; unfold off_fragment_nr, sizeof_header; destruct SZ; unfold sizeof_header in *; lia. }
  apply list_eq. intros n. destruct (decide (Z.of_nat n < sizeof_header)).
  - pose proof (f_equal (fun l => l !! n) (eq_trans (Hh (Hall 0 ltac:(lia))) (eq_sym En))) as E. cbn beta in E.
    rewrite !lookup_load_n, !decide_True in E by lia. done.
  - destruct (decide (Z.of_nat n < pkt_size)).
    2:{ rewrite !lookup_ge_None_2; [done|unfold numbered; rewrite length_put_net; lia|lia]. }
    pose proof (Z.div_mod (Z.of_nat n - sizeof_header) payload ltac:(lia)) as D1.
    pose proof (Z.mod_pos_bound (Z.of_nat n - sizeof_header) payload ltac:(lia)) as D2.
    set (j := (Z.of_nat n - sizeof_header) / payload) in *.
    assert (Hj : 0 <= j < fragments) by nia.
    assert (Hn : frag_off j <= Z.of_nat n < frag_off j + frag_len j) by (unfold NetFragments.frag_len, NetFragments.frag_off; nia).
    destruct (frag_bounds mtu pkt_size SZ j Hj) as (B1 & _).
    assert (E : load_n (packet_buf pk) (frag_off j) (frag_len j) = load_n (numbered buf) (frag_off j) (frag_len j)).
    { rewrite (Hp j Hj (Hall j Hj)). symmetry. unfold numbered, put_net, off_fragment_nr. apply load_put_other;
        unfold sizeof_header in *; lia. }
    pose proof (f_equal (fun l => l !! (n - Z.to_nat (frag_off j))%nat) E) as E'. cbn beta in E'.
    rewrite !lookup_load_n, !decide_True in E' by (unfold sizeof_header in *; lia).
    replace (Z.to_nat (frag_off j) + (n - Z.to_nat (frag_off j)))%nat with n in E' by lia. done.
Qed.

(** ** The cache *)

Section stream.
(** The packets of the periods [F], from one master. *)
Context (F : list Z) (sent : Z -> list Z) (addr : list Z).
Context (HF : forall f, f ∈ F -> packet_for f (sent f)).

Definition holder (pc : packet_cache) (i : nat) (pk : cache_packet) : Prop := packets pc !! i = Some pk /\ valid pk = true.

Record cache_inv (seen : list (list Z)) (pc : packet_cache) : Prop := {
  ci_mtu : pc_mtu pc = mtu;
  ci_room : (length F <= length (packets pc))%nat;
  ci_ok : forall i pk, packets pc !! i = Some pk -> packet_ok pk;
  ci_master : master_address_valid pc = true -> master_address pc = addr;
  ci_last : last_framecnt_retreived_valid pc = true -> forall f, f ∈ F -> last_framecnt_retreived pc < f;
  ci_valid : forall i pk, holder pc i pk -> framecnt pk ∈ F /\ holds pk (sent (framecnt pk)) /\
    forall j, 0 <= j < fragments -> got pk j <-> frag (sent (framecnt pk)) j ∈ seen;
  ci_unique : forall i i' pk pk', holder pc i pk -> holder pc i' pk' -> framecnt pk = framecnt pk' -> i = i';
  ci_seen : forall f j, f ∈ F -> 0 <= j < fragments -> frag (sent f) j ∈ seen ->
    exists i pk, holder pc i pk /\ framecnt pk = f
}.

Lemma find_packet_spec pc f :
  match find_packet pc f with
  | Some i => exists pk, holder pc i pk /\ framecnt pk = f
  | None => forall i pk, holder pc i pk -> framecnt pk <> f
  end.
Proof using.
  unfold find_packet, holder. destruct (list_find _ _) as [[i pk]|] eqn:E; cbn.
  - apply list_find_Some in E as (E & [H1 H2] & _). eauto.
  - apply list_find_None in E. rewrite Forall_lookup in E. intros i pk [H1 H2] H3. by apply (E i pk H1).
Qed.

(** With the packets of all periods there is room for one more. *)
Lemma room_for seen pc f :
  cache_inv seen pc -> f ∈ F -> (forall i pk, holder pc i pk -> framecnt pk <> f) ->
  exists i, packet_cache_get_free_packet pc = Some i.
Proof using.
  intros I Hf Hno. unfold packet_cache_get_free_packet.
  destruct (list_find _ _) as [[i pk]|] eqn:E; [by eexists|]. exfalso. apply list_find_None in E. rewrite Forall_lookup in E.
  assert (Hv : forall i pk, packets pc !! i = Some pk -> holder pc i pk).
  { intros i pk Ei. split; [done|]. specialize (E i pk Ei). by destruct (valid pk). }
  assert (Hsub : f :: (framecnt <$> packets pc) ⊆+ F).
  { apply NoDup_submseteq.
    - apply NoDup_cons. split.
      + intros (pk & Ef & [i Ei]%list_elem_of_lookup)%list_elem_of_fmap. by apply (Hno i pk (Hv i pk Ei)).
      + apply NoDup_alt. intros a b x Ea Eb. rewrite list_lookup_fmap in Ea, Eb.
        apply fmap_Some in Ea as (pa & Ea & ->). apply fmap_Some in Eb as (pb & Eb & Eq).
        by apply (ci_unique _ _ I a b pa pb); [apply Hv|apply Hv|].
    - intros x [->|Hx]%elem_of_cons; [done|]. apply list_elem_of_fmap in Hx as (pk & -> & [i Ei]%list_elem_of_lookup).
      by apply (ci_valid _ _ I i pk), Hv. }
  apply submseteq_length in Hsub. cbn in Hsub. rewrite length_fmap in Hsub. pose proof (ci_room _ _ I). lia.
Qed.

Lemma cleared_not_got pk f j :
  packet_ok pk -> 0 <= j -> ~ got (cache_packet_set_framecnt f pk) j.
Proof using.
  intros [O1 _ _ O4 _] Hj (b & Eb & Hb). apply Hb. cbn in Eb. unfold clear_fragments in Eb.
  rewrite lookup_store_n in Eb by done. rewrite length_replicate, O1 in Eb. destruct (decide _) as [Hd|Hd].
  - by apply lookup_replicate in Eb as [-> _].
  - pose proof (lookup_lt_Some _ _ _ Eb). lia.
Qed.

Lemma set_framecnt_ok f pk : packet_ok pk -> packet_ok (cache_packet_set_framecnt f pk).
Proof using. intros [O1 O2 O3 O4 O5]. constructor; cbn; try done. unfold clear_fragments. by rewrite length_store_n. Qed.

(** Writing the packet of a period into its place. *)
Lemma replace_inv seen seen' pc i old pk f :
  cache_inv seen pc -> packets pc !! i = Some old -> (valid old = true -> framecnt old = f) ->
  (forall i' pk', holder pc i' pk' -> framecnt pk' = f -> i' = i) ->
  packet_ok pk -> valid pk = true -> framecnt pk = f -> f ∈ F -> holds pk (sent f) ->
  (forall j, 0 <= j < fragments -> got pk j <-> frag (sent f) j ∈ seen') ->
  (forall f' j, f' ∈ F -> f' <> f -> 0 <= j < fragments -> frag (sent f') j ∈ seen' <-> frag (sent f') j ∈ seen) ->
  cache_inv seen' (set_packets (<[i := pk]> (packets pc)) pc).
Proof using.
  intros [I1 I2 I3 I4 I5 I6 I7 I8] Ei Hold Hother Hok Hv <- HfF Hh Hgot Hsame.
  assert (Hi : (i < length (packets pc))%nat) by (by eapply lookup_lt_Some).
  assert (Hl : forall i' pk', holder (set_packets (<[i := pk]> (packets pc)) pc) i' pk' ->
    i' = i /\ pk' = pk \/ i' <> i /\ holder pc i' pk').
  { intros i' pk' [E V]. cbn in E. destruct (decide (i' = i)) as [->|Hne].
    - rewrite list_lookup_insert_eq in E by done. left. split; congruence.
    - rewrite list_lookup_insert_ne in E by done. by right. }
  assert (Hne : forall i' pk', i' <> i -> holder pc i' pk' -> framecnt pk' <> framecnt pk).
  { intros i' pk' Hn Hh' E. by apply Hn, (Hother i' pk'). }
  constructor; cbn [pc_mtu packets set_packets master_address master_address_valid last_framecnt_retreived
    last_framecnt_retreived_valid]; try done.
  - by rewrite length_insert.
  - intros i' pk' E. destruct (decide (i' = i)) as [->|Hn].
    + rewrite list_lookup_insert_eq in E by done. by injection E as <-.
    + rewrite list_lookup_insert_ne in E by done. by apply (I3 i').
  - intros i' pk' [[-> ->]|[Hn H]]%Hl; [done|]. destruct (I6 i' pk' H) as (H1 & H2 & H3). split_and!; [done|done|].
    intros j Hj. rewrite (H3 j Hj). symmetry. by apply Hsame; [|apply (Hne i')|].
  - intros a b pa pb [[-> ->]|[Ha H]]%Hl [[-> ->]|[Hb H']]%Hl E; [done| | |].
    + by destruct (Hne b pb Hb H').
    + by destruct (Hne a pa Ha H).
    + by apply (I7 a b pa pb).
  - intros f' j Hf' Hj Hs. destruct (decide (f' = framecnt pk)) as [->|Hn].
    + exists i, pk. split; [|done]. split; [|done]. by apply list_lookup_insert_eq.
    + apply Hsame in Hs; [|done..]. destruct (I8 f' j Hf' Hj Hs) as (i' & pk' & [E V] & Ef). exists i', pk'.
      split; [|done]. split; [|done]. cbn. rewrite list_lookup_insert_ne; [done|]. intros ->.
      rewrite Ei in E. injection E as ->. by rewrite (Hold V) in Ef.
Qed.

Lemma alter_insert {A} (g : A -> A) (l : list A) i x : l !! i = Some x -> alter g i l = <[i := g x]> l.
Proof using. revert i. induction l as [|y l IH]; intros [|i] E; cbn in *; [done|done|congruence|]. f_equal. by apply IH. Qed.

(** The fields of a cache but for its packets. *)
Definition same_rest (pc pc' : packet_cache) : Prop := pc' = set_packets (packets pc') pc.

Lemma get_packet_inv seen pc f :
  cache_inv seen pc -> f ∈ F ->
  exists i pc' pk, packet_cache_get_packet pc f = (i, pc') /\ cache_inv seen pc' /\ holder pc' i pk /\ framecnt pk = f /\
    same_rest pc pc'.
Proof using.
  intros I Hf. unfold packet_cache_get_packet. pose proof (find_packet_spec pc f) as Hs.
  destruct (find_packet pc f) as [i|].
  - destruct Hs as (pk & Hh & Ef). exists i, pc, pk. split_and!; try done. by destruct pc.
  - destruct (room_for seen pc f I Hf Hs) as [i E]. rewrite E. unfold packet_cache_get_free_packet in E.
    apply fmap_Some in E as ([i' old] & E & ->). apply list_find_Some in E as (Eo & Hv & _). cbn [fst].
    pose proof (ci_ok _ _ I _ _ Eo) as Hok.
    exists i', (update_packet i' (cache_packet_set_framecnt f) pc), (cache_packet_set_framecnt f old).
    assert (Eu : update_packet i' (cache_packet_set_framecnt f) pc =
      set_packets (<[i' := cache_packet_set_framecnt f old]> (packets pc)) pc)
      by (unfold update_packet; f_equal; by apply alter_insert).
    split_and!; [done| | |done|done].
    + rewrite Eu. apply (replace_inv seen seen pc i' old _ f I Eo); [congruence| |by apply set_framecnt_ok|done|done|done| | |done].
      * intros a b Hab E. by destruct (Hs a b Hab).
      * constructor; [intros j Hj G; by destruct (cleared_not_got old f j Hok ltac:(lia))|intros G; by destruct (cleared_not_got old f 0 Hok ltac:(lia))].
      * intros j Hj. split; [intros G; by destruct (cleared_not_got old f j Hok ltac:(lia))|].
        intros Hin. destruct (ci_seen _ _ I f j Hf Hj Hin) as (a & b & Hab & E). by destruct (Hs a b Hab).
    + rewrite Eu. split; [|done]. cbn. apply list_lookup_insert_eq. by eapply lookup_lt_Some.
Qed.

Lemma holds_stamp t pk buf : holds pk buf -> holds (stamp t pk) buf.
Proof using. by intros [H1 H2]. Qed.

(** ** Receiving *)

Lemma receive_inv seen pc rx d f j :
  cache_inv seen pc -> zlen rx = mtu -> f ∈ F -> 0 <= j < fragments -> dg_from d = addr -> dg_bytes d = frag (sent f) j ->
  exists pc' rx', receive pc rx d = Some (pc', rx') /\ cache_inv (dg_bytes d :: seen) pc' /\ zlen rx' = mtu.
Proof using SZ HF.
  intros I Hrx Hf Hj Hfrom Hb. pose proof (HF f Hf) as Pf. pose proof (pf_length _ _ Pf) as Lb.
  pose proof (length_frag mtu pkt_size SZ (sent f) j Lb Hj) as Lf. destruct (frag_bounds mtu pkt_size SZ j Hj) as (B1 & B2 & _).
  unfold receive. rewrite Hb, (ci_mtu _ _ I), take_ge by (unfold NetFragments.payload in *; lia).
  set (rx' := store_n rx 0 (frag (sent f) j)).
  assert (Hrec : received rx' (sent f) j).
  { split; [by unfold rx'; rewrite length_store_n|]. apply load_store_same; [done|]. unfold NetFragments.payload in *; lia. }
  destruct (received_parts rx' (sent f) j Lb Hj Hrec) as [R1 _]. destruct (header_numbers f (sent f) j rx' Pf Hj R1) as [E1 _].
  rewrite E1. set (pc1 := if master_address_valid pc then pc else _).
  assert (I1 : cache_inv seen pc1).
  { unfold pc1. destruct (master_address_valid pc); [done|]. destruct I as [I1 I2 I3 I4 I5 I6 I7 I8]. by constructor. }
  replace (master_address_valid pc && negb (bool_decide (dg_from d = master_address pc))) with false.
  2:{ destruct (master_address_valid pc) eqn:Em; [|done]. rewrite (ci_master _ _ I Em), bool_decide_true by done. done. }
  replace (last_framecnt_retreived_valid pc1 && (f <=? last_framecnt_retreived pc1)) with false.
  2:{ destruct (last_framecnt_retreived_valid pc1) eqn:El; [|done]. pose proof (ci_last _ _ I1 El f Hf). cbn. lia. }
  destruct (get_packet_inv seen pc1 f I1 Hf) as (i & pc2 & pk & -> & I2 & [Ei Hv] & Efc & _).
  rewrite Ei. cbn [mbind option_bind]. pose proof (ci_ok _ _ I2 i pk Ei) as Hok.
  destruct (ci_valid _ _ I2 i pk (conj Ei Hv)) as (_ & Hh & Hg). rewrite Efc in Hh, Hg.
  destruct (add_fragment_ok pk rx' (sent f) j Hok Hh) as (m & -> & Lm & Hh'); [by rewrite Efc|done|done|].
  cbn [mbind option_bind]. eexists _, _. split; [done|]. split; [|unfold rx'; by rewrite length_store_n].
  apply (replace_inv seen _ pc2 i pk _ f I2 Ei); try done.
  - intros a b Hab E. by apply (ci_unique _ _ I2 a i b pk); [|split|congruence].
  - destruct Hok as [O1 O2 O3 O4 O5]. constructor; cbn; try done. by rewrite length_insert.
  - by apply holds_stamp.
  - intros j' Hj'. rewrite elem_of_cons.
    rewrite (got_insert pk (stamp (dg_time d) (set_content (<[Z.to_nat j:=1]> (fragment_array pk)) m pk)) j j' eq_refl);
      [|rewrite (po_array pk Hok); lia|lia].
    rewrite (Hg j' Hj'). split; [|intros [E|E]; [left|by right]].
    + intros [->|E]; [by left|by right].
    + by destruct (frag_inj f f (sent f) (sent f) j' j Pf Pf Hj' Hj E).
  - intros f' j' Hf' Hne Hj'. rewrite elem_of_cons. split; [|by right]. intros [E|E]; [|done].
    by destruct (frag_inj f' f (sent f') (sent f) j' j (HF f' Hf') Pf Hj' Hj E).
Qed.

Definition is_fragment (d : datagram) : Prop :=
  dg_from d = addr /\ exists f j, f ∈ F /\ 0 <= j < fragments /\ dg_bytes d = frag (sent f) j.

Lemma drain_inv l : forall seen pc rx,
  cache_inv seen pc -> zlen rx = mtu -> (forall d, d ∈ l -> is_fragment d) ->
  exists pc', packet_cache_drain_socket pc rx l = Some pc' /\ cache_inv (rev (dg_bytes <$> l) ++ seen) pc'.
Proof using SZ HF.
  induction l as [|d l IH]; intros seen pc rx I Hrx Hl; [by exists pc|]. cbn [packet_cache_drain_socket].
  destruct (Hl d) as (Hfrom & f & j & Hf & Hj & Hb); [by left|].
  destruct (receive_inv seen pc rx d f j I Hrx Hf Hj Hfrom Hb) as (pc1 & rx1 & -> & I1 & Hrx1). cbn [mbind option_bind].
  destruct (IH _ pc1 rx1 I1 Hrx1) as (pc' & E & I'); [intros x Hx; apply Hl; by right|].
  exists pc'. split; [done|]. cbn [fmap list_fmap rev]. rewrite <- app_assoc. done.
Qed.

(** What the reader gets. *)
Lemma retreive_spec seen pc f :
  cache_inv seen pc -> f ∈ F ->
  (forall j, 0 <= j < fragments -> frag (sent f) j ∈ seen) /\
    (exists t, packet_cache_retreive_packet_pointer pc f pkt_size =
       ((pkt_size, Some (numbered (sent f), t)), set_last f true pc)) \/
  (exists j, 0 <= j < fragments /\ frag (sent f) j ∉ seen) /\
    packet_cache_retreive_packet_pointer pc f pkt_size = ((-1, None), pc).
Proof using SZ HF.
  intros I Hf. pose proof (fragments_cover mtu pkt_size SZ) as (F1 & _). unfold packet_cache_retreive_packet_pointer.
  pose proof (find_packet_spec pc f) as Hs. destruct (find_packet pc f) as [i|]; cbn [mbind option_bind].
  - destruct Hs as (pk & [Ei Hv] & <-). rewrite Ei. destruct (ci_valid _ _ I i pk (conj Ei Hv)) as (_ & Hh & Hg).
    pose proof (ci_ok _ _ I i pk Ei) as Hok. destruct (cache_packet_is_complete pk) eqn:Ec.
    + left. split; [intros j Hj; apply Hg; [done|]; by apply (proj1 (complete_spec pk Hok) Ec)|].
      exists (recv_timestamp pk). rewrite (complete_buffer pk (sent (framecnt pk))); [done..|by apply pf_length with (framecnt pk), HF|done].
    + right. split; [|done]. destruct (decide (Forall (fun j => frag (sent (framecnt pk)) j ∈ seen) (seqZ 0 fragments))) as [Ha|Ha].
      * exfalso. rewrite Forall_forall in Ha. enough (cache_packet_is_complete pk = true) by congruence.
        apply (complete_spec pk Hok). intros j Hj. apply Hg; [done|]. apply Ha, elem_of_seqZ. lia.
      * apply not_Forall_Exists in Ha; [|apply _]. apply Exists_exists in Ha as (j & Hj%elem_of_seqZ & Hn). exists j. split; [lia|done].
  - right. split; [|done]. exists 0. split; [lia|]. intros Hin. destruct (ci_seen _ _ I f 0 Hf ltac:(lia) Hin) as (a & b & Hab & E).
    by destruct (Hs a b Hab).
Qed.

End stream.

(** ** From the sender to the reader *)

(** [malloc] gives as many bytes as were asked for. *)
Record heap_ok (h : heap) : Prop := {
  hk_fragments : forall i n l, heap_fragments h i n = Some l -> zlen l = n;
  hk_buffer : forall i n l, heap_buffer h i n = Some l -> zlen l = n
}.

Lemma new_packets_ok h : heap_ok h -> forall n i l,
  new_packets h pkt_size mtu i n = Some l ->
  length l = n /\ Forall (fun pk => packet_ok pk /\ valid pk = false) l.
Proof using SZ.
  intros [H1 H2]. induction n as [|n IH]; intros i l E; cbn [new_packets] in E; [by injection E as <-|].
  destruct (heap_fragments h i _) as [fa|] eqn:Ef; [|done]. destruct (heap_buffer h i pkt_size) as [buf|] eqn:Eb; [|done].
  apply bind_Some in E as (l' & E & [= <-]). destruct (IH _ _ E) as [<- Hl]. split; [done|]. constructor; [|done].
  pose proof (fragment_number_eq mtu pkt_size SZ) as En.
  split; [|done]. constructor; cbn [num_fragments packet_size pk_mtu fragment_array packet_buf];
    [done|done|done|by rewrite <- En; apply (H1 i)|by apply (H2 i)].
Qed.

Lemma new_inv F sent addr h num pc :
  heap_ok h -> packet_cache_new h num pkt_size mtu = Some pc -> (length F <= num)%nat -> cache_inv F sent addr [] pc.
Proof using SZ.
  intros Hh E Hn. unfold packet_cache_new in E. destruct (heap_cache h); [|done].
  apply bind_Some in E as (l & E & [= <-]). destruct (new_packets_ok h Hh _ _ _ E) as [Hl Hf]. rewrite Forall_lookup in Hf.
  assert (Hno : forall i pk, ~ holder (mk_cache l mtu (heap_address h) false 0 false) i pk).
  { intros i pk [Ei Hv]. destruct (Hf i pk Ei) as [_ Hv']. congruence. }
  constructor; cbn [pc_mtu packets master_address_valid last_framecnt_retreived_valid]; try done.
  - lia.
  - intros i pk Ei. by apply (Hf i pk).
  - intros i pk Hi. by destruct (Hno i pk).
  - intros i i' pk pk' Hi. by destruct (Hno i pk).
  - intros f j _ _ Hin. by apply not_elem_of_nil in Hin.
Qed.

End cache.

(** C28: What the network driver sends it receives: when datagrams of a number
    of packets that fit into the cache arrive in any order, repeated or not,
    the reader gets exactly the packets all of whose fragments have arrived,
    with the bytes that were sent (the fragment number of the header is 0). *)
Theorem packets_reassembled mtu pkt_size h num pc tx rx F sent addr l :
  sizes_ok mtu pkt_size -> heap_ok h -> packet_cache_new h num pkt_size mtu = Some pc -> (length F <= num)%nat ->
  zlen tx = mtu + 10 -> zlen rx = mtu -> (forall f, f ∈ F -> packet_for pkt_size f (sent f)) ->
  (forall d, d ∈ l -> dg_from d = addr /\ exists f ds buf, f ∈ F /\
     netjack_sendto tx (sent f) pkt_size mtu = Some (ds, buf) /\ dg_bytes d ∈ ds) ->
  exists pc', packet_cache_drain_socket pc rx l = Some pc' /\
    forall f ds buf, f ∈ F -> netjack_sendto tx (sent f) pkt_size mtu = Some (ds, buf) ->
      (forall x, x ∈ ds -> x ∈ dg_bytes <$> l) /\
        (exists t, packet_cache_retreive_packet_pointer pc' f pkt_size =
           ((pkt_size, Some (put_net (sent f) off_fragment_nr 0, t)), set_last f true pc')) \/
      (exists x, x ∈ ds /\ x ∉ dg_bytes <$> l) /\
        packet_cache_retreive_packet_pointer pc' f pkt_size = ((-1, None), pc').
Proof.
  intros SZ Hh Hnew Hn Htx Hrx HF Hl.
  assert (Hsent : forall f ds buf, f ∈ F -> netjack_sendto tx (sent f) pkt_size mtu = Some (ds, buf) ->
    ds = NetFragments.frag mtu pkt_size (sent f) <$> seqZ 0 (NetFragments.fragments mtu pkt_size)).
  { intros f ds buf Hf E. destruct (sendto_fragments mtu pkt_size SZ tx (sent f) Htx (pf_length _ _ _ (HF f Hf))) as [buf' E'].
    rewrite E in E'. by injection E' as ->. }
  pose proof (new_inv mtu pkt_size SZ F sent addr h num pc Hh Hnew Hn) as I.
  destruct (drain_inv mtu pkt_size SZ F sent addr HF l [] pc rx I Hrx) as (pc' & E & I').
  { intros d Hd. destruct (Hl d Hd) as (Ha & f & ds & buf & Hf & Hs & Hin). split; [done|].
    rewrite (Hsent f ds buf Hf Hs) in Hin. apply list_elem_of_fmap in Hin as (j & Ej & Hj%elem_of_seqZ).
    exists f, j. split_and!; [done|lia|lia|done]. }
  exists pc'. split; [done|]. intros f ds buf Hf Hs. rewrite (Hsent f ds buf Hf Hs).
  assert (Hrev : forall x, x ∈ rev (dg_bytes <$> l) ++ [] <-> x ∈ dg_bytes <$> l).
  { intros x. rewrite app_nil_r, !list_elem_of_In. symmetry. apply in_rev. }
  destruct (retreive_spec mtu pkt_size SZ F sent addr HF _ pc' f I' Hf) as [[Ha Ht]|[(j & Hj & Hno) Ht]]; [left|right]; (split; [|done]).
  - intros x (j & -> & Hj%elem_of_seqZ)%list_elem_of_fmap. apply Hrev, Ha. lia.
  - exists (NetFragments.frag mtu pkt_size (sent f) j). split; [|by rewrite <- Hrev]. apply list_elem_of_fmap. exists j.
    split; [done|]. apply elem_of_seqZ. lia.
Qed.
(** ** The next packet *)

Definition ready (pk : cache_packet) : Prop := valid pk = true /\ cache_packet_is_complete pk = true.

Lemma next_available_spec e l : forall best found,
  0 <= best -> e + best < 2 ^ 32 \/ found = false -> 0 <= e < 2 ^ 32 -> Forall (fun pk => 0 <= framecnt pk < 2 ^ 32) l ->
  match next_available e best found l with
  | Some f => e <= f <= e + best /\ (found = true /\ f = e + best \/ exists pk, pk ∈ l /\ ready pk /\ framecnt pk = f) /\
      forall pk, pk ∈ l -> ready pk -> e <= framecnt pk -> f <= framecnt pk
  | None => found = false /\ forall pk, pk ∈ l -> ready pk -> e <= framecnt pk -> best < framecnt pk - e
  end.
Proof.
  induction l as [|pk l IH]; intros best found Hb Hov He Hl; cbn [next_available].
  - destruct found; [|split; [done|]; by intros pk ?%not_elem_of_nil].
    rewrite wrap_small by (destruct Hov; [lia|done]). split_and!; [lia|lia|by left|by intros pk ?%not_elem_of_nil].
  - apply Forall_cons in Hl as [Hk Hl].
    assert (Hskip : (ready pk -> e <= framecnt pk -> best < framecnt pk - e) ->
      match next_available e best found l with
      | Some f => e <= f <= e + best /\ (found = true /\ f = e + best \/ exists pk', pk' ∈ pk :: l /\ ready pk' /\ framecnt pk' = f) /\
          forall pk', pk' ∈ pk :: l -> ready pk' -> e <= framecnt pk' -> f <= framecnt pk'
      | None => found = false /\ forall pk', pk' ∈ pk :: l -> ready pk' -> e <= framecnt pk' -> best < framecnt pk' - e
      end).
    { intros Hno. specialize (IH best found Hb Hov He Hl). destruct (next_available e best found l) as [f|].
      - destruct IH as (H1 & H2 & H3). split_and!; [lia|lia| |].
        + destruct H2 as [H2|(x & Hx & Hr)]; [by left|right; exists x; split; [by right|done]].
        + intros x [->|Hx]%elem_of_cons Hr Hge; [specialize (Hno Hr Hge); lia|by apply H3].
      - destruct IH as [H1 H2]. split; [done|]. intros x [->|Hx]%elem_of_cons Hr Hge; [by apply Hno|by apply H2]. }
    destruct (valid pk) eqn:Ev; [|apply Hskip; intros [? _]; congruence].
    destruct (cache_packet_is_complete pk) eqn:Ec; [|apply Hskip; intros [_ ?]; congruence]. cbn [negb orb].
    destruct (Z.ltb_spec (framecnt pk) e); [apply Hskip; lia|]. rewrite (wrap_small 32 (framecnt pk - e)) by lia.
    destruct (Z.ltb_spec best (framecnt pk - e)); [apply Hskip; lia|]. clear Hskip.
    destruct (Z.eqb_spec (framecnt pk - e) 0).
    + rewrite wrap_small by lia. split_and!; [lia|lia|right; exists pk; split_and!; [by left|done|lia]|].
      intros x _ _ Hge. lia.
    + specialize (IH (framecnt pk - e) true ltac:(lia) ltac:(lia) He Hl).
      destruct (next_available e _ true l) as [f|]; [|by destruct IH].
      destruct IH as (H1 & H2 & H3). split_and!; [lia|lia| |].
      * right. destruct H2 as [[_ ->]|(x & Hx & Hr)]; [exists pk; split_and!; [by left|done|lia]|].
        exists x. split; [by right|done].
      * intros x [->|Hx]%elem_of_cons Hr Hge; [lia|by apply H3].
Qed.

(** The next available frame count is the smallest one, not below the
    expected one, of the packets that are complete; there is none only if all
    complete packets are old or half the range of the counter ahead. *)
Theorem next_available_correct pc e :
  0 <= e < 2 ^ 32 -> Forall (fun pk => 0 <= framecnt pk < 2 ^ 32) (packets pc) ->
  match packet_cache_get_next_available_framecnt pc e with
  | Some f => e <= f /\ (exists pk, pk ∈ packets pc /\ ready pk /\ framecnt pk = f) /\
      forall pk, pk ∈ packets pc -> ready pk -> e <= framecnt pk -> f <= framecnt pk
  | None => forall pk, pk ∈ packets pc -> ready pk -> e <= framecnt pk -> 2 ^ 31 - 2 < framecnt pk - e
  end.
Proof.
  intros He Hl. unfold packet_cache_get_next_available_framecnt.
  pose proof (next_available_spec e (packets pc) (JACK_MAX_FRAMES / 2 - 1) false ltac:(done) ltac:(by right) He Hl) as H.
  destruct (next_available _ _ _ _) as [f|]; [|by destruct H].
  destruct H as ((H1 & _) & [[? _]|H2] & H3); [done|]. split_and!; done.
Qed.

(** The first fragment is copied without regard to the size of the
    packet: where the MTU is larger than the packet, a datagram of the longer
    size is written beyond the end of the buffer. *)
Theorem first_fragment_overflows mtu pkt_size h num pc rx d :
  sizes_ok mtu pkt_size -> heap_ok h -> packet_cache_new h num pkt_size mtu = Some pc -> (0 < num)%nat ->
  zlen rx = mtu -> pkt_size < zlen (dg_bytes d) <= mtu -> get_net (dg_bytes d) off_fragment_nr = 0 ->
  packet_cache_drain_socket pc rx [d] = None.
Proof.
  intros SZ Hh Hnew Hn Hrx Hlen Hz. unfold packet_cache_new in Hnew. destruct (heap_cache h); [|done].
  apply bind_Some in Hnew as (l & E & [= <-]). destruct (new_packets_ok mtu pkt_size SZ h Hh _ _ _ E) as [Hl Hf].
  destruct l as [|pk l]; [cbn in Hl; lia|]. apply Forall_cons in Hf as [[Hok Hv] Hf].
  cbn [packet_cache_drain_socket]. unfold receive. cbn [pc_mtu master_address_valid andb set_master last_framecnt_retreived_valid].
  rewrite take_ge by lia. set (rx' := store_n rx 0 (dg_bytes d)).
  assert (Erx : load_n rx' 0 (zlen (dg_bytes d)) = dg_bytes d) by (apply load_store_same; lia).
  destruct SZ as [Sm Sp].
  assert (En : get_net rx' off_fragment_nr = 0).
  { rewrite <- Hz, <- Erx. symmetry. apply get_net_prefix; unfold off_fragment_nr, sizeof_header in *; lia. }
  unfold packet_cache_get_packet, find_packet, packet_cache_get_free_packet. cbn [packets set_master].
  assert (Efind : list_find (fun pk0 => valid pk0 = true /\ framecnt pk0 = get_net rx' off_framecnt) (pk :: l) = None).
  { apply list_find_None. constructor; [intros [? _]; congruence|]. eapply Forall_impl; [exact Hf|]. intros x [_ Hx] [? _]. congruence. }
  rewrite Efind. cbn [fmap option_fmap option_map list_find]. rewrite decide_True by done. cbn [fst].
  cbn -[cache_packet_add_fragment get_net].
  unfold cache_packet_add_fragment. cbn [framecnt cache_packet_set_framecnt packet_buf]. rewrite Z.eqb_refl, En. cbn [negb Z.eqb].
  unfold memcpy. rewrite (wrap_small 64) by (unfold sizeof_header in *; lia).
  rewrite (proj2 (Z.leb_gt _ _)) by (rewrite (po_buffer _ _ _ Hok); lia). done.
Qed.

(** ** Two packets of three fragments *)

Definition malloc0 (b : Z) (n : Z) : option (list Z) := if n <? 0 then None else Some (replicate (Z.to_nat n) b).
Definition h0 : heap := mk_heap true (fun _ => malloc0 7) (fun _ => malloc0 9) [] 0.

Lemma heap0_ok : heap_ok h0.
Proof.
  constructor; intros i n l; cbn; unfold malloc0; destruct (Z.ltb_spec n 0); [done| |done|];
    intros [= <-]; rewrite length_replicate; lia.
Qed.

Definition sent0 (f : Z) : list Z := put_net (Z.of_nat <$> seq 0 66) off_framecnt f.
Definition tx0 : list Z := replicate 70 0.

Definition fragments_of (f : Z) : list (list Z) :=
  match netjack_sendto tx0 (sent0 f) 66 60 with Some (ds, _) => ds | None => [] end.

(** The fragments of one packet come last first, one of the other is lost. *)
Definition arrived : list datagram :=
  (fun x => mk_datagram [1] x 100) <$> rev (fragments_of 5) ++ tail (fragments_of 6).

Lemma sizes0 : sizes_ok 60 66.
Proof. by constructor. Qed.

Lemma sent0_ok f : f ∈ [5; 6] -> packet_for 66 f (sent0 f).
Proof. intros [->|[->|[]%not_elem_of_nil]%elem_of_cons]%elem_of_cons; by constructor; vm_compute. Qed.

Lemma arrived_ok d : d ∈ arrived -> dg_from d = [1] /\ exists f ds buf, f ∈ [5; 6] /\
  netjack_sendto tx0 (sent0 f) 66 60 = Some (ds, buf) /\ dg_bytes d ∈ ds.
Proof.
  intros (x & -> & Hx)%list_elem_of_fmap. split; [done|]. cbn [dg_bytes]. apply elem_of_app in Hx as [Hx|Hx].
  - exists 5, (fragments_of 5), (sent0 5). split_and!; [by left|by vm_compute|]. rewrite list_elem_of_In in *. by apply in_rev.
  - exists 6, (fragments_of 6), (sent0 6). split_and!; [right; by left|by vm_compute|].
    destruct (fragments_of 6); [by apply not_elem_of_nil in Hx|by right].
Qed.

Lemma packets_reassembled_witness :
  exists pc pc', packet_cache_new h0 2 66 60 = Some pc /\ packet_cache_drain_socket pc (replicate 60 0) arrived = Some pc' /\
    exists t, packet_cache_retreive_packet_pointer pc' 5 66 =
      ((66, Some (put_net (sent0 5) off_fragment_nr 0, t)), set_last 5 true pc').
Proof.
  eexists. destruct (packets_reassembled 60 66 h0 2 _ tx0 (replicate 60 0) [5; 6] sent0 [1] arrived sizes0 heap0_ok eq_refl
    (le_n 2) eq_refl eq_refl sent0_ok arrived_ok) as (pc' & E & H).
  exists pc'. split_and!; [reflexivity|exact E|].
  destruct (H 5 (fragments_of 5) (sent0 5)) as [[_ Ht]|[(x & Hx & Hn) _]]; [by left|by vm_compute|exact Ht|].
  exfalso. apply Hn. unfold arrived. rewrite fmap_app. apply list_elem_of_fmap. exists (mk_datagram [1] x 100).
  split; [done|]. apply elem_of_app. left. apply list_elem_of_fmap. exists x. split; [done|].
  rewrite list_elem_of_In in *. by apply -> in_rev.
Defined.

Definition cache1 : packet_cache :=
  default (mk_cache [] 0 [] false 0 false)
    (pc ← packet_cache_new h0 2 66 60; packet_cache_drain_socket pc (replicate 60 0) arrived).

Lemma next_available_correct_witness :
  packet_cache_get_next_available_framecnt cache1 3 = Some 5 /\
  forall pk, pk ∈ packets cache1 -> ready pk -> 3 <= framecnt pk -> 5 <= framecnt pk.
Proof.
  assert (E : packet_cache_get_next_available_framecnt cache1 3 = Some 5) by (vm_compute; reflexivity).
  assert (R : Forall (fun pk => 0 <= framecnt pk < 2 ^ 32) (packets cache1)) by (apply (bool_decide_unpack _); vm_compute; exact I).
  pose proof (next_available_correct cache1 3 ltac:(lia) R) as H.
  rewrite E in H. split; [exact E|apply H].
Defined.

Lemma first_fragment_overflows_witness :
  exists pc, packet_cache_new h0 1 58 100 = Some pc /\
    packet_cache_drain_socket pc (replicate 100 0) [mk_datagram [1] (replicate 80 0) 100] = None.
Proof.
  eexists. split; [reflexivity|]. apply (first_fragment_overflows 100 58 h0 1);
    [by constructor|apply heap0_ok|reflexivity|lia|reflexivity|split; reflexivity || discriminate|by vm_compute].
Defined.

End NetCache.
