(* ===== verification/NetMidi.v ===== *)
(** * MIDI events in network packets (drivers/netjack/netjack_packet.c)

    [encode_midi_buffer] writes the events of a MIDI port as words in network
    order: the length in words, time, size, and the bytes padded to words; a
    zero ends them.  [decode_midi_buffer] writes them into another port. *)

From S2P Require Import Prelude Bytes MidiPort NetPacket NetFragments NetCache.

Local Open Scope Z_scope.

Module NetMidi.
Import MidiPort NetPacket NetFragments NetCache.

(** [(((size - 1) & ~0x3) >> 2) + 1] on [size_t], stored in an [unsigned int]. *)
Definition nb_data_quads (size : Z) : Z := u32 (Z.shiftr (Z.land (u64 (size - 1)) (2 ^ 64 - 4)) 2 + 1).

(** [buffer_uint32[i] = htonl (v)]; [b] are the bytes of the words. *)
Definition put_word (b : list Z) (i v : Z) : option (list Z) :=
  if 4 * i + 4 <=? zlen b then Some (put_net b (4 * i) v) else None.

(** The loop over the [n] events from [i] on, and the end mark behind it. *)
Fixpoint encode_loop (buf : list Z) (buffer_size_uint32 : Z) (n : nat) (i written : Z) (b : list Z) : option (list Z) :=
  match n with
  | O => put_word b written 0
  | S n =>
      match jack_midi_event_get buf i with
      | (_, Some (time, size, p)) =>
          let quads := nb_data_quads size in
          let payload_size := u32 (3 + quads) in
          if u32 (written + payload_size) <? u32 (buffer_size_uint32 - 1) then
            b ← put_word b written payload_size;
            b ← put_word b (written + 1) time;
            b ← put_word b (written + 2) (u32 size);
            b ← memcpy b (4 * (written + 3)) buf p size;
            encode_loop buf buffer_size_uint32 n (i + 1) (u32 (written + 3 + quads)) b
          else put_word b written 0
      | (_, None) => None
      end
  end.

Definition encode_midi_buffer (b : list Z) (buffer_size_uint32 : Z) (buf : list Z) : option (list Z) :=
  encode_loop buf buffer_size_uint32 (Z.to_nat (jack_midi_get_event_count buf)) 0 0 b.

(** [jack_midi_event_write] of bytes of the packet. *)
Definition write_from (buf b : list Z) (time off size : Z) : option (list Z) :=
  match jack_midi_event_reserve buf time size with
  | (Some retbuf, buf) => if off + size <=? zlen b then Some (store_n buf retbuf (load_n b off size)) else None
  | (None, buf) => Some buf
  end.

(** The [int] [i] is compared as unsigned.  [None]: a read outside of the
    packet, or [fuel] rounds were not enough. *)
Fixpoint decode_loop (fuel : nat) (b : list Z) (buffer_size_uint32 i : Z) (buf : list Z) : option (list Z) :=
  if u32 i <? u32 (buffer_size_uint32 - 3) then
    match fuel with
    | O => None
    | S fuel =>
        if negb (4 * i + 4 <=? zlen b) then None
        else if get_net b (4 * i) =? 0 then Some buf
        else if 4 * i + 12 <=? zlen b then
            let time := get_net b (4 * (i + 1)) in
            let size := get_net b (4 * (i + 2)) in
            buf ← write_from buf b time (4 * (i + 3)) size;
            decode_loop fuel b buffer_size_uint32 (s32 (u32 (i + 3 + nb_data_quads size))) buf
        else None
    end
  else Some buf.

Definition decode_midi_buffer (b : list Z) (buffer_size_uint32 : Z) (buf : list Z) : option (list Z) :=
  decode_loop (Z.to_nat buffer_size_uint32) b buffer_size_uint32 0 (jack_midi_clear_buffer buf).

(** ** What is encoded *)

Definition quads (d : list Z) : Z := (zlen d - 1) / 4 + 1.

Lemma testbit_high z k n : 0 <= z < 2 ^ k -> 0 <= k <= n -> Z.testbit z n = false.
Proof. intros Hz Hk. rewrite <- (Z.mod_small z (2 ^ k)) by lia. apply Z.mod_pow2_bits_high. lia. Qed.

Lemma quads_eq d :
  0 < zlen d < 2 ^ 16 -> nb_data_quads (zlen d) = quads d /\ 1 <= quads d <= 2 ^ 14 /\ zlen d <= 4 * quads d.
Proof.
  intros Hd. unfold nb_data_quads, quads. rewrite (wrap_small 64) by lia.
  pose proof (Z.div_mod (zlen d - 1) 4 ltac:(lia)). pose proof (Z.mod_pos_bound (zlen d - 1) 4 ltac:(lia)).
  assert (E : Z.shiftr (Z.land (zlen d - 1) (2 ^ 64 - 4)) 2 = (zlen d - 1) / 4).
  { change 4 with (2 ^ 2) at 2. rewrite <- Z.shiftr_div_pow2 by lia. apply Z.bits_inj'. intros n Hn.
    rewrite !Z.shiftr_spec, Z.land_spec by lia. change (2 ^ 64 - 4) with (Z.shiftl (Z.ones 62) 2).
    rewrite Z.shiftl_spec by lia. replace (n + 2 - 2) with n by lia. destruct (decide (n < 62)).
    - rewrite Z.ones_spec_low by lia. apply andb_true_r.
    - rewrite Z.ones_spec_high by lia. rewrite andb_false_r. symmetry. apply (testbit_high _ 16); lia. }
  rewrite E, (wrap_small 32) by lia. lia.
Qed.

(** The events [evs] from word [i] on, and the end mark. *)
Fixpoint encoded (b : list Z) (i : Z) (evs : list event) : Prop :=
  match evs with
  | [] => get_net b (4 * i) = 0 /\ 4 * i + 4 <= zlen b
  | (t, d) :: evs =>
      get_net b (4 * i) = 3 + quads d /\ get_net b (4 * (i + 1)) = t /\ get_net b (4 * (i + 2)) = zlen d /\
      load_n b (4 * (i + 3)) (zlen d) = d /\ encoded b (i + 3 + quads d) evs
  end.

(** The events for which there is room: those before the first that would
    reach the last word. *)
Fixpoint fitting (size written : Z) (evs : list event) : list event :=
  match evs with
  | [] => []
  | (t, d) :: evs =>
      if written + 3 + quads d <? size - 1 then (t, d) :: fitting size (written + 3 + quads d) evs else []
  end.

Lemma put_word_ok b i v : 4 * i + 4 <= zlen b -> put_word b i v = Some (put_net b (4 * i) v).
Proof. intros. unfold put_word. by rewrite (proj2 (Z.leb_le _ _)). Qed.

(** Memory before the word [i] is as it was. *)
Definition kept (i : Z) (b b' : list Z) : Prop :=
  length b' = length b /\ forall off n, 0 <= off -> off + n <= 4 * i -> load_n b' off n = load_n b off n.

Lemma kept_trans i j a b c : i <= j -> kept i a b -> kept j b c -> kept i a c.
Proof. intros Hij [L1 K1] [L2 K2]. split; [congruence|]. intros off n H1 H2. rewrite K2, K1 by lia. done. Qed.

Lemma kept_put i b v : 0 <= i -> kept i b (put_net b (4 * i) v).
Proof. intros Hi. split; [apply length_put_net|]. intros off n H1 H2. unfold put_net. apply load_put_other; lia. Qed.

Lemma kept_net i b b' off : kept i b b' -> 0 <= off -> off + 4 <= 4 * i -> get_net b' off = get_net b off.
Proof. intros [_ K] H1 H2. unfold get_net. f_equal. apply get_le_load. by apply K. Qed.

(** One event written at word [w]. *)
Definition event_words (b : list Z) (w t : Z) (d : list Z) : list Z :=
  store_n (put_net (put_net (put_net b (4 * w) (3 + quads d)) (4 * (w + 1)) t) (4 * (w + 2)) (zlen d)) (4 * (w + 3)) d.

Lemma event_words_spec b w t d :
  0 <= w -> 4 * (w + 3 + quads d) <= zlen b -> 0 <= t < 2 ^ 16 -> 0 < zlen d < 2 ^ 16 ->
  kept w b (event_words b w t d) /\
  get_net (event_words b w t d) (4 * w) = 3 + quads d /\ get_net (event_words b w t d) (4 * (w + 1)) = t /\
  get_net (event_words b w t d) (4 * (w + 2)) = zlen d /\ load_n (event_words b w t d) (4 * (w + 3)) (zlen d) = d.
Proof.
  intros Hw Hb Ht Hd. destruct (quads_eq d Hd) as (_ & Hq & Hl). unfold event_words.
  assert (Hs : forall m off, off + 4 <= 4 * (w + 3) -> 0 <= off -> get_net (store_n m (4 * (w + 3)) d) off = get_net m off).
  { intros m off H1 H2. unfold get_net. by rewrite get_store_other by lia. }
  split_and!.
  - split; [by rewrite length_store_n, !length_put_net|]. intros off n H1 H2.
    rewrite load_store_other by lia. unfold put_net. by rewrite !load_put_other by lia.
  - rewrite Hs, !get_put_net_other by lia. apply get_put_net; lia.
  - rewrite Hs, get_put_net_other by lia. apply get_put_net; rewrite ?length_put_net; lia.
  - rewrite Hs by lia. apply get_put_net; rewrite ?length_put_net; lia.
  - apply load_store_same; rewrite ?length_put_net; lia.
Qed.

Lemma encode_loop_spec buf bs nf lost evs size :
  midi_rep buf bs nf lost evs -> 0 < size < 2 ^ 29 -> forall rest pre w b,
  evs = pre ++ rest -> 0 <= w < size -> zlen b = 4 * size ->
  exists b', encode_loop buf size (length rest) (zlen pre) w b = Some b' /\ kept w b b' /\ encoded b' w (fitting size w rest).
Proof.
  intros M Hsz. induction rest as [|[t d] rest IH]; intros pre w b E Hw Hb.
  - cbn [length encode_loop fitting encoded]. rewrite put_word_ok by lia. eexists. split; [done|].
    split; [apply kept_put; lia|]. rewrite length_put_net. split; [apply get_put_net; lia|lia].
  - assert (Ei : evs !! length pre = Some (t, d)) by (rewrite E; by apply list_lookup_middle).
    destruct (mr_legal _ _ _ _ _ M _ _ _ Ei) as [Ht Hd]. pose proof (mr_nf_bound _ _ _ _ _ M) as Hnf.
    destruct (quads_eq d Hd) as (Eq & Hq & Hl).
    pose proof (event_get_spec buf bs nf lost evs (length pre) M) as G. rewrite Ei in G. destruct G as (p & Eg & Ed & P1 & P2).
    cbn [length encode_loop fitting]. rewrite Eg, Eq.
    rewrite (wrap_small 32 (3 + quads d)), (wrap_small 32 (w + (3 + quads d))), (wrap_small 32 (size - 1)),
      (wrap_small 32 (zlen d)), (wrap_small 32 (w + 3 + quads d)) by lia.
    replace (w + (3 + quads d)) with (w + 3 + quads d) by lia.
    destruct (Z.ltb_spec (w + 3 + quads d) (size - 1)).
    + rewrite put_word_ok by lia. cbn [mbind option_bind]. rewrite put_word_ok by (rewrite length_put_net; lia).
      cbn [mbind option_bind]. rewrite put_word_ok by (rewrite !length_put_net; lia). cbn [mbind option_bind].
      rewrite memcpy_ok by (rewrite ?length_put_net, ?(mr_size _ _ _ _ _ M); lia). cbn [mbind option_bind]. rewrite Ed.
      fold (event_words b w t d).
      destruct (event_words_spec b w t d ltac:(lia) ltac:(lia) ltac:(lia) Hd) as (K & W1 & W2 & W3 & W4).
      destruct (IH (pre ++ [(t, d)]) (w + 3 + quads d) (event_words b w t d)) as (b' & E' & K' & En);
        [by rewrite <- app_assoc|lia|destruct K; lia|].
      replace (zlen (pre ++ [(t, d)])) with (zlen pre + 1) in E' by (rewrite length_app; cbn; lia).
      exists b'. split; [done|]. split; [by eapply kept_trans; [|exact K|exact K']; lia|].
      cbn [encoded]. rewrite !(kept_net _ _ _ _ K') by lia. destruct K' as [_ K']. rewrite K' by lia. done.
    + cbn [encoded]. rewrite put_word_ok by lia. eexists. split; [done|].
      split; [apply kept_put; lia|]. rewrite length_put_net. split; [apply get_put_net; lia|lia].
Qed.

(** ** Reading it back *)

Fixpoint words (evs : list event) : Z := match evs with [] => 0 | (_, d) :: evs => 3 + quads d + words evs end.

Lemma fitting_words size w evs : w < size -> Forall (fun x => 0 < zlen x.2 < 2 ^ 16) evs -> w + words (fitting size w evs) < size.
Proof.
  intros Hw Hl. revert w Hw. induction Hl as [|[t d] evs Hd _ IH]; intros w Hw; cbn; [lia|].
  destruct (Z.ltb_spec (w + 3 + quads d) (size - 1)); cbn; [|lia]. specialize (IH (w + 3 + quads d)). lia.
Qed.

Lemma fitting_prefix size w evs : exists k, evs = fitting size w evs ++ k.
Proof.
  revert w. induction evs as [|[t d] evs IH]; intros w; cbn; [by exists []|].
  destruct (_ <? _); [|by eexists]. destruct (IH (w + 3 + quads d)) as [k E]. exists k. cbn. by rewrite <- E.
Qed.

Lemma write_from_ok m b t off d :
  off + zlen d <= zlen b -> load_n b off (zlen d) = d -> write_from m b t off (zlen d) = Some (jack_midi_event_write m t d).2.
Proof.
  intros Hb Hd. unfold write_from, jack_midi_event_write. destruct (jack_midi_event_reserve m t (zlen d)) as [[r|] m']; [|done].
  by rewrite (proj2 (Z.leb_le _ _)), Hd.
Qed.

Lemma decode_loop_spec b size : 0 < size < 2 ^ 29 -> zlen b = 4 * size -> forall evs fuel i m,
  Forall (fun x => 0 < zlen x.2 < 2 ^ 16) evs -> encoded b i evs -> 0 <= i -> i + words evs < size ->
  (length evs < fuel)%nat -> decode_loop fuel b size i m = Some (write_all m evs).
Proof.
  intros Hsz Hb. induction evs as [|[t d] evs IH]; intros fuel i m Hl En Hi Hw Hf; destruct fuel as [|fuel]; [lia| |cbn in Hf; lia|];
    cbn [decode_loop encoded words] in *.
  - destruct En as [E0 Hle]. destruct (_ <? _); [|done]. by rewrite (proj2 (Z.leb_le _ _)), E0.
  - apply Forall_cons in Hl as [Hd Hl]. cbn [snd] in Hd. destruct (quads_eq d Hd) as (Eq & Hq & Hdl).
    destruct En as (E1 & E2 & E3 & E4 & En).
    assert (Hpos : 0 <= words evs).
    { clear -Hl. induction Hl as [|[u e] l He _ IHl]; cbn in *; [lia|]. destruct (quads_eq e He). lia. }
    rewrite (wrap_small 32 i), (wrap_small 32 (size - 3)), (proj2 (Z.ltb_lt _ _)) by lia.
    rewrite (proj2 (Z.leb_le _ _)), E1 by lia. rewrite (proj2 (Z.eqb_neq _ _)) by lia.
    rewrite (proj2 (Z.leb_le _ _)), E2, E3 by lia. rewrite write_from_ok by (done || lia). cbn [mbind option_bind].
    rewrite Eq, (wrap_small 32), swrap_small by lia. cbn in Hf. rewrite IH; [done|done|done|lia|lia|lia].
Qed.

Lemma words_length evs : Forall (fun x : event => 0 < zlen x.2 < 2 ^ 16) evs -> zlen evs <= words evs.
Proof. induction 1 as [|[t d] evs Hd _ IH]; cbn in *; [lia|]. destruct (quads_eq d Hd). lia. Qed.

(** C33: Round trip of MIDI over the network: the events of a port for which
    the packet has room, up to the first that does not fit, reach the port on
    the other side in order, with their times and bytes. *)
Theorem net_midi_roundtrip b size buf bs nf lost evs buf' bs' nf' lost' evs' :
  0 < size < 2 ^ 29 -> zlen b = 4 * size ->
  midi_rep buf bs nf lost evs -> midi_rep buf' bs' nf' lost' evs' ->
  legal_events nf' evs -> room bs' evs ->
  exists b' m, encode_midi_buffer b size buf = Some b' /\ decode_midi_buffer b' size buf' = Some m /\
    midi_rep m bs' nf' 0 (fitting size 0 evs).
Proof.
  intros Hsz Hb M M' Hl R. unfold encode_midi_buffer, jack_midi_get_event_count. rewrite (mr_count _ _ _ _ _ M), Nat2Z.id.
  destruct (encode_loop_spec buf bs nf lost evs size M Hsz evs [] 0 b eq_refl ltac:(lia) Hb) as (b' & E & [L _] & En).
  destruct (fitting_prefix size 0 evs) as [k Ek].
  assert (Hd : Forall (fun x : event => 0 < zlen x.2 < 2 ^ 16) evs)
    by (eapply Forall_impl; [apply Hl|]; by intros x []).
  assert (Hd' : Forall (fun x : event => 0 < zlen x.2 < 2 ^ 16) (fitting size 0 evs))
    by (rewrite Ek in Hd; by apply Forall_app in Hd as [Hd _]).
  pose proof (fitting_words size 0 evs ltac:(lia) Hd) as Hw. pose proof (words_length _ Hd').
  exists b', (write_all (jack_midi_clear_buffer buf') (fitting size 0 evs)). split_and!; [done| |].
  - unfold decode_midi_buffer. apply (decode_loop_spec b' size); [done|lia|done|done|lia|lia|lia].
  - apply (write_all_rep _ bs' nf' 0 []); [by apply (clear_rep _ bs' nf' lost' evs')| |].
    + destruct Hl as [L1 L2]. rewrite Ek in L1, L2. split; [by apply Forall_app in L1 as [L1 _]|].
      cbn [app]. by apply StronglySorted_app in L2 as (_ & L2 & _).
    + cbn [app]. rewrite Ek in R. by apply room_prefix in R.
Qed.

(** ** A note and a system exclusive message *)

Definition midi0 : list Z := write_all (jack_midi_buffer_init (replicate 100 0) 100 64) [note; sysex].

Lemma legal0 : legal_events 64 [note; sysex].
Proof. split; repeat constructor; vm_compute; congruence. Qed.

Lemma room0 : room 100 [note; sysex].
Proof. vm_compute. discriminate. Qed.

Lemma midi0_rep : midi_rep midi0 100 64 0 [note; sysex].
Proof. apply (write_all_rep _ 100 64 0 []); [by apply init_rep|apply legal0|apply room0]. Qed.

(** With ten words the second event does not fit. *)
Lemma net_midi_roundtrip_witness :
  (exists b m, encode_midi_buffer (replicate 80 0) 20 midi0 = Some b /\ decode_midi_buffer b 20 midi0 = Some m /\
     midi_rep m 100 64 0 [note; sysex]) /\
  (exists b m, encode_midi_buffer (replicate 40 0) 10 midi0 = Some b /\ decode_midi_buffer b 10 midi0 = Some m /\
     midi_rep m 100 64 0 [note]).
Proof.
  split.
  - apply (net_midi_roundtrip (replicate 80 0) 20 midi0 100 64 0 [note; sysex] midi0 100 64 0 [note; sysex]);
      [lia|done|apply midi0_rep|apply midi0_rep|apply legal0|apply room0].
  - apply (net_midi_roundtrip (replicate 40 0) 10 midi0 100 64 0 [note; sysex] midi0 100 64 0 [note; sysex]);
      [lia|done|apply midi0_rep|apply midi0_rep|apply legal0|apply room0].
Defined.

End NetMidi.
