(* ===== verification/NetWait.v ===== *)
(** * Waiting for the next packet (drivers/netjack/netjack.c)

    Once per period the network driver waits until its next packet is complete or a
    deadline has passed, moves the deadline towards the one the master wants, and
    follows the frame count of the master when packets were lost.

    A [wait_world] says what the clock and the socket give: the datagrams that are there
    at first, and for every poll the time when it begins, the answer of the system and the
    datagrams that are read after it.  The wait has no bound of its own: the loop has fuel, and
    ends when the clock reaches the deadline.  [None] is undefined behaviour or the end of the
    fuel. *)

From S2P Require Import Prelude Bytes NetPacket NetFragments NetCache.

Local Open Scope Z_scope.

Module NetWait.
Import NetPacket NetFragments NetCache.

Definition MASTER_FREEWHEELS : Z := 0x80000000.
Definition off_sync_state : Z := 24.

(** What [netjack_wait] uses of [netjack_driver_state_t]; [rx_buf] points to the buffer of a
    packet of the cache. *)
Record netjack_driver_state_t := mk_netj {
  period_usecs : Z; always_deadline : bool; jitter_val : Z; latency : Z; rx_bufsize : Z;
  next_deadline : Z; next_deadline_valid : bool; expected_framecnt : Z; expected_framecnt_valid : bool;
  num_lost_packets : Z; packet_data_valid : bool; running_free : bool; deadline_goodness : Z; time_to_deadline : Z;
  syncsource_address : list Z; srcaddress_valid : bool; rx_buf : option nat; packcache : packet_cache
}.

#[global] Instance netjack_driver_state_assignable : Assignable netjack_driver_state_t :=
  fun r => mk_netj (period_usecs r) (always_deadline r) (jitter_val r) (latency r) (rx_bufsize r)
    (next_deadline r) (next_deadline_valid r) (expected_framecnt r) (expected_framecnt_valid r)
    (num_lost_packets r) (packet_data_valid r) (running_free r) (deadline_goodness r) (time_to_deadline r)
    (syncsource_address r) (srcaddress_valid r) (rx_buf r) (packcache r).

(** [ppoll] returns 0 when its time is over, -1 when it fails, else 1. *)
Record poll_answer := mk_poll { po_now : Z; po_result : Z; po_data : list datagram }.

(** [ww_rx]: the receive buffer on the stack. *)
Record wait_world := mk_wworld { ww_start : Z; ww_now : Z; ww_rx : list Z; ww_first : list datagram; ww_polls : nat -> poll_answer }.

(** The time that [ppoll] may take is at most half a second where the deadline is more than a
    second away; [po_result] is its answer. *)
Definition netjack_poll_deadline (deadline : Z) (p : poll_answer) : Z := if deadline <=? po_now p then 0 else po_result p.

(** The share of the cache that is full of packets to come is above 80 per cent; the source
    divides in floating point, which decides the same for a cache of less than 2^17 packets. *)
Definition packet_cache_get_fill_above_80 (pc : packet_cache) (expected : Z) : bool :=
  let before_us := length (filter (fun pk => valid pk = true /\ cache_packet_is_complete pk = true /\ expected <= framecnt pk) (packets pc)) in
  100 * Z.of_nat before_us >? 80 * zlen (packets pc).

(** ** The parts of [netjack_wait] *)

Definition set_deadline (w : wait_world) (n : netjack_driver_state_t) : netjack_driver_state_t :=
  if next_deadline_valid n then n else n <| next_deadline := u64 (ww_start w + period_usecs n) |> <| next_deadline_valid := true |>.

Definition count_frame (w : wait_world) (n : netjack_driver_state_t) : option netjack_driver_state_t :=
  if expected_framecnt_valid n then Some (n <| expected_framecnt ::= fun f => u32 (f + 1) |>)
  else
    pc ← packet_cache_drain_socket (packcache n) (ww_rx w) (ww_first w);
    Some (n <| packcache := pc |> <| expected_framecnt := default 0 (packet_cache_get_highest_available_framecnt pc) |>
            <| expected_framecnt_valid := true |>).

(** The loop; whether the expected frame is there, and the cache. *)
Fixpoint wait_loop (fuel : nat) (always : bool) (rx : list Z) (expected deadline : Z) (polls : nat -> poll_answer) (have : bool)
    (pc : packet_cache) : option (bool * packet_cache) :=
  match fuel with
  | O => None
  | S fuel =>
      let found := bool_decide (packet_cache_get_next_available_framecnt pc expected = Some expected) in
      if found && negb always then Some (true, pc)
      else if netjack_poll_deadline deadline (polls 0%nat) =? 0 then Some (have || found, pc)
      else
        pc ← packet_cache_drain_socket pc rx (po_data (polls 0%nat));
        wait_loop fuel always rx expected deadline (fun k => polls (S k)) (have || found) pc
  end.

Definition learn_address (n : netjack_driver_state_t) : netjack_driver_state_t :=
  if negb (srcaddress_valid n) && master_address_valid (packcache n)
  then n <| syncsource_address := master_address (packcache n) |> <| srcaddress_valid := true |> else n.

(** [packet_cache_retreive_packet_pointer], then [packet_header_ntoh] where [rx_buf] points to. *)
Definition retreive (f : Z) (n : netjack_driver_state_t) : option netjack_driver_state_t :=
  let '((_, r), pc) := packet_cache_retreive_packet_pointer (packcache n) f (rx_bufsize n) in
  let rx := match r with Some _ => find_packet (packcache n) f | None => rx_buf n end in
  i ← rx; pk ← packets pc !! i;
  Some (n <| packcache := update_packet i (fun pk => set_content (fragment_array pk) (packet_header_ntoh (packet_buf pk)) pk) pc |> <| rx_buf := Some i |>).

(** The sync state of the packet that was retrieved. *)
Definition sync_state_of (n : netjack_driver_state_t) : Z :=
  match rx_buf n ≫= fun i => packets (packcache n) !! i with Some pk => get_le (packet_buf pk) off_sync_state 4 | None => 0 end.

Definition want_deadline (n : netjack_driver_state_t) : Z :=
  if negb (jitter_val n =? 0) then jitter_val n
  else if latency n <? 4 then s32 (u64 (- period_usecs n) / 2)
  else s32 (u64 (period_usecs n / 4 + u32 (s32 (10 * s32 (period_usecs n)) * latency n) / 100)).

Definition adjust_deadline (n : netjack_driver_state_t) : netjack_driver_state_t :=
  if u32 (deadline_goodness n) =? MASTER_FREEWHEELS then n
  else
    let n := if deadline_goodness n <? want_deadline n then n <| next_deadline ::= fun d => u64 (d - period_usecs n / 100) |> else n in
    if deadline_goodness n >? want_deadline n then n <| next_deadline ::= fun d => u64 (d + period_usecs n / 100) |> else n.

Definition have_frame (w : wait_world) (n : netjack_driver_state_t) : option netjack_driver_state_t :=
  let n := n <| time_to_deadline := if ww_now w <? next_deadline n then next_deadline n - ww_now w else 0 |> in
  n ← retreive (expected_framecnt n) n;
  let n := adjust_deadline (n <| deadline_goodness := s32 (sync_state_of n) |> <| packet_data_valid := true |>) in
  Some (n <| next_deadline ::= fun d => u64 (d + period_usecs n) |>).

(** The expected packet is not there, but one with a higher frame count. *)
Definition frame_ahead (f : Z) (n : netjack_driver_state_t) : option netjack_driver_state_t :=
  let offset := u32 (f - expected_framecnt n) in
  if offset <? 10 then
    let n := n <| packet_data_valid := false |> in
    Some (if packet_cache_get_fill_above_80 (packcache n) (expected_framecnt n) then n <| next_deadline ::= fun d => u64 (d - period_usecs n / 2) |> else n)
  else
    n ← retreive f (n <| expected_framecnt := f |>);
    Some (n <| deadline_goodness := s32 (s32 (sync_state_of n) - s32 (period_usecs n) * offset) |> <| next_deadline_valid := false |>
            <| packet_data_valid := true |>).

(** There is none. *)
Definition no_frame (n : netjack_driver_state_t) : option netjack_driver_state_t :=
  let n := n <| packet_data_valid := false |> in
  let highest := packet_cache_get_highest_available_framecnt (packcache n) in
  if num_lost_packets n <? 5 then
    Some (if bool_decide (highest = Some (u32 (expected_framecnt n - 1))) then n <| next_deadline ::= fun d => u64 (d + period_usecs n) |> else n)
  else if num_lost_packets n <=? 100 then Some (n <| next_deadline ::= fun d => u64 (d + u64 (period_usecs n * latency n) / 8) |>)
  else
    match highest with
    | Some f =>
        n ← retreive f (n <| expected_framecnt := f |>);
        Some (n <| deadline_goodness := s32 (sync_state_of n) |> <| next_deadline_valid := false |> <| packet_data_valid := true |> <| running_free := false |>)
    | None =>
        let n := n <| running_free := true |> in
        Some (if num_lost_packets n >? 200 then n <| srcaddress_valid := false |> <| packcache ::= packet_cache_reset_master_address |> else n)
    end.

Definition no_expected_frame (n : netjack_driver_state_t) : option netjack_driver_state_t :=
  let n := n <| time_to_deadline := 0 |> <| next_deadline ::= fun d => u64 (d + period_usecs n) |> in
  match packet_cache_get_next_available_framecnt (packcache n) (expected_framecnt n) with
  | Some f => frame_ahead f n
  | None => no_frame n
  end.

(** The value returned, and the count of lost packets. *)
Definition count_lost (n : netjack_driver_state_t) : Z * netjack_driver_state_t :=
  if packet_data_valid n then
    (if (num_lost_packets n >? 1) && negb (running_free n) then s32 ((num_lost_packets n - 1) * period_usecs n) else 0, n <| num_lost_packets := 0 |>)
  else
    let lost := u32 (num_lost_packets n + 1) in
    (if lost =? 1 then s32 (period_usecs n) else 0, n <| num_lost_packets := lost |>).

Definition netjack_wait (fuel : nat) (w : wait_world) (n : netjack_driver_state_t) : option (Z * netjack_driver_state_t) :=
  n ← count_frame w (set_deadline w n);
  r ← wait_loop fuel (always_deadline n) (ww_rx w) (expected_framecnt n) (next_deadline n) (ww_polls w) false (packcache n);
  let n := learn_address (n <| packcache := r.2 |>) <| running_free := false |> in
  n ← (if r.1 : bool then have_frame w n else no_expected_frame n);
  Some (count_lost n).

(** ** The cache *)

Section wait.
(** The sizes with which the driver has made its cache. *)
Context (mtu pkt_size : Z) (SZ : sizes_ok mtu pkt_size).

(** The blocks of the packets have their sizes; no two packets in use have the same frame
    count. *)
Record cache_wf (pc : packet_cache) : Prop := mk_cache_wf {
  cw_unique : forall i j p q, packets pc !! i = Some p -> packets pc !! j = Some q -> valid p = true -> valid q = true ->
    framecnt p = framecnt q -> i = j;
  cw_range : Forall (fun pk => 0 <= framecnt pk < 2 ^ 32) (packets pc);
  cw_packets : Forall (packet_ok mtu pkt_size) (packets pc);
  cw_room : packets pc <> [];
  cw_mtu : pc_mtu pc = mtu
}.

Lemma get_net_range m off : 0 <= get_net m off < 2 ^ 32.
Proof using.
  unfold get_net, ntohl. cbn [le_bytes rev app le_value]. generalize (get_le m off 4). intros z.
  pose proof (Z.mod_pos_bound z 256). pose proof (Z.mod_pos_bound (z / 256) 256).
  pose proof (Z.mod_pos_bound (z / 256 / 256) 256). pose proof (Z.mod_pos_bound (z / 256 / 256 / 256) 256). lia.
Qed.

Lemma insert_nonempty {A} (l : list A) i x : l <> [] -> <[i := x]> l <> [].
Proof using. by destruct l, i. Qed.

(** A packet that is put in place of another one, with a frame count that no other one has. *)
Lemma insert_wf pc i old pk :
  cache_wf pc -> packets pc !! i = Some old -> 0 <= framecnt pk < 2 ^ 32 -> packet_ok mtu pkt_size pk ->
  (forall j q, j <> i -> packets pc !! j = Some q -> valid q = true -> framecnt q <> framecnt pk) ->
  cache_wf (set_packets (<[i := pk]> (packets pc)) pc).
Proof using.
  intros [U R P N M] Ei Hr Hp Hf. split; cbn; [|by apply Forall_insert|by apply Forall_insert|by apply insert_nonempty|done].
  intros j k p q [(<- & <- & _)|[Hj Ej]]%list_lookup_insert_Some [(<- & <- & _)|[Hk Ek]]%list_lookup_insert_Some Hv Hq E; [done|..].
  - exfalso. by apply (Hf k q).
  - exfalso. by apply (Hf j p).
  - by apply (U j k p q).
Qed.

(** The same frame count, in use or not. *)
Lemma same_count_wf pc i old pk :
  cache_wf pc -> packets pc !! i = Some old -> framecnt pk = framecnt old -> (valid pk = true -> valid old = true) ->
  packet_ok mtu pkt_size pk -> cache_wf (set_packets (<[i := pk]> (packets pc)) pc).
Proof using.
  intros [U R P N M] Ei Ef Ev Hp. split; cbn; [| |by apply Forall_insert|by apply insert_nonempty|done].
  - intros j k p q [(<- & <- & _)|[Hj Ej]]%list_lookup_insert_Some [(<- & <- & _)|[Hk Ek]]%list_lookup_insert_Some Hv Hq E; [done|..].
    + apply (U i k old q); [done|done|by apply Ev|done|congruence].
    + apply (U j i p old); [done|done|done|by apply Ev|congruence].
    + by apply (U j k p q).
  - apply Forall_insert; [done|]. rewrite Ef. by apply (Forall_lookup_1 _ _ _ _ R Ei).
Qed.

Lemma wf_packet pc i pk : cache_wf pc -> packets pc !! i = Some pk -> packet_ok mtu pkt_size pk.
Proof using. intros W E. by apply (Forall_lookup_1 _ _ _ _ (cw_packets _ W) E). Qed.

Lemma find_packet_none pc f j q : find_packet pc f = None -> packets pc !! j = Some q -> valid q = true -> framecnt q <> f.
Proof using.
  intros E Ej Hv Hf. pose proof (find_packet_spec pc f) as H. rewrite E in H. by apply (H j q).
Qed.

Lemma oldest_in_range pc : packets pc <> [] -> (packet_cache_get_oldest_packet pc < length (packets pc))%nat.
Proof using.
  unfold packet_cache_get_oldest_packet. intros Hn.
  assert (H : forall l i m r, (r < i + length l)%nat \/ l = [] ->
    let '(j, _, r') := foldl (fun '(i, minimal_frame, retval) pk =>
             if valid pk && (framecnt pk <? minimal_frame) then (S i, framecnt pk, i) else (S i, minimal_frame, retval)) (i, m, r) l in
    j = (i + length l)%nat /\ (l = [] -> r' = r) /\ (l <> [] -> (r' < i + length l)%nat)).
  { induction l as [|pk l IH]; intros i m r Hr; cbn [foldl length]; [split_and!; [lia|done|done]|].
    destruct Hr as [Hr|]; [|done]. cbn [length] in Hr.
    destruct (valid pk && (framecnt pk <? m)).
    - specialize (IH (S i) (framecnt pk) i). destruct (foldl _ _ _) as [[j m'] r']. destruct IH as (H1 & H2 & H3); [left; lia|].
      split_and!; [lia|done|]. intros _. destruct l; [rewrite (H2 eq_refl); cbn; lia|]. specialize (H3 ltac:(done)). cbn [length] in *. lia.
    - specialize (IH (S i) m r). destruct (foldl _ _ _) as [[j m'] r']. destruct IH as (H1 & H2 & H3); [left; lia|].
      split_and!; [lia|done|]. intros _. destruct l; [rewrite (H2 eq_refl); cbn in *; lia|]. specialize (H3 ltac:(done)). cbn [length] in *. lia. }
  specialize (H (packets pc) 0%nat JACK_MAX_FRAMES 0%nat). destruct (foldl _ _ _) as [[j m] r].
  destruct H as (_ & _ & H); [left; destruct (packets pc); [done|cbn; lia]|]. by apply H.
Qed.

Lemma clear_ok f pk : packet_ok mtu pkt_size pk -> packet_ok mtu pkt_size (cache_packet_set_framecnt f (cache_packet_reset pk)).
Proof using. intros [O1 O2 O3 O4 O5]. constructor; cbn; try done. unfold clear_fragments. cbn. unfold clear_fragments. by rewrite !length_store_n. Qed.

(** There is always a place for the packet of a frame count. *)
Lemma get_packet_wf pc f :
  cache_wf pc -> 0 <= f < 2 ^ 32 ->
  exists i pc' pk, packet_cache_get_packet pc f = (i, pc') /\ cache_wf pc' /\ packets pc' !! i = Some pk /\ valid pk = true /\ framecnt pk = f.
Proof using.
  intros W Hf. unfold packet_cache_get_packet. destruct (find_packet pc f) as [k|] eqn:Ek.
  { pose proof (find_packet_spec pc f) as H. rewrite Ek in H. destruct H as (pk & [Ei Hv] & Ef). by exists k, pc, pk. }
  assert (H : forall k g, (k < length (packets pc))%nat -> (forall pk, framecnt (g pk) = f) -> (forall pk, valid (g pk) = true) ->
            (forall pk, packet_ok mtu pkt_size pk -> packet_ok mtu pkt_size (g pk)) ->
            exists i pc' pk, (k, update_packet k g pc) = (i, pc') /\ cache_wf pc' /\ packets pc' !! i = Some pk /\ valid pk = true /\ framecnt pk = f).
  { intros k g [pk E]%lookup_lt_is_Some Hg Hv Ho. exists k, (update_packet k g pc), (g pk). unfold update_packet. rewrite (alter_insert_lookup _ _ _ _ E).
    split_and!; [done| | |by apply Hv|by apply Hg].
    - eapply insert_wf; [done|done|by rewrite Hg|by eapply Ho, wf_packet|]. intros j q _ Hj Hq. rewrite Hg. by apply (find_packet_none pc f j q).
    - cbn. apply list_lookup_insert_eq. by eapply lookup_lt_Some. }
  destruct (packet_cache_get_free_packet pc) as [k|] eqn:Eg.
  - unfold packet_cache_get_free_packet in Eg. apply fmap_Some in Eg as ([k' x] & Eg & ->). apply list_find_Some in Eg as (Eg & _).
    apply H; [by eapply lookup_lt_Some|done|done|]. apply set_framecnt_ok.
  - apply H; [apply oldest_in_range, W|done|done|]. apply clear_ok.
Qed.

(** A datagram that is read holds at least the header, and not more than the packet. *)
Definition fits (d : datagram) : Prop := sizeof_header <= Z.min (zlen (dg_bytes d)) mtu <= pkt_size.

Lemma add_fragment_total pk rx k :
  packet_ok mtu pkt_size pk -> zlen rx = mtu -> sizeof_header <= k <= Z.min mtu pkt_size ->
  exists pk', cache_packet_add_fragment pk rx k = Some pk' /\ packet_ok mtu pkt_size pk' /\ framecnt pk' = framecnt pk /\ valid pk' = valid pk.
Proof using SZ.
  intros Hok Hrx Hk. pose proof (fragments_cover mtu pkt_size SZ) as (F1 & F2 & _). assert (Hok' := Hok). destruct Hok' as [O1 O2 O3 O4 O5].
  assert (Hmem : forall m (j : Z), zlen m = pkt_size -> packet_ok mtu pkt_size (set_content (<[Z.to_nat j := 1]> (fragment_array pk)) m pk))
    by (intros m j Hm; constructor; cbn; [done|done|done|by rewrite length_insert|done]).
  destruct SZ as [Sm Sp]. unfold cache_packet_add_fragment. destruct (negb _); [by exists pk|].
  set (nr := get_net rx off_fragment_nr). assert (Hnr := get_net_range rx off_fragment_nr). fold nr in Hnr. unfold sizeof_header in *.
  destruct (Z.eqb_spec nr 0) as [E0|E0].
  - rewrite (wrap_small 64) by lia. rewrite memcpy_ok by lia. cbn [mbind option_bind]. rewrite set_fragment_ok by lia.
    eexists. split; [done|]. split; [apply Hmem; by rewrite length_store_n|done].
  - rewrite O1, O2, O3, (wrap_small 32 (fragments mtu pkt_size)) by lia. destruct (Z.ltb_spec nr (fragments mtu pkt_size)); [|by exists pk].
    assert (Es : s32 (u64 (mtu - 56)) = payload mtu) by (rewrite wrap_small, swrap_small by lia; done). rewrite Es.
    assert (Hle : nr * payload mtu <= pkt_size - 56) by (unfold payload, sizeof_header in *; nia).
    assert (H0 : 0 <= nr * payload mtu) by (unfold payload, sizeof_header in *; nia).
    rewrite (wrap_small 32 (nr * payload mtu + k)), (wrap_small 32 (nr * payload mtu)), !(wrap_small 64) by lia.
    destruct (Z.leb_spec (nr * payload mtu + k - 56) (pkt_size - 56)); [|by exists pk].
    rewrite memcpy_ok by lia. cbn [mbind option_bind]. rewrite set_fragment_ok by lia.
    eexists. split; [done|]. split; [apply Hmem; by rewrite length_store_n|done].
Qed.

Lemma receive_wf pc rx d :
  cache_wf pc -> zlen rx = mtu -> fits d -> exists pc' rx', receive pc rx d = Some (pc', rx') /\ cache_wf pc' /\ zlen rx' = mtu.
Proof using SZ.
  intros W Hrx Hd. unfold receive. set (data := take _ _). set (rx1 := store_n rx 0 data).
  assert (Hrx1 : zlen rx1 = mtu) by (unfold rx1; by rewrite length_store_n).
  assert (Hl : zlen data = Z.min (zlen (dg_bytes d)) mtu)
    by (unfold data; rewrite length_take, (cw_mtu _ W); destruct SZ; unfold sizeof_header in *; lia).
  destruct (_ && _); [by eexists _, _|].
  set (pc1 := if master_address_valid pc then pc else set_master (dg_from d) true pc).
  assert (W1 : cache_wf pc1) by (unfold pc1; destruct (master_address_valid pc); [done|destruct W; by split]).
  destruct (_ && _); [by eexists _, _|].
  destruct (get_packet_wf pc1 _ W1 (get_net_range rx1 off_framecnt)) as (i & pc2 & pk & -> & W2 & Ei & _ & _).
  rewrite Ei. cbn [mbind option_bind].
  destruct (add_fragment_total pk rx1 (zlen data) (wf_packet _ _ _ W2 Ei) Hrx1) as (pk' & -> & Hok & E1 & E2); [unfold fits in Hd; lia|].
  cbn [mbind option_bind]. eexists _, _. split; [done|]. split; [|done].
  eapply same_count_wf; [done|done|done|cbn; by rewrite E2|]. by destruct Hok.
Qed.

Lemma drain_wf l : forall pc rx, cache_wf pc -> zlen rx = mtu -> Forall fits l ->
  exists pc', packet_cache_drain_socket pc rx l = Some pc' /\ cache_wf pc'.
Proof using SZ.
  induction l as [|d l IH]; intros pc rx W Hrx Hl; cbn [packet_cache_drain_socket]; [by exists pc|].
  apply Forall_cons in Hl as [Hd Hl]. destruct (receive_wf pc rx d W Hrx Hd) as (pc1 & rx1 & -> & W1 & Hrx1).
  cbn [mbind option_bind]. by apply IH.
Qed.

(** ** The loop *)

(** The cache after [k] polls. *)
Fixpoint drained (rx : list Z) (polls : nat -> poll_answer) (k : nat) (pc : packet_cache) : option packet_cache :=
  match k with
  | O => Some pc
  | S k => pc ← packet_cache_drain_socket pc rx (po_data (polls 0%nat)); drained rx (fun i => polls (S i)) k pc
  end.

(** The packet [e] is complete after some poll, and every poll up to that one found data
    before the deadline. *)
Definition in_time (rx : list Z) (e deadline : Z) (polls : nat -> poll_answer) (pc : packet_cache) : Prop :=
  exists k pc', drained rx polls k pc = Some pc' /\ (exists pk, pk ∈ packets pc' /\ ready pk /\ framecnt pk = e) /\
    forall i, (i < k)%nat -> netjack_poll_deadline deadline (polls i) <> 0.

Lemma next_is pc e : cache_wf pc -> 0 <= e < 2 ^ 32 ->
  packet_cache_get_next_available_framecnt pc e = Some e <-> exists pk, pk ∈ packets pc /\ ready pk /\ framecnt pk = e.
Proof using.
  intros W He. pose proof (next_available_correct pc e He (cw_range _ W)) as H.
  destruct (packet_cache_get_next_available_framecnt pc e) as [f|]; split; try done.
  - intros [= ->]. by destruct H as (_ & H & _).
  - intros (pk & Hin & Hr & <-). destruct H as (H1 & _ & H2). specialize (H2 pk Hin Hr ltac:(lia)). f_equal. lia.
  - intros (pk & Hin & Hr & <-). specialize (H pk Hin Hr ltac:(lia)). lia.
Qed.

(** The loop ends when the clock has reached the deadline, or earlier; it has found the packet
    just if that came in time. *)
Lemma wait_loop_spec rx e deadline K : zlen rx = mtu -> 0 <= e < 2 ^ 32 -> forall fuel polls pc,
  cache_wf pc -> (forall k, Forall fits (po_data (polls k))) -> deadline <= po_now (polls K) -> (K < fuel)%nat ->
  exists have pc', wait_loop fuel false rx e deadline polls false pc = Some (have, pc') /\ cache_wf pc' /\
    have = bool_decide (packet_cache_get_next_available_framecnt pc' e = Some e) /\
    (have = true <-> in_time rx e deadline polls pc).
Proof using SZ.
  intros Hrx He. induction K as [|K IH]; intros [|fuel] polls pc W Hf Hc Hlt; try lia; cbn [wait_loop negb orb]; rewrite andb_true_r; case_bool_decide as Hn.
  all: try (exists true, pc; split_and!; [done|done|by rewrite bool_decide_true|]; split; [|done]; intros _; exists 0%nat, pc;
    split_and!; [done|by apply next_is|lia]).
  - unfold netjack_poll_deadline at 1. rewrite (proj2 (Z.leb_le _ _) Hc). exists false, pc. split_and!; [done|done|by rewrite bool_decide_false|].
    split; [done|]. intros (k & pc' & E & Hr & Hk). destruct k as [|k]; [injection E as <-; by apply next_is in Hr|].
    exfalso. apply (Hk 0%nat ltac:(lia)). unfold netjack_poll_deadline. by rewrite (proj2 (Z.leb_le _ _) Hc).
  - destruct (Z.eqb_spec (netjack_poll_deadline deadline (polls 0%nat)) 0) as [E0|E0].
    + exists false, pc. split_and!; [done|done|by rewrite bool_decide_false|]. split; [done|].
      intros (k & pc' & E & Hr & Hk). destruct k as [|k]; [injection E as <-; by apply next_is in Hr|]. by destruct (Hk 0%nat ltac:(lia)).
    + destruct (drain_wf _ pc rx W Hrx (Hf 0%nat)) as (pc1 & E & W1). rewrite E. cbn [mbind option_bind].
      destruct (IH fuel (fun k => polls (S k)) pc1 W1 (fun k => Hf (S k)) Hc ltac:(lia)) as (have & pc' & -> & W' & Hh & Hi).
      exists have, pc'. split_and!; [done|done|done|]. rewrite Hi. split.
      * intros (k & pc2 & E2 & Hr & Hk). exists (S k), pc2. cbn [drained]. rewrite E. split_and!; [done|done|].
        intros [|i] Hlt'; [done|apply Hk; lia].
      * intros ([|k] & pc2 & E2 & Hr & Hk); [injection E2 as <-; by apply next_is in Hr|]. cbn [drained] in E2. rewrite E in E2.
        exists k, pc2. split_and!; [done|done|]. intros i Hlt'. apply (Hk (S i)). lia.
Qed.

(** ** Retrieving a packet *)

Lemma ready_found pc pk : cache_wf pc -> pk ∈ packets pc -> ready pk -> exists i, find_packet pc (framecnt pk) = Some i /\ packets pc !! i = Some pk.
Proof.
  intros [U R _ _ _] (k & Hk)%list_elem_of_lookup [Hv Hc]. pose proof (find_packet_spec pc (framecnt pk)) as H.
  destruct (find_packet pc (framecnt pk)) as [i|].
  - destruct H as (pk' & (Hi & Hv') & Ef). exists i. split; [done|]. by rewrite (U i k pk' pk Hi Hk Hv' Hv Ef).
  - exfalso. by apply (H k pk).
Qed.

(** The packet in host order. *)
Definition converted (pk : cache_packet) : cache_packet := set_content (fragment_array pk) (packet_header_ntoh (packet_buf pk)) pk.

(** The driver points to the packet with the frame count it expects. *)
Definition delivers (n : netjack_driver_state_t) : Prop :=
  exists i pk, rx_buf n = Some i /\ packets (packcache n) !! i = Some (converted pk) /\ ready (converted pk) /\ framecnt pk = expected_framecnt n.

Lemma retreive_ready n pk :
  cache_wf (packcache n) -> pk ∈ packets (packcache n) -> ready pk ->
  exists i, packets (packcache n) !! i = Some pk /\
    retreive (framecnt pk) n = Some (n <| packcache := update_packet i converted (set_last (framecnt pk) true (packcache n)) |> <| rx_buf := Some i |>).
Proof.
  intros W Hin Hr. destruct (ready_found _ _ W Hin Hr) as (i & Ef & Ei). exists i. split; [done|]. unfold retreive, packet_cache_retreive_packet_pointer.
  rewrite Ef. cbn [mbind option_bind]. rewrite Ei. destruct Hr as [Hv Hc]. rewrite Hc. cbn [mbind option_bind set_last packets]. by rewrite Ei.
Qed.

Lemma highest_ready l best f :
  foldl (fun best pk => if negb (valid pk) || negb (cache_packet_is_complete pk) then best
           else if framecnt pk <? default 0 best then best else Some (framecnt pk)) best l = Some f ->
  best = Some f \/ exists pk, pk ∈ l /\ ready pk /\ framecnt pk = f.
Proof.
  revert best. induction l as [|pk l IH]; intros best; cbn [foldl]; [by left|]. intros E. apply IH in E as [E|(q & Hq & Hr)]; [|right; exists q; split; [by right|done]].
  destruct (valid pk) eqn:Ev; cbn [negb orb] in E; [|by left]. destruct (cache_packet_is_complete pk) eqn:Ec; cbn [negb] in E; [|by left].
  destruct (_ <? _); [by left|]. injection E as <-. right. exists pk. split; [by left|]. by split.
Qed.

(** ** One period *)

(** What a period leaves: the packet that was expected, or nothing, if it is not there. *)
Record outcome (n n' : netjack_driver_state_t) : Prop := mk_outcome {
  oc_period : period_usecs n' = period_usecs n;
  oc_always : always_deadline n' = always_deadline n;
  oc_lost : num_lost_packets n' = num_lost_packets n;
  oc_valid : expected_framecnt_valid n' = expected_framecnt_valid n;
  oc_cache : cache_wf (packcache n');
  oc_expected : 0 <= expected_framecnt n' < 2 ^ 32;
  oc_data : if packet_data_valid n' then delivers n' /\ running_free n' = false
            else expected_framecnt n' = expected_framecnt n /\ forall pk, pk ∈ packets (packcache n') -> ready pk -> framecnt pk <> expected_framecnt n'
}.

Lemma adjust_same n : exists d, adjust_deadline n = n <| next_deadline := d |>.
Proof.
  unfold adjust_deadline. destruct (_ =? _); [by exists (next_deadline n); destruct n|]. destruct (_ <? _), (_ >? _); eexists; try reflexivity.
  instantiate (1 := next_deadline n). by destruct n.
Qed.

Lemma length_ntoh m : length (packet_header_ntoh m) = length m.
Proof using.
  unfold packet_header_ntoh. generalize (seq 0 HEADER_FIELDS). intros l. revert m.
  induction l as [|i l IH]; intros m; cbn [foldl]; [done|]. by rewrite IH, length_put_le.
Qed.

Lemma converted_ok pk : packet_ok mtu pkt_size pk -> packet_ok mtu pkt_size (converted pk).
Proof using. intros [O1 O2 O3 O4 O5]. constructor; [done..|]. cbn [converted set_content packet_buf]. by rewrite length_ntoh. Qed.

Lemma converted_wf pc i pk f : cache_wf pc -> packets pc !! i = Some pk -> cache_wf (update_packet i converted (set_last f true pc)).
Proof.
  intros W E. unfold update_packet. cbn [set_last packets]. rewrite (alter_insert_lookup _ _ _ _ E).
  assert (W' : cache_wf (set_packets (<[i := converted pk]> (packets pc)) pc)) by (by eapply same_count_wf; [..|by eapply converted_ok, wf_packet]).
  destruct W'. by split.
Qed.

(** A state in which the packet was retrieved delivers it, whatever else changed. *)
Lemma retreived_delivers n n' i pk :
  cache_wf (packcache n) -> packets (packcache n) !! i = Some pk -> ready pk -> framecnt pk = expected_framecnt n' ->
  packcache n' = update_packet i converted (set_last (framecnt pk) true (packcache n)) -> rx_buf n' = Some i -> cache_wf (packcache n') /\ delivers n'.
Proof.
  intros W E Hr Hf Ec Ex. rewrite Ec. split; [by eapply converted_wf|]. exists i, pk. split; [done|]. rewrite Ec. split; [|done].
  cbn. by rewrite list_lookup_alter_eq, E.
Qed.

Lemma have_frame_outcome w n :
  cache_wf (packcache n) -> 0 <= expected_framecnt n < 2 ^ 32 -> running_free n = false ->
  packet_cache_get_next_available_framecnt (packcache n) (expected_framecnt n) = Some (expected_framecnt n) ->
  exists n', have_frame w n = Some n' /\ packet_data_valid n' = true /\ expected_framecnt n' = expected_framecnt n /\ outcome n n'.
Proof.
  intros W He Hrf Hn. pose proof (next_available_correct (packcache n) (expected_framecnt n) He (cw_range _ W)) as H. rewrite Hn in H.
  destruct H as (_ & (pk & Hin & Hr & Ef) & _). unfold have_frame.
  set (n1 := n <| time_to_deadline := if ww_now w <? next_deadline n then next_deadline n - ww_now w else 0 |>).
  destruct (retreive_ready n1 pk W Hin Hr) as (i & Ei & Er). change (expected_framecnt n1) with (expected_framecnt n). rewrite <- Ef, Er. cbn [mbind option_bind].
  match goal with |- context [adjust_deadline ?x] => destruct (adjust_same x) as [d ->] end.
  eexists. split; [reflexivity|]. split; [done|]. split; [done|].
  assert (G : forall n', packcache n' = update_packet i converted (set_last (framecnt pk) true (packcache n)) -> rx_buf n' = Some i ->
    expected_framecnt n' = expected_framecnt n -> cache_wf (packcache n') /\ delivers n').
  { intros n' E1 E2 E3. apply (retreived_delivers n n' i pk); [done|done|done|congruence|done|done]. }
  match goal with |- outcome _ ?x => destruct (G x eq_refl eq_refl eq_refl) as [G1 G2] end. by split.
Qed.

Lemma frame_ahead_outcome n f :
  cache_wf (packcache n) -> 0 <= expected_framecnt n < 2 ^ 32 -> running_free n = false ->
  packet_cache_get_next_available_framecnt (packcache n) (expected_framecnt n) = Some f -> f <> expected_framecnt n ->
  exists n', frame_ahead f n = Some n' /\ outcome n n'.
Proof.
  intros W He Hrf Hn Hne. pose proof (next_available_correct (packcache n) (expected_framecnt n) He (cw_range _ W)) as H. rewrite Hn in H.
  destruct H as (Hge & (pk & Hin & Hr & Ef) & Hmin). unfold frame_ahead. destruct (_ <? 10).
  - eexists. split; [reflexivity|]. assert (Hno : forall pk, pk ∈ packets (packcache n) -> ready pk -> framecnt pk <> expected_framecnt n).
    { intros q Hq Hrq Eq. specialize (Hmin q Hq Hrq ltac:(lia)). lia. }
    destruct (packet_cache_get_fill_above_80 _ _); by split.
  - set (n1 := n <| expected_framecnt := f |>). destruct (retreive_ready n1 pk W Hin Hr) as (i & Ei & Er). rewrite Ef in Er; rewrite Er; rewrite <- Ef. cbn [mbind option_bind].
    eexists. split; [reflexivity|].
    match goal with |- outcome _ ?x => destruct (retreived_delivers n x i pk W Ei Hr Ef eq_refl eq_refl) as [G1 G2] end.
    assert (0 <= f < 2 ^ 32) by (rewrite <- Ef; by apply (proj1 (Forall_forall _ _) (cw_range _ W))). by split.
Qed.

Lemma no_frame_outcome n :
  cache_wf (packcache n) -> 0 <= expected_framecnt n < 2 ^ 32 -> running_free n = false ->
  packet_cache_get_next_available_framecnt (packcache n) (expected_framecnt n) = None ->
  exists n', no_frame n = Some n' /\ outcome n n'.
Proof.
  intros W He Hrf Hn. pose proof (next_available_correct (packcache n) (expected_framecnt n) He (cw_range _ W)) as H. rewrite Hn in H.
  assert (Hno : forall pk, pk ∈ packets (packcache n) -> ready pk -> framecnt pk <> expected_framecnt n).
  { intros q Hq Hrq Eq. specialize (H q Hq Hrq ltac:(lia)). lia. }
  unfold no_frame. change (num_lost_packets (n <| packet_data_valid := false |>)) with (num_lost_packets n).
  change (packcache (n <| packet_data_valid := false |>)) with (packcache n). destruct (num_lost_packets n <? 5).
  { eexists. split; [reflexivity|]. case_bool_decide; by split. }
  destruct (num_lost_packets n <=? 100); [eexists; split; [reflexivity|by split]|].
  destruct (packet_cache_get_highest_available_framecnt (packcache n)) as [f|] eqn:Eh.
  - apply highest_ready in Eh as [?|(pk & Hin & Hr & Ef)]; [done|].
    set (n1 := n <| packet_data_valid := false |> <| expected_framecnt := f |>). destruct (retreive_ready n1 pk W Hin Hr) as (i & Ei & Er).
    rewrite Ef in Er; rewrite Er; rewrite <- Ef. cbn [mbind option_bind]. eexists. split; [reflexivity|].
    match goal with |- outcome _ ?x => destruct (retreived_delivers n x i pk W Ei Hr Ef eq_refl eq_refl) as [G1 G2] end.
    assert (0 <= f < 2 ^ 32) by (rewrite <- Ef; by apply (proj1 (Forall_forall _ _) (cw_range _ W))). by split.
  - eexists. split; [reflexivity|]. destruct W. destruct (_ >? 200); by split.
Qed.

Lemma no_expected_outcome n :
  cache_wf (packcache n) -> 0 <= expected_framecnt n < 2 ^ 32 -> running_free n = false ->
  packet_cache_get_next_available_framecnt (packcache n) (expected_framecnt n) <> Some (expected_framecnt n) ->
  exists n', no_expected_frame n = Some n' /\ outcome n n'.
Proof.
  intros W He Hrf Hn. unfold no_expected_frame. set (n1 := n <| time_to_deadline := 0 |> <| next_deadline ::= _ |>).
  assert (G : forall n', outcome n1 n' -> outcome n n') by (by intros n' []; split).
  change (packcache n1) with (packcache n). change (expected_framecnt n1) with (expected_framecnt n).
  destruct (packet_cache_get_next_available_framecnt (packcache n) (expected_framecnt n)) as [f|] eqn:E.
  - destruct (frame_ahead_outcome n1 f W He Hrf E) as (n' & E' & Ho); [change (expected_framecnt n1) with (expected_framecnt n); congruence|]. exists n'. split; [done|by apply G].
  - destruct (no_frame_outcome n1 W He Hrf E) as (n' & E' & Ho). exists n'. split; [done|by apply G].
Qed.

(** The count of lost packets, whatever the cache holds. *)
Record counted (n n' : netjack_driver_state_t) : Prop := mk_counted {
  ct_period : period_usecs n' = period_usecs n;
  ct_lost : num_lost_packets n' = num_lost_packets n;
  ct_free : packet_data_valid n' = true -> running_free n' = false
}.

Lemma retreive_shape f n n1 : retreive f n = Some n1 -> exists pc i, n1 = n <| packcache := pc |> <| rx_buf := Some i |>.
Proof.
  unfold retreive. destruct (packet_cache_retreive_packet_pointer (packcache n) f (rx_bufsize n)) as [[z r] pc].
  destruct (match r with Some _ => _ | None => _ end) as [i|]; [|done]. cbn [mbind option_bind].
  destruct (packets pc !! i); [|done]. cbn [mbind option_bind]. intros [= <-]. by eexists _, _.
Qed.

Lemma have_frame_counted w n n' : running_free n = false -> have_frame w n = Some n' -> counted n n'.
Proof.
  intros Hrf. unfold have_frame. destruct (retreive _ _) as [n1|] eqn:E; [|done]. cbn [mbind option_bind]. apply retreive_shape in E as (pc & i & ->).
  match goal with |- context [adjust_deadline ?x] => destruct (adjust_same x) as [d ->] end. intros [= <-]. by split.
Qed.

Lemma frame_ahead_counted f n n' : running_free n = false -> frame_ahead f n = Some n' -> counted n n'.
Proof.
  intros Hrf. unfold frame_ahead. destruct (_ <? 10); [intros [= <-]; destruct (packet_cache_get_fill_above_80 _ _); by split|].
  destruct (retreive _ _) as [n1|] eqn:E; [|done]. cbn [mbind option_bind]. apply retreive_shape in E as (pc & i & ->). intros [= <-]. by split.
Qed.

Lemma no_frame_counted n n' : running_free n = false -> no_frame n = Some n' -> counted n n'.
Proof.
  intros Hrf. unfold no_frame. destruct (_ <? 5); [intros [= <-]; case_bool_decide; by split|]. destruct (_ <=? 100); [intros [= <-]; by split|].
  destruct (packet_cache_get_highest_available_framecnt _) as [f|]; [|intros [= <-]; destruct (_ >? 200); by split].
  destruct (retreive _ _) as [n1|] eqn:E; [|done]. cbn [mbind option_bind]. apply retreive_shape in E as (pc & i & ->). intros [= <-]. by split.
Qed.

Lemma no_expected_counted n n' : running_free n = false -> no_expected_frame n = Some n' -> counted n n'.
Proof.
  intros Hrf. unfold no_expected_frame. set (n1 := n <| time_to_deadline := 0 |> <| next_deadline ::= _ |>).
  assert (G : counted n1 n' -> counted n n') by (by intros []; split).
  intros H. apply G. destruct (packet_cache_get_next_available_framecnt _ _); [by eapply frame_ahead_counted|by eapply no_frame_counted].
Qed.

(** What a period returns: the first lost packet at once, the others when the data are back. *)
Definition reports (n n' : netjack_driver_state_t) (ret : Z) : Prop :=
  period_usecs n' = period_usecs n /\
  if packet_data_valid n' then num_lost_packets n' = 0 /\ ret = (if num_lost_packets n >? 1 then s32 ((num_lost_packets n - 1) * period_usecs n) else 0)
  else num_lost_packets n' = u32 (num_lost_packets n + 1) /\ ret = (if u32 (num_lost_packets n + 1) =? 1 then s32 (period_usecs n) else 0).

Lemma count_lost_reports n n1 ret n' : counted n n1 -> count_lost n1 = (ret, n') -> reports n n' ret /\ packet_data_valid n' = packet_data_valid n1.
Proof.
  intros [Hp Hl Hf] E. unfold count_lost in E. rewrite Hp, Hl in E. unfold reports. destruct (packet_data_valid n1) eqn:Ev; injection E as <- <-; cbn; rewrite ?Ev, ?Hp.
  - rewrite (Hf eq_refl), andb_true_r. done.
  - done.
Qed.

Lemma learn_same n : exists a v, learn_address n = n <| syncsource_address := a |> <| srcaddress_valid := v |>.
Proof. unfold learn_address. destruct (_ && _); [by eexists _, _|]. exists (syncsource_address n), (srcaddress_valid n). by destruct n. Qed.

Lemma count_frame_shape w n n1 : count_frame w (set_deadline w n) = Some n1 ->
  exists d pc f, n1 = n <| next_deadline := d |> <| next_deadline_valid := true |> <| packcache := pc |> <| expected_framecnt := f |> <| expected_framecnt_valid := true |>.
Proof.
  assert (H : exists d, set_deadline w n = n <| next_deadline := d |> <| next_deadline_valid := true |>).
  { unfold set_deadline. destruct (next_deadline_valid n) eqn:E; [|by eexists]. exists (next_deadline n). destruct n; cbn in *. by rewrite E. }
  destruct H as [d ->]. unfold count_frame. cbn. destruct (expected_framecnt_valid n) eqn:E.
  - intros [= <-]. exists d, (packcache n), (u32 (expected_framecnt n + 1)). destruct n; cbn in *. by rewrite E.
  - destruct (packet_cache_drain_socket _ _ _) as [pc|]; [|done]. cbn [mbind option_bind]. intros [= <-]. by eexists d, pc, _.
Qed.

Lemma wait_reports fuel w n ret n' : netjack_wait fuel w n = Some (ret, n') -> reports n n' ret.
Proof.
  unfold netjack_wait. destruct (count_frame w (set_deadline w n)) as [n1|] eqn:E1; [|done]. cbn [mbind option_bind].
  apply count_frame_shape in E1 as (d & pc1 & f & ->). destruct (wait_loop _ _ _ _ _ _ _ _) as [[have pc]|]; [|done]. cbn [mbind option_bind fst snd].
  match goal with |- context [learn_address ?x] => destruct (learn_same x) as (a & v & ->) end.
  set (m := _ <| running_free := false |>). destruct (if have then have_frame w m else no_expected_frame m) as [n2|] eqn:E2; [|done]. cbn [mbind option_bind].
  intros [= E3]. assert (C : counted m n2) by (destruct have; [by eapply have_frame_counted|by eapply no_expected_counted]).
  assert (C' : counted n n2) by (by destruct C; split). by destruct (count_lost_reports _ _ _ _ C' E3).
Qed.

(** What comes in a period: datagrams of sizes that fit; the clock reaches the deadline. *)
Record period_ok (fuel : nat) (w : wait_world) (n : netjack_driver_state_t) : Prop := mk_period_ok {
  pe_rx : zlen (ww_rx w) = mtu;
  pe_first : Forall fits (ww_first w);
  pe_polls : forall k, Forall fits (po_data (ww_polls w k));
  pe_clock : exists k, (k < fuel)%nat /\ next_deadline (set_deadline w n) <= po_now (ww_polls w k)
}.

Lemma count_frame_wf fuel w n :
  cache_wf (packcache n) -> period_ok fuel w n -> exists n1, count_frame w (set_deadline w n) = Some n1 /\
    cache_wf (packcache n1) /\ 0 <= expected_framecnt n1 < 2 ^ 32 /\ next_deadline n1 = next_deadline (set_deadline w n).
Proof using SZ.
  intros W [Hrx Hf _ _]. assert (E : packcache (set_deadline w n) = packcache n) by (unfold set_deadline; by destruct (next_deadline_valid n)).
  unfold count_frame. rewrite E. destruct (expected_framecnt_valid _).
  - eexists. split; [done|]. cbn. rewrite E. split_and!; [done|unfold u32; apply Z.mod_pos_bound; lia|unfold u32; apply Z.mod_pos_bound; lia|done].
  - destruct (drain_wf _ _ _ W Hrx Hf) as (pc & -> & W'). cbn [mbind option_bind]. eexists. split; [done|]. cbn. split; [done|].
    destruct (packet_cache_get_highest_available_framecnt pc) as [f|] eqn:Eh; cbn; [|done].
    apply highest_ready in Eh as [?|(pk & Hin & _ & <-)]; [done|]. split; [|done]. by apply (proj1 (Forall_forall _ _) (cw_range _ W')).
Qed.

(** C39: One period without the option to wait until the deadline, with a cache as the driver has
    made it, datagrams that hold a header and not more than the packet, and a clock that
    reaches the deadline: the wait ends, without access outside of a block.  It has data just
    if the driver points to the complete packet with the frame count that it expects; otherwise
    no packet of the cache is that one.  If the packet came before the deadline, the data
    are there and the frame count is the one that followed the last.  Lost periods are counted
    and returned, and the cache stays as it has to be. *)
Theorem wait_correct fuel w n :
  cache_wf (packcache n) -> always_deadline n = false -> period_ok fuel w n ->
  exists n1 ret n', count_frame w (set_deadline w n) = Some n1 /\ netjack_wait fuel w n = Some (ret, n') /\
    cache_wf (packcache n') /\ 0 <= expected_framecnt n' < 2 ^ 32 /\ reports n n' ret /\
    (if packet_data_valid n' then delivers n'
     else expected_framecnt n' = expected_framecnt n1 /\ forall pk, pk ∈ packets (packcache n') -> ready pk -> framecnt pk <> expected_framecnt n') /\
    (in_time (ww_rx w) (expected_framecnt n1) (next_deadline n1) (ww_polls w) (packcache n1) ->
       packet_data_valid n' = true /\ expected_framecnt n' = expected_framecnt n1).
Proof using SZ.
  intros W Ha P. destruct (count_frame_wf fuel w n W P) as (n1 & E1 & W1 & He & Ed). exists n1. destruct P as [Hrx _ Hp (K & HK & Hc)].
  rewrite <- Ed in Hc. destruct (wait_loop_spec _ _ _ _ Hrx He fuel _ _ W1 Hp Hc HK) as (have & pc & E2 & W2 & Hh & Hi). clear Hc.
  assert (Ha1 : always_deadline n1 = false) by (by destruct (count_frame_shape w n n1 E1) as (? & ? & ? & ->)).
  assert (Ew : netjack_wait fuel w n = (n2 ← (if have then have_frame w (learn_address (n1 <| packcache := pc |>) <| running_free := false |>)
      else no_expected_frame (learn_address (n1 <| packcache := pc |>) <| running_free := false |>)); Some (count_lost n2))).
  { unfold netjack_wait. rewrite E1. cbn [mbind option_bind]. rewrite Ha1, E2. by destruct have. }
  pose proof (wait_reports fuel w n) as R. rewrite Ew in R |- *. clear Ew.
  destruct (learn_same (n1 <| packcache := pc |>)) as (a & v & E). rewrite E in R |- *. clear E.
  set (m := _ <| running_free := false |>) in *.
  assert (G : exists n2, (if have then have_frame w m else no_expected_frame m) = Some n2 /\ outcome m n2 /\
    (have = true -> packet_data_valid n2 = true /\ expected_framecnt n2 = expected_framecnt n1)).
  { destruct have; symmetry in Hh; [apply bool_decide_eq_true in Hh|apply bool_decide_eq_false in Hh].
    - destruct (have_frame_outcome w m W2 He eq_refl Hh) as (n2 & ? & ? & ? & ?). by exists n2.
    - destruct (no_expected_outcome m W2 He eq_refl Hh) as (n2 & ? & ?). by exists n2. }
  destruct G as (n2 & E & [_ _ _ _ Oc Oe Od] & Hd). rewrite E in R |- *. cbn [mbind option_bind] in R |- *.
  destruct (count_lost n2) as [ret n'] eqn:El. exists ret, n'. split; [done|]. split; [done|]. specialize (R ret n' eq_refl).
  assert (G : packcache n' = packcache n2 /\ expected_framecnt n' = expected_framecnt n2 /\ packet_data_valid n' = packet_data_valid n2 /\ rx_buf n' = rx_buf n2).
  { unfold count_lost in El. destruct (packet_data_valid n2) eqn:Ev; injection El as <- <-; by cbn; rewrite Ev. }
  destruct G as (G1 & G2 & G3 & G4). unfold delivers. rewrite G1, G2, G3, G4. split_and!; [done|lia|lia|done| |by intros H%Hi; apply Hd].
  destruct (packet_data_valid n2); [apply Od|done].
Qed.

End wait.

(** ** Several periods *)

(** Whether each period has data, and what it returns. *)
Fixpoint waits (fuel : nat) (ws : list wait_world) (n : netjack_driver_state_t) : option (list (bool * Z) * netjack_driver_state_t) :=
  match ws with
  | [] => Some ([], n)
  | w :: ws => r ← netjack_wait fuel w n; t ← waits fuel ws r.2; Some ((packet_data_valid r.2, r.1) :: t.1, t.2)
  end.

Definition total (l : list (bool * Z)) : Z := foldr Z.add 0 l.*2.

Lemma gap_rest fuel k : forall ws n out n',
  waits fuel ws n = Some (out, n') -> out.*1 = replicate k false ++ [true] -> 0 < num_lost_packets n -> 0 <= period_usecs n ->
  num_lost_packets n + Z.of_nat k < 2 ^ 32 -> (num_lost_packets n + Z.of_nat k) * period_usecs n < 2 ^ 31 ->
  total out = (num_lost_packets n + Z.of_nat k - 1) * period_usecs n /\ num_lost_packets n' = 0.
Proof.
  induction k as [|k IH]; intros [|w ws] n out n' E Ho Hl Hp Hk Hm; cbn [waits] in E; try (by injection E as <- <-);
    (destruct (netjack_wait fuel w n) as [[ret n1]|] eqn:Ew; [|done]); cbn [mbind option_bind fst snd] in E;
    (destruct (waits fuel ws n1) as [[t n2]|] eqn:Et; [|done]); cbn [mbind option_bind fst snd] in E; injection E as <- <-;
    apply wait_reports in Ew as [Ep Er]; cbn in Ho; injection Ho as Hv Ho; rewrite Hv in Er; destruct Er as [El Er].
  - apply fmap_nil_inv in Ho as ->. destruct ws; [|cbn [waits] in Et; destruct (netjack_wait _ _ _); cbn [mbind option_bind] in Et; [|done]; by destruct (waits _ _ _)].
    injection Et as <-. split; [|done]. unfold total. cbn. rewrite Er. destruct (Z.gtb_spec (num_lost_packets n) 1); [rewrite (swrap_small 32) by (change (32 - 1) with 31; nia); nia|]. assert (num_lost_packets n = 1) as -> by lia. lia.
  - assert (Eu : u32 (num_lost_packets n + 1) = num_lost_packets n + 1) by (apply Z.mod_small; lia). rewrite Eu in El, Er.
    destruct (Z.eqb_spec (num_lost_packets n + 1) 1); [lia|]. destruct (IH ws n1 t n2 Et Ho) as [IH1 IH2]; rewrite ?El, ?Ep; [lia|lia|lia|nia|].
    split; [|done]. unfold total in *. cbn. rewrite IH1, El, Ep, Er. lia.
Qed.

(** A gap of [k] periods is returned as [k] periods: one when it begins, the others when the
    data are back. *)
Theorem gap_reported fuel k ws n out n' :
  waits fuel ws n = Some (out, n') -> out.*1 = replicate (S k) false ++ [true] -> num_lost_packets n = 0 -> 0 <= period_usecs n ->
  Z.of_nat (S k) < 2 ^ 32 -> Z.of_nat (S k) * period_usecs n < 2 ^ 31 ->
  total out = Z.of_nat (S k) * period_usecs n /\ num_lost_packets n' = 0.
Proof.
  intros E Ho Hl Hp Hk Hm. destruct ws as [|w ws]; cbn [waits] in E; [by injection E as <- <-|].
  destruct (netjack_wait fuel w n) as [[ret n1]|] eqn:Ew; [|done]. cbn [mbind option_bind fst snd] in E.
  destruct (waits fuel ws n1) as [[t n2]|] eqn:Et; [|done]. cbn [mbind option_bind fst snd] in E. injection E as <- <-.
  apply wait_reports in Ew as [Ep Er]. cbn in Ho. injection Ho as Hv Ho. rewrite Hv, Hl in Er. destruct Er as [El Er].
  destruct (gap_rest fuel k ws n1 t n2 Et Ho) as [IH1 IH2]; rewrite ?El, ?Ep; change (u32 (0 + 1)) with 1; [lia|lia|lia|nia|].
  split; [|done]. unfold total in *. cbn. rewrite IH1, El, Ep, Er. change (u32 (0 + 1)) with 1. cbn [Z.eqb Pos.eqb]. rewrite (swrap_small 32) by (change (32 - 1) with 31; nia); nia.
Qed.

(** ** A master that is silent *)

(** No datagram comes: the first poll finds nothing, or its time is over. *)
Definition silent (w : wait_world) : Prop := ww_first w = [] /\ po_result (ww_polls w 0%nat) = 0.

Definition none_ready (pc : packet_cache) : Prop := Forall (fun pk => ~ ready pk) (packets pc).

Lemma not_ready pk : ~ ready pk -> negb (valid pk) || negb (cache_packet_is_complete pk) = true.
Proof. unfold ready. intros H. destruct (valid pk), (cache_packet_is_complete pk); cbn; try done. by destruct H. Qed.

Lemma none_next pc e : none_ready pc -> packet_cache_get_next_available_framecnt pc e = None.
Proof.
  unfold none_ready, packet_cache_get_next_available_framecnt. generalize (JACK_MAX_FRAMES / 2 - 1).
  induction 1 as [|pk l H _ IH]; cbn [next_available]; [done|]. by rewrite (not_ready _ H).
Qed.

Lemma none_highest pc : none_ready pc -> packet_cache_get_highest_available_framecnt pc = None.
Proof.
  unfold none_ready, packet_cache_get_highest_available_framecnt. induction 1 as [|pk l H _ IH]; cbn [foldl]; [done|]. by rewrite (not_ready _ H).
Qed.

Lemma silent_loop fuel always rx e deadline polls pc :
  none_ready pc -> po_result (polls 0%nat) = 0 -> wait_loop (S fuel) always rx e deadline polls false pc = Some (false, pc).
Proof.
  intros Hn Hp. cbn [wait_loop]. rewrite none_next by done. unfold netjack_poll_deadline. rewrite Hp. by destruct (_ <=? _).
Qed.

(** The driver takes packets of any master. *)
Definition master_open (n : netjack_driver_state_t) : Prop := srcaddress_valid n = false /\ master_address_valid (packcache n) = false.

Lemma silent_frame n :
  none_ready (packcache n) -> exists n', no_expected_frame n = Some n' /\ packet_data_valid n' = false /\ packets (packcache n') = packets (packcache n) /\
    num_lost_packets n' = num_lost_packets n /\ (200 < num_lost_packets n -> master_open n').
Proof.
  intros Hn. unfold no_expected_frame, no_frame. cbn. rewrite (none_next _ _ Hn), (none_highest _ Hn).
  destruct (Z.ltb_spec (num_lost_packets n) 5); [eexists; split; [reflexivity|]; case_bool_decide; split_and!; done || lia|].
  destruct (Z.leb_spec (num_lost_packets n) 100); [eexists; split; [reflexivity|]; split_and!; done || lia|].
  eexists. split; [reflexivity|]. destruct (Z.gtb_spec (num_lost_packets n) 200); split_and!; done || lia.
Qed.

Lemma silent_wait fuel w n :
  silent w -> none_ready (packcache n) -> exists ret n', netjack_wait (S fuel) w n = Some (ret, n') /\ packet_data_valid n' = false /\
    none_ready (packcache n') /\ (200 < num_lost_packets n -> master_open n').
Proof.
  intros [Hf Hp] Hn. unfold netjack_wait.
  assert (E : exists n1, count_frame w (set_deadline w n) = Some n1 /\ packcache n1 = packcache n).
  { assert (E : packcache (set_deadline w n) = packcache n) by (unfold set_deadline; by destruct (next_deadline_valid n)).
    unfold count_frame. rewrite E, Hf. destruct (expected_framecnt_valid _); eexists; split; reflexivity || done. }
  destruct E as (n1 & E & Ec). pose proof (count_frame_shape w n n1 E) as (d & pc & f & En). rewrite E. cbn [mbind option_bind]. rewrite Ec, silent_loop by done.
  cbn [mbind option_bind fst snd]. destruct (learn_same (n1 <| packcache := packcache n |>)) as (a & v & ->). set (m := _ <| running_free := false |>).
  destruct (silent_frame m Hn) as (n2 & E2 & Hv & Hpk & Hl & Ho). rewrite E2. cbn [mbind option_bind]. unfold count_lost. rewrite Hv.
  eexists _, _. split; [reflexivity|]. split_and!; [done|unfold none_ready; by cbn; rewrite Hpk|].
  intros H. apply Ho. unfold m. by rewrite En.
Qed.

Lemma silent_waits fuel ws : forall n,
  Forall silent ws -> none_ready (packcache n) -> 0 <= num_lost_packets n -> num_lost_packets n + zlen ws < 2 ^ 32 ->
  exists out n', waits (S fuel) ws n = Some (out, n') /\ num_lost_packets n' = num_lost_packets n + zlen ws /\ (201 < num_lost_packets n' -> ws <> [] -> master_open n').
Proof.
  induction ws as [|w ws IH]; intros n Hs Hn Hl Hw; [exists [], n; cbn; split_and!; [done|lia|done]|].
  apply Forall_cons in Hs as [Hs Hss]. destruct (silent_wait fuel w n Hs Hn) as (ret & n1 & E & Hv & Hn1 & Ho1).
  pose proof (wait_reports _ _ _ _ _ E) as [_ Hr]. rewrite Hv in Hr. destruct Hr as [Hr _]. rewrite length_cons in Hw |- *.
  rewrite wrap_small in Hr by lia. cbn [waits]. rewrite E. cbn [mbind option_bind fst snd].
  destruct (decide (ws = [])) as [->|Hne].
  - exists [(packet_data_valid n1, ret)], n1. split_and!; [done|cbn; lia|]. intros H _. apply Ho1. lia.
  - destruct (IH n1) as (out & n' & E' & Hl' & Ho'); [done|done|lia|lia|]. rewrite E'. cbn [mbind option_bind fst snd].
    eexists _, n'. split_and!; [done|lia|]. intros H _. by apply Ho'.
Qed.

(** When no datagram comes for more than 201 periods in a row, the driver forgets the address of
    its master: it takes packets of another one. *)
Theorem silent_master_forgotten fuel ws n :
  Forall silent ws -> none_ready (packcache n) -> num_lost_packets n = 0 -> 201 < zlen ws < 2 ^ 32 ->
  exists out n', waits (S fuel) ws n = Some (out, n') /\ master_open n' /\ num_lost_packets n' = zlen ws.
Proof.
  intros Hs Hn Hl Hw. destruct (silent_waits fuel ws n Hs Hn) as (out & n' & E & E' & Ho); [lia|lia|]. exists out, n'. split_and!; [done| |lia].
  apply Ho; [lia|]. intros ->. cbn in Hw. lia.
Qed.

(** ** Concrete periods *)

(** A driver that has just started, with room for two packets. *)
Definition netj0 : netjack_driver_state_t :=
  mk_netj 21333 false 0 2 66 0 false 0 false 0 false false 0 0 [] false None (default (mk_cache [] 0 [] false 0 false) (packet_cache_new h0 2 66 60)).

Definition datagrams (f : Z) : list datagram := (fun x => mk_datagram [1] x 100) <$> fragments_of f.

(** Polls that find the datagrams of a list one after the other; then the time is over. *)
Definition polls_of (l : list (list datagram)) (k : nat) : poll_answer :=
  match l !! k with Some ds => mk_poll (100 + Z.of_nat k) 1 ds | None => mk_poll (2 ^ 63) 0 [] end.

(** Packet 5 is there at first, or it comes before the deadline, or nothing comes. *)
Definition world_start : wait_world := mk_wworld 100 200 (replicate 60 0) (datagrams 5) (polls_of []).
Definition world5 : wait_world := mk_wworld 100 200 (replicate 60 0) [] (polls_of [[]; datagrams 5]).
Definition world_silent : wait_world := mk_wworld 100 200 (replicate 60 0) [] (polls_of []).

Lemma netj0_unused : Forall (fun pk => valid pk = false) (packets (packcache netj0)).
Proof. apply (bool_decide_unpack _). vm_compute. exact I. Qed.

Lemma netj0_wf : cache_wf 60 66 (packcache netj0).
Proof.
  split; [|apply (bool_decide_unpack _); vm_compute; exact I| |done|done].
  - intros i j p q Hi _ Hp. pose proof (Forall_lookup_1 _ _ _ _ netj0_unused Hi). congruence.
  - assert (E : exists l, new_packets h0 66 60 0 2 = Some l /\ packets (packcache netj0) = l) by (by eexists).
    destruct E as (l & E & ->). destruct (new_packets_ok 60 66 sizes0 h0 heap0_ok 2 0 l E) as [_ H].
    eapply Forall_impl; [exact H|]. by intros pk [].
Qed.

(** The packet comes with the second poll. *)
Lemma wait_correct_witness :
  exists ret n', netjack_wait 3 world5 (netj0 <| expected_framecnt := 4 |> <| expected_framecnt_valid := true |>) = Some (ret, n') /\
    packet_data_valid n' = true /\ expected_framecnt n' = 5 /\ delivers n'.
Proof.
  set (m := netj0 <| expected_framecnt := 4 |> <| expected_framecnt_valid := true |>).
  assert (Hd : Forall (fits 60 66) (datagrams 5)) by (apply (bool_decide_unpack _); vm_compute; exact I).
  destruct (wait_correct 60 66 sizes0 3 world5 m netj0_wf eq_refl) as (n1 & ret & n' & E1 & E & _ & _ & _ & Hdata & Ht).
  - constructor; [reflexivity|constructor| |].
    + intros k. unfold world5, ww_polls, polls_of. destruct k as [|[|k]]; [constructor|exact Hd|constructor].
    + exists 2%nat. split; [lia|]. by vm_compute.
  - exists ret, n'. vm_compute in E1. injection E1 as <-.
    assert (Hin : in_time (ww_rx world5) 5 21433 (ww_polls world5) (packcache m)).
    { set (pc := default (packcache m) (packet_cache_drain_socket (packcache m) (replicate 60 0) (datagrams 5))).
      assert (Ep : drained (ww_rx world5) (ww_polls world5) 2 (packcache m) = Some pc) by (vm_compute; reflexivity).
      assert (E0 : exists pk, packets pc !! 0%nat = Some pk /\ valid pk && cache_packet_is_complete pk = true /\ framecnt pk = 5)
        by (vm_compute; eexists; split_and!; reflexivity).
      clearbody pc. exists 2%nat, pc. split; [exact Ep|]. split.
      - destruct E0 as (pk & E0 & [Hr1 Hr2]%andb_true_iff & Hf). exists pk. split; [exact (list_elem_of_lookup_2 _ _ _ E0)|exact (conj (conj Hr1 Hr2) Hf)].
      - intros [|[|i]] Hi; [intros H; vm_compute in H; discriminate H|intros H; vm_compute in H; discriminate H|lia]. }
    destruct (Ht Hin) as [Hv He]. rewrite Hv in Hdata. split_and!; [exact E|exact Hv|exact He|exact Hdata].
Defined.

Lemma gap_reported_witness :
  exists out n', waits 3 [world_silent; world_silent; world5] (netj0 <| expected_framecnt := 2 |> <| expected_framecnt_valid := true |>) = Some (out, n') /\
    total out = 2 * 21333.
Proof.
  set (m := netj0 <| expected_framecnt := 2 |> <| expected_framecnt_valid := true |>). set (ws := [world_silent; world_silent; world5]).
  assert (E : exists out n', waits 3 ws m = Some (out, n') /\ out.*1 = replicate 2 false ++ [true]) by (vm_compute; by eexists _, _).
  destruct E as (out & n' & E & Ho). exists out, n'. split; [exact E|].
  by destruct (gap_reported 3 1 ws m out n' E Ho eq_refl ltac:(by vm_compute) ltac:(by vm_compute) ltac:(by vm_compute)).
Defined.

Lemma silent_master_forgotten_witness :
  exists out n', waits 1 (replicate 202 world_silent) netj0 = Some (out, n') /\ master_open n'.
Proof.
  destruct (silent_master_forgotten 0 (replicate 202 world_silent) netj0) as (out & n' & E & Ho & _).
  - apply Forall_replicate. by split.
  - eapply Forall_impl; [exact netj0_unused|]. intros pk Hp [Hv _]. congruence.
  - reflexivity.
  - by vm_compute.
  - exists out, n'. split; [exact E|exact Ho].
Defined.

(** With the option to wait until the deadline, the loop goes on reading when the packet is there.
    In a cache with room for one packet, packet 6 takes the place of packet 5.  The result of
    [packet_cache_retreive_packet_pointer] is not tested: the period has data, but the driver
    points to packet 6. *)
Example packet_lost_again :
  exists ret n' pk,
    netjack_wait 3 (mk_wworld 100 200 (replicate 60 0) [] (polls_of [datagrams 5; datagrams 6]))
      (mk_netj 21333 true 0 2 66 0 false 4 true 0 false false 0 0 [] false (Some 0%nat)
        (default (mk_cache [] 0 [] false 0 false) (packet_cache_new h0 1 66 60))) = Some (ret, n') /\
    packet_data_valid n' = true /\ expected_framecnt n' = 5 /\ packets (packcache n') = [pk] /\ framecnt pk = 6.
Proof. vm_compute. by eexists _, _, _. Qed.

End NetWait.
