(* ===== verification/RawMidi.v ===== *)
(** * MIDI byte streams (drivers/alsa-midi/midi_pack.h, midi_unpack.h)

    The raw MIDI driver sends messages as a byte stream with running status:
    a voice message with the status of the one before goes without it.  The
    input side cuts a stream into messages again.  The streams come in pieces;
    real-time messages can stand between the bytes of others. *)

From S2P Require Import Prelude Bytes MidiPort.

Local Open Scope Z_scope.

Module RawMidi.
Import MidiPort.

Definition MIDI_UNPACK_MAX_MSG : Z := 1024.

(** ** Cutting a stream into messages *)

Record midi_unpack_t := mk_unpack { u_pos : Z; u_need : Z; u_size : Z; u_data : list Z }.

Definition midi_unpack_init (u : midi_unpack_t) : midi_unpack_t :=
  mk_unpack 0 MIDI_UNPACK_MAX_MSG MIDI_UNPACK_MAX_MSG (u_data u).

Definition midi_unpack_reset (u : midi_unpack_t) : midi_unpack_t := mk_unpack 0 (u_size u) (u_size u) (u_data u).

Definition midi_voice_len : list Z := [3; 3; 3; 3; 2; 2; 3; 1].
Definition midi_system_len : list Z := [0; 2; 3; 2; 0; 0; 1; 1].

Definition set_data (u : midi_unpack_t) (i b : Z) : list Z := <[Z.to_nat i := b]> (u_data u).

(** A byte is put into the message; [None] when the assertion fails. *)
Definition take_byte (u : midi_unpack_t) (byte : Z) : option midi_unpack_t :=
  if byte >=? 0xF8 then Some u
  else if byte <? 0x80 then
    if u_pos u <? u_size u then Some (mk_unpack (u_pos u + 1) (u_need u) (u_size u) (set_data u (u_pos u) byte)) else None
  else if byte <? 0xF0 then
    Some (mk_unpack 1 (midi_voice_len !!! Z.to_nat (Z.shiftr (byte - 0x80) 4)) (u_size u) (set_data u 0 byte))
  else if byte =? 0xF7 then
    if u_pos u <? u_size u then Some (mk_unpack (u_pos u + 1) (u_pos u + 1) (u_size u) (set_data u (u_pos u) byte)) else None
  else
    let need := midi_system_len !!! Z.to_nat (byte - 0xF0) in
    Some (mk_unpack 1 (if need =? 0 then u_size u else need) (u_size u) (set_data u 0 byte)).

Definition byte_at (u : midi_unpack_t) (i : Z) : Z := u_data u !!! Z.to_nat i.

(** The message that is complete, as it is written to the port. *)
Definition message (u : midi_unpack_t) : list (list Z) :=
  if (byte_at u 0 >=? 0x80) || ((byte_at u 0 =? 0xF0) && (byte_at u (u_pos u - 1) =? 0xF7)) then
    if (Z.land (byte_at u 0) 0xF0 =? 0x90) && (byte_at u 2 =? 0) then
      [[Z.lor 0x80 (Z.land (byte_at u 0) 0x0F); byte_at u 1; 0x40]]
    else [load_n (u_data u) 0 (u_pos u)]
  else [].

Definition flush (u : midi_unpack_t) : midi_unpack_t * list (list Z) :=
  if u_pos u =? u_need u then
    (if (byte_at u 0 >=? 0x80) && (byte_at u 0 <? 0xF0) then mk_unpack 1 (u_need u) (u_size u) (u_data u)
     else mk_unpack 0 (u_size u) (u_size u) (u_data u), message u)
  else (u, []).

(** One round of the loop: the messages it writes, a real-time one first. *)
Definition unpack_byte (u : midi_unpack_t) (byte : Z) : option (midi_unpack_t * list (list Z)) :=
  u ← take_byte u byte;
  let '(u, out) := flush u in
  Some (u, (if byte >=? 0xF8 then [[byte]] else []) ++ out).

Fixpoint unpack_bytes (u : midi_unpack_t) (data : list Z) : option (midi_unpack_t * list (list Z)) :=
  match data with
  | [] => Some (u, [])
  | byte :: data =>
      '(u, out) ← unpack_byte u byte;
      '(u, out') ← unpack_bytes u data;
      Some (u, out ++ out')
  end.

(** The messages go to the port buffer [m] with the time of the piece; the
    number of bytes that were taken is returned. *)
Definition midi_unpack_buf (u : midi_unpack_t) (data m : list Z) (time : Z) : option (Z * midi_unpack_t * list Z) :=
  '(u, out) ← unpack_bytes u data;
  Some (zlen data, u, foldl (fun m msg => (jack_midi_event_write m time msg).2) m out).

(** ** Running status *)

Definition midi_pack_reset : Z := 0.

(** [running_status] and the bytes of the event; what is left of the event. *)
Definition midi_pack_event (running_status : Z) (e : list Z) : option (Z * list Z) :=
  match e with
  | [] => None
  | b :: rest =>
      if (b >=? 0x80) && (b <? 0xF0) then
        if b =? running_status then Some (running_status, rest) else Some (b, e)
      else if b <? 0xF8 then Some (0, e)
      else Some (running_status, e)
  end.

Fixpoint pack_events (running_status : Z) (l : list (list Z)) : option (Z * list Z) :=
  match l with
  | [] => Some (running_status, [])
  | e :: l =>
      '(rs, bytes) ← midi_pack_event running_status e;
      '(rs, bytes') ← pack_events rs l;
      Some (rs, bytes ++ bytes')
  end.

(** ** The parser never runs out of its buffer *)

Record unpack_ok (u : midi_unpack_t) : Prop := {
  uo_pos : 0 <= u_pos u < u_need u;
  uo_need : u_need u <= u_size u;
  uo_size : u_size u = MIDI_UNPACK_MAX_MSG;
  uo_data : zlen (u_data u) = MIDI_UNPACK_MAX_MSG
}.

Definition is_byte (b : Z) : Prop := 0 <= b < 256.

Lemma init_ok u : zlen (u_data u) = MIDI_UNPACK_MAX_MSG -> unpack_ok (midi_unpack_init u).
Proof. by constructor. Qed.

Lemma reset_ok u : unpack_ok u -> unpack_ok (midi_unpack_reset u).
Proof. intros [H1 H2 H3 H4]. constructor; cbn; [lia|lia|done|done]. Qed.

Definition voice_len (s : Z) : Z := midi_voice_len !!! Z.to_nat (Z.shiftr (s - 0x80) 4).
Definition is_voice (s : Z) : Prop := 0x80 <= s < 0xF0.

Lemma voice_len_bounds s : is_voice s -> 2 <= voice_len s <= 3.
Proof.
  intros Hs. unfold voice_len, is_voice in *. rewrite Z.shiftr_div_pow2 by lia. change (2 ^ 4) with 16.
  assert (Hk : exists k : nat, Z.to_nat ((s - 128) / 16) = k /\ (k < 7)%nat).
  { exists (Z.to_nat ((s - 128) / 16)). split; [done|]. pose proof (Z.div_lt_upper_bound (s - 128) 16 7). lia. }
  destruct Hk as (k & -> & Hk). do 7 (destruct k as [|k]; [cbn; lia|]). lia.
Qed.

Lemma byte_at_set p n z u i j b :
  zlen (u_data u) = MIDI_UNPACK_MAX_MSG -> 0 <= i < MIDI_UNPACK_MAX_MSG -> 0 <= j ->
  byte_at (mk_unpack p n z (set_data u i b)) j = if decide (i = j) then b else byte_at u j.
Proof.
  intros Hl Hi Hj. unfold byte_at, set_data. cbn [u_data]. destruct (decide (i = j)) as [->|Hne].
  - apply list_lookup_total_insert_eq. lia.
  - apply list_lookup_total_insert_ne. lia.
Qed.

(** Between the two halves of a round the message can be complete. *)
Lemma take_byte_ok u b :
  unpack_ok u -> is_byte b ->
  exists u', take_byte u b = Some u' /\ 0 <= u_pos u' <= u_need u' /\ 0 < u_need u' <= u_size u' /\
    u_size u' = MIDI_UNPACK_MAX_MSG /\ zlen (u_data u') = MIDI_UNPACK_MAX_MSG /\
    (u_pos u' = u_need u' -> is_voice (byte_at u' 0) -> 1 < u_need u').
Proof.
  intros [H1 H2 H3 H4] Hb. unfold take_byte. unfold is_voice, is_byte in *.
  assert (Hset : forall i, length (set_data u i b) = length (u_data u)) by (intros; apply length_insert).
  assert (Hat : forall p n z i, 0 <= i < MIDI_UNPACK_MAX_MSG ->
    byte_at (mk_unpack p n z (set_data u i b)) 0 = if decide (i = 0) then b else byte_at u 0)
    by (intros; by apply byte_at_set).
  unfold MIDI_UNPACK_MAX_MSG in *.
  destruct (Z.geb_spec b 0xF8); [exists u; split_and!; try done; lia|].
  destruct (Z.ltb_spec b 0x80).
  { rewrite (proj2 (Z.ltb_lt _ _)) by lia. eexists. split; [done|]. cbn [u_pos u_need u_size u_data]. rewrite Hset.
    split_and!; try lia. rewrite Hat by lia. destruct (decide _); lia. }
  destruct (Z.ltb_spec b 0xF0).
  { fold (voice_len b). pose proof (voice_len_bounds b ltac:(unfold is_voice; lia)). eexists. split; [done|]. cbn [u_pos u_need u_size u_data].
    rewrite Hset. split_and!; lia. }
  destruct (Z.eqb_spec b 0xF7).
  { rewrite (proj2 (Z.ltb_lt _ _)) by lia. eexists. split; [done|]. cbn [u_pos u_need u_size u_data]. rewrite Hset.
    split_and!; try lia. rewrite Hat by lia. destruct (decide _); lia. }
  eexists. split; [done|]. cbn [u_pos u_need u_size u_data]. rewrite Hset, Hat by lia. rewrite decide_True by done.
  assert (Hk : exists k : nat, Z.to_nat (b - 240) = k /\ (k < 7)%nat) by (exists (Z.to_nat (b - 240)); lia).
  destruct Hk as (k & -> & Hk). do 7 (destruct k as [|k]; [cbn; split_and!; lia|]). lia.
Qed.

Lemma flush_ok u :
  0 <= u_pos u <= u_need u -> 0 < u_need u <= u_size u -> u_size u = MIDI_UNPACK_MAX_MSG ->
  zlen (u_data u) = MIDI_UNPACK_MAX_MSG -> (u_pos u = u_need u -> is_voice (byte_at u 0) -> 1 < u_need u) ->
  unpack_ok (flush u).1.
Proof.
  intros H1 H2 H3 H4 H5. unfold flush. destruct (Z.eqb_spec (u_pos u) (u_need u)); cbn [fst].
  - destruct (andb _ _) eqn:E.
    + apply andb_true_iff in E as [E1 E2]. specialize (H5 ltac:(done) ltac:(unfold is_voice; lia)).
      constructor; cbn; done || lia.
    + constructor; cbn; done || (unfold MIDI_UNPACK_MAX_MSG in *; lia).
  - constructor; done || lia.
Qed.

Lemma unpack_total u data :
  unpack_ok u -> Forall is_byte data -> exists u' out, unpack_bytes u data = Some (u', out) /\ unpack_ok u'.
Proof.
  intros Hu Hd. revert u Hu. induction Hd as [|b data Hb _ IH]; intros u Hu; [by eexists _, _|].
  cbn [unpack_bytes]. unfold unpack_byte. destruct (take_byte_ok u b Hu Hb) as (u1 & -> & H1 & H2 & H3 & H4 & H5).
  cbn [mbind option_bind]. pose proof (flush_ok u1 H1 H2 H3 H4 H5) as Hf. destruct (flush u1) as [u2 out]. cbn [fst] in Hf.
  cbn [mbind option_bind]. destruct (IH u2 Hf) as (u' & out' & -> & Hu'). cbn [mbind option_bind]. by eexists _, _.
Qed.

(** C32: The parser takes every byte of every stream: its assertions hold, no
    byte is put behind its buffer, it says that it has taken all bytes, and it
    stays in a state in which it waits for no message longer than its buffer. *)
Theorem unpack_all u data m time :
  unpack_ok u -> Forall is_byte data ->
  exists u' m', midi_unpack_buf u data m time = Some (zlen data, u', m') /\ unpack_ok u'.
Proof.
  intros Hu Hd. unfold midi_unpack_buf. destruct (unpack_total u data Hu Hd) as (u' & out & -> & Hu').
  cbn [mbind option_bind]. by eexists _, _.
Qed.

(** ** Streams of messages *)

Definition is_data (b : Z) : Prop := 0 <= b < 0x80.
Definition system_len (s : Z) : Z := midi_system_len !!! Z.to_nat (s - 0xF0).

Inductive wf_msg : list Z -> Prop :=
| wf_voice s d : is_voice s -> Forall is_data d -> zlen (s :: d) = voice_len s -> wf_msg (s :: d)
| wf_common s d : s ∈ [0xF1; 0xF2; 0xF3; 0xF6] -> Forall is_data d -> zlen (s :: d) = system_len s -> wf_msg (s :: d)
| wf_sysex d : Forall is_data d -> zlen d + 2 <= MIDI_UNPACK_MAX_MSG -> wf_msg (0xF0 :: d ++ [0xF7])
| wf_realtime b : 0xF8 <= b < 256 -> wf_msg [b].

(** A note on with velocity 0 is delivered as a note off. *)
Definition heard (msg : list Z) : list Z :=
  match msg with
  | [s; n; v] => if (Z.land s 0xF0 =? 0x90) && (v =? 0) then [Z.lor 0x80 (Z.land s 0x0F); n; 0x40] else msg
  | _ => msg
  end.

(** The parser waits for a message; after a voice message it can be one
    without status. *)
Definition idle (u : midi_unpack_t) : Prop :=
  u_pos u = 0 /\ u_need u = u_size u \/ u_pos u = 1 /\ is_voice (byte_at u 0) /\ u_need u = voice_len (byte_at u 0).

Record synced (running_status : Z) (u : midi_unpack_t) : Prop := {
  sy_ok : unpack_ok u;
  sy_idle : idle u;
  sy_status : running_status <> 0 -> u_pos u = 1 /\ byte_at u 0 = running_status
}.

Lemma unpack_cons u b data :
  unpack_bytes u (b :: data) = ('(u, out) ← unpack_byte u b; '(u, out') ← unpack_bytes u data; Some (u, out ++ out')).
Proof. done. Qed.

Lemma unpack_app u a b :
  unpack_bytes u (a ++ b) =
  ('(u, out) ← unpack_bytes u a; '(u, out') ← unpack_bytes u b; Some (u, out ++ out')).
Proof.
  revert u. induction a as [|x a IH]; intros u; cbn [app unpack_bytes].
  - cbn [mbind option_bind]. by destruct (unpack_bytes u b) as [[u' out]|].
  - destruct (unpack_byte u x) as [[u1 o1]|]; cbn [mbind option_bind]; [|done]. rewrite IH.
    destruct (unpack_bytes u1 a) as [[u2 o2]|]; cbn [mbind option_bind]; [|done].
    destruct (unpack_bytes u2 b) as [[u3 o3]|]; cbn [mbind option_bind]; [|done]. by rewrite app_assoc.
Qed.

Lemma store_n_app (m a b : list Z) off : 0 <= off -> store_n m off (a ++ b) = store_n (store_n m off a) (off + zlen a) b.
Proof.
  revert m off. induction a as [|x a IH]; intros m off Ho; cbn [app length].
  - by rewrite store_n_nil, Z.add_0_r.
  - rewrite store_n_cons, IH by lia. rewrite (store_n_cons m off x a) by lia. f_equal. lia.
Qed.

(** Data bytes are collected. *)
Definition collected (u : midi_unpack_t) (d : list Z) : midi_unpack_t :=
  mk_unpack (u_pos u + zlen d) (u_need u) (u_size u) (store_n (u_data u) (u_pos u) d).

Lemma data_byte u b :
  unpack_ok u -> is_data b -> unpack_byte u b = Some (flush (collected u [b])).
Proof.
  intros [H1 H2 H3 H4] Hb. unfold unpack_byte, take_byte, is_data in *.
  rewrite (proj2 (Z.ltb_lt b 0x80)), (proj2 (Z.ltb_lt _ (u_size u))) by lia.
  replace (b >=? 0xF8) with false by lia. cbn [mbind option_bind].
  change (mk_unpack (u_pos u + 1) (u_need u) (u_size u) (set_data u (u_pos u) b)) with (collected u [b]).
  by destruct (flush (collected u [b])).
Qed.

Lemma collected_ok u d : unpack_ok u -> u_pos u + zlen d < u_need u -> unpack_ok (collected u d).
Proof. intros [H1 H2 H3 H4] Hd. constructor; cbn; [lia|done|done|by rewrite length_store_n]. Qed.

Lemma collect u d :
  unpack_ok u -> Forall is_data d -> u_pos u + zlen d < u_need u -> unpack_bytes u d = Some (collected u d, []).
Proof.
  intros Hu Hd. revert u Hu. induction Hd as [|b d Hb _ IH]; intros u Hu Hp; cbn [unpack_bytes length] in *.
  - unfold collected. cbn. rewrite Z.add_0_r, store_n_nil. by destruct u.
  - rewrite (data_byte u b Hu Hb). assert (Hlt : u_pos u + 1 < u_need u) by lia.
    assert (Hc : unpack_ok (collected u [b])) by (by apply collected_ok).
    unfold flush. destruct (Z.eqb_spec (u_pos (collected u [b])) (u_need (collected u [b]))) as [E|_]; [cbn in E; lia|].
    cbn [mbind option_bind]. rewrite (IH _ Hc) by (cbn; lia). cbn [mbind option_bind]. do 2 f_equal.
    unfold collected. cbn [u_pos u_need u_size u_data length]. destruct Hu as [Hu _ _ _].
    rewrite (store_n_cons (u_data u) (u_pos u) b d) by lia. f_equal. lia.
Qed.

(** The byte that completes a message. *)
Lemma collect_all u d :
  unpack_ok u -> Forall is_data d -> 0 < zlen d -> u_pos u + zlen d = u_need u ->
  unpack_bytes u d = Some (flush (collected u d)).
Proof.
  intros Hu Hd Hl He. destruct d as [|b d _] using rev_ind; [cbn in Hl; lia|]. apply Forall_app in Hd as [Hd Hb].
  rewrite Forall_singleton in Hb. rewrite length_app in He. cbn in He.
  rewrite unpack_app, (collect u d Hu Hd) by lia. cbn [mbind option_bind unpack_bytes].
  assert (Hc : unpack_ok (collected u d)) by (apply collected_ok; [done|lia]).
  rewrite (data_byte _ b Hc Hb).
  replace (collected (collected u d) [b]) with (collected u (d ++ [b])).
  - destruct (flush _) as [u' out]. cbn [mbind option_bind app]. by rewrite app_nil_r.
  - unfold collected. cbn [u_pos u_need u_size u_data]. rewrite length_app. destruct Hu as [Hu _ _ _].
    f_equal; [cbn; lia|]. apply store_n_app. lia.
Qed.

(** The bytes of the message so far. *)
Record holding (u : midi_unpack_t) (p : list Z) : Prop := {
  hd_pos : u_pos u = zlen p;
  hd_data : load_n (u_data u) 0 (zlen p) = p;
  hd_room : zlen p <= zlen (u_data u)
}.

Lemma holding_at u p i : holding u p -> 0 <= i < zlen p -> byte_at u i = p !!! Z.to_nat i.
Proof. intros [_ E Hr] Hi. unfold byte_at. rewrite <- E at 1. rewrite load_n_lookup by lia. done. Qed.

Lemma holding_head u s d : holding u (s :: d) -> byte_at u 0 = s.
Proof. intros H. by rewrite (holding_at u (s :: d) 0 H) by (cbn; lia). Qed.

Lemma collected_holding u p d :
  holding u p -> zlen p + zlen d <= zlen (u_data u) -> holding (collected u d) (p ++ d).
Proof.
  intros [E1 E2 E3] Hl. constructor; cbn [collected u_pos u_data].
  - rewrite length_app. lia.
  - rewrite length_app, Nat2Z.inj_add, <- load_n_app by lia. rewrite E1. f_equal.
    + rewrite load_store_other by lia. done.
    + apply load_store_same; lia.
  - rewrite length_app, length_store_n. lia.
Qed.

Lemma started_holding p n z u s :
  p = 1 -> zlen (u_data u) = MIDI_UNPACK_MAX_MSG -> holding (mk_unpack p n z (set_data u 0 s)) [s].
Proof.
  intros -> Hl. constructor; cbn [u_pos u_data].
  - done.
  - apply (load_store_same (u_data u) [s] 0); [done|]. rewrite Hl. done.
  - unfold set_data. rewrite length_insert, Hl. done.
Qed.

(** A complete message is delivered; only a note on is looked into. *)
Lemma message_heard u s d :
  holding u (s :: d) -> 0x80 <= s < 256 -> (Z.land s 0xF0 = 0x90 -> zlen (s :: d) = 3) -> message u = [heard (s :: d)].
Proof.
  intros H Hs H3. unfold message.
  rewrite (holding_head u s d H). replace (s >=? 0x80) with true by lia. cbn [orb].
  rewrite (hd_pos _ _ H), (hd_data _ _ H). destruct (Z.eqb_spec (Z.land s 0xF0) 0x90) as [E|E]; cbn [andb].
  - specialize (H3 E). destruct d as [|n [|v [|]]]; cbn in H3; try lia.
    rewrite (holding_at u _ 1 H), (holding_at u _ 2 H) by (cbn; lia). cbn [heard]. rewrite E.
    change ([s; n; v] !!! Z.to_nat 1) with n. change ([s; n; v] !!! Z.to_nat 2) with v. cbn [Z.eqb Pos.eqb andb]. by destruct (v =? 0).
  - destruct d as [|n [|v [|]]]; try done. cbn [heard]. by rewrite (proj2 (Z.eqb_neq _ _) E).
Qed.

Lemma voice_note_on s : is_voice s -> Z.land s 0xF0 = 0x90 -> voice_len s = 3.
Proof.
  intros Hs. assert (T : forallb (fun s => negb (Z.land s 0xF0 =? 0x90) || (voice_len s =? 3)) (seqZ 128 112) = true) by done.
  rewrite forallb_forall in T. specialize (T s). rewrite <- list_elem_of_In in T.
  unfold is_voice in Hs. specialize (T ltac:(apply elem_of_seqZ; lia)).
  intros E. rewrite E in T. by apply Z.eqb_eq in T.
Qed.

Lemma flush_voice u s d :
  holding u (s :: d) -> is_voice s -> zlen (s :: d) = voice_len s -> u_need u = voice_len s ->
  u_size u = MIDI_UNPACK_MAX_MSG -> zlen (u_data u) = MIDI_UNPACK_MAX_MSG ->
  exists u', flush u = (u', [heard (s :: d)]) /\ synced s u'.
Proof.
  intros H Hs Hl Hn Hz Hd. pose proof (voice_len_bounds s Hs) as Hb. unfold flush.
  rewrite (hd_pos _ _ H), Hl, Hn, Z.eqb_refl, (holding_head u s d H).
  unfold is_voice in *. replace ((s >=? 0x80) && (s <? 0xF0)) with true by lia.
  rewrite (message_heard u s d) by (done || lia || (intros; rewrite Hl; by apply voice_note_on)).
  eexists. split; [done|].
  assert (E0 : byte_at (mk_unpack 1 (voice_len s) (u_size u) (u_data u)) 0 = s).
  { change (byte_at u 0 = s). by apply (holding_head u s d). }
  constructor.
  - constructor; cbn [u_pos u_need u_size u_data]; [lia|unfold MIDI_UNPACK_MAX_MSG in *; lia|done|done].
  - right. rewrite E0. done.
  - intros _. by rewrite E0.
Qed.

Lemma flush_system u s d :
  holding u (s :: d) -> 0xF0 <= s < 256 -> u_need u = zlen (s :: d) ->
  u_size u = MIDI_UNPACK_MAX_MSG -> zlen (u_data u) = MIDI_UNPACK_MAX_MSG ->
  exists u', flush u = (u', [heard (s :: d)]) /\ synced 0 u'.
Proof.
  intros H Hs Hn Hz Hd. unfold flush. rewrite (hd_pos _ _ H), Hn, Z.eqb_refl, (holding_head u s d H).
  replace ((s >=? 0x80) && (s <? 0xF0)) with false by lia.
  rewrite (message_heard u s d); [|done|lia|].
  - eexists. split; [done|]. constructor; [constructor; cbn; [unfold MIDI_UNPACK_MAX_MSG in *; lia|done|done|done]|by left|done].
  - intros E. exfalso. pose proof (Z.land_spec s 0xF0 6) as T. rewrite E in T.
    assert (Ts : Z.testbit s 6 = true).
    { assert (F : forallb (fun s => Z.testbit s 6) (seqZ 240 16) = true) by done. rewrite forallb_forall in F.
      apply F. rewrite <- list_elem_of_In. apply elem_of_seqZ. lia. }
    by rewrite Ts in T.
Qed.

(** ** One message *)

Lemma voice_body u s d :
  unpack_ok u -> u_pos u = 1 -> byte_at u 0 = s -> is_voice s -> u_need u = voice_len s ->
  Forall is_data d -> zlen (s :: d) = voice_len s ->
  exists u', unpack_bytes u d = Some (u', [heard (s :: d)]) /\ synced s u'.
Proof.
  intros Hu Hp H0 Hs Hn Hd Hl. pose proof (voice_len_bounds s Hs). cbn [length] in Hl.
  rewrite (collect_all u d Hu Hd) by lia. pose proof Hu as [U1 U2 U3 U4].
  assert (Hh : holding u [s]).
  { constructor; [done| |rewrite U4; done]. rewrite <- H0. unfold byte_at. destruct (u_data u); done. }
  pose proof (collected_holding u [s] d Hh ltac:(cbn; unfold MIDI_UNPACK_MAX_MSG in *; lia)) as Hc.
  destruct (flush_voice (collected u d) s d Hc Hs) as (u' & -> & Hsy); [cbn; lia|done|done|cbn; by rewrite length_store_n|].
  by exists u'.
Qed.

Lemma voice_message u s d :
  unpack_ok u -> is_voice s -> Forall is_data d -> zlen (s :: d) = voice_len s ->
  exists u', unpack_bytes u (s :: d) = Some (u', [heard (s :: d)]) /\ synced s u'.
Proof.
  intros [U1 U2 U3 U4] Hs Hd Hl. pose proof (voice_len_bounds s Hs) as Hb. cbn [unpack_bytes]. unfold unpack_byte, take_byte.
  unfold is_voice in Hs. replace (s >=? 0xF8) with false by lia. replace (s <? 0x80) with false by lia.
  replace (s <? 0xF0) with true by lia. fold (voice_len s). cbn [mbind option_bind].
  set (u1 := mk_unpack 1 (voice_len s) (u_size u) (set_data u 0 s)).
  assert (Ef : flush u1 = (u1, [])) by (unfold flush; cbn [u_pos u_need u1]; by rewrite (proj2 (Z.eqb_neq _ _)) by lia).
  rewrite Ef. cbn [mbind option_bind app].
  pose proof (holding_head u1 s [] (started_holding 1 _ _ u s eq_refl U4)) as E0.
  destruct (voice_body u1 s d) as (u' & -> & Hsy); try done.
  - constructor; cbn [u1 u_pos u_need u_size u_data]; [lia|unfold MIDI_UNPACK_MAX_MSG in *; lia|done|].
    unfold set_data. by rewrite length_insert.
  - cbn [mbind option_bind]. by exists u'.
Qed.

(** The state after the status byte of a system message. *)
Lemma system_start u s :
  unpack_ok u -> 0xF0 <= s < 0xF8 -> s <> 0xF7 ->
  let need := if system_len s =? 0 then u_size u else system_len s in
  let u1 := mk_unpack 1 need (u_size u) (set_data u 0 s) in
  take_byte u s = Some u1 /\ holding u1 [s] /\ zlen (u_data u1) = MIDI_UNPACK_MAX_MSG /\
  (1 < need <= u_size u -> unpack_ok u1 /\ unpack_byte u s = Some (u1, [])).
Proof.
  intros [U1 U2 U3 U4] Hs Hne need u1. assert (Et : take_byte u s = Some u1).
  { unfold take_byte. replace (s >=? 0xF8) with false by lia. replace (s <? 0x80) with false by lia.
    replace (s <? 0xF0) with false by lia. by rewrite (proj2 (Z.eqb_neq _ _) Hne). }
  assert (El : zlen (u_data u1) = MIDI_UNPACK_MAX_MSG) by (cbn; unfold set_data; by rewrite length_insert).
  split_and!; [done|by apply started_holding|done|]. intros Hn. split; [constructor; cbn [u1 u_pos u_need u_size]; done || lia|].
  unfold unpack_byte. rewrite Et. cbn [mbind option_bind]. unfold flush. cbn [u1 u_pos u_need].
  rewrite (proj2 (Z.eqb_neq _ _)) by lia. replace (s >=? 0xF8) with false by lia. done.
Qed.

Lemma common_message u s d :
  unpack_ok u -> s ∈ [0xF1; 0xF2; 0xF3; 0xF6] -> Forall is_data d -> zlen (s :: d) = system_len s ->
  exists u', unpack_bytes u (s :: d) = Some (u', [heard (s :: d)]) /\ synced 0 u'.
Proof.
  intros Hu Hs Hd Hl. assert (Hr : 0xF0 <= s < 0xF7) by (set_unfold in Hs; lia).
  destruct (system_start u s Hu ltac:(lia) ltac:(lia)) as (Et & Hh & El & Hmore). rewrite <- Hl in *.
  rewrite (proj2 (Z.eqb_neq (zlen (s :: d)) 0)) in * by (cbn; lia). pose proof Hu as [U1 U2 U3 U4].
  destruct d as [|b d].
  - cbn [unpack_bytes]. unfold unpack_byte. rewrite Et. cbn [mbind option_bind].
    destruct (flush_system _ s [] Hh) as (u' & -> & Hsy); [lia|done|done|done|]. cbn [mbind option_bind].
    replace (s >=? 0xF8) with false by lia. exists u'. split; [by rewrite app_nil_r|done].
  - assert (Hn : 1 < zlen (s :: b :: d) <= u_size u).
    { split; [cbn; lia|]. rewrite Hl, U3. set_unfold in Hs.
      destruct Hs as [->|[->|[->|[->|[]]]]]; vm_compute; discriminate. }
    destruct (Hmore Hn) as [Hok Eb]. rewrite unpack_cons, Eb. cbn [mbind option_bind].
    rewrite (collect_all _ (b :: d) Hok Hd) by (cbn; lia).
    destruct (flush_system (collected (mk_unpack 1 (zlen (s :: b :: d)) (u_size u) (set_data u 0 s)) (b :: d)) s (b :: d))
      as (u' & -> & Hsy); [|lia|done|done|cbn; by rewrite length_store_n|by exists u'].
    apply (collected_holding _ [s] (b :: d) Hh). rewrite El, <- U3. cbn [length] in *. lia.
Qed.

Lemma sysex_message u d :
  unpack_ok u -> Forall is_data d -> zlen d + 2 <= MIDI_UNPACK_MAX_MSG ->
  exists u', unpack_bytes u (0xF0 :: d ++ [0xF7]) = Some (u', [heard (0xF0 :: d ++ [0xF7])]) /\ synced 0 u'.
Proof.
  intros Hu Hd Hl. destruct (system_start u 0xF0 Hu ltac:(lia) ltac:(lia)) as (Et & Hh & El & Hmore).
  pose proof Hu as [U1 U2 U3 U4]. change (system_len 0xF0 =? 0) with true in *. cbv iota in *.
  destruct (Hmore ltac:(rewrite U3; unfold MIDI_UNPACK_MAX_MSG; lia)) as [Hok Eb].
  set (u1 := mk_unpack 1 (u_size u) (u_size u) (set_data u 0 0xF0)) in *.
  rewrite unpack_cons, Eb. cbn [mbind option_bind]. rewrite unpack_app.
  rewrite (collect u1 d Hok Hd) by (cbn [u1 u_pos u_need]; unfold MIDI_UNPACK_MAX_MSG in *; lia). cbn [mbind option_bind].
  assert (Hc : unpack_ok (collected u1 d))
    by (apply collected_ok; [done|cbn [u1 u_pos u_need]; unfold MIDI_UNPACK_MAX_MSG in *; lia]).
  assert (Hhc : holding (collected u1 d) (0xF0 :: d)).
  { apply (collected_holding u1 [0xF0] d Hh). rewrite El. cbn [length]. unfold MIDI_UNPACK_MAX_MSG in *. lia. }
  rewrite unpack_cons. unfold unpack_byte, take_byte. cbn [Z.geb Z.ltb Z.compare Pos.compare Pos.compare_cont Z.eqb Pos.eqb].
  rewrite (proj2 (Z.ltb_lt _ _)) by (destruct Hc; lia). cbn [mbind option_bind].
  set (u2 := mk_unpack _ _ _ _).
  assert (Hh2 : holding u2 (0xF0 :: d ++ [0xF7])).
  { apply (collected_holding (mk_unpack (u_pos (collected u1 d)) (u_pos u2) (u_size u1) (u_data (collected u1 d))) (0xF0 :: d) [0xF7]).
    - destruct Hhc as [A B C]. by constructor.
    - cbn [u_data collected]. rewrite length_store_n, El. cbn [length]. unfold MIDI_UNPACK_MAX_MSG in *. lia. }
  destruct (flush_system u2 0xF0 (d ++ [0xF7]) Hh2) as (u' & -> & Hsy); [lia|apply (hd_pos _ _ Hh2)|done| |].
  - cbn [u2 u_data collected]. unfold set_data. cbn [u_data collected]. by rewrite length_insert, length_store_n.
  - cbn [mbind option_bind unpack_bytes app]. by exists u'.
Qed.

Lemma realtime_byte u b : unpack_ok u -> 0xF8 <= b < 256 -> unpack_byte u b = Some (u, [[b]]).
Proof.
  intros [U1 U2 _ _] Hb. unfold unpack_byte, take_byte. replace (b >=? 0xF8) with true by lia. cbn [mbind option_bind].
  unfold flush. by rewrite (proj2 (Z.eqb_neq _ _)) by lia.
Qed.

(** A message, packed and put into the parser. *)
Lemma message_roundtrip rs u msg :
  synced rs u -> wf_msg msg ->
  exists rs' bytes u', midi_pack_event rs msg = Some (rs', bytes) /\
    unpack_bytes u bytes = Some (u', [heard msg]) /\ synced rs' u'.
Proof.
  intros [Hok Hidle Hst] Hm. destruct Hm as [s d Hs Hd Hl|s d Hs Hd Hl|d Hd Hl|b Hb]; cbn [midi_pack_event].
  - unfold is_voice in Hs. replace ((s >=? 0x80) && (s <? 0xF0)) with true by lia.
    destruct (Z.eqb_spec s rs) as [->|Hne].
    + destruct (Hst ltac:(lia)) as [Hp H0]. eexists _, _. destruct Hidle as [[Hp' _]|(_ & _ & Hn)]; [lia|]. rewrite H0 in Hn.
      destruct (voice_body u rs d Hok Hp H0 Hs Hn Hd Hl) as (u' & E & Hsy). by exists u'.
    + eexists _, _. destruct (voice_message u s d Hok Hs Hd Hl) as (u' & E & Hsy). by exists u'.
  - assert (Hr : 0xF0 <= s < 0xF7) by (set_unfold in Hs; lia). replace ((s >=? 0x80) && (s <? 0xF0)) with false by lia.
    replace (s <? 0xF8) with true by lia. eexists _, _. destruct (common_message u s d Hok Hs Hd Hl) as (u' & E & Hsy). by exists u'.
  - eexists _, _. destruct (sysex_message u d Hok Hd Hl) as (u' & E & Hsy). by exists u'.
  - replace ((b >=? 0x80) && (b <? 0xF0)) with false by lia. replace (b <? 0xF8) with false by lia.
    eexists _, _, u. split; [done|]. rewrite unpack_cons, (realtime_byte u b Hok Hb). done.
Qed.

Lemma pack_unpack rs u msgs :
  synced rs u -> Forall wf_msg msgs ->
  exists rs' bytes u', pack_events rs msgs = Some (rs', bytes) /\ unpack_bytes u bytes = Some (u', heard <$> msgs) /\ synced rs' u'.
Proof.
  intros Hsy Hm. revert rs u Hsy. induction Hm as [|msg msgs Hmsg _ IH]; intros rs u Hsy; [by exists rs, [], u|].
  destruct (message_roundtrip rs u msg Hsy Hmsg) as (rs1 & b1 & u1 & E1 & E2 & Hsy1).
  destruct (IH rs1 u1 Hsy1) as (rs' & b' & u' & E3 & E4 & Hsy').
  exists rs', (b1 ++ b'), u'. cbn [pack_events]. rewrite E1. cbn [mbind option_bind]. rewrite E3. cbn [mbind option_bind].
  split; [done|]. rewrite unpack_app, E2. cbn [mbind option_bind]. rewrite E4. done.
Qed.

(** C29: Round trip of MIDI byte streams: a stream of messages packed with
    running status is cut into the same messages again (a note on with velocity
    0 is delivered as the note off it means), however the stream is divided
    into pieces; packer and parser stay in step. *)
Theorem stream_roundtrip rs u msgs :
  synced rs u -> Forall wf_msg msgs ->
  exists rs' bytes, pack_events rs msgs = Some (rs', bytes) /\
    forall a b, a ++ b = bytes -> exists u1 u2 o1 o2, unpack_bytes u a = Some (u1, o1) /\
      unpack_bytes u1 b = Some (u2, o2) /\ o1 ++ o2 = heard <$> msgs /\ synced rs' u2.
Proof.
  intros Hsy Hm. destruct (pack_unpack rs u msgs Hsy Hm) as (rs' & bytes & u' & Ep & Eu & Hsy').
  exists rs', bytes. split; [done|]. intros a b <-.
  rewrite unpack_app in Eu. apply bind_Some in Eu as ([u1 o1] & E1 & Eu). apply bind_Some in Eu as ([u2 o2] & E2 & [= <- Eo]).
  by exists u1, u2, o1, o2.
Qed.

(** ** Into the port *)

Lemma write_all_at time out m :
  foldl (fun m msg => (jack_midi_event_write m time msg).2) m out = write_all m ((fun msg => (time, msg)) <$> out).
Proof. unfold write_all. revert m. induction out as [|x out IH]; intros m; cbn; [done|apply IH]. Qed.

(** The messages of a stream arrive at the port, all with the time at which
    the bytes were read. *)
Theorem stream_delivered rs u msgs m bs nf lost evs time :
  synced rs u -> Forall wf_msg msgs -> midi_rep m bs nf lost evs ->
  let new := (fun msg => (time, heard msg)) <$> msgs in
  legal_events nf (evs ++ new) -> room bs (evs ++ new) ->
  exists rs' bytes u' m', pack_events rs msgs = Some (rs', bytes) /\
    midi_unpack_buf u bytes m time = Some (zlen bytes, u', m') /\ synced rs' u' /\ midi_rep m' bs nf lost (evs ++ new).
Proof.
  intros Hsy Hm M new Hl R. destruct (pack_unpack rs u msgs Hsy Hm) as (rs' & bytes & u1 & Ep & E1 & Hsy').
  exists rs', bytes, u1. eexists. split; [done|]. unfold midi_unpack_buf. rewrite E1. cbn [mbind option_bind].
  rewrite write_all_at, <- list_fmap_compose. split; [done|]. split; [done|]. by apply write_all_rep.
Qed.

(** ** Where the parser goes wrong *)

(** A system exclusive message that is longer than the buffer of the parser
    is not dropped: its beginning is delivered as a message, without the byte
    that ends a system exclusive message. *)
Theorem long_sysex_truncated rs u d b :
  synced rs u -> Forall is_data (d ++ [b]) -> zlen (d ++ [b]) = MIDI_UNPACK_MAX_MSG - 1 ->
  exists u', unpack_bytes u (0xF0 :: d ++ [b]) = Some (u', [0xF0 :: d ++ [b]]) /\ synced 0 u'.
Proof.
  intros [Hu _ _] Hd Hl. destruct (system_start u 0xF0 Hu ltac:(lia) ltac:(lia)) as (Et & Hh & El & Hmore).
  pose proof Hu as [U1 U2 U3 U4]. change (system_len 0xF0 =? 0) with true in *. cbv iota in *.
  destruct (Hmore ltac:(rewrite U3; unfold MIDI_UNPACK_MAX_MSG; lia)) as [Hok Eb].
  set (u1 := mk_unpack 1 (u_size u) (u_size u) (set_data u 0 0xF0)) in *.
  rewrite unpack_cons, Eb. cbn [mbind option_bind].
  rewrite (collect_all u1 (d ++ [b]) Hok Hd) by (cbn [u1 u_pos u_need]; unfold MIDI_UNPACK_MAX_MSG in *; lia).
  assert (Hc : holding (collected u1 (d ++ [b])) (0xF0 :: d ++ [b])).
  { apply (collected_holding u1 [0xF0] (d ++ [b]) Hh). rewrite El, Hl. done. }
  destruct (flush_system _ 0xF0 (d ++ [b]) Hc) as (u' & -> & Hsy);
    [lia|cbn [collected u1 u_need length]; unfold MIDI_UNPACK_MAX_MSG in *; lia|done|cbn [collected u1 u_data]; by rewrite length_store_n|].
  cbn [mbind option_bind app]. exists u'. split; [|done]. unfold heard.
  destruct (d ++ [b]) as [|x [|y [|]]]; try done; cbn [length] in Hl; unfold MIDI_UNPACK_MAX_MSG in *; lia.
Qed.

(** A data byte that completes a two-byte message under the status [s]. *)
Lemma two_byte_status u s n :
  unpack_ok u -> u_pos u = 1 -> byte_at u 0 = s -> is_voice s -> Z.land s 0xF0 <> 0x90 -> u_need u = 2 -> is_data n ->
  exists u', unpack_bytes u [n] = Some (u', [[s; n]]) /\ unpack_ok u' /\ u_pos u' = 1 /\ byte_at u' 0 = s /\ u_need u' = 2.
Proof.
  intros Hu Hp H0 Hs Hno Hn Hd. rewrite (collect_all u [n] Hu) by (done || (cbn; lia) || (by constructor)).
  pose proof Hu as [U1 U2 U3 U4].
  assert (Hh : holding u [s]).
  { constructor; [done| |rewrite U4; done]. rewrite <- H0. unfold byte_at. destruct (u_data u); done. }
  pose proof (collected_holding u [s] [n] Hh ltac:(rewrite U4; done)) as Hc.
  pose proof (holding_head _ s [n] Hc) as E0. unfold is_voice in *.
  unfold flush. rewrite (hd_pos _ _ Hc), E0. cbn [collected u_need u_size]. rewrite Hn. cbn [length app Z.of_nat Pos.of_succ_nat Pos.succ Z.eqb Pos.eqb].
  replace ((s >=? 0x80) && (s <? 0xF0)) with true by lia. rewrite (message_heard _ s [n] Hc) by (lia || done).
  eexists. split; [done|]. split_and!; [|done|exact E0|done].
  constructor; cbn [collected u_pos u_need u_size u_data]; [lia|unfold MIDI_UNPACK_MAX_MSG in *; lia|done|by rewrite length_store_n].
Qed.

(** An end-of-exclusive byte outside of a system exclusive message breaks
    running status: after a three-byte voice message it makes a two-byte
    message of its own and halves the ones that follow without status. *)
Theorem stray_end_breaks_running_status u s n v :
  synced s u -> is_voice s -> voice_len s = 3 -> Z.land s 0xF0 <> 0x90 -> is_data n -> is_data v ->
  exists u', unpack_bytes u [0xF7; n; v] = Some (u', [[s; 0xF7]; [s; n]; [s; v]]).
Proof.
  intros [Hu _ Hst] Hs Hl Hno Hn Hv. unfold is_voice in Hs. destruct (Hst ltac:(lia)) as [Hp H0]. pose proof Hu as [U1 U2 U3 U4].
  rewrite unpack_cons. unfold unpack_byte, take_byte. cbn [Z.geb Z.ltb Z.compare Pos.compare Pos.compare_cont Z.eqb Pos.eqb].
  rewrite (proj2 (Z.ltb_lt _ _)) by lia. cbn [mbind option_bind]. rewrite Hp. set (u1 := mk_unpack _ _ _ _).
  assert (Hh : holding u [s]).
  { constructor; [done| |rewrite U4; done]. rewrite <- H0. unfold byte_at. destruct (u_data u); done. }
  assert (Hc : holding u1 [s; 0xF7]).
  { destruct Hh as [A B C]. apply (collected_holding (mk_unpack 1 2 (u_size u) (u_data u)) [s] [0xF7]); [by constructor|]. cbn [u_data]. rewrite U4. done. }
  pose proof (holding_head _ s [0xF7] Hc) as E0.
  unfold flush. rewrite (hd_pos _ _ Hc), E0. cbn [u1 u_need u_size].
  change (1 + 1) with 2. change (zlen [s; 0xF7] =? 2) with true. cbv iota.
  replace ((s >=? 0x80) && (s <? 0xF0)) with true by lia. rewrite (message_heard u1 s [0xF7] Hc) by (lia || done).
  cbn [mbind option_bind app]. set (u2 := mk_unpack 1 2 (u_size u) (u_data u1)).
  assert (Hu2 : unpack_ok u2).
  { constructor; cbn [u2 u_pos u_need u_size u_data]; [lia|unfold MIDI_UNPACK_MAX_MSG in *; lia|done|]. unfold u1, set_data. cbn. by rewrite length_insert. }
  destruct (two_byte_status u2 s n Hu2 eq_refl E0 Hs Hno eq_refl Hn) as (u3 & E3 & Hu3 & P3 & B3 & N3).
  destruct (two_byte_status u3 s v Hu3 P3 B3 Hs Hno N3 Hv) as (u4 & E4 & _).
  pose proof (unpack_app u2 [n] [v]) as Ea. cbn [app] in Ea. rewrite Ea, E3. cbn [mbind option_bind]. rewrite E4. cbn [mbind option_bind app]. by exists u4.
Qed.

(** ** Examples *)

Definition fresh : midi_unpack_t := midi_unpack_init (mk_unpack 0 0 0 (replicate 1024 0)).

Lemma fresh_synced : synced 0 fresh.
Proof. constructor; [by apply init_ok|by left|done]. Qed.

(** Two notes, the second with running status, a clock, and the note off. *)
Definition chord : list (list Z) := [[0x91; 60; 100]; [0x91; 64; 100]; [0xF8]; [0xF0; 1; 2; 0xF7]; [0x91; 60; 0]].

Lemma chord_wf : Forall wf_msg chord.
Proof.
  assert (V : forall s n v, is_voice s -> voice_len s = 3 -> is_data n -> is_data v -> wf_msg [s; n; v]).
  { intros s n v Hs Hl Hn Hv. apply wf_voice; [done|by repeat (apply Forall_cons_2; [done|])|by rewrite Hl]. }
  repeat apply Forall_cons_2; [by apply V|by apply V|by apply wf_realtime| |by apply V|by apply Forall_nil].
  apply (wf_sysex [1; 2]); [by repeat (apply Forall_cons_2; [done|])|done].
Qed.

Lemma bytes_ok l : forallb (fun b => (0 <=? b) && (b <? 256)) l = true -> Forall is_byte l.
Proof.
  intros H. apply Forall_forall. intros b Hb. rewrite forallb_forall in H. specialize (H b ltac:(by apply list_elem_of_In)).
  unfold is_byte. lia.
Qed.

(** Stray data, the end of a message that has not begun, a message cut off. *)
Lemma unpack_all_witness :
  exists u' m', midi_unpack_buf fresh [5; 6; 0xF7; 0xF0; 1; 0x95; 3] (jack_midi_buffer_init (replicate 56 0) 56 64) 7 = Some (7, u', m') /\
    unpack_ok u'.
Proof. exact (unpack_all fresh _ _ 7 (init_ok (mk_unpack 0 0 0 (replicate 1024 0)) eq_refl) (bytes_ok [5; 6; 0xF7; 0xF0; 1; 0x95; 3] eq_refl)). Defined.

Lemma stream_roundtrip_witness :
  exists rs' bytes, pack_events 0 chord = Some (rs', bytes) /\ zlen bytes = 13 /\
    exists u1 u2 o1 o2, unpack_bytes fresh (take 4 bytes) = Some (u1, o1) /\ unpack_bytes u1 (drop 4 bytes) = Some (u2, o2) /\
      o1 ++ o2 = [[0x91; 60; 100]; [0x91; 64; 100]; [0xF8]; [0xF0; 1; 2; 0xF7]; [0x81; 60; 0x40]].
Proof.
  destruct (stream_roundtrip 0 fresh chord fresh_synced chord_wf) as (rs' & bytes & E & H).
  assert (Hl : zlen bytes = 13) by (vm_compute in E; injection E as _ <-; reflexivity).
  exists rs', bytes. split; [exact E|]. split; [exact Hl|].
  destruct (H (take 4 bytes) (drop 4 bytes)) as (u1 & u2 & o1 & o2 & E1 & E2 & Eo & _); [apply take_drop|].
  exists u1, u2, o1, o2. split; [exact E1|]. split; [exact E2|]. rewrite Eo. reflexivity.
Defined.

Lemma long_sysex_truncated_witness :
  exists u', unpack_bytes fresh (0xF0 :: replicate 1022 5 ++ [5]) = Some (u', [0xF0 :: replicate 1022 5 ++ [5]]) /\ synced 0 u'.
Proof.
  apply (long_sysex_truncated 0 fresh); [apply fresh_synced| |by rewrite length_app, length_replicate].
  apply Forall_app. split; [by apply Forall_replicate|by repeat (apply Forall_cons_2; [done|])].
Defined.

Definition after_control : midi_unpack_t := default fresh (fst <$> unpack_bytes fresh [0xB0; 7; 100]).

Lemma stray_end_breaks_running_status_witness :
  exists u', unpack_bytes after_control [0xF7; 7; 90] = Some (u', [[0xB0; 0xF7]; [0xB0; 7]; [0xB0; 90]]).
Proof.
  apply (stray_end_breaks_running_status after_control 0xB0 7 90); try done.
  destruct (voice_message fresh 0xB0 [7; 100]) as (u' & E & Hs); [apply fresh_synced|done|by repeat (apply Forall_cons_2; [done|])|done|].
  unfold after_control. by rewrite E.
Defined.

End RawMidi.
