(* ===== verification/RawMidiPort.v ===== *)
(** * Ports of the raw MIDI driver (drivers/alsa-midi/alsa_rawmidi.c)

    The thread of a device and the process cycle share two ring buffers per
    port: one for bytes, and one for heads that say how many of the bytes
    belong together and when they came or are due.  The model uses the ring
    buffer of RingBuffer.v, the MIDI port buffers of MidiPort.v and the parser
    of RawMidi.v; the device is a parameter. *)

From S2P Require Import Prelude Bytes RingBuffer MidiPort RawMidi.

Local Open Scope Z_scope.

Module RawMidiPort.
Import RingBuffer MidiPort RawMidi.

Definition EWOULDBLOCK : Z := 11.
Definition POLLIN : Z := 1.
Definition POLLOUT : Z := 4.

(** [event_head_t]. *)
Definition sizeof_head : Z := 16.
Definition head_bytes (time size overruns : Z) : list Z := le_bytes 8 time ++ le_bytes 4 (u32 size) ++ le_bytes 4 (u32 overruns).
Definition head_time (b : list Z) : Z := get_le b 0 8.
Definition head_size (b : list Z) : Z := s32 (get_le b 8 4).
Definition head_overruns (b : list Z) : Z := s32 (get_le b 12 4).

(** What the device answers: [snd_rawmidi_poll_descriptors_revents], its count
    of descriptors, a read of at most so many bytes, a write of bytes. *)
Record device := mk_device {
  dv_revents_rc : Z;
  dv_revents : Z;
  dv_count : Z;
  dv_read : Z -> Z * list Z;
  dv_write : list Z -> Z
}.

(** [None] when the port has failed, else [is_ready]. *)
Definition midi_is_ready (d : device) (mode npfds : Z) (is_ready : bool) : option bool :=
  if npfds =? 0 then Some is_ready
  else if negb (dv_revents_rc d =? 0) then None
  else if negb (Z.land (dv_revents d) (Z.lnot mode) =? 0) then None
  else if negb (Z.land (dv_revents d) mode =? 0) then Some true
  else Some is_ready.

(** The result and [npfds]; the descriptors themselves are left out. *)
Definition midi_update_pfds (d : device) (max_pfds npfds : Z) : bool * Z :=
  if npfds =? 0 then (negb (dv_count d >? max_pfds), dv_count d) else (true, npfds).

(** ** Input *)

Record input_port_t := mk_input {
  in_events : jack_ringbuffer_t;
  in_data : jack_ringbuffer_t;
  in_unpack : midi_unpack_t;
  in_overruns : Z;
  in_npfds : Z;
  in_ready : bool
}.

Definition in_set_state (overruns npfds : Z) (ready : bool) (p : input_port_t) : input_port_t :=
  mk_input (in_events p) (in_data p) (in_unpack p) overruns npfds ready.

(** Bytes the device has put at [off] of the ring. *)
Definition fill (rb : jack_ringbuffer_t) (off : Z) (bytes : list Z) : jack_ringbuffer_t :=
  jack_ringbuffer_write_advance (set_buf rb (store_n (rb_buf rb) off bytes)) (zlen bytes).

(** A read that brought [bytes]. *)
Definition in_piece (cur_time off : Z) (bytes : list Z) (p : input_port_t) : input_port_t :=
  mk_input (jack_ringbuffer_write (in_events p) (head_bytes cur_time (zlen bytes) (in_overruns p)) sizeof_head).2
    (fill (in_data p) off bytes) (in_unpack p) 0 (in_npfds p) (in_ready p).

Definition do_midi_input (d : device) (cur_time max_pfds : Z) (p : input_port_t) : bool * input_port_t :=
  match midi_is_ready d POLLIN (in_npfds p) (in_ready p) with
  | None => (false, p)
  | Some ready =>
      let p := in_set_state (in_overruns p) (in_npfds p) ready p in
      let update := fun p =>
        let '(ok, n) := midi_update_pfds d max_pfds (in_npfds p) in (ok, in_set_state (in_overruns p) n (in_ready p) p) in
      if ready then
        let '(v0, _) := jack_ringbuffer_get_write_vector (in_data p) in
        if (jack_ringbuffer_write_space (in_events p) <? sizeof_head) || (vec_len v0 <? 1) then
          (true, in_set_state (s32 (in_overruns p + 1)) 0 ready p)
        else
          let '(res, bytes) := dv_read d (vec_len v0) in
          if (res <? 0) && negb (res =? - EWOULDBLOCK) then (false, p)
          else
            let p := if res >? 0 then in_piece cur_time (default 0 (vec_buf v0)) bytes p else p in
            update (in_set_state (in_overruns p) (in_npfds p) false p)
      else update p
  end.

(** The place in the cycle at which a message is heard. *)
Definition input_time (time nframes frame_time : Z) : Z :=
  if u64 (time + nframes) <? frame_time then 0
  else if time >=? frame_time then u32 (nframes - 1)
  else u32 (u64 (time + nframes) - frame_time).

(** The loop over the two parts of the ring. *)
Definition unpack_vectors (u : midi_unpack_t) (rb : jack_ringbuffer_t) (v0 v1 : jack_ringbuffer_data_t) (size : Z)
    (m : list Z) (time : Z) : option (midi_unpack_t * list Z) :=
  if size <=? 0 then Some (u, m)
  else
    let avail := if size <? vec_len v0 then size else vec_len v0 in
    '(done, u, m) ← midi_unpack_buf u (load_n (vec_bytes (rb_buf rb) v0) 0 avail) m time;
    let todo := size - done in
    if negb (done =? avail) || (todo <=? 0) then Some (u, m)
    else
      let avail := if todo <? vec_len v1 then todo else vec_len v1 in
      '(_, u, m) ← midi_unpack_buf u (load_n (vec_bytes (rb_buf rb) v1) 0 avail) m time;
      Some (u, m).

(** [None]: an assertion fails, or the rounds are used up. *)
Fixpoint do_jack_input (fuel : nat) (nframes frame_time : Z) (p : input_port_t) (m : list Z) : option (input_port_t * list Z) :=
  if jack_ringbuffer_read_space (in_events p) <? sizeof_head then Some (p, m)
  else
    match fuel with
    | O => None
    | S fuel =>
        let '(_, head, events) := jack_ringbuffer_read (in_events p) sizeof_head in
        let time := input_time (head_time head) nframes frame_time in
        let size := head_size head in
        let '(v0, v1) := jack_ringbuffer_get_read_vector (in_data p) in
        if negb (u64 size <=? vec_len v0 + vec_len v1) then None
        else
          let u := if negb (head_overruns head =? 0) then midi_unpack_reset (in_unpack p) else in_unpack p in
          '(u, m) ← unpack_vectors u (in_data p) v0 v1 size m time;
          do_jack_input fuel nframes frame_time
            (mk_input events (jack_ringbuffer_read_advance (in_data p) (u64 size)) u (in_overruns p) (in_npfds p) (in_ready p)) m
    end.

(** ** Output *)

Record output_port_t := mk_output {
  out_events : jack_ringbuffer_t;
  out_data : jack_ringbuffer_t;
  out_packer : Z;
  next_time : Z;
  next_size : Z;
  todo : Z;
  out_npfds : Z;
  out_ready : bool
}.

Definition out_rings (events data : jack_ringbuffer_t) (packer : Z) (p : output_port_t) : output_port_t :=
  mk_output events data packer (next_time p) (next_size p) (todo p) (out_npfds p) (out_ready p).

(** The events [i] to [i + n] of the port buffer [m]; [junk] is what is in the
    field of the head that is not set. *)
Fixpoint do_jack_output (n : nat) (i : Z) (nframes frame_time junk : Z) (m : list Z) (p : output_port_t) : option output_port_t :=
  match n with
  | O => Some p
  | S n =>
      match jack_midi_event_get m i with
      | (_, None) => None
      | (_, Some (time, size, ptr)) =>
          if (jack_ringbuffer_write_space (out_data p) <? size) || (jack_ringbuffer_write_space (out_events p) <? sizeof_head)
          then Some p
          else
            '(packer, bytes) ← midi_pack_event (out_packer p) (load_n m ptr size);
            let data := (jack_ringbuffer_write (out_data p) bytes (zlen bytes)).2 in
            let head := head_bytes (u64 (frame_time + time + nframes)) (zlen bytes) junk in
            let events := (jack_ringbuffer_write (out_events p) head sizeof_head).2 in
            do_jack_output n (i + 1) nframes frame_time junk m (out_rings events data packer p)
      end
  end.

Definition set_next (events : jack_ringbuffer_t) (t s td : Z) (p : output_port_t) : output_port_t :=
  mk_output events (out_data p) (out_packer p) t s td (out_npfds p) (out_ready p).

(** The loop that takes the heads that are due. *)
Fixpoint eat_events (fuel : nat) (cur_time : Z) (p : output_port_t) : option output_port_t :=
  if next_time p <=? cur_time then
    match fuel with
    | O => None
    | S fuel =>
        let td := s32 (todo p + next_size p) in
        let '(n, head, events) := jack_ringbuffer_read (out_events p) sizeof_head in
        if negb (n =? sizeof_head) then Some (set_next events 0 0 td p)
        else eat_events fuel cur_time (set_next events (head_time head) (head_size head) td p)
    end
  else Some p.

Definition out_state (data : jack_ringbuffer_t) (td npfds : Z) (ready : bool) (p : output_port_t) : output_port_t :=
  mk_output (out_events p) data (out_packer p) (next_time p) (next_size p) td npfds ready.

(** The result, the bytes that went to the device, the wake-up time and the
    port.  [None]: an assertion fails, or the rounds are used up. *)
Definition do_midi_output (fuel : nat) (d : device) (cur_time wakeup max_pfds : Z) (p : output_port_t)
    : option (bool * list Z * Z * output_port_t) :=
  match midi_is_ready d POLLOUT (out_npfds p) (out_ready p) with
  | None => Some (false, [], wakeup, p)
  | Some ready =>
      p ← eat_events fuel cur_time (out_state (out_data p) (todo p) (out_npfds p) ready p);
      let wakeup :=
        if (todo p =? 0) && negb (next_time p =? 0) && (next_time p <? wakeup) then next_time p else wakeup in
      let update := fun sent p =>
        let '(ok, n) := midi_update_pfds d max_pfds (out_npfds p) in
        Some (ok, sent, wakeup, out_state (out_data p) (todo p) n (out_ready p) p) in
      if negb (todo p =? 0) && out_ready p then
        let '(v0, _) := jack_ringbuffer_get_read_vector (out_data p) in
        let size := if todo p >? vec_len v0 then vec_len v0 else todo p in
        if (todo p >? vec_len v0) && negb (size >? 0) then None
        else
          let bytes := load_n (vec_bytes (rb_buf (out_data p)) v0) 0 size in
          let res := dv_write d bytes in
          if res >? 0 then
            update (take (Z.to_nat res) bytes)
              (out_state (jack_ringbuffer_read_advance (out_data p) res) (s32 (todo p - res)) (out_npfds p) (out_ready p) p)
          else if res =? - EWOULDBLOCK then Some (true, [], wakeup, out_state (out_data p) (todo p) (out_npfds p) false p)
          else Some (false, [], wakeup, p)
      else update [] p
  end.

(** ** The heads *)

Lemma length_head t s o : zlen (head_bytes t s o) = sizeof_head.
Proof. unfold head_bytes. by rewrite !length_app, !length_le_bytes. Qed.

Definition is_int (z : Z) : Prop := - 2 ^ 31 <= z < 2 ^ 31.

Lemma s32_u32 z : is_int z -> s32 (u32 z mod 2 ^ 32) = z.
Proof.
  unfold is_int. intros Hz. unfold swrap, wrap. rewrite Z.mod_mod by lia.
  change (2 ^ (32 - 1)) with (2 ^ 31). rewrite Zplus_mod_idemp_l. rewrite Z.mod_small by lia. lia.
Qed.

Lemma head_fields t s o :
  0 <= t < 2 ^ 64 -> is_int s -> is_int o ->
  head_time (head_bytes t s o) = t /\ head_size (head_bytes t s o) = s /\ head_overruns (head_bytes t s o) = o.
Proof.
  intros Ht Hs Ho. unfold head_time, head_size, head_overruns, head_bytes. split_and!.
  - pose proof (get_le_among [] (le_bytes 4 (u32 s) ++ le_bytes 4 (u32 o)) 8 t) as E. cbn [app length] in E.
    change (Z.of_nat 0) with 0 in E. rewrite E. by apply Z.mod_small.
  - pose proof (get_le_among (le_bytes 8 t) (le_bytes 4 (u32 o)) 4 (u32 s)) as E. rewrite length_le_bytes in E.
    change (Z.of_nat 8) with 8 in E. rewrite E. by apply s32_u32.
  - pose proof (get_le_among (le_bytes 8 t ++ le_bytes 4 (u32 s)) [] 4 (u32 o)) as E.
    rewrite length_app, !length_le_bytes, app_nil_r, <- app_assoc in E. change (Z.of_nat (8 + 4)) with 12 in E.
    rewrite E. by apply s32_u32.
Qed.

(** ** Rings as queues *)

Lemma ring_write rb src :
  wf rb -> zlen src <= jack_ringbuffer_write_space rb ->
  let rb' := (jack_ringbuffer_write rb src (zlen src)).2 in
  contents rb' = contents rb ++ src /\ wf rb' /\ size rb' = size rb.
Proof.
  intros H Hs. rewrite write_space_contents in Hs by done. pose proof (write_contents rb src (zlen src) H ltac:(lia)) as Hw.
  destruct (jack_ringbuffer_write rb src (zlen src)) as [n rb']. cbn [snd]. destruct Hw as (E & W & S).
  split_and!; [|done|done]. unfold Queue.enqueue in E. rewrite Z.min_l in E by lia. injection E as _ ->.
  by rewrite take_ge by lia.
Qed.

Lemma ring_read rb h rest :
  wf rb -> contents rb = h ++ rest ->
  exists rb', jack_ringbuffer_read rb (zlen h) = (zlen h, h, rb') /\ contents rb' = rest /\ wf rb' /\ size rb' = size rb.
Proof.
  intros H E. pose proof (read_contents rb (zlen h) H ltac:(lia)) as Hr.
  destruct (jack_ringbuffer_read rb (zlen h)) as [[n d] rb']. destruct Hr as (Er & W & S). exists rb'.
  unfold Queue.dequeue in Er. rewrite E, length_app, Z.min_l, Nat2Z.id, take_app_length, drop_app_length in Er by lia.
  by injection Er as -> -> ->.
Qed.

Lemma ring_read_less rb :
  wf rb -> contents rb = [] -> exists rb', jack_ringbuffer_read rb sizeof_head = (0, [], rb') /\ contents rb' = [] /\ wf rb'.
Proof.
  intros H E. pose proof (read_contents rb sizeof_head H ltac:(done)) as Hr.
  destruct (jack_ringbuffer_read rb sizeof_head) as [[n d] rb']. destruct Hr as (Er & W & _). exists rb'.
  unfold Queue.dequeue in Er. rewrite E in Er. by injection Er as -> -> ->.
Qed.

Lemma ring_drop rb a rest :
  wf rb -> contents rb = a ++ rest ->
  contents (jack_ringbuffer_read_advance rb (zlen a)) = rest /\ wf (jack_ringbuffer_read_advance rb (zlen a)) /\
  size (jack_ringbuffer_read_advance rb (zlen a)) = size rb.
Proof.
  intros H E. destruct (read_advance_contents rb (zlen a) H) as [Ec W]; [rewrite E, length_app; lia|].
  split_and!; [|done|done]. by rewrite Ec, E, Nat2Z.id, drop_app_length.
Qed.

(** The first part of the free space is what lies behind the write pointer. *)
Lemma write_vector_first rb :
  wf rb ->
  let v0 := (jack_ringbuffer_get_write_vector rb).1 in
  vec_buf v0 = Some (write_ptr rb) /\ 0 <= vec_len v0 /\ write_ptr rb + vec_len v0 <= size rb /\
  vec_len v0 <= jack_ringbuffer_write_space rb.
Proof.
  intros H. pose proof (wf_bounds rb H) as Hsz. unfold jack_ringbuffer_get_write_vector.
  fold (jack_ringbuffer_write_space rb). set (n := jack_ringbuffer_write_space rb).
  assert (Hn : 0 <= n < size rb).
  { subst n. rewrite write_space_mod by done. apply Z.mod_pos_bound. lia. }
  destruct (wf_w rb H). rewrite (wrap_small 64 (write_ptr rb + n)), (wrap_small 64 (size rb - write_ptr rb)) by lia.
  destruct (Z.gtb_spec (write_ptr rb + n) (size rb)); cbn; split_and!; done || lia.
Qed.

Lemma ring_fill rb bytes :
  wf rb -> zlen bytes <= vec_len (jack_ringbuffer_get_write_vector rb).1 ->
  contents (fill rb (write_ptr rb) bytes) = contents rb ++ bytes /\ wf (fill rb (write_ptr rb) bytes).
Proof.
  intros H Hb. destruct (write_vector_first rb H) as (_ & _ & V1 & V2). pose proof (wf_bounds rb H) as Hsz.
  rewrite write_space_contents in V2 by done. pose proof (wf_w rb H) as Hw. pose proof (wf_len rb H) as Hl.
  unfold fill, jack_ringbuffer_write_advance. cbn [write_ptr size_mask set_buf].
  rewrite advance_mod by (done || lia). split.
  - rewrite contents_extend; [|done|lia|].
    + f_equal. rewrite (slice_of_prefix _ bytes); [by rewrite Nat2Z.id, take_ge by lia|lia|lia|].
      intros i Hi. rewrite Z.mod_small by lia. rewrite store_n_lookup_in by lia. do 2 f_equal. lia.
    + intros i Hi. apply store_n_lookup_out; [lia|apply Z.mod_pos_bound; lia|].
      destruct (decide (write_ptr rb + i < size rb)) as [Hlt|Hge]; [rewrite Z.mod_small by lia; lia|].
      rewrite <- (Z.mod_add _ (-1)) by lia. rewrite Z.mod_small by lia. lia.
  - apply wf_set_write_ptr; [|apply Z.mod_pos_bound; cbn; lia]. apply wf_set_buf; [done|]. by rewrite length_store_n.
Qed.

(** ** What is on its way from the device *)

(** The bytes of one read, with its time and the overruns before it. *)
Record piece := mk_piece { pc_time : Z; pc_overruns : Z; pc_bytes : list Z }.

Definition head_of (x : piece) : list Z := head_bytes (pc_time x) (zlen (pc_bytes x)) (pc_overruns x).

Record piece_ok (x : piece) : Prop := {
  pk_time : 0 <= pc_time x < 2 ^ 64;
  pk_overruns : is_int (pc_overruns x);
  pk_size : 0 < zlen (pc_bytes x) < 2 ^ 31;
  pk_bytes : Forall is_byte (pc_bytes x)
}.

Record input_inv (pieces : list piece) (p : input_port_t) : Prop := {
  ii_events : wf (in_events p);
  ii_data : wf (in_data p);
  ii_heads : contents (in_events p) = concat (head_of <$> pieces);
  ii_bytes : contents (in_data p) = concat (pc_bytes <$> pieces);
  ii_pieces : Forall piece_ok pieces;
  ii_unpack : unpack_ok (in_unpack p);
  ii_overruns : is_int (in_overruns p)
}.

(** A device gives as many bytes as it says, and no more than were asked for. *)
Definition device_ok (d : device) : Prop :=
  forall n, let '(res, bytes) := dv_read d n in res > 0 -> zlen bytes = res /\ res <= n /\ Forall is_byte bytes.

Lemma in_state_inv pieces o n r p : input_inv pieces p -> is_int o -> input_inv pieces (in_set_state o n r p).
Proof. intros [A B C D E F G] Ho. by constructor. Qed.

Lemma s32_int z : is_int (s32 z).
Proof. unfold is_int, swrap. pose proof (Z.mod_pos_bound (z + 2 ^ (32 - 1)) (2 ^ 32)). change (2 ^ (32 - 1)) with (2 ^ 31) in *. lia. Qed.

Lemma in_piece_inv pieces p t bytes :
  input_inv pieces p -> 0 <= t < 2 ^ 64 -> 0 < zlen bytes < 2 ^ 31 -> Forall is_byte bytes ->
  sizeof_head <= jack_ringbuffer_write_space (in_events p) ->
  zlen bytes <= vec_len (jack_ringbuffer_get_write_vector (in_data p)).1 ->
  input_inv (pieces ++ [mk_piece t (in_overruns p) bytes]) (in_piece t (write_ptr (in_data p)) bytes p).
Proof.
  intros [A B C D E F G] Ht Hb Hby Hs Hv.
  pose proof (ring_write (in_events p) (head_bytes t (zlen bytes) (in_overruns p)) A) as W. rewrite length_head in W.
  destruct (W Hs) as (W1 & W2 & _). destruct (ring_fill (in_data p) bytes B Hv) as [F1 F2].
  constructor; cbn [in_piece in_events in_data in_unpack in_overruns]; try done.
  - rewrite W1, C, fmap_app, concat_app. cbn [fmap list_fmap concat]. by rewrite app_nil_r.
  - rewrite F1, D, fmap_app, concat_app. cbn [fmap list_fmap concat]. by rewrite app_nil_r.
  - apply Forall_app. split; [done|]. by constructor.
Qed.

(** The thread of the device adds what it reads, or nothing. *)
Lemma do_midi_input_inv d t max pieces p :
  device_ok d -> 0 <= t < 2 ^ 64 -> size (in_data p) <= 2 ^ 31 -> input_inv pieces p ->
  let '(_, p') := do_midi_input d t max p in
  input_inv pieces p' \/ exists bytes, input_inv (pieces ++ [mk_piece t (in_overruns p) bytes]) p' /\
    bytes = (dv_read d (vec_len (jack_ringbuffer_get_write_vector (in_data p)).1)).2.
Proof.
  intros Hd Ht Hsz I. pose proof (ii_overruns _ _ I) as Ho. unfold do_midi_input.
  destruct (midi_is_ready d POLLIN (in_npfds p) (in_ready p)) as [ready|]; [|by left].
  set (p1 := in_set_state (in_overruns p) (in_npfds p) ready p).
  assert (I1 : input_inv pieces p1) by (by apply in_state_inv).
  destruct ready; [|destruct (midi_update_pfds d max (in_npfds p1)) as [ok n]; left; by apply in_state_inv].
  destruct (write_vector_first (in_data p) (ii_data _ _ I)) as (V0 & V1 & V2 & V3).
  change (in_data p1) with (in_data p). change (in_events p1) with (in_events p).
  destruct (jack_ringbuffer_get_write_vector (in_data p)) as [v0 v1] eqn:Ev. cbn [fst] in *.
  destruct ((jack_ringbuffer_write_space (in_events p) <? sizeof_head) || (vec_len v0 <? 1)) eqn:Ef.
  { left. apply in_state_inv; [done|apply s32_int]. }
  apply orb_false_iff in Ef as [Ef1 Ef2]. specialize (Hd (vec_len v0)). destruct (dv_read d (vec_len v0)) as [res bytes] eqn:Er.
  destruct ((res <? 0) && negb (res =? - EWOULDBLOCK)); [by left|].
  destruct (Z.gtb_spec res 0) as [Hr|Hr].
  - destruct (Hd ltac:(lia)) as (D1 & D2 & D3). rewrite V0. cbn [default from_option id].
    destruct (midi_update_pfds d max _) as [ok n]. right. exists bytes. split; [|done].
    rewrite write_space_contents in V3 by apply (ii_data _ _ I).
    apply in_state_inv; [apply in_state_inv|done]; [|done].
    apply (in_piece_inv pieces p1 t bytes I1 Ht); [lia|done|change (in_events p1) with (in_events p); lia|].
    change (in_data p1) with (in_data p). rewrite Ev. cbn [fst]. lia.
  - destruct (midi_update_pfds d max _) as [ok n]. left. by apply in_state_inv; [apply in_state_inv|].
Qed.

(** ** What the cycle does with it *)

(** A piece goes through the parser into the port buffer. *)
Definition deliver (nframes frame_time : Z) (s : option (midi_unpack_t * list Z)) (x : piece) : option (midi_unpack_t * list Z) :=
  '(u, m) ← s;
  let u := if negb (pc_overruns x =? 0) then midi_unpack_reset u else u in
  '(_, u, m) ← midi_unpack_buf u (pc_bytes x) m (input_time (pc_time x) nframes frame_time);
  Some (u, m).

Lemma unpack_buf_app u a b m t :
  midi_unpack_buf u (a ++ b) m t =
  ('(n, u, m) ← midi_unpack_buf u a m t; '(k, u, m) ← midi_unpack_buf u b m t; Some (n + k, u, m)).
Proof.
  unfold midi_unpack_buf. rewrite unpack_app. destruct (unpack_bytes u a) as [[u1 o1]|]; cbn [mbind option_bind]; [|done].
  destruct (unpack_bytes u1 b) as [[u2 o2]|]; cbn [mbind option_bind]; [|done]. by rewrite length_app, Nat2Z.inj_add, foldl_app.
Qed.

(** The two parts of the ring. *)
Lemma read_vectors rb :
  wf rb -> let '(v0, v1) := jack_ringbuffer_get_read_vector rb in
  contents rb = vec_bytes (rb_buf rb) v0 ++ vec_bytes (rb_buf rb) v1 /\
  zlen (vec_bytes (rb_buf rb) v0) = vec_len v0 /\ zlen (vec_bytes (rb_buf rb) v1) = vec_len v1.
Proof.
  intros H. pose proof (read_vector_contents rb H) as V. destruct (jack_ringbuffer_get_read_vector rb) as [v0 v1] eqn:E.
  destruct V as [V1 V2]. split; [done|]. rewrite <- V1, length_app in V2.
  assert (L : forall v, 0 <= vec_len v -> zlen (vec_bytes (rb_buf rb) v) <= vec_len v).
  { intros v Hv. unfold vec_bytes. destruct (vec_buf v); [|done]. unfold load_n. rewrite length_take. lia. }
  enough (0 <= vec_len v0 /\ 0 <= vec_len v1) by (pose proof (L v0); pose proof (L v1); lia).
  unfold jack_ringbuffer_get_read_vector in E. fold (jack_ringbuffer_read_space rb) in E.
  pose proof (contents_length rb H) as Hc. pose proof (wf_bounds rb H) as Hsz. pose proof (wf_r rb H) as Hr.
  destruct (_ >? _); injection E as <- <-; cbn [vec_len]; (split; [|try done]).
  - apply wrap_bound. done.
  - rewrite wf_land by done. apply Z.mod_pos_bound. lia.
  - lia.
Qed.

Lemma unpack_vectors_eq u rb b rest m t :
  wf rb -> contents rb = b ++ rest -> 0 < zlen b ->
  let '(v0, v1) := jack_ringbuffer_get_read_vector rb in
  zlen b <= vec_len v0 + vec_len v1 /\
  unpack_vectors u rb v0 v1 (zlen b) m t = ('(_, u, m) ← midi_unpack_buf u b m t; Some (u, m)).
Proof.
  intros H E Hb. pose proof (read_vectors rb H) as V. destruct (jack_ringbuffer_get_read_vector rb) as [v0 v1].
  destruct V as (V & L0 & L1). rewrite E in V.
  assert (Hle : zlen b <= vec_len v0 + vec_len v1) by (apply (f_equal length) in V; rewrite !length_app in V; lia).
  split; [done|]. unfold unpack_vectors. rewrite (proj2 (Z.leb_gt _ _)) by lia.
  set (d0 := vec_bytes (rb_buf rb) v0) in *. set (d1 := vec_bytes (rb_buf rb) v1) in *.
  assert (Hpre : forall (d : list Z) n, load_n d 0 n = take (Z.to_nat n) d) by (intros; unfold load_n; by rewrite drop_0).
  destruct (decide (zlen b <= vec_len v0)) as [Hs|Hs].
  - assert (E0 : load_n d0 0 (if zlen b <? vec_len v0 then zlen b else vec_len v0) = b).
    { replace (if zlen b <? vec_len v0 then zlen b else vec_len v0) with (zlen b) by (destruct (Z.ltb_spec (zlen b) (vec_len v0)); lia).
      rewrite Hpre, Nat2Z.id. rewrite <- (take_app_le d0 d1) by lia. by rewrite <- V, take_app_length. }
    rewrite E0. unfold midi_unpack_buf. destruct (unpack_bytes u b) as [[u' out]|]; cbn [mbind option_bind]; [|done].
    rewrite Z.sub_diag. cbn [Z.leb Z.compare]. by rewrite orb_true_r.
  - replace (if zlen b <? vec_len v0 then zlen b else vec_len v0) with (vec_len v0) by (destruct (Z.ltb_spec (zlen b) (vec_len v0)); lia).
    assert (E0 : load_n d0 0 (vec_len v0) = d0) by (rewrite Hpre; apply take_ge; lia). rewrite E0.
    assert (Eb : b = d0 ++ take (Z.to_nat (zlen b - vec_len v0)) d1).
    { transitivity (take (length b) (d0 ++ d1)); [by rewrite <- V, take_app_length|].
      rewrite take_app_ge by lia. do 2 f_equal. lia. }
    transitivity ('(_, u, m) ← midi_unpack_buf u (d0 ++ take (Z.to_nat (zlen b - vec_len v0)) d1) m t; Some (u, m)); [|by rewrite <- Eb].
    rewrite unpack_buf_app.
    destruct (midi_unpack_buf u d0 m t) as [[[n u'] m']|] eqn:Em; cbn [mbind option_bind]; [|done].
    assert (n = vec_len v0) as -> by (unfold midi_unpack_buf in Em; apply bind_Some in Em as ([u1 o1] & _ & [= <- _ _]); done).
    rewrite Z.eqb_refl. cbn [negb orb]. rewrite (proj2 (Z.leb_gt _ _)) by lia.
    replace (if zlen b - vec_len v0 <? vec_len v1 then zlen b - vec_len v0 else vec_len v1) with (zlen b - vec_len v0)
      by (destruct (Z.ltb_spec (zlen b - vec_len v0) (vec_len v1)); lia).
    rewrite Hpre. by destruct (midi_unpack_buf u' _ _ _) as [[[n' u''] m'']|].
Qed.

(** The parser takes every piece. *)
Lemma unpack_buf_total u data m t :
  unpack_ok u -> Forall is_byte data -> exists u' m', midi_unpack_buf u data m t = Some (zlen data, u', m') /\ unpack_ok u'.
Proof.
  intros Hu Hd. unfold midi_unpack_buf. destruct (unpack_total u data Hu Hd) as (u' & out & -> & Hu').
  cbn [mbind option_bind]. by eexists _, _.
Qed.

Lemma jack_input_loop nframes frame_time pieces : forall fuel p m,
  input_inv pieces p -> (length pieces <= fuel)%nat ->
  exists p' m', do_jack_input fuel nframes frame_time p m = Some (p', m') /\ input_inv [] p' /\
    foldl (deliver nframes frame_time) (Some (in_unpack p, m)) pieces = Some (in_unpack p', m').
Proof.
  induction pieces as [|x pieces IH]; intros fuel p m I Hf.
  - exists p, m. split; [|done]. destruct fuel; cbn [do_jack_input];
      rewrite <- (contents_length _ (ii_events _ _ I)), (ii_heads _ _ I); done.
  - destruct I as [A B C D E F G]. apply Forall_cons in E as [Ex E]. destruct fuel as [|fuel]; [cbn in Hf; lia|].
    cbn [do_jack_input]. rewrite <- (contents_length _ A), C. cbn [fmap list_fmap concat] in C, D |- *.
    rewrite length_app. assert (Lh : zlen (head_of x) = sizeof_head) by apply length_head.
    rewrite (proj2 (Z.ltb_ge _ _)) by lia.
    destruct (ring_read (in_events p) (head_of x) _ A C) as (events & Er & C' & A' & _). rewrite Lh in Er. rewrite Er.
    destruct Ex as [X1 X2 X3 X4].
    destruct (head_fields (pc_time x) (zlen (pc_bytes x)) (pc_overruns x) X1 ltac:(unfold is_int; lia) X2) as (F1 & F2 & F3).
    fold (head_of x) in F1, F2, F3. rewrite F1, F2, F3. rewrite (wrap_small 64 (zlen (pc_bytes x))) by lia.
    set (u := if negb (pc_overruns x =? 0) then midi_unpack_reset (in_unpack p) else in_unpack p).
    assert (Hu : unpack_ok u) by (unfold u; destruct (negb _); [by apply reset_ok|done]).
    pose proof (unpack_vectors_eq u (in_data p) (pc_bytes x) _ m (input_time (pc_time x) nframes frame_time) B D ltac:(lia)) as V.
    destruct (jack_ringbuffer_get_read_vector (in_data p)) as [v0 v1]. destruct V as [V1 V2].
    rewrite (proj2 (Z.leb_le _ _)), V2 by done. cbn [negb].
    destruct (unpack_buf_total u (pc_bytes x) m (input_time (pc_time x) nframes frame_time) Hu X4) as (u' & m' & Eu & Hu').
    rewrite Eu. cbn [mbind option_bind]. destruct (ring_drop (in_data p) (pc_bytes x) _ B D) as (D' & B' & _).
    destruct (IH fuel (mk_input events (jack_ringbuffer_read_advance (in_data p) (zlen (pc_bytes x))) u'
      (in_overruns p) (in_npfds p) (in_ready p)) m') as (p' & m'' & E1 & I' & E2); [by constructor|cbn in Hf; lia|].
    exists p', m''. split; [exact E1|]. split; [done|]. cbn [foldl].
    unfold deliver at 2. cbn [mbind option_bind]. fold u. rewrite Eu. cbn [mbind option_bind]. exact E2.
Qed.

(** The process cycle hears everything a device has sent: the heads and
    the bytes of the two rings stay in step, no assertion fails, every read of
    the device goes through the parser in order and exactly once, with the
    parser reset where bytes were lost, and the rings are empty afterwards. *)
Theorem jack_input_complete nframes frame_time pieces p m :
  input_inv pieces p ->
  exists p' m', do_jack_input (length (contents (in_events p))) nframes frame_time p m = Some (p', m') /\
    input_inv [] p' /\ foldl (deliver nframes frame_time) (Some (in_unpack p, m)) pieces = Some (in_unpack p', m').
Proof.
  intros I. apply jack_input_loop; [done|]. rewrite (ii_heads _ _ I). clear I.
  induction pieces as [|x pieces IH]; [done|]. cbn [fmap list_fmap concat length]. rewrite length_app.
  pose proof (length_head (pc_time x) (zlen (pc_bytes x)) (pc_overruns x)). fold (head_of x) in *. unfold sizeof_head in *. lia.
Qed.

(** A message is heard within the cycle. *)
Lemma input_time_bounds t nframes frame_time :
  0 <= t -> 0 < nframes < 2 ^ 32 -> t + nframes < 2 ^ 64 -> 0 <= input_time t nframes frame_time < nframes.
Proof.
  intros Ht Hn Hs. unfold input_time. rewrite (wrap_small 64) by lia.
  destruct (Z.ltb_spec (t + nframes) frame_time); [lia|]. destruct (Z.geb_spec t frame_time); rewrite wrap_small; lia.
Qed.

(** ** What is on its way to the device *)

Record out_head := mk_out_head { oh_time : Z; oh_size : Z; oh_junk : Z }.

Definition out_head_bytes (x : out_head) : list Z := head_bytes (oh_time x) (oh_size x) (oh_junk x).

Definition out_head_ok (x : out_head) : Prop := 0 <= oh_time x < 2 ^ 64 /\ 0 <= oh_size x /\ is_int (oh_size x) /\ is_int (oh_junk x).

Definition pending (heads : list out_head) : Z := foldr (fun x n => oh_size x + n) 0 heads.

(** The heads account for the bytes of the ring. *)
Record output_inv (heads : list out_head) (p : output_port_t) : Prop := {
  oi_events : wf (out_events p);
  oi_data : wf (out_data p);
  oi_small : size (out_data p) <= 2 ^ 31;
  oi_heads : contents (out_events p) = concat (out_head_bytes <$> heads);
  oi_bytes : zlen (contents (out_data p)) = todo p + next_size p + pending heads;
  oi_ok : Forall out_head_ok heads;
  oi_todo : 0 <= todo p;
  oi_next : 0 <= next_size p
}.

Lemma pending_nonneg heads : Forall out_head_ok heads -> 0 <= pending heads.
Proof. unfold pending. induction 1 as [|x heads (_ & H & _) _ IH]; cbn [foldr]; lia. Qed.

Lemma pending_app a b : pending (a ++ b) = pending a + pending b.
Proof. unfold pending in *. induction a as [|x a IH]; cbn [app foldr]; [done|]. rewrite IH. lia. Qed.

Lemma contents_small rb : wf rb -> zlen (contents rb) < size rb.
Proof.
  intros H. rewrite contents_length, read_space_mod by done. apply Z.mod_pos_bound. pose proof (wf_bounds rb H). lia.
Qed.

Lemma pack_event_some rs e :
  0 < zlen e -> exists rs' bytes, midi_pack_event rs e = Some (rs', bytes) /\ zlen bytes <= zlen e.
Proof.
  intros He. destruct e as [|b e]; [cbn in He; lia|]. cbn [midi_pack_event].
  repeat match goal with |- context [if ?c then _ else _] => destruct c end;
    eexists _, _; (split; [reflexivity|]); cbn [length]; lia.
Qed.

Lemma pack_events_cons rs e l rs1 b1 rs2 b2 :
  midi_pack_event rs e = Some (rs1, b1) -> pack_events rs1 l = Some (rs2, b2) -> pack_events rs (e :: l) = Some (rs2, b1 ++ b2).
Proof. intros E1 E2. cbn [pack_events]. rewrite E1. cbn [mbind option_bind]. by rewrite E2. Qed.

(** The process cycle queues the events of a port for the device: as many
    of them as the rings have room for, from the first on, as one stream with
    running status that goes on from the one before; the heads account for the
    bytes. *)
Theorem jack_output_packs m bs nf lost evs nframes frame_time junk heads p :
  midi_rep m bs nf lost evs -> output_inv heads p -> is_int junk ->
  exists p' k new bytes, do_jack_output (length evs) 0 nframes frame_time junk m p = Some p' /\
    pack_events (out_packer p) (snd <$> take k evs) = Some (out_packer p', bytes) /\
    contents (out_data p') = contents (out_data p) ++ bytes /\ output_inv (heads ++ new) p' /\ length new = k /\
    (k <= length evs)%nat /\ todo p' = todo p.
Proof.
  intros M I Hj.
  assert (Hgen : forall rest pre p heads, evs = pre ++ rest -> output_inv heads p ->
    exists p' k new bytes, do_jack_output (length rest) (zlen pre) nframes frame_time junk m p = Some p' /\
      pack_events (out_packer p) (snd <$> take k rest) = Some (out_packer p', bytes) /\
      contents (out_data p') = contents (out_data p) ++ bytes /\ output_inv (heads ++ new) p' /\ length new = k /\
      (k <= length rest)%nat /\ todo p' = todo p).
  2:{ by apply (Hgen evs []). }
  clear heads p I. induction rest as [|[t e] rest IH]; intros pre p heads E I.
  - exists p, 0%nat, [], []. rewrite !app_nil_r. split_and!; done.
  - assert (Hstop : exists p' k new bytes, Some p = Some p' /\
      pack_events (out_packer p) (snd <$> take k ((t, e) :: rest)) = Some (out_packer p', bytes) /\
      contents (out_data p') = contents (out_data p) ++ bytes /\ output_inv (heads ++ new) p' /\ length new = k /\
      (k <= length ((t, e) :: rest))%nat /\ todo p' = todo p).
    { exists p, 0%nat, [], []. rewrite !app_nil_r. split_and!; try done. cbn. lia. }
    assert (Ei : evs !! length pre = Some (t, e)) by (rewrite E; by apply list_lookup_middle).
    destruct (mr_legal _ _ _ _ _ M _ _ _ Ei) as [Ht He].
    pose proof (event_get_spec m bs nf lost evs (length pre) M) as G. rewrite Ei in G. destruct G as (ptr & Eg & Ed & _).
    cbn [length do_jack_output]. rewrite Eg, Ed.
    destruct ((jack_ringbuffer_write_space (out_data p) <? zlen e) || (jack_ringbuffer_write_space (out_events p) <? sizeof_head)) eqn:Ef;
      [exact Hstop|]. clear Hstop. apply orb_false_iff in Ef as [Ef1 Ef2].
    destruct (pack_event_some (out_packer p) e ltac:(lia)) as (rs & bytes & Ep & Hb). rewrite Ep. cbn [mbind option_bind].
    destruct I as [A B Sm C D Oo T N].
    destruct (ring_write (out_data p) bytes B ltac:(lia)) as (W1 & W2 & W3).
    set (h := mk_out_head (u64 (frame_time + t + nframes)) (zlen bytes) junk).
    pose proof (ring_write (out_events p) (out_head_bytes h) A) as Wh. assert (Lh : zlen (out_head_bytes h) = sizeof_head) by apply length_head. rewrite Lh in Wh.
    destruct (Wh ltac:(lia)) as (H1 & H2 & H3).
    assert (I' : output_inv (heads ++ [h]) (out_rings (jack_ringbuffer_write (out_events p) (out_head_bytes h) sizeof_head).2
        (jack_ringbuffer_write (out_data p) bytes (zlen bytes)).2 rs p)).
    { constructor; cbn [out_rings out_events out_data todo next_size]; try done.
      - by rewrite W3.
      - rewrite H1, C, fmap_app, concat_app. cbn [fmap list_fmap concat]. by rewrite app_nil_r.
      - rewrite W1, length_app, pending_app. cbn [pending foldr oh_size h]. lia.
      - apply Forall_app. split; [done|]. constructor; [|done]. unfold out_head_ok. cbn [h oh_time oh_size oh_junk].
        split; [by apply wrap_bound|]. split; [lia|]. split; [unfold is_int; lia|done]. }
    destruct (IH (pre ++ [(t, e)]) _ _ ltac:(by rewrite <- app_assoc) I') as (p' & k & new & bytes' & E1 & E2 & E3 & E4 & E5 & E6 & E7).
    exists p', (S k), (h :: new), (bytes ++ bytes').
    replace (zlen (pre ++ [(t, e)])) with (zlen pre + 1) in E1 by (rewrite length_app; cbn; lia).
    split; [exact E1|]. cbn [take fmap list_fmap snd]. split_and!.
    + by apply (pack_events_cons _ _ _ rs).
    + rewrite E3. cbn [out_rings out_data]. by rewrite W1, app_assoc.
    + by rewrite <- app_assoc in E4.
    + cbn. lia.
    + cbn. lia.
    + exact E7.
Qed.

(** The heads at the front that are due, and the bytes that become due: those of the next
    head, when its time has come, and of the ones behind it up to the first that is not due. *)
Fixpoint due_heads (cur : Z) (heads : list out_head) : list out_head :=
  match heads with
  | [] => []
  | x :: heads => if oh_time x <=? cur then x :: due_heads cur heads else []
  end.

Definition due (cur : Z) (heads : list out_head) (p : output_port_t) : Z :=
  if next_time p <=? cur then next_size p + pending (due_heads cur heads) else 0.

(** They become bytes to write, and no others. *)
Lemma eat_events_spec cur heads : forall fuel p,
  output_inv heads p -> 0 <= cur -> (length heads < fuel)%nat ->
  exists k p', eat_events fuel cur p = Some p' /\ output_inv (drop k heads) p' /\ out_data p' = out_data p /\
    out_ready p' = out_ready p /\ todo p' = todo p + due cur heads p.
Proof.
  induction heads as [|x heads IH]; intros fuel p I Hc Hf; destruct fuel as [|fuel]; [cbn in Hf; lia| |cbn in Hf; lia|];
    cbn [eat_events]; (destruct (Z.leb_spec (next_time p) cur); [|exists 0%nat, p; unfold due; rewrite (proj2 (Z.leb_gt _ _)) by done; split_and!; done || lia]);
    pose proof I as [A B Sm C D Oo T N]; pose proof (contents_small _ B); pose proof (pending_nonneg _ Oo).
  - pose proof (ring_read_less (out_events p) A ltac:(by rewrite C)) as (rb' & -> & C' & A').
    cbn [Z.eqb negb sizeof_head]. eexists 0%nat, _. split; [done|]. cbn [pending foldr] in D. split_and!; try done.
    2:{ cbn [set_next todo]. rewrite swrap_small by lia. unfold due. rewrite (proj2 (Z.leb_le _ _)) by done. cbn [due_heads pending foldr]. lia. }
    constructor; cbn [set_next out_events out_data todo next_size]; try done;
      rewrite ?swrap_small by lia; cbn [pending foldr drop]; lia.
  - cbn [fmap list_fmap concat] in C. destruct (ring_read (out_events p) (out_head_bytes x) _ A C) as (rb' & Er & C' & A' & _).
    unfold out_head_bytes in Er at 1 2. rewrite length_head in Er. rewrite Er. rewrite Z.eqb_refl. cbn [negb].
    apply Forall_cons in Oo as [(X1 & X2 & X3 & X4) Oo]. destruct (head_fields _ _ _ X1 X3 X4) as (F1 & F2 & _).
    fold (out_head_bytes x) in F1, F2. rewrite F1, F2. cbn [pending foldr] in D. fold (pending heads) in D.
    pose proof (pending_nonneg _ Oo).
    destruct (IH fuel (set_next rb' (oh_time x) (oh_size x) (s32 (todo p + next_size p)) p)) as (k & p' & E & I' & E1 & E2 & E3).
    + constructor; cbn [set_next out_events out_data todo next_size]; try done; rewrite ?swrap_small by lia; lia.
    + done.
    + cbn in Hf. lia.
    + exists (S k), p'. cbn [drop]. split_and!; try done. rewrite E3. unfold due. cbn [set_next todo next_time next_size].
      rewrite swrap_small by lia. rewrite (proj2 (Z.leb_le (next_time p) _)) by done. cbn [due_heads].
      destruct (oh_time x <=? cur); cbn [pending foldr]; fold (pending (due_heads cur heads)); lia.
Qed.

Lemma due_nonneg cur heads p : output_inv heads p -> 0 <= due cur heads p.
Proof.
  intros I. unfold due. destruct (_ <=? _); [|done]. pose proof (oi_next _ _ I). pose proof (oi_ok _ _ I) as Ho. clear I.
  enough (0 <= pending (due_heads cur heads)) by lia. apply pending_nonneg. induction Ho as [|x l Hx _ IH]; cbn; [constructor|].
  destruct (_ <=? _); by constructor.
Qed.

Lemma read_vector_nonempty rb :
  wf rb -> 0 < zlen (contents rb) -> 0 < vec_len (jack_ringbuffer_get_read_vector rb).1.
Proof.
  intros H Hc. rewrite contents_length in Hc by done. pose proof (wf_bounds rb H). pose proof (wf_r rb H).
  unfold jack_ringbuffer_get_read_vector. fold (jack_ringbuffer_read_space rb).
  destruct (_ >? _); cbn [fst vec_len]; [rewrite wrap_small by lia; lia|done].
Qed.

(** C31: The thread of the device writes the queued bytes in order: the
    assertion about the ring holds, what the device takes is the front of the
    stream and leaves the ring, only bytes that were or become due are written, the
    others stay, and the heads still account for the bytes that are left.  When
    bytes are due and a device that is ready takes some, some are written. *)
Theorem midi_output_in_order fuel d cur wakeup max heads p :
  output_inv heads p -> 0 <= cur -> (forall l, dv_write d l <= zlen l) -> (length heads < fuel)%nat ->
  exists ok sent w p' k, do_midi_output fuel d cur wakeup max p = Some (ok, sent, w, p') /\
    contents (out_data p) = sent ++ contents (out_data p') /\ output_inv (drop k heads) p' /\
    zlen sent <= todo p + due cur heads p /\
    (p' = p \/ todo p' = todo p + due cur heads p - zlen sent) /\
    (midi_is_ready d POLLOUT (out_npfds p) (out_ready p) = Some true -> (forall l, l <> [] -> 0 < dv_write d l) ->
     0 < todo p + due cur heads p -> sent <> []).
Proof.
  intros I Hc Hd Hf. unfold do_midi_output.
  destruct (midi_is_ready d POLLOUT (out_npfds p) (out_ready p)) as [ready|].
  2:{ exists false, [], wakeup, p, 0%nat. pose proof (oi_todo _ _ I). pose proof (due_nonneg cur heads p I). split_and!; [done|done|done|cbn; lia|by left|done]. }
  set (p0 := out_state (out_data p) (todo p) (out_npfds p) ready p).
  assert (I0 : output_inv heads p0) by (by destruct I).
  destruct (eat_events_spec cur heads fuel p0 I0 Hc Hf) as (k & p1 & -> & I1 & E1 & E2 & E3). cbn [mbind option_bind].
  set (wk := if (todo p1 =? 0) && negb (next_time p1 =? 0) && (next_time p1 <? wakeup) then next_time p1 else wakeup).
  change (out_data p0) with (out_data p) in E1. pose proof I1 as [A B Sm C D Oo T N]. pose proof (contents_small _ B) as Hsm.
  pose proof (pending_nonneg _ Oo) as Hpn. change (todo p0) with (todo p) in E3. change (due cur heads p0) with (due cur heads p) in E3.
  rewrite <- E3.
  destruct (negb (todo p1 =? 0) && out_ready p1) eqn:Ew.
  2:{ destruct (midi_update_pfds d max (out_npfds p1)) as [ok n]. exists ok, [], wk, (out_state (out_data p1) (todo p1) n (out_ready p1) p1), k.
      split_and!; [done|cbn; by rewrite E1|by constructor|cbn; lia|right; cbn; lia|]. intros [= ->] _ Hd0. rewrite E2 in Ew. cbn in Ew. lia. }
  apply andb_true_iff in Ew as [Ew _]. assert (Ht : 0 < todo p1) by (destruct (Z.eqb_spec (todo p1) 0); [done|lia]).
  pose proof (read_vectors (out_data p1) B) as V. pose proof (read_vector_nonempty (out_data p1) B ltac:(lia)) as V0.
  destruct (jack_ringbuffer_get_read_vector (out_data p1)) as [v0 v1]. destruct V as (V & L0 & L1). cbn [fst] in V0.
  set (sz := if todo p1 >? vec_len v0 then vec_len v0 else todo p1).
  assert (Hsz : 0 < sz <= todo p1 /\ sz <= vec_len v0) by (unfold sz; destruct (Z.gtb_spec (todo p1) (vec_len v0)); lia).
  replace ((todo p1 >? vec_len v0) && negb (sz >? 0)) with false by (destruct (todo p1 >? vec_len v0), (Z.gtb_spec sz 0); done || lia).
  set (bytes := load_n (vec_bytes (rb_buf (out_data p1)) v0) 0 sz).
  assert (Hbl : zlen bytes = sz) by (apply length_load_n; lia).
  assert (Hpre : exists rest, contents (out_data p1) = bytes ++ rest).
  { rewrite V. unfold bytes, load_n. rewrite drop_0. exists (drop (Z.to_nat sz) (vec_bytes (rb_buf (out_data p1)) v0) ++ vec_bytes (rb_buf (out_data p1)) v1).
    by rewrite app_assoc, take_drop. }
  destruct Hpre as [rest Er]. pose proof (Hd bytes) as Hres. set (res := dv_write d bytes) in *.
  destruct (Z.gtb_spec res 0) as [Hr|Hr].
  - rewrite <- (take_drop (Z.to_nat res) bytes), <- app_assoc in Er.
    assert (Hl : zlen (take (Z.to_nat res) bytes) = res) by (rewrite length_take; lia).
    destruct (ring_drop (out_data p1) _ _ B Er) as (R1 & R2 & R3). rewrite Hl in R1, R2, R3.
    destruct (midi_update_pfds d max _) as [ok n]. eexists ok, _, wk, _, k. split; [done|].
    cbn [out_state out_data out_events todo next_size]. split_and!; [by rewrite <- E1, Er, R1| |lia|right; rewrite swrap_small by lia; lia|].
    2:{ intros _ _ _ Hnil. rewrite Hnil in Hl. cbn in Hl. lia. }
    constructor; cbn [out_state out_data out_events todo next_size]; try done.
    + apply (f_equal length) in Er. rewrite length_app in Er. rewrite R1, swrap_small by lia. lia.
    + rewrite swrap_small by lia. lia.
  - assert (Hno : (forall l, l <> [] -> 0 < dv_write d l) -> False).
    { intros Hall. enough (0 < res) by lia. apply Hall. intros Hnil. rewrite Hnil in Hbl. cbn in Hbl. lia. }
    destruct (res =? - EWOULDBLOCK).
    + exists true, [], wk, (out_state (out_data p1) (todo p1) (out_npfds p1) false p1), k.
      split_and!; [done|cbn; by rewrite E1|by constructor|cbn; lia|right; cbn; lia|]. intros _ Hall _. by apply Hno in Hall.
    + exists false, [], wk, p1, k. split_and!; [done|by rewrite E1|done|cbn; lia|right; cbn; lia|]. intros _ Hall _. by apply Hno in Hall.
Qed.

(** ** Examples *)

Definition empty_ring : jack_ringbuffer_t := mk_rb (replicate 64 0) 0 0 64 63 0.

Lemma empty_ring_wf : wf empty_ring.
Proof. constructor; cbn; [exists 6|..]; lia. Qed.

Definition quiet_input : input_port_t := mk_input empty_ring empty_ring RawMidi.fresh 0 1 true.
Definition quiet_output : output_port_t := mk_output empty_ring empty_ring 0 0 0 0 1 true.

Lemma quiet_input_inv : input_inv [] quiet_input.
Proof. constructor; try apply empty_ring_wf; done. Qed.

Lemma quiet_output_inv : output_inv [] quiet_output.
Proof. constructor; try apply empty_ring_wf; done. Qed.

(** A note on arrives in two reads. *)
Definition heard_input : input_port_t :=
  in_piece 90 2 [64] (in_piece 80 0 [0x90; 60] quiet_input).

Lemma heard_input_inv : input_inv [mk_piece 80 0 [0x90; 60]; mk_piece 90 0 [64]] heard_input.
Proof.
  assert (I : input_inv [mk_piece 80 0 [0x90; 60]] (in_piece 80 0 [0x90; 60] quiet_input)).
  { apply (in_piece_inv [] quiet_input 80 [0x90; 60]); [apply quiet_input_inv|done|done|by apply bytes_ok|done|done]. }
  apply (in_piece_inv _ _ 90 [64] I); [done|done|by apply bytes_ok|done|done].
Qed.

Lemma jack_input_complete_witness :
  exists p' m', do_jack_input 32 64 100 heard_input (jack_midi_buffer_init (replicate 56 0) 56 64) = Some (p', m') /\
    input_inv [] p' /\
    foldl (deliver 64 100) (Some (in_unpack heard_input, jack_midi_buffer_init (replicate 56 0) 56 64))
      [mk_piece 80 0 [0x90; 60]; mk_piece 90 0 [64]] = Some (in_unpack p', m').
Proof. exact (jack_input_complete 64 100 _ heard_input (jack_midi_buffer_init (replicate 56 0) 56 64) heard_input_inv). Defined.

(** The note and the system exclusive message of MidiPort.v, queued and sent. *)
Definition two_events : list Z := write_all (jack_midi_buffer_init (replicate 56 0) 56 64) [note; sysex].

Lemma two_events_rep : midi_rep two_events 56 64 0 [note; sysex].
Proof.
  apply (write_all_rep _ 56 64 0 []).
  - apply init_rep; [done|split; vm_compute; [discriminate|reflexivity]|split; vm_compute; discriminate].
  - split; repeat constructor; vm_compute; congruence.
  - vm_compute. discriminate.
Qed.

Lemma zero_int : is_int 0.
Proof. unfold is_int. lia. Qed.

Lemma jack_output_packs_witness :
  exists p' k new bytes, do_jack_output 2 0 64 100 0 two_events quiet_output = Some p' /\
    pack_events 0 (snd <$> take k [note; sysex]) = Some (out_packer p', bytes) /\
    contents (out_data p') = bytes /\ output_inv new p' /\ length new = k /\ (k <= 2)%nat /\ todo p' = 0.
Proof.
  destruct (jack_output_packs two_events 56 64 0 [note; sysex] 64 100 0 [] quiet_output two_events_rep quiet_output_inv zero_int)
    as (p' & k & new & bytes & E1 & E2 & E3 & E4 & E5 & E6 & E7).
  exists p', k, new, bytes. split; [exact E1|]. split; [exact E2|]. split; [rewrite E3; reflexivity|].
  exact (conj E4 (conj E5 (conj E6 E7))).
Defined.

(** A device that takes two bytes at a time. *)
Definition slow_device : device := mk_device 0 POLLOUT 1 (fun _ => (0, [])) (fun l => Z.min 2 (zlen l)).

(** Three bytes are in the ring: two are due, the head of the third is not. *)
Definition busy_output : output_port_t :=
  mk_output (jack_ringbuffer_write empty_ring (out_head_bytes (mk_out_head 200 1 0)) sizeof_head).2
    (jack_ringbuffer_write empty_ring [0xC0; 5; 0xF8] 3).2 0 100 2 0 1 true.

Lemma busy_output_inv : output_inv [mk_out_head 200 1 0] busy_output.
Proof.
  destruct (ring_write empty_ring (out_head_bytes (mk_out_head 200 1 0)) empty_ring_wf ltac:(discriminate)) as (E1 & W1 & _).
  destruct (ring_write empty_ring [0xC0; 5; 0xF8] empty_ring_wf ltac:(discriminate)) as (E2 & W2 & S2).
  constructor; try (exact W1 || exact W2 || reflexivity || discriminate).
  apply Forall_cons_2; [|apply Forall_nil_2]. unfold out_head_ok, is_int. cbn [oh_time oh_size oh_junk]. lia.
Qed.

Lemma midi_output_in_order_witness :
  exists ok sent w p' k, do_midi_output 2 slow_device 150 1000 4 busy_output = Some (ok, sent, w, p') /\
    [0xC0; 5; 0xF8] = sent ++ contents (out_data p') /\ output_inv (drop k [mk_out_head 200 1 0]) p' /\
    zlen sent <= 2 /\ (p' = busy_output \/ todo p' = 2 - zlen sent) /\ sent <> [].
Proof.
  destruct (midi_output_in_order 2 slow_device 150 1000 4 [mk_out_head 200 1 0] busy_output busy_output_inv
    ltac:(discriminate) (fun l => Z.le_min_r 2 (zlen l)) ltac:(apply le_n)) as (ok & sent & w & p' & k & E & Ec & I & Hs & Ht & Hp).
  exists ok, sent, w, p', k. split_and!; [exact E|exact Ec|exact I|exact Hs|exact Ht|]. apply Hp; [reflexivity| |reflexivity].
  intros [|b l] Hl; [done|]. cbn. lia.
Defined.

End RawMidiPort.
