(* ===== verification/ClientPorts.v ===== *)
(** * Ports in the process of a client (libjack/port.c)

    A client keeps a structure of its own for each of its ports and for each
    port of other clients it has to do with; the facts about a port are in the
    table the server shares.  The structures are blocks of a heap, allocated by
    [malloc]; mix buffers come from the pool.  What a function reads behind a
    pointer that is not valid is undefined: the result is then [None]. *)

From S2P Require Import Prelude Engine Graph Ports.

Local Open Scope Z_scope.

Module ClientPort.
Import Graph Ports.

Definition UINT32_MAX : Z := 4294967295.

Inductive jack_latency_callback_mode_t := JackCaptureLatency | JackPlaybackLatency.

Record jack_latency_range_t := mk_range { lr_min : Z; lr_max : Z }.

(** An entry of the port table in shared memory: what the server uses of it,
    and the latency ranges. *)
Record jack_port_shared_t := mk_shared {
  sp : port;
  capture_latency : jack_latency_range_t;
  playback_latency : jack_latency_range_t
}.

#[global] Instance shared_assignable : Assignable jack_port_shared_t :=
  fun r => mk_shared (sp r) (capture_latency r) (playback_latency r).

(** [jack_port_functions_t]: the built-in ones. *)
Inductive jack_port_functions_t := AudioFunctions | MidiFunctions | NullFunctions.

Definition has_mixdown_function (f : jack_port_functions_t) : bool :=
  match f with NullFunctions => false | _ => true end.

(** [jack_port_t].  [segment] stands for [client_segment_base], the place of
    the address of a segment; [jp_shared] is the index in the table. *)
Record jack_port_t := mk_jport {
  segment : Z;
  mix_buffer : option nat;
  type_info : Z;
  jp_shared : nat;
  tied : option nat;
  fptr : option jack_port_functions_t;
  jp_connections : list nat
}.

#[global] Instance jport_assignable : Assignable jack_port_t :=
  fun r => mk_jport (segment r) (mix_buffer r) (type_info r) (jp_shared r) (tied r) (fptr r) (jp_connections r).

(** Calls of the callbacks of the client. *)
Inductive call :=
| CallPortRegister (port_id : Z) (yn : bool)
| CallPortConnect (a b : Z) (yn : bool)
| CallClientRegister (name : string) (yn : bool)
| CallBufsize (nframes : Z)
| CallSrate (rate : Z)
| CallXrun
| CallGraphOrder
| CallFreewheel (starting : bool)
| CallSession (type : Z) (dir client_uuid : string)
| CallLatency (mode : jack_latency_callback_mode_t).

(** What a client sees: the shared memory of the server ([sh_*]) and its own
    [jack_client_t].  [brk] counts the allocations and gives the next pointer,
    [segments] has the addresses of the segments, [None] for MAP_FAILED,
    [graph_wait] and [graph_next] the numbers of the open FIFOs;
    [calls] records the calls of callbacks. *)
Record lib := mk_lib {
  sh_ports : list jack_port_shared_t;
  sh_types : list port_type;
  sh_buffer_size : Z;
  sh_frame_rate : Z;
  cl_id : Z;
  cl_uid : Z;
  cl_name : string;
  cl_cbset : callbacks;
  freewheel_cb_cbset : bool;
  latency_cbset : bool;
  cl_ports : list nat;
  ports_ext : list nat;
  jports : gmap nat jack_port_t;
  pool : gmap nat Z;
  brk : nat;
  segments : list (option Z);
  graph_wait : option Z;
  graph_next : option Z;
  upstream_is_jackd : Z;
  pollmax : Z;
  calls : list call
}.

#[global] Instance lib_assignable : Assignable lib :=
  fun r => mk_lib (sh_ports r) (sh_types r) (sh_buffer_size r) (sh_frame_rate r) (cl_id r) (cl_uid r) (cl_name r) (cl_cbset r)
    (freewheel_cb_cbset r) (latency_cbset r) (cl_ports r) (ports_ext r) (jports r) (pool r) (brk r) (segments r)
    (graph_wait r) (graph_next r) (upstream_is_jackd r) (pollmax r) (calls r).

Definition upd_jport (p : nat) (f : jack_port_t -> jack_port_t) (l : lib) : lib := l <| jports ::= alter f p |>.
Definition upd_shared (i : nat) (f : jack_port_shared_t -> jack_port_shared_t) (l : lib) : lib := l <| sh_ports ::= alter f i |>.

(** [port->shared]. *)
Definition shared_of (l : lib) (p : nat) : option jack_port_shared_t :=
  j ← jports l !! p; sh_ports l !! jp_shared j.

Section port.
(** Whether an allocation succeeds, by its number. *)
Context (mem : nat -> bool).

Definition jack_get_port_functions (ptid : Z) : option jack_port_functions_t :=
  if ptid =? 0 then Some AudioFunctions else if ptid =? 1 then Some MidiFunctions else None.

(** The result is [None] when there is no memory. *)
Definition jack_port_new (l : lib) (port_id : Z) : option (option nat * lib) :=
  s ← sh_ports l !! Z.to_nat port_id;
  let ptid := ptype_id (sp s) in
  let p := brk l in
  if negb (mem p) then Some (None, l <| brk ::= S |>)
  else
    let ours := cl_id l =? client_id (sp s) in
    let f := default NullFunctions (jack_get_port_functions ptid) in
    let l := if ours then upd_shared (Z.to_nat port_id) (fun s => s <| sp ::= fun x => x <| has_mixdown := has_mixdown_function f |> |>) l else l in
    let j := mk_jport ptid None ptid (Z.to_nat port_id) None (if ours then Some f else None) [] in
    Some (Some p, l <| jports ::= <[p := j]> |> <| brk ::= S |>).

(** The buffer of [bytes] bytes of a mix buffer; no memory is a crash in
    [buffer_init]. *)
Definition jack_pool_alloc (l : lib) (bytes : Z) : option (nat * lib) :=
  if mem (brk l) then Some (brk l, l <| pool ::= <[brk l := bytes]> |> <| brk ::= S |>) else None.

Definition jack_pool_release (l : lib) (b : nat) : option lib :=
  _ ← pool l !! b; Some (l <| pool ::= delete b |>).

Definition jack_port_type_get_buffer_size (l : lib) (port_type : string) : Z :=
  match list_find (fun t => type_name t = port_type) (sh_types l) with
  | Some (_, t) => jack_port_type_buffer_size t (sh_buffer_size l)
  | None => 0
  end.

(** The size of the buffers of a port. *)
Definition buffer_size_of (l : lib) (j : jack_port_t) : option Z :=
  t ← sh_types l !! Z.to_nat (type_info j); Some (jack_port_type_buffer_size t (sh_buffer_size l)).

(** ** Finding ports *)

(** The first port of a list with the id. *)
Fixpoint find_id (l : lib) (id : Z) (ps : list nat) : option (option nat) :=
  match ps with
  | [] => Some None
  | p :: ps =>
      s ← shared_of l p;
      if p_id (sp s) =? id then Some (Some p) else find_id l id ps
  end.

(** The port and whether it is to be freed. *)
Definition jack_port_by_id_int (l : lib) (id : Z) : option (option nat * bool * lib) :=
  r ← find_id l id (cl_ports l);
  match r with
  | Some p => Some (Some p, false, l)
  | None =>
      if id >=? zlen (sh_ports l) then Some (None, false, l)
      else
        s ← sh_ports l !! Z.to_nat id;
        if in_use (sp s) then '(p, l) ← jack_port_new l id; Some (p, true, l)
        else Some (None, false, l)
  end.

Definition cache (p : nat) (l : lib) : lib := l <| ports_ext ::= cons p |>.

Definition jack_port_by_id (l : lib) (id : Z) : option (option nat * lib) :=
  r ← find_id l id (ports_ext l);
  match r with
  | Some p => Some (Some p, l)
  | None =>
      '(p, need_free, l) ← jack_port_by_id_int l id;
      match p with
      | Some q => Some (p, if (need_free : bool) then cache q l else l)
      | None => Some (None, l)
      end
  end.

Definition jack_port_by_name_int (l : lib) (port_name : string) : option (option nat * lib) :=
  match list_find (fun s => (in_use (sp s) && jack_port_name_equals (sp s) port_name) = true) (sh_ports l) with
  | Some (_, s) => jack_port_new l (p_id (sp s))
  | None => Some (None, l)
  end.

Fixpoint find_name (l : lib) (name : string) (ps : list nat) : option (option nat) :=
  match ps with
  | [] => Some None
  | p :: ps =>
      s ← shared_of l p;
      if jack_port_name_equals (sp s) name then Some (Some p) else find_name l name ps
  end.

Definition jack_port_by_name (l : lib) (port_name : string) : option (option nat * lib) :=
  r ← find_name l port_name (ports_ext l);
  match r with
  | Some p => Some (Some p, l)
  | None =>
      '(p, l) ← jack_port_by_name_int l port_name;
      match p with
      | Some q => Some (p, cache q l)
      | None => Some (None, l)
      end
  end.

(** ** Connections *)

Definition jack_port_connected (l : lib) (p : nat) : option Z :=
  j ← jports l !! p; Some (zlen (jp_connections j)).

Definition jack_port_connected_to (l : lib) (p : nat) (portname : string) : option bool :=
  j ← jports l !! p;
  r ← find_name l portname (jp_connections j);
  Some (match r with Some _ => true | None => false end).

(** The names of the ports connected to [p]; [None] inside for NULL. *)
Definition jack_port_get_connections (l : lib) (p : nat) : option (option (list string)) :=
  j ← jports l !! p;
  match jp_connections j with
  | [] => Some None
  | cs => names ← mapM (fun q => s ← shared_of l q; Some (p_name (sp s))) cs; Some (Some names)
  end.

(** ** Buffers *)

(** A buffer: at an address of a segment, or a mix buffer with the addresses
    of the buffers the mixdown function has put into it, in the order in which it reads
    them. *)
Inductive buffer :=
| Null
| At (addr : Z)
| Mixed (b : nat) (sources : list Z).

(** [*port->client_segment_base]. *)
Definition segment_base (l : lib) (j : jack_port_t) : option (option Z) := segments l !! Z.to_nat (segment j).

Definition jack_output_port_buffer (l : lib) (p : nat) : option Z :=
  j ← jports l !! p;
  s ← sh_ports l !! jp_shared j;
  base ← segment_base l j;
  base ← base;
  Some (base + p_offset (sp s)).

(** The address [off] behind [*port->client_segment_base], NULL when the
    segment is not attached. *)
Definition in_segment (l : lib) (j : jack_port_t) (off : Z) : option buffer :=
  base ← segment_base l j;
  Some (match base with None => Null | Some b => At (b + off) end).

Fixpoint jack_port_get_buffer (fuel : nat) (l : lib) (p : nat) : option buffer :=
  match fuel with
  | O => None
  | S fuel =>
      j ← jports l !! p;
      s ← sh_ports l !! jp_shared j;
      if has_flag (flags (sp s)) JackPortIsOutput then
        match tied j with
        | Some q => jack_port_get_buffer fuel l q
        | None => in_segment l j (p_offset (sp s))
        end
      else
        match jp_connections j with
        | [] => t ← sh_types l !! Z.to_nat (type_info j); in_segment l j (zero_buffer_offset t)
        | [q] => jack_port_get_buffer fuel l q
        | cs =>
            match mix_buffer j with
            | None => Some Null
            | Some b =>
                f ← fptr j;
                if negb (has_mixdown_function f) then None
                else _ ← pool l !! b; sources ← mapM (jack_output_port_buffer l) cs; Some (Mixed b sources)
            end
        end
  end.

(** The mixdown function of audio ports.  [add] is the addition of two samples, a
    floating point operation of the machine; [samples] are those that lie at an address.  The mix
    buffer is a block of its own.  [None]: an access outside of a buffer. *)
Section mixdown.
Context {sample : Type} (add : sample -> sample -> sample) (samples : Z -> list sample).

(** [while (n--) *dst++ += *src++]. *)
Fixpoint mix_into (n : nat) (dst src : list sample) : option (list sample) :=
  match n, dst, src with
  | O, _, _ => Some dst
  | S n, d :: dst, s :: src => dst ← mix_into n dst src; Some (add d s :: dst)
  | _, _, _ => None
  end.

(** [memcpy] of [n] samples to the start of a buffer. *)
Definition copy_into (n : nat) (dst src : list sample) : option (list sample) :=
  if (n <=? length dst)%nat && (n <=? length src)%nat then Some (take n src ++ drop n dst) else None.

Definition jack_audio_port_mixdown (nframes : nat) (mix : list sample) (sources : list Z) : option (list sample) :=
  match sources with
  | [] => None
  | x :: sources => mix ← copy_into nframes mix (samples x); foldl (fun mix x => mix ← mix; mix_into nframes mix (samples x)) (Some mix) sources
  end.
End mixdown.

(** [dst] is looked at, [src] is tied to it. *)
Definition jack_port_tie (l : lib) (src dst : nat) : option (Z * lib) :=
  d ← shared_of l dst;
  s ← shared_of l src;
  if negb (client_id (sp d) =? client_id (sp s)) then Some (-1, l)
  else if has_flag (flags (sp d)) JackPortIsOutput then Some (-1, l)
  else Some (0, upd_jport dst (fun j => j <| tied := Some src |>) l).

Definition jack_port_untie (l : lib) (p : nat) : option (Z * lib) :=
  j ← jports l !! p;
  match tied j with
  | None => Some (-1, l)
  | Some _ => Some (0, upd_jport p (fun j => j <| tied := None |>) l)
  end.

(** ** Monitoring *)

(** [monitor_requests] is a [uint8_t]. *)
Definition request_one (onoff : bool) (s : jack_port_shared_t) : jack_port_shared_t :=
  s <| sp ::= fun x =>
    if onoff then x <| monitor_requests ::= fun n => u8 (n + 1) |>
    else if negb (monitor_requests x =? 0) then x <| monitor_requests ::= fun n => u8 (n - 1) |>
    else x |>.

Fixpoint jack_port_request_monitor (fuel : nat) (onoff : bool) (l : lib) (p : nat) : option lib :=
  match fuel with
  | O => None
  | S fuel =>
      j ← jports l !! p;
      s ← sh_ports l !! jp_shared j;
      let l := upd_shared (jp_shared j) (request_one onoff) l in
      if has_flag (flags (sp s)) JackPortIsOutput then Some l
      else foldl (fun l q => l ← l; jack_port_request_monitor fuel onoff l q) (Some l) (jp_connections j)
  end.

Definition jack_port_request_monitor_by_name (fuel : nat) (l : lib) (port_name : string) (onoff : bool) : option (Z * lib) :=
  match list_find (fun s => in_use (sp s) = true /\ p_name (sp s) = port_name) (sh_ports l) with
  | Some (_, s) =>
      '(p, l) ← jack_port_new l (p_id (sp s));
      p ← p;
      l ← jack_port_request_monitor fuel onoff l p;
      Some (0, l)
  | None => Some (-1, l)
  end.

Definition jack_port_ensure_monitor (l : lib) (p : nat) (yn : bool) : option lib :=
  j ← jports l !! p;
  Some (upd_shared (jp_shared j) (fun s => s <| sp ::= fun x =>
    if yn then (if monitor_requests x =? 0 then x <| monitor_requests := 1 |> else x)
    else (if monitor_requests x >? 0 then x <| monitor_requests := 0 |> else x) |>) l).

Definition jack_port_monitoring_input (l : lib) (p : nat) : option bool :=
  s ← shared_of l p; Some (monitor_requests (sp s) >? 0).

(** ** Names *)

Definition name_size : Z := JACK_CLIENT_NAME_SIZE + 256.

(** [snprintf (buf, n, "%s", s)]. *)
Definition snprintf (n : Z) (s : string) : string := String.substring 0 (Z.to_nat (n - 1)) s.

Definition jack_port_name (l : lib) (p : nat) : option string := s ← shared_of l p; Some (p_name (sp s)).

(** The number of aliases and what is written to the two buffers. *)
Definition jack_port_get_aliases (l : lib) (p : nat) : option (Z * option string * option string) :=
  s ← shared_of l p;
  let a := if bool_decide (alias1 (sp s) = "") then None else Some (snprintf name_size (alias1 (sp s))) in
  let b := if bool_decide (alias2 (sp s) = "") then None else Some (snprintf name_size (alias2 (sp s))) in
  Some ((if a is Some _ then 1 else 0) + (if b is Some _ then 1 else 0), a, b).

Definition jack_port_short_name (l : lib) (p : nat) : option string :=
  s ← shared_of l p; '(_, b) ← split_colon (p_name (sp s)); Some b.

Definition jack_port_is_mine (l : lib) (p : nat) : option bool := s ← shared_of l p; Some (client_id (sp s) =? cl_id l).

Definition jack_port_flags (l : lib) (p : nat) : option Z := s ← shared_of l p; Some (flags (sp s)).

Definition jack_port_type (l : lib) (p : nat) : option string :=
  j ← jports l !! p; t ← sh_types l !! Z.to_nat (type_info j); Some (type_name t).

Definition jack_port_set_name (l : lib) (p : nat) (new_name : string) : option (Z * lib) :=
  j ← jports l !! p;
  s ← sh_ports l !! jp_shared j;
  '(a, _) ← split_colon (p_name (sp s));
  let len := name_size - Z.of_nat (String.length a) - 2 in
  Some (0, upd_shared (jp_shared j) (fun s => s <| sp ::= fun x => x <| p_name := a +:+ ":" +:+ snprintf len new_name |> |>) l).

Definition jack_port_set_alias (l : lib) (p : nat) (alias : string) : option (Z * lib) :=
  j ← jports l !! p;
  s ← sh_ports l !! jp_shared j;
  let a := snprintf name_size alias in
  if bool_decide (alias1 (sp s) = "") then Some (0, upd_shared (jp_shared j) (fun s => s <| sp ::= fun x => x <| alias1 := a |> |>) l)
  else if bool_decide (alias2 (sp s) = "") then Some (0, upd_shared (jp_shared j) (fun s => s <| sp ::= fun x => x <| alias2 := a |> |>) l)
  else Some (-1, l).

Definition jack_port_unset_alias (l : lib) (p : nat) (alias : string) : option (Z * lib) :=
  j ← jports l !! p;
  s ← sh_ports l !! jp_shared j;
  if bool_decide (alias1 (sp s) = alias) then Some (0, upd_shared (jp_shared j) (fun s => s <| sp ::= fun x => x <| alias1 := "" |> |>) l)
  else if bool_decide (alias2 (sp s) = alias) then Some (0, upd_shared (jp_shared j) (fun s => s <| sp ::= fun x => x <| alias2 := "" |> |>) l)
  else Some (-1, l).

(** ** Latencies *)

Definition jack_port_get_latency (l : lib) (p : nat) : option Z := s ← shared_of l p; Some (latency (sp s)).
Definition jack_port_get_total_latency (l : lib) (p : nat) : option Z := s ← shared_of l p; Some (total_latency (sp s)).

Definition jack_port_set_latency (l : lib) (p : nat) (nframes : Z) : option lib :=
  j ← jports l !! p;
  Some (upd_shared (jp_shared j) (fun s =>
    let r := mk_range nframes nframes in
    let s := s <| sp ::= fun x => x <| latency := nframes |> |> in
    let s := if has_flag (flags (sp s)) JackPortIsOutput then s <| capture_latency := r |> else s in
    if has_flag (flags (sp s)) JackPortIsInput then s <| playback_latency := r |> else s) l).

Definition get_range (mode : jack_latency_callback_mode_t) (s : jack_port_shared_t) : jack_latency_range_t :=
  match mode with JackCaptureLatency => capture_latency s | JackPlaybackLatency => playback_latency s end.

Definition jack_port_get_latency_range (l : lib) (p : nat) (mode : jack_latency_callback_mode_t) : option jack_latency_range_t :=
  s ← shared_of l p; Some (get_range mode s).

Definition set_range (mode : jack_latency_callback_mode_t) (r : jack_latency_range_t) (s : jack_port_shared_t) : jack_port_shared_t :=
  let mean := u32 (lr_min r + lr_max r) / 2 in
  match mode with
  | JackCaptureLatency =>
      let s := s <| capture_latency := r |> in
      if has_flag (flags (sp s)) JackPortIsOutput && has_flag (flags (sp s)) JackPortIsPhysical
      then s <| sp ::= fun x => x <| latency := mean |> |> else s
  | JackPlaybackLatency =>
      let s := s <| playback_latency := r |> in
      if has_flag (flags (sp s)) JackPortIsInput && has_flag (flags (sp s)) JackPortIsPhysical
      then s <| sp ::= fun x => x <| latency := mean |> |> else s
  end.

Definition jack_port_set_latency_range (l : lib) (p : nat) (mode : jack_latency_callback_mode_t) (r : jack_latency_range_t) : option lib :=
  j ← jports l !! p; Some (upd_shared (jp_shared j) (set_range mode r) l).

End port.
End ClientPort.
