(* ===== verification/ClientEvents.v ===== *)
(** * The events a client receives (libjack/client.c)

    What the library does in the process of a client with the events of the
    server (Engine.v, [jack_event]): it keeps its own lists of the connections
    of its ports, mix buffers, the attached segments, the FIFOs of the execution
    chain and the latencies of its ports, and calls the callbacks. *)

From stdpp Require Import pretty.
From S2P Require Import Prelude JSList Engine Graph Ports ClientPorts.

Local Open Scope Z_scope.

Module ClientEvent.
Import JSList Ports ClientPort.

Abbreviation s8 := (swrap 8).

(** What the system and the callbacks of the client answer to one event:
    whether the FIFOs can be opened, the address at which a segment is
    attached, what the callbacks return, whether the session callback has
    replied at once, the directory of a session. *)
Record event_world := mk_ew {
  ew_open_wait : bool;
  ew_open_next : bool;
  ew_attach : option Z;
  ew_bufsize : Z;
  ew_srate : Z;
  ew_xrun : Z;
  ew_immediate_reply : bool;
  ew_session_dir : string
}.

Section event.
Context (mem : nat -> bool) (ew : event_world).

Definition add_call (c : call) (l : lib) : lib := l <| calls ::= fun cs => cs ++ [c] |>.

(** ** Connections *)

(** A mix buffer for port [p]: allocated and initialised. *)
Definition new_mix_buffer (l : lib) (p : nat) : option lib :=
  j ← jports l !! p;
  size ← buffer_size_of l j;
  _ ← fptr j;
  '(b, l) ← jack_pool_alloc mem l size;
  Some (upd_jport p (fun j => j <| mix_buffer := Some b |>) l).

Definition fix_port_buffer (l : lib) (p : nat) : option lib :=
  j ← jports l !! p;
  s ← sh_ports l !! jp_shared j;
  if has_flag (flags (sp s)) JackPortIsInput then
    match mix_buffer j with
    | None => Some l
    | Some b =>
        l ← jack_pool_release l b;
        let l := upd_jport p (fun j => j <| mix_buffer := None |>) l in
        if zlen (jp_connections j) >? 1 then new_mix_buffer l p else Some l
    end
  else Some l.

Definition jack_client_fix_port_buffers (l : lib) : option lib :=
  foldl (fun l p => l ← l; fix_port_buffer l p) (Some l) (cl_ports l).

Definition prepend_connection (q : nat) (j : jack_port_t) : jack_port_t := j <| jp_connections ::= cons q |>.

(** [PortConnected].  When there is no memory for [other], a null pointer is
    put into the list, which its next user reads. *)
Definition port_connected (self_id other_id : Z) (l : lib) : option lib :=
  '(other, l) ← jack_port_new mem l other_id;
  other ← other;
  '(control_port, _, l) ← jack_port_by_id_int mem l self_id;
  control_port ← control_port;
  j ← jports l !! control_port;
  s ← sh_ports l !! jp_shared j;
  l ← (if has_flag (flags (sp s)) JackPortIsInput && negb (bool_decide (jp_connections j = [])) && bool_decide (mix_buffer j = None)
       then new_mix_buffer l control_port else Some l);
  Some (upd_jport control_port (prepend_connection other) l).

Definition free_port (p : nat) (l : lib) : lib := l <| jports ::= delete p |>.

(** [PortDisconnected]. *)
Definition port_disconnected (self_id other_id : Z) (l : lib) : option lib :=
  '(control_port, _, l) ← jack_port_by_id_int mem l self_id;
  control_port ← control_port;
  j ← jports l !! control_port;
  r ← find_id l other_id (jp_connections j);
  match r with
  | None => Some l
  | Some other =>
      Some (free_port other (upd_jport control_port (fun j => j <| jp_connections ::= slist_remove other |>) l))
  end.

(** Whether the port belongs to the client. *)
Definition port_owned (l : lib) (id : Z) : option bool :=
  s ← sh_ports l !! Z.to_nat id; Some (client_id (sp s) =? cl_id l).

Definition jack_client_handle_port_connection (self_id other_id : Z) (connected : bool) (l : lib) : option lib :=
  a ← port_owned l self_id;
  b ← port_owned l other_id;
  l ← (if a || b then
         if connected then port_connected self_id other_id l else port_disconnected self_id other_id l
       else Some l);
  Some (if port_connect_cbset (cl_cbset l) then add_call (CallPortConnect self_id other_id connected) l else l).

(** ** Latencies *)

(** [latency] joined with the range of one more port. *)
Definition join_range (r o : jack_latency_range_t) : jack_latency_range_t :=
  mk_range (if lr_min o <? lr_min r then lr_min o else lr_min r) (if lr_max o >? lr_max r then lr_max o else lr_max r).

Definition no_range : jack_latency_range_t := mk_range UINT32_MAX 0.

(** [if (latency.min == UINT32_MAX) latency.min = 0;] *)
Definition close_range (r : jack_latency_range_t) : jack_latency_range_t :=
  if lr_min r =? UINT32_MAX then mk_range 0 (lr_max r) else r.

(** The ranges of the ports of a list, joined. *)
Definition join_ports (l : lib) (mode : jack_latency_callback_mode_t) (ps : list nat) : option jack_latency_range_t :=
  foldl (fun r p => r ← r; o ← jack_port_get_latency_range l p mode; Some (join_range r o)) (Some no_range) ps.

Definition jack_port_recalculate_latency (mode : jack_latency_callback_mode_t) (l : lib) (p : nat) : option lib :=
  j ← jports l !! p;
  r ← join_ports l mode (jp_connections j);
  jack_port_set_latency_range l p mode (close_range r).

(** The flag of the ports that take their latency from their connections. *)
Definition far_side (mode : jack_latency_callback_mode_t) : Z :=
  match mode with JackCaptureLatency => JackPortIsInput | JackPlaybackLatency => JackPortIsOutput end.
Definition near_side (mode : jack_latency_callback_mode_t) : Z :=
  match mode with JackCaptureLatency => JackPortIsOutput | JackPlaybackLatency => JackPortIsInput end.

Definition port_has_flag (l : lib) (bit : Z) (p : nat) : option bool :=
  f ← jack_port_flags l p; Some (has_flag f bit).

Definition recalculate_all (mode : jack_latency_callback_mode_t) (l : lib) : option lib :=
  foldl (fun l p => l ← l; b ← port_has_flag l (far_side mode) p;
    if (b : bool) then jack_port_recalculate_latency mode l p else Some l) (Some l) (cl_ports l).

(** The loop that joins the ranges of all ports with the flag. *)
Definition join_flagged (l : lib) (mode : jack_latency_callback_mode_t) (bit : Z) : option jack_latency_range_t :=
  foldl (fun r p => r ← r; b ← port_has_flag l bit p;
    if (b : bool) then o ← jack_port_get_latency_range l p mode; Some (join_range r o) else Some r) (Some no_range) (cl_ports l).

Definition set_flagged (mode : jack_latency_callback_mode_t) (bit : Z) (r : jack_latency_range_t) (l : lib) : option lib :=
  foldl (fun l p => l ← l; b ← port_has_flag l bit p;
    if (b : bool) then jack_port_set_latency_range l p mode r else Some l) (Some l) (cl_ports l).

Definition jack_client_handle_latency_callback (n : Z) (is_driver : bool) (l : lib) : option lib :=
  let mode := if n =? 0 then JackCaptureLatency else JackPlaybackLatency in
  l ← recalculate_all mode l;
  if is_driver then Some l
  else if negb (latency_cbset l) then
    r ← join_flagged l mode (far_side mode);
    set_flagged mode (near_side mode) (close_range r) l
  else Some (add_call (CallLatency mode) l).

(** ** The other events *)

Definition jack_handle_reorder (n upstream : Z) (l : lib) : Z * lib :=
  let l := l <| graph_wait := None |> <| graph_next := None |> in
  if negb (ew_open_wait ew) then (-1, l)
  else
    let l := l <| graph_wait := Some n |> in
    if negb (ew_open_next ew) then (-1, l)
    else
      let l := l <| graph_next := Some (u32 (n + 1)) |> <| upstream_is_jackd := upstream |> <| pollmax := 2 |> in
      (0, if graph_order_cbset (cl_cbset l) then add_call CallGraphOrder l else l).

Definition jack_client_handle_session_callback (type : Z) (l : lib) : Z * lib :=
  if negb (session_cbset (cl_cbset l)) then (-1, l)
  else (if ew_immediate_reply ew then 2 else 1, add_call (CallSession type (ew_session_dir ew) (pretty (cl_uid l))) l).

(** The segment is released and attached again; a new port type gets a place
    in the array, and so do the ones before it. *)
Definition jack_attach_port_segment (ptid : Z) (l : lib) : lib :=
  let segs := if ptid >=? zlen (segments l) then segments l ++ replicate (Z.to_nat ptid + 1 - length (segments l)) (Some 0) else segments l in
  l <| segments := <[Z.to_nat ptid := ew_attach ew]> segs |>.

Definition jack_start_freewheel (l : lib) : lib := if freewheel_cb_cbset l then add_call (CallFreewheel true) l else l.
Definition jack_stop_freewheel (l : lib) : lib := if freewheel_cb_cbset l then add_call (CallFreewheel false) l else l.

(** The port types of the cached ports with the id are read again. *)
Definition update_type (id : Z) (l : lib) (p : nat) : option lib :=
  j ← jports l !! p;
  s ← sh_ports l !! jp_shared j;
  Some (if p_id (sp s) =? id then upd_jport p (fun j => j <| type_info := ptype_id (sp s) |>) l else l).

Definition call_if (b : bool) (c : call) (l : lib) : lib := if b then add_call c l else l.

(** The event and the status that goes back. *)
Definition handle_event (ev : jack_event) (l : lib) : option (Z * lib) :=
  let cb := cl_cbset l in
  match ev with
  | PortRegistered id =>
      l ← foldl (fun l p => l ← l; update_type id l p) (Some l) (ports_ext l);
      Some (0, call_if (port_register_cbset cb) (CallPortRegister id true) l)
  | PortUnregistered id => Some (0, call_if (port_register_cbset cb) (CallPortRegister id false) l)
  | ClientRegistered name => Some (0, call_if (client_register_cbset cb) (CallClientRegister name true) l)
  | ClientUnregistered name => Some (0, call_if (client_register_cbset cb) (CallClientRegister name false) l)
  | GraphReordered n up => Some (jack_handle_reorder n up l)
  | PortConnected a b => l ← jack_client_handle_port_connection a b true l; Some (0, l)
  | PortDisconnected a b => l ← jack_client_handle_port_connection a b false l; Some (0, l)
  | BufferSizeChange =>
      l ← jack_client_fix_port_buffers l;
      Some (if bufsize_cbset cb then (s8 (ew_bufsize ew), add_call (CallBufsize (sh_buffer_size l)) l) else (0, l))
  | SampleRateChange => Some (if srate_cbset cb then (s8 (ew_srate ew), add_call (CallSrate (sh_frame_rate l)) l) else (0, l))
  | XRun => Some (if xrun_cbset cb then (s8 (ew_xrun ew), add_call CallXrun l) else (0, l))
  | AttachPortSegment ptid => Some (0, jack_attach_port_segment ptid l)
  | StartFreewheel => Some (0, jack_start_freewheel l)
  | StopFreewheel => Some (0, jack_stop_freewheel l)
  | SaveSession n => Some (jack_client_handle_session_callback n l)
  | LatencyCallback n => l ← jack_client_handle_latency_callback n false l; Some (0, l)
  end.

(** [pollin]: there is an event to read; [ev]: what was read, [None] when the
    read fails.  The result is that of the function and the status that was
    written, if it was. *)
Definition jack_client_process_events (pollin : bool) (ev : option jack_event) (write_ok : bool) (l : lib)
    : option (Z * option Z * lib) :=
  if pollin then
    match ev with
    | None => Some (-1, None, l)
    | Some ev =>
        '(status, l) ← handle_event ev l;
        Some (if write_ok then (0, Some status, l) else (-1, None, l))
    end
  else Some (0, None, l).

End event.
End ClientEvent.
