(* ===== verification/ClientMirror.v ===== *)
(** * What a client knows of its connections

    The lists of connections a client keeps for its ports follow the events of
    the server, its mix buffers are there when they are needed, and the buffers
    it works on are those of the ports it is connected to. *)

From S2P Require Import Prelude JSList Engine Graph Ports ClientPorts ClientEvents.

Local Open Scope Z_scope.

Module ClientMirror.
Import JSList Ports ClientPort ClientEvent.

(** ** The invariant of the library *)

(** The id of the port a structure is for. *)
Definition jid (l : lib) (p : nat) : option Z := (fun j => Z.of_nat (jp_shared j)) <$> jports l !! p.

(** The structure of the client for its port [a]: the latest one. *)
Definition mine (l : lib) (a : Z) : option nat := head (filter (fun p => jid l p = Some a) (cl_ports l)).

Definition own (l : lib) (p : nat) (j : jack_port_t) : Prop := p ∈ cl_ports l /\ jports l !! p = Some j.

Definition in_range (l : lib) (j : jack_port_t) : Prop :=
  (jp_shared j < length (sh_ports l))%nat /\ (Z.to_nat (type_info j) < length (sh_types l))%nat /\
  (Z.to_nat (segment j) < length (segments l))%nat.

(** The table of ports: entries know their place and are of a built-in type. *)
Definition table_ok (ports : list jack_port_shared_t) : Prop :=
  forall i s, ports !! i = Some s -> p_id (sp s) = Z.of_nat i /\ 0 <= ptype_id (sp s) < 2.

(** Allocations succeed. *)
Abbreviation mem_ok := (fun _ : nat => true).

Section client.
Context (me : Z).

(** The client has the id [me]; [v] gives the ports each port of the client is
    connected to, the latest connection first. *)
Record mirror (v : Z -> list Z) (l : lib) : Prop := {
  m_table : table_ok (sh_ports l);
  m_types : length (sh_types l) = 2%nat;
  m_segs : length (segments l) = 2%nat;
  m_range : forall p j, jports l !! p = Some j -> in_range l j;
  m_fresh : forall p, (brk l <= p)%nat -> jports l !! p = None /\ pool l !! p = None;
  m_ports : forall p, p ∈ cl_ports l ++ ports_ext l -> is_Some (jports l !! p);
  m_fptr : forall p j, own l p j -> exists f, fptr j = Some f /\ has_mixdown_function f = true;
  m_conns : forall p j q, own l p j -> q ∈ jp_connections j ->
    (q ∉ cl_ports l ++ ports_ext l) /\ exists k, jports l !! q = Some k /\ jp_connections k = [] /\ tied k = None;
  m_sep : forall p p' j j' q, own l p j -> own l p' j' -> q ∈ jp_connections j -> q ∈ jp_connections j' -> p = p';
  m_once : forall p j, own l p j -> NoDup (jp_connections j);
  m_mix : forall p j b, own l p j -> mix_buffer j = Some b -> is_Some (pool l !! b);
  m_mix_sep : forall p p' j j' b, own l p j -> own l p' j' -> mix_buffer j = Some b -> mix_buffer j' = Some b -> p = p';
  m_view : forall a p j, mine l a = Some p -> jports l !! p = Some j -> jid l <$> jp_connections j = Some <$> v a;
  m_mixed : forall a p j s, mine l a = Some p -> jports l !! p = Some j -> sh_ports l !! jp_shared j = Some s ->
    has_flag (flags (sp s)) JackPortIsInput = true -> (2 <= length (jp_connections j))%nat -> is_Some (mix_buffer j);
  m_id : cl_id l = me;
  m_seg : forall a p j q k s, mine l a = Some p -> jports l !! p = Some j -> q ∈ jp_connections j -> jports l !! q = Some k ->
    sh_ports l !! jp_shared k = Some s -> segment k = ptype_id (sp s);
  m_own : forall a p j s, mine l a = Some p -> jports l !! p = Some j -> sh_ports l !! jp_shared j = Some s -> client_id (sp s) = me ->
    segment j = ptype_id (sp s) /\ type_info j = ptype_id (sp s)
}.

(** ** Looking up structures *)

Lemma mine_Some l a p : mine l a = Some p -> p ∈ cl_ports l /\ jid l p = Some a.
Proof. unfold mine. intros H%head_Some_elem_of. apply list_elem_of_filter in H. by destruct H. Qed.

Lemma find_id_spec l id ps :
  table_ok (sh_ports l) -> (forall p j, jports l !! p = Some j -> (jp_shared j < length (sh_ports l))%nat) ->
  (forall p, p ∈ ps -> is_Some (jports l !! p)) ->
  find_id l id ps = Some (head (filter (fun p => jid l p = Some id) ps)).
Proof.
  intros T R. induction ps as [|p ps IH]; intros Hps; [done|]. cbn [find_id].
  destruct (Hps p ltac:(left)) as [j Ej]. destruct (lookup_lt_is_Some_2 (sh_ports l) (jp_shared j) (R p j Ej)) as [s Es].
  unfold shared_of. rewrite Ej. cbn [mbind option_bind]. rewrite Es. cbn [mbind option_bind].
  destruct (T _ _ Es) as [-> _]. assert (Ei : jid l p = Some (Z.of_nat (jp_shared j))) by (unfold jid; by rewrite Ej).
  destruct (Z.eqb_spec (Z.of_nat (jp_shared j)) id) as [<-|Hne].
  - by rewrite filter_cons_True.
  - rewrite filter_cons_False by congruence. apply IH. intros q Hq. apply Hps. by right.
Qed.

Section mirror.
Context (v : Z -> list Z) (l : lib) (M : mirror v l).

Lemma shared_bound p j : jports l !! p = Some j -> (jp_shared j < length (sh_ports l))%nat.
Proof. intros E. apply (m_range _ _ M p j E). Qed.

Lemma own_find a p : mine l a = Some p -> jack_port_by_id_int (fun _ => true) l a = Some (Some p, false, l).
Proof.
  intros Hp. unfold jack_port_by_id_int. rewrite find_id_spec; [|apply (m_table _ _ M)|apply shared_bound|].
  - unfold mine in Hp. rewrite Hp. done.
  - intros q Hq. apply (m_ports _ _ M). set_solver.
Qed.

Lemma mine_own a p : mine l a = Some p -> exists j s, own l p j /\ jports l !! p = Some j /\ sh_ports l !! jp_shared j = Some s /\ Z.of_nat (jp_shared j) = a.
Proof.
  intros H. destruct (mine_Some _ _ _ H) as [Hin Hid]. unfold jid in Hid. apply fmap_Some in Hid as (j & Ej & ->).
  destruct (lookup_lt_is_Some_2 (sh_ports l) (jp_shared j) (shared_bound p j Ej)) as [s Es]. by exists j, s.
Qed.

Lemma own_size p j : own l p j -> is_Some (buffer_size_of l j).
Proof.
  intros [_ Ej]. destruct (m_range _ _ M p j Ej) as (_ & Ht & _). apply lookup_lt_is_Some_2 in Ht as [t Et].
  unfold buffer_size_of. rewrite Et. by eexists.
Qed.

End mirror.

(** ** A connection is made *)

(** The tables are equal up to what the library itself writes. *)
Definition table_like (s s' : jack_port_shared_t) : Prop :=
  p_id (sp s') = p_id (sp s) /\ ptype_id (sp s') = ptype_id (sp s) /\ flags (sp s') = flags (sp s) /\
  client_id (sp s') = client_id (sp s).

Lemma table_like_ok t t' : Forall2 table_like t t' -> table_ok t -> table_ok t'.
Proof.
  intros F T i s' Es'. destruct (Forall2_lookup_r _ _ _ _ _ F Es') as (s & Es & E1 & E2 & _).
  rewrite E1, E2. by apply T.
Qed.

Lemma like_refl t : Forall2 table_like t t.
Proof. induction t; by constructor. Qed.

Lemma like_alter (f : jack_port_shared_t -> jack_port_shared_t) i t :
  (forall s, table_like s (f s)) -> Forall2 table_like t (alter f i t).
Proof.
  intros Hf. revert i. induction t as [|s t IH]; intros [|i]; cbn; constructor; try done. apply like_refl.
Qed.

(** What stays. *)
Record same_client (l l' : lib) : Prop := {
  sc_table : Forall2 table_like (sh_ports l) (sh_ports l');
  sc_types : sh_types l' = sh_types l;
  sc_segs : segments l' = segments l;
  sc_ports : cl_ports l' = cl_ports l;
  sc_ext : ports_ext l' = ports_ext l;
  sc_id : cl_id l' = cl_id l
}.

#[global] Instance same_client_preorder : PreOrder same_client.
Proof.
  split; [intros l; constructor; try done; apply like_refl|]. intros a b c [A1 A2 A3 A4 A5 A6] [B1 B2 B3 B4 B5 B6].
  constructor; [|congruence..]. clear -A1 B1. revert B1. generalize (sh_ports c). induction A1 as [|x y t t' (H1 & H2 & H3 & H4) _ IH]; intros u B.
  - by inversion B.
  - inversion B as [|? ? ? ? (K1 & K2 & K3 & K4) ?]; subst. constructor; [|by apply IH]. unfold table_like. split_and!; congruence.
Qed.

Lemma same_in_range l l' j : same_client l l' -> in_range l j -> in_range l' j.
Proof.
  intros [S1 S2 S3 _ _ _]. unfold in_range. by rewrite S2, S3, <- (Forall2_length _ _ _ S1).
Qed.

(** What [port_connected] leaves behind. *)
Record after_connect (a b : Z) (p : nat) (j : jack_port_t) (l l' : lib) : Prop := {
  ac_same : same_client l l';
  ac_new : exists k j', jports l' = <[p := j']> (<[brk l := k]> (jports l)) /\
    jp_connections k = [] /\ tied k = None /\ jp_shared k = Z.to_nat b /\ in_range l k /\
    (forall s, sh_ports l !! jp_shared k = Some s -> segment k = ptype_id (sp s)) /\
    jp_connections j' = brk l :: jp_connections j /\ jp_shared j' = jp_shared j /\ type_info j' = type_info j /\
    segment j' = segment j /\ fptr j' = fptr j /\
    (mix_buffer j' = mix_buffer j /\ pool l' = pool l /\ brk l' = S (brk l) \/
     exists size, mix_buffer j' = Some (S (brk l)) /\ pool l' = <[S (brk l) := size]> (pool l) /\ brk l' = S (S (brk l))) /\
    (forall s, sh_ports l !! jp_shared j = Some s -> has_flag (flags (sp s)) JackPortIsInput = true ->
       jp_connections j <> [] -> is_Some (mix_buffer j'))
}.

Lemma port_new_after v l b :
  mirror v l -> 0 <= b < zlen (sh_ports l) ->
  exists k l', jack_port_new mem_ok l b = Some (Some (brk l), l') /\ same_client l l' /\
    jports l' = <[brk l := k]> (jports l) /\ pool l' = pool l /\ brk l' = S (brk l) /\
    jp_connections k = [] /\ tied k = None /\ jp_shared k = Z.to_nat b /\ in_range l k /\
    (forall s, sh_ports l !! jp_shared k = Some s -> segment k = ptype_id (sp s)).
Proof.
  intros M Hb. destruct (lookup_lt_is_Some_2 (sh_ports l) (Z.to_nat b) ltac:(lia)) as [s Es].
  unfold jack_port_new. rewrite Es. cbn [mbind option_bind negb]. destruct (m_table _ _ M _ _ Es) as [_ Ht].
  destruct (_ =? _); eexists _, _; (split; [reflexivity|]); split_and!; try done; try (constructor; try done).
  - by apply like_alter.
  - cbn. lia.
  - cbn. rewrite (m_types _ _ M), (m_segs _ _ M). lia.
  - cbn. congruence.
  - apply like_refl.
  - cbn. lia.
  - cbn. rewrite (m_types _ _ M), (m_segs _ _ M). lia.
  - cbn. congruence.
Qed.

Lemma mine_same l l' a :
  cl_ports l' = cl_ports l -> (forall q, q ∈ cl_ports l -> jid l' q = jid l q) -> mine l' a = mine l a.
Proof.
  intros E H. unfold mine. rewrite E. f_equal. clear E. induction (cl_ports l) as [|q ps IH]; [done|].
  rewrite !filter_cons, IH by (intros; apply H; by right). specialize (H q ltac:(left)).
  destruct (decide (jid l' q = Some a)), (decide (jid l q = Some a)); congruence.
Qed.

Lemma by_id_mine l a p :
  table_ok (sh_ports l) -> (forall q j, jports l !! q = Some j -> (jp_shared j < length (sh_ports l))%nat) ->
  (forall q, q ∈ cl_ports l -> is_Some (jports l !! q)) -> mine l a = Some p ->
  jack_port_by_id_int mem_ok l a = Some (Some p, false, l).
Proof. intros T R V H. unfold jack_port_by_id_int. rewrite find_id_spec by done. unfold mine in H. by rewrite H. Qed.

Lemma new_mix_eq l p j size f :
  jports l !! p = Some j -> buffer_size_of l j = Some size -> fptr j = Some f ->
  new_mix_buffer mem_ok l p =
    Some (upd_jport p (fun j => j <| mix_buffer := Some (brk l) |>) (l <| pool ::= <[brk l := size]> |> <| brk ::= S |>)).
Proof. intros E1 E2 E3. unfold new_mix_buffer. rewrite E1. cbn [mbind option_bind]. rewrite E2. cbn [mbind option_bind]. by rewrite E3. Qed.

Lemma alter_at {A} (f : A -> A) (p : nat) (m : gmap nat A) x : m !! p = Some x -> alter f p m = <[p := f x]> m.
Proof.
  intros E. apply map_eq. intros q. destruct (decide (p = q)) as [<-|].
  - by rewrite lookup_alter_eq, lookup_insert_eq, E.
  - by rewrite lookup_alter_ne, lookup_insert_ne.
Qed.

Lemma port_connected_after v l a b p j :
  mirror v l -> mine l a = Some p -> own l p j -> 0 <= b < zlen (sh_ports l) ->
  exists l', port_connected mem_ok a b l = Some l' /\ after_connect a b p j l l'.
Proof.
  intros M Hp Ho Hb. destruct (port_new_after v l b M Hb) as (k & l2 & E & S2 & Ej2 & Ep2 & Eb2 & K1 & K2 & K3 & K4 & K5).
  unfold port_connected. rewrite E. cbn [mbind option_bind]. destruct Ho as [Hin Ej]. set (o := brk l) in *.
  assert (Hfr : forall q, is_Some (jports l !! q) -> q <> o) by (intros q [x Hx] ->; destruct (m_fresh _ _ M o) as [? _]; [done|congruence]).
  assert (Hold : forall q, is_Some (jports l !! q) -> jports l2 !! q = jports l !! q)
    by (intros q Hq; rewrite Ej2, lookup_insert_ne; [done|by apply not_eq_sym, Hfr]).
  assert (Hval : forall q, q ∈ cl_ports l -> is_Some (jports l !! q)) by (intros q Hq; apply (m_ports _ _ M); set_solver).
  rewrite (by_id_mine l2 a p).
  2:{ eapply table_like_ok; [apply S2|apply M]. }
  2:{ intros q x Hx. rewrite <- (Forall2_length _ _ _ (sc_table _ _ S2)). rewrite Ej2 in Hx.
      apply lookup_insert_Some in Hx as [[_ <-]|[_ Hx]]; [apply K4|by apply (shared_bound v l M q)]. }
  2:{ rewrite (sc_ports _ _ S2). intros q Hq. rewrite Hold by auto. auto. }
  2:{ rewrite (mine_same l l2); [done|apply S2|]. intros q Hq. unfold jid. by rewrite Hold by auto. }
  cbn [mbind option_bind]. assert (Ej' : jports l2 !! p = Some j) by (by rewrite Hold). rewrite Ej'. cbn [mbind option_bind].
  destruct (lookup_lt_is_Some_2 (sh_ports l) (jp_shared j) (shared_bound v l M p j Ej)) as [s Es].
  destruct (Forall2_lookup_l _ _ _ _ _ (sc_table _ _ S2) Es) as (s2 & Es2 & _ & _ & Ef2 & _). rewrite Es2. cbn [mbind option_bind]. rewrite Ef2.
  destruct (has_flag (flags (sp s)) JackPortIsInput && negb (bool_decide (jp_connections j = [])) && bool_decide (mix_buffer j = None)) eqn:Ec.
  - destruct (own_size v l M p j (conj Hin Ej)) as [size Esz]. destruct (m_fptr _ _ M p j (conj Hin Ej)) as (f & Ef & _).
    assert (Esz2 : exists n, buffer_size_of l2 j = Some n).
    { unfold buffer_size_of in *. rewrite (sc_types _ _ S2). destruct (sh_types l !! _); [|done]. by eexists. }
    destruct Esz2 as [n Esz2]. rewrite (new_mix_eq l2 p j n f Ej' Esz2 Ef). cbn [mbind option_bind].
    eexists. split; [reflexivity|]. constructor; [destruct S2; by constructor|].
    exists k, (prepend_connection o (j <| mix_buffer := Some (brk l2) |>)). split_and!; try done.
    + cbn. rewrite (alter_at _ p (jports l2) j Ej'). rewrite (alter_at _ p _ (j <| mix_buffer := Some (brk l2) |>)) by apply lookup_insert_eq.
      by rewrite insert_insert_eq, Ej2.
    + right. exists n. cbn. rewrite Eb2, Ep2. done.
  - cbn [mbind option_bind]. eexists. split; [reflexivity|]. constructor; [destruct S2; by constructor|].
    exists k, (prepend_connection o j). split_and!; try done.
    + cbn. rewrite (alter_at _ p (jports l2) j Ej'), Ej2. done.
    + by left.
    + intros s' Es' Hi Hne. assert (s' = s) as -> by congruence. rewrite Hi in Ec.
      rewrite bool_decide_eq_false_2 in Ec by done. cbn in Ec. apply bool_decide_eq_false in Ec. cbn.
      destruct (mix_buffer j); [done|]. by destruct Ec.
Qed.


Definition view_connect (a b : Z) (v : Z -> list Z) : Z -> list Z := fun x => if decide (x = a) then b :: v x else v x.

Section connect.
Context (v : Z -> list Z) (l l' : lib) (a b : Z) (p : nat) (j : jack_port_t).
Context (M : mirror v l) (Hp : mine l a = Some p) (Ho : own l p j) (Hb : 0 <= b < zlen (sh_ports l)).

Section facts.
Context (k j' : jack_port_t) (Ej : jports l' = <[p := j']> (<[brk l := k]> (jports l))).
Context (Sc : same_client l l') (Es : jp_shared j' = jp_shared j) (Ks : jp_shared k = Z.to_nat b).

Lemma fresh_not_used q : is_Some (jports l !! q) -> q <> brk l.
Proof. intros [x Hx] ->. destruct (m_fresh _ _ M (brk l)) as [? _]; [done|congruence]. Qed.

Lemma p_not_fresh : p <> brk l.
Proof. apply fresh_not_used. destruct Ho as [_ ->]. by eexists. Qed.

Lemma connect_lookup q x :
  jports l' !! q = Some x -> q = p /\ x = j' \/ q <> p /\ q = brk l /\ x = k \/ q <> p /\ q <> brk l /\ jports l !! q = Some x.
Proof.
  rewrite Ej. intros [[<- <-]|[Hn H]]%lookup_insert_Some; [by left|right].
  apply lookup_insert_Some in H as [[<- <-]|[Hn' H]]; [by left|right; auto].
Qed.

Lemma connect_old q : q <> p -> q <> brk l -> jports l' !! q = jports l !! q.
Proof. intros. by rewrite Ej, !lookup_insert_ne by done. Qed.

Lemma connect_jid q : q <> brk l -> jid l' q = jid l q.
Proof.
  intros Hq. unfold jid. destruct (decide (q = p)) as [->|Hn].
  - rewrite Ej, lookup_insert_eq. destruct Ho as [_ ->]. cbn. by rewrite Es.
  - by rewrite connect_old.
Qed.

Lemma connect_jid_new : jid l' (brk l) = Some b.
Proof.
  clear Es Sc. unfold jid. rewrite Ej, lookup_insert_ne, lookup_insert_eq by (apply not_eq_sym, p_not_fresh || apply p_not_fresh). cbn. rewrite Ks. f_equal. lia.
Qed.

Lemma connect_own q x : own l' q x -> q = p /\ x = j' \/ q <> p /\ own l q x.
Proof.
  clear Es Ks. intros [H1 H2]. rewrite (sc_ports _ _ Sc) in H1. apply connect_lookup in H2 as [?|[(Hn & -> & _)|(Hn & _ & H2)]]; [by left| |by right].
  exfalso. apply (fresh_not_used (brk l)); [|done]. apply (m_ports _ _ M). set_solver.
Qed.

Lemma connect_mine x : mine l' x = mine l x.
Proof.
  clear Ks. apply mine_same; [apply Sc|]. intros q Hq. apply connect_jid, fresh_not_used, (m_ports _ _ M). set_solver.
Qed.
End facts.

Lemma connect_mirror : after_connect a b p j l l' -> mirror (view_connect a b v) l'.
Proof.
  intros [Sc (k & j' & Ej & K1 & K2 & K3 & K4 & K5 & J1 & J2 & J3 & J4 & J5 & Jm & Jx)].
  pose proof (connect_own k j' Ej Sc) as Own. pose proof (connect_old k j' Ej) as Old. pose proof (p_not_fresh) as Hpf.
  pose proof (connect_jid k j' Ej J2) as Jid. pose proof (connect_mine k j' Ej Sc J2) as Mine.
  assert (Eold : forall q, q <> p -> is_Some (jports l !! q) -> jports l' !! q = jports l !! q)
    by (intros q Hq Hs; apply Old; [done|by apply fresh_not_used]).
  assert (Hcl : forall q, q ∈ cl_ports l ++ ports_ext l -> q <> brk l) by (intros q Hq; apply fresh_not_used, (m_ports _ _ M), Hq).
  assert (Hconn : forall q x y, own l q x -> y ∈ jp_connections x -> y <> brk l /\ y <> p).
  { intros q x y H1 H2. destruct (m_conns _ _ M q x y H1 H2) as (Hn & z & Hz & _). split; [apply fresh_not_used; by eexists|].
    intros ->. apply Hn. destruct Ho. set_solver. }
  destruct Sc as [T1 T2 T3 T4 T5 T6]. pose proof Ho as [Hin Ejp].
  constructor; rewrite ?T2, ?T3, ?T4, ?T5.
  - eapply table_like_ok; [exact T1|apply M].
  - apply M.
  - apply M.
  - intros q x Hx. apply (same_in_range l); [by constructor|]. destruct (connect_lookup k j' Ej q x Hx) as [[-> ->]|[(_ & _ & ->)|(_ & _ & Hx')]];
      [|done|by apply (m_range _ _ M q)]. pose proof (m_range _ _ M p j Ejp) as R. unfold in_range in *. by rewrite J2, J3, J4.
  - intros q Hq. assert (Hlt : (p < brk l)%nat) by (apply Nat.nle_gt; intros Hle; destruct (m_fresh _ _ M p Hle); congruence).
    assert (Hq' : (S (brk l) <= q)%nat) by (destruct Jm as [(_ & _ & E)|(? & _ & _ & E)]; lia).
    rewrite Old by lia. destruct (m_fresh _ _ M q ltac:(lia)) as [F1 F2]. split; [done|].
    destruct Jm as [(_ & -> & _)|(? & _ & -> & E)]; [done|]. rewrite lookup_insert_ne by lia. done.
  - intros q Hq. destruct (decide (q = p)) as [->|]; [rewrite Ej, lookup_insert_eq; by eexists|].
    rewrite Eold by (done || by apply (m_ports _ _ M)). by apply (m_ports _ _ M).
  - intros q x Hq. destruct (Own q x Hq) as [[-> ->]|[_ H]]; [rewrite J5; by apply (m_fptr _ _ M p)|by apply (m_fptr _ _ M q)].
  - intros q x y Hq Hy. destruct (Own q x Hq) as [[-> ->]|[Hn H]].
    + rewrite J1 in Hy. apply elem_of_cons in Hy as [->|Hy].
      * split; [intros Hc; by apply (Hcl _ Hc)|]. exists k. by rewrite Ej, lookup_insert_ne, lookup_insert_eq.
      * destruct (m_conns _ _ M p j y Ho Hy) as (Hc & z & Hz & Hz'). split; [done|]. exists z. split; [|done].
        rewrite Eold; [done|apply (Hconn p j y Ho Hy)|by eexists].
    + destruct (m_conns _ _ M q x y H Hy) as (Hc & z & Hz & Hz'). split; [done|]. exists z. split; [|done].
      rewrite Eold; [done|apply (Hconn q x y H Hy)|by eexists].
  - intros q q' x x' y Hq Hq' Hy Hy'. destruct (Own q x Hq) as [[-> ->]|[Hn H]], (Own q' x' Hq') as [[-> ->]|[Hn' H']]; [done| | |].
    + rewrite J1 in Hy. apply elem_of_cons in Hy as [->|Hy]; [by destruct (Hconn q' x' _ H' Hy')|]. by apply (m_sep _ _ M p q' j x' y).
    + rewrite J1 in Hy'. apply elem_of_cons in Hy' as [->|Hy']; [by destruct (Hconn q x _ H Hy)|]. by apply (m_sep _ _ M q p x j y).
    + by apply (m_sep _ _ M q q' x x' y).
  - intros q x Hq. destruct (Own q x Hq) as [[-> ->]|[_ H]]; [|by apply (m_once _ _ M q)]. rewrite J1. constructor; [|by apply (m_once _ _ M p)].
    intros Hx. by destruct (Hconn p j _ Ho Hx).
  - intros q x c Hq Hc. destruct (Own q x Hq) as [[-> ->]|[Hn H]].
    + destruct Jm as [(Em & -> & _)|(n & Em & -> & _)].
      * rewrite Em in Hc. by apply (m_mix _ _ M p j).
      * rewrite Em in Hc. injection Hc as <-. rewrite lookup_insert_eq. by eexists.
    + pose proof (m_mix _ _ M q x c H Hc). destruct Jm as [(_ & -> & _)|(n & _ & -> & _)]; [done|].
      apply lookup_insert_is_Some'. by right.
  - assert (Hnew : forall q x c, own l q x -> mix_buffer x = Some c -> mix_buffer j' = Some c -> mix_buffer j = Some c).
    { intros q x c H Hc Hj. destruct Jm as [(Em & _)|(n & Em & _)]; [congruence|]. rewrite Em in Hj. injection Hj as <-.
      destruct (m_mix _ _ M q x _ H Hc) as [? Hp']. destruct (m_fresh _ _ M (S (brk l))) as [_ ?]; [lia|congruence]. }
    intros q q' x x' c Hq Hq' Hc Hc'. destruct (Own q x Hq) as [[-> ->]|[Hn H]], (Own q' x' Hq') as [[-> ->]|[Hn' H']]; [done| | |].
    + by apply (m_mix_sep _ _ M p q' j x' c); [done|done|by apply (Hnew q' x')|].
    + by apply (m_mix_sep _ _ M q p x j c); [done|done| |by apply (Hnew q x)].
    + by apply (m_mix_sep _ _ M q q' x x' c).
  - intros c q x Hq Hx. rewrite Mine in Hq. destruct (mine_Some _ _ _ Hq) as [Hqin Hqid].
    destruct (Own q x) as [[-> ->]|[Hn H]]; [by split; [rewrite T4|]| |].
    + assert (c = a) as -> by (destruct (mine_Some _ _ _ Hp); congruence). unfold view_connect. rewrite decide_True by done.
      rewrite J1. cbn [fmap list_fmap]. f_equal; [apply (connect_jid_new k j' Ej K3)|]. rewrite <- (m_view _ _ M a p j Hp Ejp).
      apply list_fmap_ext. intros i y Hy. apply Jid. apply (Hconn p j y Ho). by eapply list_elem_of_lookup_2.
    + unfold view_connect. rewrite decide_False by congruence. rewrite <- (m_view _ _ M c q x Hq (proj2 H)).
      apply list_fmap_ext. intros i y Hy. apply Jid. apply (Hconn q x y H). by eapply list_elem_of_lookup_2.
  - intros c q x s' Hq Hx Hs Hi Hlen. rewrite Mine in Hq. destruct (mine_Some _ _ _ Hq) as [Hqin Hqid].
    destruct (Forall2_lookup_r _ _ _ _ _ T1 Hs) as (s & Es & _ & _ & Ef & _). rewrite Ef in Hi.
    destruct (Own q x) as [[-> ->]|[Hn H]]; [by split; [rewrite T4|]| |].
    + apply (Jx s); [by rewrite <- J2|done|]. intros E. rewrite J1, E in Hlen. cbn in Hlen. lia.
    + by apply (m_mixed _ _ M c q x s Hq (proj2 H)).
  - rewrite T6. apply M.
  - intros c q x y z s' Hq Hx Hy Hz Hs'. rewrite Mine in Hq. destruct (mine_Some _ _ _ Hq) as [Hqin _].
    destruct (Forall2_lookup_r _ _ _ _ _ T1 Hs') as (s & Es & _ & -> & _).
    destruct (Own q x) as [[-> ->]|[Hn H]]; [by split; [rewrite T4|]| |].
    + rewrite J1 in Hy. apply elem_of_cons in Hy as [->|Hy].
      * rewrite Ej, lookup_insert_ne, lookup_insert_eq in Hz by done. injection Hz as <-. by apply K5.
      * destruct (m_conns _ _ M p j y Ho Hy) as (_ & z0 & Hz0 & _). destruct (Hconn p j y Ho Hy) as [_ Hyp].
        rewrite Eold in Hz by (done || by eexists). by apply (m_seg _ _ M c p j y z s).
    + destruct (m_conns _ _ M q x y H Hy) as (_ & z0 & Hz0 & _). destruct (Hconn q x y H Hy) as [_ Hyp].
      rewrite Eold in Hz by (done || by eexists). by apply (m_seg _ _ M c q x y z s Hq (proj2 H)).
  - intros c q x s' Hq Hx Hs' Hme. rewrite Mine in Hq. destruct (mine_Some _ _ _ Hq) as [Hqin _].
    destruct (Forall2_lookup_r _ _ _ _ _ T1 Hs') as (s & Es & _ & -> & _ & Ecl). rewrite Ecl in Hme.
    destruct (Own q x) as [[-> ->]|[Hn H]]; [by split; [rewrite T4|]| |].
    + rewrite J3, J4. apply (m_own _ _ M c p j s Hq Ejp); [by rewrite <- J2|done].
    + by apply (m_own _ _ M c q x s Hq (proj2 H)).
Qed.
End connect.

(** ** A connection is broken *)

Definition view_disconnect (a b : Z) (v : Z -> list Z) : Z -> list Z :=
  fun x => if decide (x = a) then slist_remove b (v x) else v x.

Lemma port_disconnected_eq v l a b p j :
  mirror v l -> mine l a = Some p -> own l p j ->
  port_disconnected mem_ok a b l = Some
    match head (filter (fun q => jid l q = Some b) (jp_connections j)) with
    | None => l
    | Some o => free_port o (upd_jport p (fun j => j <| jp_connections ::= slist_remove o |>) l)
    end.
Proof.
  intros M Hp [Hin Ej]. unfold port_disconnected. rewrite (own_find v l M a p Hp). cbn [mbind option_bind]. rewrite Ej. cbn [mbind option_bind].
  rewrite find_id_spec; [|apply M|apply (shared_bound v l M)|].
  - cbn [mbind option_bind]. by destruct (head _).
  - intros q Hq. destruct (m_conns _ _ M p j q (conj Hin Ej) Hq) as (_ & k & Hk & _). by eexists.
Qed.

Section disconnect.
Context (v : Z -> list Z) (l : lib) (a b : Z) (p o : nat) (j : jack_port_t).
Context (M : mirror v l) (Hp : mine l a = Some p) (Ho : own l p j).
Context (Hd : head (filter (fun q => jid l q = Some b) (jp_connections j)) = Some o).

Let j' : jack_port_t := j <| jp_connections ::= slist_remove o |>.
Let l' : lib := free_port o (upd_jport p (fun j => j <| jp_connections ::= slist_remove o |>) l).

Lemma gone_conn : o ∈ jp_connections j.
Proof. apply head_Some_elem_of, list_elem_of_filter in Hd. by destruct Hd. Qed.

Lemma gone_not_port q : q ∈ cl_ports l ++ ports_ext l -> q <> o.
Proof. intros Hq ->. by destruct (m_conns _ _ M p j o Ho gone_conn). Qed.

Lemma disconnect_jports : jports l' = delete o (<[p := j']> (jports l)).
Proof. unfold l'. cbn. destruct Ho as [_ Ej]. by rewrite (alter_at _ p (jports l) j Ej). Qed.

Lemma disconnect_old q : q <> p -> q <> o -> jports l' !! q = jports l !! q.
Proof. intros. by rewrite disconnect_jports, lookup_delete_ne, lookup_insert_ne. Qed.

Lemma disconnect_lookup q x : jports l' !! q = Some x -> q <> o /\ (q = p /\ x = j' \/ q <> p /\ jports l !! q = Some x).
Proof.
  rewrite disconnect_jports. intros [Hn [[<- <-]|[Hn' H]]%lookup_insert_Some]%lookup_delete_Some; (split; [congruence|]); [by left|by right].
Qed.

Lemma disconnect_own q x : own l' q x -> q = p /\ x = j' \/ q <> p /\ own l q x.
Proof. intros [H1 H2]. apply disconnect_lookup in H2 as [_ [?|[? ?]]]; [by left|by right]. Qed.

Lemma disconnect_jid q : q <> o -> jid l' q = jid l q.
Proof.
  intros Hq. unfold jid. destruct (decide (q = p)) as [->|Hn]; [|by rewrite disconnect_old].
  rewrite disconnect_jports, lookup_delete_ne, lookup_insert_eq by done. destruct Ho as [_ ->]. done.
Qed.

Lemma disconnect_mine x : mine l' x = mine l x.
Proof. apply mine_same; [done|]. intros q Hq. apply disconnect_jid, gone_not_port. set_solver. Qed.

(** A connection that is left was one before. *)
Lemma disconnect_conn q x y : own l' q x -> y ∈ jp_connections x -> exists x0, own l q x0 /\ y ∈ jp_connections x0 /\ y <> o /\ y <> p.
Proof.
  intros Hq Hy. assert (H : exists x0, own l q x0 /\ y ∈ jp_connections x0 /\ y <> o).
  { destruct (disconnect_own q x Hq) as [[-> ->]|[Hn H]].
    - exists j. cbn in Hy. split; [done|]. split; [by apply (slist_remove_elem o)|].
      intros ->. by apply (slist_remove_gone o (jp_connections j)) in Hy; [|apply (m_once _ _ M p)].
    - exists x. split; [done|]. split; [done|]. intros ->. apply Hn. apply (m_sep _ _ M q p x j o); [done|done|done|apply gone_conn]. }
  destruct H as (x0 & H1 & H2 & H3). exists x0. split_and!; [done|done|done|]. intros ->.
  destruct (m_conns _ _ M q x0 p H1 H2) as [Hn _]. destruct Ho. apply Hn. set_solver.
Qed.

Lemma disconnect_view c q x :
  mine l' c = Some q -> jports l' !! q = Some x -> jid l' <$> jp_connections x = Some <$> view_disconnect a b v c.
Proof.
  intros Hq Hx. pose proof Hq as Hq'. rewrite disconnect_mine in Hq'. destruct (mine_Some _ _ _ Hq') as [Hqin Hqid].
  assert (Hox : own l' q x) by done. transitivity (jid l <$> jp_connections x).
  { apply list_fmap_ext. intros i y Hy. apply disconnect_jid. destruct (disconnect_conn q x y Hox) as (_ & _ & _ & ? & _); [|done].
    by eapply list_elem_of_lookup_2. }
  unfold view_disconnect. destruct (disconnect_own q x Hox) as [[-> ->]|[Hn H]].
  - assert (c = a) as -> by (destruct (mine_Some _ _ _ Hp); congruence). rewrite decide_True by done. cbn [j' jp_connections].
    change (jp_connections j') with (slist_remove o (jp_connections j)). rewrite (slist_remove_fmap (jid l) o (Some b)) by done.
    rewrite (m_view _ _ M a p j Hp (proj2 Ho)). clear. induction (v a) as [|z w IH]; [done|]. cbn [fmap list_fmap slist_remove].
    destruct (decide (z = b)) as [->|]; [by rewrite decide_True|]. rewrite decide_False by congruence. cbn. by f_equal.
  - rewrite decide_False by congruence. by apply (m_view _ _ M c q x Hq' (proj2 H)).
Qed.

(** What a structure still has, it had before. *)
Lemma disconnect_field {A} (f : jack_port_t -> A) q x :
  (forall g, f (j <| jp_connections ::= g |>) = f j) -> own l' q x -> exists x0, own l q x0 /\ f x = f x0.
Proof. intros Hf Hq. destruct (disconnect_own q x Hq) as [[-> ->]|[_ H]]; [by exists j; split; [|apply Hf]|by exists x]. Qed.

Lemma disconnect_mirror : mirror (view_disconnect a b v) l'.
Proof.
  constructor.
  - apply M.
  - apply M.
  - apply M.
  - intros q x Hx. apply disconnect_lookup in Hx as [_ [[-> ->]|[_ Hx]]]; [|by apply (m_range _ _ M q)]. apply (m_range _ _ M p j), Ho.
  - intros q Hq. destruct (m_fresh _ _ M q Hq) as [F1 F2]. split; [|done].
    destruct (jports l' !! q) as [x|] eqn:E; [|done]. apply disconnect_lookup in E as [_ [[-> _]|[_ E]]]; [destruct Ho|]; congruence.
  - intros q Hq. destruct (m_ports _ _ M q Hq) as [x Hx]. destruct (decide (q = p)) as [->|].
    + rewrite disconnect_jports, lookup_delete_ne, lookup_insert_eq by (by apply not_eq_sym, gone_not_port). by eexists.
    + rewrite disconnect_old by (done || by apply gone_not_port). by eexists.
  - intros q x Hq. destruct (disconnect_field fptr q x) as (x0 & H & ->); [done|done|]. by apply (m_fptr _ _ M q).
  - intros q x y Hq Hy. destruct (disconnect_conn q x y Hq Hy) as (x0 & H1 & H2 & H3 & H4).
    destruct (m_conns _ _ M q x0 y H1 H2) as (Hn & k & Hk & Hk'). split; [done|]. exists k. split; [|done]. by rewrite disconnect_old.
  - intros q q' x x' y Hq Hq' Hy Hy'. destruct (disconnect_conn q x y Hq Hy) as (x0 & H1 & H2 & _).
    destruct (disconnect_conn q' x' y Hq' Hy') as (x0' & H1' & H2' & _). by apply (m_sep _ _ M q q' x0 x0' y).
  - intros q x Hq. destruct (disconnect_own q x Hq) as [[-> ->]|[_ H]]; [|by apply (m_once _ _ M q)].
    apply (sublist_NoDup _ (jp_connections j)); [by apply (m_once _ _ M p)|apply slist_remove_sublist].
  - intros q x c Hq. destruct (disconnect_field mix_buffer q x) as (x0 & H & ->); [done|done|]. by apply (m_mix _ _ M q).
  - intros q q' x x' c Hq Hq'. destruct (disconnect_field mix_buffer q x) as (x0 & H & ->); [done|done|].
    destruct (disconnect_field mix_buffer q' x') as (x0' & H' & ->); [done|done|]. by apply (m_mix_sep _ _ M q q').
  - apply disconnect_view.
  - intros c q x s Hq Hx Hs Hi Hlen. rewrite disconnect_mine in Hq. apply disconnect_lookup in Hx as [_ [[-> ->]|[_ Hx]]].
    + apply (m_mixed _ _ M c p j s Hq (proj2 Ho) Hs Hi). etransitivity; [exact Hlen|]. apply sublist_length, slist_remove_sublist.
    + by apply (m_mixed _ _ M c q x s Hq Hx).
  - apply M.
  - intros c q x y z s Hq Hx Hy Hz Hs. assert (Hox : own l' q x) by (split; [by apply (mine_Some _ c)|done]).
    rewrite disconnect_mine in Hq. destruct (disconnect_conn q x y Hox Hy) as (x0 & H1 & H2 & H3 & H4).
    rewrite disconnect_old in Hz by done. by apply (m_seg _ _ M c q x0 y z s Hq (proj2 H1)).
  - intros c q x s Hq Hx Hs Hme. rewrite disconnect_mine in Hq. apply disconnect_lookup in Hx as [_ [[-> ->]|[_ Hx]]].
    + by apply (m_own _ _ M c p j s Hq (proj2 Ho)).
    + by apply (m_own _ _ M c q x s Hq Hx).
Qed.
End disconnect.

(** ** The other events *)

Section change.
Context (v : Z -> list Z) (l l' : lib) (p : nat) (j j' : jack_port_t).
Context (M : mirror v l) (Ej : jports l !! p = Some j) (Ej' : jports l' = <[p := j']> (jports l)).
Context (Sc : same_client l l') (Hs : jp_shared j' = jp_shared j) (Hc : jp_connections j' = jp_connections j).
Context (Ht : tied j' = tied j) (Hf : fptr j' = fptr j) (Hr : in_range l j') (Hg : segment j' = segment j).
Context (Hty : forall s, sh_ports l !! jp_shared j = Some s -> type_info j = ptype_id (sp s) -> type_info j' = ptype_id (sp s)).

Lemma change_lookup q x : jports l' !! q = Some x -> exists x0, jports l !! q = Some x0 /\ jp_shared x = jp_shared x0 /\
  jp_connections x = jp_connections x0 /\ tied x = tied x0 /\ fptr x = fptr x0 /\ (q = p /\ x = j' /\ x0 = j \/ q <> p /\ x = x0).
Proof.
  rewrite Ej'. intros [[<- <-]|[Hn H]]%lookup_insert_Some; [exists j|exists x]; split_and!; auto.
Qed.

Lemma change_jid q : jid l' q = jid l q.
Proof.
  unfold jid. rewrite Ej'. destruct (decide (p = q)) as [<-|]; [|by rewrite lookup_insert_ne].
  rewrite lookup_insert_eq, Ej. cbn. by rewrite Hs.
Qed.

Lemma change_mine a : mine l' a = mine l a.
Proof. apply mine_same; [apply Sc|]. intros. apply change_jid. Qed.

(** The mix buffer stays, is released, or is replaced by a new one. *)
Definition mix_change : Prop :=
  mix_buffer j' = mix_buffer j /\ pool l' = pool l /\ brk l' = brk l \/
  (exists b, p ∈ cl_ports l /\ mix_buffer j = Some b /\ mix_buffer j' = None /\ pool l' = delete b (pool l) /\ brk l' = brk l /\
    (length (jp_connections j) <= 1)%nat) \/
  (exists b n, p ∈ cl_ports l /\ mix_buffer j = Some b /\ mix_buffer j' = Some (brk l) /\ pool l' = <[brk l := n]> (delete b (pool l)) /\
    brk l' = S (brk l)).

Context (Hm : mix_change).

Lemma change_fresh q : (brk l' <= q)%nat -> jports l' !! q = None /\ pool l' !! q = None.
Proof.
  intros Hq. assert (Hle : (brk l <= brk l')%nat) by (destruct Hm as [(_ & _ & ->)|[(b & _ & _ & _ & _ & -> & _)|(b & n & _ & _ & _ & _ & ->)]]; lia).
  destruct (m_fresh _ _ M q ltac:(lia)) as [F1 F2]. split.
  - destruct (jports l' !! q) as [x|] eqn:E; [|done]. apply change_lookup in E as (x0 & E & _). congruence.
  - destruct Hm as [(_ & -> & _)|[(b & _ & _ & _ & -> & _)|(b & n & _ & _ & _ & -> & E)]]; [done|by apply lookup_delete_None; right|].
    rewrite lookup_insert_ne by lia. by apply lookup_delete_None; right.
Qed.

(** Mix buffers of other ports stay. *)
Lemma change_mix_other q x b : q <> p -> own l q x -> mix_buffer x = Some b -> is_Some (pool l' !! b) /\ mix_buffer j' <> Some b \/ mix_buffer j' = mix_buffer j /\ pool l' = pool l.
Proof.
  intros Hn Hq Hb. pose proof (m_mix _ _ M q x b Hq Hb) as [n En].
  assert (Hne : b <> brk l) by (intros ->; destruct (m_fresh _ _ M (brk l)) as [_ ?]; [done|congruence]).
  assert (Hd : forall c, p ∈ cl_ports l -> mix_buffer j = Some c -> c <> b).
  { intros c Hp Hc' ->. apply Hn. by apply (m_mix_sep _ _ M q p x j b). }
  destruct Hm as [(E1 & E2 & _)|[(c & Hp & Ec & E1 & -> & _)|(c & m & Hp & Ec & -> & -> & _)]]; [by right|left|left].
  - rewrite E1. split; [|done]. rewrite lookup_delete_ne by (by apply Hd). by eexists.
  - split; [|congruence]. rewrite lookup_insert_ne, lookup_delete_ne by (done || by apply Hd). by eexists.
Qed.

Lemma change_mirror : mirror v l'.
Proof.
  pose proof Sc as [T1 T2 T3 T4 T5 T6].
  assert (Own : forall q x, own l' q x -> exists x0, own l q x0 /\ jp_connections x = jp_connections x0 /\ fptr x = fptr x0 /\
    (q = p /\ x = j' /\ x0 = j \/ q <> p /\ x = x0)).
  { intros q x [H1 H2]. rewrite T4 in H1. destruct (change_lookup q x H2) as (x0 & E & _ & E1 & _ & E2 & E3). by exists x0. }
  constructor; rewrite ?T2, ?T3, ?T4, ?T5.
  - eapply table_like_ok; [exact T1|apply M].
  - apply M.
  - apply M.
  - intros q x Hx. apply (same_in_range l); [done|]. destruct (change_lookup q x Hx) as (x0 & E & _ & _ & _ & _ & [(-> & -> & _)|(_ & ->)]); [done|].
    by apply (m_range _ _ M q).
  - intros q Hq. by apply change_fresh.
  - intros q Hq. destruct (m_ports _ _ M q Hq) as [x Hx]. rewrite Ej'. apply lookup_insert_is_Some'. right. by eexists.
  - intros q x Hq. destruct (Own q x Hq) as (x0 & H & _ & -> & _). by apply (m_fptr _ _ M q).
  - intros q x y Hq Hy. destruct (Own q x Hq) as (x0 & H & E & _). rewrite E in Hy.
    destruct (m_conns _ _ M q x0 y H Hy) as (Hn & k & Hk & Hk1 & Hk2). split; [done|].
    destruct (decide (y = p)) as [->|]; [|exists k; rewrite Ej', lookup_insert_ne by done; done].
    exists j'. rewrite Ej', lookup_insert_eq, Hc, Ht. by assert (k = j) as <- by congruence.
  - intros q q' x x' y Hq Hq' Hy Hy'. destruct (Own q x Hq) as (x0 & H & E & _), (Own q' x' Hq') as (x0' & H' & E' & _).
    rewrite E in Hy. rewrite E' in Hy'. by apply (m_sep _ _ M q q' x0 x0' y).
  - intros q x Hq. destruct (Own q x Hq) as (x0 & H & -> & _). by apply (m_once _ _ M q).
  - intros q x b Hq Hb. destruct (Own q x Hq) as (x0 & H & _ & _ & [(-> & -> & ->)|(Hn & ->)]).
    + destruct Hm as [(E1 & -> & _)|[(c & _ & _ & E1 & _)|(c & n & _ & _ & E1 & -> & _)]]; [|congruence|].
      * rewrite E1 in Hb. by apply (m_mix _ _ M p j).
      * rewrite E1 in Hb. injection Hb as <-. rewrite lookup_insert_eq. by eexists.
    + destruct (change_mix_other q x0 b Hn H Hb) as [[? _]|[_ ->]]; [done|]. by apply (m_mix _ _ M q x0).
  - intros q q' x x' b Hq Hq' Hb Hb'. destruct (Own q x Hq) as (x0 & H & _ & _ & [(-> & -> & ->)|(Hn & ->)]), (Own q' x' Hq') as (x0' & H' & _ & _ & [(-> & -> & ->)|(Hn' & ->)]); [done| | |].
    + destruct (change_mix_other q' x0' b Hn' H' Hb') as [[_ ?]|[E _]]; [done|]. rewrite E in Hb. by apply (m_mix_sep _ _ M p q' j x0' b).
    + destruct (change_mix_other q x0 b Hn H Hb) as [[_ ?]|[E _]]; [done|]. rewrite E in Hb'. by apply (m_mix_sep _ _ M q p x0 j b).
    + by apply (m_mix_sep _ _ M q q' x0 x0' b).
  - intros a q x Hq Hx. rewrite change_mine in Hq. destruct (change_lookup q x Hx) as (x0 & E & _ & -> & _).
    rewrite <- (m_view _ _ M a q x0 Hq E). apply list_fmap_ext. intros. apply change_jid.
  - intros a q x s Hq Hx Hsx Hi Hlen. rewrite change_mine in Hq. destruct (change_lookup q x Hx) as (x0 & E & E1 & E2 & _ & _ & E3).
    destruct (Forall2_lookup_r _ _ _ _ _ T1 Hsx) as (s0 & Es & _ & _ & Ef & _). rewrite Ef in Hi. rewrite E1 in Es. rewrite E2 in Hlen.
    pose proof (m_mixed _ _ M a q x0 s0 Hq E Es Hi Hlen) as Hx0. destruct E3 as [(-> & -> & ->)|(_ & ->)]; [|done].
    destruct Hm as [(-> & _)|[(c & _ & _ & _ & _ & _ & Hl)|(c & n & _ & _ & -> & _)]]; [done|lia|by eexists].
  - rewrite T6. apply M.
  - intros a q x y z s' Hq Hx Hyx Hz Hs'. rewrite change_mine in Hq. destruct (Forall2_lookup_r _ _ _ _ _ T1 Hs') as (s & Es & _ & -> & _).
    destruct (change_lookup q x Hx) as (x0 & E & _ & E2 & _). rewrite E2 in Hyx.
    destruct (change_lookup y z Hz) as (z0 & Ez & E3 & _ & _ & _ & E4). rewrite E3 in Es.
    transitivity (segment z0); [by destruct E4 as [(-> & -> & ->)|(_ & ->)]|]. by apply (m_seg _ _ M a q x0 y z0 s).
  - intros a q x s' Hq Hx Hs' Hme. rewrite change_mine in Hq. destruct (Forall2_lookup_r _ _ _ _ _ T1 Hs') as (s & Es & _ & -> & _ & Ecl).
    rewrite Ecl in Hme. destruct (change_lookup q x Hx) as (x0 & E & E1 & _ & _ & _ & E4). rewrite E1 in Es.
    destruct (m_own _ _ M a q x0 s Hq E Es Hme) as [O1 O2]. destruct E4 as [(-> & -> & ->)|(_ & ->)]; [|done].
    rewrite Hg. split; [done|]. by apply Hty.
Qed.
End change.

Lemma fold_mirror (f : lib -> nat -> option lib) v ps l0 :
  (forall l p, mirror v l -> same_client l0 l -> p ∈ ps -> exists l', f l p = Some l' /\ mirror v l' /\ same_client l l') ->
  mirror v l0 -> exists l', foldl (fun l p => l ← l; f l p) (Some l0) ps = Some l' /\ mirror v l' /\ same_client l0 l'.
Proof.
  intros Hf M0. assert (H : forall l, mirror v l -> same_client l0 l ->
    exists l', foldl (fun l p => l ← l; f l p) (Some l) ps = Some l' /\ mirror v l' /\ same_client l0 l'); [|by apply H].
  clear M0. induction ps as [|p ps IH]; intros l M S0; [by exists l|]. cbn [foldl mbind option_bind].
  destruct (Hf l p M S0) as (l1 & -> & M1 & S1); [left|]. apply IH; [|done|by transitivity l].
  intros l2 q M2 S2 Hq. apply Hf; [done|done|by right].
Qed.

Lemma update_type_mirror v id l p :
  mirror v l -> is_Some (jports l !! p) -> exists l', update_type id l p = Some l' /\ mirror v l' /\ same_client l l'.
Proof.
  intros M [j Ej]. unfold update_type. rewrite Ej. cbn [mbind option_bind].
  destruct (lookup_lt_is_Some_2 (sh_ports l) (jp_shared j) (shared_bound v l M p j Ej)) as [s Es]. rewrite Es. cbn [mbind option_bind].
  destruct (p_id (sp s) =? id); [|by exists l]. eexists. split; [reflexivity|].
  assert (Sc : same_client l (upd_jport p (fun j => j <| type_info := ptype_id (sp s) |>) l)) by (constructor; try done; apply like_refl).
  split; [|done]. apply (change_mirror v l _ p j (j <| type_info := ptype_id (sp s) |>)); try done.
  - cbn. by rewrite (alter_at _ p (jports l) j Ej).
  - destruct (m_range _ _ M p j Ej) as (R1 & _ & R3). destruct (m_table _ _ M _ _ Es) as [_ Ht].
    split; [done|]. split; [|done]. rewrite (m_types _ _ M). cbn. lia.
  - intros s0 Es0 _. cbn. congruence.
  - by left.
Qed.

Lemma fix_port_buffer_mirror v l p :
  mirror v l -> p ∈ cl_ports l -> exists l', fix_port_buffer mem_ok l p = Some l' /\ mirror v l' /\ same_client l l'.
Proof.
  intros M Hp. destruct (m_ports _ _ M p ltac:(set_solver)) as [j Ej]. unfold fix_port_buffer. rewrite Ej. cbn [mbind option_bind].
  destruct (lookup_lt_is_Some_2 (sh_ports l) (jp_shared j) (shared_bound v l M p j Ej)) as [s Es]. rewrite Es. cbn [mbind option_bind].
  destruct (has_flag _ _); [|by exists l]. destruct (mix_buffer j) as [b|] eqn:Eb; [|by exists l].
  destruct (m_mix _ _ M p j b (conj Hp Ej) Eb) as [n En]. unfold jack_pool_release. rewrite En. cbn [mbind option_bind].
  set (l1 := upd_jport p _ _). assert (Ej1 : jports l1 !! p = Some (j <| mix_buffer := None |>)) by (cbn; by rewrite lookup_alter_eq, Ej).
  destruct (Z.gtb_spec (zlen (jp_connections j)) 1) as [Hc|Hc].
  - destruct (own_size v l M p j (conj Hp Ej)) as [size Esz]. destruct (m_fptr _ _ M p j (conj Hp Ej)) as (f & Ef & _).
    rewrite (new_mix_eq l1 p (j <| mix_buffer := None |>) size f Ej1 Esz Ef). eexists. split; [reflexivity|].
    assert (Sc : same_client l (upd_jport p (fun j => j <| mix_buffer := Some (brk l1) |>) (l1 <| pool ::= <[brk l1 := size]> |> <| brk ::= S |>)))
      by (constructor; try done; apply like_refl). split; [|done].
    apply (change_mirror v l _ p j (j <| mix_buffer := Some (brk l) |>)); try done.
    + cbn. rewrite (alter_at _ p (jports l) j Ej). rewrite (alter_at _ p _ (j <| mix_buffer := None |>)) by apply lookup_insert_eq.
      by rewrite insert_insert_eq.
    + apply (m_range _ _ M p j Ej).
    + right. right. by exists b, size.
  - eexists. split; [reflexivity|]. assert (Sc : same_client l l1) by (constructor; try done; apply like_refl). split; [|done].
    apply (change_mirror v l l1 p j (j <| mix_buffer := None |>)); try done.
    + cbn. by rewrite (alter_at _ p (jports l) j Ej).
    + apply (m_range _ _ M p j Ej).
    + right. left. exists b. split_and!; try done. lia.
Qed.

(** The server writes to the shared memory: it changes neither the direction
    of a port that is connected nor the type of a port a port of the client is
    connected to, and gives the client no new port in a place of which it has
    a structure. *)
Definition write_ok (v : Z -> list Z) (l : lib) (t : list jack_port_shared_t) (ty : list port_type) : Prop :=
  table_ok t /\ length t = length (sh_ports l) /\ length ty = 2%nat /\
  forall i s s', sh_ports l !! i = Some s -> t !! i = Some s' -> (v (Z.of_nat i) <> [] -> flags (sp s') = flags (sp s)) /\
    ((exists a, Z.of_nat i ∈ v a) -> ptype_id (sp s') = ptype_id (sp s)) /\
    (client_id (sp s') = me -> mine l (Z.of_nat i) = None \/ client_id (sp s) = me /\ ptype_id (sp s') = ptype_id (sp s)).

Definition server_writes (t : list jack_port_shared_t) (ty : list port_type) (nframes rate : Z) (l : lib) : lib :=
  l <| sh_ports := t |> <| sh_types := ty |> <| sh_buffer_size := nframes |> <| sh_frame_rate := rate |>.

Lemma write_mirror v l t ty n r : mirror v l -> write_ok v l t ty -> mirror v (server_writes t ty n r l).
Proof.
  intros M (W1 & W2 & W3 & W4). destruct M as [M1 M2 M3 M4 M5 M6 M7 M8 M9 M10 M11 M12 M13 M14 M15 M16 M17]. constructor; try done.
  - intros p j Ej. destruct (M4 p j Ej) as (R1 & R2 & R3). split; [|split]; cbn; lia.
  - intros a p j s Ha Ej Es Hi Hlen. change (mine l a = Some p) in Ha. destruct (M4 p j Ej) as (R1 & _).
    destruct (lookup_lt_is_Some_2 (sh_ports l) (jp_shared j) R1) as [s0 Es0].
    apply (M14 a p j s0 Ha Ej Es0); [|done]. rewrite <- (proj1 (W4 _ _ _ Es0 Es)); [done|].
    destruct (mine_Some _ _ _ Ha) as [_ Hid]. unfold jid in Hid. change (jports l !! p = Some j) in Ej. rewrite Ej in Hid. injection Hid as ->.
    intros E. pose proof (M13 a p j Ha Ej) as Hv. rewrite E in Hv. apply (f_equal length) in Hv. rewrite !length_fmap in Hv. cbn in Hv. lia.
  - intros a p j q k s Ha Ej Hq Ek Es. change (mine l a = Some p) in Ha. change (jports l !! p = Some j) in Ej. change (jports l !! q = Some k) in Ek.
    destruct (lookup_lt_is_Some_2 (sh_ports l) (jp_shared k) (proj1 (M4 q k Ek))) as [s0 Es0].
    rewrite (proj1 (proj2 (W4 _ _ _ Es0 Es))); [by apply (M16 a p j q k s0)|]. exists a.
    assert (Hi : jid l q ∈ Some <$> v a) by (rewrite <- (M13 a p j Ha Ej); by apply list_elem_of_fmap_2).
    unfold jid in Hi. rewrite Ek in Hi. apply list_elem_of_fmap in Hi as (z & [= ->] & Hz). done.
  - intros a p j s Ha Ej Es Hme. change (mine l a = Some p) in Ha. change (jports l !! p = Some j) in Ej.
    destruct (lookup_lt_is_Some_2 (sh_ports l) (jp_shared j) (proj1 (M4 p j Ej))) as [s0 Es0].
    destruct (proj2 (proj2 (W4 _ _ _ Es0 Es)) Hme) as [H1|[H1 ->]]; [|by apply (M17 a p j s0)].
    destruct (mine_Some _ _ _ Ha) as [_ Hid]. unfold jid in Hid. rewrite Ej in Hid. injection Hid as Hid. rewrite Hid in H1. congruence.
Qed.

Lemma upd_shared_mirror v l i f :
  (forall s, table_like s (f s)) -> mirror v l -> mirror v (upd_shared i f l) /\ same_client l (upd_shared i f l).
Proof.
  intros Hf M. split; [|constructor; try done; by apply like_alter].
  assert (E : upd_shared i f l = server_writes (alter f i (sh_ports l)) (sh_types l) (sh_buffer_size l) (sh_frame_rate l) l) by done.
  rewrite E. apply write_mirror; [done|]. split_and!.
  - eapply table_like_ok; [by apply like_alter|apply M].
  - apply length_alter.
  - apply M.
  - intros k s s' Es Es'. assert (Hl : table_like s s').
    { destruct (decide (i = k)) as [<-|].
      - rewrite list_lookup_alter_eq, Es in Es'. injection Es' as <-. apply Hf.
      - rewrite list_lookup_alter_ne in Es' by done. by assert (s' = s) as -> by congruence. }
    destruct Hl as (_ & E1 & E2 & E3). split_and!; [done|done|]. intros Hme. right. split; congruence.
Qed.

(** ** Latencies *)

Lemma set_range_like mode r s : table_like s (set_range mode r s).
Proof. unfold set_range. destruct mode; by destruct (_ && _). Qed.

Lemma set_latency_mirror v l p mode r :
  mirror v l -> is_Some (jports l !! p) -> exists l', jack_port_set_latency_range l p mode r = Some l' /\ mirror v l' /\ same_client l l'.
Proof.
  intros M [j Ej]. unfold jack_port_set_latency_range. rewrite Ej. cbn [mbind option_bind]. eexists. split; [reflexivity|].
  apply upd_shared_mirror; [apply set_range_like|done].
Qed.

Lemma mirror_shared v l p : mirror v l -> is_Some (jports l !! p) -> is_Some (shared_of l p).
Proof. intros M [j Ej]. unfold shared_of. rewrite Ej. cbn [mbind option_bind]. by apply lookup_lt_is_Some_2, (shared_bound v l M p). Qed.

Lemma join_total v l mode ps r :
  mirror v l -> (forall q, q ∈ ps -> is_Some (jports l !! q)) ->
  exists r', foldl (fun r p => r ← r; o ← jack_port_get_latency_range l p mode; Some (join_range r o)) (Some r) ps = Some r'.
Proof.
  intros M. revert r. induction ps as [|p ps IH]; intros r Hps; [by eexists|]. cbn [foldl mbind option_bind].
  destruct (mirror_shared v l p M) as [s Es]; [apply Hps; left|]. unfold jack_port_get_latency_range at 2. rewrite Es.
  cbn [mbind option_bind]. apply IH. intros q Hq. apply Hps. by right.
Qed.

Lemma recalculate_mirror v l p mode :
  mirror v l -> p ∈ cl_ports l -> exists l', jack_port_recalculate_latency mode l p = Some l' /\ mirror v l' /\ same_client l l'.
Proof.
  intros M Hp. destruct (m_ports _ _ M p ltac:(set_solver)) as [j Ej]. unfold jack_port_recalculate_latency, join_ports. rewrite Ej. cbn [mbind option_bind].
  destruct (join_total v l mode (jp_connections j) no_range M) as [r ->].
  { intros q Hq. destruct (m_conns _ _ M p j q (conj Hp Ej) Hq) as (_ & k & Hk & _). by eexists. }
  cbn [mbind option_bind]. apply set_latency_mirror; [done|by eexists].
Qed.

Lemma flag_total v l p bit : mirror v l -> is_Some (jports l !! p) -> exists b, port_has_flag l bit p = Some b.
Proof.
  intros M H. unfold port_has_flag, jack_port_flags. destruct (mirror_shared v l p M H) as [s ->]. by eexists.
Qed.

Lemma join_flagged_total v l mode bit ps r :
  mirror v l -> (forall q, q ∈ ps -> is_Some (jports l !! q)) ->
  exists r', foldl (fun r p => r ← r; b ← port_has_flag l bit p;
    if (b : bool) then o ← jack_port_get_latency_range l p mode; Some (join_range r o) else Some r) (Some r) ps = Some r'.
Proof.
  intros M. revert r. induction ps as [|p ps IH]; intros r Hps; [by eexists|]. cbn [foldl mbind option_bind].
  destruct (flag_total v l p bit M) as [b ->]; [apply Hps; left|]. cbn [mbind option_bind].
  assert (Hps' : forall q, q ∈ ps -> is_Some (jports l !! q)) by (intros q Hq; apply Hps; by right).
  destruct b; [|by apply IH]. unfold jack_port_get_latency_range at 2. destruct (mirror_shared v l p M) as [s ->]; [apply Hps; left|].
  cbn [mbind option_bind]. by apply IH.
Qed.

Lemma same_port l l' p : same_client l l' -> p ∈ cl_ports l -> p ∈ cl_ports l'.
Proof. intros S. by rewrite (sc_ports _ _ S). Qed.

Lemma mirror_valid v l p : mirror v l -> p ∈ cl_ports l -> is_Some (jports l !! p).
Proof. intros M H. apply (m_ports _ _ M). set_solver. Qed.

Lemma latency_callback_mirror v l n d :
  mirror v l -> exists l', jack_client_handle_latency_callback n d l = Some l' /\ mirror v l' /\ same_client l l'.
Proof.
  intros M. unfold jack_client_handle_latency_callback. set (mode := if n =? 0 then _ else _).
  destruct (fold_mirror (fun l p => b ← port_has_flag l (far_side mode) p;
    if (b : bool) then jack_port_recalculate_latency mode l p else Some l) v (cl_ports l) l) as (l1 & E1 & M1 & S1); [|done|].
  { intros l0 p M0 S0 Hp. apply (same_port _ _ _ S0) in Hp. destruct (flag_total v l0 p (far_side mode) M0) as [b ->]; [by apply (mirror_valid v)|].
    cbn [mbind option_bind]. destruct b; [by apply recalculate_mirror|by exists l0]. }
  unfold recalculate_all. rewrite E1. cbn [mbind option_bind]. destruct d; [by exists l1|].
  destruct (negb (latency_cbset l1)); [|eexists; split; [reflexivity|]; split; [by destruct M1|by destruct S1]].
  destruct (join_flagged_total v l1 mode (far_side mode) (cl_ports l1) no_range M1) as [r Er]; [intros q; by apply (mirror_valid v)|].
  unfold join_flagged. rewrite Er. cbn [mbind option_bind].
  destruct (fold_mirror (fun l p => b ← port_has_flag l (near_side mode) p;
    if (b : bool) then jack_port_set_latency_range l p mode (close_range r) else Some l) v (cl_ports l1) l1) as (l2 & E2 & M2 & S2); [|done|].
  { intros l0 p M0 S0 Hp. apply (same_port _ _ _ S0) in Hp. destruct (flag_total v l0 p (near_side mode) M0) as [b ->]; [by apply (mirror_valid v)|].
    cbn [mbind option_bind]. destruct b; [|by exists l0]. apply set_latency_mirror; [done|by apply (mirror_valid v)]. }
  unfold set_flagged. rewrite E2. exists l2. split; [done|]. split; [done|]. by transitivity l1.
Qed.

(** ** All events *)

(** Whether the table gives the port to the client. *)
Definition owned (t : list jack_port_shared_t) (a : Z) : bool :=
  match t !! Z.to_nat a with Some s => client_id (sp s) =? me | None => false end.

Definition view_event (t : list jack_port_shared_t) (ev : jack_event) (v : Z -> list Z) : Z -> list Z :=
  match ev with
  | PortConnected a b => if owned t a then view_connect a b v else v
  | PortDisconnected a b => if owned t a then view_disconnect a b v else v
  | _ => v
  end.

(** The server reports a connection to the client of a port, naming that port
    first; to a client that only listens when no port of it is involved. *)
Definition legal_event (l : lib) (ev : jack_event) : Prop :=
  match ev with
  | PortConnected a b | PortDisconnected a b =>
      0 <= a < zlen (sh_ports l) /\ 0 <= b < zlen (sh_ports l) /\
      (owned (sh_ports l) a = true /\ is_Some (mine l a) \/ owned (sh_ports l) a = false /\ owned (sh_ports l) b = false)
  | AttachPortSegment t => 0 <= t < 2
  | _ => True
  end.

Lemma port_owned_eq v l a : mirror v l -> 0 <= a < zlen (sh_ports l) -> port_owned l a = Some (owned (sh_ports l) a).
Proof.
  intros M Ha. unfold port_owned, owned. destruct (lookup_lt_is_Some_2 (sh_ports l) (Z.to_nat a) ltac:(lia)) as [s ->].
  cbn [mbind option_bind]. by rewrite (m_id _ _ M).
Qed.

Lemma handle_connection_mirror v l a b (yn : bool) :
  mirror v l -> legal_event l (if yn then PortConnected a b else PortDisconnected a b) ->
  exists l', jack_client_handle_port_connection mem_ok a b yn l = Some l' /\
    mirror (view_event (sh_ports l) (if yn then PortConnected a b else PortDisconnected a b) v) l'.
Proof.
  intros M H. unfold jack_client_handle_port_connection.
  assert (Hcall : forall l1 v1, mirror v1 l1 -> mirror v1 (if port_connect_cbset (cl_cbset l1) then add_call (CallPortConnect a b yn) l1 else l1))
    by (intros l1 v1 M1; destruct (port_connect_cbset _); [by destruct M1|done]).
  assert (Hl : 0 <= a < zlen (sh_ports l) /\ 0 <= b < zlen (sh_ports l) /\
    (owned (sh_ports l) a = true /\ is_Some (mine l a) \/ owned (sh_ports l) a = false /\ owned (sh_ports l) b = false)) by (by destruct yn).
  clear H. destruct Hl as (Har & Hb & H). rewrite !(port_owned_eq v) by done. cbn [mbind option_bind]. destruct H as [[Ha [p Hp]]|[Ha Hnb]].
  - rewrite Ha. cbn [orb].
    destruct (mine_own v l M a p Hp) as (j & s & Ho & _). destruct yn; cbn [view_event]; rewrite Ha.
    + destruct (port_connected_after v l a b p j M Hp Ho Hb) as (l' & -> & Ac). cbn [mbind option_bind]. eexists. split; [reflexivity|].
      apply Hcall. by apply (connect_mirror v l l' a b p j).
    + rewrite (port_disconnected_eq v l a b p j M Hp Ho). cbn [mbind option_bind]. eexists. split; [reflexivity|]. apply Hcall.
      destruct (head _) as [o|] eqn:Eh; [by apply (disconnect_mirror v l a b p o j)|].
      assert (Hv : forall c, view_disconnect a b v c = v c).
      { intros c. unfold view_disconnect. destruct (decide (c = a)) as [->|]; [|done]. apply slist_remove_notin. intros Hin.
        pose proof (m_view _ _ M a p j Hp (proj2 Ho)) as Hv. apply head_None in Eh.
        assert (Hi : Some b ∈ jid l <$> jp_connections j) by (rewrite Hv; by apply list_elem_of_fmap_2).
        apply list_elem_of_fmap in Hi as (q & Hq & Hqi). apply (filter_nil_not_elem_of _ _ q Eh); [done|done]. }
      destruct M as [M1 M2 M3 M4 M5 M6 M7 M8 M9 M10 M11 M12 M13 M14 M15 M16 M17]. constructor; try done. intros c q x Hq Hx. rewrite Hv. by apply (M13 c q).
  - rewrite Ha, Hnb. cbn [mbind option_bind orb]. eexists. split; [reflexivity|]. apply Hcall.
    destruct yn; cbn [view_event]; by rewrite Ha.
Qed.

Lemma event_mirror ew ev v l :
  mirror v l -> legal_event l ev -> exists st l', handle_event mem_ok ew ev l = Some (st, l') /\ mirror (view_event (sh_ports l) ev v) l'.
Proof.
  intros M H. assert (Hcall : forall l1 (b : bool) c, mirror v l1 -> mirror v (call_if b c l1)) by (intros l1 [] c M1; [by destruct M1|done]).
  destruct ev; cbn [handle_event view_event].
  - destruct (fold_mirror (fix_port_buffer mem_ok) v (cl_ports l) l) as (l1 & E1 & M1 & _); [|done|].
    { intros l0 p M0 S0 Hp. apply fix_port_buffer_mirror; [done|by apply (same_port _ _ _ S0)]. }
    unfold jack_client_fix_port_buffers. rewrite E1. cbn [mbind option_bind]. destruct (bufsize_cbset _); eexists _, _; (split; [reflexivity|]); [by destruct M1|done].
  - destruct (srate_cbset _); eexists _, _; (split; [reflexivity|]); [by destruct M|done].
  - eexists _, _. split; [reflexivity|]. unfold jack_attach_port_segment. cbn in H. pose proof (m_segs _ _ M) as Hs.
    replace (ptid >=? zlen (segments l)) with false by lia.
    assert (Hr : forall j, in_range l j -> in_range (l <| segments := <[Z.to_nat ptid := ew_attach ew]> (segments l) |>) j).
    { intros j (R1 & R2 & R3). split; [done|]. split; [done|]. cbn. by rewrite length_insert. }
    destruct M as [M1 M2 M3 M4 M5 M6 M7 M8 M9 M10 M11 M12 M13 M14 M15 M16 M17]. constructor; try done; [cbn; by rewrite length_insert|].
    intros p j Ej. by apply Hr, (M4 p).
  - destruct (handle_connection_mirror v l self_id other_id true M H) as (l' & -> & M'). cbn [mbind option_bind]. by eexists _, _.
  - destruct (handle_connection_mirror v l self_id other_id false M H) as (l' & -> & M'). cbn [mbind option_bind]. by eexists _, _.
  - unfold jack_handle_reorder. destruct (negb (ew_open_wait ew)); [eexists _, _; split; [reflexivity|]; by destruct M|].
    destruct (negb (ew_open_next ew)); [eexists _, _; split; [reflexivity|]; by destruct M|].
    eexists _, _. split; [reflexivity|]. destruct (graph_order_cbset _); by destruct M.
  - destruct (fold_mirror (update_type port_id) v (ports_ext l) l) as (l1 & -> & M1 & _); [|done|].
    { intros l0 p M0 S0 Hp. apply update_type_mirror; [done|]. apply (m_ports _ _ M0). rewrite (sc_ext _ _ S0). set_solver. }
    cbn [mbind option_bind]. eexists _, _. split; [reflexivity|]. by apply Hcall.
  - eexists _, _. split; [reflexivity|]. by apply Hcall.
  - destruct (xrun_cbset _); eexists _, _; (split; [reflexivity|]); [by destruct M|done].
  - eexists _, _. split; [reflexivity|]. unfold jack_start_freewheel. destruct (freewheel_cb_cbset l); [by destruct M|done].
  - eexists _, _. split; [reflexivity|]. unfold jack_stop_freewheel. destruct (freewheel_cb_cbset l); [by destruct M|done].
  - eexists _, _. split; [reflexivity|]. by apply Hcall.
  - eexists _, _. split; [reflexivity|]. by apply Hcall.
  - unfold jack_client_handle_session_callback. destruct (negb _); eexists _, _; (split; [reflexivity|]); [done|by destruct M].
  - destruct (latency_callback_mirror v l playback false M) as (l1 & -> & M1 & _). cbn [mbind option_bind]. by eexists _, _.
Qed.

(** ** Runs *)

(** What happens to a client: the server writes to the shared memory and sends
    an event. *)
Record happening := mk_happening {
  hp_ports : list jack_port_shared_t;
  hp_types : list port_type;
  hp_nframes : Z;
  hp_rate : Z;
  hp_world : event_world;
  hp_event : jack_event
}.

Definition happens (h : happening) (l : lib) : lib := server_writes (hp_ports h) (hp_types h) (hp_nframes h) (hp_rate h) l.

Fixpoint run_events (hs : list happening) (l : lib) : option lib :=
  match hs with
  | [] => Some l
  | h :: hs =>
      '(_, _, l) ← jack_client_process_events mem_ok (hp_world h) true (Some (hp_event h)) true (happens h l);
      run_events hs l
  end.

(** The connections after the events. *)
Definition run_view (hs : list happening) (v : Z -> list Z) : Z -> list Z :=
  foldl (fun v h => view_event (hp_ports h) (hp_event h) v) v hs.

(** The server behaves. *)
Fixpoint run_legal (hs : list happening) (v : Z -> list Z) (l : lib) : Prop :=
  match hs with
  | [] => True
  | h :: hs =>
      write_ok v l (hp_ports h) (hp_types h) /\ legal_event (happens h l) (hp_event h) /\
      forall st l', handle_event mem_ok (hp_world h) (hp_event h) (happens h l) = Some (st, l') ->
        run_legal hs (view_event (hp_ports h) (hp_event h) v) l'
  end.

Lemma run_mirror hs : forall v l,
  mirror v l -> run_legal hs v l -> exists l', run_events hs l = Some l' /\ mirror (run_view hs v) l'.
Proof.
  induction hs as [|h hs IH]; intros v l M; [by exists l|]. intros (W & L & Hr). cbn [run_events].
  destruct (event_mirror (hp_world h) (hp_event h) v (happens h l)) as (st & l1 & E & M1); [by apply write_mirror|done|].
  unfold jack_client_process_events. rewrite E. cbn [mbind option_bind]. by apply (IH _ l1 M1), (Hr st).
Qed.

(** ** New ports *)

Definition prepend_port (p : nat) (l : lib) : lib := l <| cl_ports ::= cons p |>.

Definition view_new (a : Z) (v : Z -> list Z) : Z -> list Z := fun x => if decide (x = a) then [] else v x.

(** The structure for a port of the client. *)
Lemma own_port_new v l a :
  mirror v l -> 0 <= a < zlen (sh_ports l) -> owned (sh_ports l) a = true ->
  exists f t l', has_mixdown_function f = true /\ 0 <= t < 2 /\ jack_port_new mem_ok l a = Some (Some (brk l), l') /\ same_client l l' /\
    jports l' = <[brk l := mk_jport t None t (Z.to_nat a) None (Some f) []]> (jports l) /\ pool l' = pool l /\ brk l' = S (brk l) /\
    forall s, sh_ports l !! Z.to_nat a = Some s -> t = ptype_id (sp s).
Proof.
  intros M Ha Hown. destruct (lookup_lt_is_Some_2 (sh_ports l) (Z.to_nat a) ltac:(lia)) as [s Es]. unfold owned in Hown. rewrite Es in Hown.
  destruct (m_table _ _ M _ _ Es) as [_ Ht]. unfold jack_port_new. rewrite Es. cbn [mbind option_bind negb].
  rewrite (m_id _ _ M), Z.eqb_sym, Hown. eexists (default NullFunctions (jack_get_port_functions (ptype_id (sp s)))), (ptype_id (sp s)), _. split; [|split; [done|split; [reflexivity|]]].
  - unfold jack_get_port_functions. assert (H : ptype_id (sp s) = 0 \/ ptype_id (sp s) = 1) by lia. by destruct H as [-> | ->].
  - split_and!; try done; [|congruence]. constructor; try done. by apply like_alter.
Qed.

Lemma add_port_mirror v l a :
  mirror v l -> 0 <= a < zlen (sh_ports l) -> owned (sh_ports l) a = true ->
  exists l', jack_port_new mem_ok l a = Some (Some (brk l), l') /\ mirror (view_new a v) (prepend_port (brk l) l') /\
    mine (prepend_port (brk l) l') a = Some (brk l).
Proof.
  intros M Ha Hown. destruct (own_port_new v l a M Ha Hown) as (f & t & l' & Hf & Ht & E & Sc & Ej & Ep & Eb & Hty). exists l'. split; [done|].
  set (o := brk l) in *. set (k := mk_jport t None t (Z.to_nat a) None (Some f) []) in *. set (l2 := prepend_port o l').
  assert (Hfr : forall q, is_Some (jports l !! q) -> q <> o) by (intros q [x Hx] ->; destruct (m_fresh _ _ M o) as [? _]; [done|congruence]).
  assert (Eo : jports l2 !! o = Some k) by (cbn; by rewrite Ej, lookup_insert_eq).
  assert (Old : forall q, q <> o -> jports l2 !! q = jports l !! q) by (intros; cbn; by rewrite Ej, lookup_insert_ne).
  assert (Jid : forall q, q <> o -> jid l2 q = jid l q) by (intros q Hq; unfold jid; by rewrite Old).
  assert (Jo : jid l2 o = Some a) by (unfold jid; rewrite Eo; cbn; f_equal; lia).
  assert (Hcl : cl_ports l2 = o :: cl_ports l) by (cbn; by rewrite (sc_ports _ _ Sc)).
  assert (Hco : forall q, q ∈ cl_ports l -> q <> o) by (intros q Hq; apply Hfr, (mirror_valid v l q M Hq)).
  assert (Own : forall q x, own l2 q x -> q = o /\ x = k \/ q <> o /\ own l q x).
  { intros q x [H1 H2]. destruct (decide (q = o)) as [->|Hn]; [left; split; congruence|right]. split; [done|]. rewrite Old in H2 by done.
    split; [|done]. rewrite Hcl in H1. set_solver. }
  assert (Ma : mine l2 a = Some o) by (unfold mine; rewrite Hcl, filter_cons_True; done).
  assert (Mc : forall c, c <> a -> mine l2 c = mine l c).
  { intros c Hc. unfold mine. rewrite Hcl, filter_cons_False by congruence. f_equal. clear -Jid Hco.
    induction (cl_ports l) as [|q ps IH]; [done|]. rewrite !filter_cons, IH by (intros; apply Hco; by right).
    pose proof (Jid q (Hco q ltac:(left))) as Hj. destruct (decide (jid l2 q = Some c)), (decide (jid l q = Some c)); congruence. }
  split; [|done]. destruct Sc as [T1 T2 T3 T4 T5 T6]. assert (S2 : same_client l l') by (by constructor).
  assert (Hconn : forall q x y, own l2 q x -> y ∈ jp_connections x -> q <> o /\ own l q x /\ y <> o).
  { intros q x y Hq Hy. destruct (Own q x Hq) as [[-> ->]|[Hn H]]; [by apply not_elem_of_nil in Hy|]. split_and!; [done|done|].
    destruct (m_conns _ _ M q x y H Hy) as (_ & z & Hz & _). apply Hfr. by eexists. }
  assert (Hmix : forall q x b, own l2 q x -> mix_buffer x = Some b -> own l q x) by (intros q x b Hq Hb; by destruct (Own q x Hq) as [[-> ->]|[Hn H]]).
  assert (Hmine : forall c q x, mine l2 c = Some q -> jports l2 !! q = Some x -> c = a /\ q = o /\ x = k \/ c <> a /\ mine l c = Some q /\ jports l !! q = Some x).
  { intros c q x Hq Hx. destruct (decide (c = a)) as [->|Hc]; [left; split_and!; congruence|right]. rewrite Mc in Hq by done. split_and!; [done|done|].
    rewrite <- Old; [done|]. apply Hco, (mine_Some _ c), Hq. }
  constructor; rewrite ?T2, ?T3.
  - eapply table_like_ok; [exact T1|apply M].
  - cbn. rewrite T2. apply M.
  - cbn. rewrite T3. apply M.
  - intros q x Hx. change (in_range l' x). apply (same_in_range l); [done|]. destruct (decide (q = o)) as [->|Hn].
    + assert (x = k) as -> by congruence. unfold in_range. rewrite (m_types _ _ M), (m_segs _ _ M). cbn. lia.
    + rewrite Old in Hx by done. by apply (m_range _ _ M q).
  - intros q Hq. cbn in Hq. rewrite Eb in Hq. destruct (m_fresh _ _ M q ltac:(lia)) as [F1 F2]. rewrite Old by lia. split; [done|]. cbn. by rewrite Ep.
  - intros q Hq. destruct (decide (q = o)) as [->|]; [by eexists|]. rewrite Old by done. apply (m_ports _ _ M).
    rewrite Hcl in Hq. cbn in Hq. rewrite T5 in Hq. set_solver.
  - intros q x Hq. destruct (Own q x Hq) as [[-> ->]|[_ H]]; [by exists f|by apply (m_fptr _ _ M q)].
  - intros q x y Hq Hy. destruct (Hconn q x y Hq Hy) as (Hn & H & Hyo). destruct (m_conns _ _ M q x y H Hy) as (Hnin & z & Hz & Hz').
    split; [rewrite Hcl; cbn; rewrite T5; set_solver|]. exists z. by rewrite Old.
  - intros q q' x x' y Hq Hq' Hy Hy'. destruct (Hconn q x y Hq Hy) as (_ & H & _), (Hconn q' x' y Hq' Hy') as (_ & H' & _).
    by apply (m_sep _ _ M q q' x x' y).
  - intros q x Hq. destruct (Own q x Hq) as [[-> ->]|[_ H]]; [constructor|by apply (m_once _ _ M q)].
  - intros q x b Hq Hb. cbn. rewrite Ep. by apply (m_mix _ _ M q x b); [apply (Hmix q x b)|].
  - intros q q' x x' b Hq Hq' Hb Hb'. by apply (m_mix_sep _ _ M q q' x x' b); [apply (Hmix q x b)|apply (Hmix q' x' b)| |].
  - intros c q x Hq Hx. unfold view_new. destruct (Hmine c q x Hq Hx) as [(-> & -> & ->)|(Hc & Hq' & Hx')]; [by rewrite decide_True|].
    rewrite decide_False by done. rewrite <- (m_view _ _ M c q x Hq' Hx'). apply list_fmap_ext. intros i y Hy. apply Jid.
    apply (Hconn q x y); [split; [by apply (mine_Some _ c)|done]|by eapply list_elem_of_lookup_2].
  - intros c q x s' Hq Hx Hs Hi Hlen. destruct (Hmine c q x Hq Hx) as [(-> & -> & ->)|(Hc & Hq' & Hx')]; [cbn in Hlen; lia|].
    destruct (Forall2_lookup_r _ _ _ _ _ T1 Hs) as (s & Es & _ & _ & Ef & _). rewrite Ef in Hi. by apply (m_mixed _ _ M c q x s).
  - cbn. rewrite T6. apply M.
  - intros c q x y z s' Hq Hx Hy Hz Hs'. destruct (Hconn q x y) as (_ & _ & Hyo); [split; [by apply (mine_Some _ c)|done]|done|].
    destruct (Hmine c q x Hq Hx) as [(-> & -> & ->)|(Hc & Hq' & Hx')]; [by apply not_elem_of_nil in Hy|].
    destruct (Forall2_lookup_r _ _ _ _ _ T1 Hs') as (s & Es & _ & -> & _). rewrite Old in Hz by done. by apply (m_seg _ _ M c q x y z s).
  - intros c q x s' Hq Hx Hs' Hme. destruct (Forall2_lookup_r _ _ _ _ _ T1 Hs') as (s & Es & _ & -> & _ & Ecl). rewrite Ecl in Hme.
    destruct (Hmine c q x Hq Hx) as [(-> & -> & ->)|(Hc & Hq' & Hx')]; [by cbn; rewrite (Hty s)|by apply (m_own _ _ M c q x s)].
Qed.

End client.
End ClientMirror.
