(* ===== verification/ClientServer.v ===== *)
(** * What the server tells a client of a connection

    A client follows the events about connections when they name its own port first, and
    when it only listens it has none of the two ports (ClientMirror.v, [legal_event]).  The
    events the server sends when it makes or breaks a connection (engine.c) are such
    events. *)

From S2P Require Import Prelude Engine Events Graph ClientPorts ClientEvents ClientMirror.

Local Open Scope Z_scope.

Module ClientServer.
Import Events Graph ClientPort ClientEvent ClientMirror.

Section io.
Context (env : environment).

(** The deliveries between two states. *)
Definition delivers (e e' : engine) (P : client_ptr -> jack_event -> Prop) : Prop :=
  exists new, events e' = events e ++ new /\ Forall (fun x => P x.1 x.2) new.

Lemma delivers_refl e P : delivers e e P.
Proof. exists []. by rewrite app_nil_r. Qed.

Lemma delivers_same e e' P : events e' = events e -> delivers e e' P.
Proof. intros E. exists []. by rewrite app_nil_r. Qed.

Lemma delivers_trans e1 e2 e3 P : delivers e1 e2 P -> delivers e2 e3 P -> delivers e1 e3 P.
Proof.
  intros (n1 & E1 & F1) (n2 & E2 & F2). exists (n1 ++ n2). split; [by rewrite E2, E1, app_assoc|by apply Forall_app].
Qed.

Lemma deliver_one c ev e (P : client_ptr -> jack_event -> Prop) : P c ev -> delivers e (jack_deliver_event env c ev e).2 P.
Proof.
  intros Hp. assert (H1 : forall e1, events e1 = events e ++ [(c, ev)] -> delivers e e1 P) by (intros e1 E; exists [(c, ev)]; split; [done|by constructor]).
  unfold jack_deliver_event. destruct (unreachable _ _); [by apply delivers_same|].
  destruct (jack_client_is_internal _); [destruct (internal_handles _ _); [by apply H1|by apply delivers_same]|].
  destruct (active _); [|by apply delivers_same]. cbn zeta. cbn [snd].
  destruct (io_write_ok _); destruct (_ <? _); first [by apply H1|by apply delivers_same].
Qed.

Lemma deliver_where_events cond ev (P : client_ptr -> jack_event -> Prop) e0 l : forall e,
  event_frame e0 e -> (forall c e, c ∈ l -> event_frame e0 e -> cond c (the_client e c) = true -> P c ev) ->
  delivers e (deliver_where env cond ev l e) P.
Proof.
  unfold deliver_where. induction l as [|c l IH]; intros e F H; cbn [foldl]; [apply delivers_refl|].
  set (e1 := if cond c (the_client e c) then _ else _).
  assert (E1 : delivers e e1 P /\ event_frame e0 e1).
  { unfold e1. destruct (cond c (the_client e c)) eqn:Ec; [|split; [apply delivers_refl|done]]. split.
    - apply deliver_one, (H c e); [left|done|done].
    - etrans; [exact F|apply deliver_frame]. }
  destruct E1 as [D F1]. eapply delivers_trans; [exact D|]. apply IH; [done|]. intros d e2 Hd. apply H. by right.
Qed.

Lemma send_events (id s o : Z) (b : bool) (e : engine) (P : client_ptr -> jack_event -> Prop) :
  (forall c, c_id (the_client e c) = id -> P c (if b then PortConnected s o else PortDisconnected s o)) ->
  delivers e (jack_send_connection_notification env id s o b e).2 P.
Proof.
  intros H. unfold jack_send_connection_notification. destruct (jack_client_internal_by_id e id) as [c|] eqn:E; [|apply delivers_refl].
  apply by_id_member in E as [_ Hi]. destruct (active _); [|apply delivers_refl].
  pose proof (deliver_one c (if b then PortConnected s o else PortDisconnected s o) e P (H c Hi)) as D.
  destruct (jack_deliver_event _ _ _ _) as [st e']. by destruct (negb _).
Qed.

(** Who is told what: the client of each port, with its port first; a client of none of the
    two ports that wants to know. *)
Inductive told (sid did sc dc me : Z) (b : bool) : jack_event -> Prop :=
| told_source : me = sc -> told sid did sc dc me b (if b then PortConnected sid did else PortDisconnected sid did)
| told_destination : me = dc -> told sid did sc dc me b (if b then PortConnected did sid else PortDisconnected did sid)
| told_other : me <> sc -> me <> dc -> told sid did sc dc me b (if b then PortConnected sid did else PortDisconnected sid did).

Theorem notify_connection_tells (sid did sc dc : Z) (b : bool) (e : engine) :
  (forall c d, c ∈ clients e -> d ∈ clients e -> c_id (the_client e c) = c_id (the_client e d) -> c = d) ->
  delivers e (notify_connection env sid did sc dc b e) (fun c ev => told sid did sc dc (c_id (the_client e c)) b ev).
Proof.
  intros U. unfold notify_connection. cbn zeta.
  set (e1 := (jack_send_connection_notification env sc sid did b e).2). set (e2 := (jack_send_connection_notification env dc did sid b e1).2).
  assert (F1 : event_frame e e1) by apply send_notification_frame. assert (F2 : event_frame e e2) by (etrans; [exact F1|apply send_notification_frame]).
  assert (Hid : forall e', event_frame e e' -> forall c, c_id (the_client e' c) = c_id (the_client e c)) by (intros e' F c; by apply (event_frame_field c_id)).
  eapply delivers_trans; [apply (send_events sc sid did b e); intros c Hc; by apply told_source|].
  eapply delivers_trans; [apply (send_events dc did sid b e1); intros c Hc; apply told_destination; by rewrite <- (Hid e1)|].
  assert (Ec : clients e2 = clients e) by (destruct F2 as [_ F2]; exact (f_equal clients F2)).
  unfold jack_notify_all_port_interested_clients. apply (deliver_where_events _ _ _ e2); [done|].
  intros c e' Hc F Hcond. rewrite Ec in Hc. apply andb_true_iff in Hcond as [[H1 H2]%andb_true_iff _].
  apply bool_decide_eq_true in H1, H2.
  assert (N : forall i, jack_client_internal_by_id e2 i <> Some c -> c_id (the_client e c) <> i).
  { intros i Hi <-. apply Hi. rewrite <- (Hid e2 F2). apply by_id_unique; [by rewrite Ec|]. intros d Hd. rewrite Ec in Hd. rewrite !(Hid e2 F2). by apply U. }
  apply told_other; by apply N.
Qed.
End io.

(** The table of ports that the client sees says which of the two are its own. *)
Theorem told_legal sid did sc dc me b ev l :
  told sid did sc dc me b ev -> 0 <= sid < zlen (sh_ports l) -> 0 <= did < zlen (sh_ports l) ->
  owned me (sh_ports l) sid = bool_decide (sc = me) -> owned me (sh_ports l) did = bool_decide (dc = me) ->
  (sc = me -> is_Some (mine l sid)) -> (dc = me -> is_Some (mine l did)) ->
  legal_event me l ev.
Proof.
  intros [->| ->|Hs Hd] Hsid Hdid Os Od Ms Md; destruct b; cbn [legal_event]; (split; [done|]); (split; [done|]); rewrite Os, Od.
  1-4: left; rewrite bool_decide_true by done; by split; [|auto].
  1-2: right; rewrite !bool_decide_false by congruence; done.
Qed.
End ClientServer.
