(* ===== verification/ClientView.v ===== *)
(** * What a client can rely on

    The theorems about the ports of a client (libjack/port.c) in the states the
    events of the server lead to (ClientMirror.v): the connections it is told
    of, the buffers it gets and what is mixed in them, monitoring, latencies; and two functions that do
    not do what they are for. *)

From S2P Require Import Prelude JSList Engine Graph Ports ClientPorts ClientEvents ClientMirror.

Local Open Scope Z_scope.

Module ClientView.
Import JSList Ports ClientPort ClientEvent ClientMirror.

(** The name the table has for a port. *)
Definition name_at (l : lib) (b : Z) : string :=
  match sh_ports l !! Z.to_nat b with Some s => p_name (sp s) | None => "" end.

Lemma conn_valid me v l p j q : mirror me v l -> own l p j -> q ∈ jp_connections j -> is_Some (jports l !! q).
Proof. intros M Ho Hq. destruct (m_conns _ _ _ M p j q Ho Hq) as (_ & k & Hk & _). by eexists. Qed.

Lemma conn_names me v l qs bs :
  mirror me v l -> jid l <$> qs = Some <$> bs ->
  mapM (fun q => s ← shared_of l q; Some (p_name (sp s))) qs = Some (name_at l <$> bs).
Proof.
  intros M. revert bs. induction qs as [|q qs IH]; intros [|b bs] E; try done. cbn [fmap list_fmap] in E. injection E as Eq E.
  cbn [mapM]. unfold jid in Eq. apply fmap_Some in Eq as (k & Ek & ->).
  destruct (lookup_lt_is_Some_2 (sh_ports l) (jp_shared k) (shared_bound me v l M q k Ek)) as [s Es].
  assert (Esh : shared_of l q = Some s) by (unfold shared_of; by rewrite Ek). rewrite Esh. cbn [mbind option_bind]. rewrite (IH bs E). cbn [mbind option_bind].
  cbn [fmap list_fmap]. assert (En : name_at l (Z.of_nat (jp_shared k)) = p_name (sp s)) by (unfold name_at; by rewrite Nat2Z.id, Es).
  by rewrite En.
Qed.

(** C24: A client knows its connections.  The events about connections name a port of the
    client first, of which it has the structure, or no port of it (the server sends no
    others: [ClientServer.told_legal]); the server does not give the slot of a port
    in use to another port; and memory lasts.  Then no sequence of events leads the library
    astray, and afterwards the connections it reports for each of its ports are those the events
    told it of, the latest first, with the names the server has for them. *)
Theorem connections_mirrored me v l hs :
  mirror me v l -> run_legal me hs v l ->
  exists l', run_events hs l = Some l' /\ forall a p, mine l' a = Some p ->
    let bs := run_view me hs v a in
    jack_port_connected l' p = Some (zlen bs) /\
    jack_port_get_connections l' p = Some (match bs with [] => None | _ => Some (name_at l' <$> bs) end).
Proof.
  intros M R. destruct (run_mirror me hs v l M R) as (l' & E & M'). exists l'. split; [done|]. intros a p Hp bs.
  destruct (mine_own me _ l' M' a p Hp) as (j & s & Ho & Ej & _). pose proof (m_view _ _ _ M' a p j Hp Ej) as Hv. fold bs in Hv.
  unfold jack_port_connected, jack_port_get_connections. rewrite Ej. cbn [mbind option_bind].
  assert (Hl : zlen (jp_connections j) = zlen bs) by (apply (f_equal length) in Hv; rewrite !length_fmap in Hv; lia).
  split; [by rewrite Hl|]. destruct (jp_connections j) as [|q qs] eqn:Ec, bs as [|b bs']; try done.
  by rewrite (conn_names me _ l' (q :: qs) (b :: bs') M' Hv).
Qed.

(** A port that has no alias answers to the empty name. *)
Theorem empty_name_matches p : alias1 p = "" -> Graph.jack_port_name_equals p "" = true.
Proof. intros E. unfold Graph.jack_port_name_equals. rewrite E. cbn. by rewrite orb_true_r. Qed.

(** ** Buffers *)

(** The address of the buffer of a port: in the segment of its type. *)
Definition buffer_at (l : lib) (b : Z) : option Z :=
  s ← sh_ports l !! Z.to_nat b;
  base ← segments l !! Z.to_nat (ptype_id (sp s));
  base ← base;
  Some (base + p_offset (sp s)).

Lemma output_buffer me v l a p j q b :
  mirror me v l -> mine l a = Some p -> jports l !! p = Some j -> q ∈ jp_connections j -> jid l q = Some b ->
  jack_output_port_buffer l q = buffer_at l b.
Proof.
  intros M Hp Ej Hq Hb. unfold jid in Hb. apply fmap_Some in Hb as (k & Ek & ->).
  destruct (lookup_lt_is_Some_2 (sh_ports l) (jp_shared k) (shared_bound me v l M q k Ek)) as [s Es].
  unfold jack_output_port_buffer, buffer_at, segment_base. rewrite Ek, Nat2Z.id. cbn [mbind option_bind]. rewrite Es. cbn [mbind option_bind].
  by rewrite (m_seg _ _ _ M a p j q k s Hp Ej Hq Ek Es).
Qed.

(** What an input port gets to read. *)
Definition input_buffer (l : lib) (t : port_type) (bs : list Z) (buf : buffer) : Prop :=
  match bs with
  | [] => exists base, segments l !! Z.to_nat (pt_id t) = Some (Some base) /\ buf = At (base + zero_buffer_offset t)
  | [b] => exists x, buffer_at l b = Some x /\ buf = At x
  | _ => exists m xs, buf = Mixed m xs /\ is_Some (pool l !! m) /\ mapM (buffer_at l) bs = Some xs
  end.

Lemma sources_eq me v l a p j qs bs :
  mirror me v l -> mine l a = Some p -> jports l !! p = Some j -> (forall q, q ∈ qs -> q ∈ jp_connections j) -> jid l <$> qs = Some <$> bs ->
  mapM (jack_output_port_buffer l) qs = mapM (buffer_at l) bs.
Proof.
  intros M Hp Ej. revert bs. induction qs as [|q qs IH]; intros [|b bs] Hq E; try done. cbn [fmap list_fmap] in E. injection E as Eq E.
  cbn [mapM]. rewrite (output_buffer me v l a p j q b M Hp Ej (Hq q ltac:(left)) Eq), (IH bs); [done| |done].
  intros x Hx. apply Hq. by right.
Qed.

(** What the mix buffer of an audio port holds: every sample is the sum of those at its
    place, added in the order of the connections. *)
Section mixdown.
Context {sample : Type} (add : sample -> sample -> sample) (samples : Z -> list sample).

Lemma mix_into_spec n : forall dst src,
  (n <= length dst)%nat -> (n <= length src)%nat ->
  mix_into add n dst src = Some (zip_with add (take n dst) (take n src) ++ drop n dst).
Proof.
  induction n as [|n IH]; intros [|d dst] [|s src] Hd Hs; cbn [length] in *; try lia; try done.
  cbn [mix_into take drop zip_with app]. by rewrite IH by lia.
Qed.

Theorem audio_mixdown_correct nframes mix x sources :
  (nframes <= length mix)%nat -> Forall (fun y => (nframes <= length (samples y))%nat) (x :: sources) ->
  exists mix', jack_audio_port_mixdown add samples nframes mix (x :: sources) = Some mix' /\
    length mix' = length mix /\ drop nframes mix' = drop nframes mix /\
    take nframes mix' = foldl (fun acc y => zip_with add acc (take nframes (samples y))) (take nframes (samples x)) sources.
Proof.
  intros Hm H. apply Forall_cons in H as [Hx H]. unfold jack_audio_port_mixdown, copy_into.
  rewrite !(proj2 (Nat.leb_le _ _)) by done. cbn [andb mbind option_bind].
  assert (L : forall acc, length acc = nframes -> exists acc',
    foldl (fun mix y => mix ← mix; mix_into add nframes mix (samples y)) (Some (acc ++ drop nframes mix)) sources = Some (acc' ++ drop nframes mix) /\
    length acc' = nframes /\ acc' = foldl (fun acc y => zip_with add acc (take nframes (samples y))) acc sources).
  { clear Hx. induction H as [|y sources Hy H IH]; intros acc Ha; cbn [foldl]; [by exists acc|]. cbn [mbind option_bind].
    rewrite mix_into_spec by (rewrite ?length_app; lia). rewrite take_app_length', drop_app_length' by done.
    apply IH. rewrite length_zip_with, length_take. lia. }
  destruct (L (take nframes (samples x))) as (acc & E & La & Ea); [rewrite length_take; lia|].
  exists (acc ++ drop nframes mix). split; [exact E|]. rewrite take_app_length', drop_app_length' by done.
  split; [rewrite length_app, length_drop; lia|]. by split.
Qed.
End mixdown.

(** The segments are attached. *)
Definition attached (l : lib) : Prop := forall i, (i < 2)%nat -> exists base, segments l !! i = Some (Some base).

Lemma buffer_at_total me v l b s : mirror me v l -> attached l -> sh_ports l !! Z.to_nat b = Some s -> exists x, buffer_at l b = Some x.
Proof.
  intros M A Es. unfold buffer_at. rewrite Es. cbn [mbind option_bind].
  destruct (m_table _ _ _ M _ _ Es) as [_ Ht]. destruct (A (Z.to_nat (ptype_id (sp s))) ltac:(lia)) as [base ->]. by eexists.
Qed.

(** C25: The buffer an input port works on is the right one: silence when
    nothing is connected, the buffer of the one port it is connected to, or its
    own mix buffer, filled from the buffers of all connected ports. *)
Theorem input_buffer_correct me v l a p s t :
  mirror me v l -> attached l -> mine l a = Some p -> sh_ports l !! Z.to_nat a = Some s -> client_id (sp s) = me ->
  has_flag (flags (sp s)) JackPortIsInput = true -> has_flag (flags (sp s)) JackPortIsOutput = false ->
  sh_types l !! Z.to_nat (ptype_id (sp s)) = Some t -> pt_id t = ptype_id (sp s) ->
  (forall b, b ∈ v a -> exists o, sh_ports l !! Z.to_nat b = Some o /\ has_flag (flags (sp o)) JackPortIsOutput = true) ->
  exists buf, jack_port_get_buffer 2 l p = Some buf /\ input_buffer l t (v a) buf.
Proof.
  intros M A Hp Es Hme Hi Hno Et Hpt Hout. destruct (mine_own me v l M a p Hp) as (j & s' & Ho & Ej & Es' & Eja).
  assert (s' = s) as -> by (rewrite <- Eja, Nat2Z.id in Es; congruence).
  destruct (m_own _ _ _ M a p j s Hp Ej Es' Hme) as [Eseg Ety]. pose proof (m_view _ _ _ M a p j Hp Ej) as Hv.
  cbn [jack_port_get_buffer]. rewrite Ej. cbn [mbind option_bind]. rewrite Es'. cbn [mbind option_bind]. rewrite Hno.
  destruct (m_table _ _ _ M _ _ Es') as [_ Ht].
  destruct (jp_connections j) as [|q [|q2 qs]] eqn:Ec, (v a) as [|b [|b2 bs]] eqn:Ev; try done.
  - rewrite Ety, Et. cbn [mbind option_bind]. unfold in_segment, segment_base. rewrite Eseg, <- Hpt in *.
    destruct (A (Z.to_nat (pt_id t)) ltac:(lia)) as [base Eb]. rewrite Eb. cbn [mbind option_bind]. eexists. split; [done|]. by exists base.
  - cbn [fmap list_fmap] in Hv. injection Hv as Hq. assert (Hqin : q ∈ jp_connections j) by (rewrite Ec; left).
    pose proof (output_buffer me v l a p j q b M Hp Ej Hqin Hq) as Eo.
    destruct (Hout b ltac:(left)) as (o & Eso & Hof). unfold jid in Hq. apply fmap_Some in Hq as (k & Ek & ->).
    destruct (m_conns _ _ _ M p j q Ho Hqin) as (_ & k' & Ek' & _ & Htied). assert (k' = k) as -> by congruence.
    cbn [jack_port_get_buffer]. rewrite Ek. cbn [mbind option_bind]. rewrite Nat2Z.id in Eso. rewrite Eso. cbn [mbind option_bind]. rewrite Hof, Htied.
    destruct (buffer_at_total me v l (Z.of_nat (jp_shared k)) o M A) as [x Ex]; [by rewrite Nat2Z.id|].
    rewrite Ex in Eo. unfold jack_output_port_buffer in Eo. rewrite Ek in Eo. cbn [mbind option_bind] in Eo. rewrite Eso in Eo. cbn [mbind option_bind] in Eo.
    unfold in_segment. destruct (segment_base l k) as [[base|]|]; [|done..]. cbn [mbind option_bind] in Eo |- *. injection Eo as ->.
    eexists. split; [done|]. by exists x.
  - assert (Hm : is_Some (mix_buffer j)) by (apply (m_mixed _ _ _ M a p j s Hp Ej Es' Hi); rewrite Ec; cbn; lia).
    destruct Hm as [m Em]. rewrite Em. destruct (m_fptr _ _ _ M p j Ho) as (f & -> & Hf). cbn [mbind option_bind]. rewrite Hf. cbn [negb].
    destruct (m_mix _ _ _ M p j m Ho Em) as [n En]. rewrite En. cbn [mbind option_bind].
    rewrite (sources_eq me v l a p j (q :: q2 :: qs) (b :: b2 :: bs) M Hp Ej) by (done || (intros x Hx; by rewrite Ec)).
    assert (Hall : exists xs, mapM (buffer_at l) (b :: b2 :: bs) = Some xs).
    { apply mapM_is_Some_2, Forall_forall. intros c Hc. destruct (Hout c Hc) as (o & Eo & _).
      destruct (buffer_at_total me v l c o M A Eo) as [x Ex]. cbn. rewrite Ex. by eexists. }
    destruct Hall as [xs Exs]. rewrite Exs. cbn [mbind option_bind]. eexists. split; [done|]. exists m, xs. by rewrite En.
Qed.

(** ** Ties *)

(** Tying ports has no effect: [jack_port_tie] takes only ports that are
    not outputs, and [jack_port_get_buffer] looks at the tie of outputs only. *)
Theorem tie_without_effect l src dst l' :
  jack_port_tie l src dst = Some (0, l') -> forall fuel p, jack_port_get_buffer fuel l' p = jack_port_get_buffer fuel l p.
Proof.
  unfold jack_port_tie, shared_of. intros H. apply bind_Some in H as (d & Hd & H). apply bind_Some in H as (s & _ & H).
  destruct (negb _); [by injection H|]. destruct (has_flag (flags (sp d)) JackPortIsOutput) eqn:Ef; [by injection H|].
  injection H as <-. apply bind_Some in Hd as (j & Ej & Ed).
  assert (Hb : forall q, jack_output_port_buffer (upd_jport dst (fun j => j <| tied := Some src |>) l) q = jack_output_port_buffer l q).
  { intros q. unfold jack_output_port_buffer. cbn. destruct (decide (dst = q)) as [<-|]; [rewrite lookup_alter_eq, Ej; done|by rewrite lookup_alter_ne]. }
  induction fuel as [|fuel IH]; intros p; [done|]. cbn [jack_port_get_buffer]. cbn [upd_jport].
  destruct (decide (dst = p)) as [<-|Hn].
  - cbn -[mapM]. rewrite lookup_alter_eq, Ej. cbn -[mapM]. rewrite Ed. cbn -[mapM]. rewrite Ef. destruct (jp_connections j) as [|q [|q2 qs]]; [done|apply IH|].
    destruct (mix_buffer j) as [b|]; [|done]. destruct (fptr j) as [f|]; [|done]. cbn -[mapM]. destruct (negb _); [done|].
    destruct (pool l !! b); [|done]. cbn -[mapM]. by rewrite (mapM_ext _ _ _ Hb).
  - cbn -[mapM]. rewrite lookup_alter_ne by done. destruct (jports l !! p) as [x|]; [|done]. cbn -[mapM]. destruct (sh_ports l !! jp_shared x) as [sx|]; [|done]. cbn -[mapM].
    destruct (has_flag (flags (sp sx)) JackPortIsOutput); [destruct (tied x); [apply IH|done]|]. destruct (jp_connections x) as [|q [|q2 qs]]; [done|apply IH|].
    destruct (mix_buffer x) as [b|]; [|done]. destruct (fptr x) as [f|]; [|done]. cbn -[mapM]. destruct (negb _); [done|].
    destruct (pool l !! b); [|done]. cbn -[mapM]. by rewrite (mapM_ext _ _ _ Hb).
Qed.


(** ** Monitoring *)

Lemma request_one_like onoff s : table_like s (request_one onoff s).
Proof. unfold request_one. destruct onoff; [done|]. cbn. unfold table_like. cbn. by destruct (negb _). Qed.

(** A request for monitoring ends, also where the graph has loops: it
    reaches the port itself and, for an input, each port it is connected to
    once, and changes their counters only. *)
Theorem request_monitor_correct me v l a p s onoff :
  mirror me v l -> mine l a = Some p -> sh_ports l !! Z.to_nat a = Some s ->
  jack_port_request_monitor 2 onoff l p =
  Some (foldl (fun l b => upd_shared (Z.to_nat b) (request_one onoff) l) l
          (a :: if has_flag (flags (sp s)) JackPortIsOutput then [] else v a)).
Proof.
  intros M Hp Es. destruct (mine_own me v l M a p Hp) as (j & s' & Ho & Ej & Es' & Eja).
  assert (s' = s) as -> by (rewrite <- Eja, Nat2Z.id in Es; congruence).
  cbn [jack_port_request_monitor]. rewrite Ej. cbn [mbind option_bind]. rewrite Es'. cbn [mbind option_bind foldl].
  replace (Z.to_nat a) with (jp_shared j) by lia. destruct (has_flag _ _); [done|].
  assert (Hgen : forall qs bs l1, same_client l l1 -> jports l1 = jports l -> jid l <$> qs = Some <$> bs -> (forall q, q ∈ qs -> q ∈ jp_connections j) ->
    foldl (fun l q => l ← l; j ← jports l !! q; s ← sh_ports l !! jp_shared j;
       if has_flag (flags (sp s)) JackPortIsOutput then Some (upd_shared (jp_shared j) (request_one onoff) l)
       else foldl (fun l q => l ← l; jack_port_request_monitor 0 onoff l q) (Some (upd_shared (jp_shared j) (request_one onoff) l)) (jp_connections j)) (Some l1) qs =
    Some (foldl (fun l b => upd_shared (Z.to_nat b) (request_one onoff) l) l1 bs)).
  2:{ apply Hgen; [|done|by apply (m_view _ _ _ M a p)|done]. constructor; try done. apply like_alter, request_one_like. }
  induction qs as [|q qs IH]; intros [|b bs] l1 S1 E1 E Hq; try done. cbn [fmap list_fmap] in E. injection E as Eb E.
  destruct (m_conns _ _ _ M p j q Ho (Hq q ltac:(left))) as (_ & k & Ek & Ek0 & _). unfold jid in Eb. rewrite Ek in Eb. injection Eb as <-.
  cbn [foldl mbind option_bind]. rewrite E1, Ek. cbn [mbind option_bind].
  destruct (lookup_lt_is_Some_2 (sh_ports l1) (jp_shared k)) as [sk Esk].
  { rewrite <- (Forall2_length _ _ _ (sc_table _ _ S1)). by apply (shared_bound me v l M q). }
  rewrite Esk. cbn [mbind option_bind]. rewrite Ek0. cbn [foldl]. rewrite Nat2Z.id.
  assert (Hs : same_client l (upd_shared (jp_shared k) (request_one onoff) l1)).
  { transitivity l1; [done|]. constructor; try done. apply like_alter, request_one_like. }
  destruct (has_flag _ _); apply IH; try done; intros; apply Hq; by right.
Qed.

(** ** Latencies *)

Definition joined (rs : list jack_latency_range_t) : jack_latency_range_t := close_range (foldl join_range no_range rs).

Definition range_at (mode : jack_latency_callback_mode_t) (t : list jack_port_shared_t) (b : Z) : jack_latency_range_t :=
  match t !! Z.to_nat b with Some s => get_range mode s | None => no_range end.

Definition flag_at (t : list jack_port_shared_t) (bit : Z) (b : Z) : bool :=
  match t !! Z.to_nat b with Some s => has_flag (flags (sp s)) bit | None => false end.

Section latency.
Context (me : Z) (v : Z -> list Z) (l : lib) (M : mirror me v l) (mode : jack_latency_callback_mode_t).

Lemma latency_range_eq l1 q b :
  jports l1 = jports l -> length (sh_ports l1) = length (sh_ports l) -> jid l q = Some b ->
  jack_port_get_latency_range l1 q mode = Some (range_at mode (sh_ports l1) b) /\
  port_has_flag l1 (far_side mode) q = Some (flag_at (sh_ports l1) (far_side mode) b) /\
  port_has_flag l1 (near_side mode) q = Some (flag_at (sh_ports l1) (near_side mode) b).
Proof.
  intros E1 E2 Hb. unfold jid in Hb. apply fmap_Some in Hb as (k & Ek & ->).
  destruct (lookup_lt_is_Some_2 (sh_ports l1) (jp_shared k)) as [s Es]; [rewrite E2; by apply (shared_bound me v l M q)|].
  unfold jack_port_get_latency_range, port_has_flag, jack_port_flags, shared_of, range_at, flag_at. rewrite E1, Ek. cbn [mbind option_bind].
  by rewrite Nat2Z.id, Es.
Qed.

Lemma join_ports_eq l1 qs bs r :
  jports l1 = jports l -> length (sh_ports l1) = length (sh_ports l) -> jid l <$> qs = Some <$> bs ->
  foldl (fun r p => r ← r; o ← jack_port_get_latency_range l1 p mode; Some (join_range r o)) (Some r) qs =
  Some (foldl join_range r (range_at mode (sh_ports l1) <$> bs)).
Proof.
  intros E1 E2. revert bs r. induction qs as [|q qs IH]; intros [|b bs] r E; try done. cbn [fmap list_fmap] in E. injection E as Eb E.
  cbn [foldl mbind option_bind]. destruct (latency_range_eq l1 q b E1 E2 Eb) as [-> _]. cbn [mbind option_bind]. by rewrite (IH bs _ E).
Qed.

(** The table with the ranges [R] at the places [ds]. *)
Definition ranged (R : Z -> jack_latency_range_t) (ds : list Z) (t t' : list jack_port_shared_t) : Prop :=
  length t' = length t /\ forall i s, t !! i = Some s ->
    t' !! i = Some (if decide (Z.of_nat i ∈ ds) then set_range mode (R (Z.of_nat i)) s else s).

Record lat_frame (l1 : lib) : Prop := {
  lf_jports : jports l1 = jports l;
  lf_ports : cl_ports l1 = cl_ports l;
  lf_cb : latency_cbset l1 = latency_cbset l
}.

Lemma set_range_flags m r s bit : has_flag (flags (sp (set_range m r s))) bit = has_flag (flags (sp s)) bit.
Proof. unfold set_range. destruct m; by destruct (_ && _). Qed.

Lemma get_set_range r s : get_range mode (set_range mode r s) = r.
Proof. unfold set_range. destruct mode; by destruct (_ && _). Qed.

Lemma ranged_flag R ds t t' bit b : ranged R ds t t' -> flag_at t' bit b = flag_at t bit b.
Proof.
  intros [L H]. unfold flag_at. destruct (t !! Z.to_nat b) as [s|] eqn:E.
  - rewrite (H _ _ E). destruct (decide _); [apply set_range_flags|done].
  - apply lookup_ge_None in E. by rewrite (proj2 (lookup_ge_None t' _)) by lia.
Qed.

Lemma ranged_range R ds t t' b :
  0 <= b < zlen t -> ranged R ds t t' -> range_at mode t' b = if decide (b ∈ ds) then R b else range_at mode t b.
Proof.
  intros Hb [L H]. unfold range_at. destruct (lookup_lt_is_Some_2 t (Z.to_nat b) ltac:(lia)) as [s E]. rewrite E, (H _ _ E), Z2Nat.id by lia.
  destruct (decide _); [apply get_set_range|done].
Qed.

Lemma ranged_snoc R ds t t' b :
  0 <= b -> b ∉ ds -> ranged R ds t t' -> ranged R (ds ++ [b]) t (alter (set_range mode (R b)) (Z.to_nat b) t').
Proof.
  intros Hb Hn [L H]. split; [by rewrite length_alter|]. intros i s Es. specialize (H i s Es). destruct (decide (Z.to_nat b = i)) as [<-|Hi].
  - rewrite list_lookup_alter_eq, H. cbn. rewrite Z2Nat.id by lia. rewrite decide_False by done. rewrite decide_True by set_solver. done.
  - rewrite list_lookup_alter_ne, H by done. f_equal. destruct (decide (Z.of_nat i ∈ ds)); [rewrite decide_True by set_solver; done|].
    rewrite decide_False; [done|]. set_unfold. intros [?|?]; [done|]. lia.
Qed.

Context (ids : list Z) (Hids : jid l <$> cl_ports l = Some <$> ids) (Hnd : NoDup ids).

Let t0 := sh_ports l.
Let R (a : Z) : jack_latency_range_t := joined (range_at mode t0 <$> v a).
Let fars : list Z := filter (fun a => flag_at t0 (far_side mode) a = true) ids.
Let nears : list Z := filter (fun a => flag_at t0 (near_side mode) a = true) ids.

(** Ports are connected to ports of the other direction. *)
Context (Hopp : forall a b, a ∈ fars -> b ∈ v a -> 0 <= b < zlen t0 /\ flag_at t0 (far_side mode) b = false).

Lemma ids_mine a p : p ∈ cl_ports l -> jid l p = Some a -> mine l a = Some p.
Proof.
  intros Hp Ha. unfold mine. revert Hids Hnd Hp. clear -Ha. generalize (cl_ports l) ids. intros ps js. revert js.
  induction ps as [|q ps IH]; intros [|i js] E Hn Hp; try done; [by apply not_elem_of_nil in Hp|]. cbn [fmap list_fmap] in E. injection E as Eq E.
  apply NoDup_cons in Hn as [Hi Hn]. apply elem_of_cons in Hp as [->|Hp].
  - by rewrite filter_cons_True.
  - rewrite filter_cons_False; [by apply (IH js)|]. intros Hq. assert (i = a) as -> by congruence. apply Hi.
    assert (H : Some a ∈ Some <$> js) by (rewrite <- E, <- Ha; by apply list_elem_of_fmap_2). apply list_elem_of_fmap in H as (z & [= <-] & ?). done.
Qed.

Lemma ids_nonneg a : a ∈ ids -> 0 <= a < zlen t0.
Proof.
  intros Ha. assert (H : Some a ∈ jid l <$> cl_ports l) by (rewrite Hids; by apply list_elem_of_fmap_2).
  apply list_elem_of_fmap in H as (q & Hq & _). unfold jid in Hq. symmetry in Hq. apply fmap_Some in Hq as (k & Ek & ->).
  pose proof (shared_bound me v l M q k Ek). unfold t0. lia.
Qed.

(** The first pass. *)
Lemma recalculate_loop ps js ds l1 :
  lat_frame l1 -> ranged R ds t0 (sh_ports l1) -> jid l <$> ps = Some <$> js -> NoDup (ds ++ js) ->
  (forall p, p ∈ ps -> p ∈ cl_ports l) -> (forall a, a ∈ js -> a ∈ ids) -> (forall a, a ∈ ds -> a ∈ fars) ->
  exists l2, foldl (fun l p => l ← l; b ← port_has_flag l (far_side mode) p;
      if (b : bool) then jack_port_recalculate_latency mode l p else Some l) (Some l1) ps = Some l2 /\
    lat_frame l2 /\ ranged R (ds ++ filter (fun a => flag_at t0 (far_side mode) a = true) js) t0 (sh_ports l2).
Proof.
  revert js ds l1. induction ps as [|p ps IH]; intros [|a js] ds l1 F Rg E Hn Hps His Hds; try done.
  - exists l1. by rewrite app_nil_r.
  - cbn [fmap list_fmap] in E. injection E as Ea E. destruct F as [F1 F2 F3]. pose proof Rg as [L _].
    destruct (latency_range_eq l1 p a F1 L Ea) as (_ & Ef & _). cbn [foldl mbind option_bind]. rewrite Ef, (ranged_flag R ds t0) by done.
    cbn [mbind option_bind]. assert (Hnn : NoDup (ds ++ js) /\ (a ∉ ds) /\ (a ∉ js)).
    { apply NoDup_app in Hn as (N1 & N2 & N3). apply NoDup_cons in N3 as [N3 N4]. split_and!; [|intros H; apply (N2 a H); left|done].
      apply NoDup_app. split_and!; [done| |done]. intros x Hx Hx'. apply (N2 x Hx). by right. }
    destruct Hnn as (Hn1 & Hn2 & Hn3). destruct (flag_at t0 (far_side mode) a) eqn:Efa.
    + destruct (mine_own me v l M a p) as (j & s & Ho & Ej & _ & Eja); [by apply ids_mine; [apply Hps; left|]|].
      unfold jack_port_recalculate_latency. rewrite F1, Ej. cbn [mbind option_bind]. unfold join_ports.
      rewrite (join_ports_eq l1 (jp_connections j) (v a) no_range F1 L); [|apply (m_view _ _ _ M a p); [by apply ids_mine; [apply Hps; left|]|done]].
      cbn [mbind option_bind]. unfold jack_port_set_latency_range. rewrite F1, Ej. cbn [mbind option_bind].
      assert (Hfa : a ∈ fars) by (apply list_elem_of_filter; split; [done|apply His; left]).
      assert (Er : range_at mode (sh_ports l1) <$> v a = range_at mode t0 <$> v a).
      { apply list_fmap_ext. intros i b Hb. apply list_elem_of_lookup_2 in Hb. destruct (Hopp a b Hfa Hb) as [Hb1 Hb2].
        rewrite (ranged_range R ds t0) by done. rewrite decide_False; [done|]. intros Hd. apply Hds, list_elem_of_filter in Hd as [Hd _]. congruence. }
      rewrite Er. fold (joined (range_at mode t0 <$> v a)). fold (R a). replace (jp_shared j) with (Z.to_nat a) by lia.
      rewrite filter_cons_True by done.
      destruct (IH js (ds ++ [a]) (upd_shared (Z.to_nat a) (set_range mode (R a)) l1)) as (l2 & E2 & F' & Rg').
      * by constructor.
      * apply ranged_snoc; [lia|done|done].
      * done.
      * rewrite <- app_assoc. cbn. apply NoDup_app in Hn1 as (N1 & N2 & N3). done.
      * intros q Hq. apply Hps. by right.
      * intros x Hx. apply His. by right.
      * intros x [Hx|Hx%list_elem_of_singleton]%elem_of_app; [by apply Hds|by subst].
      * exists l2. split; [exact E2|]. split; [done|]. by rewrite <- app_assoc in Rg'.
    + rewrite filter_cons_False by congruence. apply IH; try done; [intros q Hq; apply Hps; by right|intros x Hx; apply His; by right].
Qed.

(** The second pass. *)
Lemma join_flagged_loop l1 ps js r :
  lat_frame l1 -> length (sh_ports l1) = length t0 -> (forall b bit, flag_at (sh_ports l1) bit b = flag_at t0 bit b) ->
  jid l <$> ps = Some <$> js ->
  foldl (fun r p => r ← r; b ← port_has_flag l1 (far_side mode) p;
    if (b : bool) then o ← jack_port_get_latency_range l1 p mode; Some (join_range r o) else Some r) (Some r) ps =
  Some (foldl join_range r (range_at mode (sh_ports l1) <$> filter (fun a => flag_at t0 (far_side mode) a = true) js)).
Proof.
  intros [F1 F2 F3] L Hfl. revert js r. induction ps as [|p ps IH]; intros [|a js] r E; try done. cbn [fmap list_fmap] in E. injection E as Ea E.
  cbn [foldl mbind option_bind]. destruct (latency_range_eq l1 p a F1 L Ea) as (Er & Ef & _). rewrite Ef, Hfl. cbn [mbind option_bind].
  destruct (flag_at t0 (far_side mode) a) eqn:Efa.
  - rewrite filter_cons_True by done. rewrite Er. cbn [mbind option_bind fmap list_fmap foldl]. by apply IH.
  - rewrite filter_cons_False by congruence. by apply IH.
Qed.

(** The third pass. *)
Lemma set_flagged_loop r t1 ps js ds l1 :
  length t1 = length t0 -> (forall b bit, flag_at t1 bit b = flag_at t0 bit b) ->
  lat_frame l1 -> ranged (fun _ => r) ds t1 (sh_ports l1) -> jid l <$> ps = Some <$> js -> NoDup (ds ++ js) -> (forall a, a ∈ js -> 0 <= a) ->
  exists l2, foldl (fun l p => l ← l; b ← port_has_flag l (near_side mode) p;
      if (b : bool) then jack_port_set_latency_range l p mode r else Some l) (Some l1) ps = Some l2 /\
    lat_frame l2 /\ ranged (fun _ => r) (ds ++ filter (fun a => flag_at t0 (near_side mode) a = true) js) t1 (sh_ports l2).
Proof.
  intros L1 Hfl. revert js ds l1. induction ps as [|p ps IH]; intros [|a js] ds l1 F Rg E Hn Hpos; try done.
  - exists l1. by rewrite app_nil_r.
  - cbn [fmap list_fmap] in E. injection E as Ea E. destruct F as [F1 F2 F3]. pose proof Rg as [L _].
    destruct (latency_range_eq l1 p a F1 (eq_trans L L1) Ea) as (_ & _ & Ef). cbn [foldl mbind option_bind].
    rewrite Ef, (ranged_flag (fun _ => r) ds t1), Hfl by done. cbn [mbind option_bind].
    destruct (flag_at t0 (near_side mode) a) eqn:Efa.
    + unfold jid in Ea. apply fmap_Some in Ea as (k & Ek & Ea). unfold jack_port_set_latency_range. rewrite F1, Ek. cbn [mbind option_bind].
      replace (jp_shared k) with (Z.to_nat a) by lia. rewrite filter_cons_True by done.
      destruct (IH js (ds ++ [a]) (upd_shared (Z.to_nat a) (set_range mode r) l1)) as (l2 & E2 & F' & Rg').
      * by constructor.
      * apply (ranged_snoc (fun _ => r)); [lia| |done]. apply NoDup_app in Hn as (_ & N2 & _). intros H. apply (N2 a H). left.
      * done.
      * by rewrite <- app_assoc.
      * intros x Hx. apply Hpos. by right.
      * exists l2. split; [exact E2|]. split; [done|]. by rewrite <- app_assoc in Rg'.
    + rewrite filter_cons_False by congruence. apply IH; try done; [|intros x Hx; apply Hpos; by right].
      apply NoDup_app in Hn as (N1 & N2 & N3). apply NoDup_cons in N3 as [_ N3]. apply NoDup_app. split_and!; [done| |done].
      intros x Hx Hx'. apply (N2 x Hx). by right.
Qed.
End latency.

Lemma latency_callback_spec me v l n ids :
  let mode := if n =? 0 then JackCaptureLatency else JackPlaybackLatency in
  let fars := filter (fun a => flag_at (sh_ports l) (far_side mode) a = true) ids in
  let nears := filter (fun a => flag_at (sh_ports l) (near_side mode) a = true) ids in
  mirror me v l -> latency_cbset l = false -> jid l <$> cl_ports l = Some <$> ids -> NoDup ids ->
  (forall a b, a ∈ fars -> b ∈ v a -> 0 <= b < zlen (sh_ports l) /\ flag_at (sh_ports l) (far_side mode) b = false) ->
  (forall a, a ∈ fars -> a ∉ nears) ->
  exists l', jack_client_handle_latency_callback n false l = Some l' /\
    (forall a, a ∈ fars -> range_at mode (sh_ports l') a = joined (range_at mode (sh_ports l) <$> v a)) /\
    (forall a, a ∈ nears -> range_at mode (sh_ports l') a = joined (range_at mode (sh_ports l') <$> fars)) /\
    (forall b, 0 <= b -> b ∉ ids -> sh_ports l' !! Z.to_nat b = sh_ports l !! Z.to_nat b).
Proof.
  intros mode fars nears M Hcb Hids Hnd Hopp Hex. set (R := fun a => joined (range_at mode (sh_ports l) <$> v a)).
  unfold jack_client_handle_latency_callback. fold mode.
  destruct (recalculate_loop me v l M mode ids Hids Hnd Hopp (cl_ports l) ids [] l) as (l1 & E1 & F1 & Rg1); try done.
  { intros a Ha. by apply not_elem_of_nil in Ha. }
  unfold recalculate_all. rewrite E1. cbn [mbind option_bind]. rewrite (lf_cb _ _ F1), Hcb. cbn [negb].
  cbn [app] in Rg1. fold fars in Rg1. pose proof Rg1 as [L1 _].
  assert (Hfl : forall b bit, flag_at (sh_ports l1) bit b = flag_at (sh_ports l) bit b) by (intros; by apply (ranged_flag mode _ _ _ _ _ _ Rg1)).
  unfold join_flagged. rewrite (lf_ports _ _ F1).
  rewrite (join_flagged_loop me v l M mode l1 (cl_ports l) ids no_range F1 L1 Hfl Hids). fold fars. cbn [mbind option_bind].
  fold (joined (range_at mode (sh_ports l1) <$> fars)). set (r := joined _). unfold set_flagged. rewrite (lf_ports _ _ F1).
  destruct (set_flagged_loop me v l M mode r (sh_ports l1) (cl_ports l) ids [] l1) as (l2 & E2 & F2 & Rg2); try done.
  { intros a Ha. by apply (ids_nonneg me v l M ids Hids). }
  cbn [app] in Rg2. fold nears in Rg2. exists l2. split; [done|].
  assert (Hin : forall a, a ∈ fars \/ a ∈ nears -> 0 <= a < zlen (sh_ports l)).
  { intros a [Ha|Ha]; apply list_elem_of_filter in Ha as [_ Ha]; by apply (ids_nonneg me v l M ids Hids). }
  assert (Hf : forall a, a ∈ fars -> range_at mode (sh_ports l2) a = range_at mode (sh_ports l1) a).
  { intros a Ha. rewrite (ranged_range mode _ _ _ _ _ (eq_rect_r (fun x => 0 <= a < Z.of_nat x) (Hin a (or_introl Ha)) L1) Rg2).
    rewrite decide_False; [done|by apply Hex]. }
  split_and!.
  - intros a Ha. rewrite Hf by done. rewrite (ranged_range mode R fars (sh_ports l)) by (done || apply Hin; by left). by rewrite decide_True.
  - intros a Ha. rewrite (ranged_range mode _ _ _ _ _ (eq_rect_r (fun x => 0 <= a < Z.of_nat x) (Hin a (or_intror Ha)) L1) Rg2).
    rewrite decide_True by done. unfold r. f_equal. apply list_fmap_ext. intros i b Hb. symmetry. apply Hf. by eapply list_elem_of_lookup_2.
  - intros b Hb Hn. destruct (sh_ports l !! Z.to_nat b) as [s|] eqn:Es.
    + assert (E1' : sh_ports l1 !! Z.to_nat b = Some s).
      { rewrite (proj2 Rg1 _ _ Es), Z2Nat.id by done. rewrite decide_False; [done|]. intros H. apply list_elem_of_filter in H as [_ H]. done. }
      rewrite (proj2 Rg2 _ _ E1'), Z2Nat.id by done. rewrite decide_False; [done|]. intros H. apply list_elem_of_filter in H as [_ H]. done.
    + apply lookup_ge_None in Es. apply lookup_ge_None. rewrite (proj1 Rg2), L1. done.
Qed.

(** C26: The default of the latency callback: ports on the side the latency
    comes from take the smallest minimum and the largest maximum of the ports
    they are connected to, all ports on the other side those of the former, and
    no entry is touched for which the client has no structure. *)
Theorem latency_callback_correct me v l n ids :
  let mode := if n =? 0 then JackCaptureLatency else JackPlaybackLatency in
  let fars := filter (fun a => flag_at (sh_ports l) (far_side mode) a = true) ids in
  let nears := filter (fun a => flag_at (sh_ports l) (near_side mode) a = true) ids in
  mirror me v l -> latency_cbset l = false -> jid l <$> cl_ports l = Some <$> ids -> NoDup ids ->
  (forall a b, a ∈ fars -> b ∈ v a -> 0 <= b < zlen (sh_ports l) /\ flag_at (sh_ports l) (far_side mode) b = false) ->
  (forall a, a ∈ fars -> a ∉ nears) ->
  exists l', jack_client_handle_latency_callback n false l = Some l' /\
    (forall a, a ∈ fars -> range_at mode (sh_ports l') a = joined (range_at mode (sh_ports l) <$> v a)) /\
    (forall a, a ∈ nears -> range_at mode (sh_ports l') a = joined (range_at mode (sh_ports l') <$> fars)) /\
    (forall b, 0 <= b -> b ∉ ids -> sh_ports l' !! Z.to_nat b = sh_ports l !! Z.to_nat b).
Proof. intros. by apply (latency_callback_spec me v). Qed.

End ClientView.
