(* ===== verification/ClientRequests.v ===== *)
(** * The requests of a client (libjack/client.c, libjack/port.c)

    What the functions of the library ask the server for, and what they make of
    its answer.  How a request reaches the server is a parameter: through a
    socket for clients with a process of their own ([oop_client_deliver_request]),
    by a call for internal ones. *)

From stdpp Require Import pretty.
From S2P Require Import Prelude JSList Engine Graph Ports Requests ClientPorts ClientEvents ClientMirror ClientView.

Local Open Scope Z_scope.

Module ClientRequest.
Import Ports Requests ClientPort ClientEvent ClientMirror ClientView.

Definition JACK_PORT_TYPE_SIZE : Z := 32.
Definition ERANGE : Z := 34.
Definition ESRCH : Z := 3.

(** The result of a request, the answer of the server and the shared memory as
    it is afterwards. *)
Definition delivery : Type := jack_request -> lib -> Z * answer * lib.

(** [wok], [rok]: the request could be written, the answer read. *)
Definition oop_client_deliver_request (serve : jack_request -> lib -> answer * lib) (wok rok : bool) : delivery :=
  fun req l =>
    let '(an, l) := if wok then serve req l else (status_only (-1), l) in
    if wok && rok then (an_status an, an, l) else (-1, status_only (-1), l).

Section requests.
Context (mem : nat -> bool) (deliver : delivery).

Definition status_of (r : Z * answer * lib) : Z * lib := let '(st, _, l) := r in (st, l).

(** ** Ports *)

(** The port and its structure; [None] inside when it could not be had. *)
Definition jack_port_register (l : lib) (port_name port_type : string) (flags : Z) : option (option nat * lib) :=
  let length := Z.of_nat (String.length (cl_name l)) + 1 + Z.of_nat (String.length port_name) in
  if length >=? JACK_PORT_NAME_SIZE then Some (None, l)
  else
    let req := RegisterPort (mk_request (cl_name l +:+ ":" +:+ port_name) (snprintf JACK_PORT_TYPE_SIZE port_type) (u32 flags) (cl_id l) 0) in
    let '(st, an, l) := deliver req l in
    if negb (st =? 0) then Some (None, l)
    else
      '(p, l) ← jack_port_new mem l (an_id an);
      match p with
      | None => Some (None, l)
      | Some q => Some (p, prepend_port q l)
      end.

Definition jack_port_unregister (l : lib) (p : nat) : option (Z * lib) :=
  s ← shared_of l p;
  Some (status_of (deliver (UnRegisterPort (mk_request "" "" 0 (cl_id l) (p_id (sp s)))) l)).

Definition jack_connect (l : lib) (source_port destination_port : string) : Z * lib :=
  status_of (deliver (ConnectPorts (snprintf JACK_PORT_NAME_SIZE source_port) (snprintf JACK_PORT_NAME_SIZE destination_port)) l).

Definition jack_disconnect (l : lib) (source_port destination_port : string) : Z * lib :=
  status_of (deliver (DisconnectPorts (snprintf JACK_PORT_NAME_SIZE source_port) (snprintf JACK_PORT_NAME_SIZE destination_port)) l).

Definition jack_port_disconnect (l : lib) (p : nat) : option (Z * lib) :=
  j ← jports l !! p;
  match jp_connections j with
  | [] => Some (0, l)
  | _ => s ← shared_of l p; Some (status_of (deliver (DisconnectPort (p_id (sp s))) l))
  end.

(** The ids the server sends are looked up one by one; [None] inside is NULL. *)
Fixpoint connection_names (l : lib) (ids : list Z) : option (list string * lib) :=
  match ids with
  | [] => Some ([], l)
  | id :: ids =>
      '(p, need_free, l) ← jack_port_by_id_int mem l id;
      p ← p;
      s ← shared_of l p;
      let l := if (need_free : bool) then free_port p l else l in
      '(names, l) ← connection_names l ids;
      Some (p_name (sp s) :: names, l)
  end.

Definition jack_port_get_all_connections (l : lib) (p : nat) : option (option (list string) * lib) :=
  s ← shared_of l p;
  let '(_, an, l) := deliver (GetPortConnections (p_id (sp s))) l in
  if negb (an_status an =? 0) || bool_decide (an_ids an = []) then Some (None, l)
  else '(names, l) ← connection_names l (an_ids an); Some (Some names, l).

(** ** The client *)

(** [start]: the thread of the client could be started, when it has to be. *)
Definition jack_activate (l : lib) (external first_active start : bool) : Z * lib :=
  if external && first_active && negb start then (-1, l)
  else status_of (deliver (ActivateClient (cl_id l)) l).

(** [control]: the client is not shut down; [active]: the server runs it. *)
Definition jack_deactivate (l : lib) (control active : bool) : Z * lib :=
  if control then
    if active then status_of (deliver (DeactivateClient (cl_id l)) l) else (0, l)
  else (ESRCH, l).

Definition jack_set_buffer_size (l : lib) (nframes : Z) : Z * lib :=
  if (nframes <? 1) || (nframes >? 16384) then (ERANGE, l) else status_of (deliver (SetBufferSize nframes) l).

Definition jack_set_freewheel (l : lib) (onoff : bool) : Z * lib :=
  status_of (deliver (if onoff then FreeWheel (cl_id l) else StopFreeWheel) l).

Definition jack_recompute_total_latencies (l : lib) : Z * lib := status_of (deliver RecomputeTotalLatencies l).

Definition jack_recompute_total_latency (l : lib) (p : nat) : option (Z * lib) :=
  s ← shared_of l p; Some (status_of (deliver (RecomputeTotalLatency (p_id (sp s))) l)).

(** ** Sessions *)

(** [command_line]: what the event carries; [own_thread]: the reply is given
    within the callback.  The second part of the result is
    [session_cb_immediate_reply]. *)
Definition jack_session_reply (l : lib) (command_line : option string) (own_thread : bool) : Z * bool * lib :=
  let retval := if command_line is Some _ then 0 else -1 in
  if own_thread then (retval, true, l)
  else let '(st, l) := status_of (deliver (SessionReply (cl_id l)) l) in (st, false, l).

Definition jack_client_has_session_callback (l : lib) (client_name : string) : Z * lib :=
  status_of (deliver (SessionHasCallback (String.substring 0 (Z.to_nat JACK_CLIENT_NAME_SIZE) client_name)) l).

(** [uuid]: what [strtol] makes of the string, [None] if it is no number. *)
Definition jack_get_client_name_by_uuid (l : lib) (uuid : option Z) : option string * lib :=
  match uuid with
  | None => (None, l)
  | Some u =>
      let '(st, an, l) := deliver (GetClientByUUID (u32 u)) l in
      if negb (st =? 0) then (None, l) else (Some (an_name an), l)
  end.

Definition jack_client_get_uuid (l : lib) : string := snprintf 16 (pretty (cl_uid l)).

Definition jack_reserve_client_name (l : lib) (name : string) (uuid : option Z) : Z * lib :=
  match uuid with
  | None => (-1, l)
  | Some u => status_of (deliver (ReserveName (snprintf JACK_CLIENT_NAME_SIZE name) (u32 u)) l)
  end.

(** What comes back for a client: its id, then its name, its command and its
    flags, each [None] when the read fails. *)
Record session_reply := mk_sreply {
  sr_uid : option Z;
  sr_name : option string;
  sr_command : option string;
  sr_flags : option Z
}.

(** [jack_session_command_t]. *)
Record session_command := mk_scommand {
  sc_uuid : option string;
  sc_client_name : option string;
  sc_command : option string;
  sc_flags : Z
}.

(** [None]: reads behind the end of the array. *)
Fixpoint jack_session_commands_free (cmds : list session_command) : option unit :=
  match cmds with
  | [] => None
  | c :: cmds => if sc_uuid c is Some _ then jack_session_commands_free cmds else Some tt
  end.

(** The exit for errors. *)
Definition session_out (cmds : list session_command) : option (option (list session_command)) :=
  match cmds with
  | [] => Some None
  | _ => _ ← jack_session_commands_free cmds; Some None
  end.

Fixpoint read_replies (rs : list session_reply) (cmds : list session_command) : option (option (list session_command)) :=
  match rs with
  | [] => session_out cmds
  | r :: rs =>
      match sr_uid r with
      | None => session_out cmds
      | Some uid =>
          if uid =? 0 then Some (Some (cmds ++ [mk_scommand None None None 0]))
          else
            match sr_name r, sr_command r, sr_flags r with
            | Some n, Some c, Some f => read_replies rs (cmds ++ [mk_scommand (Some (snprintf 16 (pretty (s32 uid)))) (Some n) (Some c) f])
            | n, c, _ => session_out (cmds ++ [mk_scommand (Some "") n c 0])
            end
      end
  end.

Definition jack_session_notify (wok : bool) (replies : list session_reply) : option (option (list session_command)) :=
  if wok then read_replies replies [] else session_out [].

End requests.

(** ** The list of ports *)

(** The patterns, [None] for none or an empty one; [regexec] says whether a
    string matches. *)
Definition port_matches (regexec : string -> string -> bool) (l : lib) (port_name_pattern type_name_pattern : option string) (fl : Z)
    (s : jack_port_shared_t) : bool :=
  in_use (sp s) &&
  (if fl =? 0 then true else Z.land (flags (sp s)) fl =? fl) &&
  match port_name_pattern with Some r => regexec r (p_name (sp s)) | None => true end &&
  match type_name_pattern with
  | Some r => match sh_types l !! Z.to_nat (ptype_id (sp s)) with Some t => regexec r (type_name t) | None => false end
  | None => true
  end.

Definition jack_get_ports (regexec : string -> string -> bool) (l : lib) (port_name_pattern type_name_pattern : option string) (fl : Z)
    : option (list string) :=
  match filter (fun s => port_matches regexec l port_name_pattern type_name_pattern fl s = true) (sh_ports l) with
  | [] => None
  | ms => Some ((fun s => p_name (sp s)) <$> ms)
  end.

(** ** New ports *)

(** The request [jack_port_register] makes. *)
Definition register_request (l : lib) (port_name port_type : string) (fl : Z) : jack_request :=
  RegisterPort (mk_request (cl_name l +:+ ":" +:+ port_name) (snprintf JACK_PORT_TYPE_SIZE port_type) (u32 fl) (cl_id l) 0).

(** Registering a port: when the server gives the client a port, the
    client has a structure for it that knows no connections, and what it knows
    of its other ports stays as it was. *)
Theorem register_port_mirrored me v l deliver name type fl an t ty n r :
  mirror me v l -> Z.of_nat (String.length (cl_name l)) + 1 + Z.of_nat (String.length name) < JACK_PORT_NAME_SIZE ->
  deliver (register_request l name type fl) l = (0, an, server_writes t ty n r l) ->
  write_ok me v l t ty -> 0 <= an_id an < zlen t -> owned me t (an_id an) = true ->
  exists p l', jack_port_register mem_ok deliver l name type fl = Some (Some p, l') /\
    mirror me (view_new (an_id an) v) l' /\ mine l' (an_id an) = Some p /\ jack_port_connected l' p = Some 0.
Proof.
  intros M Hlen E W Ha Ho. pose proof (write_mirror me v l t ty n r M W) as M1.
  destruct (add_port_mirror me v _ (an_id an) M1 Ha Ho) as (l' & En & M2 & Hm).
  exists (brk (server_writes t ty n r l)), (prepend_port (brk (server_writes t ty n r l)) l').
  unfold jack_port_register. replace (_ >=? JACK_PORT_NAME_SIZE) with false by lia. fold (register_request l name type fl).
  rewrite E, Z.eqb_refl. cbn [negb]. rewrite En. cbn [mbind option_bind]. split_and!; [done|done|done|].
  destruct (mine_own me _ _ M2 _ _ Hm) as (j & s & _ & Ej & _). pose proof (m_view _ _ _ M2 _ _ _ Hm Ej) as Hv.
  unfold view_new in Hv. rewrite decide_True in Hv by done. unfold jack_port_connected. rewrite Ej. cbn [mbind option_bind].
  by destruct (jp_connections j).
Qed.

(** ** Old ports *)

(** C27: A port that was unregistered is not forgotten: its structure stays in
    the list of the client, and when the place in the table has gone to a port
    of another client, the latency callback of the first one overwrites the
    latency of that port, here with an empty range. *)
Theorem unregistered_port_overwritten me v l deliver a p s an t ty n r m :
  let mode := if m =? 0 then JackCaptureLatency else JackPlaybackLatency in
  mirror me v l -> cl_ports l = [p] -> mine l a = Some p -> latency_cbset l = false ->
  deliver (UnRegisterPort (mk_request "" "" 0 (cl_id l) a)) l = (0, an, server_writes t ty n r l) ->
  write_ok me v l t ty -> t !! Z.to_nat a = Some s -> client_id (sp s) <> me ->
  has_flag (flags (sp s)) (near_side mode) = true -> has_flag (flags (sp s)) (far_side mode) = false ->
  exists l1 l2 s2, jack_port_unregister deliver l p = Some (0, l1) /\ jack_client_handle_latency_callback m false l1 = Some l2 /\
    sh_ports l2 !! Z.to_nat a = Some s2 /\ client_id (sp s2) = client_id (sp s) /\ get_range mode s2 = mk_range 0 0.
Proof.
  intros mode M Hcl Hm Hcb E W Es Hme Hnear Hfar. destruct (mine_own me v l M a p Hm) as (j & s0 & Ho & Ej & Es0 & Eja).
  pose proof (write_mirror me v l t ty n r M W) as M1. set (l1 := server_writes t ty n r l) in *.
  assert (Hsh : shared_of l p = Some s0) by (unfold shared_of; by rewrite Ej).
  destruct (m_table _ _ _ M _ _ Es0) as [Hid _]. rewrite Eja in Hid.
  assert (Eu : jack_port_unregister deliver l p = Some (0, l1)) by (unfold jack_port_unregister; rewrite Hsh; cbn [mbind option_bind]; by rewrite Hid, E).
  assert (Hff : filter (fun x => flag_at (sh_ports l1) (far_side mode) x = true) [a] = []).
  { rewrite filter_cons_False; [done|]. unfold flag_at. change (sh_ports l1) with t. rewrite Es, Hfar. done. }
  assert (Hnf : a ∈ filter (fun x => flag_at (sh_ports l1) (near_side mode) x = true) [a]).
  { rewrite filter_cons_True; [left|]. unfold flag_at. change (sh_ports l1) with t. by rewrite Es. }
  destruct (latency_callback_spec me v l1 m [a]) as (l2 & E2 & _ & Hn & _); fold mode; [done|done| | | |..].
  { change (cl_ports l1) with (cl_ports l). rewrite Hcl. cbn [fmap list_fmap]. change (jid l1 p) with (jid l p). by rewrite (proj2 (mine_Some _ _ _ Hm)). }
  { apply NoDup_singleton. }
  { intros x b Hx. rewrite Hff in Hx. by apply not_elem_of_nil in Hx. }
  { intros x Hx. rewrite Hff in Hx. by apply not_elem_of_nil in Hx. }
  destruct (latency_callback_mirror me v l1 m false M1) as (l2' & E2' & _ & Sc). assert (l2' = l2) as -> by congruence.
  destruct (Forall2_lookup_l _ _ _ _ _ (sc_table _ _ Sc) (Es : sh_ports l1 !! Z.to_nat a = Some s)) as (s2 & Es2 & _ & _ & _ & Ecl).
  exists l1, l2, s2. split_and!; [done|done|done|done|]. fold mode in Hn. specialize (Hn a Hnf). rewrite Hff in Hn.
  unfold range_at in Hn. by rewrite Es2 in Hn.
Qed.

(** ** Sessions *)

Definition good_reply (r : session_reply) : Prop :=
  exists uid, sr_uid r = Some uid /\ uid <> 0 /\ is_Some (sr_name r) /\ is_Some (sr_command r) /\ is_Some (sr_flags r).

Lemma free_overruns cmds : Forall (fun c => is_Some (sc_uuid c)) cmds -> jack_session_commands_free cmds = None.
Proof. induction 1 as [|c cmds [u Hu] _ IH]; cbn; [done|]. by rewrite Hu. Qed.

Lemma out_overruns cmds : cmds <> [] -> Forall (fun c => is_Some (sc_uuid c)) cmds -> session_out cmds = None.
Proof. intros Hn H. unfold session_out. rewrite free_overruns by done. by destruct cmds. Qed.

Lemma read_replies_broken rs cmds tail :
  Forall good_reply rs -> Forall (fun c => is_Some (sc_uuid c)) cmds -> (cmds <> [] \/ rs <> []) ->
  (forall r, head tail = Some r -> sr_uid r = None) -> read_replies (rs ++ tail) cmds = None.
Proof.
  intros Hr. revert cmds. induction Hr as [|r rs (uid & Hu & Hz & [n Hn] & [c Hc] & [f Hf]) _ IH]; intros cmds Hc' Hne Ht.
  - destruct Hne as [Hne|]; [|done]. destruct tail as [|r tail]; cbn; [by apply out_overruns|].
    rewrite (Ht r eq_refl). by apply out_overruns.
  - cbn [app read_replies]. rewrite Hu, (proj2 (Z.eqb_neq _ _)), Hn, Hc, Hf by done. apply IH; [|by left; destruct cmds|done].
    apply Forall_app. split; [done|]. by repeat constructor.
Qed.

(** When the server goes away after it has sent at least one of the
    replies of a session, the library does not give up but reads and frees
    behind the end of the array of replies. *)
Theorem session_notify_overruns rs tail :
  rs <> [] -> Forall good_reply rs -> (forall r, head tail = Some r -> sr_uid r = None) -> jack_session_notify true (rs ++ tail) = None.
Proof. intros Hn Hr Ht. apply read_replies_broken; [done|constructor|by right|done]. Qed.

(** The replies as the caller gets them. *)
Definition command_of (r : session_reply) : session_command :=
  mk_scommand ((fun u => snprintf 16 (pretty (s32 u))) <$> sr_uid r) (sr_name r) (sr_command r) (default 0 (sr_flags r)).

(** A session that ends properly gives all replies, in order. *)
Theorem session_notify_complete rs tail :
  Forall good_reply rs ->
  jack_session_notify true (rs ++ mk_sreply (Some 0) None None None :: tail) = Some (Some ((command_of <$> rs) ++ [mk_scommand None None None 0])).
Proof.
  intros Hr. assert (H : forall cmds, read_replies (rs ++ mk_sreply (Some 0) None None None :: tail) cmds =
    Some (Some (cmds ++ (command_of <$> rs) ++ [mk_scommand None None None 0]))); [|apply (H [])].
  induction Hr as [|r rs (uid & Hu & Hz & [n Hn] & [c Hc] & [f Hf]) _ IH]; intros cmds; cbn [app read_replies]; [done|].
  assert (Ec : command_of r = mk_scommand (Some (snprintf 16 (pretty (s32 uid)))) (Some n) (Some c) f) by (unfold command_of; by rewrite Hu, Hn, Hc, Hf).
  rewrite Hu, (proj2 (Z.eqb_neq _ _)), Hn, Hc, Hf by done. rewrite IH. cbn [fmap list_fmap]. by rewrite Ec, <- app_assoc.
Qed.

End ClientRequest.
