(* ===== verification/ClientRun.v ===== *)
(** * A client at work

    A client with one input port, two outputs of another client: the states at
    which the theorems on clients are applied. *)

From S2P Require Import Prelude JSList Engine Graph Ports Requests ClientPorts ClientEvents ClientMirror ClientView ClientRequests.

Local Open Scope Z_scope.

Module ClientRun.
Import JSList Ports Requests ClientPort ClientEvent ClientMirror ClientView ClientRequest.

Definition a_port (id owner : Z) (name : string) (fl off : Z) (lat : jack_latency_range_t) : jack_port_shared_t :=
  mk_shared (null_port <| p_id := id |> <| in_use := true |> <| p_name := name |> <| client_id := owner |> <| flags := fl |> <| p_offset := off |>)
    lat (mk_range 0 0).

Definition table : list jack_port_shared_t :=
  [a_port 0 3 "synth:left" JackPortIsOutput 4096 (mk_range 64 128); a_port 1 3 "synth:right" JackPortIsOutput 8192 (mk_range 32 256);
   a_port 2 7 "rec:in" JackPortIsInput 0 (mk_range 0 0)].

Definition types : list port_type := [mk_port_type 0 "audio" 1 0 0; mk_port_type 1 "midi" 1 0 0].

Definition no_callbacks : callbacks := mk_callbacks true false false false false false false false false false false false.

(** A client that has just been opened. *)
Definition opened : lib :=
  mk_lib table types 1024 48000 7 70 "rec" no_callbacks false false [] [] ∅ ∅ 0 [Some 100000; Some 900000] None None 0 1 [].

Lemma table_ok_check t : forallb (fun x => (p_id (sp x.2) =? Z.of_nat x.1) && (0 <=? ptype_id (sp x.2)) && (ptype_id (sp x.2) <? 2)) (imap pair t) = true -> table_ok t.
Proof.
  intros H i s Es. rewrite forallb_forall in H. specialize (H (i, s)). cbn [fst snd] in H.
  assert (Hin : In (i, s) (imap pair t)).
  { apply list_elem_of_In, list_elem_of_lookup. exists i. by rewrite list_lookup_imap, Es. }
  specialize (H Hin). lia.
Qed.

Lemma opened_mirror : mirror 7 (fun _ => []) opened.
Proof.
  assert (Nj : forall p j, jports opened !! p <> Some j) by (intros p j H; change ((∅ : gmap nat jack_port_t) !! p = Some j) in H; by rewrite lookup_empty in H).
  assert (No : forall p j, ~ own opened p j) by (intros p j [_ H]; by apply Nj in H).
  constructor; try done; try (intros; exfalso; eapply No; eassumption); try (intros; exfalso; eapply Nj; eassumption).
  - by apply table_ok_check.
  - intros p Hp. by apply not_elem_of_nil in Hp.
Qed.

Lemma write_ok_refl me v l : table_ok (sh_ports l) -> length (sh_types l) = 2%nat -> write_ok me v l (sh_ports l) (sh_types l).
Proof.
  intros T H. split_and!; [done|done|done|]. intros i s s' E E'. assert (s' = s) as -> by congruence. split_and!; auto.
Qed.

(** ** Registering the port *)

Definition grants : delivery := fun _ l => (0, mk_answer 0 2 [] "", server_writes table types 1024 48000 l).

Lemma register_port_mirrored_witness :
  exists p l', jack_port_register mem_ok grants opened "in" "audio" JackPortIsInput = Some (Some p, l') /\
    mirror 7 (view_new 2 (fun _ => [])) l' /\ mine l' 2 = Some p /\ jack_port_connected l' p = Some 0.
Proof.
  apply (register_port_mirrored 7 (fun _ => []) opened grants "in" "audio" JackPortIsInput (mk_answer 0 2 [] "") table types 1024 48000).
  - exact opened_mirror.
  - reflexivity.
  - reflexivity.
  - exact (write_ok_refl 7 _ opened (m_table _ _ _ opened_mirror) eq_refl).
  - split; [discriminate|reflexivity].
  - reflexivity.
Defined.

(** The client with its port. *)
Definition ready : lib := Eval vm_compute in default opened (snd <$> jack_port_register mem_ok grants opened "in" "audio" JackPortIsInput).

Definition nothing : Z -> list Z := view_new 2 (fun _ => []).

Lemma ready_mirror : mirror 7 nothing ready.
Proof.
  destruct (add_port_mirror 7 (fun _ => []) opened 2 opened_mirror) as (l' & E & M & _); [split; [discriminate|reflexivity]|reflexivity|].
  assert (Er : ready = default opened (snd <$> jack_port_register mem_ok grants opened "in" "audio" JackPortIsInput)) by (vm_compute; reflexivity).
  assert (ready = prepend_port (brk opened) l') as ->; [|exact M].
  rewrite Er. unfold jack_port_register. change (grants _ opened) with (0, mk_answer 0 2 [] "", opened).
  change (an_id (mk_answer 0 2 [] "")) with 2. cbn -[jack_port_new]. by rewrite E.
Qed.

(** ** Events *)

Definition calm : event_world := mk_ew true true (Some 0) 0 0 0 false "".

Definition hears (ev : jack_event) : happening := mk_happening (sh_ports ready) types 1024 48000 calm ev.

Definition story : list happening := [hears (PortConnected 2 0); hears (PortConnected 2 1); hears BufferSizeChange].

Lemma ready_table : table_ok (sh_ports ready).
Proof. by apply table_ok_check. Qed.

Lemma same_write v l : sh_ports l = sh_ports ready -> sh_types l = types -> write_ok 7 v l (sh_ports ready) types.
Proof. intros E1 E2. rewrite <- E1, <- E2. apply write_ok_refl; [rewrite E1; apply ready_table|by rewrite E2]. Qed.

Ltac next_event := let st := fresh "st" in let l := fresh "l" in let E := fresh "E" in
  intros st l E; vm_compute in E; injection E as <- <-.

Lemma story_legal : run_legal 7 story nothing ready.
Proof.
  split; [by apply same_write|]. split; [split; [done|split; [done|left; split; [done|by eexists]]]|]. next_event.
  split; [by apply same_write|]. split; [split; [done|split; [done|left; split; [done|by eexists]]]|]. next_event.
  split; [by apply same_write|]. split; [done|]. done.
Qed.

Lemma connections_mirrored_witness :
  exists l', run_events story ready = Some l' /\ forall p, mine l' 2 = Some p ->
    jack_port_connected l' p = Some 2 /\ jack_port_get_connections l' p = Some (Some ["synth:right"; "synth:left"]).
Proof.
  destruct (connections_mirrored 7 nothing ready story ready_mirror story_legal) as (l' & E & H).
  assert (Hl : default ready (run_events story ready) = l') by (by rewrite E).
  exists l'. split; [exact E|]. intros p Hp. destruct (H 2 p Hp) as [H1 H2]. split; [exact H1|]. rewrite H2, <- Hl. reflexivity.
Defined.

(** The client with both connections. *)
Definition connected : lib := Eval vm_compute in default ready (run_events story ready).
Definition both : Z -> list Z := run_view 7 story nothing.

Lemma connected_mirror : mirror 7 both connected.
Proof.
  destruct (run_mirror 7 story nothing ready ready_mirror story_legal) as (l' & E & M).
  assert (Ec : connected = default ready (run_events story ready)) by (vm_compute; reflexivity). rewrite Ec, E. exact M.
Qed.

Lemma connected_attached : attached connected.
Proof. intros [|[|i]] Hi; [by eexists|by eexists|lia]. Qed.

Definition in_port : jack_port_shared_t := Eval vm_compute in default (a_port 0 0 "" 0 0 (mk_range 0 0)) (sh_ports connected !! 2%nat).

Lemma input_buffer_correct_witness :
  exists buf, jack_port_get_buffer 2 connected 0 = Some buf /\ input_buffer connected (mk_port_type 0 "audio" 1 0 0) [1; 0] buf.
Proof.
  apply (input_buffer_correct 7 both connected 2 0 in_port (mk_port_type 0 "audio" 1 0 0) connected_mirror connected_attached);
    try reflexivity.
  change (both 2) with [1; 0]. intros b Hb. apply elem_of_cons in Hb as [->|Hb]; [by eexists|].
  apply list_elem_of_singleton in Hb as ->. by eexists.
Defined.

Lemma request_monitor_correct_witness :
  (fun l => (fun s => monitor_requests (sp s)) <$> sh_ports l) <$> jack_port_request_monitor 2 true connected 0 = Some [1; 1; 1].
Proof. rewrite (request_monitor_correct 7 both connected 2 0 in_port true connected_mirror eq_refl eq_refl). reflexivity. Defined.

Lemma tie_without_effect_witness :
  exists l', jack_port_tie connected 0 0 = Some (0, l') /\ jack_port_get_buffer 2 l' 0 = jack_port_get_buffer 2 connected 0.
Proof. eexists. split; [reflexivity|]. exact (tie_without_effect connected 0 0 _ eq_refl 2 0). Defined.

Lemma latency_callback_correct_witness :
  exists l', jack_client_handle_latency_callback 0 false connected = Some l' /\
    range_at JackCaptureLatency (sh_ports l') 2 = mk_range 32 256.
Proof.
  destruct (latency_callback_correct 7 both connected 0 [2] connected_mirror eq_refl eq_refl (NoDup_singleton 2)) as (l' & E & H & _).
  - intros a b Ha Hb. change (a ∈ [2]) in Ha. apply list_elem_of_singleton in Ha as ->. change (b ∈ [1; 0]) in Hb.
    apply elem_of_cons in Hb as [->|Hb]; [by split|]. apply list_elem_of_singleton in Hb as ->. by split.
  - intros a Ha Hn. change (a ∈ []) in Hn. by apply not_elem_of_nil in Hn.
  - exists l'. split; [exact E|]. refine (eq_trans (H 2 _) _); [|reflexivity]. change (2 ∈ [2]). left.
Defined.

(** ** A port that is gone *)

(** The place of the port has gone to an output of client 9. *)
Definition later : list jack_port_shared_t :=
  [a_port 0 3 "synth:left" JackPortIsOutput 4096 (mk_range 64 128); a_port 1 3 "synth:right" JackPortIsOutput 8192 (mk_range 32 256);
   a_port 2 9 "player:out" JackPortIsOutput 12288 (mk_range 5 7)].

Definition reuses : delivery := fun _ l => (0, mk_answer 0 0 [] "", server_writes later types 1024 48000 l).

Lemma unregistered_port_overwritten_witness :
  exists l1 l2 s2, jack_port_unregister reuses ready 0 = Some (0, l1) /\ jack_client_handle_latency_callback 0 false l1 = Some l2 /\
    sh_ports l2 !! 2%nat = Some s2 /\ client_id (sp s2) = 9 /\ capture_latency s2 = mk_range 0 0.
Proof.
  apply (unregistered_port_overwritten 7 nothing ready reuses 2 0 (a_port 2 9 "player:out" JackPortIsOutput 12288 (mk_range 5 7))
    (mk_answer 0 0 [] "") later types 1024 48000 0 ready_mirror); try reflexivity.
  - split_and!; [by apply table_ok_check|reflexivity|reflexivity|]. intros i s s' E E'.
    assert (Hv : forall a, nothing a = []) by (intros a; unfold nothing, view_new; by destruct (decide _)).
    split; [intros H; by rewrite Hv in H|]. split; [intros [a Ha]; rewrite Hv in Ha; by apply not_elem_of_nil in Ha|].
    destruct i as [|[|[|i]]]; [injection E' as <-; discriminate..|done].
  - discriminate.
Defined.

Lemma session_notify_overruns_witness :
  jack_session_notify true [mk_sreply (Some 5) (Some "synth") (Some "synth -l x") (Some 0)] = None.
Proof.
  apply (session_notify_overruns [mk_sreply (Some 5) (Some "synth") (Some "synth -l x") (Some 0)] []).
  - discriminate.
  - apply Forall_cons_2; [|apply Forall_nil_2]. exists 5. by split_and!.
  - discriminate.
Defined.

End ClientRun.
