(* ===== verification/Jackctl.v ===== *)
(** * The graph of the control interface (server/jackctl.c,
      server/jackcontroller_iface_patchbay.c)

    jackdbus runs the server in its own process and shows its graph on D-Bus.
    The engine tells jackctl.c which ports appear, disappear, are connected and
    disconnected; jackctl.c keeps clients, ports and connections with ids of
    their own and calls the patchbay, which keeps a second set of structures and
    a version, emits signals and answers queries.

    Both sets of structures live on one heap, one map for each type; addresses
    are not used twice, so that a pointer to a freed block stays invalid.
    [None] is undefined behaviour.  [mem k] says whether the [k]-th allocation
    succeeds. *)

From S2P Require Import Prelude JSList Engine Events Graph.

Local Open Scope Z_scope.

Module Jackctl.
Import JSList Graph.

Definition ptr := nat.

(** ** jackctl.c *)

Record jackctl_client := mk_jc {
  jc_id : Z; jc_name : string; jc_pid : Z; jc_ports : list ptr; jc_context : option ptr
}.

#[global] Instance jackctl_client_assignable : Assignable jackctl_client :=
  fun r => mk_jc (jc_id r) (jc_name r) (jc_pid r) (jc_ports r) (jc_context r).

(** The name is what [strdup] returned, possibly NULL. *)
Record jackctl_port := mk_jp {
  jp_id : Z; jp_name : option string; jp_flags : Z; jp_type : Z; jp_client : ptr; jp_context : option ptr
}.

#[global] Instance jackctl_port_assignable : Assignable jackctl_port :=
  fun r => mk_jp (jp_id r) (jp_name r) (jp_flags r) (jp_type r) (jp_client r) (jp_context r).

Record jackctl_connection := mk_jx {
  jx_id : Z; jx_port1 : ptr; jx_port2 : ptr; jx_context : option ptr
}.

#[global] Instance jackctl_connection_assignable : Assignable jackctl_connection :=
  fun r => mk_jx (jx_id r) (jx_port1 r) (jx_port2 r) (jx_context r).

(** ** jackcontroller_iface_patchbay.c *)

Record jack_graph_client := mk_gc { gc_id : Z; gc_name : string; gc_pid : Z; gc_ports : list ptr }.

#[global] Instance jack_graph_client_assignable : Assignable jack_graph_client :=
  fun r => mk_gc (gc_id r) (gc_name r) (gc_pid r) (gc_ports r).

Record jack_graph_port := mk_gp { gp_id : Z; gp_name : string; gp_flags : Z; gp_type : Z; gp_client : ptr }.

Record jack_graph_connection := mk_gx { gx_id : Z; gx_port1 : ptr; gx_port2 : ptr }.

Inductive signal :=
| GraphChanged (version : Z)
| ClientAppeared (version client_id : Z) (name : string)
| ClientDisappeared (version client_id : Z) (name : string)
| PortAppeared (version client_id : Z) (client_name : string) (port_id : Z) (port_name : string) (flags type : Z)
| PortDisappeared (version client_id : Z) (client_name : string) (port_id : Z) (port_name : string)
| PortsConnected (version client1_id : Z) (client1_name : string) (port1_id : Z) (port1_name : string)
    (client2_id : Z) (client2_name : string) (port2_id : Z) (port2_name : string) (connection_id : Z)
| PortsDisconnected (version client1_id : Z) (client1_name : string) (port1_id : Z) (port1_name : string)
    (client2_id : Z) (client2_name : string) (port2_id : Z) (port2_name : string) (connection_id : Z).

(** ** The state

    The part of [jackctl_server] that mirrors the engine, its blocks, the
    [jack_graph] of the patchbay with its blocks, the signals sent so far, and
    the allocator. *)
Record ctl := mk_ctl {
  s_next_client_id : Z; s_next_port_id : Z; s_next_connection_id : Z;
  s_clients : list ptr; s_connections : list ptr;
  jcs : gmap ptr jackctl_client; jps : gmap ptr jackctl_port; jxs : gmap ptr jackctl_connection;
  g_version : Z; g_clients : list ptr; g_ports : list ptr; g_connections : list ptr;
  gcs : gmap ptr jack_graph_client; gps : gmap ptr jack_graph_port; gxs : gmap ptr jack_graph_connection;
  signals : list signal;
  brk : ptr; mallocs : nat
}.

#[global] Instance ctl_assignable : Assignable ctl :=
  fun r => mk_ctl (s_next_client_id r) (s_next_port_id r) (s_next_connection_id r) (s_clients r) (s_connections r)
    (jcs r) (jps r) (jxs r) (g_version r) (g_clients r) (g_ports r) (g_connections r) (gcs r) (gps r) (gxs r)
    (signals r) (brk r) (mallocs r).

(** [jack_controller_patchbay_init] and a server that was just created. *)
Definition jack_controller_patchbay_init : ctl :=
  mk_ctl 1 1 1 [] [] ∅ ∅ ∅ 1 [] [] [] ∅ ∅ ∅ [] 0%nat 0.

Definition emit (g : signal) (s : ctl) : ctl := s <| signals ::= fun l => l ++ [g] |>.

(** [patchbay_ptr->graph.version++] *)
Definition next_version (s : ctl) : ctl := s <| g_version ::= fun v => u64 (v + 1) |>.

Definition jack_controller_patchbay_send_signal_graph_changed (s : ctl) : ctl := emit (GraphChanged (g_version s)) s.

(** [list_del] on an element of the list. *)
Definition list_del (p : ptr) (l : list ptr) : option (list ptr) :=
  if bool_decide (p ∈ l) then Some (slist_remove p l) else None.

(** The first pointer of a list that passes a test; the test may read a block that is gone. *)
Fixpoint find_ptr (test : ptr -> option bool) (l : list ptr) : option (option ptr) :=
  match l with
  | [] => Some None
  | p :: l => match test p with Some b => if b then Some (Some p) else find_ptr test l | None => None end
  end.

(** The name is given by a pointer and a length. *)
Definition jackctl_find_client (name : string) (s : ctl) : option (option ptr) :=
  find_ptr (fun c => b ← jcs s !! c; Some (bool_decide (jc_name b = name))) (s_clients s).

Definition jackctl_get_client_pid (name : string) (s : ctl) : option Z :=
  r ← jackctl_find_client name s;
  match r with
  | None => Some 0
  | Some c => b ← jcs s !! c; Some (jc_pid b)
  end.

Definition jackctl_find_client_port_by_name (c : ptr) (port_name : string) (s : ctl) : option (option ptr) :=
  b ← jcs s !! c;
  find_ptr (fun p => x ← jps s !! p; n ← jp_name x; Some (bool_decide (n = port_name))) (jc_ports b).

Section control.
Context (mem : nat -> bool).

Definition malloc (s : ctl) : option ptr * ctl :=
  (if mem (mallocs s) then Some (brk s) else None, s <| mallocs ::= S |> <| brk ::= S |>).

(** Whether [strdup] or the allocation of a name succeeds. *)
Definition strdup (s : ctl) : bool * ctl := (mem (mallocs s), s <| mallocs ::= S |>).

(** ** The callbacks of the patchbay *)

Definition jack_controller_patchbay_client_appeared_callback (client_id : Z) (client_name : string) (s : ctl) : option (option ptr * ctl) :=
  let '(r, s) := malloc s in
  match r with
  | None => Some (None, s)
  | Some c =>
      let '(ok, s) := strdup s in
      if negb ok then Some (None, s)
      else
        pid ← jackctl_get_client_pid client_name s;
        let s := next_version (s <| gcs ::= insert c (mk_gc client_id client_name pid []) |> <| g_clients ::= fun l => l ++ [c] |>) in
        let s := emit (ClientAppeared (g_version s) client_id client_name) s in
        Some (Some c, jack_controller_patchbay_send_signal_graph_changed s)
  end.

Definition jack_controller_patchbay_client_disappeared_callback (client_id : Z) (client : option ptr) (s : ctl) : option ctl :=
  match client with
  | None => Some s
  | Some c =>
      b ← gcs s !! c;
      l ← list_del c (g_clients s);
      let s := next_version (s <| g_clients := l |>) in
      let s := emit (ClientDisappeared (g_version s) client_id (gc_name b)) s in
      let s := jack_controller_patchbay_send_signal_graph_changed s in
      Some (s <| gcs ::= delete c |>)
  end.

Definition jack_controller_patchbay_port_appeared_callback (client_id : Z) (client : option ptr) (port_id : Z) (port_name : option string)
    (port_flags port_type : Z) (s : ctl) : option (option ptr * ctl) :=
  let '(r, s) := malloc s in
  match r with
  | None => Some (None, s)
  | Some p =>
      name ← port_name;
      let '(ok, s) := strdup s in
      if negb ok then Some (None, s)
      else
        c ← client;
        b ← gcs s !! c;
        let s := s <| gps ::= insert p (mk_gp port_id name port_flags port_type c) |>
                   <| gcs ::= insert c (b <| gc_ports ::= fun l => l ++ [p] |>) |> <| g_ports ::= fun l => l ++ [p] |> in
        let s := next_version s in
        let s := emit (PortAppeared (g_version s) client_id (gc_name b) port_id name port_flags port_type) s in
        Some (Some p, jack_controller_patchbay_send_signal_graph_changed s)
  end.

(** The list the port is in is that of its client; the signal names the client
    whose context is passed. *)
Definition jack_controller_patchbay_port_disappeared_callback (client_id : Z) (client : option ptr) (port_id : Z) (port : option ptr)
    (s : ctl) : option ctl :=
  match port with
  | None => Some s
  | Some p =>
      x ← gps s !! p;
      h ← gcs s !! gp_client x;
      lc ← list_del p (gc_ports h);
      lg ← list_del p (g_ports s);
      let s := s <| gcs ::= insert (gp_client x) (h <| gc_ports := lc |>) |> <| g_ports := lg |> in
      let s := next_version s in
      c ← client;
      b ← gcs s !! c;
      let s := emit (PortDisappeared (g_version s) client_id (gc_name b) port_id (gp_name x)) s in
      let s := jack_controller_patchbay_send_signal_graph_changed s in
      Some (s <| gps ::= delete p |>)
  end.

(** The name of a port of the patchbay and that of its client. *)
Definition port_names (p : option ptr) (s : ctl) : option (string * string) :=
  p ← p; x ← gps s !! p; b ← gcs s !! gp_client x; Some (gc_name b, gp_name x).

Definition jack_controller_patchbay_ports_connected_callback (client1_id port1_id : Z) (port1 : option ptr)
    (client2_id port2_id : Z) (port2 : option ptr) (connection_id : Z) (s : ctl) : option (option ptr * ctl) :=
  let '(r, s) := malloc s in
  match r with
  | None => Some (None, s)
  | Some k =>
      '(c1, n1) ← port_names port1 s;
      '(c2, n2) ← port_names port2 s;
      p1 ← port1; p2 ← port2;
      let s := s <| gxs ::= insert k (mk_gx connection_id p1 p2) |> <| g_connections ::= fun l => l ++ [k] |> in
      let s := next_version s in
      let s := emit (PortsConnected (g_version s) client1_id c1 port1_id n1 client2_id c2 port2_id n2 connection_id) s in
      Some (Some k, jack_controller_patchbay_send_signal_graph_changed s)
  end.

Definition jack_controller_patchbay_ports_disconnected_callback (client1_id port1_id : Z) (port1 : option ptr)
    (client2_id port2_id : Z) (port2 : option ptr) (connection_id : Z) (connection : option ptr) (s : ctl) : option ctl :=
  match connection with
  | None => Some s
  | Some k =>
      _ ← gxs s !! k;
      l ← list_del k (g_connections s);
      let s := next_version (s <| g_connections := l |>) in
      '(c1, n1) ← port_names port1 s;
      '(c2, n2) ← port_names port2 s;
      let s := emit (PortsDisconnected (g_version s) client1_id c1 port1_id n1 client2_id c2 port2_id n2 connection_id) s in
      let s := jack_controller_patchbay_send_signal_graph_changed s in
      Some (s <| gxs ::= delete k |>)
  end.

(** ** The notifications of the engine *)

Definition jackctl_find_or_create_client (name : string) (pid : Z) (s : ctl) : option (option ptr * ctl) :=
  r ← jackctl_find_client name s;
  match r with
  | Some c => Some (Some c, s)
  | None =>
      let '(r, s) := malloc s in
      match r with
      | None => Some (None, s)
      | Some c =>
          let '(ok, s) := strdup s in
          if negb ok then Some (None, s)
          else
            let id := s_next_client_id s in
            let s := s <| s_next_client_id := u64 (id + 1) |> <| jcs ::= insert c (mk_jc id name pid [] None) |>
                       <| s_clients ::= fun l => l ++ [c] |> in
            '(context, s) ← jack_controller_patchbay_client_appeared_callback id name s;
            Some (Some c, s <| jcs ::= alter (fun b => b <| jc_context := context |>) c |>)
      end
  end.

Definition jackctl_remove_port (c : ptr) (port_name : string) (s : ctl) : option (bool * ctl) :=
  r ← jackctl_find_client_port_by_name c port_name s;
  match r with
  | None => Some (false, s)
  | Some p =>
      b ← jcs s !! c;
      x ← jps s !! p;
      let rest := slist_remove p (jc_ports b) in
      let s := s <| jcs ::= insert c (b <| jc_ports := rest |>) |> in
      s ← jack_controller_patchbay_port_disappeared_callback (jc_id b) (jc_context b) (jp_id x) (jp_context x) s;
      let s := s <| jps ::= delete p |> in
      if rest is [] then
        let s := s <| s_clients ::= slist_remove c |> in
        s ← jack_controller_patchbay_client_disappeared_callback (jc_id b) (jc_context b) s;
        Some (true, s <| jcs ::= delete c |>)
      else Some (true, s)
  end.

(** The process of the client a port belongs to; [pids] are the process ids in
    the control blocks of clients. *)
Definition port_pid (pids : client_ptr -> Z) (e : engine) (x : port) : Z :=
  match jack_client_internal_by_id e (client_id x) with
  | Some c => if bool_decide (c_type (the_client e c) = ClientExternal) then pids c else 0
  | None => 0
  end.

(** The part of [jackctl_port_registration_notify] behind the client was found. *)
Definition add_port (c : ptr) (short_name : string) (x : port) (s : ctl) : option ctl :=
  let '(r, s) := malloc s in
  match r with
  | None => Some s
  | Some p =>
      let id := s_next_port_id s in
      let s := s <| s_next_port_id := u64 (id + 1) |> in
      let '(ok, s) := strdup s in
      let name := if ok then Some short_name else None in
      b ← jcs s !! c;
      let s := s <| jps ::= insert p (mk_jp id name (flags x) (ptype_id x) c None) |>
                 <| jcs ::= insert c (b <| jc_ports ::= fun l => l ++ [p] |>) |> in
      '(context, s) ← jack_controller_patchbay_port_appeared_callback (jc_id b) (jc_context b) id name (flags x) (ptype_id x) s;
      Some (s <| jps ::= alter (fun y => y <| jp_context := context |>) p |>)
  end.

Definition jackctl_port_registration_notify (pids : client_ptr -> Z) (e : engine) (port_id : nat) (yn : bool) (s : ctl) : option ctl :=
  let x := the_port e port_id in
  match split_colon (p_name x) with
  | None => Some s
  | Some (client_name, short_name) =>
      if yn then
        '(r, s) ← jackctl_find_or_create_client client_name (port_pid pids e x) s;
        match r with
        | None => Some s
        | Some c => add_port c short_name x s
        end
      else
        r ← jackctl_find_client client_name s;
        match r with
        | None => Some s
        | Some c => '(_, s) ← jackctl_remove_port c short_name s; Some s
        end
  end.

(** The client and the port a full name stands for. *)
Definition known_port (full_name : string) (s : ctl) : option (option (ptr * ptr)) :=
  match split_colon full_name with
  | None => Some None
  | Some (client_name, short_name) =>
      r ← jackctl_find_client client_name s;
      match r with
      | None => Some None
      | Some c => r ← jackctl_find_client_port_by_name c short_name s; Some (option_map (pair c) r)
      end
  end.

Definition same_ports (x : jackctl_connection) (p1 p2 : ptr) : bool :=
  bool_decide (jx_port1 x = p1 /\ jx_port2 x = p2) || bool_decide (jx_port1 x = p2 /\ jx_port2 x = p1).

Definition jackctl_connection_notify (e : engine) (port1_id port2_id : nat) (connected : bool) (s : ctl) : option ctl :=
  let name1 := p_name (the_port e port1_id) in
  let name2 := p_name (the_port e port2_id) in
  match split_colon name1, split_colon name2 with
  | Some _, Some _ =>
      r1 ← known_port name1 s;
      match r1 with
      | None => Some s
      | Some (c1, p1) =>
          r2 ← known_port name2 s;
          match r2 with
          | None => Some s
          | Some (c2, p2) =>
              x1 ← jps s !! p1; b1 ← jcs s !! c1;
              x2 ← jps s !! p2; b2 ← jcs s !! c2;
              if connected then
                let '(r, s) := malloc s in
                match r with
                | None => Some s
                | Some k =>
                    let id := s_next_connection_id s in
                    let s := s <| s_next_connection_id := u64 (id + 1) |> <| jxs ::= insert k (mk_jx id p1 p2 None) |>
                               <| s_connections ::= fun l => l ++ [k] |> in
                    '(context, s) ← jack_controller_patchbay_ports_connected_callback (jc_id b1) (jp_id x1) (jp_context x1)
                                      (jc_id b2) (jp_id x2) (jp_context x2) id s;
                    Some (s <| jxs ::= alter (fun x => x <| jx_context := context |>) k |>)
                end
              else
                r ← find_ptr (fun k => x ← jxs s !! k; Some (same_ports x p1 p2)) (s_connections s);
                match r with
                | None => Some s
                | Some k =>
                    x ← jxs s !! k;
                    let s := s <| s_connections ::= slist_remove k |> in
                    jack_controller_patchbay_ports_disconnected_callback (jc_id b1) (jp_id x1) (jp_context x1)
                      (jc_id b2) (jp_id x2) (jp_context x2) (jx_id x) (jx_context x) s
                end
          end
      end
  | _, _ => Some s
  end.

(** ** Stopping the server

    What [jackctl_server_stop] does after [jack_engine_delete] and the removal of
    files and shared memory: it frees the clients and their ports. *)

Fixpoint stop_ports (c : ptr) (b : jackctl_client) (ports : list ptr) (s : ctl) : option ctl :=
  match ports with
  | [] => Some s
  | p :: ports =>
      x ← jps s !! p;
      s ← jack_controller_patchbay_port_disappeared_callback (jc_id b) (jc_context b) (jp_id x) (jp_context x) s;
      stop_ports c b ports (s <| jps ::= delete p |> <| jcs ::= insert c (b <| jc_ports := ports |>) |>)
  end.

Fixpoint stop_clients (cs : list ptr) (s : ctl) : option ctl :=
  match cs with
  | [] => Some s
  | c :: cs =>
      b ← jcs s !! c;
      s ← stop_ports c b (jc_ports b) s;
      s ← jack_controller_patchbay_client_disappeared_callback (jc_id b) (jc_context b) s;
      stop_clients cs (s <| jcs ::= delete c |> <| s_clients := cs |>)
  end.

Definition jackctl_server_stop (s : ctl) : option ctl := stop_clients (s_clients s) s.

(** What [jackctl_server_start] does to this part of the state. *)
Definition jackctl_server_start (s : ctl) : ctl := s <| s_clients := [] |> <| s_connections := [] |>.
End control.

(** ** Queries

    A reply is the sequence of what is appended to it; [append_ok k] says whether
    the [k]-th call of the D-Bus library succeeds.  An item that is [None] cannot
    be read. *)

Inductive item := Open | Close | U64 (n : Z) | U32 (n : Z) | Str (s : string).

Inductive reply :=
| Method_return (items : list item)
| Invalid_args
| Out_of_memory.

Fixpoint append_items (append_ok : nat -> bool) (k : nat) (items : list (option item)) : option (option (list item)) :=
  match items with
  | [] => Some (Some [])
  | i :: items =>
      i ← i;
      if append_ok k then r ← append_items append_ok (S k) items; Some (option_map (cons i) r)
      else Some None
  end.

Definition port_items (s : ctl) (p : ptr) : list (option item) :=
  let x := gps s !! p in
  [Some Open; U64 ∘ gp_id <$> x; Str ∘ gp_name <$> x; U32 ∘ gp_flags <$> x; U32 ∘ gp_type <$> x; Some Close].

Definition client_items (s : ctl) (c : ptr) : list (option item) :=
  match gcs s !! c with
  | None => [None]
  | Some b => [Some Open; Some (U64 (gc_id b)); Some (Str (gc_name b)); Some Open] ++ concat (map (port_items s) (gc_ports b)) ++ [Some Close; Some Close]
  end.

Definition end_items (s : ctl) (p : ptr) : list (option item) :=
  let x := gps s !! p in
  let b := x ← x; gcs s !! gp_client x in
  [U64 ∘ gc_id <$> b; Str ∘ gc_name <$> b; U64 ∘ gp_id <$> x; Str ∘ gp_name <$> x].

Definition connection_items (s : ctl) (k : ptr) : list (option item) :=
  match gxs s !! k with
  | None => [None]
  | Some x => [Some Open] ++ end_items s (gx_port1 x) ++ end_items s (gx_port2 x) ++ [Some (U64 (gx_id x)); Some Close]
  end.

(** [args] is what [jack_dbus_get_method_args] read. *)
Definition jack_controller_dbus_get_graph (append_ok : nat -> bool) (args : option Z) (s : ctl) : option reply :=
  match args with
  | None => Some Invalid_args
  | Some version =>
      if negb (append_ok 0%nat) then Some Out_of_memory
      else if version >? g_version s then Some Invalid_args
      else
        let news := version <? g_version s in
        r ← append_items append_ok 1
              ([Some (U64 (g_version s)); Some Open] ++ (if news then concat (map (client_items s) (g_clients s)) else []) ++ [Some Close] ++
               [Some Open] ++ (if news then concat (map (connection_items s) (g_connections s)) else []) ++ [Some Close]);
        Some (from_option Method_return Out_of_memory r)
  end.

(** The full names of the ports of a client, with the fields that do not exist as [None]. *)
Definition full_names (s : ctl) (c : ptr) : list (option item) :=
  match gcs s !! c with
  | None => [None]
  | Some b => map (fun p => x ← gps s !! p; Some (Str (gc_name b +:+ ":" +:+ gp_name x))) (gc_ports b)
  end.

Definition jack_controller_dbus_get_all_ports (append_ok : nat -> bool) (s : ctl) : option reply :=
  if negb (append_ok 0%nat) then Some Out_of_memory
  else
    r ← append_items append_ok 1 ([Some Open] ++ concat (map (full_names s) (g_clients s)) ++ [Some Close]);
    Some (from_option Method_return Out_of_memory r).

Definition jack_controller_patchbay_find_client_by_id (id : Z) (s : ctl) : option (option ptr) :=
  find_ptr (fun c => b ← gcs s !! c; Some (gc_id b =? id)) (g_clients s).

(** The answer to a query for a process id, [None] for an unknown client. *)
Definition jack_controller_dbus_get_client_pid (client_id : Z) (s : ctl) : option (option Z) :=
  r ← jack_controller_patchbay_find_client_by_id client_id s;
  match r with
  | None => Some None
  | Some c => b ← gcs s !! c; Some (Some (gc_pid b))
  end.
(** ** Requests

    A call on D-Bus ends in [jack_port_do_connect] or [jack_port_do_disconnect] of the
    engine, which then notifies as above. *)

Definition full_name_size : nat := Z.to_nat (JACK_CLIENT_NAME_SIZE + JACK_PORT_NAME_SIZE).

(** The name if it fits into a buffer of [full_name_size]. *)
Definition compose_name (client_name port_name : string) : option string :=
  if bool_decide (full_name_size < String.length client_name + String.length port_name + 2)%nat then None
  else Some (client_name +:+ ":" +:+ port_name).

Definition jackctl_compose_port_fullname (c : jackctl_client) (p : jackctl_port) : option (option string) :=
  n ← jp_name p; Some (compose_name (jc_name c) n).

(** The loops of [jackctl_find_client_ports_by_id] over the ports of a list of
    clients: [found] and the two buffers are carried along, [inr] is a return. *)
Fixpoint find_in_ports (c : jackctl_client) (id1 id2 : Z) (ps : list ptr) (found : Z) (buf : option string * option string) (s : ctl)
    : option (Z * (option string * option string) + option (option string * option string)) :=
  match ps with
  | [] => Some (inl (found, buf))
  | p :: ps =>
      x ← jps s !! p;
      let hit1 := jp_id x =? id1 in
      let hit2 := jp_id x =? id2 in
      if hit1 || hit2 then
        n ← jackctl_compose_port_fullname c x;
        match n with
        | None => Some (inr None)
        | Some n =>
            let buf := (if hit1 then Some n else buf.1, if hit2 then Some n else buf.2) in
            let found := found + Z.b2z hit1 + Z.b2z hit2 in
            if found =? 2 then Some (inr (Some buf)) else find_in_ports c id1 id2 ps found buf s
        end
      else find_in_ports c id1 id2 ps found buf s
  end.

Fixpoint find_in_clients (id1 id2 : Z) (cs : list ptr) (found : Z) (buf : option string * option string) (s : ctl)
    : option (option (option string * option string)) :=
  match cs with
  | [] => Some None
  | c :: cs =>
      b ← jcs s !! c;
      r ← find_in_ports b id1 id2 (jc_ports b) found buf s;
      match r with
      | inr r => Some r
      | inl (found, buf) => find_in_clients id1 id2 cs found buf s
      end
  end.

(** The two names, or [None] for [false]; a buffer that was not written is [None]. *)
Definition jackctl_find_client_ports_by_id (id1 id2 : Z) (s : ctl) : option (option (option string * option string)) :=
  find_in_clients id1 id2 (s_clients s) 0 (None, None) s.

Section requests.
Context (env : environment).

Definition succeeded (r : Z * engine) : bool * engine := (r.1 =? 0, r.2).

Definition jackctl_connect_ports_by_name (c1 p1 c2 p2 : string) (e : engine) : bool * engine :=
  match compose_name c1 p1, compose_name c2 p2 with
  | Some n1, Some n2 => succeeded (jack_port_do_connect env n1 n2 e)
  | _, _ => (false, e)
  end.

Definition jackctl_disconnect_ports_by_name (c1 p1 c2 p2 : string) (e : engine) : bool * engine :=
  match compose_name c1 p1, compose_name c2 p2 with
  | Some n1, Some n2 => succeeded (jack_port_do_disconnect env n1 n2 e)
  | _, _ => (false, e)
  end.

Definition jackctl_connect_ports_by_id (id1 id2 : Z) (s : ctl) (e : engine) : option (bool * engine) :=
  r ← jackctl_find_client_ports_by_id id1 id2 s;
  match r with
  | None => Some (false, e)
  | Some (b1, b2) => n1 ← b1; n2 ← b2; Some (succeeded (jack_port_do_connect env n1 n2 e))
  end.

Definition jackctl_disconnect_ports_by_id (id1 id2 : Z) (s : ctl) (e : engine) : option (bool * engine) :=
  r ← jackctl_find_client_ports_by_id id1 id2 s;
  match r with
  | None => Some (false, e)
  | Some (b1, b2) => n1 ← b1; n2 ← b2; Some (succeeded (jack_port_do_disconnect env n1 n2 e))
  end.

Definition jackctl_disconnect_ports_by_connection_id (connection_id : Z) : bool := false.

(** The methods on D-Bus; [args] is what could be read of the arguments. *)
Inductive answer := Returned | Server_not_running | Bad_arguments | Generic_error.

Definition answer_of (r : bool * engine) : answer * engine := (if r.1 then Returned else Generic_error, r.2).

Definition jack_controller_dbus_connect_ports_by_name (started : bool) (args : option (string * string * string * string)) (e : engine) : answer * engine :=
  if negb started then (Server_not_running, e)
  else match args with
       | None => (Bad_arguments, e)
       | Some (c1, p1, c2, p2) => answer_of (jackctl_connect_ports_by_name c1 p1 c2 p2 e)
       end.

Definition jack_controller_dbus_disconnect_ports_by_name (started : bool) (args : option (string * string * string * string)) (e : engine) : answer * engine :=
  if negb started then (Server_not_running, e)
  else match args with
       | None => (Bad_arguments, e)
       | Some (c1, p1, c2, p2) => answer_of (jackctl_disconnect_ports_by_name c1 p1 c2 p2 e)
       end.

Definition jack_controller_dbus_connect_ports_by_id (started : bool) (args : option (Z * Z)) (s : ctl) (e : engine) : option (answer * engine) :=
  if negb started then Some (Server_not_running, e)
  else match args with
       | None => Some (Bad_arguments, e)
       | Some (id1, id2) => r ← jackctl_connect_ports_by_id id1 id2 s e; Some (answer_of r)
       end.

Definition jack_controller_dbus_disconnect_ports_by_id (started : bool) (args : option (Z * Z)) (s : ctl) (e : engine) : option (answer * engine) :=
  if negb started then Some (Server_not_running, e)
  else match args with
       | None => Some (Bad_arguments, e)
       | Some (id1, id2) => r ← jackctl_disconnect_ports_by_id id1 id2 s e; Some (answer_of r)
       end.

Definition jack_controller_dbus_disconnect_ports_by_connection_id (started : bool) (args : option Z) : answer :=
  if negb started then Server_not_running
  else match args with
       | None => Bad_arguments
       | Some id => if jackctl_disconnect_ports_by_connection_id id then Returned else Generic_error
       end.
End requests.
End Jackctl.
