(* ===== verification/Patchbay.v ===== *)
(** * The patchbay shows the graph of the server

    [rep s G X] says that the structures of jackctl.c and of the patchbay in [s]
    are two copies of one graph: clients [G] with their ports, connections [X],
    annotated with the addresses of the blocks.  Every notification of the
    engine keeps it ([tracked]), which is how the answers on D-Bus are shown to be those
    of the server. *)

From S2P Require Import Prelude JSList Engine Events Graph Jackctl.

Local Open Scope Z_scope.

Module Patchbay.
Import JSList Jackctl.

(** ** The graph with the addresses of its blocks *)

Record gport := mk_q {
  q_ptr : ptr; q_ctx : ptr; q_id : Z; q_name : string; q_flags : Z; q_type : Z;
  q_client : ptr; q_cctx : ptr; q_cid : Z; q_cname : string
}.

#[global] Instance gport_eq_dec : EqDecision gport.
Proof. solve_decision. Defined.

Record gclient := mk_k { k_ptr : ptr; k_ctx : ptr; k_id : Z; k_name : string; k_pid : Z; k_ports : list gport }.

#[global] Instance gclient_assignable : Assignable gclient :=
  fun r => mk_k (k_ptr r) (k_ctx r) (k_id r) (k_name r) (k_pid r) (k_ports r).

Record gconn := mk_x { x_ptr : ptr; x_ctx : ptr; x_id : Z; x_1 : gport; x_2 : gport }.

Definition all_ports (G : list gclient) : list gport := concat (map k_ports G).

Definition jc_of (k : gclient) : jackctl_client := mk_jc (k_id k) (k_name k) (k_pid k) (map q_ptr (k_ports k)) (Some (k_ctx k)).
Definition gc_of (k : gclient) : jack_graph_client := mk_gc (k_id k) (k_name k) (k_pid k) (map q_ctx (k_ports k)).
Definition jp_of (q : gport) : jackctl_port := mk_jp (q_id q) (Some (q_name q)) (q_flags q) (q_type q) (q_client q) (Some (q_ctx q)).
Definition gp_of (q : gport) : jack_graph_port := mk_gp (q_id q) (q_name q) (q_flags q) (q_type q) (q_cctx q).
Definition jx_of (x : gconn) : jackctl_connection := mk_jx (x_id x) (q_ptr (x_1 x)) (q_ptr (x_2 x)) (Some (x_ctx x)).
Definition gx_of (x : gconn) : jack_graph_connection := mk_gx (x_id x) (q_ctx (x_1 x)) (q_ctx (x_2 x)).

(** The port knows its client. *)
Definition owned (k : gclient) (q : gport) : Prop :=
  q_client q = k_ptr k /\ q_cctx q = k_ctx k /\ q_cid q = k_id k /\ q_cname q = k_name k.

(** Distinct values below a bound. *)
Definition distinct_below {A} (f : A -> nat) (n : nat) (l : list A) : Prop := NoDup (map f l) /\ Forall (fun x => (f x < n)%nat) l.
Definition ids_below {A} (f : A -> Z) (n : Z) (l : list A) : Prop := NoDup (map f l) /\ Forall (fun x => 0 <= f x < n) l.

Record rep (s : ctl) (G : list gclient) (X : list gconn) : Prop := mk_rep {
  rep_clients : s_clients s = map k_ptr G;
  rep_gclients : g_clients s = map k_ctx G;
  rep_client : forall k, k ∈ G -> jcs s !! k_ptr k = Some (jc_of k) /\ gcs s !! k_ctx k = Some (gc_of k);
  rep_owned : forall k q, k ∈ G -> q ∈ k_ports k -> owned k q;
  rep_port : forall q, q ∈ all_ports G -> jps s !! q_ptr q = Some (jp_of q) /\ gps s !! q_ctx q = Some (gp_of q);
  rep_gports : g_ports s ≡ₚ map q_ctx (all_ports G);
  rep_conns : s_connections s = map x_ptr X;
  rep_gconns : g_connections s = map x_ctx X;
  rep_conn : forall x, x ∈ X -> jxs s !! x_ptr x = Some (jx_of x) /\ gxs s !! x_ctx x = Some (gx_of x);
  rep_ends : forall x, x ∈ X -> x_1 x ∈ all_ports G /\ x_2 x ∈ all_ports G;
  rep_names : NoDup (map k_name G);
  rep_kptr : distinct_below k_ptr (brk s) G;
  rep_kctx : distinct_below k_ctx (brk s) G;
  rep_qptr : distinct_below q_ptr (brk s) (all_ports G);
  rep_qctx : distinct_below q_ctx (brk s) (all_ports G);
  rep_xptr : distinct_below x_ptr (brk s) X;
  rep_xctx : distinct_below x_ctx (brk s) X;
  rep_kid : ids_below k_id (s_next_client_id s) G;
  rep_qid : ids_below q_id (s_next_port_id s) (all_ports G);
  rep_xid : ids_below x_id (s_next_connection_id s) X;
  rep_next : 0 <= s_next_client_id s /\ 0 <= s_next_port_id s /\ 0 <= s_next_connection_id s
}.

(** ** Lists *)

Lemma distinct_below_app {A} (f : A -> nat) n l x :
  distinct_below f n l -> (f x = n)%nat -> distinct_below f (S n) (l ++ [x]).
Proof.
  intros [N B] E. split.
  - rewrite map_app. apply NoDup_app. split; [done|]. split; [|apply NoDup_singleton].
    intros y Hy [->|[]%elem_of_nil]%elem_of_cons. apply list_elem_of_fmap in Hy as (z & E' & Hz).
    rewrite Forall_forall in B. specialize (B z Hz). lia.
  - apply Forall_app. split; [eapply Forall_impl; [exact B|cbn; lia]|]. constructor; [lia|constructor].
Qed.

Lemma ids_below_app {A} (f : A -> Z) n l x : ids_below f n l -> 0 <= n -> f x = n -> ids_below f (n + 1) (l ++ [x]).
Proof.
  intros [N B] Hn E. split.
  - rewrite map_app. apply NoDup_app. split; [done|]. split; [|apply NoDup_singleton].
    intros y Hy [->|[]%elem_of_nil]%elem_of_cons. apply list_elem_of_fmap in Hy as (z & E' & Hz).
    rewrite Forall_forall in B. specialize (B z Hz). lia.
  - apply Forall_app. split; [eapply Forall_impl; [exact B|cbn; lia]|]. constructor; [lia|constructor].
Qed.

Lemma next_id_below {A} (f : A -> Z) n l x : ids_below f n l -> 0 <= n -> n < 2 ^ 64 - 1 -> f x = n -> ids_below f (u64 (f x + 1)) (l ++ [x]).
Proof. intros H Hn Hb E. rewrite E, (wrap_small 64) by lia. by apply ids_below_app. Qed.

Lemma distinct_below_le {A} (f : A -> nat) n m l : distinct_below f n l -> (n <= m)%nat -> distinct_below f m l.
Proof. intros [N B] H. split; [done|]. eapply Forall_impl; [exact B|]. cbn. lia. Qed.

Lemma distinct_below_perm {A} (f : A -> nat) n l k : l ≡ₚ k -> distinct_below f n l -> distinct_below f n k.
Proof. intros P [N B]. split; [by rewrite <- P|by rewrite <- P]. Qed.

Lemma ids_below_perm {A} (f : A -> Z) n l k : l ≡ₚ k -> ids_below f n l -> ids_below f n k.
Proof. intros P [N B]. split; [by rewrite <- P|by rewrite <- P]. Qed.

Lemma distinct_below_sub {A} (f : A -> nat) n l k : k `sublist_of` l -> distinct_below f n l -> distinct_below f n k.
Proof.
  intros S [N B]. split; [by apply (sublist_NoDup _ _ N), fmap_sublist|].
  rewrite Forall_forall in *. intros x Hx. apply B. by apply (elem_of_sublist k l).
Qed.

Lemma ids_below_sub {A} (f : A -> Z) n l k : k `sublist_of` l -> ids_below f n l -> ids_below f n k.
Proof.
  intros S [N B]. split; [by apply (sublist_NoDup _ _ N), fmap_sublist|].
  rewrite Forall_forall in *. intros x Hx. apply B. by apply (elem_of_sublist k l).
Qed.

(** A value of an element that is out of the list is different. *)
Lemma distinct_ne {A} (f : A -> nat) n l1 x l2 y :
  distinct_below f n (l1 ++ x :: l2) -> y ∈ l1 ++ l2 -> f y <> f x.
Proof.
  intros [N _] Hy E. rewrite <- Permutation_middle in N. apply NoDup_cons in N as [N _]. apply N.
  rewrite <- E. by apply list_elem_of_fmap_2.
Qed.

Lemma find_ptr_map {A} (f : A -> ptr) (P : A -> Prop) `{!forall x, Decision (P x)} test l :
  (forall x, x ∈ l -> test (f x) = Some (bool_decide (P x))) -> find_ptr test (map f l) = Some (option_map f (head (filter P l))).
Proof.
  induction l as [|x l IH]; intros HT; [done|]. cbn [map find_ptr]. rewrite HT by left. case_bool_decide as E.
  - by rewrite filter_cons_True.
  - rewrite filter_cons_False by done. apply IH. intros y Hy. apply HT. by right.
Qed.

Lemma head_filter_split {A} (P : A -> Prop) `{!forall x, Decision (P x)} l x :
  head (filter P l) = Some x -> P x /\ exists l1 l2, l = l1 ++ x :: l2 /\ Forall (fun y => ~ P y) l1.
Proof.
  induction l as [|y l IH]; [done|]. destruct (decide (P y)) as [E|E].
  - rewrite filter_cons_True by done. intros [= ->]. split; [done|]. exists [], l. split; [done|constructor].
  - rewrite filter_cons_False by done. intros HT. destruct (IH HT) as (Px & l1 & l2 & -> & F). split; [done|].
    exists (y :: l1), l2. split; [done|by constructor].
Qed.

Lemma head_filter_at {A} (P : A -> Prop) `{!forall x, Decision (P x)} l1 x l2 :
  Forall (fun y => ~ P y) l1 -> P x -> head (filter P (l1 ++ x :: l2)) = Some x.
Proof.
  intros F Px. induction F as [|y l1 Py _ IH]; cbn [app]; [by rewrite filter_cons_True|by rewrite filter_cons_False].
Qed.

Lemma head_filter_none {A} (P : A -> Prop) `{!forall x, Decision (P x)} l :
  head (filter P l) = None -> Forall (fun y => ~ P y) l.
Proof.
  induction l as [|y l IH]; [constructor|]. destruct (decide (P y)) as [E|E].
  - by rewrite filter_cons_True.
  - rewrite filter_cons_False by done. intros HT. constructor; [done|by apply IH].
Qed.

Lemma slist_remove_at (l1 l2 : list ptr) p : p ∉ l1 -> slist_remove p (l1 ++ p :: l2) = l1 ++ l2.
Proof.
  induction l1 as [|x l1 IH]; intros H; cbn [slist_remove app]; [by rewrite decide_True|].
  rewrite decide_False by (intros ->; apply H; left). f_equal. apply IH. intros ?. apply H. by right.
Qed.

Lemma slist_remove_map {A} (f : A -> ptr) n l1 x l2 :
  distinct_below f n (l1 ++ x :: l2) -> slist_remove (f x) (map f (l1 ++ x :: l2)) = map f (l1 ++ l2).
Proof.
  intros H. rewrite !map_app. apply slist_remove_at. intros (y & E & Hy)%list_elem_of_fmap.
  apply (distinct_ne f n l1 x l2 y H); [set_solver|done].
Qed.

Lemma list_del_map {A} (f : A -> ptr) n l1 x l2 :
  distinct_below f n (l1 ++ x :: l2) -> list_del (f x) (map f (l1 ++ x :: l2)) = Some (map f (l1 ++ l2)).
Proof.
  intros H. unfold list_del. rewrite bool_decide_true by (apply list_elem_of_fmap_2; set_solver).
  by rewrite (slist_remove_map f n).
Qed.

Lemma all_ports_app G1 G2 : all_ports (G1 ++ G2) = all_ports G1 ++ all_ports G2.
Proof. unfold all_ports. by rewrite map_app, concat_app. Qed.

Lemma all_ports_cons k G : all_ports (k :: G) = k_ports k ++ all_ports G.
Proof. done. Qed.

Lemma elem_all_ports q G : q ∈ all_ports G <-> exists k, k ∈ G /\ q ∈ k_ports k.
Proof.
  unfold all_ports. rewrite list_elem_of_In, in_concat. setoid_rewrite in_map_iff. split.
  - intros (l & (k & <- & Hk) & Hq). exists k. by rewrite !list_elem_of_In.
  - intros (k & Hk & Hq). exists (k_ports k). rewrite <- !list_elem_of_In. split; [exists k; by rewrite <- list_elem_of_In|done].
Qed.
(** ** Looking up *)

Definition named (name : string) (G : list gclient) : option gclient := head (filter (fun k => k_name k = name) G).
Definition port_named (name : string) (k : gclient) : option gport := head (filter (fun q => q_name q = name) (k_ports k)).

Lemma find_client_gen s G name :
  s_clients s = map k_ptr G -> (forall k, k ∈ G -> exists b, jcs s !! k_ptr k = Some b /\ jc_name b = k_name k) ->
  jackctl_find_client name s = Some (option_map k_ptr (named name G)).
Proof.
  intros E H. unfold jackctl_find_client. rewrite E. apply find_ptr_map. intros k Hk.
  destruct (H k Hk) as (b & -> & N). cbn. by rewrite N.
Qed.

Lemma find_client_rep s G X name : rep s G X -> jackctl_find_client name s = Some (option_map k_ptr (named name G)).
Proof.
  intros R. apply find_client_gen; [apply R|]. intros k Hk. destruct (rep_client _ _ _ R k Hk) as [E _]. eauto.
Qed.

Lemma find_port_rep s G X k name :
  rep s G X -> k ∈ G -> jackctl_find_client_port_by_name (k_ptr k) name s = Some (option_map q_ptr (port_named name k)).
Proof.
  intros R Hk. unfold jackctl_find_client_port_by_name. destruct (rep_client _ _ _ R k Hk) as [-> _]. cbn.
  apply find_ptr_map. intros q Hq. destruct (rep_port _ _ _ R q) as [-> _]; [apply elem_all_ports; eauto|done].
Qed.

Lemma named_split name G k : named name G = Some k -> k_name k = name /\ exists G1 G2, G = G1 ++ k :: G2.
Proof. intros H. destruct (head_filter_split _ _ _ H) as (N & G1 & G2 & -> & _). eauto. Qed.

Lemma named_none name G : named name G = None -> name ∉ map k_name G.
Proof.
  intros H%head_filter_none (k & -> & Hk)%list_elem_of_fmap. rewrite Forall_forall in H. by apply (H k).
Qed.

Lemma named_snoc name G k : named name G = None -> k_name k = name -> named name (G ++ [k]) = Some k.
Proof.
  unfold named. intros N E. rewrite filter_app, filter_cons_True by done. by destruct (filter _ G).
Qed.

(** ** Steps of the graph *)

Lemma malloc_ok mem (Hmem : forall k, mem k = true) s : malloc mem s = (Some (brk s), s <| mallocs ::= S |> <| brk ::= S |>).
Proof. unfold malloc. by rewrite Hmem. Qed.

Lemma strdup_ok mem (Hmem : forall k, mem k = true) s : strdup mem s = (true, s <| mallocs ::= S |>).
Proof. unfold strdup. by rewrite Hmem. Qed.

Definition fresh_client (s : ctl) (name : string) (pid : Z) : gclient := mk_k (brk s) (S (brk s)) (s_next_client_id s) name pid [].

Lemma below_ne {A} (f : A -> nat) n l x : distinct_below f n l -> x ∈ l -> (f x < n)%nat.
Proof. intros [_ B] Hx. rewrite Forall_forall in B. by apply B. Qed.

Lemma find_or_create_old mem s G X name pid k :
  rep s G X -> named name G = Some k -> jackctl_find_or_create_client mem name pid s = Some (Some (k_ptr k), s).
Proof. intros R N. unfold jackctl_find_or_create_client. rewrite (find_client_rep s G X name R), N. done. Qed.

(** What a step leaves alone. *)
Definition clients_kept (s s' : ctl) : Prop :=
  s_clients s' = s_clients s /\ g_clients s' = g_clients s /\ jcs s' = jcs s /\ gcs s' = gcs s /\ s_next_client_id s' = s_next_client_id s.
Definition ports_kept (s s' : ctl) : Prop :=
  jps s' = jps s /\ gps s' = gps s /\ g_ports s' = g_ports s /\ s_next_port_id s' = s_next_port_id s.
Definition conns_kept (s s' : ctl) : Prop :=
  s_connections s' = s_connections s /\ g_connections s' = g_connections s /\ jxs s' = jxs s /\ gxs s' = gxs s /\
  s_next_connection_id s' = s_next_connection_id s.

(** A new client with both its blocks. *)
Record client_added (k : gclient) (s s' : ctl) : Prop := mk_client_added {
  ka_clients : s_clients s' = s_clients s ++ [k_ptr k];
  ka_gclients : g_clients s' = g_clients s ++ [k_ctx k];
  ka_jcs : jcs s' = <[k_ptr k := jc_of k]> (jcs s);
  ka_gcs : gcs s' = <[k_ctx k := gc_of k]> (gcs s);
  ka_ports : ports_kept s s';
  ka_conns : conns_kept s s';
  ka_next : s_next_client_id s' = u64 (k_id k + 1);
  ka_brk : brk s' = S (S (brk s));
  ka_version : g_version s' = u64 (g_version s + 1)
}.

Lemma find_or_create_new mem (Hmem : forall k, mem k = true) s G X name pid :
  rep s G X -> named name G = None ->
  exists s', jackctl_find_or_create_client mem name pid s = Some (Some (brk s), s') /\ client_added (fresh_client s name pid) s s'.
Proof.
  intros R N. unfold jackctl_find_or_create_client. rewrite (find_client_rep s G X name R), N. cbn [mbind option_bind option_map].
  rewrite (malloc_ok mem Hmem), (strdup_ok mem Hmem). cbn [negb].
  unfold jack_controller_patchbay_client_appeared_callback. rewrite (malloc_ok mem Hmem), (strdup_ok mem Hmem). cbn [negb].
  unfold jackctl_get_client_pid. erewrite (find_client_gen _ (G ++ [fresh_client s name pid])).
  - rewrite named_snoc by done. cbn [option_map mbind option_bind]. cbn -[u64]. rewrite lookup_insert_eq. cbn -[u64].
    eexists. split; [reflexivity|]. split; try reflexivity; [|repeat split..]. cbn. by rewrite alter_insert_eq.
  - cbn. by rewrite (rep_clients _ _ _ R), map_app.
  - cbn. intros k [Hk| ->%list_elem_of_singleton]%elem_of_app; [|eexists; by rewrite lookup_insert_eq].
    rewrite lookup_insert_ne by (pose proof (below_ne _ _ _ _ (rep_kptr _ _ _ R) Hk); lia).
    destruct (rep_client _ _ _ R k Hk) as [-> _]. by eexists.
Qed.

Lemma client_added_rep s s' G X name pid :
  rep s G X -> named name G = None -> s_next_client_id s < 2 ^ 64 - 1 ->
  client_added (fresh_client s name pid) s s' -> rep s' (G ++ [fresh_client s name pid]) X.
Proof.
  intros R N Hid [A1 A2 A3 A4 (P1 & P2 & P3 & P4) (C1 & C2 & C3 & C4 & C5) A5 A6 A7].
  set (k := fresh_client s name pid) in *.
  assert (Hap : all_ports (G ++ [k]) = all_ports G) by (by rewrite all_ports_app, app_nil_r).
  split; rewrite ?Hap, ?A1, ?A2, ?A6, ?C1, ?C2, ?P3, ?P4, ?C5.
  - by rewrite (rep_clients _ _ _ R), map_app.
  - by rewrite (rep_gclients _ _ _ R), map_app.
  - rewrite A3, A4. intros x [Hx| ->%list_elem_of_singleton]%elem_of_app; [|by rewrite !lookup_insert_eq].
    rewrite !lookup_insert_ne; [by apply R|pose proof (below_ne _ _ _ _ (rep_kctx _ _ _ R) Hx); cbn; lia|
      pose proof (below_ne _ _ _ _ (rep_kptr _ _ _ R) Hx); cbn; lia].
  - intros x q [Hx| ->%list_elem_of_singleton]%elem_of_app; [by apply R|]. by intros ?%elem_of_nil.
  - rewrite P1, P2. apply R.
  - apply R.
  - apply R.
  - apply R.
  - rewrite C3, C4. apply R.
  - apply R.
  - rewrite map_app. apply NoDup_app. split; [apply R|]. split; [|apply NoDup_singleton].
    intros n Hn ->%list_elem_of_singleton. by apply (named_none name G).
  - eapply distinct_below_le; [by apply distinct_below_app; [apply R|]|lia].
  - apply distinct_below_app; [eapply distinct_below_le; [apply R|lia]|done].
  - eapply distinct_below_le; [apply R|lia].
  - eapply distinct_below_le; [apply R|lia].
  - eapply distinct_below_le; [apply R|lia].
  - eapply distinct_below_le; [apply R|lia].
  - rewrite A5. apply (next_id_below k_id (s_next_client_id s)); [apply R|apply R|done|done].
  - apply R.
  - apply R.
  - rewrite A5. pose proof (rep_next _ _ _ R). split; [apply wrap_bound; lia|tauto].
Qed.
(** The ports of one client change. *)
Lemma ports_changed_rep s s' G1 k G2 X L :
  let k' := k <| k_ports := L |> in
  rep s (G1 ++ k :: G2) X ->
  s_clients s' = s_clients s -> g_clients s' = g_clients s -> s_next_client_id s' = s_next_client_id s ->
  jcs s' = <[k_ptr k := jc_of k']> (jcs s) -> gcs s' = <[k_ctx k := gc_of k']> (gcs s) -> conns_kept s s' ->
  (forall q, q ∈ L -> owned k q) ->
  (forall q, q ∈ all_ports (G1 ++ k' :: G2) -> jps s' !! q_ptr q = Some (jp_of q) /\ gps s' !! q_ctx q = Some (gp_of q)) ->
  g_ports s' ≡ₚ map q_ctx (all_ports (G1 ++ k' :: G2)) ->
  (forall x, x ∈ X -> x_1 x ∈ all_ports (G1 ++ k' :: G2) /\ x_2 x ∈ all_ports (G1 ++ k' :: G2)) ->
  distinct_below q_ptr (brk s') (all_ports (G1 ++ k' :: G2)) -> distinct_below q_ctx (brk s') (all_ports (G1 ++ k' :: G2)) ->
  ids_below q_id (s_next_port_id s') (all_ports (G1 ++ k' :: G2)) -> 0 <= s_next_port_id s' -> (brk s <= brk s')%nat ->
  rep s' (G1 ++ k' :: G2) X.
Proof.
  intros k' R A1 A2 A3 A4 A5 (C1 & C2 & C3 & C4 & C5) Ho Hp Hg He Q1 Q2 Q3 Q4 Hb.
  assert (Hmap : forall B (f : gclient -> B), f k' = f k -> map f (G1 ++ k' :: G2) = map f (G1 ++ k :: G2))
    by (intros B f E; rewrite !map_app; cbn [map]; by rewrite E).
  assert (Hall : forall P : gclient -> Prop, P k' -> (forall x, x ∈ G1 ++ G2 -> P x) -> forall x, x ∈ G1 ++ k' :: G2 -> P x)
    by (intros P Pk Px x Hx; rewrite <- Permutation_middle in Hx; apply elem_of_cons in Hx as [->|Hx]; auto).
  assert (Hold : forall x, x ∈ G1 ++ G2 -> x ∈ G1 ++ k :: G2) by (intros x Hx; rewrite <- Permutation_middle; by right).
  split; rewrite ?A1, ?A2, ?A3, ?C1, ?C2, ?C5, ?(Hmap _ k_ptr), ?(Hmap _ k_ctx), ?(Hmap _ k_name) by done;
    try done; try apply R.
  - rewrite A4, A5. apply Hall; [by rewrite !lookup_insert_eq|]. intros x Hx.
    rewrite !lookup_insert_ne by (apply not_eq_sym; eapply distinct_ne; [apply R|done]). apply R, Hold, Hx.
  - intros x q Hx. revert x Hx q. apply (Hall (fun x => forall q, q ∈ k_ports x -> owned x q)); [exact Ho|].
    intros x Hx q. apply R, Hold, Hx.
  - rewrite C3, C4. apply R.
  - split; [rewrite (Hmap nat k_ptr) by done; apply R|]. apply Forall_forall. intros x Hx. eapply Nat.lt_le_trans; [|exact Hb].
    revert x Hx. apply Hall; [|intros x Hx%Hold; revert Hx; revert x; apply Forall_forall, R].
    apply (below_ne k_ptr _ _ k (rep_kptr _ _ _ R)). set_solver.
  - split; [rewrite (Hmap nat k_ctx) by done; apply R|]. apply Forall_forall. intros x Hx. eapply Nat.lt_le_trans; [|exact Hb].
    revert x Hx. apply Hall; [|intros x Hx%Hold; revert Hx; revert x; apply Forall_forall, R].
    apply (below_ne k_ctx _ _ k (rep_kctx _ _ _ R)). set_solver.
  - eapply distinct_below_le; [apply R|done].
  - eapply distinct_below_le; [apply R|done].
  - pose proof (rep_kid _ _ _ R) as [N B]. split; [by rewrite (Hmap _ k_id)|]. rewrite Forall_forall in *.
    apply Hall; [apply (B k); set_solver|]. intros x Hx. apply B, Hold, Hx.
  - pose proof (rep_next _ _ _ R). tauto.
Qed.
Definition new_port (s : ctl) (k : gclient) (name : string) (x : port) : gport :=
  mk_q (brk s) (S (brk s)) (s_next_port_id s) name (flags x) (ptype_id x) (k_ptr k) (k_ctx k) (k_id k) (k_name k).

Definition with_port (k : gclient) (q : gport) : gclient := k <| k_ports := k_ports k ++ [q] |>.

Lemma all_ports_with G1 k q G2 : all_ports (G1 ++ with_port k q :: G2) ≡ₚ all_ports (G1 ++ k :: G2) ++ [q].
Proof.
  rewrite !all_ports_app, !all_ports_cons. cbn [k_ports with_port assign]. cbn. rewrite <- !app_assoc.
  f_equiv. f_equiv. apply Permutation_app_comm.
Qed.

Definition counters (s : ctl) : Z * Z * Z := (s_next_client_id s, s_next_port_id s, s_next_connection_id s).

Lemma wrap_twice v : u64 (u64 (v + 1) + 1) = u64 (v + 2).
Proof. unfold wrap. rewrite Zplus_mod_idemp_l. f_equal. lia. Qed.

Lemma add_port_tracked mem (Hmem : forall k, mem k = true) s G1 k G2 X name x :
  rep s (G1 ++ k :: G2) X -> s_next_port_id s < 2 ^ 64 - 1 ->
  exists s', add_port mem (k_ptr k) name x s = Some s' /\ rep s' (G1 ++ with_port k (new_port s k name x) :: G2) X /\
    g_version s' = u64 (g_version s + 1) /\
    counters s' = (s_next_client_id s, s_next_port_id s + 1, s_next_connection_id s).
Proof.
  intros R Hid. destruct (rep_client _ _ _ R k) as [Ej Eg]; [set_solver|].
  unfold add_port. rewrite (malloc_ok mem Hmem). cbv zeta. rewrite (strdup_ok mem Hmem). cbn -[u64 malloc strdup]. rewrite Ej. cbn -[u64 malloc strdup].
  unfold jack_controller_patchbay_port_appeared_callback. rewrite (malloc_ok mem Hmem). cbn -[u64 malloc strdup]. rewrite (strdup_ok mem Hmem). cbn -[u64]. rewrite Eg. cbn -[u64].
  eexists. split; [reflexivity|].
  assert (Hb : forall q, q ∈ all_ports (G1 ++ k :: G2) -> (q_ptr q < brk s /\ q_ctx q < brk s)%nat)
    by (intros q Hq; split; [apply (below_ne _ _ _ _ (rep_qptr _ _ _ R) Hq)|apply (below_ne _ _ _ _ (rep_qctx _ _ _ R) Hq)]).
  pose proof (rep_next _ _ _ R) as (_ & Hn & _).
  set (q := new_port s k name x). split; [|split; [done|unfold counters; cbn; by rewrite (wrap_small 64) by lia]].
  apply (ports_changed_rep s); fold (with_port k q); cbn -[u64 with_port]; try done.
  - f_equal. unfold jc_of. cbn. by rewrite map_app.
  - f_equal. unfold gc_of. cbn. by rewrite map_app.
  - intros y [Hy| ->%list_elem_of_singleton]%elem_of_app; [|done]. apply R; [set_solver|done].
  - intros y. rewrite (all_ports_with G1 k q G2). rewrite alter_insert_eq. intros [Hy| ->%list_elem_of_singleton]%elem_of_app.
    + destruct (Hb y Hy). rewrite !lookup_insert_ne by lia. by apply R.
    + cbn. by rewrite !lookup_insert_eq.
  - rewrite (all_ports_with G1 k q G2), map_app. by rewrite (rep_gports _ _ _ R).
  - intros y Hy. rewrite (all_ports_with G1 k q G2). destruct (rep_ends _ _ _ R y Hy). split; apply elem_of_app; by left.
  - eapply distinct_below_perm; [symmetry; apply all_ports_with|].
    eapply distinct_below_le; [apply distinct_below_app; [apply R|done]|lia].
  - eapply distinct_below_perm; [symmetry; apply all_ports_with|].
    apply distinct_below_app; [eapply distinct_below_le; [apply R|lia]|done].
  - eapply ids_below_perm; [symmetry; apply all_ports_with|]. apply (next_id_below q_id (s_next_port_id s)); [apply R|done..].
  - apply wrap_bound. lia.
  - lia.
Qed.
Definition without_port (k : gclient) (L1 L2 : list gport) : gclient := k <| k_ports := L1 ++ L2 |>.

Lemma all_ports_without G1 k L1 q L2 G2 :
  k_ports k = L1 ++ q :: L2 -> all_ports (G1 ++ k :: G2) ≡ₚ q :: all_ports (G1 ++ without_port k L1 L2 :: G2).
Proof.
  intros E. rewrite !all_ports_app, !all_ports_cons, E. unfold without_port. cbn. rewrite <- !app_assoc. cbn [app]. by rewrite <- !Permutation_middle.
Qed.

(** The blocks of a port go. *)
Record port_removed (k : gclient) (L1 : list gport) (q : gport) (L2 : list gport) (s s' : ctl) : Prop := mk_port_removed {
  pr_clients : s_clients s' = s_clients s /\ g_clients s' = g_clients s /\ s_next_client_id s' = s_next_client_id s;
  pr_jcs : jcs s' = <[k_ptr k := jc_of (without_port k L1 L2)]> (jcs s);
  pr_gcs : gcs s' = <[k_ctx k := gc_of (without_port k L1 L2)]> (gcs s);
  pr_jps : jps s' = delete (q_ptr q) (jps s);
  pr_gps : gps s' = delete (q_ctx q) (gps s);
  pr_gports : g_ports s' = slist_remove (q_ctx q) (g_ports s);
  pr_conns : conns_kept s s';
  pr_next : s_next_port_id s' = s_next_port_id s;
  pr_brk : brk s' = brk s;
  pr_version : g_version s' = u64 (g_version s + 1)
}.

Lemma port_removed_rep s s' G1 k L1 q L2 G2 X :
  rep s (G1 ++ k :: G2) X -> k_ports k = L1 ++ q :: L2 -> (forall x, x ∈ X -> x_1 x <> q /\ x_2 x <> q) ->
  port_removed k L1 q L2 s s' -> rep s' (G1 ++ without_port k L1 L2 :: G2) X.
Proof.
  intros R Ek Hx [(C1 & C2 & C3) A1 A2 A3 A4 A5 A6 A7 A8 _].
  pose proof (all_ports_without G1 k L1 q L2 G2 Ek) as P. set (Q := all_ports (G1 ++ without_port k L1 L2 :: G2)) in *.
  pose proof (distinct_below_perm _ _ _ _ P (rep_qptr _ _ _ R)) as D1. pose proof (distinct_below_perm _ _ _ _ P (rep_qctx _ _ _ R)) as D2.
  apply (ports_changed_rep s); fold (without_port k L1 L2); fold Q; rewrite ?A7, ?A8; try done.
  - intros y Hy. apply R; [set_solver|]. rewrite Ek. set_solver.
  - intros y Hy. rewrite A3, A4, !lookup_delete_ne.
    + apply R. rewrite P. by right.
    + apply not_eq_sym. by apply (distinct_ne _ _ [] q Q y D2).
    + apply not_eq_sym. by apply (distinct_ne _ _ [] q Q y D1).
  - rewrite A5. pose proof (rep_gports _ _ _ R) as E. rewrite P in E. cbn [map] in E.
    apply (Permutation_cons_inv (a := q_ctx q)). rewrite <- E. symmetry. apply slist_remove_perm. rewrite E. left.
  - intros x Hin. destruct (rep_ends _ _ _ R x Hin) as [E1 E2]. destruct (Hx x Hin) as [N1 N2].
    rewrite P in E1, E2. set_solver.
  - eapply distinct_below_sub; [|exact D1]. by apply sublist_cons.
  - eapply distinct_below_sub; [|exact D2]. by apply sublist_cons.
  - eapply ids_below_sub; [|exact (ids_below_perm _ _ _ _ P (rep_qid _ _ _ R))]. by apply sublist_cons.
  - apply R.
Qed.

(** A client without ports goes. *)
Record client_removed (k : gclient) (s s' : ctl) : Prop := mk_client_removed {
  kr_clients : s_clients s' = slist_remove (k_ptr k) (s_clients s);
  kr_gclients : g_clients s' = slist_remove (k_ctx k) (g_clients s);
  kr_jcs : jcs s' = delete (k_ptr k) (jcs s);
  kr_gcs : gcs s' = delete (k_ctx k) (gcs s);
  kr_ports : ports_kept s s';
  kr_conns : conns_kept s s';
  kr_next : s_next_client_id s' = s_next_client_id s;
  kr_brk : brk s' = brk s;
  kr_version : g_version s' = u64 (g_version s + 1)
}.

Lemma client_removed_rep s s' G1 k G2 X :
  rep s (G1 ++ k :: G2) X -> k_ports k = [] -> client_removed k s s' -> rep s' (G1 ++ G2) X.
Proof.
  intros R Ek [A1 A2 A3 A4 (P1 & P2 & P3 & P4) (C1 & C2 & C3 & C4 & C5) A5 A6 _].
  assert (Hap : all_ports (G1 ++ G2) = all_ports (G1 ++ k :: G2)) by (by rewrite !all_ports_app, all_ports_cons, Ek).
  assert (Hold : forall x, x ∈ G1 ++ G2 -> x ∈ G1 ++ k :: G2) by (intros x Hx; rewrite <- Permutation_middle; by right).
  assert (Hsub : G1 ++ G2 `sublist_of` G1 ++ k :: G2) by (apply sublist_app; [done|by apply sublist_cons]).
  split; rewrite ?Hap, ?A1, ?A2, ?A5, ?A6, ?C1, ?C2, ?P3, ?P4, ?C5; try apply R.
  - rewrite (rep_clients _ _ _ R). eapply slist_remove_map, R.
  - rewrite (rep_gclients _ _ _ R). eapply slist_remove_map, R.
  - intros x Hx. rewrite A3, A4, !lookup_delete_ne by (apply not_eq_sym; eapply distinct_ne; [apply R|done]). apply R, Hold, Hx.
  - intros x q Hx. apply R, Hold, Hx.
  - rewrite P1, P2. apply R.
  - rewrite C3, C4. apply R.
  - eapply sublist_NoDup; [apply R|]. by apply fmap_sublist.
  - eapply distinct_below_sub; [done|apply R].
  - eapply distinct_below_sub; [done|apply R].
  - eapply ids_below_sub; [done|apply R].
Qed.
(** What the patchbay does when a port disappears. *)
Lemma port_gone s k L1 q L2 n :
  gps s !! q_ctx q = Some (gp_of q) -> gcs s !! k_ctx k = Some (gc_of k) -> q_cctx q = k_ctx k -> k_ports k = L1 ++ q :: L2 ->
  distinct_below q_ctx n (k_ports k) -> q_ctx q ∈ g_ports s ->
  exists s', jack_controller_patchbay_port_disappeared_callback (k_id k) (Some (k_ctx k)) (q_id q) (Some (q_ctx q)) s = Some s' /\
    (s_clients s' = s_clients s /\ g_clients s' = g_clients s /\ s_next_client_id s' = s_next_client_id s /\ jcs s' = jcs s) /\
    gcs s' = <[k_ctx k := gc_of (without_port k L1 L2)]> (gcs s) /\ jps s' = jps s /\ gps s' = delete (q_ctx q) (gps s) /\
    g_ports s' = slist_remove (q_ctx q) (g_ports s) /\ conns_kept s s' /\ s_next_port_id s' = s_next_port_id s /\ brk s' = brk s /\
    g_version s' = u64 (g_version s + 1).
Proof.
  intros E1 E2 E3 Ek D Hin. rewrite Ek in D. unfold jack_controller_patchbay_port_disappeared_callback. rewrite E1. cbn -[u64 list_del].
  rewrite E3, E2. cbn -[u64 list_del]. rewrite Ek, (list_del_map q_ctx n L1 q L2 D). cbn -[u64 list_del].
  unfold list_del at 1. rewrite bool_decide_true by done. cbn -[u64]. rewrite lookup_insert_eq. cbn -[u64].
  eexists. split; [reflexivity|]. cbn -[u64]. repeat split.
Qed.

Lemma client_gone s k :
  gcs s !! k_ctx k = Some (gc_of k) -> k_ctx k ∈ g_clients s ->
  exists s', jack_controller_patchbay_client_disappeared_callback (k_id k) (Some (k_ctx k)) s = Some s' /\
    s_clients s' = s_clients s /\ g_clients s' = slist_remove (k_ctx k) (g_clients s) /\ s_next_client_id s' = s_next_client_id s /\
    jcs s' = jcs s /\ gcs s' = delete (k_ctx k) (gcs s) /\ ports_kept s s' /\ conns_kept s s' /\ brk s' = brk s /\
    g_version s' = u64 (g_version s + 1).
Proof.
  intros E Hin. unfold jack_controller_patchbay_client_disappeared_callback. rewrite E. cbn -[u64 list_del].
  unfold list_del. rewrite bool_decide_true by done. cbn -[u64]. eexists. split; [reflexivity|]. cbn -[u64]. repeat split.
Qed.

(** The facts about a port of a client that the callbacks need. *)
Lemma rep_port_facts s G1 k L1 q L2 G2 X :
  rep s (G1 ++ k :: G2) X -> k_ports k = L1 ++ q :: L2 ->
  jps s !! q_ptr q = Some (jp_of q) /\ gps s !! q_ctx q = Some (gp_of q) /\ q_cctx q = k_ctx k /\ q_ctx q ∈ g_ports s /\
  distinct_below q_ptr (brk s) (L1 ++ q :: L2) /\ distinct_below q_ctx (brk s) (L1 ++ q :: L2).
Proof.
  intros R Ek. assert (Hk : k ∈ G1 ++ k :: G2) by set_solver. assert (Hq : q ∈ k_ports k) by (rewrite Ek; set_solver).
  assert (Ha : q ∈ all_ports (G1 ++ k :: G2)) by (apply elem_all_ports; eauto).
  assert (S : L1 ++ q :: L2 `sublist_of` all_ports (G1 ++ k :: G2)).
  { rewrite all_ports_app, all_ports_cons, Ek. by apply sublist_inserts_l, sublist_inserts_r. }
  destruct (rep_port _ _ _ R q Ha). destruct (rep_owned _ _ _ R k q Hk Hq) as (_ & ? & _).
  repeat split; try done; try (eapply distinct_below_sub; [exact S|apply R]).
  rewrite (rep_gports _ _ _ R). by apply list_elem_of_fmap_2.
Qed.

(** What is left of the clients when a port goes. *)
Definition drop_port (G1 : list gclient) (k : gclient) (L1 L2 : list gport) (G2 : list gclient) : list gclient :=
  if L1 ++ L2 is [] then G1 ++ G2 else G1 ++ without_port k L1 L2 :: G2.

Lemma remove_port_tracked s G1 k L1 q L2 G2 X :
  rep s (G1 ++ k :: G2) X -> k_ports k = L1 ++ q :: L2 -> port_named (q_name q) k = Some q ->
  (forall x, x ∈ X -> x_1 x <> q /\ x_2 x <> q) ->
  exists s', jackctl_remove_port (k_ptr k) (q_name q) s = Some (true, s') /\ rep s' (drop_port G1 k L1 L2 G2) X /\
    g_version s' = u64 (g_version s + (if L1 ++ L2 is [] then 2 else 1)) /\ counters s' = counters s.
Proof.
  intros R Ek Hn Hx. destruct (rep_client _ _ _ R k) as [Ej Eg]; [set_solver|].
  destruct (rep_port_facts _ _ _ _ _ _ _ _ R Ek) as (E1 & E2 & E3 & E4 & D1 & D2).
  unfold jackctl_remove_port. rewrite (find_port_rep _ _ _ k _ R), Hn by set_solver. cbn [option_map mbind option_bind].
  rewrite Ej. cbn [mbind option_bind]. rewrite E1. cbn [mbind option_bind].
  change (jc_ports (jc_of k)) with (map q_ptr (k_ports k)). rewrite Ek, (slist_remove_map q_ptr _ _ _ _ D1). cbv zeta.
  change (jc_id (jc_of k)) with (k_id k). change (jc_context (jc_of k)) with (Some (k_ctx k)).
  change (jp_id (jp_of q)) with (q_id q). change (jp_context (jp_of q)) with (Some (q_ctx q)).
  set (s1 := s <| jcs ::= _ |>).
  destruct (port_gone s1 k L1 q L2 (brk s)) as (s2 & -> & (B1 & B2 & B3 & B4) & B5 & B6 & B7 & B8 & B9 & B10 & B11 & B12); try done.
  { by rewrite Ek. }
  cbn [mbind option_bind]. set (s3 := s2 <| jps ::= delete (q_ptr q) |>).
  assert (R3 : rep s3 (G1 ++ without_port k L1 L2 :: G2) X).
  { apply (port_removed_rep s _ _ _ _ q); [done..|]. split; try done; cbn; by rewrite ?B4, ?B6. }
  unfold drop_port. destruct (L1 ++ L2) as [|y L] eqn:EL; cbn [map].
  - set (s4 := s3 <| s_clients ::= _ |>). set (k' := without_port k L1 L2) in *.
    destruct (rep_client _ _ _ R3 k') as [_ Eg3]; [set_solver|].
    destruct (client_gone s4 k') as (s5 & Es & K1 & K2 & K3 & K4 & K5 & K6 & K7 & K8 & K9).
    { exact Eg3. }
    { change (k_ctx k' ∈ g_clients s3). rewrite (rep_gclients _ _ _ R3). apply list_elem_of_fmap_2. set_solver. }
    change (k_id k') with (k_id k) in Es. change (k_ctx k') with (k_ctx k) in Es. rewrite Es. cbn [mbind option_bind].
    eexists. split; [reflexivity|]. split; [|split; [cbn; rewrite K9; cbn|]].
    + apply (client_removed_rep s3 _ _ k'); [done|exact EL|]. split; try done; cbn; by rewrite ?K1, ?K4.
    + rewrite B12. apply wrap_twice.
    + unfold counters. cbn. rewrite K3. destruct K6 as (_ & _ & _ & ->), K7 as (_ & _ & _ & _ & ->). cbn.
      rewrite B3, B10. by destruct B9 as (_ & _ & _ & _ & ->).
  - eexists. split; [reflexivity|]. split; [done|]. split; [done|].
    unfold counters. cbn. rewrite B3, B10. by destruct B9 as (_ & _ & _ & _ & ->).
Qed.
(** ** Notifications *)

Definition settled (G : list gclient) : Prop := Forall (fun k => k_ports k <> []) G.

(** Nothing has been counted to the end. *)
Definition room (n : Z) (s : ctl) : Prop :=
  s_next_client_id s + n <= 2 ^ 64 - 1 /\ s_next_port_id s + n <= 2 ^ 64 - 1 /\ s_next_connection_id s + n <= 2 ^ 64 - 1.

Lemma head_filter_unique {A B} `{!EqDecision B} (f : A -> B) (l : list A) x :
  NoDup (map f l) -> x ∈ l -> head (filter (fun y => f y = f x) l) = Some x.
Proof.
  intros N Hx. destruct (head (filter _ l)) as [y|] eqn:E.
  - destruct (head_filter_split _ _ _ E) as (Ef & l1 & l2 & -> & _). f_equal.
    apply elem_of_app in Hx as [Hx|[->|Hx]%elem_of_cons]; [|done|]; exfalso; rewrite map_app in N; cbn [map] in N;
      apply NoDup_app in N as (N1 & N2 & N3); apply (list_elem_of_fmap_2 f) in Hx.
    + apply (N2 _ Hx). rewrite Ef. left.
    + apply NoDup_cons in N3 as [N3 _]. apply N3. by rewrite Ef.
  - apply head_filter_none in E. rewrite Forall_forall in E. by destruct (E x Hx).
Qed.

Lemma settled_mid G1 k k' G2 : settled (G1 ++ k :: G2) -> k_ports k' <> [] -> settled (G1 ++ k' :: G2).
Proof. unfold settled. rewrite !Forall_app, !Forall_cons. tauto. Qed.

Lemma register_tracked mem (Hmem : forall k, mem k = true) s G X pids e n cname pname :
  rep s G X -> settled G -> split_colon (p_name (the_port e n)) = Some (cname, pname) -> room 1 s ->
  exists s' G' q, jackctl_port_registration_notify mem pids e n true s = Some s' /\ rep s' G' X /\ settled G' /\
    all_ports G' ≡ₚ all_ports G ++ [q] /\ q_cname q = cname /\ q_name q = pname /\ q_flags q = flags (the_port e n) /\
    q_type q = ptype_id (the_port e n) /\ (forall m, room (m + 1) s -> room m s') /\
    g_version s' = u64 (g_version s + (if named cname G is Some _ then 1 else 2)).
Proof.
  intros R St Sp Hr. unfold jackctl_port_registration_notify. rewrite Sp. cbv zeta. destruct (named cname G) as [k|] eqn:En.
  - rewrite (find_or_create_old mem s G X _ _ k R En). cbn [mbind option_bind].
    destruct (named_split _ _ _ En) as (Hk & G1 & G2 & ->).
    destruct (add_port_tracked mem Hmem s G1 k G2 X pname (the_port e n) R) as (s' & -> & R' & V & Ct); [unfold room in Hr; lia|].
    eexists s', _, _. split; [done|]. split; [exact R'|]. split.
    { apply (settled_mid _ k); [done|]. cbn. by destruct (k_ports k). }
    split; [apply all_ports_with|]. split; [exact Hk|]. do 3 (split; [done|]). split; [|done].
    intros m. unfold room. injection Ct as -> -> ->. lia.
  - destruct (find_or_create_new mem Hmem s G X cname (port_pid pids e (the_port e n)) R En) as (s1 & -> & A). cbn [mbind option_bind].
    assert (R1 : rep s1 (G ++ [fresh_client s cname (port_pid pids e (the_port e n))]) X)
      by (eapply client_added_rep; [done|done|unfold room in Hr; lia|done]).
    destruct A as [_ _ _ _ (_ & _ & _ & P4) (_ & _ & _ & _ & C5) A5 _ A7].
    set (k := fresh_client s cname _) in *.
    destruct (add_port_tracked mem Hmem s1 G k [] X pname (the_port e n) R1) as (s' & E & R' & V & Ct); [unfold room in Hr; rewrite P4; lia|].
    change (k_ptr k) with (brk s) in E. rewrite E. eexists s', _, _. split; [done|]. split; [exact R'|]. split.
    { unfold settled. apply Forall_app. split; [done|]. constructor; [done|constructor]. }
    split; [rewrite all_ports_with, all_ports_app, all_ports_cons; cbn [k_ports k fresh_client]; by rewrite app_nil_r|].
    do 4 (split; [done|]). split; [|rewrite V, A7; apply wrap_twice].
    intros m. unfold room. injection Ct as -> -> ->. rewrite A5, P4, C5. pose proof (rep_next _ _ _ R) as (Hn & _).
    cbn [k_id k fresh_client]. unfold room in Hr. rewrite (wrap_small 64) by lia. lia.
Qed.
Definition qname (q : gport) : string * string := (q_cname q, q_name q).

Lemma port_owner s G X q :
  rep s G X -> NoDup (map qname (all_ports G)) -> q ∈ all_ports G ->
  exists G1 k L1 L2 G2, G = G1 ++ k :: G2 /\ k_ports k = L1 ++ q :: L2 /\ owned k q /\ named (q_cname q) G = Some k /\ port_named (q_name q) k = Some q.
Proof.
  intros R N Hq. apply elem_all_ports in Hq as (k & Hk & Hq). pose proof (rep_owned _ _ _ R k q Hk Hq) as O.
  destruct (list_elem_of_split _ _ Hk) as (G1 & G2 & EG). destruct (list_elem_of_split _ _ Hq) as (L1 & L2 & EL).
  exists G1, k, L1, L2, G2. do 3 (split; [done|]). destruct O as (_ & _ & _ & Ec). rewrite Ec. split.
  - apply (head_filter_unique k_name); [apply R|done].
  - apply (head_filter_unique q_name); [|done]. rewrite EG, all_ports_app, all_ports_cons, !map_app in N.
    apply NoDup_app in N as (_ & _ & N). apply NoDup_app in N as (N & _ & _).
    apply (NoDup_fmap_1 (pair (k_name k))). rewrite <- list_fmap_compose. erewrite map_ext_in; [exact N|].
    intros y Hy. unfold qname, compose. destruct (rep_owned _ _ _ R k y Hk) as (_ & _ & _ & ->); [by apply list_elem_of_In|done].
Qed.

(** The first port of a name. *)
Lemma first_port s G X nm :
  rep s G X -> nm ∈ map qname (all_ports G) ->
  exists G1 k L1 q L2 G2, G = G1 ++ k :: G2 /\ k_ports k = L1 ++ q :: L2 /\ qname q = nm /\ named nm.1 G = Some k /\ port_named nm.2 k = Some q.
Proof.
  intros R (q & -> & Hq)%list_elem_of_fmap. apply elem_all_ports in Hq as (k & Hk & Hq).
  destruct (list_elem_of_split _ _ Hk) as (G1 & G2 & EG). pose proof (rep_owned _ _ _ R k q Hk Hq) as (_ & _ & _ & Ec).
  destruct (port_named (q_name q) k) as [q'|] eqn:Ep.
  - destruct (head_filter_split _ _ _ Ep) as (En & L1 & L2 & EL & _). exists G1, k, L1, q', L2, G2. do 2 (split; [done|]).
    destruct (rep_owned _ _ _ R k q' Hk) as (_ & _ & _ & Ec'); [rewrite EL; set_solver|]. cbn [fst snd qname].
    split; [unfold qname; congruence|]. split; [|done]. rewrite Ec. apply (head_filter_unique k_name); [apply R|done].
  - apply head_filter_none in Ep. rewrite Forall_forall in Ep. by destruct (Ep q Hq).
Qed.

Lemma unregister_tracked mem s G X pids e n nm :
  rep s G X -> settled G -> nm ∈ map qname (all_ports G) ->
  split_colon (p_name (the_port e n)) = Some nm -> (forall x, x ∈ X -> qname (x_1 x) <> nm /\ qname (x_2 x) <> nm) ->
  exists s' G' q, jackctl_port_registration_notify mem pids e n false s = Some s' /\ rep s' G' X /\ settled G' /\ qname q = nm /\
    all_ports G ≡ₚ q :: all_ports G' /\ counters s' = counters s /\
    exists d, g_version s' = u64 (g_version s + d) /\ 1 <= d <= 2.
Proof.
  intros R St Hnm Sp Hx. destruct (first_port s G X nm R Hnm) as (G1 & k & L1 & q & L2 & G2 & -> & EL & Eq & En & Ep).
  unfold jackctl_port_registration_notify. rewrite Sp. destruct nm as [cn pn]. cbn [fst snd] in *.
  rewrite (find_client_rep _ _ _ _ R), En. cbn [mbind option_bind option_map].
  assert (Eqn : q_name q = pn) by (unfold qname in Eq; congruence). subst pn.
  destruct (remove_port_tracked s G1 k L1 q L2 G2 X R EL Ep) as (s' & -> & R' & V & C).
  { intros x Hin. destruct (Hx x Hin) as [N1 N2]. split; intros Ez; [apply N1|apply N2]; by rewrite Ez. }
  cbn [mbind option_bind].
  exists s', (drop_port G1 k L1 L2 G2), q. split; [done|]. split; [done|]. unfold drop_port in *.
  pose proof (all_ports_without G1 k L1 q L2 G2 EL) as P. unfold without_port in *. destruct (L1 ++ L2) as [|y L] eqn:E.
  - split; [unfold settled in *; rewrite !Forall_app, Forall_cons in *; tauto|]. split; [done|].
    split; [rewrite P, !all_ports_app, all_ports_cons; done|]. split; [done|]. exists 2. split; [done|lia].
  - split; [by apply (settled_mid _ k)|]. do 3 (split; [done|]). exists 1. split; [done|lia].
Qed.

Lemma unregister_unknown mem s G X pids e n nm :
  rep s G X -> nm ∉ map qname (all_ports G) -> split_colon (p_name (the_port e n)) = Some nm ->
  jackctl_port_registration_notify mem pids e n false s = Some s.
Proof.
  intros R Hnm Sp. unfold jackctl_port_registration_notify. rewrite Sp. destruct nm as [cn pn].
  rewrite (find_client_rep _ _ _ _ R). cbn [mbind option_bind]. destruct (named cn G) as [k|] eqn:En; [|done]. cbn [option_map].
  destruct (named_split _ _ _ En) as (Ek & G1 & G2 & EG). assert (Hk : k ∈ G) by (rewrite EG; set_solver).
  unfold jackctl_remove_port. rewrite (find_port_rep _ _ _ k _ R Hk). cbn [mbind option_bind].
  destruct (port_named pn k) as [q|] eqn:Ep; [|done]. exfalso. apply Hnm.
  destruct (head_filter_split _ _ _ Ep) as (Eq & L1 & L2 & EL & _). assert (Hq : q ∈ k_ports k) by (rewrite EL; set_solver).
  destruct (rep_owned _ _ _ R k q Hk Hq) as (_ & _ & _ & Ec).
  apply list_elem_of_fmap. exists q. split; [unfold qname; congruence|]. apply elem_all_ports. eauto.
Qed.

Lemma known_port_rep s G X q full :
  rep s G X -> NoDup (map qname (all_ports G)) -> q ∈ all_ports G -> split_colon full = Some (qname q) ->
  known_port full s = Some (Some (q_client q, q_ptr q)).
Proof.
  intros R N Hq Sp. destruct (port_owner s G X q R N Hq) as (G1 & k & L1 & L2 & G2 & -> & EL & (O & _) & En & Ep).
  unfold known_port. rewrite Sp. unfold qname. rewrite (find_client_rep _ _ _ _ R), En. cbn [mbind option_bind option_map].
  rewrite (find_port_rep _ _ _ k _ R), Ep by set_solver. cbn. by rewrite O.
Qed.

(** What is read of a port and its client. *)
Lemma port_read s G X q :
  rep s G X -> q ∈ all_ports G ->
  jps s !! q_ptr q = Some (jp_of q) /\ (exists b, jcs s !! q_client q = Some b /\ jc_id b = q_cid q) /\
  (exists b, gcs s !! q_cctx q = Some b /\ gc_id b = q_cid q /\ gc_name b = q_cname q) /\
  port_names (Some (q_ctx q)) s = Some (qname q) /\ gps s !! q_ctx q = Some (gp_of q).
Proof.
  intros R Hq. destruct (rep_port _ _ _ R q Hq) as [E1 E2]. apply elem_all_ports in Hq as (k & Hk & Hq).
  destruct (rep_owned _ _ _ R k q Hk Hq) as (-> & O2 & -> & O4). destruct (rep_client _ _ _ R k Hk) as [E3 E4].
  split; [done|]. split; [eexists; split; [exact E3|done]|]. rewrite O2. split; [eexists; split; [exact E4|done]|].
  split; [|done]. unfold port_names, qname. cbn [mbind option_bind]. rewrite E2. cbn [mbind option_bind gp_of gp_client]. rewrite O2, E4.
  cbn. by rewrite O4.
Qed.
(** Only the connections change. *)
Lemma conns_changed_rep s s' G X X' :
  rep s G X -> clients_kept s s' -> ports_kept s s' -> s_connections s' = map x_ptr X' -> g_connections s' = map x_ctx X' ->
  (forall x, x ∈ X' -> jxs s' !! x_ptr x = Some (jx_of x) /\ gxs s' !! x_ctx x = Some (gx_of x)) ->
  (forall x, x ∈ X' -> x_1 x ∈ all_ports G /\ x_2 x ∈ all_ports G) ->
  distinct_below x_ptr (brk s') X' -> distinct_below x_ctx (brk s') X' -> ids_below x_id (s_next_connection_id s') X' ->
  0 <= s_next_connection_id s' -> (brk s <= brk s')%nat -> rep s' G X'.
Proof.
  intros R (K1 & K2 & K3 & K4 & K5) (P1 & P2 & P3 & P4) C1 C2 C3 C4 D1 D2 D3 Hn Hb.
  split; rewrite ?K1, ?K2, ?K3, ?K4, ?K5, ?P1, ?P2, ?P3, ?P4; try done; try apply R; try (eapply distinct_below_le; [apply R|done]).
  pose proof (rep_next _ _ _ R). tauto.
Qed.

Lemma connect_tracked mem (Hmem : forall k, mem k = true) s G X e a b q1 q2 :
  rep s G X -> NoDup (map qname (all_ports G)) -> q1 ∈ all_ports G -> q2 ∈ all_ports G ->
  split_colon (p_name (the_port e a)) = Some (qname q1) -> split_colon (p_name (the_port e b)) = Some (qname q2) -> room 1 s ->
  exists s' x, jackctl_connection_notify mem e a b true s = Some s' /\ rep s' G (X ++ [x]) /\ x_1 x = q1 /\ x_2 x = q2 /\
    (forall m, room (m + 1) s -> room m s') /\ g_version s' = u64 (g_version s + 1).
Proof.
  intros R N H1 H2 S1 S2 Hr. unfold jackctl_connection_notify. cbv zeta. rewrite S1, S2.
  rewrite (known_port_rep _ _ _ q1 _ R N H1 S1), (known_port_rep _ _ _ q2 _ R N H2 S2). cbn [mbind option_bind].
  destruct (port_read _ _ _ _ R H1) as (-> & (b1 & -> & I1) & _ & N1 & _). destruct (port_read _ _ _ _ R H2) as (-> & (b2 & -> & I2) & _ & N2 & _).
  cbn [mbind option_bind]. rewrite (malloc_ok mem Hmem). cbv zeta. unfold jack_controller_patchbay_ports_connected_callback. rewrite (malloc_ok mem Hmem). cbv zeta.
  change (jp_context (jp_of q1)) with (Some (q_ctx q1)). change (jp_context (jp_of q2)) with (Some (q_ctx q2)).
  unfold port_names in *. cbn -[u64] in N1, N2 |- *. rewrite N1. cbn -[u64]. rewrite N2. cbn -[u64].
  set (x := mk_x (brk s) (S (brk s)) (s_next_connection_id s) q1 q2).
  eexists _, x. split; [reflexivity|]. pose proof (rep_next _ _ _ R) as (_ & _ & Hn). split.
  - apply (conns_changed_rep s _ _ X); try done; cbn -[u64]; rewrite ?map_app, ?(rep_conns _ _ _ R), ?(rep_gconns _ _ _ R); try done.
    + rewrite alter_insert_eq. intros y [Hy| ->%list_elem_of_singleton]%elem_of_app; [|cbn; by rewrite !lookup_insert_eq].
      pose proof (below_ne _ _ _ _ (rep_xptr _ _ _ R) Hy). pose proof (below_ne _ _ _ _ (rep_xctx _ _ _ R) Hy).
      rewrite !lookup_insert_ne by lia. by apply R.
    + intros y [Hy| ->%list_elem_of_singleton]%elem_of_app; [by apply R|done].
    + eapply distinct_below_le; [apply distinct_below_app; [apply R|done]|lia].
    + apply distinct_below_app; [eapply distinct_below_le; [apply R|lia]|done].
    + apply (next_id_below x_id (s_next_connection_id s)); [apply R|done|unfold room in Hr; lia|done].
    + apply wrap_bound. lia.
    + lia.
  - do 2 (split; [done|]). split; [|done]. intros m. unfold room in *. cbn -[u64]. rewrite (wrap_small 64) by lia. lia.
Qed.

Definition linked (q1 q2 : gport) (x : gconn) : Prop := (x_1 x = q1 /\ x_2 x = q2) \/ (x_1 x = q2 /\ x_2 x = q1).

#[global] Instance linked_dec q1 q2 x : Decision (linked q1 q2 x).
Proof. unfold linked. apply _. Defined.

Lemma distinct_inj {A} (f : A -> nat) n l x y : distinct_below f n l -> x ∈ l -> y ∈ l -> f x = f y -> x = y.
Proof.
  intros [N _] Hx Hy E. pose proof (head_filter_unique f l x N Hx) as E1. rewrite E in E1.
  pose proof (head_filter_unique f l y N Hy) as E2. congruence.
Qed.

Lemma disconnect_tracked mem s G X1 x X2 e a b q1 q2 :
  rep s G (X1 ++ x :: X2) -> NoDup (map qname (all_ports G)) -> q1 ∈ all_ports G -> q2 ∈ all_ports G ->
  split_colon (p_name (the_port e a)) = Some (qname q1) -> split_colon (p_name (the_port e b)) = Some (qname q2) ->
  linked q1 q2 x -> Forall (fun y => ~ linked q1 q2 y) X1 ->
  exists s', jackctl_connection_notify mem e a b false s = Some s' /\ rep s' G (X1 ++ X2) /\
    counters s' = counters s /\ g_version s' = u64 (g_version s + 1).
Proof.
  intros R N H1 H2 S1 S2 Hx HF. unfold jackctl_connection_notify. cbv zeta. rewrite S1, S2.
  rewrite (known_port_rep _ _ _ q1 _ R N H1 S1), (known_port_rep _ _ _ q2 _ R N H2 S2). cbn [mbind option_bind].
  destruct (port_read _ _ _ _ R H1) as (-> & (b1 & -> & I1) & _ & N1 & _). destruct (port_read _ _ _ _ R H2) as (-> & (b2 & -> & I2) & _ & N2 & _).
  cbn [mbind option_bind]. rewrite (rep_conns _ _ _ R), (find_ptr_map x_ptr (linked q1 q2)), (head_filter_at _ X1 x X2 HF Hx).
  2: { intros y Hy. destruct (rep_conn _ _ _ R y Hy) as [-> _]. cbn. f_equal. destruct (rep_ends _ _ _ R y Hy).
       unfold same_ports, linked. cbn. rewrite <- bool_decide_or. apply bool_decide_ext.
       split; (intros [[E1 E2]|[E1 E2]]; [left|right]; split; try congruence; by eapply (distinct_inj q_ptr); [apply R|..]). }
  cbn [mbind option_bind option_map].
  destruct (rep_conn _ _ _ R x) as [E1 E2]; [set_solver|]. rewrite E1. cbn [mbind option_bind].
  unfold jack_controller_patchbay_ports_disconnected_callback. cbn -[u64 list_del port_names]. rewrite E2. cbn -[u64 list_del port_names].
  rewrite (rep_gconns _ _ _ R), (list_del_map x_ctx (brk s)) by apply R. unfold port_names in *. cbn -[u64] in N1, N2 |- *.
  rewrite N1. cbn -[u64]. rewrite N2. cbn -[u64].
  eexists. split; [reflexivity|]. split; [|done].
  assert (Hs : X1 ++ X2 `sublist_of` X1 ++ x :: X2) by (apply sublist_app; [done|by apply sublist_cons]).
  apply (conns_changed_rep s _ _ (X1 ++ x :: X2)); try done; cbn -[u64].
  - rewrite (rep_conns _ _ _ R). eapply slist_remove_map, R.
  - intros y Hy. rewrite lookup_delete_ne by (apply not_eq_sym; eapply distinct_ne; [apply R|done]). apply R. by eapply elem_of_sublist.
  - intros y Hy. apply R. by eapply elem_of_sublist.
  - eapply distinct_below_sub; [done|apply R].
  - eapply distinct_below_sub; [done|apply R].
  - eapply ids_below_sub; [done|apply R].
  - apply R.
Qed.
End Patchbay.
