(* ===== verification/PatchbayView.v ===== *)
(** * What the patchbay answers

    The engine announces ports and connections; a client of D-Bus asks for the
    graph.  The theorems say that the answer is the graph the engine announced. *)

From S2P Require Import Prelude JSList Engine Events Graph Jackctl Patchbay.

Local Open Scope Z_scope.

Module PatchbayView.
Import JSList Jackctl Patchbay.

(** ** Answers *)

Definition encode_port (q : gport) : list item := [Open; U64 (q_id q); Str (q_name q); U32 (q_flags q); U32 (q_type q); Close].

Definition encode_client (k : gclient) : list item :=
  [Open; U64 (k_id k); Str (k_name k); Open] ++ concat (map encode_port (k_ports k)) ++ [Close; Close].

Definition encode_end (q : gport) : list item := [U64 (q_cid q); Str (q_cname q); U64 (q_id q); Str (q_name q)].

Definition encode_conn (x : gconn) : list item := [Open] ++ encode_end (x_1 x) ++ encode_end (x_2 x) ++ [U64 (x_id x); Close].

Definition encode_graph (v : Z) (G : list gclient) (X : list gconn) : list item :=
  [U64 v; Open] ++ concat (map encode_client G) ++ [Close] ++ [Open] ++ concat (map encode_conn X) ++ [Close].

Definition full_name (q : gport) : string := q_cname q +:+ ":" +:+ q_name q.

Lemma concat_items {A} (f : A -> ptr) (items : ptr -> list (option item)) (enc : A -> list item) l :
  (forall x, x ∈ l -> items (f x) = map Some (enc x)) -> concat (map items (map f l)) = map Some (concat (map enc l)).
Proof.
  induction l as [|x l IH]; intros H; [done|]. cbn [map concat]. rewrite H by left. rewrite IH by (intros y Hy; apply H; by right).
  by rewrite map_app.
Qed.

Lemma port_items_rep s G X q : rep s G X -> q ∈ all_ports G -> port_items s (q_ctx q) = map Some (encode_port q).
Proof. intros R Hq. unfold port_items. by destruct (rep_port _ _ _ R q Hq) as [_ ->]. Qed.

Lemma client_items_rep s G X k : rep s G X -> k ∈ G -> client_items s (k_ctx k) = map Some (encode_client k).
Proof.
  intros R Hk. unfold client_items, encode_client. destruct (rep_client _ _ _ R k Hk) as [_ ->]. cbn [gc_of gc_id gc_name gc_ports].
  rewrite (concat_items q_ctx _ encode_port), !map_app; [done|].
  intros q Hq. apply (port_items_rep s G X); [done|]. apply elem_all_ports. eauto.
Qed.

Lemma end_items_rep s G X q : rep s G X -> q ∈ all_ports G -> end_items s (q_ctx q) = map Some (encode_end q).
Proof.
  intros R Hq. destruct (port_read _ _ _ _ R Hq) as (_ & _ & (b & E & I & Nm) & _ & E2).
  unfold end_items. rewrite E2. cbn. rewrite E. cbn. by rewrite I, Nm.
Qed.

Lemma connection_items_rep s G X x : rep s G X -> x ∈ X -> connection_items s (x_ctx x) = map Some (encode_conn x).
Proof.
  intros R Hx. unfold connection_items, encode_conn. destruct (rep_conn _ _ _ R x Hx) as [_ ->]. destruct (rep_ends _ _ _ R x Hx).
  cbn [gx_of gx_id gx_port1 gx_port2]. rewrite !(end_items_rep s G X) by done. by rewrite !map_app.
Qed.

Lemma full_names_rep s G X k :
  rep s G X -> k ∈ G -> full_names s (k_ctx k) = map Some (map (fun q => Str (full_name q)) (k_ports k)).
Proof.
  intros R Hk. unfold full_names. destruct (rep_client _ _ _ R k Hk) as [_ ->]. cbn [gc_of gc_ports gc_name].
  rewrite !map_map. apply map_ext_in. intros q Hq%list_elem_of_In.
  destruct (rep_port _ _ _ R q) as [_ ->]; [apply elem_all_ports; eauto|]. cbn. unfold full_name.
  by destruct (rep_owned _ _ _ R k q Hk Hq) as (_ & _ & _ & ->).
Qed.

Lemma append_all append_ok k l :
  append_items append_ok k (map Some l) =
    Some (if forallb append_ok (seq k (length l)) then Some l else None).
Proof.
  revert k. induction l as [|i l IH]; intros k; [done|]. cbn [map append_items mbind option_bind length seq forallb].
  destruct (append_ok k); [|done]. cbn [andb]. rewrite IH. cbn [mbind option_bind]. by destruct (forallb _ _).
Qed.

(** The reply with these items if the library does not run out of memory. *)
Definition method_return (append_ok : nat -> bool) (l : list item) : reply :=
  if forallb append_ok (seq 0 (S (length l))) then Method_return l else Out_of_memory.

Lemma append_return append_ok l :
  append_ok 0%nat = true ->
  append_items append_ok 1 (map Some l) ≫= (fun r => Some (from_option Method_return Out_of_memory r)) = Some (method_return append_ok l).
Proof.
  intros E. rewrite append_all. cbn [mbind option_bind]. unfold method_return. cbn [seq forallb]. rewrite E. cbn [andb].
  by destruct (forallb _ _).
Qed.

Lemma get_graph_eq append_ok s G X args :
  rep s G X ->
  jack_controller_dbus_get_graph append_ok args s = Some
    match args with
    | None => Invalid_args
    | Some v =>
        if negb (append_ok 0%nat) then Out_of_memory
        else if v >? g_version s then Invalid_args
        else if v <? g_version s then method_return append_ok (encode_graph (g_version s) G X)
        else method_return append_ok (encode_graph (g_version s) [] [])
    end.
Proof.
  intros R. unfold jack_controller_dbus_get_graph. destruct args as [v|]; [|done].
  destruct (append_ok 0%nat) eqn:E0; cbn [negb]; [|done]. destruct (v >? g_version s); [done|].
  rewrite (rep_gclients _ _ _ R), (rep_gconns _ _ _ R).
  rewrite (concat_items k_ctx _ encode_client) by (intros; by apply (client_items_rep s G X)).
  rewrite (concat_items x_ctx _ encode_conn) by (intros; by apply (connection_items_rep s G X)).
  assert (H : forall l, append_items append_ok 1 (map Some l) ≫= (fun r => Some (from_option Method_return Out_of_memory r)) =
    Some (method_return append_ok l)).
  { intros l. rewrite append_all. cbn [mbind option_bind]. unfold method_return. cbn [seq forallb]. rewrite E0. cbn [andb].
    by destruct (forallb _ _). }
  destruct (v <? g_version s); rewrite <- (append_return append_ok _ E0); unfold encode_graph; by rewrite !map_app.
Qed.

Lemma get_all_ports_eq append_ok s G X :
  rep s G X ->
  jack_controller_dbus_get_all_ports append_ok s =
    Some (method_return append_ok ([Open] ++ map (fun q => Str (full_name q)) (all_ports G) ++ [Close])).
Proof.
  intros R. unfold jack_controller_dbus_get_all_ports. rewrite (rep_gclients _ _ _ R).
  rewrite (concat_items k_ctx _ (fun k => map (fun q => Str (full_name q)) (k_ports k))) by (intros; by apply (full_names_rep s G X)).
  destruct (append_ok 0%nat) eqn:E0; cbn [negb]; [|unfold method_return; cbn [seq forallb]; by rewrite E0].
  rewrite <- (append_return append_ok _ E0), !map_app. unfold all_ports.
  by rewrite (concat_map (fun q => Str (full_name q))), (map_map k_ports).
Qed.

Lemma get_client_pid_rep s G X k :
  rep s G X -> k ∈ G -> jack_controller_dbus_get_client_pid (k_id k) s = Some (Some (k_pid k)).
Proof.
  intros R Hk. unfold jack_controller_dbus_get_client_pid, jack_controller_patchbay_find_client_by_id.
  rewrite (rep_gclients _ _ _ R), (find_ptr_map k_ctx (fun y => k_id y = k_id k)).
  - rewrite (head_filter_unique k_id) by (done || apply R). cbn [option_map mbind option_bind].
    by destruct (rep_client _ _ _ R k Hk) as [_ ->].
  - intros y Hy. destruct (rep_client _ _ _ R y Hy) as [_ ->]. cbn. f_equal. symmetry. by destruct (Z.eqb_spec (k_id y) (k_id k)); case_bool_decide.
Qed.
(** ** The engine announces its graph

    [V] are the ports announced so far (client, name, flags and type), [C] the
    connections.  The engine announces a port with a name of its own, takes a port back when it has
    no connections any more, and connects and disconnects ports it has announced. *)

Definition vport : Type := string * string * Z * Z.

Inductive event :=
| Registered (e : engine) (n : nat)
| Unregistered (e : engine) (n : nat)
| Connected (e : engine) (a b : nat)
| Disconnected (e : engine) (a b : nat).

Definition is_named (e : engine) (n : nat) (nm : string * string) : Prop := split_colon (p_name (the_port e n)) = Some nm.

Definition names (V : list vport) : list (string * string) := map (fun v => v.1.1) V.

Inductive announces : event -> list vport * list ((string * string) * (string * string)) ->
    list vport * list ((string * string) * (string * string)) -> Prop :=
| an_register e n nm V C :
    is_named e n nm -> nm ∉ names V ->
    announces (Registered e n) (V, C) (V ++ [(nm, flags (the_port e n), ptype_id (the_port e n))], C)
| an_unregister e n nm f t V1 V2 C :
    is_named e n nm -> (forall c, c ∈ C -> c.1 <> nm /\ c.2 <> nm) ->
    announces (Unregistered e n) (V1 ++ (nm, f, t) :: V2, C) (V1 ++ V2, C)
| an_connect e a b na nb V C :
    is_named e a na -> is_named e b nb -> na ∈ names V -> nb ∈ names V -> (na, nb) ∉ C -> (nb, na) ∉ C ->
    announces (Connected e a b) (V, C) (V, C ++ [(na, nb)])
| an_disconnect e a b na nb V C1 C2 :
    is_named e a na -> is_named e b nb -> announces (Disconnected e a b) (V, C1 ++ (na, nb) :: C2) (V, C1 ++ C2).

Inductive announced : list event -> list vport * list ((string * string) * (string * string)) -> Prop :=
| announced_nil : announced [] ([], [])
| announced_snoc evs ev v v' : announced evs v -> announces ev v v' -> announced (evs ++ [ev]) v'.

Section view.
Context (mem : nat -> bool) (Hmem : forall k, mem k = true) (pids : client_ptr -> Z).

Definition notify (ev : event) (s : ctl) : option ctl :=
  match ev with
  | Registered e n => jackctl_port_registration_notify mem pids e n true s
  | Unregistered e n => jackctl_port_registration_notify mem pids e n false s
  | Connected e a b => jackctl_connection_notify mem e a b true s
  | Disconnected e a b => jackctl_connection_notify mem e a b false s
  end.

Definition notify_all (evs : list event) (s : ctl) : option ctl := foldl (fun s ev => s ≫= notify ev) (Some s) evs.

Definition qdesc (q : gport) : vport := (qname q, q_flags q, q_type q).
Definition xnames (x : gconn) : (string * string) * (string * string) := (qname (x_1 x), qname (x_2 x)).

(** The graph [(G, X)] is what was announced; [n] more events can be counted. *)
Record shows (n : Z) (s : ctl) (G : list gclient) (X : list gconn) (V : list vport) (C : list ((string * string) * (string * string))) : Prop := mk_shows {
  sh_rep : rep s G X;
  sh_settled : settled G;
  sh_ports : map qdesc (all_ports G) ≡ₚ V;
  sh_conns : map xnames X = C;
  sh_names : NoDup (names V);
  sh_nodup : NoDup C;
  sh_oneway : forall a b, (a, b) ∈ C -> (b, a) ∈ C -> a = b;
  sh_room : room n s;
  sh_version : 1 <= g_version s /\ g_version s + 2 * n < 2 ^ 64
}.

Lemma shows_names n s G X V C : shows n s G X V C -> map qname (all_ports G) ≡ₚ names V.
Proof. intros H. unfold names. rewrite <- (sh_ports _ _ _ _ _ _ H), map_map. done. Qed.

Lemma shows_nodup n s G X V C : shows n s G X V C -> NoDup (map qname (all_ports G)).
Proof. intros H. rewrite (shows_names _ _ _ _ _ _ H). apply H. Qed.

Lemma shows_port n s G X V C nm : shows n s G X V C -> nm ∈ names V -> exists q, q ∈ all_ports G /\ qname q = nm.
Proof.
  intros H Hn. rewrite <- (shows_names _ _ _ _ _ _ H) in Hn. apply list_elem_of_fmap in Hn as (q & -> & Hq). eauto.
Qed.

Lemma qname_inj n s G X V C q1 q2 :
  shows n s G X V C -> q1 ∈ all_ports G -> q2 ∈ all_ports G -> qname q1 = qname q2 -> q1 = q2.
Proof.
  intros H H1 H2 E. pose proof (head_filter_unique qname _ q1 (shows_nodup _ _ _ _ _ _ H) H1) as E1. rewrite E in E1.
  pose proof (head_filter_unique qname _ q2 (shows_nodup _ _ _ _ _ _ H) H2) as E2. congruence.
Qed.

Lemma version_room v n d : 1 <= v /\ v + 2 * (n + 1) < 2 ^ 64 -> 0 <= n -> 0 <= d <= 2 -> 1 <= u64 (v + d) /\ u64 (v + d) + 2 * n < 2 ^ 64.
Proof. intros. rewrite (wrap_small 64) by lia. lia. Qed.

Lemma room_counters n s s' : counters s' = counters s -> room (n + 1) s -> room n s'.
Proof. unfold room, counters. intros [= -> -> ->]. lia. Qed.

Lemma room_one n s : 0 <= n -> room (n + 1) s -> room 1 s.
Proof. unfold room. lia. Qed.
Lemma shows_init n : 0 <= n -> n < 2 ^ 62 -> shows n jack_controller_patchbay_init [] [] [] [].
Proof.
  intros. assert (D : forall A (f : A -> nat), distinct_below f 0 []) by (intros; split; [apply NoDup_nil_2|apply Forall_nil_2]).
  assert (I : forall A (f : A -> Z), ids_below f 1 []) by (intros; split; [apply NoDup_nil_2|apply Forall_nil_2]).
  split; [|apply Forall_nil_2|done|done|apply NoDup_nil_2|apply NoDup_nil_2|set_solver|unfold room; cbn; lia|cbn; lia].
  split; try done; try set_solver. apply NoDup_nil_2.
Qed.

Lemma register_shows n s G X V C e p nm :
  shows (n + 1) s G X V C -> 0 <= n -> is_named e p nm -> nm ∉ names V ->
  exists s' G' X', notify (Registered e p) s = Some s' /\ shows n s' G' X' (V ++ [(nm, flags (the_port e p), ptype_id (the_port e p))]) C.
Proof.
  intros H Hn Hp Hv. destruct nm as [cn pn].
  destruct (register_tracked mem Hmem s G X pids e p cn pn (sh_rep _ _ _ _ _ _ H) (sh_settled _ _ _ _ _ _ H) Hp (room_one n s Hn (sh_room _ _ _ _ _ _ H)))
    as (s' & G' & q & E & R & St & P & Q1 & Q2 & Q3 & Q4 & Hr & Hv').
  exists s', G', X. split; [done|]. split; try done; try apply H.
  - rewrite P, map_app, (sh_ports _ _ _ _ _ _ H). unfold qdesc, qname. cbn. by rewrite Q1, Q2, Q3, Q4.
  - unfold names. rewrite map_app. apply NoDup_app. split; [apply H|]. split; [|apply NoDup_singleton].
    by intros x Hx ->%list_elem_of_singleton.
  - apply Hr, H.
  - rewrite Hv'. apply version_room; [apply H|done|destruct (named cn G); lia].
Qed.

Lemma unregister_shows n s G X V1 V2 C e p nm f t :
  shows (n + 1) s G X (V1 ++ (nm, f, t) :: V2) C -> 0 <= n -> is_named e p nm -> (forall c, c ∈ C -> c.1 <> nm /\ c.2 <> nm) ->
  exists s' G' X', notify (Unregistered e p) s = Some s' /\ shows n s' G' X' (V1 ++ V2) C.
Proof.
  intros H Hn Hp Hc.
  assert (Hq : (nm, f, t) ∈ map qdesc (all_ports G)) by (rewrite (sh_ports _ _ _ _ _ _ H); set_solver).
  apply list_elem_of_fmap in Hq as (q & Eq & Hq). assert (Enm : qname q = nm) by (unfold qdesc in Eq; congruence).
  destruct (unregister_tracked mem s G X pids e p nm (sh_rep _ _ _ _ _ _ H) (sh_settled _ _ _ _ _ _ H))
    as (s' & G' & q' & E & R & St & En & P & Ct & d & Hv & Hd).
  { rewrite <- Enm. by apply list_elem_of_fmap_2. }
  { done. }
  { intros x Hx. apply (Hc (xnames x)). rewrite <- (sh_conns _ _ _ _ _ _ H). by apply list_elem_of_fmap_2. }
  assert (Hq' : q' ∈ all_ports G) by (rewrite P; left).
  assert (q' = q) as -> by (eapply qname_inj; [exact H|done|done|congruence]).
  exists s', G', X. split; [done|]. split; try done; try apply H.
  - pose proof (sh_ports _ _ _ _ _ _ H) as HP. rewrite P, <- Permutation_middle in HP. cbn [map] in HP. rewrite <- Eq in HP.
    by apply Permutation_cons_inv in HP.
  - pose proof (sh_names _ _ _ _ _ _ H) as HN. unfold names in *. rewrite map_app in HN |- *. cbn [map] in HN.
    rewrite <- Permutation_middle in HN. by apply NoDup_cons in HN as [_ HN].
  - eapply room_counters; [exact Ct|apply H].
  - rewrite Hv. apply version_room; [apply H|done|lia].
Qed.

Lemma connect_shows n s G X V C e a b na nb :
  shows (n + 1) s G X V C -> 0 <= n -> is_named e a na -> is_named e b nb -> na ∈ names V -> nb ∈ names V -> (na, nb) ∉ C -> (nb, na) ∉ C ->
  exists s' G' X', notify (Connected e a b) s = Some s' /\ shows n s' G' X' V (C ++ [(na, nb)]).
Proof.
  intros H Hn Ha Hb Va Vb C1 C2. destruct (shows_port _ _ _ _ _ _ _ H Va) as (q1 & Q1 & <-). destruct (shows_port _ _ _ _ _ _ _ H Vb) as (q2 & Q2 & <-).
  destruct (connect_tracked mem Hmem s G X e a b q1 q2 (sh_rep _ _ _ _ _ _ H) (shows_nodup _ _ _ _ _ _ H) Q1 Q2 Ha Hb (room_one n s Hn (sh_room _ _ _ _ _ _ H)))
    as (s' & x & E & R & E1 & E2 & Hr & Hv).
  exists s', G, (X ++ [x]). split; [done|]. split; try done; try apply H.
  - rewrite map_app, (sh_conns _ _ _ _ _ _ H). cbn. unfold xnames. by rewrite E1, E2.
  - apply NoDup_app. split; [apply H|]. split; [|apply NoDup_singleton]. by intros y Hy ->%list_elem_of_singleton.
  - intros x1 x2. rewrite !elem_of_app, !list_elem_of_singleton.
    intros [A1|A1] [A2|A2]; [by eapply H| | |]; [apply pair_eq in A2 as [-> ->]; done|apply pair_eq in A1 as [-> ->]; done|].
    apply pair_eq in A1 as [-> ->]. by apply pair_eq in A2 as [-> _].
  - apply Hr, H.
  - rewrite Hv. apply version_room; [apply H|done|lia].
Qed.
Lemma map_split {A B} (f : A -> B) (l : list A) b1 b b2 :
  map f l = b1 ++ b :: b2 -> exists l1 x l2, l = l1 ++ x :: l2 /\ map f l1 = b1 /\ f x = b /\ map f l2 = b2.
Proof.
  intros E. apply map_eq_app in E as (l1 & l2 & -> & E1 & E2). destruct l2 as [|x l2]; [done|]. injection E2 as E2 E3.
  by exists l1, x, l2.
Qed.

Lemma disconnect_shows n s G X V C1 C2 e a b na nb :
  shows (n + 1) s G X V (C1 ++ (na, nb) :: C2) -> 0 <= n -> is_named e a na -> is_named e b nb ->
  exists s' G' X', notify (Disconnected e a b) s = Some s' /\ shows n s' G' X' V (C1 ++ C2).
Proof.
  intros H Hn Ha Hb. destruct (map_split _ _ _ _ _ (sh_conns _ _ _ _ _ _ H)) as (X1 & x & X2 & -> & <- & Ex & <-).
  injection Ex as <- <-. destruct (rep_ends _ _ _ (sh_rep _ _ _ _ _ _ H) x) as [Q1 Q2]; [set_solver|].
  destruct (disconnect_tracked mem s G X1 x X2 e a b (x_1 x) (x_2 x) (sh_rep _ _ _ _ _ _ H) (shows_nodup _ _ _ _ _ _ H) Q1 Q2 Ha Hb)
    as (s' & E & R & Ct & Hv).
  { by left. }
  { apply Forall_forall. intros y Hy L. pose proof (sh_nodup _ _ _ _ _ _ H) as N. apply NoDup_app in N as (_ & N & _).
    assert (Hin : xnames y ∈ map xnames X1) by (by apply list_elem_of_fmap_2). apply (N _ Hin). destruct L as [[L1 L2]|[L1 L2]].
    - unfold xnames. rewrite L1, L2. left.
    - unfold xnames in *. rewrite L1, L2 in Hin |- *. rewrite (sh_oneway _ _ _ _ _ _ H (qname (x_1 x)) (qname (x_2 x))); [left|apply elem_of_app; right; left|apply elem_of_app; by left]. }
  exists s', G, (X1 ++ X2). split; [done|]. split; try done; try apply H.
  - by rewrite map_app.
  - pose proof (sh_nodup _ _ _ _ _ _ H) as N. rewrite <- Permutation_middle in N. by apply NoDup_cons in N as [_ N].
  - assert (Hsub : forall c, c ∈ map xnames X1 ++ map xnames X2 -> c ∈ map xnames X1 ++ (qname (x_1 x), qname (x_2 x)) :: map xnames X2)
      by (intros c Hc; rewrite <- Permutation_middle; by right).
    intros y z Hy Hz. apply (sh_oneway _ _ _ _ _ _ H); by apply Hsub.
  - eapply room_counters; [exact Ct|apply H].
  - rewrite Hv. apply version_room; [apply H|done|lia].
Qed.

Lemma announce_shows n s G X v v' ev :
  announces ev v v' -> shows (n + 1) s G X v.1 v.2 -> 0 <= n ->
  exists s' G' X', notify ev s = Some s' /\ shows n s' G' X' v'.1 v'.2.
Proof.
  intros [] Sh Hn; cbn [fst snd] in *; [by eapply register_shows|by eapply unregister_shows|by eapply connect_shows|by eapply disconnect_shows].
Qed.

Lemma announced_shows evs v n :
  announced evs v -> 0 <= n -> n + zlen evs < 2 ^ 62 ->
  exists s G X, notify_all evs jack_controller_patchbay_init = Some s /\ shows n s G X v.1 v.2.
Proof.
  intros Ha. revert n. induction Ha as [|evs ev v v' Ha IH Hv]; intros n Hn Hb.
  - exists jack_controller_patchbay_init, [], []. split; [done|]. apply shows_init; [done|cbn in Hb; lia].
  - rewrite length_app in Hb. cbn [length] in Hb. destruct (IH (n + 1)) as (s & G & X & E & H); [lia|lia|].
    destruct (announce_shows n s G X v v' ev Hv H Hn) as (s' & G' & X' & E' & H'). exists s', G', X'. split; [|done].
    unfold notify_all in *. by rewrite foldl_app, E.
Qed.

(** C23: The engine announces ports, each once until it takes it back and with one name, and
    connections between them, each once until it takes it back; a port is taken back when
    it has no connections.  While memory lasts, the control interface then follows
    no bad pointer, and a query on D-Bus for the graph answers with exactly the announced ports,
    each once and under its client, and the announced connections; clients without ports are
    gone, and ids are distinct.  (A second announcement, a change of the name and the end of
    memory are the subject of [announced_twice_stays], [renamed_port_stays] and
    [out_of_memory_crashes].) *)
Theorem patchbay_mirrors_server evs V C append_ok :
  announced evs (V, C) -> zlen evs < 2 ^ 62 -> (forall k, append_ok k = true) ->
  exists s G X, notify_all evs jack_controller_patchbay_init = Some s /\
    jack_controller_dbus_get_graph append_ok (Some 0) s = Some (Method_return (encode_graph (g_version s) G X)) /\
    jack_controller_dbus_get_all_ports append_ok s = Some (Method_return ([Open] ++ map (fun q => Str (full_name q)) (all_ports G) ++ [Close])) /\
    map qdesc (all_ports G) ≡ₚ V /\ map xnames X = C /\
    (forall k, k ∈ G -> k_ports k <> [] /\ forall q, q ∈ k_ports k -> q_cid q = k_id k /\ q_cname q = k_name k) /\
    NoDup (map k_name G) /\ NoDup (map k_id G) /\ NoDup (map q_id (all_ports G)) /\ NoDup (map x_id X).
Proof.
  intros Ha Hb Hok. destruct (announced_shows evs _ 0 Ha) as (s & G & X & E & H); [lia|lia|].
  exists s, G, X. split; [done|]. pose proof (sh_rep _ _ _ _ _ _ H) as R.
  assert (Hm : forall l, method_return append_ok l = Method_return l).
  { intros l. unfold method_return. rewrite (proj2 (forallb_forall _ _)); [done|auto]. }
  rewrite (get_graph_eq _ _ _ _ _ R), (get_all_ports_eq _ _ _ _ R). rewrite !Hm, Hok. cbn [negb].
  pose proof (sh_version _ _ _ _ _ _ H). rewrite Z.gtb_ltb, (proj2 (Z.ltb_ge _ _)), (proj2 (Z.ltb_lt _ _)) by lia.
  do 2 (split; [done|]). split; [apply H|]. split; [apply H|]. split.
  - intros k Hk. pose proof (sh_settled _ _ _ _ _ _ H) as St. unfold settled in St. rewrite Forall_forall in St.
    split; [by apply St|]. intros q Hq. destruct (rep_owned _ _ _ R k q Hk Hq) as (_ & _ & ? & ?). done.
  - split; [apply R|]. split; [apply (rep_kid _ _ _ R)|]. split; [apply (rep_qid _ _ _ R)|apply (rep_xid _ _ _ R)].
Qed.
(** A port that is announced twice, as [jack_client_activate] does when a
    client is activated again, stays in the graph when it is unregistered. *)
Theorem announced_twice_stays n s G X V C e p nm :
  shows n s G X V C -> 3 <= n -> is_named e p nm -> nm ∉ names V ->
  exists s' G' X', notify_all [Registered e p; Registered e p; Unregistered e p] s = Some s' /\ rep s' G' X' /\
    exists q, q ∈ all_ports G' /\ qname q = nm.
Proof.
  intros H Hn Hp Hv. destruct nm as [cn pn]. pose proof (sh_room _ _ _ _ _ _ H) as Hr. pose proof (sh_rep _ _ _ _ _ _ H) as R.
  assert (Hr1 : room (1 + 1) s) by (unfold room in *; lia).
  destruct (register_tracked mem Hmem s G X pids e p cn pn R (sh_settled _ _ _ _ _ _ H) Hp (room_one 1 s ltac:(lia) Hr1))
    as (s1 & G1 & q1 & E1 & R1 & St1 & P1 & A1 & A2 & _ & _ & Hm & _).
  destruct (register_tracked mem Hmem s1 G1 X pids e p cn pn R1 St1 Hp (Hm 1 Hr1)) as (s2 & G2 & q2 & E2 & R2 & St2 & P2 & B1 & B2 & _).
  assert (P : map qname (all_ports G2) ≡ₚ (cn, pn) :: (cn, pn) :: map qname (all_ports G)).
  { rewrite P2, P1, !map_app. cbn [map]. unfold qname at 2 3. rewrite A1, A2, B1, B2, <- app_assoc. symmetry. apply (Permutation_app_comm [_; _]). }
  destruct (unregister_tracked mem s2 G2 X pids e p (cn, pn) R2 St2) as (s3 & G3 & q & E3 & R3 & _ & Eq & P3 & _).
  { rewrite P. left. }
  { done. }
  { intros x Hx. destruct (rep_ends _ _ _ R x Hx) as [X1 X2].
    split; intros E; apply Hv; rewrite <- E, <- (shows_names _ _ _ _ _ _ H); by apply list_elem_of_fmap_2. }
  exists s3, G3, X. split; [unfold notify_all; cbn [foldl mbind option_bind notify]; rewrite E1; cbn [mbind option_bind notify]; rewrite E2; exact E3|].
  split; [done|]. rewrite P3 in P. cbn [map] in P. rewrite Eq in P. apply Permutation_cons_inv in P.
  assert (Hin : (cn, pn) ∈ map qname (all_ports G3)) by (rewrite P; left). apply list_elem_of_fmap in Hin as (y & Ey & Hy). eauto.
Qed.

(** A port whose name was changed after it was announced stays in the graph
    when it is unregistered. *)
Theorem renamed_port_stays n s G X V C e p nm :
  shows n s G X V C -> is_named e p nm -> nm ∉ names V -> notify (Unregistered e p) s = Some s.
Proof.
  intros H Hp Hv. apply (unregister_unknown mem s G X pids e p nm); [apply H| |done].
  by rewrite (shows_names _ _ _ _ _ _ H).
Qed.
End view.
(** ** Ports by their ids *)

Definition fits (q : gport) : Prop := (String.length (q_cname q) + String.length (q_name q) + 2 <= full_name_size)%nat.

(** The search on the ports of all clients. *)
Fixpoint find_flat (id1 id2 : Z) (L : list gport) (found : Z) (buf : option string * option string) : option (option string * option string) :=
  match L with
  | [] => None
  | q :: L =>
      let hit1 := q_id q =? id1 in
      let hit2 := q_id q =? id2 in
      if hit1 || hit2 then
        let buf := (if hit1 then Some (full_name q) else buf.1, if hit2 then Some (full_name q) else buf.2) in
        let found := found + Z.b2z hit1 + Z.b2z hit2 in
        if found =? 2 then Some buf else find_flat id1 id2 L found buf
      else find_flat id1 id2 L found buf
  end.

Lemma compose_fits s G X k q :
  rep s G X -> k ∈ G -> q ∈ k_ports k -> fits q -> jackctl_compose_port_fullname (jc_of k) (jp_of q) = Some (Some (full_name q)).
Proof.
  intros R Hk Hq Hf. destruct (rep_owned _ _ _ R k q Hk Hq) as (_ & _ & _ & Ec).
  unfold jackctl_compose_port_fullname, compose_name, fits in *. cbn -[full_name_size String.append].
  rewrite <- Ec, bool_decide_false by lia. done.
Qed.

Section by_id.
Context (s : ctl) (G : list gclient) (X : list gconn) (R : rep s G X) (id1 id2 : Z).
Context (Hfits : forall q, q ∈ all_ports G -> q_id q = id1 \/ q_id q = id2 -> fits q).

Lemma find_in_ports_flat k L rest found buf (K : Z -> option string * option string -> option (option (option string * option string))) :
  k ∈ G -> (forall q, q ∈ L -> q ∈ k_ports k) -> (forall f b, K f b = Some (find_flat id1 id2 rest f b)) ->
  (r ← find_in_ports (jc_of k) id1 id2 (map q_ptr L) found buf s; match r with inr r => Some r | inl (f, b) => K f b end)
    = Some (find_flat id1 id2 (L ++ rest) found buf).
Proof.
  intros Hk. revert found buf. induction L as [|q L IH]; intros found buf HL HK; [cbn; apply HK|].
  assert (Hq : q ∈ k_ports k) by (apply HL; left). assert (Ha : q ∈ all_ports G) by (apply elem_all_ports; eauto).
  assert (HL' : forall q, q ∈ L -> q ∈ k_ports k) by (intros; apply HL; by right).
  cbn [map find_in_ports app find_flat]. destruct (rep_port _ _ _ R q Ha) as [-> _]. cbn [mbind option_bind].
  change (jp_id (jp_of q)) with (q_id q). destruct ((q_id q =? id1) || (q_id q =? id2)) eqn:Eh; [|by apply IH].
  assert (Hid : q_id q = id1 \/ q_id q = id2) by (clear - Eh; lia).
  rewrite (compose_fits s G X k q R Hk Hq (Hfits q Ha Hid)). cbn [mbind option_bind].
  destruct (_ =? 2); [done|by apply IH].
Qed.

Lemma find_in_clients_flat G' found buf :
  (forall k, k ∈ G' -> k ∈ G) -> find_in_clients id1 id2 (map k_ptr G') found buf s = Some (find_flat id1 id2 (all_ports G') found buf).
Proof.
  revert found buf. induction G' as [|k G' IH]; intros found buf HG; [done|]. cbn [map find_in_clients].
  assert (Hk : k ∈ G) by (apply HG; left). destruct (rep_client _ _ _ R k Hk) as [-> _]. cbn [mbind option_bind].
  rewrite all_ports_cons. apply find_in_ports_flat; [done|done|]. intros f b. apply IH. intros; apply HG; by right.
Qed.

Lemma find_flat_skip A L found buf :
  (forall q, q ∈ A -> q_id q <> id1 /\ q_id q <> id2) -> find_flat id1 id2 (A ++ L) found buf = find_flat id1 id2 L found buf.
Proof.
  induction A as [|q A IH]; intros HA; [done|]. cbn [app find_flat]. destruct (HA q) as [N1 N2]; [left|].
  apply Z.eqb_neq in N1, N2. rewrite N1, N2. cbn [orb]. apply IH. intros; apply HA; by right.
Qed.
End by_id.

Lemma list_split_two {A} (l : list A) x y :
  x ∈ l -> y ∈ l -> x <> y -> (exists a b c, l = a ++ x :: b ++ y :: c) \/ (exists a b c, l = a ++ y :: b ++ x :: c).
Proof.
  intros Hx Hy Hn. apply list_elem_of_split in Hx as (a & b & ->). apply elem_of_app in Hy as [Hy|[->|Hy]%elem_of_cons]; [|done|].
  - right. apply list_elem_of_split in Hy as (a1 & a2 & ->). exists a1, a2, b. by rewrite <- app_assoc.
  - left. apply list_elem_of_split in Hy as (b1 & b2 & ->). by exists a, b1, b2.
Qed.

Lemma distinct_ids_ne {A} (f : A -> Z) a x b y c :
  NoDup (map f (a ++ x :: b ++ y :: c)) -> (forall z, z ∈ a ++ b -> f z <> f x /\ f z <> f y) /\ f x <> f y.
Proof.
  intros N. replace (a ++ x :: b ++ y :: c) with (a ++ [x] ++ b ++ [y] ++ c) in N by done.
  assert (P : a ++ [x] ++ b ++ [y] ++ c ≡ₚ x :: y :: (a ++ b) ++ c) by solve_Permutation. rewrite P in N. cbn [map] in N.
  apply NoDup_cons in N as [N1 N]. apply NoDup_cons in N as [N2 _]. split.
  - intros z Hz. assert (f z ∈ map f ((a ++ b) ++ c)) by (apply list_elem_of_fmap_2, elem_of_app; by left).
    split; intros E; [apply N1; rewrite <- E; by right|apply N2; by rewrite <- E].
  - intros E. apply N1. rewrite E. left.
Qed.

(** Two different ports are found under their ids, with their own names. *)
Lemma find_flat_two a x b y c id1 id2 :
  NoDup (map q_id (a ++ x :: b ++ y :: c)) -> id1 = q_id x /\ id2 = q_id y \/ id1 = q_id y /\ id2 = q_id x ->
  find_flat id1 id2 (a ++ x :: b ++ y :: c) 0 (None, None) =
    Some (if id1 =? q_id x then (Some (full_name x), Some (full_name y)) else (Some (full_name y), Some (full_name x))).
Proof.
  intros [Nd Ne]%distinct_ids_ne. pose proof (not_eq_sym Ne) as Ne'. apply Z.eqb_neq in Ne, Ne'.
  intros [[-> ->]|[-> ->]]; (rewrite find_flat_skip by (intros q Hq; destruct (Nd q); [apply elem_of_app; by left|tauto]));
    cbn [find_flat]; rewrite ?Z.eqb_refl, ?Ne, ?Ne'; cbn [orb Z.b2z fst snd];
    (change (0 + 1 + 0 =? 2) with false || change (0 + 0 + 1 =? 2) with false); cbv iota;
    (rewrite find_flat_skip by (intros q Hq; destruct (Nd q); [apply elem_of_app; by right|tauto]));
    cbn [find_flat]; by rewrite ?Z.eqb_refl, ?Ne, ?Ne'.
Qed.

Lemma find_by_id s G X q1 q2 :
  rep s G X -> q1 ∈ all_ports G -> q2 ∈ all_ports G -> q1 <> q2 -> fits q1 -> fits q2 ->
  jackctl_find_client_ports_by_id (q_id q1) (q_id q2) s = Some (Some (Some (full_name q1), Some (full_name q2))).
Proof.
  intros R H1 H2 Hn F1 F2. unfold jackctl_find_client_ports_by_id. rewrite (rep_clients _ _ _ R).
  pose proof (proj1 (rep_qid _ _ _ R)) as N.
  assert (Hi : forall q q', q ∈ all_ports G -> q' ∈ all_ports G -> q_id q = q_id q' -> q = q').
  { intros q q' Hq Hq' E. pose proof (head_filter_unique q_id _ q N Hq) as E1. rewrite E, (head_filter_unique q_id _ q' N Hq') in E1. congruence. }
  rewrite (find_in_clients_flat s G X R); [|intros q Hq [E|E]; [by rewrite (Hi q q1)|by rewrite (Hi q q2)]|done]. f_equal.
  destruct (list_split_two _ _ _ H1 H2 Hn) as [(a & b & c & E)|(a & b & c & E)]; rewrite E in N |- *;
    rewrite find_flat_two by tauto; [by rewrite Z.eqb_refl|].
  destruct (Z.eqb_spec (q_id q1) (q_id q2)) as [Eq|]; [by apply Hi in Eq|done].
Qed.

(** A request on D-Bus to connect two ports by the ids of the patchbay is the
    connection request of the engine for the ports with these ids. *)
Theorem connect_by_id_correct env s G X q1 q2 e :
  rep s G X -> q1 ∈ all_ports G -> q2 ∈ all_ports G -> q1 <> q2 -> fits q1 -> fits q2 ->
  jack_controller_dbus_connect_ports_by_id env true (Some (q_id q1, q_id q2)) s e =
    Some (answer_of (succeeded (Graph.Graph.jack_port_do_connect env (full_name q1) (full_name q2) e))).
Proof.
  intros R H1 H2 Hn F1 F2. unfold jack_controller_dbus_connect_ports_by_id, jackctl_connect_ports_by_id. cbn [negb].
  by rewrite (find_by_id s G X q1 q2).
Qed.

(** ** Stopping *)

Definition with_ports (k : gclient) (L : list gport) : gclient := k <| k_ports := L |>.

Lemma stop_ports_tracked k G2 b L s :
  jc_id b = k_id k -> jc_name b = k_name k -> jc_pid b = k_pid k -> jc_context b = Some (k_ctx k) ->
  rep s (with_ports k L :: G2) [] ->
  exists s', stop_ports (k_ptr k) b (map q_ptr L) s = Some s' /\ rep s' (with_ports k [] :: G2) [].
Proof.
  destruct b as [bi bn bp bl bc]. cbn [jc_id jc_name jc_pid jc_context]. intros -> -> -> ->. revert s. induction L as [|q L IH]; intros s R; [by exists s|]. cbn [map stop_ports].
  destruct (rep_port_facts s [] (with_ports k (q :: L)) [] q L G2 [] R eq_refl) as (E1 & E2 & E3 & E4 & D1 & D2).
  destruct (rep_client _ _ _ R (with_ports k (q :: L))) as [_ Eg]; [left|].
  rewrite E1. cbn [mbind option_bind jc_id jc_context].
  destruct (port_gone s (with_ports k (q :: L)) [] q L (brk s)) as (s2 & Es & (C1 & C2 & C3 & C4) & C5 & C6 & C7 & C8 & C9 & C10 & C11 & C12); try done.
  change (jp_id (jp_of q)) with (q_id q). change (jp_context (jp_of q)) with (Some (q_ctx q)).
  change (k_id (with_ports k (q :: L))) with (k_id k) in Es. change (k_ctx (with_ports k (q :: L))) with (k_ctx k) in Es.
  rewrite Es. cbn [mbind option_bind]. apply IH.
  apply (port_removed_rep s _ [] (with_ports k (q :: L)) [] q L G2 []); [done|done|by intros x ?%elem_of_nil|].
  split; try done; cbn; by rewrite ?C4, ?C6.
Qed.

(** When no port is connected, stopping the server empties the graph: every
    port and client disappears, nothing is freed twice and no pointer is left. *)
Theorem server_stop_correct s G :
  rep s G [] -> exists s', jackctl_server_stop s = Some s' /\ rep s' [] [].
Proof.
  intros R. unfold jackctl_server_stop. rewrite (rep_clients _ _ _ R). revert s R.
  induction G as [|k G IH]; intros s R; [by exists s|]. cbn [map stop_clients].
  destruct (rep_client _ _ _ R k) as [-> _]; [left|]. cbn [mbind option_bind].
  change (jc_ports (jc_of k)) with (map q_ptr (k_ports k)).
  destruct (stop_ports_tracked k G (jc_of k) (k_ports k) s) as (s1 & -> & R1); [done..|by destruct k|]. cbn [mbind option_bind].
  destruct (rep_client _ _ _ R1 (with_ports k [])) as [_ Eg]; [left|].
  destruct (client_gone s1 (with_ports k [])) as (s2 & Es & K1 & K2 & K3 & K4 & K5 & K6 & K7 & K8 & K9); [done|rewrite (rep_gclients _ _ _ R1); left|].
  change (jc_id (jc_of k)) with (k_id (with_ports k [])). change (jc_context (jc_of k)) with (Some (k_ctx (with_ports k []))).
  rewrite Es. cbn [mbind option_bind]. apply IH.
  apply (client_removed_rep s1 _ [] (with_ports k []) G); [done|done|]. split; try done; cbn; [|by rewrite K4].
  rewrite (rep_clients _ _ _ R1). cbn [map slist_remove]. by rewrite decide_True.
Qed.
End PatchbayView.
