(* ===== verification/PatchbayRun.v ===== *)
(** * The patchbay at work

    Two ports are announced and connected; the theorems of PatchbayView.v are
    applied to the states on the way, and three failures are computed. *)

From S2P Require Import Prelude JSList Engine Events Graph Clients Server ServerRun CycleRun Jackctl Patchbay PatchbayView.

Local Open Scope Z_scope.

Module PatchbayRun.
Import Jackctl Patchbay PatchbayView.

Definition named_port (name : string) (fl : Z) : port := null_port <| p_name := name |> <| flags := fl |>.

(** An engine with an output and an input, and with the output renamed. *)
Definition e0 : engine := CycleRun.run_all <| ports := [named_port "a:out" 2; named_port "b:in" 1] |>.
Definition e_renamed : engine := CycleRun.run_all <| ports := [named_port "a:main" 2; named_port "b:in" 1] |>.

Definition mem_ok : nat -> bool := fun _ => true.
Definition pids0 : client_ptr -> Z := fun _ => 7.

Definition evs : list event := [Registered e0 0; Registered e0 1; Connected e0 0 1].
Definition V0 : list vport := [("a", "out", 2, 0); ("b", "in", 1, 0)].
Definition C0 : list ((string * string) * (string * string)) := [(("a", "out"), ("b", "in"))].

Lemma evs_announced : announced evs (V0, C0).
Proof.
  apply (announced_snoc [Registered e0 0; Registered e0 1] _ (V0, [])).
  - apply (announced_snoc [Registered e0 0] _ ([("a", "out", 2, 0)], [])).
    + apply (announced_snoc [] _ ([], [])); [constructor|]. apply (an_register e0 0 ("a", "out") [] []); [reflexivity|apply not_elem_of_nil].
    + apply (an_register e0 1 ("b", "in") [("a", "out", 2, 0)] []); [reflexivity|]. cbn. by intros ?%list_elem_of_singleton.
  - apply (an_connect e0 0 1 ("a", "out") ("b", "in") V0 []); [reflexivity|reflexivity|left|right; left|apply not_elem_of_nil..].
Qed.

Lemma patchbay_mirrors_server_witness :
  exists s G X, notify_all mem_ok pids0 evs jack_controller_patchbay_init = Some s /\
    jack_controller_dbus_get_graph (fun _ => true) (Some 0) s = Some (Method_return (encode_graph (g_version s) G X)) /\
    map qdesc (all_ports G) ≡ₚ V0 /\ map xnames X = C0.
Proof.
  destruct (patchbay_mirrors_server mem_ok (fun _ => eq_refl) pids0 evs V0 C0 (fun _ => true) evs_announced) as (s & G & X & E & Eg & _ & P & Q & _);
    [vm_compute; reflexivity|reflexivity|]. exists s, G, X. exact (conj E (conj Eg (conj P Q))).
Defined.

(** What the query says at the end. *)
Lemma graph_at_the_end :
  (s ← notify_all mem_ok pids0 evs jack_controller_patchbay_init; jack_controller_dbus_get_graph (fun _ => true) (Some 0) s) =
  Some (Method_return
    [U64 6; Open; Open; U64 1; Str "a"; Open; Open; U64 1; Str "out"; U32 2; U32 0; Close; Close; Close;
     Open; U64 2; Str "b"; Open; Open; U64 2; Str "in"; U32 1; U32 0; Close; Close; Close; Close;
     Open; Open; U64 1; Str "a"; U64 1; Str "out"; U64 2; Str "b"; U64 2; Str "in"; U64 1; Close; Close]).
Proof. vm_compute. reflexivity. Qed.

Lemma shows_evs : exists s G X, notify_all mem_ok pids0 evs jack_controller_patchbay_init = Some s /\ shows 3 s G X V0 C0.
Proof. apply (announced_shows mem_ok (fun _ => eq_refl) pids0 evs (V0, C0) 3 evs_announced); vm_compute; [discriminate|reflexivity]. Qed.

Lemma announced_twice_stays_witness :
  exists s' G' X', notify_all mem_ok pids0 [Registered e0 0; Registered e0 0; Unregistered e0 0] jack_controller_patchbay_init = Some s' /\ rep s' G' X' /\
    exists q, q ∈ all_ports G' /\ qname q = ("a", "out").
Proof.
  apply (announced_twice_stays mem_ok (fun _ => eq_refl) pids0 3 jack_controller_patchbay_init [] [] [] [] e0 0 ("a", "out"));
    [apply (shows_init mem_ok (fun _ => eq_refl)); lia|lia|reflexivity|apply not_elem_of_nil].
Defined.

Lemma renamed_port_stays_witness :
  exists s G X, shows 3 s G X V0 C0 /\ notify mem_ok pids0 (Unregistered e_renamed 0) s = Some s.
Proof.
  destruct shows_evs as (s & G & X & _ & H). exists s, G, X. split; [exact H|].
  apply (renamed_port_stays mem_ok pids0 3 s G X V0 C0 e_renamed 0 ("a", "main") H); [reflexivity|].
  apply (bool_decide_eq_false (_ ∈ _)). vm_compute. reflexivity.
Defined.

Lemma server_stop_correct_witness :
  exists s', jackctl_server_stop jack_controller_patchbay_init = Some s' /\ rep s' [] [].
Proof. apply (server_stop_correct jack_controller_patchbay_init []). apply (shows_init mem_ok (fun _ => eq_refl) 0); lia. Defined.

(** The two ports under their ids. *)
Lemma connect_by_id_correct_witness :
  exists s q1 q2, forall e, jack_controller_dbus_connect_ports_by_id good_env true (Some (q_id q1, q_id q2)) s e =
    Some (answer_of (succeeded (Graph.Graph.jack_port_do_connect good_env (full_name q1) (full_name q2) e))) /\
    full_name q1 = "a:out" /\ full_name q2 = "b:in".
Proof.
  destruct shows_evs as (s & G & X & _ & H).
  destruct (shows_port 3 s G X V0 C0 ("a", "out") H) as (q1 & H1 & E1); [left|].
  destruct (shows_port 3 s G X V0 C0 ("b", "in") H) as (q2 & H2 & E2); [right; left|].
  injection E1 as E1 E1'. injection E2 as E2 E2'. exists s, q1, q2. intros e. split.
  - apply (connect_by_id_correct good_env s G X q1 q2 e (sh_rep _ _ _ _ _ _ H) H1 H2); [intros ->; congruence|unfold fits..].
    + rewrite E1, E1'. vm_compute. repeat constructor.
    + rewrite E2, E2'. vm_compute. repeat constructor.
  - unfold full_name. rewrite E1, E1', E2, E2'. split; reflexivity.
Defined.

(** Stopping the server while ports are connected frees the ports and leaves
    the connections: the next query for the graph reads freed memory. *)
Theorem stop_leaves_connections :
  exists s s', announced evs (V0, C0) /\ notify_all mem_ok pids0 evs jack_controller_patchbay_init = Some s /\
    jackctl_server_stop s = Some s' /\ jack_controller_dbus_get_graph (fun _ => true) (Some 0) s' = None.
Proof. eexists _, _. split; [exact evs_announced|]. split; [vm_compute; reflexivity|]. split; vm_compute; reflexivity. Qed.

(** The patchbay runs out of memory for a client; the announcement of its port then
    follows a null pointer. *)
Theorem out_of_memory_crashes :
  jackctl_port_registration_notify (fun k => negb (k =? 2)%nat) pids0 e0 0 true jack_controller_patchbay_init = None.
Proof. vm_compute. reflexivity. Qed.
End PatchbayRun.
