(* ===== verification/Settings.v ===== *)
(** * Parameters and settings of the control interface (server/jackctl.c,
      jackcontroller.c, jackcontroller_xml.c, jackcontroller_xml_expat.c,
      jackcontroller_xml_write_raw.c)

    The server and every driver have parameters; jackdbus saves those that were
    set in an XML file and loads them when it starts.  A driver is loaded with the
    list of the parameters that were set for it.

    The XML parser (expat) is not part of the repository: saving gives the text of
    the file, loading begins with the elements and character data that the parser finds in
    it, and it may hand over character data in pieces.  SettingsFile.v connects the two.  [None] is undefined behaviour or the use of an uninitialised
    variable. *)

From S2P Require Import Prelude.

Local Open Scope Z_scope.

Module Settings.

Inductive jackctl_param_type_t := JackParamInt | JackParamUInt | JackParamChar | JackParamString | JackParamBool.

(** [jackctl_parameter_value], with the member that was written. *)
Inductive value := VInt (i : Z) | VUInt (ui : Z) | VChar (c : Ascii.ascii) | VString (str : string) | VBool (b : bool).

#[global] Instance value_eq_dec : EqDecision value.
Proof. solve_decision. Defined.

(** ** Parameters

    [pm_driver_param] is [driver_parameter_ptr]: the place of the entry in the list
    of the driver, from which nothing is removed. *)
Record jackctl_parameter := mk_parameter {
  pm_name : string; pm_short_description : string; pm_long_description : string;
  pm_type : jackctl_param_type_t; pm_is_set : bool; pm_value : value; pm_default : value;
  pm_character : Ascii.ascii; pm_driver_param : option nat
}.

#[global] Instance jackctl_parameter_assignable : Assignable jackctl_parameter :=
  fun r => mk_parameter (pm_name r) (pm_short_description r) (pm_long_description r) (pm_type r) (pm_is_set r) (pm_value r) (pm_default r) (pm_character r) (pm_driver_param r).

Record jackctl_driver := mk_driver { dr_name : string; dr_parameters : list jackctl_parameter; dr_set : list (Ascii.ascii * value) }.

#[global] Instance jackctl_driver_assignable : Assignable jackctl_driver :=
  fun r => mk_driver (dr_name r) (dr_parameters r) (dr_set r).

(** The descriptor of a parameter of a driver. *)
Record jack_driver_param_desc_t := mk_desc {
  ds_name : string; ds_character : Ascii.ascii; ds_type : jackctl_param_type_t; ds_value : value;
  ds_short_desc : string; ds_long_desc : string
}.

Definition jackctl_add_parameter (name short long : string) (t : jackctl_param_type_t) (v : value) : jackctl_parameter :=
  mk_parameter name short long t false v v Ascii.zero None.

Definition jackctl_add_driver_parameters (descs : list jack_driver_param_desc_t) : list jackctl_parameter :=
  map (fun d => jackctl_add_parameter (ds_name d) (ds_short_desc d) (ds_long_desc d) (ds_type d)
                  (match ds_type d, ds_value d with JackParamBool, VInt i => VBool (negb (i =? 0)) | _, v => v end)
                <| pm_character := ds_character d |>) descs.

(** The names and descriptors of the drivers in the directory, in the order the
    directory is read; of two drivers with one name the first is used. *)
Definition jack_drivers_load (found : list (string * list jack_driver_param_desc_t)) : list jackctl_driver :=
  fold_left (fun ds d => if bool_decide (d.1 ∈ map dr_name ds) then ds else ds ++ [mk_driver d.1 (jackctl_add_driver_parameters d.2) []]) found [].

(** What goes into the list of a driver for a value. *)
Definition driver_value (t : jackctl_param_type_t) (v : value) : option value :=
  match t, v with
  | JackParamInt, VInt _ | JackParamUInt, VUInt _ | JackParamChar, VChar _ | JackParamString, VString _ => Some v
  | JackParamBool, VBool b => Some (VInt (Z.b2z b))
  | _, _ => None
  end.

Definition assign_value (v : value) (p : jackctl_parameter) : jackctl_parameter := p <| pm_is_set := true |> <| pm_value := v |>.

(** [jackctl_parameter_set_value] on a parameter of the server. *)
Definition set_server_parameter (k : nat) (v : value) (ps : list jackctl_parameter) : list jackctl_parameter := alter (assign_value v) k ps.

(** The same on a parameter of a driver; [mem_ok] says whether [malloc] succeeds. *)
Definition jackctl_parameter_set_value (mem_ok : bool) (k : nat) (v : value) (d : jackctl_driver) : option (bool * jackctl_driver) :=
  p ← dr_parameters d !! k;
  match pm_driver_param p with
  | None =>
      if negb mem_ok then Some (false, d)
      else
        w ← driver_value (pm_type p) v;
        Some (true, d <| dr_set := dr_set d ++ [(pm_character p, w)] |>
                      <| dr_parameters ::= alter (fun p => assign_value v p <| pm_driver_param := Some (length (dr_set d)) |>) k |>)
  | Some i =>
      w ← driver_value (pm_type p) v;
      Some (true, d <| dr_set ::= alter (fun x => (x.1, w)) i |> <| dr_parameters ::= alter (assign_value v) k |>)
  end.

Definition jackctl_parameter_reset (p : jackctl_parameter) : jackctl_parameter :=
  if pm_is_set p then p <| pm_is_set := false |> <| pm_value := pm_default p |> else p.

Definition reset_driver_parameter (k : nat) (d : jackctl_driver) : jackctl_driver := d <| dr_parameters ::= alter jackctl_parameter_reset k |>.

(** ** The server *)

Definition quoted (s : string) : string := let q := String (Ascii.ascii_of_nat 34) EmptyString in q +:+ s +:+ q.

(** The parameters [jackctl_server_create] gives the server. *)
Definition server_parameters : list jackctl_parameter := [
  jackctl_add_parameter "realtime" "Whether to use realtime mode"
    "Use realtime scheduling. This is needed for reliable low-latency performance. On most systems, it requires JACK to run with special scheduler and memory allocation privileges, which may be obtained in several ways. On Linux you should use PAM."
    JackParamBool (VBool false);
  jackctl_add_parameter "realtime-priority" "Scheduler priority when running in realtime mode."
    EmptyString
    JackParamInt (VInt 10);
  jackctl_add_parameter "no-mem-lock" "Do not attempt to lock memory, even in realtime mode."
    EmptyString
    JackParamBool (VBool false);
  jackctl_add_parameter "temporary" "Exit once all clients have closed their connections."
    EmptyString
    JackParamBool (VBool false);
  jackctl_add_parameter "verbose" "Verbose mode."
    EmptyString
    JackParamBool (VBool false);
  jackctl_add_parameter "client-timeout" "Client timeout limit in milliseconds"
    "Client timeout limit in milliseconds. In realtime mode the client timeout must be smaller than the watchdog timeout (5000 msec)."
    JackParamInt (VInt 500);
  jackctl_add_parameter "no-zombies" "Prevent JACK from ever kicking out clients because they were too slow."
    "Prevent JACK from ever kicking out clients because they were too slow. JACK and its clients are still subject to the supervision of the watchdog thread or its equivalent."
    JackParamBool (VBool false);
  jackctl_add_parameter "port-max" "Maximum number of ports the JACK server can manage"
    EmptyString
    JackParamUInt (VUInt 256);
  jackctl_add_parameter "libs-unlock" "Unlock libraries GTK+, QT, FLTK, Wine."
    EmptyString
    JackParamBool (VBool false);
  jackctl_add_parameter "clock-source" "Clock source"
    "Select a specific wall clock.
  'c' - Cycle Counter
  'h' - HPET timer
  's' - System timer
"
    JackParamChar (VChar (Ascii.ascii_of_nat 115));
  jackctl_add_parameter "debug-timer" "Debug timer"
    EmptyString
    JackParamInt (VInt 0);
  jackctl_add_parameter "replace-registry" "Replace registry."
    "Remove the shared memory registry used by all JACK server instances before startup. This should rarely be used, and is intended only for occasions when the structure of this registry changes in ways that are incompatible across JACK versions (which is rare)."
    JackParamBool (VBool false);
  jackctl_add_parameter "midi-bufsize" "Override MIDI buffer size"
    ("User-specified MIDI buffer sizing. The units are " +:+ quoted "MIDI events per process() cycle" +:+ ", where an event occupies up to 4 bytes (as most common MIDI events do). The default buffer size is same as the one used for audio data, which will store about 2 MIDI events per sample. Typical values for event-count will range from 10 to about 500. Be aware that using very high values along with a large number of ports may cause JACK to fail to start because of the amount of memory that would be required.")
    JackParamUInt (VUInt 0);
  jackctl_add_parameter "timeout-threshold" "threshold for suspending processing"
    "If not zero, stop processing clients if JACK cannot complete the process cycle in time (typically caused by CPU overloading or misbehaved clients). The value specifies the number of miliseconds, during which consectutive process cycles must fail before JACK gives up. If you want to enable this behavour but are not sure about what value to set, use 250. Processing will resume on the next change to the port graph (i.e. a port is added, removed, connected or disconnected)"
    JackParamUInt (VUInt 0)
]%string.

(** ** Text *)

Definition minus : Ascii.ascii := Ascii.ascii_of_nat 45.
Definition plus : Ascii.ascii := Ascii.ascii_of_nat 43.

Definition digit (n : Z) : Ascii.ascii := Ascii.ascii_of_nat (Z.to_nat (48 + n)).

(** The decimal digits of a number, in front of what follows. *)
Fixpoint print_digits (fuel : nat) (n : Z) (rest : string) : string :=
  match fuel with
  | O => rest
  | S fuel =>
      let rest := String (digit (n mod 10)) rest in
      if n <? 10 then rest else print_digits fuel (n / 10) rest
  end.

(** [sprintf] with [%u] and [%d]. *)
Definition print_uint (n : Z) : string := print_digits 20 n EmptyString.
Definition print_int (n : Z) : string := if n <? 0 then String minus (print_uint (- n)) else print_uint n.

Definition digit_value (c : Ascii.ascii) : option Z :=
  let n := Z.of_nat (Ascii.nat_of_ascii c) in if (48 <=? n) && (n <=? 57) then Some (n - 48) else None.

Definition is_space (c : Ascii.ascii) : bool := let n := Z.of_nat (Ascii.nat_of_ascii c) in (n =? 32) || ((9 <=? n) && (n <=? 13)).

(** The number the leading digits make. *)
Fixpoint parse_digits (s : string) (acc : Z) : Z :=
  match s with
  | EmptyString => acc
  | String c s => match digit_value c with Some d => parse_digits s (acc * 10 + d) | None => acc end
  end.

Fixpoint skip_spaces (s : string) : string :=
  match s with
  | String c r => if is_space c then skip_spaces r else s
  | EmptyString => s
  end.

(** The sign and the digits behind the white space. *)
Definition parse_number (s : string) : Z :=
  match skip_spaces s with
  | String c r => if bool_decide (c = minus) then - parse_digits r 0
                  else if bool_decide (c = plus) then parse_digits r 0 else parse_digits (String c r) 0
  | EmptyString => 0
  end.

(** [atoi], undefined when the number is no [int]. *)
Definition atoi (s : string) : option Z :=
  let z := parse_number s in if (- 2 ^ 31 <=? z) && (z <? 2 ^ 31) then Some z else None.

(** [strtoul]: the magnitude is cut at the largest [unsigned long], then negated. *)
Definition strtoul (s : string) : Z :=
  let z := parse_number s in if 2 ^ 64 <=? Z.abs z then 2 ^ 64 - 1 else u64 z.

Definition JACK_PARAM_STRING_MAX : Z := 63.
Definition JACK_DRIVER_PARAM_STRING_MAX : Z := 63.

Definition jack_controller_settings_set_bool_option (s : string) : option bool :=
  if bool_decide (s = "true") then Some true else if bool_decide (s = "false") then Some false else None.

Definition jack_controller_settings_set_sint_option (s : string) : option Z := atoi s.

Definition jack_controller_settings_set_uint_option (s : string) : Z := u32 (strtoul s).

Definition jack_controller_settings_set_char_option (s : string) : option Ascii.ascii :=
  match s with String c EmptyString => Some c | _ => None end.

Definition jack_controller_settings_set_string_option (s : string) (max_size : Z) : option string :=
  if Z.of_nat (String.length s) >=? max_size then None else Some s.

(** The conversion both [jack_controller_settings_set_driver_option] and
    [jack_controller_settings_set_engine_option] make. *)
Definition read_option (t : jackctl_param_type_t) (s : string) : option value :=
  match t with
  | JackParamInt => VInt <$> jack_controller_settings_set_sint_option s
  | JackParamUInt => Some (VUInt (jack_controller_settings_set_uint_option s))
  | JackParamChar => VChar <$> jack_controller_settings_set_char_option s
  | JackParamString => VString <$> jack_controller_settings_set_string_option s (JACK_PARAM_STRING_MAX + 1)
  | JackParamBool => VBool <$> jack_controller_settings_set_bool_option s
  end.

(** What [jack_controller_settings_save_options] writes for a value. *)
Definition write_value (t : jackctl_param_type_t) (v : value) : option string :=
  match t, v with
  | JackParamInt, VInt i => Some (print_int i)
  | JackParamUInt, VUInt u => Some (print_uint u)
  | JackParamChar, VChar c => Some (if bool_decide (c = Ascii.zero) then EmptyString else String c EmptyString)
  | JackParamString, VString s => Some s
  | JackParamBool, VBool b => Some (if b then "true" else "false")%string
  | _, _ => None
  end.

(** ** The controller *)

Record controller := mk_controller {
  ct_parameters : list jackctl_parameter; ct_drivers : list jackctl_driver; ct_driver : option nat; ct_driver_set : bool
}.

#[global] Instance controller_assignable : Assignable controller :=
  fun r => mk_controller (ct_parameters r) (ct_drivers r) (ct_driver r) (ct_driver_set r).

Definition jack_controller_find_parameter (name : string) (ps : list jackctl_parameter) : option nat :=
  fst <$> list_find (fun p => pm_name p = name) ps.

Definition jack_controller_find_driver (name : string) (ds : list jackctl_driver) : option nat :=
  fst <$> list_find (fun d => dr_name d = name) ds.

(** Whether the driver is known, and the controller. *)
Definition jack_controller_select_driver (name : string) (ct : controller) : bool * controller :=
  match jack_controller_find_driver name (ct_drivers ct) with
  | None => (false, ct)
  | Some j => (true, ct <| ct_driver := Some j |> <| ct_driver_set := true |>)
  end.

Definition jack_controller_settings_set_engine_option (name s : string) (ct : controller) : option controller :=
  if bool_decide (name = "driver") then Some (jack_controller_select_driver s ct).2
  else
    match jack_controller_find_parameter name (ct_parameters ct) with
    | None => Some ct
    | Some k =>
        p ← ct_parameters ct !! k;
        v ← read_option (pm_type p) s;
        Some (ct <| ct_parameters ::= set_server_parameter k v |>)
    end.

Definition jack_controller_settings_set_driver_option (mem_ok : bool) (name s : string) (d : jackctl_driver) : option jackctl_driver :=
  match jack_controller_find_parameter name (dr_parameters d) with
  | None => Some d
  | Some k =>
      p ← dr_parameters d !! k;
      v ← read_option (pm_type p) s;
      r ← jackctl_parameter_set_value mem_ok k v d;
      Some r.2
  end.

(** ** Loading *)

Inductive xml_event := Start (el : string) (attr : list (string * string)) | Chars (s : string) | End_ (el : string).

Definition PARSE_CONTEXT_JACK : Z := 1.
Definition PARSE_CONTEXT_ENGINE : Z := 1.
Definition PARSE_CONTEXT_DRIVERS : Z := 2.
Definition PARSE_CONTEXT_DRIVER : Z := 3.
Definition PARSE_CONTEXT_OPTION : Z := 4.

(** [element] up to [depth], and the part of [option] that is used. *)
Record parse_context := mk_context {
  pc_error : bool; pc_element : list Z; pc_driver : option nat; pc_option : string; pc_name : option string
}.

#[global] Instance parse_context_assignable : Assignable parse_context :=
  fun r => mk_context (pc_error r) (pc_element r) (pc_driver r) (pc_option r) (pc_name r).

Definition push (x : Z) (c : parse_context) : parse_context := c <| pc_element := pc_element c ++ [x] |>.

Definition jack_controller_settings_callback_chrdata (s : string) (c : parse_context) : option parse_context :=
  if pc_error c then Some c
  else
    x ← last (pc_element c);
    Some (if x =? PARSE_CONTEXT_OPTION then
            if Z.of_nat (String.length (pc_option c)) + Z.of_nat (String.length s) >=? JACK_DRIVER_PARAM_STRING_MAX then c <| pc_error := true |>
            else c <| pc_option := pc_option c +:+ s |>
          else c).

(** The single attribute, named "name". *)
Definition name_attribute (attr : list (string * string)) : option string :=
  match attr with
  | [(n, v)] => if bool_decide (n = "name") then Some v else None
  | _ => None
  end.

Definition jack_controller_settings_callback_elstart (mem_ok : bool) (el : string) (attr : list (string * string)) (ct : controller) (c : parse_context) : parse_context :=
  if pc_error c then c
  else if bool_decide (10 <= length (pc_element c))%nat then c <| pc_error := true |>
  else if bool_decide (el = "jack") then push PARSE_CONTEXT_JACK c
  else if bool_decide (el = "engine") then push PARSE_CONTEXT_ENGINE c
  else if bool_decide (el = "drivers") then push PARSE_CONTEXT_DRIVERS c
  else if bool_decide (el = "driver") then
    match name_attribute attr with
    | None => c <| pc_error := true |>
    | Some n => push PARSE_CONTEXT_DRIVER c <| pc_driver := jack_controller_find_driver n (ct_drivers ct) |>
    end
  else if bool_decide (el = "option") then
    match name_attribute attr with
    | None => c <| pc_error := true |>
    | Some n => if negb mem_ok then c <| pc_error := true |>
                else push PARSE_CONTEXT_OPTION c <| pc_name := Some n |> <| pc_option := EmptyString |>
    end
  else c <| pc_error := true |>.

Definition update_driver (j : nat) (f : jackctl_driver -> option jackctl_driver) (ct : controller) : option controller :=
  d ← ct_drivers ct !! j; d ← f d; Some (ct <| ct_drivers ::= fun l => <[j := d]> l |>).

Definition jack_controller_settings_callback_elend (mem_ok : bool) (ct : controller) (c : parse_context) : option (controller * parse_context) :=
  if pc_error c then Some (ct, c)
  else
    x ← last (pc_element c);
    ct ← (if x =? PARSE_CONTEXT_OPTION then
            ct ← (if bool_decide (take 2 (pc_element c) = [PARSE_CONTEXT_JACK; PARSE_CONTEXT_ENGINE] /\ length (pc_element c) = 3%nat)
                  then n ← pc_name c; jack_controller_settings_set_engine_option n (pc_option c) ct else Some ct);
            if bool_decide (take 3 (pc_element c) = [PARSE_CONTEXT_JACK; PARSE_CONTEXT_DRIVERS; PARSE_CONTEXT_DRIVER] /\ length (pc_element c) = 4%nat)
            then match pc_driver c with
                 | Some j => n ← pc_name c; update_driver j (jack_controller_settings_set_driver_option mem_ok n (pc_option c)) ct
                 | None => Some ct
                 end
            else Some ct
          else Some ct);
    Some (ct, c <| pc_element := take (length (pc_element c) - 1) (pc_element c) |> <| pc_name := None |>).

Definition callback (mem_ok : bool) (ev : xml_event) (st : controller * parse_context) : option (controller * parse_context) :=
  match ev with
  | Start el attr => Some (st.1, jack_controller_settings_callback_elstart mem_ok el attr st.1 st.2)
  | Chars s => c ← jack_controller_settings_callback_chrdata s st.2; Some (st.1, c)
  | End_ _ => jack_controller_settings_callback_elend mem_ok st.1 st.2
  end.

Fixpoint callbacks (mem_ok : bool) (evs : list xml_event) (st : controller * parse_context) : option (controller * parse_context) :=
  match evs with
  | [] => Some st
  | ev :: evs => st ← callback mem_ok ev st; callbacks mem_ok evs st
  end.

Definition jack_controller_settings_load (mem_ok : bool) (evs : list xml_event) (ct : controller) : option (controller * parse_context) :=
  callbacks mem_ok evs (ct, mk_context false [] None EmptyString None).

(** [jack_controller_create]: the default driver is selected when it is there, then
    the settings are loaded. *)
Definition create_controller (default : string) (found : list (string * list jack_driver_param_desc_t)) : controller :=
  let ds := jack_drivers_load found in mk_controller server_parameters ds (jack_controller_find_driver default ds) true.

Definition jack_controller_create (mem_ok : bool) (default : string) (found : list (string * list jack_driver_param_desc_t)) (evs : list xml_event) : option controller :=
  fst <$> jack_controller_settings_load mem_ok evs (create_controller default found).

(** ** Saving

    The file is written a string at a time.  No character is replaced by an entity. *)

Definition newline : string := String (Ascii.ascii_of_nat 10) EmptyString.
Definition quote : string := String (Ascii.ascii_of_nat 34) EmptyString.

Definition JACK_CONF_HEADER_TEXT : string :=
  "JACK settings, as persisted by D-Bus object." +:+ newline +:+ "You probably don't want to edit this because" +:+ newline +:+
  "it will be overwritten next time jackdbus saves." +:+ newline.

Definition jack_controller_settings_write_option (indent name content : string) : string :=
  indent +:+ "<option name=" +:+ quote +:+ name +:+ quote +:+ ">" +:+ content +:+ "</option>" +:+ newline.

Definition save_option (indent : string) (p : jackctl_parameter) : string :=
  if pm_is_set p then
    match write_value (pm_type p) (pm_value p) with
    | Some s => jack_controller_settings_write_option indent (pm_name p) s
    | None => EmptyString
    end
  else EmptyString.

Definition jack_controller_settings_save_options (indent : string) (ps : list jackctl_parameter) : string :=
  foldr (fun p text => save_option indent p +:+ text) EmptyString ps.

Definition jack_controller_settings_save_engine_options (ct : controller) : string :=
  match ct_driver ct ≫= (fun j => ct_drivers ct !! j) with
  | Some d => jack_controller_settings_write_option "  " "driver" (dr_name d)
  | None => EmptyString
  end +:+ jack_controller_settings_save_options "  " (ct_parameters ct).

Definition jack_controller_settings_save_driver_options (d : jackctl_driver) : string :=
  jack_controller_settings_save_options "   " (dr_parameters d).

(** One round of the loop over the drivers. *)
Definition save_driver (d : jackctl_driver) : string :=
  "  <driver name=" +:+ quote +:+ dr_name d +:+ quote +:+ ">" +:+ newline +:+ jack_controller_settings_save_driver_options d +:+
  "  </driver>" +:+ newline.

(** What is written before the root element; [timestamp] is the time as text. *)
Definition prologue (timestamp : string) : string :=
  "<?xml version=" +:+ quote +:+ "1.0" +:+ quote +:+ "?>" +:+ newline +:+ "<!--" +:+ newline +:+ JACK_CONF_HEADER_TEXT +:+ "-->" +:+ newline +:+
  "<!-- " +:+ timestamp +:+ " -->" +:+ newline.

(** The text of the file. *)
Definition jack_controller_settings_save (timestamp : string) (ct : controller) : string :=
  prologue timestamp +:+ "<jack>" +:+ newline +:+ " <engine>" +:+ newline +:+ jack_controller_settings_save_engine_options ct +:+
  " </engine>" +:+ newline +:+ " <drivers>" +:+ newline +:+ foldr (fun d text => save_driver d +:+ text) EmptyString (ct_drivers ct) +:+
  " </drivers>" +:+ newline +:+ "</jack>" +:+ newline.

(** ** The document

    The elements that this text means, when the names and values in it are plain text. *)

Definition option_elements (indent name content : string) : list xml_event :=
  [Chars indent; Start "option" [("name", name)]; Chars content; End_ "option"; Chars newline]%string.

Definition saved_option (indent : string) (p : jackctl_parameter) : list xml_event :=
  if pm_is_set p then
    match write_value (pm_type p) (pm_value p) with
    | Some s => option_elements indent (pm_name p) s
    | None => []
    end
  else [].

Definition options_elements (indent : string) (ps : list jackctl_parameter) : list xml_event :=
  concat (map (saved_option indent) ps).

Definition engine_elements (ct : controller) : list xml_event :=
  match ct_driver ct ≫= (fun j => ct_drivers ct !! j) with
  | Some d => option_elements "  " "driver" (dr_name d)
  | None => []
  end ++ options_elements "  " (ct_parameters ct).

Definition driver_options_elements (d : jackctl_driver) : list xml_event :=
  options_elements "   " (dr_parameters d).

Definition driver_elements (d : jackctl_driver) : list xml_event :=
  [Chars "  "; Start "driver" [("name", dr_name d)]; Chars newline]%string ++ driver_options_elements d ++
  [Chars "  "; End_ "driver"; Chars newline]%string.

(** The root element with all text in it; comments give no event. *)
Definition settings_document (ct : controller) : list xml_event :=
  [Start "jack" []; Chars newline; Chars " "; Start "engine" []; Chars newline]%string ++ engine_elements ct ++
  [Chars " "; End_ "engine"; Chars newline; Chars " "; Start "drivers" []; Chars newline]%string ++
  concat (map driver_elements (ct_drivers ct)) ++ [Chars " "; End_ "drivers"; Chars newline; End_ "jack"]%string.

(** ** Pieces of text

    The parser may hand over the text between two tags in any pieces. *)

Fixpoint glue (evs : list xml_event) : list xml_event :=
  match evs with
  | [] => []
  | Chars s :: evs =>
      match glue evs with
      | Chars t :: r => Chars (s +:+ t) :: r
      | r => if bool_decide (s = EmptyString) then r else Chars s :: r
      end
  | ev :: evs => ev :: glue evs
  end.

Definition some_text (ev : xml_event) : Prop := match ev with Chars s => s <> EmptyString | _ => True end.

(** A sequence of events the parser may produce for a document. *)
Definition parsed (doc evs : list xml_event) : Prop := glue evs = glue doc /\ Forall some_text evs.
End Settings.
