(* ===== verification/SettingsInv.v ===== *)
(** * Settings are restored

    What was saved is loaded again, whatever pieces the parser cuts the text
    into; the list a driver is loaded with holds exactly the parameters that were set. *)

From S2P Require Import Prelude Settings.

Local Open Scope Z_scope.

Module SettingsInv.
Import Settings.

(** ** Numbers *)

Lemma digit_value_digit d : 0 <= d < 10 -> digit_value (digit d) = Some d.
Proof.
  intros H. assert (E : d = 0 \/ d = 1 \/ d = 2 \/ d = 3 \/ d = 4 \/ d = 5 \/ d = 6 \/ d = 7 \/ d = 8 \/ d = 9) by lia.
  by repeat destruct E as [->|E]; [..|subst d].
Qed.

Lemma parse_print fuel n rest acc :
  0 <= n < 10 ^ Z.of_nat fuel -> (0 < fuel)%nat ->
  exists k, parse_digits (print_digits fuel n rest) acc = parse_digits rest (acc * 10 ^ k + n) /\ 0 <= k.
Proof.
  revert n rest. induction fuel as [|fuel IH]; intros n rest Hn Hf; [lia|]. cbn [print_digits].
  assert (Hd : 0 <= n mod 10 < 10) by (apply Z.mod_pos_bound; lia). pose proof (Z.div_mod n 10).
  destruct (Z.ltb_spec n 10) as [Hs|Hs].
  - exists 1. cbn [parse_digits]. rewrite digit_value_digit by done. rewrite Z.mod_small by lia. split; [f_equal; lia|lia].
  - destruct fuel as [|fuel]; [cbn in Hn; lia|].
    assert (Hq : 0 <= n / 10 < 10 ^ Z.of_nat (S fuel)).
    { split; [apply Z.div_pos; lia|]. apply Z.div_lt_upper_bound; [lia|].
      rewrite (Nat2Z.inj_succ (S fuel)), Z.pow_succ_r in Hn by lia. lia. }
    destruct (IH (n / 10) (String (digit (n mod 10)) rest) Hq ltac:(lia)) as (k & -> & Hk). exists (k + 1). split; [|lia].
    cbn [parse_digits]. rewrite digit_value_digit by done. f_equal. rewrite Z.pow_add_r by lia. lia.
Qed.

Lemma print_uint_head n : 0 <= n < 2 ^ 32 -> exists d r, print_uint n = String (digit d) r /\ 0 <= d < 10.
Proof.
  intros Hn. unfold print_uint. generalize EmptyString. assert (0 <= n) as Hp by lia. clear Hn. revert n Hp.
  assert (H : forall fuel n r, 0 <= n -> (0 < fuel)%nat -> exists d r', print_digits fuel n r = String (digit d) r' /\ 0 <= d < 10).
  { induction fuel as [|fuel IH]; intros n r Hn Hf; [lia|]. cbn [print_digits].
    assert (Hd : 0 <= n mod 10 < 10) by (apply Z.mod_pos_bound; lia).
    destruct (n <? 10); [eauto|]. destruct fuel as [|fuel]; [cbn; eauto|]. apply IH; [apply Z.div_pos; lia|lia]. }
  intros n Hn r. apply H; [done|lia].
Qed.

Lemma parse_number_uint n : 0 <= n < 2 ^ 32 -> parse_number (print_uint n) = n.
Proof.
  intros Hn. destruct (print_uint_head n Hn) as (d & r & E & Hd).
  assert (Hc : is_space (digit d) = false /\ digit d <> minus /\ digit d <> plus).
  { assert (Ed : d = 0 \/ d = 1 \/ d = 2 \/ d = 3 \/ d = 4 \/ d = 5 \/ d = 6 \/ d = 7 \/ d = 8 \/ d = 9) by lia.
    by repeat destruct Ed as [->|Ed]; [..|subst d]. }
  destruct Hc as (H1 & H2 & H3). unfold parse_number. rewrite E. cbn [skip_spaces]. rewrite H1, !bool_decide_false by done.
  rewrite <- E. unfold print_uint. destruct (parse_print 20 n EmptyString 0) as (k & -> & _); [|lia|].
  - split; [lia|]. apply Z.lt_trans with (2 ^ 32); [lia|by vm_compute].
  - cbn [parse_digits]. lia.
Qed.

Lemma parse_number_int n : - 2 ^ 31 <= n < 2 ^ 31 -> parse_number (print_int n) = n.
Proof.
  intros Hn. unfold print_int. destruct (Z.ltb_spec n 0) as [Hs|Hs]; [|by apply parse_number_uint; lia].
  unfold parse_number. cbn [skip_spaces]. change (is_space minus) with false. cbv iota. rewrite bool_decide_true by done.
  pose proof (parse_number_uint (- n) ltac:(lia)) as E. unfold parse_number in E.
  destruct (print_uint_head (- n)) as (d & r & Ep & Hd); [lia|].
  unfold print_uint. destruct (parse_print 20 (- n) EmptyString 0) as (k & -> & _); [|lia|].
  - split; [lia|]. apply Z.lt_trans with (2 ^ 32); [lia|by vm_compute].
  - cbn [parse_digits]. lia.
Qed.

(** Values of the type of a parameter, as the text can hold them. *)
Definition value_ok (t : jackctl_param_type_t) (v : value) : Prop :=
  match t, v with
  | JackParamInt, VInt i => - 2 ^ 31 <= i < 2 ^ 31
  | JackParamUInt, VUInt u => 0 <= u < 2 ^ 32
  | JackParamChar, VChar c => c <> Ascii.zero
  | JackParamString, VString s => Z.of_nat (String.length s) < JACK_DRIVER_PARAM_STRING_MAX
  | JackParamBool, VBool _ => True
  | _, _ => False
  end.

Lemma print_uint_length n : 0 <= n < 2 ^ 32 -> Z.of_nat (String.length (print_uint n)) < 62.
Proof.
  intros _. unfold print_uint. assert (H : forall fuel n r, (String.length (print_digits fuel n r) <= fuel + String.length r)%nat).
  { clear. induction fuel as [|fuel IH]; intros n r; cbn [print_digits]; [lia|]. destruct (n <? 10); [cbn; lia|].
    etransitivity; [apply IH|]. cbn. lia. }
  specialize (H 20%nat n EmptyString). cbn [String.length] in H. lia.
Qed.

(** The text of a value is read back. *)
Lemma read_write t v : value_ok t v ->
  exists s, write_value t v = Some s /\ read_option t s = Some v /\ Z.of_nat (String.length s) < JACK_DRIVER_PARAM_STRING_MAX.
Proof.
  unfold JACK_DRIVER_PARAM_STRING_MAX. destruct t, v; cbn [value_ok]; try done; intros H; eexists; (split; [reflexivity|]).
  - split.
    + cbn [read_option]. unfold jack_controller_settings_set_sint_option, atoi. rewrite parse_number_int by done.
      by rewrite (proj2 (Z.leb_le _ _)), (proj2 (Z.ltb_lt _ _)) by lia.
    + unfold print_int. destruct (Z.ltb_spec i 0); [cbn [String.length]|].
      * pose proof (print_uint_length (- i) ltac:(lia)). lia.
      * pose proof (print_uint_length i ltac:(lia)). lia.
  - split; [|pose proof (print_uint_length ui H); lia]. cbn [read_option]. unfold jack_controller_settings_set_uint_option, strtoul.
    rewrite parse_number_uint, (proj2 (Z.leb_gt _ _)), (wrap_small 64), (wrap_small 32) by lia. done.
  - rewrite bool_decide_false by done. split; [done|cbn; lia].
  - split; [|done]. cbn [read_option]. unfold jack_controller_settings_set_string_option, JACK_PARAM_STRING_MAX, JACK_DRIVER_PARAM_STRING_MAX in *.
    rewrite Z.geb_leb, (proj2 (Z.leb_gt _ _)) by lia. done.
  - destruct b; (split; [done|cbn; lia]).
Qed.
(** ** The list of a driver *)

(** The entry a set parameter has in the list. *)
Definition entry (p : jackctl_parameter) : option (Ascii.ascii * value) :=
  if pm_is_set p then pair (pm_character p) <$> driver_value (pm_type p) (pm_value p) else None.

(** Every parameter that was set has its own place in the list, with its
    character and its current value, and there is nothing else. *)
Record driver_ok (d : jackctl_driver) : Prop := mk_driver_ok {
  do_entry : forall k p, dr_parameters d !! k = Some p ->
    match pm_driver_param p with
    | Some i => pm_is_set p = true /\ exists x, entry p = Some x /\ dr_set d !! i = Some x
    | None => pm_is_set p = false
    end;
  do_inj : forall k1 k2 p1 p2 i, dr_parameters d !! k1 = Some p1 -> dr_parameters d !! k2 = Some p2 ->
    pm_driver_param p1 = Some i -> pm_driver_param p2 = Some i -> k1 = k2;
  do_onto : forall i x, dr_set d !! i = Some x -> exists k p, dr_parameters d !! k = Some p /\ pm_driver_param p = Some i
}.

Lemma driver_value_ok t v : value_ok t v -> exists w, driver_value t v = Some w.
Proof. destruct t, v; cbn; (done || eauto). Qed.

Lemma set_value_some k v d p :
  dr_parameters d !! k = Some p -> value_ok (pm_type p) v -> exists d', jackctl_parameter_set_value true k v d = Some (true, d').
Proof.
  intros E H. unfold jackctl_parameter_set_value. rewrite E. cbn [mbind option_bind negb]. destruct (driver_value_ok _ _ H) as [w ->].
  destruct (pm_driver_param p); eauto.
Qed.

Lemma set_value_ok k v d d' :
  driver_ok d -> jackctl_parameter_set_value true k v d = Some (true, d') -> driver_ok d'.
Proof.
  intros [D1 D2 D3]. unfold jackctl_parameter_set_value. destruct (dr_parameters d !! k) as [p|] eqn:Ek; [|done]. cbn [mbind option_bind negb].
  pose proof (D1 k p Ek) as Hp. destruct (pm_driver_param p) as [i|] eqn:Ei; (destruct (driver_value (pm_type p) v) as [w|] eqn:Ew; [|done]);
    cbn [mbind option_bind]; intros [= <-].
  - destruct Hp as (Hs & x & Ex & Hx). split; cbn.
    + intros j q. destruct (decide (j = k)) as [->|Hj].
      * rewrite list_lookup_alter_eq, Ek. intros [= <-]. cbn. rewrite Ei. split; [done|]. eexists. split; [cbn; by rewrite Ew|].
        rewrite list_lookup_alter_eq, Hx. cbn. f_equal. f_equal. unfold entry in Ex. rewrite Hs in Ex.
        destruct (driver_value _ (pm_value p)); [|done]. by injection Ex as <-.
      * rewrite list_lookup_alter_ne by done. intros Eq. pose proof (D1 j q Eq) as Hq. destruct (pm_driver_param q) as [i'|] eqn:Ei'; [|done].
        rewrite list_lookup_alter_ne; [done|]. intros <-. apply Hj. by eapply D2.
    + intros j1 j2 q1 q2 i' E1 E2 F1 F2.
      assert (forall j q, alter (assign_value v) k (dr_parameters d) !! j = Some q -> exists q', dr_parameters d !! j = Some q' /\ pm_driver_param q' = pm_driver_param q) as Hold.
      { intros j q. destruct (decide (j = k)) as [->|Hj]; [rewrite list_lookup_alter_eq, Ek; intros [= <-]; eauto|rewrite list_lookup_alter_ne by done; eauto]. }
      destruct (Hold _ _ E1) as (q1' & ? & G1), (Hold _ _ E2) as (q2' & ? & G2). apply (D2 j1 j2 q1' q2' i'); congruence.
    + intros j y Hj. assert (is_Some (dr_set d !! j)) as [y' Hy'].
      { destruct (decide (j = i)) as [->|]; [by eexists|]. rewrite list_lookup_alter_ne in Hj by done. by eexists. }
      destruct (D3 j y' Hy') as (k' & p' & E' & F'). destruct (decide (k' = k)) as [->|Hk'].
      * exists k, (assign_value v p). rewrite list_lookup_alter_eq, Ek. split; [done|]. rewrite Ek in E'. by injection E' as ->.
      * exists k', p'. by rewrite list_lookup_alter_ne.
  - split; cbn.
    + intros j q. destruct (decide (j = k)) as [->|Hj].
      * rewrite list_lookup_alter_eq, Ek. intros [= <-]. cbn. split; [done|]. eexists. split; [cbn; by rewrite Ew|].
        by rewrite lookup_app_r, Nat.sub_diag by lia.
      * rewrite list_lookup_alter_ne by done. intros Eq. pose proof (D1 j q Eq) as Hq. destruct (pm_driver_param q) as [i'|] eqn:Ei'; [|done].
        destruct Hq as (? & y & ? & Hy). split; [done|]. exists y. split; [done|]. by apply lookup_app_l_Some.
    + intros j1 j2 q1 q2 i' E1 E2 F1 F2.
      assert (forall j q, alter (fun p => assign_value v p <| pm_driver_param := Some (length (dr_set d)) |>) k (dr_parameters d) !! j = Some q ->
                pm_driver_param q = Some i' -> j = k /\ i' = length (dr_set d) \/ j <> k /\ dr_parameters d !! j = Some q /\ (i' < length (dr_set d))%nat) as Hold.
      { intros j q. destruct (decide (j = k)) as [->|Hj]; [rewrite list_lookup_alter_eq, Ek; intros [= <-]; cbn; intros [= <-]; by left|].
        rewrite list_lookup_alter_ne by done. intros Eq Fq. right. do 2 (split; [done|]). pose proof (D1 j q Eq) as Hq. rewrite Fq in Hq.
        destruct Hq as (_ & y & _ & Hy). by eapply lookup_lt_Some. }
      destruct (Hold _ _ E1 F1) as [[-> ->]|(? & G1 & L1)], (Hold _ _ E2 F2) as [[-> ?]|(? & G2 & L2)]; [done|lia|lia|by eapply D2].
    + intros j y [Hy|[Hl Hy]]%lookup_app_Some.
      * destruct (D3 j y Hy) as (k' & p' & E' & F'). exists k', p'. rewrite list_lookup_alter_ne; [done|]. intros <-. rewrite Ek in E'. injection E' as <-. by rewrite Ei in F'.
      * apply list_lookup_singleton_Some in Hy as [Hj <-]. exists k. eexists. rewrite list_lookup_alter_eq, Ek. split; [done|]. cbn. f_equal. lia.
Qed.
End SettingsInv.
