(* ===== verification/SettingsLoad.v ===== *)
(** * Loading what was saved *)

From S2P Require Import Prelude Settings SettingsInv.

Local Open Scope Z_scope.

Module SettingsLoad.
Import Settings SettingsInv.

(** ** The callbacks on a sequence of events *)

Lemma callbacks_app m e1 e2 st : callbacks m (e1 ++ e2) st = st ← callbacks m e1 st; callbacks m e2 st.
Proof. revert st. induction e1 as [|ev e1 IH]; intros st; [done|]. cbn. destruct (callback m ev st); [apply IH|done]. Qed.

Lemma callbacks_error m evs ct c : pc_error c = true -> callbacks m evs (ct, c) = Some (ct, c).
Proof.
  intros E. induction evs as [|ev evs IH]; [done|]. cbn [callbacks].
  assert (callback m ev (ct, c) = Some (ct, c)) as ->; [|exact IH].
  destruct ev; cbn [callback fst snd]; unfold jack_controller_settings_callback_elstart, jack_controller_settings_callback_chrdata,
    jack_controller_settings_callback_elend; rewrite E; done.
Qed.

Lemma callbacks_no_error m evs ct c ct' c' : callbacks m evs (ct, c) = Some (ct', c') -> pc_error c' = false -> pc_error c = false.
Proof. destruct (pc_error c) eqn:E; [|done]. rewrite callbacks_error by done. congruence. Qed.

(** ** Pieces of text *)

Lemma length_append s t : String.length (s +:+ t) = (String.length s + String.length t)%nat.
Proof. induction s as [|c s IH]; [done|]. change (String c s +:+ t) with (String c (s +:+ t)). cbn [String.length]. by rewrite IH. Qed.

Lemma append_assoc (s t u : string) : (s +:+ t) +:+ u = s +:+ (t +:+ u).
Proof. induction s as [|c s IH]; [done|]. change (String c ((s +:+ t) +:+ u) = String c (s +:+ (t +:+ u))). by rewrite IH. Qed.

Lemma append_nil (s : string) : s +:+ EmptyString = s.
Proof. induction s as [|c s IH]; [done|]. change (String c (s +:+ EmptyString) = String c s). by rewrite IH. Qed.

Lemma chrdata_error s c : pc_error c = true -> jack_controller_settings_callback_chrdata s c = Some c.
Proof. unfold jack_controller_settings_callback_chrdata. by intros ->. Qed.

Lemma chrdata_option s c x : pc_error c = false -> last (pc_element c) = Some x -> (x =? PARSE_CONTEXT_OPTION) = true ->
  jack_controller_settings_callback_chrdata s c =
    Some (if Z.of_nat (String.length (pc_option c)) + Z.of_nat (String.length s) >=? JACK_DRIVER_PARAM_STRING_MAX then c <| pc_error := true |>
          else c <| pc_option := pc_option c +:+ s |>).
Proof. unfold jack_controller_settings_callback_chrdata. intros -> -> E. cbn [mbind option_bind]. by rewrite E. Qed.

Lemma chrdata_other s c x : pc_error c = false -> last (pc_element c) = Some x -> (x =? PARSE_CONTEXT_OPTION) = false ->
  jack_controller_settings_callback_chrdata s c = Some c.
Proof. unfold jack_controller_settings_callback_chrdata. intros -> -> E. cbn [mbind option_bind]. by rewrite E. Qed.

Lemma chrdata_none s c : pc_error c = false -> last (pc_element c) = None -> jack_controller_settings_callback_chrdata s c = None.
Proof. unfold jack_controller_settings_callback_chrdata. by intros -> ->. Qed.

(** Text that causes no error may be cut, and put together. *)
Lemma chrdata_cut s t c c' : pc_error c' = false ->
  jack_controller_settings_callback_chrdata (s +:+ t) c = Some c' <->
  (c1 ← jack_controller_settings_callback_chrdata s c; jack_controller_settings_callback_chrdata t c1) = Some c'.
Proof.
  intros He. destruct (pc_error c) eqn:E; [by rewrite !chrdata_error by done; cbn [mbind option_bind]; rewrite chrdata_error|].
  destruct (last (pc_element c)) as [x|] eqn:El; [|by rewrite !chrdata_none].
  destruct (x =? PARSE_CONTEXT_OPTION) eqn:Ex; [|by rewrite !(chrdata_other _ _ x E El Ex); cbn [mbind option_bind]; rewrite (chrdata_other _ _ x E El Ex)].
  rewrite !(chrdata_option _ _ x E El Ex), length_append. cbn [mbind option_bind].
  destruct (Z.geb_spec (Z.of_nat (String.length (pc_option c)) + Z.of_nat (String.length s)) JACK_DRIVER_PARAM_STRING_MAX) as [Hs|Hs].
  - rewrite chrdata_error by done. rewrite Z.geb_leb, (proj2 (Z.leb_le _ _)) by lia. done.
  - rewrite (chrdata_option _ _ x) by done. change (pc_option (c <| pc_option := pc_option c +:+ s |>)) with (pc_option c +:+ s).
    rewrite length_append, Nat2Z.inj_add, Z.add_assoc, Nat2Z.inj_add.
    destruct (_ >=? _); [split; intros [= <-]; done|]. by rewrite <- append_assoc.
Qed.

Lemma chrdata_empty c c' :
  jack_controller_settings_callback_chrdata EmptyString c = Some c' -> pc_error c' = false -> c' = c.
Proof.
  intros H He. destruct (pc_error c) eqn:E; [rewrite chrdata_error in H by done; congruence|].
  destruct (last (pc_element c)) as [x|] eqn:El; [|by rewrite chrdata_none in H].
  destruct (x =? PARSE_CONTEXT_OPTION) eqn:Ex; [|rewrite (chrdata_other _ _ x) in H by done; congruence].
  rewrite (chrdata_option _ _ x) in H by done. destruct (_ >=? _); injection H as <-; [done|]. rewrite append_nil. by destruct c.
Qed.

(** The events of a document and its glued form load the same settings. *)
Lemma load_glue m evs ct c ct' c' :
  callbacks m evs (ct, c) = Some (ct', c') -> pc_error c' = false -> callbacks m (glue evs) (ct, c) = Some (ct', c').
Proof.
  revert ct c. induction evs as [|ev evs IH]; intros ct c; [done|]. cbn [callbacks].
  destruct ev as [el attr|s|el]; cbn [callback glue fst snd].
  - cbn [mbind option_bind]. intros E He. cbn [callbacks callback fst snd mbind option_bind]. by apply IH.
  - destruct (jack_controller_settings_callback_chrdata s c) as [c1|] eqn:E1; [|done]. cbn [mbind option_bind]. intros E He. pose proof (IH _ _ E He) as G.
    assert (G' : callbacks m (Chars s :: glue evs) (ct, c) = Some (ct', c')) by (cbn [callbacks callback fst snd]; by rewrite E1).
    pose proof (callbacks_no_error _ _ _ _ _ _ E He) as Hone.
    destruct (glue evs) as [|[el attr|t|el] r] eqn:Eg; try (case_bool_decide as Hs; [|done]; subst s; by rewrite (chrdata_empty _ _ E1 Hone) in G).
    cbn [callbacks callback fst snd] in G |- *. destruct (jack_controller_settings_callback_chrdata t c1) as [c2|] eqn:E2; [|done].
    cbn [mbind option_bind] in G.
    pose proof (callbacks_no_error _ _ _ _ _ _ G He) as He2.
    rewrite (proj2 (chrdata_cut s t c c2 He2)); [done|]. by rewrite E1.
  - destruct (jack_controller_settings_callback_elend m ct c) as [[ct1 c1]|] eqn:E1; [|done]. cbn [mbind option_bind]. intros E He.
    cbn [callbacks callback fst snd]. rewrite E1. cbn [mbind option_bind]. by apply IH.
Qed.

Lemma load_unglue m evs ct c ct' c' :
  Forall some_text evs -> callbacks m (glue evs) (ct, c) = Some (ct', c') -> pc_error c' = false -> callbacks m evs (ct, c) = Some (ct', c').
Proof.
  intros F. revert ct c. induction F as [|ev evs Ht F IH]; intros ct c; [done|].
  destruct ev as [el attr|s|el]; cbn [glue].
  - cbn [callbacks callback fst snd mbind option_bind]. apply IH.
  - intros E He. cbn [callbacks callback fst snd].
    destruct (glue evs) as [|[el attr|t|el] r] eqn:Eg;
      try (rewrite bool_decide_false in E by done; cbn [callbacks callback fst snd] in E;
           destruct (jack_controller_settings_callback_chrdata s c) as [c1|]; [|done]; cbn [mbind option_bind] in E |- *; by apply IH).
    cbn [callbacks callback fst snd] in E. destruct (jack_controller_settings_callback_chrdata (s +:+ t) c) as [c2|] eqn:E2; [|done].
    cbn [mbind option_bind] in E.
    pose proof (callbacks_no_error _ _ _ _ _ _ E He) as He2.
    pose proof (proj1 (chrdata_cut s t c c2 He2) E2) as H. destruct (jack_controller_settings_callback_chrdata s c) as [c1|]; [|done].
    cbn [mbind option_bind] in H |- *. apply IH; [|done]. cbn [callbacks callback fst snd]. by rewrite H.
  - cbn [callbacks callback fst snd]. destruct (jack_controller_settings_callback_elend m ct c) as [[ct1 c1]|]; [|done]. cbn [mbind option_bind]. apply IH.
Qed.

Lemma load_parsed m doc evs st ct' c' :
  parsed doc evs -> callbacks m doc st = Some (ct', c') -> pc_error c' = false -> callbacks m evs st = Some (ct', c').
Proof.
  destruct st as [ct c]. intros [E F] H He. apply load_unglue; [done| |done]. rewrite E. by apply load_glue.
Qed.
(** ** One element *)

Definition ctx (path : list Z) (drv : option nat) (o : string) (nm : option string) : parse_context := mk_context false path drv o nm.

Definition engine_path : list Z := [PARSE_CONTEXT_JACK; PARSE_CONTEXT_ENGINE].
Definition driver_path : list Z := [PARSE_CONTEXT_JACK; PARSE_CONTEXT_DRIVERS; PARSE_CONTEXT_DRIVER].

(** The paths at which the file has elements. *)
Definition known_path (p : list Z) : Prop :=
  p ∈ [[PARSE_CONTEXT_JACK]; engine_path; [PARSE_CONTEXT_JACK; PARSE_CONTEXT_DRIVERS]; driver_path].

Ltac each_path H :=
  repeat (apply elem_of_cons in H as [->|H]; [reflexivity|]); by apply elem_of_nil in H.

Lemma text_skipped s p ct drv o nm : known_path p -> callback true (Chars s) (ct, ctx p drv o nm) = Some (ct, ctx p drv o nm).
Proof. intros H. each_path H. Qed.

Lemma option_start n p ct drv o nm : known_path p ->
  callback true (Start "option" [("name", n)]%string) (ct, ctx p drv o nm) = Some (ct, ctx (p ++ [PARSE_CONTEXT_OPTION]) drv EmptyString (Some n)).
Proof. intros H. each_path H. Qed.

Lemma option_chars s p ct drv nm : known_path p -> Z.of_nat (String.length s) < JACK_DRIVER_PARAM_STRING_MAX ->
  callback true (Chars s) (ct, ctx (p ++ [PARSE_CONTEXT_OPTION]) drv EmptyString nm) = Some (ct, ctx (p ++ [PARSE_CONTEXT_OPTION]) drv s nm).
Proof.
  intros H Hs. cbn [callback fst snd]. rewrite (chrdata_option _ _ PARSE_CONTEXT_OPTION); [|done|cbn; by rewrite last_snoc|done].
  cbn [pc_option ctx String.length]. rewrite Z.geb_leb, (proj2 (Z.leb_gt _ _)) by (cbn; lia). done.
Qed.

Lemma engine_option ind n s evs ct drv o nm :
  Z.of_nat (String.length s) < JACK_DRIVER_PARAM_STRING_MAX ->
  callbacks true (option_elements ind n s ++ evs) (ct, ctx engine_path drv o nm) =
    ct' ← jack_controller_settings_set_engine_option n s ct; callbacks true evs (ct', ctx engine_path drv s None).
Proof.
  intros H. assert (Hp : known_path engine_path) by (right; left). cbn [option_elements app callbacks].
  rewrite text_skipped by done. cbn [mbind option_bind]. rewrite option_start by done. cbn [mbind option_bind].
  rewrite option_chars by done. cbn [mbind option_bind].
  replace (callback true (End_ "option") (ct, ctx (engine_path ++ [PARSE_CONTEXT_OPTION]) drv s (Some n))) with
    (ct' ← jack_controller_settings_set_engine_option n s ct; Some (ct', ctx engine_path drv s None)).
  - destruct (jack_controller_settings_set_engine_option n s ct); [|done]. cbn [mbind option_bind]. by rewrite text_skipped.
  - cbn [callback fst snd]. unfold jack_controller_settings_callback_elend.
    cbn [pc_error pc_element pc_name pc_option ctx app last mbind option_bind engine_path]. rewrite Z.eqb_refl, (bool_decide_true (take 2 _ = _ /\ _)) by (split; reflexivity).
    destruct (jack_controller_settings_set_engine_option n s ct); [|reflexivity]. cbn [mbind option_bind].
    rewrite bool_decide_false by (intros [? ?]; discriminate). reflexivity.
Qed.

Lemma driver_option ind n s evs ct j o nm :
  Z.of_nat (String.length s) < JACK_DRIVER_PARAM_STRING_MAX ->
  callbacks true (option_elements ind n s ++ evs) (ct, ctx driver_path (Some j) o nm) =
    ct' ← update_driver j (jack_controller_settings_set_driver_option true n s) ct; callbacks true evs (ct', ctx driver_path (Some j) s None).
Proof.
  intros H. assert (Hp : known_path driver_path) by (do 3 right; left). cbn [option_elements app callbacks].
  rewrite text_skipped by done. cbn [mbind option_bind]. rewrite option_start by done. cbn [mbind option_bind].
  rewrite option_chars by done. cbn [mbind option_bind].
  replace (callback true (End_ "option") (ct, ctx (driver_path ++ [PARSE_CONTEXT_OPTION]) (Some j) s (Some n))) with
    (ct' ← update_driver j (jack_controller_settings_set_driver_option true n s) ct; Some (ct', ctx driver_path (Some j) s None)).
  - destruct (update_driver j _ ct); [|done]. cbn [mbind option_bind]. by rewrite text_skipped.
  - cbn [callback fst snd]. unfold jack_controller_settings_callback_elend.
    cbn [pc_error pc_element pc_name pc_option pc_driver ctx app last mbind option_bind driver_path].
    rewrite Z.eqb_refl, (bool_decide_false (take 2 _ = _ /\ _)) by (intros [? ?]; discriminate). cbn [mbind option_bind]. rewrite bool_decide_true by (split; reflexivity).
    destruct (update_driver j _ ct); reflexivity.
Qed.
End SettingsLoad.
