(* ===== verification/SettingsRestore.v ===== *)
(** * What was saved is restored *)

From S2P Require Import Prelude Settings SettingsInv SettingsLoad.

Local Open Scope Z_scope.

Module SettingsRestore.
Import Settings SettingsInv SettingsLoad.

(** A parameter as it is before anything is loaded, and without its place in the
    list of a driver. *)
Definition unset (p : jackctl_parameter) : jackctl_parameter :=
  p <| pm_is_set := false |> <| pm_value := pm_default p |> <| pm_driver_param := None |>.
Definition strip (p : jackctl_parameter) : jackctl_parameter := p <| pm_driver_param := None |>.

Definition param_ok (p : jackctl_parameter) : Prop :=
  if pm_is_set p then value_ok (pm_type p) (pm_value p) else pm_value p = pm_default p.

Record params_ok (ps : list jackctl_parameter) : Prop := mk_params_ok {
  po_names : NoDup (map pm_name ps);
  po_values : Forall param_ok ps
}.

Lemma find_parameter_at ps1 p ps2 :
  NoDup (map pm_name (ps1 ++ p :: ps2)) -> jack_controller_find_parameter (pm_name p) (ps1 ++ p :: ps2) = Some (length ps1).
Proof.
  intros N. unfold jack_controller_find_parameter. rewrite (proj2 (list_find_Some _ _ (length ps1) p)); [done|].
  split; [by apply list_lookup_middle|]. split; [done|]. intros j y Hj Hl E. rewrite lookup_app_l in Hj by done.
  rewrite map_app in N. cbn [map] in N. apply NoDup_app in N as (_ & N & _). apply (N (pm_name y)).
  - apply list_elem_of_fmap_2. by eapply list_elem_of_lookup_2.
  - rewrite E. left.
Qed.

Lemma find_driver_at ds1 d ds2 :
  NoDup (map dr_name (ds1 ++ d :: ds2)) -> jack_controller_find_driver (dr_name d) (ds1 ++ d :: ds2) = Some (length ds1).
Proof.
  intros N. unfold jack_controller_find_driver. rewrite (proj2 (list_find_Some _ _ (length ds1) d)); [done|].
  split; [by apply list_lookup_middle|]. split; [done|]. intros j y Hj Hl E. rewrite lookup_app_l in Hj by done.
  rewrite map_app in N. cbn [map] in N. apply NoDup_app in N as (_ & N & _). apply (N (dr_name y)).
  - apply list_elem_of_fmap_2. by eapply list_elem_of_lookup_2.
  - rewrite E. left.
Qed.

Lemma alter_middle {A} (f : A -> A) l1 x l2 : alter f (length l1) (l1 ++ x :: l2) = l1 ++ f x :: l2.
Proof. induction l1 as [|y l1 IH]; [done|]. cbn. by rewrite <- IH. Qed.

Lemma names_strip ps : map pm_name (map strip ps) = map pm_name ps.
Proof. by rewrite map_map. Qed.

Lemma names_unset ps : map pm_name (map unset ps) = map pm_name ps.
Proof. by rewrite map_map. Qed.

Lemma assign_unset p : pm_is_set p = true -> strip (assign_value (pm_value p) (unset p)) = strip p.
Proof. destruct p. cbn. by intros ->. Qed.

Lemma unset_same p : pm_is_set p = false -> pm_value p = pm_default p -> unset p = strip p.
Proof. destruct p. cbn. by intros -> ->. Qed.

(** ** The parameters of the server *)

Lemma load_server_parameters rest done ct drv o nm evs :
  ct_parameters ct = map strip done ++ map unset rest -> params_ok (done ++ rest) -> "driver" ∉ map pm_name (done ++ rest) ->
  exists o' nm', callbacks true (options_elements "  " rest ++ evs) (ct, ctx engine_path drv o nm) =
    callbacks true evs (ct <| ct_parameters := map strip (done ++ rest) |>, ctx engine_path drv o' nm').
Proof.
  revert done ct o nm. induction rest as [|p rest IH]; intros dn ct o nm Ec Ok Hd.
  { exists o, nm. rewrite app_nil_r in Ec |- *. destruct ct. cbn in Ec. by subst. }
  pose proof (po_values _ Ok) as Hv. apply Forall_app in Hv as [_ Hv]. apply Forall_cons in Hv as [Hv _]. unfold param_ok in Hv.
  pose proof (po_names _ Ok) as N. unfold options_elements. cbn [map concat]. rewrite <- app_assoc.
  change (concat (map (saved_option "  ") rest)) with (options_elements "  " rest).
  assert (Ea : dn ++ p :: rest = (dn ++ [p]) ++ rest) by (by rewrite <- app_assoc).
  unfold saved_option at 1. destruct (pm_is_set p) eqn:Es.
  - destruct (read_write _ _ Hv) as (s & -> & Er & Hl). rewrite engine_option by done.
    set (ct1 := ct <| ct_parameters := map strip (dn ++ [p]) ++ map unset rest |>).
    replace (jack_controller_settings_set_engine_option (pm_name p) s ct) with (Some ct1).
    + cbn [mbind option_bind]. destruct (IH (dn ++ [p]) ct1 s None) as (o' & nm' & E); [done|by rewrite <- Ea..|].
      exists o', nm'. rewrite E, Ea. by destruct ct.
    + unfold jack_controller_settings_set_engine_option.
      rewrite bool_decide_false by (intros E; apply Hd; rewrite <- E; apply list_elem_of_fmap_2; set_solver).
      rewrite Ec. cbn [map]. change (pm_name p) with (pm_name (unset p)). rewrite find_parameter_at.
      2: { rewrite map_app in N |- *. cbn [map] in N |- *. by rewrite names_strip, names_unset. }
      rewrite list_lookup_middle by done. cbn [mbind option_bind]. change (pm_type (unset p)) with (pm_type p). rewrite Er. cbn [mbind option_bind].
      match goal with |- _ = Some (?ct <| ct_parameters ::= ?f |>) =>
        change (Some (ct <| ct_parameters ::= f |>)) with (Some (mk_controller (f (ct_parameters ct)) (ct_drivers ct) (ct_driver ct) (ct_driver_set ct))) end.
      cbv beta. unfold set_server_parameter. rewrite Ec. cbn [map]. rewrite alter_middle.
      change ct1 with (mk_controller (map strip (dn ++ [p]) ++ map unset rest) (ct_drivers ct) (ct_driver ct) (ct_driver_set ct)).
      rewrite map_app, <- app_assoc. cbn [map app]. by rewrite <- (assign_unset p Es).
  - cbn [app]. rewrite Ea. apply IH; [|by rewrite <- Ea..]. rewrite Ec, map_app, <- app_assoc. cbn [map app]. by rewrite unset_same.
Qed.

(** ** The parameters of a driver *)

Lemma map_alter_strip k f g ps : (forall p, strip (f p) = g (strip p)) -> map strip (alter f k ps) = alter g k (map strip ps).
Proof. intros E. revert k. induction ps as [|p ps IH]; intros [|k]; cbn; [done..|by rewrite E|by rewrite <- IH]. Qed.

Lemma set_value_strip m k v d d' :
  jackctl_parameter_set_value m k v d = Some (true, d') ->
  dr_name d' = dr_name d /\ map strip (dr_parameters d') = alter (assign_value v) k (map strip (dr_parameters d)).
Proof.
  unfold jackctl_parameter_set_value. destruct (dr_parameters d !! k) as [p|] eqn:Ek; [|done]. cbn [mbind option_bind].
  destruct (pm_driver_param p) as [i|], m; cbn [negb]; try done; (destruct (driver_value (pm_type p) v) as [w|]; [|done]); cbn [mbind option_bind]; intros [= <-];
    (split; [done|]); by apply map_alter_strip.
Qed.

(** The value of one option goes to the parameter it was saved from. *)
Lemma load_driver_option d dn p rest s :
  map strip (dr_parameters d) = map strip dn ++ unset p :: map unset rest -> driver_ok d -> NoDup (map pm_name (dn ++ p :: rest)) ->
  value_ok (pm_type p) (pm_value p) -> pm_is_set p = true -> read_option (pm_type p) s = Some (pm_value p) ->
  exists d', jack_controller_settings_set_driver_option true (pm_name p) s d = Some d' /\ dr_name d' = dr_name d /\
    map strip (dr_parameters d') = map strip (dn ++ [p]) ++ map unset rest /\ driver_ok d'.
Proof.
  intros E D N Hv Hs Hr. pose proof (f_equal (map pm_name) E) as En. pose proof E as E0.
  apply fmap_app_inv in E as (l1 & l & E1 & El & Ed). symmetry in El. apply fmap_cons_inv in El as (q & l2 & Eq & E2 & ->).
  assert (Hn : pm_name q = pm_name p) by exact (f_equal pm_name (eq_sym Eq)).
  assert (Ht : pm_type q = pm_type p) by exact (f_equal pm_type (eq_sym Eq)).
  assert (Hl : length l1 = length (map strip dn)) by (rewrite E1; by rewrite length_fmap).
  assert (Hk : dr_parameters d !! length l1 = Some q) by (rewrite Ed; by apply list_lookup_middle).
  destruct (set_value_some (length l1) (pm_value p) d q Hk) as [d' Hd']; [by rewrite Ht|]. exists d'.
  unfold jack_controller_settings_set_driver_option. rewrite <- Hn, Ed, find_parameter_at.
  - rewrite <- Ed, Hk. cbn [mbind option_bind]. rewrite Ht, Hr. cbn [mbind option_bind]. rewrite Hd'. split; [done|].
    destruct (set_value_strip _ _ _ _ _ Hd') as [-> ->]. split; [done|]. split; [|by eapply set_value_ok].
    rewrite E0, Hl, alter_middle, map_app, <- app_assoc. cbn [map app]. f_equal. f_equal.
    pose proof (assign_unset p Hs) as Ep. by destruct p.
  - rewrite <- Ed, <- names_strip, En. rewrite !map_app in N |- *. cbn [map] in N |- *. by rewrite names_strip, names_unset.
Qed.

Lemma load_driver_parameters rest dn ct j d o nm evs :
  ct_drivers ct !! j = Some d -> map strip (dr_parameters d) = map strip dn ++ map unset rest -> driver_ok d -> params_ok (dn ++ rest) ->
  exists o' nm' d', callbacks true (options_elements "   " rest ++ evs) (ct, ctx driver_path (Some j) o nm) =
      callbacks true evs (ct <| ct_drivers := <[j := d']> (ct_drivers ct) |>, ctx driver_path (Some j) o' nm') /\
    dr_name d' = dr_name d /\ map strip (dr_parameters d') = map strip (dn ++ rest) /\ driver_ok d'.
Proof.
  revert dn ct d o nm. induction rest as [|p rest IH]; intros dn ct d o nm Ej Ed Do Ok.
  { exists o, nm, d. rewrite list_insert_id by done. rewrite app_nil_r in Ed |- *. by destruct ct. }
  pose proof (po_values _ Ok) as Hv. apply Forall_app in Hv as [_ Hv]. apply Forall_cons in Hv as [Hv _]. unfold param_ok in Hv.
  pose proof (po_names _ Ok) as N. unfold options_elements. cbn [map concat]. rewrite <- app_assoc.
  change (concat (map (saved_option "   ") rest)) with (options_elements "   " rest).
  assert (Ea : dn ++ p :: rest = (dn ++ [p]) ++ rest) by (by rewrite <- app_assoc).
  unfold saved_option at 1. destruct (pm_is_set p) eqn:Es.
  - destruct (read_write _ _ Hv) as (s & -> & Er & Hl). rewrite driver_option by done.
    destruct (load_driver_option d dn p rest s) as (d1 & E1 & N1 & S1 & D1); [done..|].
    unfold update_driver. rewrite Ej. cbn [mbind option_bind]. rewrite E1. cbn [mbind option_bind].
    set (ct1 := ct <| ct_drivers ::= fun l => <[j := d1]> l |>).
    assert (Ec : ct_drivers ct1 = <[j := d1]> (ct_drivers ct)) by done.
    destruct (IH (dn ++ [p]) ct1 d1 s None) as (o' & nm' & d' & E & N' & S' & D'); [..|by rewrite <- Ea|].
    { rewrite Ec. apply list_lookup_insert_eq. by eapply lookup_lt_Some. }
    { done. } { done. }
    exists o', nm', d'. rewrite E, Ea. split; [|split; [congruence|done]]. f_equal. f_equal. rewrite Ec, list_insert_insert_eq. by destruct ct.
  - cbn [app]. rewrite Ea. apply IH; [done| |done|by rewrite <- Ea].
    rewrite Ed, map_app, <- app_assoc. cbn [map app]. by rewrite unset_same.
Qed.

(** ** The drivers *)

Definition fresh (d : jackctl_driver) : jackctl_driver := mk_driver (dr_name d) (map unset (dr_parameters d)) [].

(** The driver has the parameters it had, and its list goes with them. *)
Definition restored (d d' : jackctl_driver) : Prop :=
  dr_name d' = dr_name d /\ map strip (dr_parameters d') = map strip (dr_parameters d) /\ driver_ok d'.

Lemma fresh_ok d : driver_ok (fresh d).
Proof.
  split; cbn.
  - intros k p Hp. apply list_lookup_fmap_Some in Hp as (q & -> & _). done.
  - intros k1 k2 p1 p2 i Hp _. apply list_lookup_fmap_Some in Hp as (q & -> & _). done.
  - done.
Qed.

Lemma strip_fresh d : map strip (dr_parameters (fresh d)) = map unset (dr_parameters d).
Proof. cbn. by rewrite map_map. Qed.

Lemma names_fresh ds : map dr_name (map fresh ds) = map dr_name ds.
Proof. by rewrite map_map. Qed.

Definition drivers_path : list Z := [PARSE_CONTEXT_JACK; PARSE_CONTEXT_DRIVERS].

(** One driver of the file. *)
Lemma load_driver D d rest ct drv o nm evs :
  ct_drivers ct = D ++ fresh d :: rest -> NoDup (map dr_name (D ++ fresh d :: rest)) -> params_ok (dr_parameters d) ->
  exists d' drv' o' nm', callbacks true (driver_elements d ++ evs) (ct, ctx drivers_path drv o nm) =
      callbacks true evs (ct <| ct_drivers := D ++ d' :: rest |>, ctx drivers_path drv' o' nm') /\ restored d d'.
Proof.
  intros E N Ok. unfold driver_elements, driver_options_elements. rewrite <- !app_assoc. cbn [app].
  assert (Hj : ct_drivers ct !! length D = Some (fresh d)) by (rewrite E; by apply list_lookup_middle).
  destruct (load_driver_parameters (dr_parameters d) [] ct (length D) (fresh d) o nm
              (Chars "  " :: End_ "driver" :: Chars newline :: evs)%string Hj (strip_fresh d) (fresh_ok d) Ok) as (o' & nm' & d' & E' & R).
  exists d', (Some (length D)), o', None. split; [|exact R]. cbn [callbacks].
  rewrite text_skipped by (do 2 right; left). cbn [mbind option_bind].
  replace (callback true (Start "driver" [("name", dr_name d)]%string) (ct, ctx drivers_path drv o nm)) with (Some (ct, ctx driver_path (Some (length D)) o nm)).
  2: { change (dr_name d) with (dr_name (fresh d)). rewrite <- (find_driver_at D (fresh d) rest N), <- E. reflexivity. }
  cbn [mbind option_bind]. rewrite text_skipped by (do 3 right; left). cbn [mbind option_bind]. rewrite E'. cbn [callbacks].
  rewrite text_skipped by (do 3 right; left). cbn [mbind option_bind].
  match goal with |- context [callback true (End_ "driver") (?c, _)] =>
    change (callback true (End_ "driver") (c, ctx driver_path (Some (length D)) o' nm')) with (Some (c, ctx drivers_path (Some (length D)) o' None)) end.
  cbn [mbind option_bind]. rewrite text_skipped by (do 2 right; left). cbn [mbind option_bind]. do 3 f_equal. rewrite E. by rewrite insert_app_r_alt, Nat.sub_diag.
Qed.

Lemma load_drivers rest D ct drv o nm evs :
  ct_drivers ct = D ++ map fresh rest -> NoDup (map dr_name (D ++ rest)) -> Forall (fun d => params_ok (dr_parameters d)) rest ->
  exists D' drv' o' nm', callbacks true (concat (map driver_elements rest) ++ evs) (ct, ctx drivers_path drv o nm) =
      callbacks true evs (ct <| ct_drivers := D ++ D' |>, ctx drivers_path drv' o' nm') /\ Forall2 restored rest D'.
Proof.
  intros E N F. revert D ct drv o nm E N. induction F as [|d rest Ok F IH]; intros D ct drv o nm E N.
  { exists [], drv, o, nm. split; [|constructor]. cbn [map] in E. rewrite <- E. by destruct ct. }
  cbn [map concat]. rewrite <- app_assoc.
  destruct (load_driver D d (map fresh rest) ct drv o nm (concat (map driver_elements rest) ++ evs) E) as (d' & drv1 & o1 & nm1 & -> & R); [|done|].
  { rewrite map_app in N |- *. cbn [map] in N |- *. by rewrite names_fresh. }
  destruct (IH (D ++ [d']) (ct <| ct_drivers := D ++ d' :: map fresh rest |>) drv1 o1 nm1) as (D' & drv' & o' & nm' & -> & R').
  - cbn. by rewrite <- app_assoc.
  - rewrite <- app_assoc, map_app in *. cbn [app map] in *. by rewrite (proj1 R).
  - exists (d' :: D'), drv', o', nm'. split; [|by constructor]. rewrite <- app_assoc. by destruct ct.
Qed.

(** ** The file *)

Record controller_ok (ct : controller) : Prop := mk_controller_ok {
  co_parameters : params_ok (ct_parameters ct);
  co_no_driver : "driver" ∉ map pm_name (ct_parameters ct);
  co_drivers : NoDup (map dr_name (ct_drivers ct));
  co_driver_parameters : Forall (fun d => params_ok (dr_parameters d)) (ct_drivers ct);
  co_driver : forall j, ct_driver ct = Some j -> exists d, ct_drivers ct !! j = Some d /\
    Z.of_nat (String.length (dr_name d)) < JACK_DRIVER_PARAM_STRING_MAX
}.

(** The controller before loading; [drv] is the driver selected at first. *)
Definition fresh_controller (drv : option nat) (ct : controller) : controller :=
  mk_controller (map unset (ct_parameters ct)) (map fresh (ct_drivers ct)) drv true.

Definition selected (drv : option nat) (ct : controller) : option nat := match ct_driver ct with Some j => Some j | None => drv end.

Lemma find_driver_fresh ds j d :
  NoDup (map dr_name ds) -> ds !! j = Some d -> jack_controller_find_driver (dr_name d) (map fresh ds) = Some j.
Proof.
  intros N Hj. apply list_elem_of_split_length in Hj as (l1 & l2 & -> & ->). rewrite map_app. cbn [map].
  change (dr_name d) with (dr_name (fresh d)). rewrite find_driver_at; [by rewrite length_map|].
  change (NoDup (map dr_name (map fresh l1 ++ map fresh (d :: l2)))). rewrite <- map_app. by rewrite names_fresh.
Qed.

Lemma load_engine_options ct drv0 drv evs : controller_ok ct ->
  exists o' nm', callbacks true (engine_elements ct ++ evs) (fresh_controller drv0 ct, ctx engine_path drv EmptyString None) =
    callbacks true evs (mk_controller (map strip (ct_parameters ct)) (map fresh (ct_drivers ct)) (selected drv0 ct) true, ctx engine_path drv o' nm').
Proof.
  intros [P1 P2 P4 P5 P6]. unfold engine_elements.
  assert (L : forall ct1 o nm, ct1 = mk_controller (map unset (ct_parameters ct)) (map fresh (ct_drivers ct)) (selected drv0 ct) true ->
    exists o' nm', callbacks true (options_elements "  " (ct_parameters ct) ++ evs) (ct1, ctx engine_path drv o nm) =
      callbacks true evs (mk_controller (map strip (ct_parameters ct)) (map fresh (ct_drivers ct)) (selected drv0 ct) true, ctx engine_path drv o' nm')).
  { intros ct1 o nm ->. by apply (load_server_parameters (ct_parameters ct) []). }
  unfold selected in *. destruct (ct_driver ct) as [j|] eqn:Ej; cbn [mbind option_bind app]; [|by apply L].
  destruct (P6 j eq_refl) as (d & Hd & Hl). rewrite Hd, <- app_assoc, engine_option by done.
  unfold jack_controller_settings_set_engine_option. rewrite bool_decide_true by done. unfold jack_controller_select_driver.
  cbn [ct_drivers fresh_controller]. rewrite (find_driver_fresh _ _ _ P4 Hd). cbn [mbind option_bind snd]. by apply L.
Qed.

(** ** The claims *)

(** Loading, in whatever pieces the parser delivers the text, what was saved. *)
Lemma load_saved ct drv evs :
  controller_ok ct -> parsed (settings_document ct) evs ->
  exists ds c, jack_controller_settings_load true evs (fresh_controller drv ct) = Some (mk_controller (map strip (ct_parameters ct)) ds (selected drv ct) true, c) /\
    pc_error c = false /\ Forall2 restored (ct_drivers ct) ds.
Proof.
  intros Ok Hp.
  destruct (load_engine_options ct drv None ([Chars " "; End_ "engine"; Chars newline; Chars " "; Start "drivers" []; Chars newline]%string ++
    concat (map driver_elements (ct_drivers ct)) ++ [Chars " "; End_ "drivers"; Chars newline; End_ "jack"]%string) Ok) as (o1 & nm1 & E1).
  destruct (load_drivers (ct_drivers ct) [] (mk_controller (map strip (ct_parameters ct)) (map fresh (ct_drivers ct)) (selected drv ct) true) None o1 None
    [Chars " "; End_ "drivers"; Chars newline; End_ "jack"]%string eq_refl (co_drivers _ Ok) (co_driver_parameters _ Ok)) as (ds & drv' & o' & nm' & E2 & R).
  exists ds, (ctx [] drv' o' None). split; [|done]. refine (load_parsed _ _ _ _ _ _ Hp _ _); [|done].
  transitivity (callbacks true [Chars " "; End_ "drivers"; Chars newline; End_ "jack"]%string
    (mk_controller (map strip (ct_parameters ct)) ds (selected drv ct) true, ctx drivers_path drv' o' nm')); [|reflexivity].
  etransitivity; [|exact E2]. etransitivity; [|etransitivity; [exact E1|reflexivity]]. reflexivity.
Qed.

(** Example: two drivers, set and unset parameters of every type. *)
Definition example_controller : controller :=
  let set n t v dflt := mk_parameter n EmptyString EmptyString t true v dflt Ascii.zero None in
  let uns n t dflt := mk_parameter n EmptyString EmptyString t false dflt dflt Ascii.zero None in
  mk_controller
    [set "name" JackParamString (VString "studio") (VString EmptyString); uns "realtime" JackParamBool (VBool true);
     set "verbose" JackParamBool (VBool false) (VBool true); set "realtime-priority" JackParamInt (VInt (-10)) (VInt 10)]%string
    [mk_driver "alsa" [set "device" JackParamString (VString "hw:0") (VString "hw:1"); set "rate" JackParamUInt (VUInt 4294967295) (VUInt 48000);
                       uns "duplex" JackParamBool (VBool true)] [];
     mk_driver "dummy" [set "dither" JackParamChar (VChar (Ascii.ascii_of_nat 116)) (VChar (Ascii.ascii_of_nat 110)); uns "wait" JackParamUInt (VUInt 21333)] []]%string
    (Some 1%nat) true.

(** The same text, a character at a time. *)
Definition one_by_one (evs : list xml_event) : list xml_event :=
  flat_map (fun ev => match ev with Chars s => map (fun c => Chars (String c EmptyString)) (String.list_ascii_of_string s) | _ => [ev] end) evs.

Example example_loaded :
  exists ds c, jack_controller_settings_load true (one_by_one (settings_document example_controller)) (fresh_controller (Some 0%nat) example_controller) =
      Some (mk_controller (map strip (ct_parameters example_controller)) ds (Some 1%nat) true, c) /\
    pc_error c = false /\ Forall2 restored (ct_drivers example_controller) ds.
Proof.
  apply (load_saved example_controller (Some 0%nat)).
  - split.
    + split; [apply (bool_decide_unpack _); vm_compute; exact I|]. repeat constructor; vm_compute; congruence.
    + apply (bool_decide_unpack _); vm_compute; exact I.
    + apply (bool_decide_unpack _); vm_compute; exact I.
    + cbn [example_controller ct_drivers]. repeat apply List.Forall_cons; [..|apply Forall_nil; exact I]; (split; [apply (bool_decide_unpack _); vm_compute; exact I|]); repeat constructor; vm_compute; congruence.
    + intros j [= <-]. eexists. split; [reflexivity|]. vm_compute. reflexivity.
  - split; [vm_compute; reflexivity|]. vm_compute. repeat (apply Forall_cons; split; [first [exact I|discriminate]|]). by apply Forall_nil.
Defined.

(** Text of 63 characters, which a parameter can have and [read_option] would take, stops the loading: what follows is ignored. *)
Theorem longest_string_not_loaded s n ct drv o nm rest :
  Z.of_nat (String.length s) = JACK_PARAM_STRING_MAX ->
  read_option JackParamString s = Some (VString s) /\
  exists c, callbacks true (option_elements "  " n s ++ rest) (ct, ctx engine_path drv o nm) = Some (ct, c) /\ pc_error c = true.
Proof.
  intros H. unfold JACK_PARAM_STRING_MAX in H. split.
  - cbn [read_option]. unfold jack_controller_settings_set_string_option, JACK_PARAM_STRING_MAX. by rewrite H.
  - exists (ctx (engine_path ++ [PARSE_CONTEXT_OPTION]) drv EmptyString (Some n) <| pc_error := true |>). split; [|done].
    cbn [option_elements app callbacks]. rewrite text_skipped by (right; left). cbn [mbind option_bind].
    rewrite option_start by (right; left). cbn [mbind option_bind callback fst snd].
    rewrite (chrdata_option _ _ PARSE_CONTEXT_OPTION) by done. cbn [pc_option ctx String.length]. rewrite H.
    exact (callbacks_error true (End_ "option" :: Chars newline :: rest) ct
      (ctx (engine_path ++ [PARSE_CONTEXT_OPTION]) drv EmptyString (Some n) <| pc_error := true |>) eq_refl).
Qed.

Lemma longest_string_not_loaded_witness :
  let s := String.concat EmptyString (replicate 63 "x"%string) in
  read_option JackParamString s = Some (VString s) /\
  exists c, callbacks true (option_elements "  " "name" s ++ [End_ "engine"]%string) (example_controller, ctx engine_path None EmptyString None) =
    Some (example_controller, c) /\ pc_error c = true.
Proof. intros s. apply (longest_string_not_loaded s); [vm_compute; reflexivity]. Defined.

(** A parameter of a driver that is reset stays in the list the driver is loaded with. *)
Theorem reset_keeps_driver_parameter d k p :
  driver_ok d -> dr_parameters d !! k = Some p -> pm_is_set p = true ->
  dr_parameters (reset_driver_parameter k d) !! k = Some (p <| pm_is_set := false |> <| pm_value := pm_default p |>) /\
  exists x, x ∈ dr_set (reset_driver_parameter k d) /\ entry p = Some x.
Proof.
  intros D E Hs. split.
  - cbn. rewrite list_lookup_alter_eq, E. cbn. unfold jackctl_parameter_reset. by rewrite Hs.
  - pose proof (do_entry _ D k p E) as H. destruct (pm_driver_param p) as [i|]; [|congruence].
    destruct H as (_ & x & Ex & Hx). exists x. split; [|done]. by eapply list_elem_of_lookup_2.
Qed.

Lemma reset_keeps_driver_parameter_witness :
  let p := mk_parameter "rate" EmptyString EmptyString JackParamUInt true (VUInt 44100) (VUInt 48000) (Ascii.ascii_of_nat 114) (Some 0%nat) in
  let d := mk_driver "alsa" [p] [((Ascii.ascii_of_nat 114), VUInt 44100)] in
  dr_parameters (reset_driver_parameter 0 d) !! 0%nat = Some (p <| pm_is_set := false |> <| pm_value := pm_default p |>) /\
  exists x, x ∈ dr_set (reset_driver_parameter 0 d) /\ entry p = Some x.
Proof.
  intros p d. apply (reset_keeps_driver_parameter d 0 p); [|reflexivity..]. split.
  - intros [|k] q; [|done]. intros [= <-]. split; [reflexivity|]. eexists. split; reflexivity.
  - intros [|k1] [|k2] ? ? i; (done || reflexivity).
  - intros [|i] x; [|done]. intros _. exists 0%nat, p. split; reflexivity.
Defined.
End SettingsRestore.
