(* ===== verification/SettingsFile.v ===== *)
(** * The text of the settings file (jackcontroller_xml_write_raw.c)

    The writer puts names and values between tags as they are.  When they are plain text
    the file is the text of the document that [settings_document] describes, and a
    parser of XML gives back its elements.  Otherwise the file can be that of
    other settings. *)

From S2P Require Import Prelude Settings SettingsInv SettingsLoad SettingsRestore.

Local Open Scope Z_scope.

Module SettingsFile.
Import Settings SettingsInv SettingsLoad SettingsRestore.

Lemma append_cons c s t : String c s +:+ t = String c (s +:+ t).
Proof. done. Qed.

Lemma empty_append t : EmptyString +:+ t = t.
Proof. done. Qed.

(** ** Plain text *)

(** Printable, and neither the beginning nor the end of a tag or an entity. *)
Definition plain_char (c : Ascii.ascii) : bool :=
  let n := Z.of_nat (Ascii.nat_of_ascii c) in
  (32 <=? n) && (n <=? 126) && negb (n =? 38) && negb (n =? 60) && negb (n =? 62).

(** For the value of an attribute, also no quotation mark. *)
Definition name_char (c : Ascii.ascii) : bool := plain_char c && negb (Z.of_nat (Ascii.nat_of_ascii c) =? 34).

(** For a comment, also no hyphen. *)
Definition comment_char (c : Ascii.ascii) : bool := plain_char c && negb (Z.of_nat (Ascii.nat_of_ascii c) =? 45).

(** For text between tags, also the end of a line. *)
Definition text_char (c : Ascii.ascii) : bool := plain_char c || (Z.of_nat (Ascii.nat_of_ascii c) =? 10).

(** For the name of an element or attribute. *)
Definition letter (c : Ascii.ascii) : bool :=
  let n := Z.of_nat (Ascii.nat_of_ascii c) in (97 <=? n) && (n <=? 122).

Fixpoint all_chars (f : Ascii.ascii -> bool) (s : string) : bool :=
  match s with EmptyString => true | String c s => f c && all_chars f s end.

Lemma all_app f s t : all_chars f (s +:+ t) = all_chars f s && all_chars f t.
Proof. induction s as [|c s IH]; [done|]. rewrite append_cons. cbn. by rewrite IH, andb_assoc. Qed.

Lemma all_weaken f g s : (forall c, f c = true -> g c = true) -> all_chars f s = true -> all_chars g s = true.
Proof. intros H. induction s as [|c s IH]; cbn; [done|]. intros [Hc Hs]%andb_true_iff. by rewrite H, IH. Qed.

(** ** Documents *)

Fixpoint render_attributes (attr : list (string * string)) : string :=
  match attr with
  | [] => EmptyString
  | (n, v) :: attr => " " +:+ n +:+ "=" +:+ quote +:+ v +:+ quote +:+ render_attributes attr
  end.

Definition render_event (ev : xml_event) : string :=
  match ev with
  | Start el attr => "<" +:+ el +:+ render_attributes attr +:+ ">"
  | Chars s => s
  | End_ el => "</" +:+ el +:+ ">"
  end.

Definition render (doc : list xml_event) : string := foldr (fun ev text => render_event ev +:+ text) EmptyString doc.

Definition file_text (timestamp : string) (doc : list xml_event) : string := prologue timestamp +:+ render doc +:+ newline.

Definition plain_event (ev : xml_event) : bool :=
  match ev with
  | Start el attr =>
      all_chars letter el && negb (bool_decide (el = EmptyString)) && bool_decide (NoDup attr.*1) &&
      forallb (fun a => all_chars letter a.1 && negb (bool_decide (a.1 = EmptyString)) && all_chars name_char a.2) attr
  | Chars s => all_chars text_char s
  | End_ el => all_chars letter el && negb (bool_decide (el = EmptyString))
  end.

(** The elements [open] are closed in their order, and nothing is behind the root. *)
Fixpoint nested (open : list string) (doc : list xml_event) : bool :=
  match doc with
  | [] => bool_decide (open = [])
  | Start el _ :: doc => nested (el :: open) doc
  | Chars _ :: doc => negb (bool_decide (open = [])) && nested open doc
  | End_ el :: doc =>
      match open with
      | x :: open => bool_decide (x = el) && (if bool_decide (open = []) then bool_decide (doc = []) else nested open doc)
      | [] => false
      end
  end.

(** A document with one root and plain text. *)
Definition plain_document (doc : list xml_event) : bool := forallb plain_event doc && nested [] doc && negb (bool_decide (doc = [])).

(** ** The file is the text of the document *)

Lemma render_app a b : render (a ++ b) = render a +:+ render b.
Proof. unfold render. induction a as [|ev a IH]; cbn; [done|]. by rewrite IH, append_assoc. Qed.

Lemma render_concat {A} (f : A -> list xml_event) (g : A -> string) l :
  (forall x, render (f x) = g x) -> render (concat (map f l)) = foldr (fun x text => g x +:+ text) EmptyString l.
Proof. intros E. induction l as [|x l IH]; cbn [map concat foldr]; [done|]. by rewrite render_app, E, IH. Qed.

Ltac flat := rewrite ?append_assoc, ?append_cons, ?empty_append, ?append_assoc, ?append_nil.

Lemma render_option ind n s : render (option_elements ind n s) = jack_controller_settings_write_option ind n s.
Proof. unfold jack_controller_settings_write_option, render. cbn. by flat. Qed.

Lemma render_options ind ps : render (options_elements ind ps) = jack_controller_settings_save_options ind ps.
Proof.
  apply render_concat. intros p. unfold saved_option, save_option. destruct (pm_is_set p); [|done].
  destruct (write_value _ _); [apply render_option|done].
Qed.

Lemma render_driver d : render (driver_elements d) = save_driver d.
Proof.
  unfold driver_elements, driver_options_elements. rewrite !render_app, render_options. unfold save_driver, render. cbn. by flat.
Qed.

(** What is written, for every controller. *)
Theorem save_is_document now ct : jack_controller_settings_save now ct = file_text now (settings_document ct).
Proof.
  unfold settings_document, engine_elements, file_text. rewrite !render_app, (render_concat _ _ _ render_driver), render_options.
  unfold jack_controller_settings_save, jack_controller_settings_save_engine_options, render. f_equal. cbn.
  destruct (ct_driver ct ≫= _) as [d|]; [rewrite <- (render_option "  " "driver" (dr_name d))|]; unfold render; cbn; by flat.
Qed.

(** ** Plain settings *)

Definition plain_value (v : value) : Prop :=
  match v with VChar c => plain_char c = true | VString s => all_chars plain_char s = true | _ => True end.

Definition plain_parameter (p : jackctl_parameter) : Prop :=
  all_chars name_char (pm_name p) = true /\ (pm_is_set p = true -> plain_value (pm_value p)).

Definition plain_driver (d : jackctl_driver) : Prop :=
  all_chars name_char (dr_name d) = true /\ Forall plain_parameter (dr_parameters d).

Record plain_controller (ct : controller) : Prop := {
  pl_parameters : Forall plain_parameter (ct_parameters ct);
  pl_drivers : Forall plain_driver (ct_drivers ct)
}.

Lemma plain_text c : plain_char c = true -> text_char c = true.
Proof. unfold text_char. by intros ->. Qed.

Lemma name_text c : name_char c = true -> text_char c = true.
Proof. intros [H _]%andb_true_iff. by apply plain_text. Qed.

Lemma digit_text n : text_char (digit (n mod 10)) = true.
Proof.
  assert (H : 0 <= n mod 10 < 10) by (apply Z.mod_pos_bound; lia). revert H. generalize (n mod 10). intros z Hz.
  assert (E : z ∈ seqZ 0 10) by (apply elem_of_seqZ; lia). revert z Hz E. 
  enough (Forall (fun z => text_char (digit z) = true) (seqZ 0 10)) as F by (intros z _ Hz; by eapply Forall_forall in F).
  apply (bool_decide_unpack _). vm_compute. exact I.
Qed.

Lemma digits_text fuel : forall n rest, all_chars text_char rest = true -> all_chars text_char (print_digits fuel n rest) = true.
Proof.
  induction fuel as [|fuel IH]; intros n rest H; cbn [print_digits]; [done|].
  assert (H' : all_chars text_char (String (digit (n mod 10)) rest) = true) by (cbn [all_chars]; by rewrite digit_text).
  destruct (n <? 10); [done|]. by apply IH.
Qed.

Lemma written_text t v s : write_value t v = Some s -> plain_value v -> all_chars text_char s = true.
Proof.
  destruct t, v; cbn [write_value plain_value]; try done; intros [= <-] Hv.
  - unfold print_int, print_uint. destruct (_ <? _); [cbn [all_chars]; rewrite digits_text by done; done|by apply digits_text].
  - by apply digits_text.
  - case_bool_decide; [done|]. cbn. by rewrite plain_text.
  - by eapply all_weaken; [apply plain_text|].
  - by destruct b.
Qed.

Definition plain_events (doc : list xml_event) : Prop := forallb plain_event doc = true.

Lemma plain_app a b : plain_events a -> plain_events b -> plain_events (a ++ b).
Proof. unfold plain_events. rewrite forallb_app. by intros -> ->. Qed.

Lemma plain_concat {A} (f : A -> list xml_event) l : Forall (fun x => plain_events (f x)) l -> plain_events (concat (map f l)).
Proof. induction 1; [done|]. by apply plain_app. Qed.

Lemma plain_element el n : all_chars letter el = true -> el <> EmptyString -> all_chars name_char n = true -> plain_event (Start el [("name"%string, n)]) = true.
Proof.
  intros He Hn Ha. cbn [plain_event forallb fst snd fmap list_fmap]. rewrite He, Ha, bool_decide_false by done.
  rewrite bool_decide_true by apply NoDup_singleton. done.
Qed.

Lemma plain_option ind n s :
  all_chars text_char ind = true -> all_chars name_char n = true -> all_chars text_char s = true -> plain_events (option_elements ind n s).
Proof.
  intros Hi Hn Hs. unfold plain_events, option_elements. cbn [forallb]. rewrite (plain_element "option" n) by done. cbn [plain_event].
  by rewrite Hi, Hs.
Qed.

Lemma plain_options ind ps : all_chars text_char ind = true -> Forall plain_parameter ps -> plain_events (options_elements ind ps).
Proof.
  intros Hi Hp. apply plain_concat. eapply Forall_impl; [exact Hp|]. intros p [Hn Hv]. unfold saved_option.
  destruct (pm_is_set p); [|done]. destruct (write_value _ _) as [s|] eqn:E; [|done]. apply plain_option; [done|done|].
  eapply written_text; [done|by apply Hv].
Qed.

Lemma nested_options ind ps open rest : open <> [] -> nested open (options_elements ind ps ++ rest) = nested open rest.
Proof.
  intros Ho. unfold options_elements. induction ps as [|p ps IH]; cbn [map concat]; [done|]. rewrite <- app_assoc. unfold saved_option at 1.
  destruct (pm_is_set p); [|done]. destruct (write_value _ _) as [s|]; [|done]. cbn.
  by rewrite (bool_decide_false (open = [])) by done.
Qed.

Lemma nested_option open ind n s rest : open <> [] -> nested open (option_elements ind n s ++ rest) = nested open rest.
Proof. intros Ho. cbn. by rewrite (bool_decide_false (open = [])) by done. Qed.

Lemma nested_drivers ds open rest : open <> [] -> nested open (concat (map driver_elements ds) ++ rest) = nested open rest.
Proof.
  intros Ho. induction ds as [|d ds IH]; cbn [map concat]; [done|]. unfold driver_elements at 1, driver_options_elements. rewrite <- !app_assoc. cbn.
  rewrite (bool_decide_false (open = [])) by done. cbn. rewrite nested_options by done. cbn. by rewrite (bool_decide_false (open = [])) by done.
Qed.

Lemma plain_driver_elements d : plain_driver d -> plain_events (driver_elements d).
Proof.
  intros [Hn Hp]. unfold driver_elements. repeat apply plain_app; [|by apply plain_options|done].
  unfold plain_events. cbn [forallb]. by rewrite (plain_element "driver" (dr_name d)).
Qed.

(** The document of plain settings is plain. *)
Lemma document_plain ct : plain_controller ct -> plain_document (settings_document ct) = true.
Proof.
  intros [Hp Hd]. unfold plain_document. apply andb_true_iff. split; [|done]. apply andb_true_iff. split.
  - unfold settings_document. repeat apply plain_app; try done; [|by apply plain_options|by apply plain_concat; eapply Forall_impl; [exact Hd|]; intros; apply plain_driver_elements].
    destruct (ct_driver ct) as [j|]; [|done]. cbn [mbind option_bind]. destruct (ct_drivers ct !! j) as [d|] eqn:E; [|done].
    destruct (Forall_lookup_1 _ _ _ _ Hd E) as [Hn _]. apply plain_option; [done|done|]. by eapply all_weaken; [apply name_text|].
  - unfold settings_document, engine_elements. cbn. rewrite <- !app_assoc. destruct (ct_driver ct ≫= _) as [d|].
    + rewrite nested_option, nested_options by done. cbn. by rewrite nested_drivers.
    + cbn [app]. rewrite nested_options by done. cbn. by rewrite nested_drivers.
Qed.

(** ** A parser

    What the code relies on: XML of plain text is read as what it is, the text in any
    pieces.  [expat] stands for the parser of the library: the calls it makes for
    the text of a file. *)

Definition timestamp_ok (now : string) : Prop := all_chars comment_char now = true.

Definition reads_plain_text (expat : string -> list xml_event) : Prop :=
  forall now doc, timestamp_ok now -> plain_document doc = true -> parsed doc (expat (file_text now doc)).

(** A small parser that does so: it passes over comments, and delivers text a
    character at a time. *)
Fixpoint until (stop : Ascii.ascii) (s : string) : string * string :=
  match s with
  | EmptyString => (EmptyString, EmptyString)
  | String c s => if bool_decide (c = stop) then (EmptyString, s) else let '(a, b) := until stop s in (String c a, b)
  end.

Definition char (n : nat) : Ascii.ascii := Ascii.ascii_of_nat n.

(** The attributes of a tag, behind the space in front of each. *)
Fixpoint parse_attributes (fuel : nat) (s : string) : list (string * string) :=
  match fuel, s with
  | S fuel, String _ _ =>
      let '(n, s) := until (char 61) s in
      let '(_, s) := until (char 34) s in
      let '(v, s) := until (char 34) s in
      (n, v) :: parse_attributes fuel (until (char 32) s).2
  | _, _ => []
  end.

(** The event of a tag without its angle brackets, and the change of depth. *)
Definition parse_tag (s : string) : list xml_event * Z :=
  match s with
  | EmptyString => ([], 0)
  | String c s' =>
      if bool_decide (c = char 47) then ([End_ s'], -1)
      else if bool_decide (c = char 33) || bool_decide (c = char 63) then ([], 0)
      else let '(el, s) := until (char 32) s in ([Start el (parse_attributes (String.length s) s)], 1)
  end.

(** [tag]: the part of a tag that was read. *)
Fixpoint parse (depth : Z) (tag : option string) (s : string) : list xml_event :=
  match s with
  | EmptyString => []
  | String c s =>
      match tag with
      | None =>
          if bool_decide (c = char 60) then parse depth (Some EmptyString) s
          else (if depth =? 0 then [] else [Chars (String c EmptyString)]) ++ parse depth None s
      | Some t =>
          if bool_decide (c = char 62) then let '(evs, d) := parse_tag t in evs ++ parse (depth + d) None s
          else parse depth (Some (t +:+ String c EmptyString)) s
      end
  end.

Definition plain_parser (s : string) : list xml_event := parse 0 None s.

(** ** The small parser reads plain text *)

Definition lacks (stop : Ascii.ascii) (s : string) : Prop := all_chars (fun c => negb (bool_decide (c = stop))) s = true.

Lemma lacks_cons stop c s : lacks stop (String c s) -> c <> stop /\ lacks stop s.
Proof. unfold lacks. cbn. intros [H ?]%andb_true_iff. by case_bool_decide. Qed.

Lemma all_lacks f stop s : f stop = false -> all_chars f s = true -> lacks stop s.
Proof. intros Hf. apply all_weaken. intros c Hc. case_bool_decide; [congruence|done]. Qed.

Lemma until_stop stop a b : lacks stop a -> until stop (a +:+ String stop b) = (a, b).
Proof.
  induction a as [|c a IH]; intros H; [by rewrite empty_append; cbn [until]; rewrite bool_decide_true|]. apply lacks_cons in H as [Hc H].
  rewrite append_cons. cbn [until]. by rewrite bool_decide_false, IH.
Qed.

Lemma until_end stop a : lacks stop a -> until stop a = (a, EmptyString).
Proof.
  induction a as [|c a IH]; intros H; [done|]. apply lacks_cons in H as [Hc H]. cbn [until]. by rewrite bool_decide_false, IH.
Qed.

Lemma parse_text depth s rest :
  lacks (char 60) s ->
  parse depth None (s +:+ rest) =
  (if depth =? 0 then [] else map (fun c => Chars (String c EmptyString)) (String.list_ascii_of_string s)) ++ parse depth None rest.
Proof.
  induction s as [|c s IH]; intros H; [by destruct (depth =? 0)|]. apply lacks_cons in H as [Hc H].
  rewrite append_cons. cbn [parse]. rewrite bool_decide_false, IH by done. by destruct (depth =? 0).
Qed.

Lemma parse_until depth rest s : forall t,
  lacks (char 62) s ->
  parse depth (Some t) (s +:+ String (char 62) rest) = (parse_tag (t +:+ s)).1 ++ parse (depth + (parse_tag (t +:+ s)).2) None rest.
Proof.
  induction s as [|c s IH]; intros t H.
  - rewrite empty_append, append_nil. cbn [parse]. rewrite bool_decide_true by done. by destruct (parse_tag t).
  - apply lacks_cons in H as [Hc H]. rewrite append_cons. cbn [parse]. rewrite bool_decide_false, IH by done. by rewrite append_assoc.
Qed.

Lemma parse_one depth s rest :
  lacks (char 62) s -> parse depth None ("<" +:+ s +:+ ">" +:+ rest) = (parse_tag s).1 ++ parse (depth + (parse_tag s).2) None rest.
Proof. intros H. exact (parse_until depth rest s EmptyString H). Qed.

(** The attributes without the first space. *)
Definition tail_attributes (attr : list (string * string)) : string :=
  match attr with [] => EmptyString | (n, v) :: attr => n +:+ "=" +:+ quote +:+ v +:+ quote +:+ render_attributes attr end.

Definition plain_attributes (attr : list (string * string)) : Prop :=
  Forall (fun a => all_chars letter a.1 = true /\ a.1 <> EmptyString /\ all_chars name_char a.2 = true) attr.

Lemma equals_sign x : "=" +:+ x = String (char 61) x.
Proof. done. Qed.

Lemma quotation_mark x : quote +:+ x = String (char 34) x.
Proof. done. Qed.

Lemma parse_attributes_spec attr : forall fuel,
  plain_attributes attr -> (length attr <= fuel)%nat -> parse_attributes fuel (tail_attributes attr) = attr.
Proof.
  induction attr as [|[n v] attr IH]; intros fuel H Hf; [by destruct fuel|]. apply Forall_cons in H as [(Hn & He & Hv) H].
  destruct fuel as [|fuel]; [cbn in Hf; lia|]. cbn [tail_attributes parse_attributes fst snd] in *.
  destruct (n +:+ "=" +:+ quote +:+ v +:+ quote +:+ render_attributes attr) as [|c s] eqn:E; [by destruct n|]. rewrite <- E. clear E c s.
  rewrite equals_sign, until_stop by (by apply (all_lacks letter)). rewrite !quotation_mark. cbn [until]. rewrite bool_decide_true by done.
  rewrite until_stop by (by apply (all_lacks name_char)). f_equal.
  assert (E : (until (char 32) (render_attributes attr)).2 = tail_attributes attr) by (by destruct attr as [|[n' v'] attr]).
  rewrite E. apply IH; [done|]. cbn in Hf. lia.
Qed.

Lemma length_attributes attr : plain_attributes attr -> (length attr <= String.length (tail_attributes attr))%nat.
Proof.
  assert (L : forall a b, String.length (a +:+ b) = (String.length a + String.length b)%nat)
    by (induction a as [|c a IHa]; intros b; [done|rewrite append_cons; cbn [String.length]; by rewrite IHa]).
  induction 1 as [|[n v] attr (Hn & He & Hv) H IH]; cbn [tail_attributes length]; [done|]. rewrite !L. cbn [fst] in He.
  assert (String.length n <> 0%nat) by (by destruct n). destruct attr as [|[n' v'] attr]; [cbn; lia|].
  cbn [render_attributes]. change (n' +:+ "=" +:+ quote +:+ v' +:+ quote +:+ render_attributes attr) with (tail_attributes ((n', v') :: attr)).
  rewrite L. cbn [length String.length] in *. lia.
Qed.

Lemma all_lacks_app stop a b : lacks stop a -> lacks stop b -> lacks stop (a +:+ b).
Proof. unfold lacks. rewrite all_app. by intros -> ->. Qed.

Lemma lacks_attributes attr : plain_attributes attr -> lacks (char 62) (render_attributes attr).
Proof.
  induction 1 as [|[n v] attr (Hn & He & Hv) H IH]; cbn [render_attributes]; [done|].
  repeat (apply all_lacks_app; [first [done|by apply (all_lacks letter)|by apply (all_lacks name_char)]|]). done.
Qed.

Lemma parse_start depth el attr rest :
  all_chars letter el = true -> el <> EmptyString -> plain_attributes attr ->
  parse depth None (render_event (Start el attr) +:+ rest) = Start el attr :: parse (depth + 1) None rest.
Proof.
  intros He Hn Ha. cbn [render_event]. rewrite !append_assoc.
  rewrite <- (append_assoc el). rewrite parse_one by (apply all_lacks_app; [by apply (all_lacks letter)|by apply lacks_attributes]).
  assert (Eu : until (char 32) (el +:+ render_attributes attr) = (el, tail_attributes attr)).
  { destruct attr as [|[n v] attr]; [rewrite append_nil; by apply until_end, (all_lacks letter)|].
    cbn [render_attributes tail_attributes]. change (" " +:+ ?x) with (String (char 32) x). by apply until_stop, (all_lacks letter). }
  assert (Et : parse_tag (el +:+ render_attributes attr) = ([Start el attr], 1)); [|by rewrite Et].
  destruct el as [|c el]; [done|]. rewrite append_cons in Eu |- *. cbn [parse_tag]. cbn [all_chars] in He. apply andb_true_iff in He as [Hc _].
  rewrite !bool_decide_false by (by intros ->). cbn [orb]. rewrite Eu, parse_attributes_spec; [done|done|by apply length_attributes].
Qed.

Lemma parse_end depth el rest :
  all_chars letter el = true -> parse depth None (render_event (End_ el) +:+ rest) = End_ el :: parse (depth - 1) None rest.
Proof.
  intros He. cbn [render_event]. rewrite !append_assoc.
  change ("</" +:+ el +:+ ">" +:+ rest) with ("<" +:+ String (char 47) el +:+ ">" +:+ rest).
  rewrite parse_one by (unfold lacks; cbn [all_chars]; by apply (all_lacks letter)). done.
Qed.

Lemma parse_chars depth s rest :
  all_chars text_char s = true -> depth <> 0 -> parse depth None (s +:+ rest) = one_by_one [Chars s] ++ parse depth None rest.
Proof.
  intros Hs Hd. rewrite parse_text by (by apply (all_lacks text_char)). destruct (Z.eqb_spec depth 0); [done|].
  unfold one_by_one. cbn [flat_map]. by rewrite app_nil_r.
Qed.

Lemma one_by_one_cons ev doc : one_by_one (ev :: doc) = one_by_one [ev] ++ one_by_one doc.
Proof. unfold one_by_one. cbn [flat_map]. by rewrite app_nil_r. Qed.

Lemma parse_document doc : forall open,
  plain_events doc -> nested open doc = true -> (open = [] -> match doc with Start _ _ :: _ | [] => True | _ => False end) ->
  parse (zlen open) None (render doc +:+ newline) = one_by_one doc.
Proof.
  unfold plain_events. induction doc as [|ev doc IH]; intros open Hp Hn Ho; cbn [nested forallb] in *.
  - apply bool_decide_eq_true in Hn as ->. done.
  - apply andb_true_iff in Hp as [He Hp]. cbn [render foldr]. fold (render doc). rewrite append_assoc, one_by_one_cons.
    destruct ev as [el attr|s|el]; cbn [plain_event] in He.
    + apply andb_true_iff in He as [[[H1 H2]%andb_true_iff _]%andb_true_iff H3]. apply negb_true_iff, bool_decide_eq_false in H2.
      rewrite parse_start; [|done|done|].
      2:{ apply Forall_forall. intros a Ha%list_elem_of_In. rewrite forallb_forall in H3. specialize (H3 a Ha).
          apply andb_true_iff in H3 as [[? H4%negb_true_iff%bool_decide_eq_false]%andb_true_iff ?]. done. }
      replace (zlen open + 1) with (zlen (el :: open)) by (rewrite length_cons; lia). by rewrite IH.
    + apply andb_true_iff in Hn as [Hn%negb_true_iff%bool_decide_eq_false Hd]. rewrite parse_chars by (done || (destruct open; [done|rewrite length_cons; lia])).
      by rewrite IH.
    + destruct open as [|x open]; [done|]. apply andb_true_iff in He as [He _]. rewrite parse_end by done.
      apply andb_true_iff in Hn as [_ Hn]. replace (zlen (x :: open) - 1) with (zlen open) by (rewrite length_cons; lia).
      case_bool_decide as Hb.
      * apply bool_decide_eq_true in Hn as ->. by subst open.
      * by rewrite IH.
Qed.

(** The prologue as tags. *)
Lemma prologue_tags now rest :
  prologue now +:+ rest =
  "<" +:+ ("?xml version=" +:+ quote +:+ "1.0" +:+ quote +:+ "?") +:+ ">" +:+ newline +:+
  "<" +:+ ("!--" +:+ newline +:+ JACK_CONF_HEADER_TEXT +:+ "--") +:+ ">" +:+ newline +:+
  "<" +:+ ("!-- " +:+ now +:+ " --") +:+ ">" +:+ newline +:+ rest.
Proof. unfold prologue. rewrite !append_assoc. reflexivity. Qed.

Lemma parse_prologue now rest : timestamp_ok now -> parse 0 None (prologue now +:+ rest) = parse 0 None rest.
Proof.
  intros Hn. rewrite prologue_tags.
  assert (T : forall t rest, lacks (char 62) t -> parse_tag t = ([], 0) -> parse 0 None ("<" +:+ t +:+ ">" +:+ newline +:+ rest) = parse 0 None rest).
  { intros t r Ht E. rewrite parse_one, E by done. cbn [fst snd app]. change (0 + 0) with 0. by rewrite (parse_text 0 newline r). }
  rewrite !T; try done. apply all_lacks_app; [done|]. apply all_lacks_app; [by apply (all_lacks comment_char)|done].
Qed.

Lemma glue_cons ev a b : glue a = glue b -> glue (ev :: a) = glue (ev :: b).
Proof. intros E. destruct ev; cbn [glue]; by rewrite E. Qed.

Lemma glue_chars s evs : glue (one_by_one [Chars s] ++ evs) = glue (Chars s :: evs).
Proof.
  unfold one_by_one. cbn [flat_map]. rewrite app_nil_r.
  induction s as [|c s IH]; cbn [String.list_ascii_of_string map app].
  - cbn [glue]. rewrite bool_decide_true by done. destruct (glue evs) as [|[]]; done.
  - rewrite (glue_cons _ _ _ IH). cbn [glue]. rewrite (bool_decide_false (String c s = EmptyString)), (bool_decide_false (String c EmptyString = EmptyString)) by done.
    destruct s as [|c' s].
    + rewrite bool_decide_true by done. destruct (glue evs) as [|[el attr|t|el] r]; rewrite ?empty_append; done.
    + rewrite bool_decide_false by done. destruct (glue evs) as [|[el attr|t|el] r]; rewrite ?append_cons, ?empty_append; done.
Qed.

Lemma glue_one_by_one doc : glue (one_by_one doc) = glue doc.
Proof.
  induction doc as [|ev doc IH]; [done|]. rewrite one_by_one_cons. destruct ev as [el attr|s|el]; [by apply glue_cons|rewrite glue_chars; by apply glue_cons|by apply glue_cons].
Qed.

Lemma one_by_one_some_text doc : Forall some_text (one_by_one doc).
Proof.
  induction doc as [|ev doc IH]; [constructor|]. rewrite one_by_one_cons. apply Forall_app. split; [|done].
  destruct ev as [el attr|s|el]; [by constructor| |by constructor]. unfold one_by_one. cbn [flat_map]. rewrite app_nil_r.
  induction s as [|c s IHs]; cbn; constructor; done.
Qed.

(** There is a parser as the code needs it. *)
Theorem plain_parser_reads : reads_plain_text plain_parser.
Proof.
  intros now doc Hn Hd. unfold plain_document in Hd. apply andb_true_iff in Hd as [[Hp Hs]%andb_true_iff _].
  assert (E : plain_parser (file_text now doc) = one_by_one doc).
  { unfold plain_parser, file_text. rewrite parse_prologue by done. apply (parse_document doc []); [done|done|].
    intros _. destruct doc as [|[] doc]; done. }
  rewrite E. split; [apply glue_one_by_one|apply one_by_one_some_text].
Qed.

(** ** What is not plain

    The settings of two controllers can have one text: the value of a string closes its
    element and opens another one.  No parser gives back the first ones. *)

Definition injected : string := "hw:0</option>" +:+ newline +:+ "   <option name=" +:+ quote +:+ "rate" +:+ quote +:+ ">8000".

Definition device_controller (device : string) (rate : option Z) : controller :=
  mk_controller []
    [mk_driver "alsa"
       [mk_parameter "device" "" "" JackParamString true (VString device) (VString "hw:0") (char 100) None;
        mk_parameter "rate" "" "" JackParamUInt (bool_decide (is_Some rate)) (VUInt (default 48000 rate)) (VUInt 48000) (char 114) None] []]%string
    (Some 0%nat) true.

Lemma unescaped_text_collides now :
  jack_controller_settings_save now (device_controller injected None) = jack_controller_settings_save now (device_controller "hw:0" (Some 8000)).
Proof.
  unfold jack_controller_settings_save. f_equal.
Qed.
End SettingsFile.
