(* ===== verification/Configure.v ===== *)
(** * The configuration interface on D-Bus (server/jackcontroller_iface_configure.c,
      jackcontroller_iface_control.c)

    Parameters have addresses: engine and a name, driver and a name (of the
    selected driver), drivers, a driver and a name.  Every change is saved.

    A message is the list of its arguments; replies are built in memory that is
    assumed to be there, and the file is assumed to be writable.  [None] is
    the use of a null pointer. *)

From S2P Require Import Prelude Settings.

Local Open Scope Z_scope.

Module Configure.
Import Settings.

(** ** Messages *)

(** [message_arg_t] with its type. *)
Inductive dbus_value :=
| DInt32 (i : Z) | DUInt32 (u : Z) | DByte (b : Ascii.ascii) | DString (s : string) | DBoolean (b : bool) | DOther (type : Ascii.ascii).

Inductive dbus_arg := AStrings (l : list string) | AVariant (v : dbus_value) | AOther.

Inductive dbus_error := INVALID_ARGS | UNKNOWN_INTERNAL | UNKNOWN_PARAMETER | UNKNOWN_DRIVER | SERVER_NOT_RUNNING | GENERIC.

(** [struct parameter_info]. *)
Record parameter_info := mk_info { in_type : jackctl_param_type_t; in_name : string; in_short_descr : string; in_long_descr : string }.

Inductive configure_reply :=
| RError (e : dbus_error)
| REmpty
| RContainer (leaf : bool) (children : list string)
| RInfos (l : list parameter_info)
| RInfo (i : parameter_info)
| RConstraint (is_range is_strict is_fake_value : bool) (values : list (dbus_value * string))
| RValue (is_set : bool) (default v : dbus_value).

#[global] Instance dbus_value_eq_dec : EqDecision dbus_value.
Proof. solve_decision. Defined.

Definition PTNODE_ENGINE : string := "engine".
Definition PTNODE_DRIVER : string := "driver".
Definition PTNODE_DRIVERS : string := "drivers".
Definition PTNODE_INTERNALS : string := "internals".

Definition ENGINE_DRIVER_PARAMETER_NAME : string := "driver".

Definition driver_parameter_info : parameter_info := mk_info JackParamString ENGINE_DRIVER_PARAMETER_NAME "Driver to use" EmptyString.

(** ** Values *)

Definition jack_controller_jack_to_dbus_variant (t : jackctl_param_type_t) (v : value) : option dbus_value :=
  match t, v with
  | JackParamInt, VInt i => Some (DInt32 i)
  | JackParamUInt, VUInt u => Some (DUInt32 u)
  | JackParamChar, VChar c => Some (DByte c)
  | JackParamString, VString s => Some (DString s)
  | JackParamBool, VBool b => Some (DBoolean b)
  | _, _ => None
  end.

(** [None]: the conversion fails. *)
Definition jack_controller_dbus_to_jack_variant (d : dbus_value) : option value :=
  match d with
  | DInt32 i => Some (VInt i)
  | DUInt32 u => Some (VUInt u)
  | DByte c => Some (VChar c)
  | DString s => if Z.of_nat (String.length s) >? JACK_PARAM_STRING_MAX then None else Some (VString s)
  | DBoolean b => Some (VBool b)
  | DOther _ => None
  end.

(** [PARAM_TYPE_JACK_TO_DBUS(type) == arg_type]. *)
Definition type_matches (t : jackctl_param_type_t) (d : dbus_value) : bool :=
  match t, d with
  | JackParamInt, DInt32 _ | JackParamUInt, DUInt32 _ | JackParamChar, DByte _ | JackParamString, DString _ | JackParamBool, DBoolean _ => true
  | _, _ => false
  end.

(** ** Addresses *)

(** The address, of at most three strings, and the arguments behind it. *)
Definition jack_controller_dbus_get_parameter_address_ex (args : list dbus_arg) : option (list string * list dbus_arg) :=
  match args with
  | AStrings l :: rest => if bool_decide (length l <= 3)%nat then Some (l, rest) else None
  | _ => None
  end.

Definition jack_controller_dbus_get_parameter_address (args : list dbus_arg) : option (list string) :=
  match jack_controller_dbus_get_parameter_address_ex args with
  | Some (l, []) => Some l
  | _ => None
  end.

(** What an address stands for: the choice of the driver, a parameter of the
    server, or a parameter of a driver. *)
Inductive target := TDriver | TServer (k : nat) | TDriverParam (j k : nat).

#[global] Instance target_eq_dec : EqDecision target.
Proof. solve_decision. Defined.

(** The search all methods on one parameter make. *)
Definition parameter_at (ct : controller) (address : list string) : option (dbus_error + target) :=
  match address with
  | [a0; a1] =>
      if bool_decide (a0 = PTNODE_ENGINE) then
        Some (if bool_decide (a1 = ENGINE_DRIVER_PARAMETER_NAME) then inr TDriver
              else match jack_controller_find_parameter a1 (ct_parameters ct) with Some k => inr (TServer k) | None => inl UNKNOWN_PARAMETER end)
      else if bool_decide (a0 = PTNODE_DRIVER) then
        j ← ct_driver ct; d ← ct_drivers ct !! j;
        Some (match jack_controller_find_parameter a1 (dr_parameters d) with Some k => inr (TDriverParam j k) | None => inl UNKNOWN_PARAMETER end)
      else Some (inl INVALID_ARGS)
  | [a0; a1; a2] =>
      if bool_decide (a0 = PTNODE_DRIVERS) then
        match jack_controller_find_driver a1 (ct_drivers ct) with
        | None => Some (inl UNKNOWN_INTERNAL)
        | Some j =>
            d ← ct_drivers ct !! j;
            Some (match jack_controller_find_parameter a2 (dr_parameters d) with Some k => inr (TDriverParam j k) | None => inl UNKNOWN_PARAMETER end)
        end
      else if bool_decide (a0 = PTNODE_INTERNALS) then Some (inl UNKNOWN_INTERNAL)
      else Some (inl INVALID_ARGS)
  | _ => Some (inl INVALID_ARGS)
  end.

(** The parameter of a target. *)
Definition target_parameter (ct : controller) (t : target) : option jackctl_parameter :=
  match t with
  | TDriver => None
  | TServer k => ct_parameters ct !! k
  | TDriverParam j k => ct_drivers ct !! j ≫= fun d => dr_parameters d !! k
  end.

(** ** Queries *)

(** The parameters of the driver at a place. *)
Definition driver_parameters (ct : controller) (j : option nat) : option (list jackctl_parameter) := dr_parameters <$> (j ≫= fun j => ct_drivers ct !! j).

Definition jack_controller_fill_parameter_names (special_first : option string) (ps : list jackctl_parameter) : list string :=
  match special_first with Some n => [n] | None => [] end ++ map pm_name ps.

Definition jack_controller_dbus_read_container (ct : controller) (args : list dbus_arg) : option configure_reply :=
  match jack_controller_dbus_get_parameter_address args with
  | None => Some (RError INVALID_ARGS)
  | Some [] => Some (RContainer false [PTNODE_ENGINE; PTNODE_DRIVER; PTNODE_DRIVERS; PTNODE_INTERNALS])
  | Some (a0 :: more) =>
      if bool_decide (more = [] /\ a0 = PTNODE_ENGINE) then
        Some (RContainer true (jack_controller_fill_parameter_names (Some ENGINE_DRIVER_PARAMETER_NAME) (ct_parameters ct)))
      else if bool_decide (more = [] /\ a0 = PTNODE_DRIVER) then
        ps ← driver_parameters ct (ct_driver ct); Some (RContainer true (jack_controller_fill_parameter_names None ps))
      else if bool_decide (a0 = PTNODE_DRIVERS) then
        match more with
        | [] => Some (RContainer false (map dr_name (ct_drivers ct)))
        | a1 :: _ =>
            match jack_controller_find_driver a1 (ct_drivers ct) with
            | None => Some (RError UNKNOWN_INTERNAL)
            | Some j => ps ← driver_parameters ct (Some j); Some (RContainer true (jack_controller_fill_parameter_names None ps))
            end
        end
      else if bool_decide (a0 = PTNODE_INTERNALS) then
        match more with
        | [] => Some (RContainer false [])
        | _ => Some (RError UNKNOWN_INTERNAL)
        end
      else Some (RError INVALID_ARGS)
  end.

Definition jack_controller_get_parameter_info (p : jackctl_parameter) : parameter_info :=
  mk_info (pm_type p) (pm_name p) (pm_short_description p) (pm_long_description p).

Definition jack_controller_get_parameters_info (special : option parameter_info) (ps : list jackctl_parameter) : configure_reply :=
  RInfos (match special with Some i => [i] | None => [] end ++ map jack_controller_get_parameter_info ps).

Definition jack_controller_dbus_get_parameters_info (ct : controller) (args : list dbus_arg) : option configure_reply :=
  match jack_controller_dbus_get_parameter_address args with
  | None => Some (RError INVALID_ARGS)
  | Some [a0] =>
      if bool_decide (a0 = PTNODE_ENGINE) then Some (jack_controller_get_parameters_info (Some driver_parameter_info) (ct_parameters ct))
      else if bool_decide (a0 = PTNODE_DRIVER) then
        ps ← driver_parameters ct (ct_driver ct); Some (jack_controller_get_parameters_info None ps)
      else Some (RError INVALID_ARGS)
  | Some [a0; a1] =>
      if bool_decide (a0 = PTNODE_DRIVERS) then
        match jack_controller_find_driver a1 (ct_drivers ct) with
        | None => Some (RError UNKNOWN_INTERNAL)
        | Some j => ps ← driver_parameters ct (Some j); Some (jack_controller_get_parameters_info None ps)
        end
      else if bool_decide (a0 = PTNODE_INTERNALS) then Some (RError UNKNOWN_INTERNAL)
      else Some (RError INVALID_ARGS)
  | Some _ => Some (RError INVALID_ARGS)
  end.

(** A query about one parameter; [special] answers it for the choice of the driver. *)
Definition query (ct : controller) (args : list dbus_arg) (special : option configure_reply) (answer : jackctl_parameter -> option configure_reply) : option configure_reply :=
  match jack_controller_dbus_get_parameter_address args with
  | None => Some (RError INVALID_ARGS)
  | Some address =>
      r ← parameter_at ct address;
      match r with
      | inl e => Some (RError e)
      | inr TDriver => special
      | inr t => target_parameter ct t ≫= answer
      end
  end.

Definition jack_controller_dbus_get_parameter_info (ct : controller) (args : list dbus_arg) : option configure_reply :=
  query ct args (Some (RInfo driver_parameter_info)) (fun p => Some (RInfo (jack_controller_get_parameter_info p))).

(** Parameters have neither range nor enumeration constraints. *)
Definition jackctl_parameter_has_range_constraint (p : jackctl_parameter) : bool := false.
Definition jackctl_parameter_constraint_is_strict (p : jackctl_parameter) : bool := false.
Definition jackctl_parameter_constraint_is_fake_value (p : jackctl_parameter) : bool := false.
Definition jackctl_parameter_get_enum_constraints_count (p : jackctl_parameter) : nat := 0.

(** The range and the values of an enumeration end in a failed assertion. *)
Definition jack_controller_get_parameter_constraint (p : jackctl_parameter) : option configure_reply :=
  if jackctl_parameter_has_range_constraint p then None
  else if bool_decide (0 < jackctl_parameter_get_enum_constraints_count p)%nat then None
  else Some (RConstraint false (jackctl_parameter_constraint_is_strict p) (jackctl_parameter_constraint_is_fake_value p) []).

Definition jack_controller_get_parameter_constraint_engine_driver (ct : controller) : configure_reply :=
  RConstraint false true true (map (fun d => (DString (dr_name d), dr_name d)) (ct_drivers ct)).

Definition jack_controller_dbus_get_parameter_constraint (ct : controller) (args : list dbus_arg) : option configure_reply :=
  query ct args (Some (jack_controller_get_parameter_constraint_engine_driver ct)) jack_controller_get_parameter_constraint.

Definition jack_controller_get_parameter_value (p : jackctl_parameter) : option configure_reply :=
  v ← jack_controller_jack_to_dbus_variant (pm_type p) (pm_value p);
  d ← jack_controller_jack_to_dbus_variant (pm_type p) (pm_default p);
  Some (RValue (pm_is_set p) d v).

Definition jack_controller_get_parameter_value_engine_driver (default : string) (ct : controller) : option configure_reply :=
  d ← (ct_driver ct ≫= fun j => ct_drivers ct !! j);
  Some (RValue (ct_driver_set ct) (DString default) (DString (dr_name d))).

Definition jack_controller_dbus_get_parameter_value (default : string) (ct : controller) (args : list dbus_arg) : option configure_reply :=
  query ct args (jack_controller_get_parameter_value_engine_driver default ct) jack_controller_get_parameter_value.

(** ** Changes

    The controller, the text of its settings file, when there is one, and the
    time as [ctime_r] prints it.  Writing the file does not fail. *)
Record configuration := mk_configuration { cf_controller : controller; cf_file : option string; cf_now : string }.

#[global] Instance configuration_assignable : Assignable configuration := fun r => mk_configuration (cf_controller r) (cf_file r) (cf_now r).

Definition jack_controller_settings_save_auto (cf : configuration) : configuration :=
  cf <| cf_file := Some (jack_controller_settings_save (cf_now cf) (cf_controller cf)) |>.

(** [jackctl_parameter_set_value] and [jackctl_parameter_reset] on a target. *)
Definition set_target (mem_ok : bool) (t : target) (v : value) (ct : controller) : option controller :=
  match t with
  | TDriver => None
  | TServer k => Some (ct <| ct_parameters ::= set_server_parameter k v |>)
  | TDriverParam j k => update_driver j (fun d => snd <$> jackctl_parameter_set_value mem_ok k v d) ct
  end.

Definition reset_target (t : target) (ct : controller) : option controller :=
  match t with
  | TDriver => None
  | TServer k => Some (ct <| ct_parameters ::= alter jackctl_parameter_reset k |>)
  | TDriverParam j k => update_driver j (fun d => Some (reset_driver_parameter k d)) ct
  end.

Definition jack_controller_set_parameter_value (mem_ok : bool) (t : target) (arg : dbus_value) (cf : configuration) : option (configure_reply * configuration) :=
  p ← target_parameter (cf_controller cf) t;
  if negb (type_matches (pm_type p) arg) then Some (RError INVALID_ARGS, cf)
  else
    match jack_controller_dbus_to_jack_variant arg with
    | None => Some (RError INVALID_ARGS, cf)
    | Some v =>
        ct ← set_target mem_ok t v (cf_controller cf);
        Some (REmpty, jack_controller_settings_save_auto (cf <| cf_controller := ct |>))
    end.

Definition jack_controller_set_parameter_value_engine_driver (arg : dbus_value) (cf : configuration) : configure_reply * configuration :=
  match arg with
  | DString s =>
      match jack_controller_dbus_to_jack_variant arg with
      | None => (RError INVALID_ARGS, cf)
      | Some _ =>
          match jack_controller_select_driver s (cf_controller cf) with
          | (false, _) => (RError UNKNOWN_DRIVER, cf)
          | (true, ct) => (REmpty, jack_controller_settings_save_auto (cf <| cf_controller := ct |>))
          end
      end
  | _ => (RError INVALID_ARGS, cf)
  end.

Definition jack_controller_dbus_set_parameter_value (mem_ok : bool) (args : list dbus_arg) (cf : configuration) : option (configure_reply * configuration) :=
  match jack_controller_dbus_get_parameter_address_ex args with
  | Some (address, [AVariant arg]) =>
      r ← parameter_at (cf_controller cf) address;
      match r with
      | inl e => Some (RError e, cf)
      | inr TDriver => Some (jack_controller_set_parameter_value_engine_driver arg cf)
      | inr t => jack_controller_set_parameter_value mem_ok t arg cf
      end
  | _ => Some (RError INVALID_ARGS, cf)
  end.

Definition jack_controller_reset_parameter_value (t : target) (cf : configuration) : option (configure_reply * configuration) :=
  ct ← reset_target t (cf_controller cf);
  Some (REmpty, jack_controller_settings_save_auto (cf <| cf_controller := ct |>)).

Definition jack_controller_reset_parameter_value_engine_driver (default : string) (cf : configuration) : configure_reply * configuration :=
  match jack_controller_select_driver default (cf_controller cf) with
  | (false, _) => (RError UNKNOWN_DRIVER, cf)
  | (true, ct) => (REmpty, jack_controller_settings_save_auto (cf <| cf_controller := ct <| ct_driver_set := false |> |>))
  end.

Definition jack_controller_dbus_reset_parameter_value (default : string) (args : list dbus_arg) (cf : configuration) : option (configure_reply * configuration) :=
  match jack_controller_dbus_get_parameter_address args with
  | None => Some (RError INVALID_ARGS, cf)
  | Some address =>
      r ← parameter_at (cf_controller cf) address;
      match r with
      | inl e => Some (RError e, cf)
      | inr TDriver => Some (jack_controller_reset_parameter_value_engine_driver default cf)
      | inr t => jack_controller_reset_parameter_value t cf
      end
  end.

(** ** The interface *)

Inductive method := ReadContainer | GetParametersInfo | GetParameterInfo | GetParameterConstraint | GetParameterValue | SetParameterValue | ResetParameterValue.

Record configure_call := mk_call { ca_method : method; ca_args : list dbus_arg; ca_mem_ok : bool }.

(** The methods of org.jackaudio.Configure. *)
Definition configure (default : string) (c : configure_call) (cf : configuration) : option (configure_reply * configuration) :=
  let ct := cf_controller cf in
  let answer r := option_map (fun r => (r, cf)) r in
  match ca_method c with
  | ReadContainer => answer (jack_controller_dbus_read_container ct (ca_args c))
  | GetParametersInfo => answer (jack_controller_dbus_get_parameters_info ct (ca_args c))
  | GetParameterInfo => answer (jack_controller_dbus_get_parameter_info ct (ca_args c))
  | GetParameterConstraint => answer (jack_controller_dbus_get_parameter_constraint ct (ca_args c))
  | GetParameterValue => answer (jack_controller_dbus_get_parameter_value default ct (ca_args c))
  | SetParameterValue => jack_controller_dbus_set_parameter_value (ca_mem_ok c) (ca_args c) cf
  | ResetParameterValue => jack_controller_dbus_reset_parameter_value default (ca_args c) cf
  end.

Fixpoint configure_all (default : string) (calls : list configure_call) (cf : configuration) : option (list configure_reply * configuration) :=
  match calls with
  | [] => Some ([], cf)
  | c :: calls =>
      r ← configure default c cf;
      rs ← configure_all default calls r.2;
      Some (r.1 :: rs.1, rs.2)
  end.
End Configure.
