(* ===== verification/ConfigureInv.v ===== *)
(** * What the configuration interface shows, changes and keeps *)

From S2P Require Import Prelude Settings SettingsInv SettingsLoad SettingsRestore Configure.

Local Open Scope Z_scope.

Module ConfigureInv.
Import Settings SettingsInv SettingsLoad SettingsRestore Configure.

(** ** What is visible of a controller

    Everything but the lists the drivers are loaded with. *)
Definition bare (d : jackctl_driver) : jackctl_driver := mk_driver (dr_name d) (map strip (dr_parameters d)) [].

Definition visible (ct : controller) : controller :=
  mk_controller (map strip (ct_parameters ct)) (map bare (ct_drivers ct)) (ct_driver ct) (ct_driver_set ct).

Lemma list_find_map {A B} (f : A -> B) (P : B -> Prop) (Q : A -> Prop) `{!forall x, Decision (P x), !forall x, Decision (Q x)} l :
  (forall x, P (f x) <-> Q x) -> fst <$> list_find P (map f l) = fst <$> list_find Q l.
Proof.
  intros E. induction l as [|x l IH]; [done|]. cbn. destruct (decide (P (f x))) as [Hp|Hp], (decide (Q x)) as [Hq|Hq]; try (rewrite E in Hp; done).
  destruct (list_find P (map f l)) as [[]|], (list_find Q l) as [[]|]; cbn in *; congruence.
Qed.

(** What is seen when every parameter [p] is replaced by [g p], which has its name and its
    description. *)
Section seen.
Variable g : jackctl_parameter -> jackctl_parameter.
Hypothesis Hname : forall p, pm_name (g p) = pm_name p.
Hypothesis Hinfo : forall p, jack_controller_get_parameter_info (g p) = jack_controller_get_parameter_info p.

Definition seen_driver (d : jackctl_driver) : jackctl_driver := mk_driver (dr_name d) (map g (dr_parameters d)) [].

Definition seen (ct : controller) : controller :=
  mk_controller (map g (ct_parameters ct)) (map seen_driver (ct_drivers ct)) (ct_driver ct) (ct_driver_set ct).

Lemma find_parameter_seen n ps : jack_controller_find_parameter n (map g ps) = jack_controller_find_parameter n ps.
Proof using Hname Hinfo. apply list_find_map. intros p. by rewrite Hname. Qed.

Lemma find_driver_seen n ds : jack_controller_find_driver n (map seen_driver ds) = jack_controller_find_driver n ds.
Proof using Hname Hinfo. by apply list_find_map. Qed.

Lemma lookup_seen ct j : ct_drivers (seen ct) !! j = seen_driver <$> (ct_drivers ct !! j).
Proof using Hname Hinfo. apply list_lookup_fmap. Qed.

Lemma parameter_at_seen ct a : parameter_at (seen ct) a = parameter_at ct a.
Proof using Hname Hinfo.
  unfold parameter_at. destruct a as [|a0 [|a1 [|a2 [|a3 a]]]]; [done..| | |done]; repeat case_bool_decide; try done.
  - cbn [seen ct_parameters]. by rewrite find_parameter_seen.
  - cbn [seen ct_driver]. destruct (ct_driver ct) as [j|]; [|done]. cbn [mbind option_bind]. rewrite lookup_seen.
    destruct (ct_drivers ct !! j) as [d|]; [|done]. cbn [fmap option_fmap option_map mbind option_bind seen_driver dr_parameters]. by rewrite find_parameter_seen.
  - cbn [seen ct_drivers]. rewrite find_driver_seen. destruct (jack_controller_find_driver a1 (ct_drivers ct)) as [j|]; [|done].
    change (map seen_driver (ct_drivers ct)) with (ct_drivers (seen ct)). rewrite lookup_seen. destruct (ct_drivers ct !! j) as [d|]; [|done].
    cbn [fmap option_fmap option_map mbind option_bind seen_driver dr_parameters]. by rewrite find_parameter_seen.
Qed.

Lemma target_parameter_seen ct t : target_parameter (seen ct) t = g <$> target_parameter ct t.
Proof using Hname Hinfo.
  destruct t as [|k|j k]; [done|apply list_lookup_fmap|]. cbn [target_parameter]. rewrite lookup_seen.
  destruct (ct_drivers ct !! j) as [d|]; [|done]. cbn. apply list_lookup_fmap.
Qed.

Lemma driver_parameters_seen ct j : driver_parameters (seen ct) j = map g <$> driver_parameters ct j.
Proof using Hname Hinfo.
  destruct j as [j|]; [|done]. unfold driver_parameters. cbn [mbind option_bind]. rewrite lookup_seen. by destruct (ct_drivers ct !! j).
Qed.

Lemma query_seen ct args s1 s2 answer :
  s1 = s2 -> (forall p, answer (g p) = answer p) -> query (seen ct) args s1 answer = query ct args s2 answer.
Proof using Hname Hinfo.
  intros -> E. unfold query. destruct (jack_controller_dbus_get_parameter_address args) as [a|]; [|done]. rewrite parameter_at_seen.
  destruct (parameter_at ct a) as [[e|t]|]; [done| |done]. cbn [mbind option_bind]. destruct t; [done|..]; rewrite target_parameter_seen;
    (destruct (target_parameter ct _) as [p|]; [apply E|done]).
Qed.

Lemma driver_names_seen ds : map dr_name (map seen_driver ds) = map dr_name ds.
Proof using Hname Hinfo. by rewrite map_map. Qed.

Lemma infos_seen ps : map jack_controller_get_parameter_info (map g ps) = map jack_controller_get_parameter_info ps.
Proof using Hname Hinfo. rewrite map_map. apply map_ext. apply Hinfo. Qed.

Lemma names_seen ps : map pm_name (map g ps) = map pm_name ps.
Proof using Hname Hinfo. rewrite map_map. apply map_ext. apply Hname. Qed.

Lemma read_container_seen ct args : jack_controller_dbus_read_container (seen ct) args = jack_controller_dbus_read_container ct args.
Proof using Hname Hinfo.
  unfold jack_controller_dbus_read_container, jack_controller_fill_parameter_names. destruct (jack_controller_dbus_get_parameter_address args) as [[|a0 more]|]; [done| |done].
  repeat case_bool_decide; try done.
  - cbn [seen ct_parameters]. by rewrite names_seen.
  - rewrite driver_parameters_seen. cbn [seen ct_driver]. destruct (driver_parameters ct (ct_driver ct)); [|done]. cbn. by rewrite names_seen.
  - destruct more as [|a1 more]; cbn [seen ct_drivers]; [by rewrite driver_names_seen|]. rewrite find_driver_seen.
    destruct (jack_controller_find_driver a1 (ct_drivers ct)) as [j|]; [|done]. change (driver_parameters (mk_controller _ _ _ _) (Some j)) with (driver_parameters (seen ct) (Some j)).
    rewrite driver_parameters_seen. destruct (driver_parameters ct (Some j)); [|done]. cbn. by rewrite names_seen.
Qed.

Lemma get_parameters_info_seen ct args : jack_controller_dbus_get_parameters_info (seen ct) args = jack_controller_dbus_get_parameters_info ct args.
Proof using Hname Hinfo.
  unfold jack_controller_dbus_get_parameters_info, jack_controller_get_parameters_info.
  destruct (jack_controller_dbus_get_parameter_address args) as [[|a0 [|a1 [|a2 a]]]|]; try done; repeat case_bool_decide; try done.
  - cbn [seen ct_parameters]. by rewrite infos_seen.
  - rewrite driver_parameters_seen. cbn [seen ct_driver]. destruct (driver_parameters ct (ct_driver ct)); [|done]. cbn. by rewrite infos_seen.
  - cbn [seen ct_drivers]. rewrite find_driver_seen.
    destruct (jack_controller_find_driver a1 (ct_drivers ct)) as [j|]; [|done]. change (driver_parameters (mk_controller _ _ _ _) (Some j)) with (driver_parameters (seen ct) (Some j)).
    rewrite driver_parameters_seen. destruct (driver_parameters ct (Some j)); [|done]. cbn. by rewrite infos_seen.
Qed.

Lemma get_parameter_constraint_seen ct args :
  jack_controller_dbus_get_parameter_constraint (seen ct) args = jack_controller_dbus_get_parameter_constraint ct args.
Proof using Hname Hinfo.
  apply query_seen; [|done]. unfold jack_controller_get_parameter_constraint_engine_driver. cbn [seen ct_drivers]. by rewrite map_map.
Qed.

(** Queries that do not give the value. *)
Definition is_description (m : method) : bool :=
  match m with ReadContainer | GetParametersInfo | GetParameterInfo | GetParameterConstraint => true | _ => false end.

Lemma configure_seen default c ct f now :
  is_description (ca_method c) = true ->
  fst <$> configure default c (mk_configuration (seen ct) f now) = fst <$> configure default c (mk_configuration ct f now).
Proof using Hname Hinfo.
  intros Hq. unfold configure. cbn [cf_controller].
  destruct (ca_method c); try done; [rewrite read_container_seen|rewrite get_parameters_info_seen| |rewrite get_parameter_constraint_seen].
  all: try by match goal with |- context [option_map _ ?x] => destruct x end.
  unfold jack_controller_dbus_get_parameter_info. rewrite (query_seen ct _ _ _ _ eq_refl) by (intros p; by rewrite Hinfo).
  by match goal with |- context [option_map _ ?x] => destruct x end.
Qed.
End seen.

Lemma find_parameter_strip n ps : jack_controller_find_parameter n (map strip ps) = jack_controller_find_parameter n ps.
Proof. by apply (find_parameter_seen strip). Qed.

Lemma find_driver_bare n ds : jack_controller_find_driver n (map bare ds) = jack_controller_find_driver n ds.
Proof. by apply (find_driver_seen strip). Qed.

Lemma lookup_bare ct j : ct_drivers (visible ct) !! j = bare <$> (ct_drivers ct !! j).
Proof. by apply (lookup_seen strip). Qed.

Lemma parameter_at_visible ct a : parameter_at (visible ct) a = parameter_at ct a.
Proof. by apply (parameter_at_seen strip). Qed.

Lemma target_parameter_visible ct t : target_parameter (visible ct) t = strip <$> target_parameter ct t.
Proof. by apply (target_parameter_seen strip). Qed.

Lemma driver_parameters_visible ct j : driver_parameters (visible ct) j = map strip <$> driver_parameters ct j.
Proof. by apply (driver_parameters_seen strip). Qed.

Lemma query_visible ct args s1 s2 answer :
  s1 = s2 -> (forall p, answer (strip p) = answer p) -> query (visible ct) args s1 answer = query ct args s2 answer.
Proof. by apply (query_seen strip). Qed.

Lemma read_container_visible ct args : jack_controller_dbus_read_container (visible ct) args = jack_controller_dbus_read_container ct args.
Proof. by apply (read_container_seen strip). Qed.

Lemma get_parameters_info_visible ct args : jack_controller_dbus_get_parameters_info (visible ct) args = jack_controller_dbus_get_parameters_info ct args.
Proof. by apply (get_parameters_info_seen strip). Qed.

Lemma get_parameter_value_visible default ct args :
  jack_controller_dbus_get_parameter_value default (visible ct) args = jack_controller_dbus_get_parameter_value default ct args.
Proof.
  apply query_visible; [|done]. unfold jack_controller_get_parameter_value_engine_driver. cbn [visible ct_driver ct_driver_set]. destruct (ct_driver ct) as [j|]; [|done].
  cbn [mbind option_bind]. rewrite lookup_bare. by destruct (ct_drivers ct !! j).
Qed.

Lemma get_parameter_constraint_visible ct args :
  jack_controller_dbus_get_parameter_constraint (visible ct) args = jack_controller_dbus_get_parameter_constraint ct args.
Proof. by apply (get_parameter_constraint_seen strip). Qed.

(** The reply to a query. *)
Definition is_query (m : method) : bool := match m with SetParameterValue | ResetParameterValue => false | _ => true end.

Lemma configure_visible default c ct ct' f f' now now' :
  is_query (ca_method c) = true -> visible ct = visible ct' ->
  fst <$> configure default c (mk_configuration ct f now) = fst <$> configure default c (mk_configuration ct' f' now').
Proof.
  intros Hq E. unfold configure. cbn [cf_controller].
  assert (F : forall (r r' : option configure_reply) (x y : configuration), r = r' -> fst <$> option_map (fun r => (r, x)) r = fst <$> option_map (fun r => (r, y)) r').
  { intros [r|] ? ? ? <-; done. }
  destruct (ca_method c); try done; apply F.
  - rewrite <- (read_container_visible ct), E. apply read_container_visible.
  - rewrite <- (get_parameters_info_visible ct), E. apply get_parameters_info_visible.
  - unfold jack_controller_dbus_get_parameter_info. rewrite <- (query_visible ct _ _ _ _ eq_refl), E by done. by apply query_visible.
  - rewrite <- (get_parameter_constraint_visible ct), E. apply get_parameter_constraint_visible.
  - rewrite <- (get_parameter_value_visible default ct), E. apply get_parameter_value_visible.
Qed.
(** What is saved. *)
Lemma save_options_strip ind ps : options_elements ind (map strip ps) = options_elements ind ps.
Proof. unfold options_elements. by rewrite map_map. Qed.

Lemma save_visible ct : settings_document (visible ct) = settings_document ct.
Proof.
  unfold settings_document, engine_elements. cbn [visible ct_driver ct_parameters]. rewrite save_options_strip.
  do 2 f_equal; [f_equal; destruct (ct_driver ct) as [j|]; [|done]; cbn [mbind option_bind]; rewrite lookup_bare; by destruct (ct_drivers ct !! j)|].
  do 2 f_equal. cbn [visible ct_drivers]. rewrite map_map. f_equal. apply map_ext. intros d. unfold driver_elements, driver_options_elements, bare.
  cbn [dr_name dr_parameters]. by rewrite save_options_strip.
Qed.

(** ** What a change does *)

(** The change of one parameter. *)
Definition change (t : target) (f : jackctl_parameter -> jackctl_parameter) (ct : controller) : controller :=
  match t with
  | TDriver => ct
  | TServer k => mk_controller (alter f k (ct_parameters ct)) (ct_drivers ct) (ct_driver ct) (ct_driver_set ct)
  | TDriverParam j k =>
      mk_controller (ct_parameters ct) (alter (fun d => mk_driver (dr_name d) (alter f k (dr_parameters d)) (dr_set d)) j (ct_drivers ct)) (ct_driver ct) (ct_driver_set ct)
  end.

Lemma map_alter_same {A B} (g : A -> B) (f : A -> A) k l : (forall x, g (f x) = g x) -> map g (alter f k l) = map g l.
Proof. intros E. revert k. induction l as [|x l IH]; intros [|k]; cbn; [done..|by rewrite E|]. f_equal. apply IH. Qed.

(** A change that leaves the descriptions. *)
Lemma seen_change t f ct : (forall p, unset (f p) = unset p) -> seen unset (change t f ct) = seen unset ct.
Proof.
  intros E. destruct t as [|k|j k]; [done|..]; unfold seen; cbn [change ct_parameters ct_drivers ct_driver ct_driver_set]; f_equal;
    apply map_alter_same; [done|]. intros d. unfold seen_driver. cbn. f_equal. by apply map_alter_same.
Qed.

Lemma description_change default t f ct ct' c fl now :
  is_description (ca_method c) = true -> visible ct' = change t f (visible ct) -> (forall p, unset (f p) = unset p) ->
  fst <$> configure default c (mk_configuration ct' fl now) = fst <$> configure default c (mk_configuration ct fl now).
Proof.
  intros Hc E Hf.
  assert (V : forall x, seen unset (visible x) = seen unset x).
  { intros x. unfold seen, visible. cbn. rewrite !map_map. f_equal. apply map_ext. intros d. unfold seen_driver, bare. cbn. by rewrite map_map. }
  rewrite <- (configure_seen unset (fun _ => eq_refl) (fun _ => eq_refl) default c ct'), <- (configure_seen unset (fun _ => eq_refl) (fun _ => eq_refl) default c ct) by done.
  by rewrite <- (V ct'), E, seen_change, V.
Qed.

Lemma update_driver_visible j g ct ct' d d' k f :
  ct_drivers ct !! j = Some d -> g d = Some d' -> update_driver j g ct = Some ct' ->
  dr_name d' = dr_name d -> map strip (dr_parameters d') = alter f k (map strip (dr_parameters d)) ->
  visible ct' = change (TDriverParam j k) f (visible ct).
Proof.
  unfold update_driver. intros E Eg. rewrite E. cbn [mbind option_bind]. rewrite Eg. cbn [mbind option_bind]. intros [= <-] En Ep.
  unfold visible, change. cbn [ct_drivers ct_parameters ct_driver ct_driver_set].
  match goal with |- context [ct_drivers (?c <| ct_drivers ::= ?h |>)] => change (ct_drivers (c <| ct_drivers ::= h |>)) with (h (ct_drivers c)) end.
  cbv beta. f_equal. rewrite (alter_insert_lookup _ _ _ (bare d)) by (by rewrite list_lookup_fmap, E). cbn. rewrite <- Ep, <- En.
  by rewrite (list_fmap_insert bare).
Qed.

Lemma set_target_visible m t v ct ct' :
  set_target m t v ct = Some ct' -> visible ct' = change t (assign_value v) (visible ct) \/ m = false /\ visible ct' = visible ct.
Proof.
  destruct t as [|k|j k]; [done|intros [= <-]; left|]; cbn [set_target].
  - unfold visible, set_server_parameter. cbn. by rewrite (map_alter_strip _ _ (assign_value v)).
  - intros E. pose proof E as E0. unfold update_driver in E. destruct (ct_drivers ct !! j) as [d|] eqn:Ej; [|done]. cbn [mbind option_bind] in E.
    destruct (jackctl_parameter_set_value m k v d) as [[[] d']|] eqn:Es; [left|right|done].
    + destruct (set_value_strip _ _ _ _ _ Es) as [En Ep]. eapply (update_driver_visible j _ ct ct' d d'); [done| |done..]. cbn beta. by rewrite Es.
    + unfold jackctl_parameter_set_value in Es. destruct (dr_parameters d !! k) as [p|]; [|done]. cbn [mbind option_bind] in Es.
      destruct (pm_driver_param p); [by destruct (driver_value _ _)|]. destruct m; cbn [negb] in Es; [by destruct (driver_value _ _)|].
      split; [done|]. injection Es as <-. cbn in E. injection E as <-. unfold visible.
      match goal with |- context [ct_drivers (?c <| ct_drivers ::= ?h |>)] => change (ct_drivers (c <| ct_drivers ::= h |>)) with (h (ct_drivers c)) end.
      cbv beta. by rewrite list_insert_id.
Qed.

Lemma reset_target_visible t ct ct' :
  reset_target t ct = Some ct' -> visible ct' = change t jackctl_parameter_reset (visible ct).
Proof.
  assert (Hr : forall p, strip (jackctl_parameter_reset p) = jackctl_parameter_reset (strip p)).
  { intros p. unfold jackctl_parameter_reset. change (pm_is_set (strip p)) with (pm_is_set p). by destruct (pm_is_set p). }
  destruct t as [|k|j k]; [done|intros [= <-]|]; cbn [reset_target].
  - unfold visible. cbn. by rewrite (map_alter_strip _ _ jackctl_parameter_reset).
  - intros E. pose proof E as E0. unfold update_driver in E. destruct (ct_drivers ct !! j) as [d|] eqn:Ej; [|done].
    apply (update_driver_visible j (fun d => Some (reset_driver_parameter k d)) ct ct' d (reset_driver_parameter k d)); [done|reflexivity|done|done|]. cbn. by apply map_alter_strip.
Qed.

(** ** One parameter changes, the others do not *)

Lemma names_alter f k ps : (forall p, pm_name (f p) = pm_name p) -> map pm_name (alter f k ps) = map pm_name ps.
Proof. intros E. revert k. induction ps as [|p ps IH]; intros [|k]; cbn; [done..|by rewrite E|]. f_equal. apply IH. Qed.

Lemma find_parameter_names n ps qs : map pm_name ps = map pm_name qs -> jack_controller_find_parameter n ps = jack_controller_find_parameter n qs.
Proof.
  intros E. unfold jack_controller_find_parameter. rewrite <- (list_find_map pm_name (fun m => m = n) (fun p => pm_name p = n) ps) by done.
  rewrite <- (list_find_map pm_name (fun m => m = n) (fun p => pm_name p = n) qs) by done. by rewrite E.
Qed.

Lemma find_driver_names n ds es : map dr_name ds = map dr_name es -> jack_controller_find_driver n ds = jack_controller_find_driver n es.
Proof.
  intros E. unfold jack_controller_find_driver. rewrite <- (list_find_map dr_name (fun m => m = n) (fun p => dr_name p = n) ds) by done.
  rewrite <- (list_find_map dr_name (fun m => m = n) (fun p => dr_name p = n) es) by done. by rewrite E.
Qed.

Lemma change_driver_names t f ct : map dr_name (ct_drivers (change t f ct)) = map dr_name (ct_drivers ct).
Proof. destruct t as [| |j k]; [done..|]. cbn. revert j. induction (ct_drivers ct) as [|d ds IH]; intros [|j]; cbn; [done..|]. f_equal. apply IH. Qed.

Lemma change_driver_lookup t f ct j :
  (forall p, pm_name (f p) = pm_name p) ->
  (fun d => map pm_name (dr_parameters d)) <$> (ct_drivers (change t f ct) !! j) = (fun d => map pm_name (dr_parameters d)) <$> (ct_drivers ct !! j).
Proof.
  intros Hf. destruct t as [| |i k]; [done..|]. cbn [change ct_drivers]. destruct (decide (j = i)) as [->|Hj].
  - rewrite list_lookup_alter_eq. destruct (ct_drivers ct !! i) as [d|]; [|done]. cbn. by rewrite names_alter.
  - by rewrite list_lookup_alter_ne.
Qed.

Lemma change_parameter_names t f ct : (forall p, pm_name (f p) = pm_name p) -> map pm_name (ct_parameters (change t f ct)) = map pm_name (ct_parameters ct).
Proof. intros Hf. destruct t; [done|by apply names_alter|done]. Qed.

(** Addresses stand for what they stood for. *)
Lemma parameter_at_change t f ct a : (forall p, pm_name (f p) = pm_name p) -> parameter_at (change t f ct) a = parameter_at ct a.
Proof.
  intros Hf.
  assert (Hd : forall j n, (d ← ct_drivers (change t f ct) !! j; Some (jack_controller_find_parameter n (dr_parameters d))) =
                           (d ← ct_drivers ct !! j; Some (jack_controller_find_parameter n (dr_parameters d)))).
  { intros j n. pose proof (change_driver_lookup t f ct j Hf) as E. destruct (ct_drivers (change t f ct) !! j), (ct_drivers ct !! j); try done.
    cbn [mbind option_bind]. injection E as E. by rewrite (find_parameter_names _ _ _ E). }
  assert (Hs : ct_driver (change t f ct) = ct_driver ct) by by destruct t.
  unfold parameter_at. destruct a as [|a0 [|a1 [|a2 [|a3 a]]]]; [done..| | |done]; repeat case_bool_decide; try done.
  - by rewrite (find_parameter_names _ _ _ (change_parameter_names t f ct Hf)).
  - rewrite Hs. destruct (ct_driver ct) as [j|]; [|done]. cbn [mbind option_bind]. specialize (Hd j a1).
    destruct (ct_drivers (change t f ct) !! j), (ct_drivers ct !! j); try done. cbn [mbind option_bind] in Hd |- *. by injection Hd as ->.
  - rewrite (find_driver_names _ _ _ (change_driver_names t f ct)). destruct (jack_controller_find_driver a1 (ct_drivers ct)) as [j|]; [|done]. specialize (Hd j a2).
    destruct (ct_drivers (change t f ct) !! j), (ct_drivers ct !! j); try done. cbn [mbind option_bind] in Hd |- *. by injection Hd as ->.
Qed.

Lemma target_parameter_change t f ct t' :
  target_parameter (change t f ct) t' = if decide (t = t') then f <$> target_parameter ct t' else target_parameter ct t'.
Proof.
  destruct t as [|k|j k], t' as [|k'|j' k']; cbn [target_parameter change ct_parameters ct_drivers]; try (case_decide; done).
  - destruct (decide (TServer k = TServer k')) as [[= <-]|Hk]; [apply list_lookup_alter_eq|]. apply list_lookup_alter_ne. congruence.
  - destruct (decide (TDriverParam j k = TDriverParam j' k')) as [[= <- <-]|Hk].
    + rewrite list_lookup_alter_eq. destruct (ct_drivers ct !! j) as [d|]; [|done]. cbn. apply list_lookup_alter_eq.
    + destruct (decide (j = j')) as [<-|Hj]; [|by rewrite list_lookup_alter_ne]. rewrite list_lookup_alter_eq.
      destruct (ct_drivers ct !! j) as [d|]; [|done]. cbn. apply list_lookup_alter_ne. congruence.
Qed.
End ConfigureInv.
