(* ===== verification/ConfigureRun.v ===== *)
(** * The configuration interface over time

    What is set is read back, and outlives the process. *)

From S2P Require Import Prelude Settings SettingsInv SettingsLoad SettingsRestore Configure ConfigureInv.

Local Open Scope Z_scope.

Module ConfigureRun.
Import Settings SettingsInv SettingsLoad SettingsRestore Configure ConfigureInv.

(** ** Types *)

Definition has_type (t : jackctl_param_type_t) (v : value) : bool :=
  match t, v with
  | JackParamInt, VInt _ | JackParamUInt, VUInt _ | JackParamChar, VChar _ | JackParamString, VString _ | JackParamBool, VBool _ => true
  | _, _ => false
  end.

Lemma typed_driver_value t v : has_type t v = true -> exists w, driver_value t v = Some w.
Proof. destruct t, v; (done || eauto). Qed.

(** A value that matches is converted to the type of the parameter and back. *)
Lemma converted t arg v :
  type_matches t arg = true -> jack_controller_dbus_to_jack_variant arg = Some v ->
  has_type t v = true /\ jack_controller_jack_to_dbus_variant t v = Some arg.
Proof.
  destruct t, arg; try done; cbn [jack_controller_dbus_to_jack_variant]; intros _; try (intros [= <-]; done).
  destruct (_ >? _); [done|]. by intros [= <-].
Qed.

(** ** Reading a parameter after it changed *)

Lemma address_length ct a t : parameter_at ct a = Some (inr t) -> jack_controller_dbus_get_parameter_address_ex [AStrings a] = Some (a, []).
Proof.
  intros E. cbn. rewrite bool_decide_true; [done|]. destruct a as [|a0 [|a1 [|a2 [|a3 a]]]]; try done; cbn; lia.
Qed.

Lemma address_arguments args a : jack_controller_dbus_get_parameter_address args = Some a -> args = [AStrings a].
Proof.
  unfold jack_controller_dbus_get_parameter_address, jack_controller_dbus_get_parameter_address_ex.
  destruct args as [|[l| |] rest]; [done| |done..]. case_bool_decide; [|done]. destruct rest; [|done]. congruence.
Qed.

Lemma parameter_change ct ct' t f a :
  visible ct' = change t f (visible ct) -> (forall p, pm_name (f p) = pm_name p) -> parameter_at ct' a = parameter_at ct a.
Proof. intros E Hf. by rewrite <- parameter_at_visible, E, parameter_at_change, parameter_at_visible. Qed.

Lemma driver_value_change default t f ct :
  jack_controller_get_parameter_value_engine_driver default (change t f ct) = jack_controller_get_parameter_value_engine_driver default ct.
Proof.
  unfold jack_controller_get_parameter_value_engine_driver. replace (ct_driver (change t f ct)) with (ct_driver ct) by by destruct t.
  replace (ct_driver_set (change t f ct)) with (ct_driver_set ct) by by destruct t. destruct (ct_driver ct) as [j|]; [|done]. cbn [mbind option_bind].
  pose proof (f_equal (fun l => l !! j) (change_driver_names t f ct)) as E. cbn beta in E. rewrite !list_lookup_fmap in E.
  destruct (ct_drivers (change t f ct) !! j), (ct_drivers ct !! j); try done. cbn in E |- *. congruence.
Qed.

(** The changed parameter, under any of its addresses, and all the others. *)
Lemma get_after_change default t f ct ct' p :
  visible ct' = change t f (visible ct) -> (forall p, pm_name (f p) = pm_name p) -> target_parameter ct t = Some p ->
  (forall a, parameter_at ct a = Some (inr t) -> jack_controller_dbus_get_parameter_value default ct' [AStrings a] = jack_controller_get_parameter_value (f (strip p))) /\
  (forall args, (forall a, args = [AStrings a] -> parameter_at ct a <> Some (inr t)) ->
    jack_controller_dbus_get_parameter_value default ct' args = jack_controller_dbus_get_parameter_value default ct args).
Proof.
  intros E Hf Ht.
  assert (Q : forall args, jack_controller_dbus_get_parameter_value default ct' args = jack_controller_dbus_get_parameter_value default (change t f (visible ct)) args).
  { intros args. by rewrite <- E, get_parameter_value_visible. }
  split.
  - intros a Ea. rewrite Q. unfold jack_controller_dbus_get_parameter_value, query, jack_controller_dbus_get_parameter_address.
    rewrite (address_length ct a t Ea), parameter_at_change, parameter_at_visible, Ea by done. cbn [mbind option_bind].
    rewrite target_parameter_change, decide_True, target_parameter_visible, Ht by done. by destruct t.
  - intros args Ha. rewrite Q, <- (get_parameter_value_visible default ct). unfold jack_controller_dbus_get_parameter_value, query.
    destruct (jack_controller_dbus_get_parameter_address args) as [a|] eqn:Eg; [|done]. apply address_arguments in Eg. specialize (Ha a Eg).
    rewrite parameter_at_change, parameter_at_visible by done. destruct (parameter_at ct a) as [[e|t']|]; [done| |done]. cbn [mbind option_bind].
    rewrite driver_value_change. destruct t'; [done|..]; (rewrite target_parameter_change, decide_False; [done|congruence]).
Qed.

Lemma reset_name p : pm_name (jackctl_parameter_reset p) = pm_name p.
Proof. unfold jackctl_parameter_reset. by destruct (pm_is_set p). Qed.

Lemma update_driver_some j f ct d d' : ct_drivers ct !! j = Some d -> f d = Some d' -> exists ct', update_driver j f ct = Some ct'.
Proof. unfold update_driver. intros -> E. cbn [mbind option_bind]. rewrite E. by eexists. Qed.

(** A block is allocated for the first value of a parameter of a driver. *)
Definition needs_memory (ct : controller) (t : target) : bool :=
  match t with
  | TDriverParam _ _ => match target_parameter ct t with Some p => bool_decide (pm_driver_param p = None) | None => false end
  | _ => false
  end.

Lemma set_target_some m t v ct p :
  target_parameter ct t = Some p -> has_type (pm_type p) v = true ->
  exists ct', set_target m t v ct = Some ct' /\
    visible ct' = (if needs_memory ct t && negb m then visible ct else change t (assign_value v) (visible ct)).
Proof.
  intros Et Hv. destruct t as [|k|j k]; [done|..].
  - eexists. split; [done|]. cbn. by destruct (set_target_visible true (TServer k) v ct _ eq_refl) as [|[]].
  - unfold needs_memory. rewrite Et. cbn [target_parameter] in Et. destruct (ct_drivers ct !! j) as [d|] eqn:Ej; [|done]. cbn [mbind option_bind] in Et.
    destruct (typed_driver_value _ _ Hv) as [w Ew].
    assert (S : jackctl_parameter_set_value m k v d =
      Some (negb (bool_decide (pm_driver_param p = None) && negb m),
        if bool_decide (pm_driver_param p = None) && negb m then d else (default d (snd <$> jackctl_parameter_set_value true k v d)))).
    { unfold jackctl_parameter_set_value. rewrite Et. cbn [mbind option_bind]. rewrite Ew. case_bool_decide as Hp.
      - rewrite Hp. by destruct m.
      - by destruct (pm_driver_param p). }
    assert (exists ct', update_driver j (fun d => snd <$> jackctl_parameter_set_value m k v d) ct = Some ct') as [ct' E]
      by (unfold update_driver; rewrite Ej; cbn [mbind option_bind]; rewrite S; by eexists).
    exists ct'. split; [exact E|]. destruct (bool_decide (pm_driver_param p = None) && negb m) eqn:Em.
    + unfold update_driver in E. rewrite Ej in E. cbn [mbind option_bind] in E. rewrite S in E. cbn in E. injection E as <-. unfold visible.
      match goal with |- context [ct_drivers (?c <| ct_drivers ::= ?h |>)] => change (ct_drivers (c <| ct_drivers ::= h |>)) with (h (ct_drivers c)) end.
      cbv beta. by rewrite list_insert_id.
    + destruct (jackctl_parameter_set_value m k v d) as [[b d']|] eqn:Es; [|done]. injection S as -> _.
      destruct (set_value_strip _ _ _ _ _ Es) as [En Ep]. eapply (update_driver_visible j _ ct ct' d d'); [done| |done..]. cbn beta. by rewrite Es.
Qed.

Lemma reset_target_some t ct p : target_parameter ct t = Some p -> exists ct', reset_target t ct = Some ct'.
Proof.
  destruct t as [|k|j k]; cbn [target_parameter reset_target]; [done|eauto|]. destruct (ct_drivers ct !! j) as [d|] eqn:Ej; [|done].
  intros _. by eapply update_driver_some.
Qed.

(** C40: A value of the right type is set for a parameter (not the choice of the driver): the
    reply is empty and the settings are saved.  Unless memory is missing, the value is read back
    at every address of the parameter, and the value at every other address stays as it
    was; without memory no value changes.  The replies to all queries that give no value
    stay in any case. *)
Theorem set_get_correct default cf a t p arg v dflt m :
  parameter_at (cf_controller cf) a = Some (inr t) -> target_parameter (cf_controller cf) t = Some p ->
  type_matches (pm_type p) arg = true -> jack_controller_dbus_to_jack_variant arg = Some v ->
  jack_controller_jack_to_dbus_variant (pm_type p) (pm_default p) = Some dflt ->
  exists cf', configure default (mk_call SetParameterValue [AStrings a; AVariant arg] m) cf = Some (REmpty, cf') /\
    cf_file cf' = Some (jack_controller_settings_save (cf_now cf) (cf_controller cf')) /\
    (needs_memory (cf_controller cf) t && negb m = false -> forall a', parameter_at (cf_controller cf) a' = Some (inr t) ->
      jack_controller_dbus_get_parameter_value default (cf_controller cf') [AStrings a'] = Some (RValue true dflt arg)) /\
    (forall args, needs_memory (cf_controller cf) t && negb m = true \/ (forall a', args = [AStrings a'] -> parameter_at (cf_controller cf) a' <> Some (inr t)) ->
      jack_controller_dbus_get_parameter_value default (cf_controller cf') args = jack_controller_dbus_get_parameter_value default (cf_controller cf) args) /\
    (forall c f now, is_description (ca_method c) = true ->
      fst <$> configure default c (mk_configuration (cf_controller cf') f now) = fst <$> configure default c (mk_configuration (cf_controller cf) f now)).
Proof.
  intros Ea Et Em Ev Ed. destruct (converted _ _ _ Em Ev) as [Hv Hd]. destruct (set_target_some m t v _ p Et Hv) as (ct' & Hs & E).
  exists (jack_controller_settings_save_auto (cf <| cf_controller := ct' |>)). split; [|split; [done|]].
  - cbn [configure ca_method ca_args ca_mem_ok]. unfold jack_controller_dbus_set_parameter_value.
    pose proof (address_length _ _ _ Ea) as Hl. cbn in Hl |- *. case_bool_decide; [|done]. rewrite Ea. cbn [mbind option_bind].
    unfold jack_controller_set_parameter_value. rewrite Et. cbn [mbind option_bind]. rewrite Em, Ev, Hs. by destruct t.
  - change (cf_controller (jack_controller_settings_save_auto (cf <| cf_controller := ct' |>))) with ct'.
    destruct (needs_memory (cf_controller cf) t && negb m).
    + split; [done|]. split; [intros args _; by rewrite <- (get_parameter_value_visible default ct'), E, get_parameter_value_visible|].
      intros c f now Hc. apply configure_visible; [by destruct (ca_method c)|done].
    + destruct (get_after_change default t (assign_value v) (cf_controller cf) ct' p E) as [G1 G2]; [done..|]. split; [|split].
      * intros _ a' Ha'. rewrite (G1 a' Ha'). unfold jack_controller_get_parameter_value. cbn. by rewrite Hd, Ed.
      * intros args [?|Ha]; [done|by apply G2].
      * intros c f now Hc. by eapply description_change.
Qed.

(** The same when a parameter is reset: it has its default. *)
Theorem reset_get_correct default cf a t p dflt :
  parameter_at (cf_controller cf) a = Some (inr t) -> target_parameter (cf_controller cf) t = Some p -> param_ok p ->
  jack_controller_jack_to_dbus_variant (pm_type p) (pm_default p) = Some dflt ->
  exists cf', configure default (mk_call ResetParameterValue [AStrings a] true) cf = Some (REmpty, cf') /\
    cf_file cf' = Some (jack_controller_settings_save (cf_now cf) (cf_controller cf')) /\
    (forall a', parameter_at (cf_controller cf) a' = Some (inr t) ->
      jack_controller_dbus_get_parameter_value default (cf_controller cf') [AStrings a'] = Some (RValue false dflt dflt)) /\
    (forall args, (forall a', args = [AStrings a'] -> parameter_at (cf_controller cf) a' <> Some (inr t)) ->
      jack_controller_dbus_get_parameter_value default (cf_controller cf') args = jack_controller_dbus_get_parameter_value default (cf_controller cf) args).
Proof.
  intros Ea Et Hp Ed. destruct (reset_target_some t _ p Et) as [ct' Hs].
  exists (jack_controller_settings_save_auto (cf <| cf_controller := ct' |>)). split; [|split; [done|]].
  - cbn [configure ca_method ca_args]. unfold jack_controller_dbus_reset_parameter_value, jack_controller_dbus_get_parameter_address.
    rewrite (address_length _ _ _ Ea), Ea. cbn [mbind option_bind]. unfold jack_controller_reset_parameter_value. rewrite Hs. by destruct t.
  - destruct (get_after_change default t jackctl_parameter_reset (cf_controller cf) ct' p) as [G1 G2]; [by apply reset_target_visible|apply reset_name|done|].
    split; [|exact G2]. intros a' Ha'. cbn. rewrite (G1 a' Ha'). unfold jack_controller_get_parameter_value, jackctl_parameter_reset. unfold param_ok in Hp.
    change (pm_is_set (strip p)) with (pm_is_set p). destruct (pm_is_set p) eqn:Es; cbn; [by rewrite Ed|]. by rewrite Hp, Es, Ed.
Qed.

(** ** An example *)

Definition example_configuration : configuration :=
  mk_configuration (create_controller "dummy"
    [("dummy", [mk_desc "rate" (Ascii.ascii_of_nat 114) JackParamUInt (VUInt 48000) "short" "long";
                mk_desc "wait" (Ascii.ascii_of_nat 119) JackParamUInt (VUInt 21333) "short" "long"])])%string None "Mon Jan  2 03:04:05 2006".

(** The rate of the selected driver, which has two addresses. *)
Lemma set_get_correct_witness :
  let cf := example_configuration in
  let get cf args := jack_controller_dbus_get_parameter_value "dummy" (cf_controller cf) args in
  exists cf', configure "dummy" (mk_call SetParameterValue [AStrings ["driver"; "rate"]%string; AVariant (DUInt32 96000)] true) cf = Some (REmpty, cf') /\
    cf_file cf' = Some (jack_controller_settings_save (cf_now cf) (cf_controller cf')) /\
    get cf' [AStrings ["drivers"; "dummy"; "rate"]%string] = Some (RValue true (DUInt32 48000) (DUInt32 96000)) /\
    get cf' [AStrings ["driver"; "wait"]%string] = get cf [AStrings ["driver"; "wait"]%string].
Proof.
  intros cf get. destruct (set_get_correct "dummy" cf ["driver"; "rate"]%string (TDriverParam 0 0)
    (mk_parameter "rate" "short" "long" JackParamUInt false (VUInt 48000) (VUInt 48000) (Ascii.ascii_of_nat 114) None) (DUInt32 96000) (VUInt 96000) (DUInt32 48000) true)
    as (cf' & E & Ef & G & O & _); [reflexivity..|]. exists cf'. split_and!; [exact E|exact Ef| |].
  - apply G; reflexivity.
  - apply O. right. intros a' [= <-]. vm_compute. discriminate.
Defined.

(** Memory is missing: the reply is the same, but nothing was set. *)
Example no_memory_no_value :
  let get cf := jack_controller_dbus_get_parameter_value "dummy" (cf_controller cf) [AStrings ["driver"; "rate"]%string] in
  exists cf', configure "dummy" (mk_call SetParameterValue [AStrings ["driver"; "rate"]%string; AVariant (DUInt32 96000)] false) example_configuration =
      Some (REmpty, cf') /\ get cf' = get example_configuration.
Proof. vm_compute. by eexists. Qed.

Example rate_addresses :
  parameter_at (cf_controller example_configuration) ["driver"; "rate"]%string = Some (inr (TDriverParam 0 0)) /\
  parameter_at (cf_controller example_configuration) ["drivers"; "dummy"; "rate"]%string = Some (inr (TDriverParam 0 0)).
Proof. split; reflexivity. Qed.
End ConfigureRun.
