(* ===== verification/ConfigureSession.v ===== *)
(** * Settings outlive the process

    A session is everything that happens to the settings: requests, and new starts
    of the process, which load what the last one saved. *)

From S2P Require Import Prelude Settings SettingsInv SettingsLoad SettingsRestore SettingsFile Configure ConfigureInv.

Local Open Scope Z_scope.

Module ConfigureSession.
Import Settings SettingsInv SettingsLoad SettingsRestore SettingsFile Configure ConfigureInv.

(** The values that the file can hold: plain text of less than 63 characters. *)
Definition dbus_fits (d : dbus_value) : Prop :=
  match d with
  | DInt32 i => - 2 ^ 31 <= i < 2 ^ 31
  | DUInt32 u => 0 <= u < 2 ^ 32
  | DByte c => plain_char c = true
  | DString s => Z.of_nat (String.length s) < JACK_DRIVER_PARAM_STRING_MAX /\ all_chars plain_char s = true
  | DBoolean _ | DOther _ => True
  end.

Definition call_fits (c : configure_call) : Prop := Forall (fun a => match a with AVariant v => dbus_fits v | _ => True end) (ca_args c).

Section session.
Variable default : string.
Variable found : list (string * list jack_driver_param_desc_t).

(** The parser of the library. *)
Variable expat : string -> list xml_event.

(** The drivers of the directory: their names and those of their parameters are plain text,
    and no two parameters of a driver have one name. *)
Definition found_ok : Prop :=
  Forall (fun d => NoDup (map ds_name d.2) /\ Z.of_nat (String.length d.1) < JACK_DRIVER_PARAM_STRING_MAX /\
    all_chars name_char d.1 = true /\ Forall (fun x => all_chars name_char (ds_name x) = true) d.2) found.

(** The start of the process; there may be no file yet. *)
Definition start (mem_ok : bool) (file : option string) : option controller :=
  match file with
  | None => Some (create_controller default found)
  | Some text => jack_controller_create mem_ok default found (expat text)
  end.

Inductive session : configuration -> Prop :=
| session_start now : timestamp_ok now -> session (mk_configuration (create_controller default found) None now)
| session_later cf now : session cf -> timestamp_ok now -> session (cf <| cf_now := now |>)
| session_call c r cf cf' : session cf -> call_fits c -> configure default c cf = Some (r, cf') -> session cf'
| session_restart cf ct :
    session cf -> start true (cf_file cf) = Some ct -> session (cf <| cf_controller := ct |>).

(** ** What all sessions keep *)

(** A parameter has its default, or a value that the file can hold. *)
Definition holds (p : jackctl_parameter) : Prop := param_ok p /\ (pm_is_set p = true -> plain_value (pm_value p)).

Lemma holds_ok ps : Forall holds ps -> Forall param_ok ps.
Proof. intros H. eapply Forall_impl; [exact H|]. by intros p []. Qed.

Record kept (ct : controller) : Prop := mk_kept {
  k_parameters : map unset (ct_parameters ct) = server_parameters;
  k_drivers : map fresh (ct_drivers ct) = jack_drivers_load found;
  k_values : Forall holds (ct_parameters ct);
  k_driver_values : Forall (fun d => Forall holds (dr_parameters d)) (ct_drivers ct);
  k_driver : match ct_driver ct with
             | Some j => is_Some (ct_drivers ct !! j)
             | None => jack_controller_find_driver default (jack_drivers_load found) = None
             end
}.

Lemma unset_visible ps : map unset (map strip ps) = map unset ps.
Proof. by rewrite map_map. Qed.

Lemma values_visible ps : Forall holds (map strip ps) <-> Forall holds ps.
Proof. by rewrite Forall_map. Qed.

Lemma kept_visible ct : kept (visible ct) <-> kept ct.
Proof.
  assert (Ef : map fresh (map bare (ct_drivers ct)) = map fresh (ct_drivers ct)).
  { rewrite map_map. apply map_ext. intros d. unfold fresh, bare. cbn. by rewrite unset_visible. }
  assert (Ev : Forall (fun d => Forall holds (dr_parameters d)) (map bare (ct_drivers ct)) <-> Forall (fun d => Forall holds (dr_parameters d)) (ct_drivers ct)).
  { rewrite Forall_map. apply Forall_iff. intros d. apply values_visible. }
  assert (Ed : forall j, is_Some (ct_drivers (visible ct) !! j) <-> is_Some (ct_drivers ct !! j)) by (intros j; rewrite lookup_bare; apply fmap_is_Some).
  split; intros [K1 K2 K3 K4 K5]; cbn [visible ct_parameters ct_drivers ct_driver] in *.
  - rewrite unset_visible in K1. rewrite Ef in K2. rewrite values_visible in K3. rewrite Ev in K4. split; try done. destruct (ct_driver ct); [by apply Ed|done].
  - split; cbn [visible ct_parameters ct_drivers ct_driver]; [by rewrite unset_visible|by rewrite Ef|by apply values_visible|by apply Ev|].
    destruct (ct_driver ct); [by apply Ed|done].
Qed.

Lemma Forall_alter_lookup {A} (P : A -> Prop) (f : A -> A) (k : nat) (l : list A) :
  Forall P l -> (forall x, l !! k = Some x -> P x -> P (f x)) -> Forall P (alter f k l).
Proof. intros H E. apply Forall_alter; [done|]. intros x Hx Px. by apply E. Qed.

(** A change of a parameter to a value that fits. *)
Lemma kept_change t f ct :
  kept ct -> (forall p, unset (f p) = unset p) -> (forall p, target_parameter ct t = Some p -> holds p -> holds (f p)) -> kept (change t f ct).
Proof.
  intros [K1 K2 K3 K4 K5] Hu Hp. destruct t as [|k|j k]; [done|..].
  - split; cbn [change ct_parameters ct_drivers ct_driver]; try done; [by rewrite map_alter_same|]. by apply Forall_alter_lookup.
  - split; cbn [change ct_parameters ct_drivers ct_driver]; try done.
    + rewrite map_alter_same; [done|]. intros d. unfold fresh. cbn. by rewrite map_alter_same.
    + apply Forall_alter_lookup; [done|]. intros d Ed Hd. cbn. apply Forall_alter_lookup; [done|]. intros p Ep. apply Hp. cbn. by rewrite Ed.
    + destruct (ct_driver ct) as [i|]; [|done]. destruct (decide (i = j)) as [->|Hi]; [rewrite list_lookup_alter_eq; by apply fmap_is_Some|by rewrite list_lookup_alter_ne].
Qed.

Lemma fits_ok t arg v :
  type_matches t arg = true -> jack_controller_dbus_to_jack_variant arg = Some v -> dbus_fits arg -> value_ok t v /\ plain_value v.
Proof.
  destruct t, arg; try done; cbn [jack_controller_dbus_to_jack_variant]; intros _; try (intros [= <-]; by split).
  - intros [= <-] Hc. cbn in Hc. split; [intros ->|]; done.
  - destruct (_ >? _); [done|]. by intros [= <-].
Qed.

Lemma unset_assign v p : unset (assign_value v p) = unset p.
Proof. done. Qed.

Lemma unset_reset p : unset (jackctl_parameter_reset p) = unset p.
Proof. unfold jackctl_parameter_reset. by destruct (pm_is_set p). Qed.

Lemma reset_fits p : holds p -> holds (jackctl_parameter_reset p).
Proof. unfold jackctl_parameter_reset. by destruct (pm_is_set p) eqn:E; [unfold holds, param_ok; cbn|]. Qed.

Lemma kept_set m t v ct ct' :
  kept ct -> set_target m t v ct = Some ct' -> (forall p, target_parameter ct t = Some p -> value_ok (pm_type p) v /\ plain_value v) -> kept ct'.
Proof.
  intros K E Hv. apply kept_visible. apply kept_visible in K. destruct (set_target_visible _ _ _ _ _ E) as [->|[_ ->]]; [|done].
  apply kept_change; [done|apply unset_assign|]. intros p Hp _. rewrite target_parameter_visible in Hp.
  destruct (target_parameter ct t) as [q|]; [|done]. injection Hp as <-. destruct (Hv q eq_refl). by split.
Qed.

Lemma kept_reset t ct ct' : kept ct -> reset_target t ct = Some ct' -> kept ct'.
Proof.
  intros K E. apply kept_visible. apply kept_visible in K. rewrite (reset_target_visible _ _ _ E). apply kept_change; [done|apply unset_reset|].
  intros p _. apply reset_fits.
Qed.

Lemma kept_select n ct b ct' : kept ct -> jack_controller_select_driver n ct = (b, ct') -> kept ct'.
Proof.
  intros [K1 K2 K3 K4 K5]. unfold jack_controller_select_driver. destruct (jack_controller_find_driver n (ct_drivers ct)) as [j|] eqn:E; intros [= <- <-]; [|done].
  split; try done. cbn. unfold jack_controller_find_driver in E. destruct (list_find _ (ct_drivers ct)) as [[j' d]|] eqn:Ef; [|done]. injection E as ->.
  apply list_find_Some in Ef as [-> _]. by eexists.
Qed.

Lemma kept_driver_set b ct : kept ct -> kept (ct <| ct_driver_set := b |>).
Proof. by intros [K1 K2 K3 K4 K5]. Qed.

(** A request keeps the settings as they were, or saves what it changed. *)
Definition saved (cf cf' : configuration) : Prop :=
  kept (cf_controller cf') /\ cf_now cf' = cf_now cf /\
  (cf' = cf \/ cf_file cf' = Some (jack_controller_settings_save (cf_now cf) (cf_controller cf'))).

Lemma saved_same cf : kept (cf_controller cf) -> saved cf cf.
Proof. intros K. split_and!; [done|done|by left]. Qed.

Lemma saved_auto cf ct : kept ct -> saved cf (jack_controller_settings_save_auto (cf <| cf_controller := ct |>)).
Proof. intros K. split_and!; [done|done|by right]. Qed.

Lemma set_saved m t arg cf r cf' :
  kept (cf_controller cf) -> dbus_fits arg -> jack_controller_set_parameter_value m t arg cf = Some (r, cf') -> saved cf cf'.
Proof.
  intros K F. unfold jack_controller_set_parameter_value. destruct (target_parameter (cf_controller cf) t) as [p|] eqn:Ep; [|done]. cbn [mbind option_bind].
  destruct (type_matches (pm_type p) arg) eqn:Em; cbn [negb]; [|intros [= <- <-]; by apply saved_same].
  destruct (jack_controller_dbus_to_jack_variant arg) as [v|] eqn:Ev; [|intros [= <- <-]; by apply saved_same].
  destruct (set_target m t v (cf_controller cf)) as [ct|] eqn:Es; [|done]. cbn [mbind option_bind]. intros [= <- <-]. apply saved_auto.
  eapply kept_set; [done|done|]. intros q Hq. rewrite Ep in Hq. injection Hq as <-. by eapply fits_ok.
Qed.

Lemma driver_saved arg cf : kept (cf_controller cf) -> saved cf (jack_controller_set_parameter_value_engine_driver arg cf).2.
Proof.
  intros K. unfold jack_controller_set_parameter_value_engine_driver. destruct arg as [| | |s| |]; try by apply saved_same.
  destruct (jack_controller_dbus_to_jack_variant (DString s)); [|by apply saved_same].
  destruct (jack_controller_select_driver s (cf_controller cf)) as [[] ct] eqn:Es; [|by apply saved_same]. apply saved_auto. by eapply kept_select.
Qed.

Lemma reset_driver_saved cf : kept (cf_controller cf) -> saved cf (jack_controller_reset_parameter_value_engine_driver default cf).2.
Proof.
  intros K. unfold jack_controller_reset_parameter_value_engine_driver.
  destruct (jack_controller_select_driver default (cf_controller cf)) as [[] ct] eqn:Es; [|by apply saved_same].
  apply (saved_auto cf (ct <| ct_driver_set := false |>)). apply kept_driver_set. by eapply kept_select.
Qed.

Lemma reset_saved t cf r cf' : kept (cf_controller cf) -> jack_controller_reset_parameter_value t cf = Some (r, cf') -> saved cf cf'.
Proof.
  intros K. unfold jack_controller_reset_parameter_value. destruct (reset_target t (cf_controller cf)) as [ct|] eqn:E; [|done].
  cbn [mbind option_bind]. intros [= <- <-]. apply saved_auto. by eapply kept_reset.
Qed.

Lemma configure_saved c cf r cf' :
  kept (cf_controller cf) -> call_fits c -> configure default c cf = Some (r, cf') -> saved cf cf'.
Proof.
  intros K F. unfold configure. destruct (ca_method c).
  1-5: match goal with |- option_map _ ?x = _ -> _ => destruct x; [|done] end; intros [= <- <-]; by apply saved_same.
  - unfold jack_controller_dbus_set_parameter_value.
    destruct (jack_controller_dbus_get_parameter_address_ex (ca_args c)) as [[a [|[|arg|] [|? ?]]]|] eqn:Ea; try (intros [= <- <-]; by apply saved_same).
    assert (Hfit : dbus_fits arg).
    { unfold jack_controller_dbus_get_parameter_address_ex in Ea. unfold call_fits in F. destruct (ca_args c) as [|[l| |] rest]; try done.
      case_bool_decide; [|done]. injection Ea as -> ->. apply Forall_cons in F as [_ F]. by apply Forall_cons in F as [F _]. }
    destruct (parameter_at (cf_controller cf) a) as [[e|[|k|j k]]|]; cbn [mbind option_bind]; [intros [= <- <-]; by apply saved_same| | | |done];
      [intros [= H]|intros H; by eapply set_saved..]. pose proof (driver_saved arg cf K) as G. by rewrite H in G.
  - unfold jack_controller_dbus_reset_parameter_value.
    destruct (jack_controller_dbus_get_parameter_address (ca_args c)) as [a|]; [|intros [= <- <-]; by apply saved_same].
    destruct (parameter_at (cf_controller cf) a) as [[e|[|k|j k]]|]; cbn [mbind option_bind]; [intros [= <- <-]; by apply saved_same| | | |done];
      [intros [= H]|intros H; by eapply reset_saved..]. pose proof (reset_driver_saved cf K) as G. by rewrite H in G.
Qed.

(** ** The start *)

Lemma drivers_load_spec ds0 l :
  NoDup (map dr_name ds0) ->
  let ds := fold_left (fun ds d => if bool_decide (d.1 ∈ map dr_name ds) then ds else ds ++ [mk_driver d.1 (jackctl_add_driver_parameters d.2) []]) l ds0 in
  NoDup (map dr_name ds) /\ forall d, d ∈ ds -> d ∈ ds0 \/ exists x, x ∈ l /\ d = mk_driver x.1 (jackctl_add_driver_parameters x.2) [].
Proof.
  revert ds0. induction l as [|x l IH]; intros ds0 N ds; [by split; [|left]|]. unfold ds. cbn [fold_left]. case_bool_decide as Hx.
  - destruct (IH ds0 N) as [N' E]. split; [done|]. intros d Hd. destruct (E d Hd) as [?|(y & Hy & ->)]; [by left|]. right. exists y. split; [by right|done].
  - destruct (IH (ds0 ++ [mk_driver x.1 (jackctl_add_driver_parameters x.2) []])) as [N' E].
    + rewrite map_app. apply NoDup_app. split; [done|]. split; [|apply NoDup_singleton]. cbn. intros n Hn Hc. apply list_elem_of_singleton in Hc. by subst.
    + split; [done|]. intros d Hd. destruct (E d Hd) as [Hin|(y & Hy & ->)].
      * apply elem_of_app in Hin as [Hin|Hin]; [by left|]. apply list_elem_of_singleton in Hin as ->. right. exists x. split; [left|done].
      * right. exists y. split; [by right|done].
Qed.

Lemma loaded_driver d : d ∈ jack_drivers_load found -> exists x, x ∈ found /\ d = mk_driver x.1 (jackctl_add_driver_parameters x.2) [].
Proof. intros H. destruct (drivers_load_spec [] found (NoDup_nil_2)) as [_ E]. by destruct (E d H) as [?%elem_of_nil|]. Qed.

Lemma added_unset l : map unset (jackctl_add_driver_parameters l) = jackctl_add_driver_parameters l.
Proof. unfold jackctl_add_driver_parameters. rewrite map_map. by apply map_ext. Qed.

Lemma loaded_fresh : map fresh (jack_drivers_load found) = jack_drivers_load found.
Proof.
  rewrite <- (map_id (jack_drivers_load found)) at 2. apply map_ext_in. intros d Hd%list_elem_of_In. destruct (loaded_driver d Hd) as (x & _ & ->).
  unfold fresh. cbn. by rewrite added_unset.
Qed.

Lemma kept_start : kept (create_controller default found).
Proof.
  split; cbn.
  - reflexivity.
  - apply loaded_fresh.
  - repeat constructor.
  - apply Forall_forall. intros d Hd. destruct (loaded_driver d Hd) as (x & _ & ->). cbn. unfold jackctl_add_driver_parameters. apply Forall_map, Forall_forall. done.
  - unfold create_controller. cbn. unfold jack_controller_find_driver. destruct (list_find _ _) as [[j d]|] eqn:E; cbn; [|done].
    apply list_find_Some in E as [-> _]. by eexists.
Qed.

(** ** Loading what was saved *)

Lemma names_shape {A} (f : A -> string) (g : A -> A) l l' : (forall x, f (g x) = f x) -> map g l = l' -> map f l = map f l'.
Proof. intros E <-. rewrite map_map. by apply map_ext. Qed.

Lemma kept_names ct : found_ok -> kept ct ->
  map pm_name (ct_parameters ct) = map pm_name server_parameters /\ map dr_name (ct_drivers ct) = map dr_name (jack_drivers_load found) /\
  forall d, d ∈ ct_drivers ct -> exists x, x ∈ found /\ dr_name d = x.1 /\ map pm_name (dr_parameters d) = map ds_name x.2.
Proof.
  intros Fo [K1 K2 K3 K4 K5]. split_and!; [by apply (names_shape pm_name unset)|by apply (names_shape dr_name fresh)|].
  intros d Hd. destruct (loaded_driver (fresh d)) as (x & Hx & E); [rewrite <- K2; by apply list_elem_of_fmap_2|]. exists x. split; [done|].
  split; [exact (f_equal dr_name E)|]. rewrite <- names_unset. rewrite (f_equal dr_parameters E : map unset (dr_parameters d) = _).
  cbn. unfold jackctl_add_driver_parameters. by rewrite map_map.
Qed.

Lemma kept_ok ct : found_ok -> kept ct -> controller_ok ct.
Proof.
  intros Fo K. destruct (kept_names ct Fo K) as (Np & Nd & Hd). destruct K as [K1 K2 K3 K4 K5]. split.
  - split; [|by apply holds_ok]. rewrite Np. apply (bool_decide_unpack _). vm_compute. exact I.
  - rewrite Np. apply (bool_decide_unpack _). vm_compute. exact I.
  - rewrite Nd. apply (drivers_load_spec [] found), NoDup_nil_2.
  - apply Forall_forall. intros d Hin. split; [|by eapply holds_ok, (proj1 (Forall_forall _ _) K4)]. destruct (Hd d Hin) as (x & Hx & _ & ->).
    by eapply (proj1 (Forall_forall _ _) Fo).
  - intros j Ej. rewrite Ej in K5. destruct K5 as [d E]. exists d. split; [done|]. destruct (Hd d) as (x & Hx & -> & _); [by eapply list_elem_of_lookup_2|].
    by eapply (proj1 (Forall_forall _ _) Fo).
Qed.

Lemma plain_names ps (ns : list string) :
  map pm_name ps = ns -> Forall (fun n => all_chars name_char n = true) ns -> Forall holds ps -> Forall plain_parameter ps.
Proof.
  intros <-. rewrite Forall_map. intros Hn Hh. apply Forall_forall. intros p Hp.
  split; [by eapply (proj1 (Forall_forall _ _) Hn)|by eapply (proj1 (Forall_forall _ _) Hh)].
Qed.

Lemma kept_plain ct : found_ok -> kept ct -> plain_controller ct.
Proof.
  intros Fo K. destruct (kept_names ct Fo K) as (Np & Nd & Hd). destruct K as [K1 K2 K3 K4 K5]. split.
  - eapply plain_names; [exact Np| |done]. apply (bool_decide_unpack _). vm_compute. exact I.
  - apply Forall_forall. intros d Hin. destruct (Hd d Hin) as (x & Hx & En & Ep).
    assert (Fx := proj1 (Forall_forall _ _) Fo x Hx). cbn beta in Fx. destruct Fx as (_ & _ & Fn & Fp).
    split; [by rewrite En|]. eapply plain_names; [exact Ep|by rewrite Forall_map|by eapply (proj1 (Forall_forall _ _) K4)].
Qed.

Lemma kept_create ct : kept ct -> create_controller default found = fresh_controller (jack_controller_find_driver default (jack_drivers_load found)) ct.
Proof. intros [K1 K2 K3 K4 K5]. unfold create_controller, fresh_controller. by rewrite K1, K2. Qed.

(** A new start finds the settings as they were, but for the note that the driver
    was chosen. *)
Lemma restart ct evs :
  found_ok -> kept ct -> parsed (settings_document ct) evs ->
  exists ct', jack_controller_create true default found evs = Some ct' /\ visible ct' = visible (ct <| ct_driver_set := true |>) /\
    Forall driver_ok (ct_drivers ct').
Proof.
  intros Fo K Hp. destruct (load_saved ct (jack_controller_find_driver default (jack_drivers_load found)) evs (kept_ok ct Fo K) Hp) as (ds & c & E & _ & R).
  eexists. unfold jack_controller_create. rewrite (kept_create ct K), E. cbn [fmap option_fmap option_map fst]. split; [done|].
  assert (Hb : map bare ds = map bare (ct_drivers ct)).
  { clear -R. induction R as [|d d' ds ds' (En & Ep & _) R IH]; [done|]. cbn. rewrite IH. unfold bare. by rewrite En, Ep. }
  split.
  - unfold visible. cbn [ct_parameters ct_drivers ct_driver ct_driver_set].
    change (ct_parameters (ct <| ct_driver_set := true |>)) with (ct_parameters ct). change (ct_drivers (ct <| ct_driver_set := true |>)) with (ct_drivers ct).
    change (ct_driver (ct <| ct_driver_set := true |>)) with (ct_driver ct). change (ct_driver_set (ct <| ct_driver_set := true |>)) with true.
    rewrite Hb, map_map. f_equal. unfold selected. pose proof (k_driver ct K) as Hk. by destruct (ct_driver ct).
  - cbn. clear -R. induction R as [|d d' ds ds' (_ & _ & ?) R IH]; by constructor.
Qed.

Section parser.
Hypothesis Hx : reads_plain_text expat.

Lemma restart_file now ct :
  found_ok -> kept ct -> timestamp_ok now ->
  exists ct', start true (Some (jack_controller_settings_save now ct)) = Some ct' /\ visible ct' = visible (ct <| ct_driver_set := true |>) /\
    Forall driver_ok (ct_drivers ct').
Proof using Hx.
  intros Fo K Ht. apply restart; [done|done|]. rewrite save_is_document. by apply Hx, document_plain, kept_plain.
Qed.

(** The file is what was saved of the settings as they are. *)
Definition file_kept (cf : configuration) : Prop :=
  forall text, cf_file cf = Some text -> exists now, timestamp_ok now /\ text = jack_controller_settings_save now (cf_controller cf).

Lemma save_after now ct ct' : visible ct' = visible ct -> jack_controller_settings_save now ct' = jack_controller_settings_save now ct.
Proof using. intros E. rewrite !save_is_document, <- (save_visible ct'), E. by rewrite save_visible. Qed.

Lemma session_kept cf : found_ok -> session cf -> kept (cf_controller cf) /\ timestamp_ok (cf_now cf) /\ file_kept cf.
Proof using Hx.
  intros Fo. induction 1 as [now Ht|cf now S (K & T & D) Ht|c r cf cf' S (K & T & D) F E|cf ct S (K & T & D) E].
  - split_and!; [apply kept_start|done|by intros ? ?].
  - by split_and!.
  - destruct (configure_saved c cf r cf' K F E) as (K' & En & [->|E']); [done|]. split_and!; [done|by rewrite En|].
    intros text Hd. exists (cf_now cf). split; [done|]. congruence.
  - cbn [cf_controller cf_file cf_now]. destruct (cf_file cf) as [text|] eqn:Ef.
    + destruct (D text Ef) as (now & Hn & ->). destruct (restart_file now _ Fo K Hn) as (ct' & E' & V & _). rewrite E in E'. injection E' as ->.
      apply (kept_driver_set true) in K. apply (proj2 (kept_visible _)) in K. rewrite <- V in K. apply (proj1 (kept_visible _)) in K.
      split_and!; [exact K|done|]. intros text' Et. cbn in Et |- *. rewrite Ef in Et. injection Et as <-. exists now. split; [done|].
      by rewrite (save_after now _ _ V).
    + injection E as <-. split_and!; [apply kept_start|done|]. intros text' Et. cbn in Et. by rewrite Ef in Et.
Qed.

(** C30: In every session whose values are plain text of less than 63 characters, the file gives
    back all settings when the process starts again, with a parser that reads plain
    text: every query has the same reply (but that the choice of the driver counts as set), and
    each driver is loaded with exactly the parameters that are set. *)
Theorem settings_roundtrip cf :
  found_ok -> session cf -> is_Some (cf_file cf) ->
  exists ct, start true (cf_file cf) = Some ct /\ Forall driver_ok (ct_drivers ct) /\
    forall c f now, is_query (ca_method c) = true ->
      fst <$> configure default c (mk_configuration ct f now) =
      fst <$> configure default c (mk_configuration (cf_controller cf <| ct_driver_set := true |>) f now).
Proof using Hx.
  intros Fo S [text Ef]. destruct (session_kept cf Fo S) as (K & _ & D). rewrite Ef. destruct (D text Ef) as (now & Hn & ->).
  destruct (restart_file now _ Fo K Hn) as (ct & E & V & O). exists ct. split; [done|]. split; [done|].
  intros c f n Hq. by apply configure_visible.
Qed.
End parser.
End session.

(** ** A session *)

Definition example_found : list (string * list jack_driver_param_desc_t) :=
  let desc n t v := mk_desc n (Ascii.ascii_of_nat 100) t v "short" "long" in
  [("dummy", [desc "rate" JackParamUInt (VUInt 48000); desc "wait" JackParamUInt (VUInt 21333)]);
   ("alsa", [desc "device" JackParamString (VString "hw:0"); desc "rate" JackParamUInt (VUInt 48000); desc "duplex" JackParamBool (VInt 1)])]%string.

Definition next (c : configure_call) (cf : configuration) : configuration := match configure "dummy" c cf with Some r => r.2 | None => cf end.

Definition set_call (a : list string) (v : dbus_value) : configure_call := mk_call SetParameterValue [AStrings a; AVariant v] true.

Definition example_calls : list configure_call :=
  [set_call ["engine"; "realtime"] (DBoolean true); set_call ["engine"; "driver"] (DString "alsa");
   set_call ["driver"; "device"] (DString "hw:1,0"); set_call ["drivers"; "alsa"; "rate"] (DUInt32 4294967295);
   set_call ["driver"; "rate"] (DInt32 5); set_call ["drivers"; "dummy"; "rate"] (DUInt32 8000); mk_call ResetParameterValue [AStrings ["driver"; "device"]] true]%string.

Definition example_now : string := "Mon Jan  2 03:04:05 2006".
Definition example_start : configuration := mk_configuration (create_controller "dummy" example_found) None example_now.
Definition example_end : configuration := fold_left (fun cf c => next c cf) example_calls example_start.

Lemma example_session : session "dummy" example_found plain_parser example_end.
Proof.
  unfold example_end. assert (S0 : session "dummy" example_found plain_parser example_start) by (constructor; reflexivity).
  assert (D : forall c cf, session "dummy" example_found plain_parser cf -> call_fits c -> is_Some (configure "dummy" c cf) -> session "dummy" example_found plain_parser (next c cf)).
  { intros c cf S F [[r cf'] E]. unfold next. rewrite E. by eapply session_call. }
  cbn [fold_left example_calls].
  repeat (apply D; [|repeat constructor; solve [vm_compute; congruence]|apply (bool_decide_unpack _); vm_compute; exact I]). exact S0.
Qed.

Lemma example_found_ok : found_ok example_found.
Proof.
  repeat (apply List.Forall_cons; [split_and!;
    [apply (bool_decide_unpack _); vm_compute; exact I|vm_compute; reflexivity|reflexivity|repeat (apply List.Forall_cons; [reflexivity|]); apply List.Forall_nil]|]).
  apply List.Forall_nil.
Qed.

Lemma settings_roundtrip_witness :
  exists ct, start "dummy" example_found plain_parser true (cf_file example_end) = Some ct /\ Forall driver_ok (ct_drivers ct) /\
    forall c f now, is_query (ca_method c) = true ->
      fst <$> configure "dummy" c (mk_configuration ct f now) =
      fst <$> configure "dummy" c (mk_configuration (cf_controller example_end <| ct_driver_set := true |>) f now).
Proof.
  apply (settings_roundtrip "dummy" example_found plain_parser plain_parser_reads example_end example_found_ok example_session).
  vm_compute. by eexists.
Defined.

(** What the interface accepts but the file cannot hold, also with a parser that reads plain
    text: a null character, which leads to an uninitialised value when it is loaded, a string of
    63 characters, behind which nothing is loaded, and the characters of tags, which
    make other settings. *)
Definition restarted (cf : configuration) : option controller := start "dummy" example_found plain_parser true (cf_file cf).

Example null_character_not_restored :
  restarted (next (set_call ["engine"; "clock-source"]%string (DByte Ascii.zero)) example_start) = None.
Proof. vm_compute. reflexivity. Qed.

Definition read_value (a : list string) (ct : controller) : option configure_reply :=
  fst <$> configure "dummy" (mk_call GetParameterValue [AStrings a] true) (mk_configuration ct None example_now).

Example longest_string_hides_settings :
  let s := String.concat EmptyString (replicate 63 "x"%string) in
  let cf := next (set_call ["drivers"; "alsa"; "rate"]%string (DUInt32 96000)) (next (set_call ["drivers"; "alsa"; "device"]%string (DString s)) example_start) in
  let read := read_value ["drivers"; "alsa"; "rate"]%string in
  read (cf_controller cf) = Some (RValue true (DUInt32 48000) (DUInt32 96000)) /\
  (restarted cf ≫= read) = Some (RValue false (DUInt32 48000) (DUInt32 48000)).
Proof. split; vm_compute; reflexivity. Qed.

Example unescaped_string_changes_settings :
  let cf := next (set_call ["drivers"; "alsa"; "device"]%string (DString injected)) example_start in
  let read := read_value ["drivers"; "alsa"; "rate"]%string in
  read (cf_controller cf) = Some (RValue false (DUInt32 48000) (DUInt32 48000)) /\
  (restarted cf ≫= read) = Some (RValue true (DUInt32 48000) (DUInt32 8000)).
Proof. split; vm_compute; reflexivity. Qed.

(** Without a selected driver two queries use a null pointer. *)
Lemma no_driver_crashes default cf :
  ct_driver (cf_controller cf) = None ->
  configure default (mk_call GetParameterValue [AStrings [PTNODE_ENGINE; ENGINE_DRIVER_PARAMETER_NAME]] true) cf = None /\
  configure default (mk_call ReadContainer [AStrings [PTNODE_DRIVER]] true) cf = None.
Proof.
  destruct cf as [[ps ds drv b] f]. cbn. intros ->. split; reflexivity.
Qed.
End ConfigureSession.
