(* ===== verification/Control.v ===== *)
(** * The control interface on D-Bus (server/jackcontroller_iface_control.c,
      jackcontroller.c)

    Starting and stopping the server and asking for its figures.  What the server
    does is a parameter; a reply that was built is replaced by a later one, as
    [call->reply] is. *)

From S2P Require Import Prelude Settings Configure.

Local Open Scope Z_scope.

Module Control.
Import Settings Configure.

Inductive method_name :=
| Exit | IsStarted | StartServer | StopServer | GetLoad | GetXruns | GetSampleRate | GetLatency | GetBufferSize | SetBufferSize | IsRealtime | ResetXruns
| OtherMethod (name : string).

Inductive server_signal := ServerStarted | ServerStopped.

Section control.
(** A floating-point number. *)
Context {double : Type}.

(** What the functions of jackctl.c with these names return, and the argument of the message if it fits. *)
Record server_calls := mk_calls {
  sc_start : nat -> bool;
  sc_stop : bool;
  sc_get_load : double;
  sc_get_xruns : Z;
  sc_get_sample_rate : Z;
  sc_get_latency : double;
  sc_get_buffer_size : Z;
  sc_set_buffer_size : Z -> bool;
  sc_is_realtime : bool;
  sc_argument : option Z
}.

Inductive answer := ANone | AEmpty | ABool (b : bool) | AUInt (u : Z) | ADouble (d : double) | AError (e : dbus_error).

(** [started] and [driver] of the controller, [g_exit_command], the answer built so
    far, and the signals. *)
Record control := mk_control {
  cn_started : bool; cn_driver : option nat; cn_exit : bool; cn_reply : answer; cn_signals : list server_signal
}.

#[local] Instance control_assignable : Assignable control :=
  fun r => mk_control (cn_started r) (cn_driver r) (cn_exit r) (cn_reply r) (cn_signals r).

Definition jack_controller_start_server (w : server_calls) (st : control) : bool * control :=
  match cn_driver st with
  | None => (false, st <| cn_reply := AError GENERIC |>)
  | Some j => if sc_start w j then (true, st <| cn_started := true |>) else (false, st)
  end.

Definition jack_controller_stop_server (w : server_calls) (st : control) : bool * control :=
  if sc_stop w then (true, st <| cn_started := false |>) else (false, st).

Definition single (a : answer) (st : control) : bool * control := (true, st <| cn_reply := a |>).

Definition if_started (st : control) (a : bool * control) : bool * control :=
  if cn_started st then a else single (AError SERVER_NOT_RUNNING) st.

(** Whether the interface has the method. *)
Definition jack_control_run_method (w : server_calls) (m : method_name) (st : control) : bool * control :=
  match m with
  | Exit => single AEmpty (st <| cn_exit := true |>)
  | IsStarted => single (ABool (cn_started st)) st
  | StartServer =>
      if cn_started st then single AEmpty st
      else let '(ok, st) := jack_controller_start_server w st in
           single AEmpty (if ok then st <| cn_signals ::= fun l => l ++ [ServerStarted] |> else st)
  | StopServer =>
      if negb (cn_started st) then single AEmpty st
      else let '(ok, st) := jack_controller_stop_server w st in
           single AEmpty (if ok then st <| cn_signals ::= fun l => l ++ [ServerStopped] |> else st)
  | GetLoad => if_started st (single (ADouble (sc_get_load w)) st)
  | GetXruns => single (AUInt (sc_get_xruns w)) st
  | GetSampleRate => if_started st (single (AUInt (sc_get_sample_rate w)) st)
  | GetLatency => if_started st (single (ADouble (sc_get_latency w)) st)
  | GetBufferSize => if_started st (single (AUInt (sc_get_buffer_size w)) st)
  | SetBufferSize =>
      if_started st
        match sc_argument w with
        | None => single (AError INVALID_ARGS) st
        | Some n => if sc_set_buffer_size w n then single AEmpty st else single (AError GENERIC) st
        end
  | IsRealtime => single (ABool (sc_is_realtime w)) st
  | ResetXruns => single AEmpty st
  | OtherMethod _ => (false, st)
  end.

(** A call, with nothing answered before. *)
Definition run (w : server_calls) (m : method_name) (st : control) : control := (jack_control_run_method w m (st <| cn_reply := ANone |>)).2.

Fixpoint run_all (calls : list (server_calls * method_name)) (st : control) : control :=
  match calls with
  | [] => st
  | (w, m) :: calls => run_all calls (run w m st)
  end.

(** The signals alternate, and tell whether the server runs. *)
Fixpoint alternate (started : bool) (l : list server_signal) : option bool :=
  match l with
  | [] => Some started
  | ServerStarted :: l => if started then None else alternate true l
  | ServerStopped :: l => if started then alternate false l else None
  end.

Lemma alternate_app b l1 l2 : alternate b (l1 ++ l2) = alternate b l1 ≫= fun c => alternate c l2.
Proof. revert b. induction l1 as [|[] l1 IH]; intros []; cbn; try done; apply IH. Qed.

Lemma run_signals w m st b : alternate b (cn_signals st) = Some (cn_started st) -> alternate b (cn_signals (run w m st)) = Some (cn_started (run w m st)).
Proof.
  intros H. unfold run. destruct st as [s d x r l], m; cbn in H |- *; try done; unfold if_started; cbn; try (by destruct s).
  - destruct s; [done|]. unfold jack_controller_start_server. cbn. destruct d as [j|]; [|done]. destruct (sc_start w j); [|done].
    cbn. by rewrite alternate_app, H.
  - destruct s; [|done]. cbn. unfold jack_controller_stop_server. destruct (sc_stop w); [|done]. cbn. by rewrite alternate_app, H.
  - destruct s; [|done]. destruct (sc_argument w) as [n|]; [|done]. by destruct (sc_set_buffer_size w n).
Qed.

(** Who follows the signals knows what [IsStarted] answers. *)
Theorem signals_tell_state w calls d x r :
  let st := run_all calls (mk_control false d x r []) in
  exists b, alternate false (cn_signals st) = Some b /\ cn_reply (run w IsStarted st) = ABool b.
Proof.
  assert (H : forall st, alternate false (cn_signals st) = Some (cn_started st) -> alternate false (cn_signals (run_all calls st)) = Some (cn_started (run_all calls st))).
  { induction calls as [|[w' m] calls IH]; intros st Hs; [done|]. apply IH. by apply run_signals. }
  intros st. exists (cn_started st). split; [|done]. by apply H.
Qed.

(** The reply to StartServer is the same whether the server was started or not. *)
Theorem start_failure_not_reported w st : cn_reply (run w StartServer st) = AEmpty.
Proof.
  unfold run. cbn. destruct st as [[] d x r l]; [done|]. cbn. unfold jack_controller_start_server. cbn. destruct d as [j|]; [|done].
  by destruct (sc_start w j).
Qed.
End control.
End Control.
