(* ===== verification/Drivers.v ===== *)
(** * The drivers of the engine (server/engine.c)

    The engine has one driver that gives the clock and a list of slave drivers.  The
    methods of drivers are code that is loaded: a [driver_world] says which of them fail, and
    the calls are a log. *)

From S2P Require Import Prelude JSList.

Local Open Scope Z_scope.

Module Drivers.
Import JSList.

Inductive driver_call := Attach (d : nat) | Detach (d : nat) | Start (d : nat) | Stop (d : nat) | Read (d : nat) | Write (d : nat) | Finish (d : nat).

#[global] Instance driver_call_eq_dec : EqDecision driver_call.
Proof. solve_decision. Defined.

(** What the methods return. *)
Record driver_world := mk_dworld {
  dw_attach : nat -> Z; dw_start : nat -> Z; dw_stop : nat -> Z; dw_read : nat -> Z; dw_write : nat -> Z
}.

(** [engine->driver], [engine->slave_drivers] and the calls made. *)
Record drivers := mk_drivers { dr_driver : option nat; dr_slaves : list nat; dr_log : list driver_call }.

#[global] Instance drivers_assignable : Assignable drivers := fun r => mk_drivers (dr_driver r) (dr_slaves r) (dr_log r).

Definition called (c : driver_call) (s : drivers) : drivers := s <| dr_log ::= fun l => l ++ [c] |>.

Section world.
Variable w : driver_world.

Definition jack_use_driver (driver : option nat) (s : drivers) : Z * drivers :=
  let s := match dr_driver s with Some d => called (Detach d) s <| dr_driver := None |> | None => s end in
  match driver with
  | None => (0, s)
  | Some d =>
      let s := called (Attach d) (s <| dr_driver := Some d |>) in
      if dw_attach w d =? 0 then (0, s) else (-1, s <| dr_driver := None |>)
  end.

Definition jack_add_slave_driver (driver : option nat) (s : drivers) : Z * drivers :=
  match driver with
  | None => (0, s)
  | Some d =>
      let s := called (Attach d) s in
      if dw_attach w d =? 0 then (0, s <| dr_slaves ::= fun l => l ++ [d] |>) else (-1, s)
  end.

Definition jack_driver_unload (d : nat) (s : drivers) : drivers := called (Finish d) s.

Definition jack_slave_driver_remove (d : nat) (s : drivers) : drivers :=
  jack_driver_unload d (called (Detach d) s <| dr_slaves ::= slist_remove d |>).

(** The loop that starts the slaves, with [failed_drivers]. *)
Definition start_slaves (l : list nat) (s : drivers) : list nat * drivers :=
  fold_left (fun r d => (if dw_start w d =? 0 then r.1 else r.1 ++ [d], called (Start d) r.2)) l ([], s).

(** [None]: there is no driver. *)
Definition jack_drivers_start (s : drivers) : option (Z * drivers) :=
  let '(failed, s) := start_slaves (dr_slaves s) s in
  let s := fold_left (fun s d => jack_slave_driver_remove d s) failed s in
  d ← dr_driver s; Some (dw_start w d, called (Start d) s).

Definition on_slaves (f : nat -> driver_call) (s : drivers) : drivers := fold_left (fun s d => called (f d) s) (dr_slaves s) s.

Definition jack_drivers_stop (s : drivers) : option (Z * drivers) :=
  d ← dr_driver s; Some (dw_stop w d, on_slaves Stop (called (Stop d) s)).

Definition jack_drivers_read (s : drivers) : option (Z * drivers) :=
  let s := on_slaves Read s in d ← dr_driver s; Some (dw_read w d, called (Read d) s).

Definition jack_drivers_write (s : drivers) : option (Z * drivers) :=
  let s := on_slaves Write s in d ← dr_driver s; Some (dw_write w d, called (Write d) s).

(** What [jack_engine_delete] does to the drivers. *)
Definition delete_drivers (s : drivers) : drivers :=
  match dr_driver s with
  | Some d => jack_driver_unload d (called (Stop d) s) <| dr_driver := None |>
  | None => s
  end.

(** ** What is called *)

Lemma on_slaves_log f s : on_slaves f s = s <| dr_log := dr_log s ++ map f (dr_slaves s) |>.
Proof.
  unfold on_slaves. generalize (dr_slaves s). intros l. revert s. induction l as [|d l IH]; intros s; cbn [fold_left map]; [rewrite app_nil_r; by destruct s|].
  rewrite IH. destruct s. cbn. by rewrite <- app_assoc.
Qed.

Lemma start_slaves_log l s :
  start_slaves l s = (filter (fun d => dw_start w d <> 0) l, s <| dr_log := dr_log s ++ map Start l |>).
Proof.
  unfold start_slaves. assert (H : forall l f s, fold_left (fun r d => (if dw_start w d =? 0 then r.1 else r.1 ++ [d], called (Start d) r.2)) l (f, s) =
    (f ++ filter (fun d => dw_start w d <> 0) l, s <| dr_log := dr_log s ++ map Start l |>)).
  { clear. induction l as [|d l IH]; intros f s; cbn [fold_left map fst snd]; [rewrite !app_nil_r; by destruct s|]. rewrite IH. f_equal.
    - destruct (Z.eqb_spec (dw_start w d) 0); [by rewrite filter_cons_False by tauto|]. by rewrite filter_cons_True, <- app_assoc.
    - destruct s. cbn. by rewrite <- app_assoc. }
  by rewrite H.
Qed.

Lemma remove_all_log l s :
  fold_left (fun s d => jack_slave_driver_remove d s) l s =
    s <| dr_slaves := fold_left (fun x d => slist_remove d x) l (dr_slaves s) |> <| dr_log := dr_log s ++ concat (map (fun d => [Detach d; Finish d]) l) |>.
Proof.
  revert s. induction l as [|d l IH]; intros s; cbn [fold_left map concat]; [rewrite app_nil_r; by destruct s|]. rewrite IH. destruct s. cbn. by rewrite <- !app_assoc.
Qed.

Lemma filter_ext_in (P Q : nat -> Prop) `{!forall x, Decision (P x), !forall x, Decision (Q x)} (l : list nat) :
  (forall x, x ∈ l -> P x <-> Q x) -> filter P l = filter Q l.
Proof.
  intros E. induction l as [|x l IH]; [done|]. rewrite !filter_cons, IH by set_solver. specialize (E x ltac:(left)).
  do 2 case_decide; tauto.
Qed.

Lemma remove_all_filter failed (l : list nat) :
  NoDup l -> fold_left (fun x d => slist_remove d x) failed l = filter (fun x => x ∉ failed) l.
Proof.
  revert l. induction failed as [|d failed IH]; intros l N; cbn [fold_left].
  - symmetry. apply filter_all. set_solver.
  - rewrite slist_remove_filter, IH, list_filter_filter by (done || by apply NoDup_filter). apply filter_ext_in. set_solver.
Qed.

(** Starting the drivers starts every slave, in order, removes those that failed from the
    list and unloads them, and starts the master last; exactly the slaves that run are
    left. *)
Theorem drivers_start_correct s d :
  dr_driver s = Some d -> NoDup (dr_slaves s) ->
  let failed := filter (fun x => dw_start w x <> 0) (dr_slaves s) in
  exists s', jack_drivers_start s = Some (dw_start w d, s') /\ dr_driver s' = Some d /\
    dr_slaves s' = filter (fun x => dw_start w x = 0) (dr_slaves s) /\
    dr_log s' = dr_log s ++ map Start (dr_slaves s) ++ concat (map (fun x => [Detach x; Finish x]) failed) ++ [Start d].
Proof.
  intros Ed N failed. unfold jack_drivers_start. rewrite start_slaves_log, remove_all_log. destruct s as [dr sl lg]. cbn in *. subst dr. cbn.
  eexists. split; [reflexivity|]. cbn. split; [done|]. split; [|by rewrite <- !app_assoc]. rewrite remove_all_filter by done.
  apply filter_ext_in. intros y Hy. unfold failed. rewrite list_elem_of_filter. destruct (decide (dw_start w y = 0)); tauto.
Qed.

(** In the cycles that follow, the slaves that run are read and written before the master,
    and no driver that failed is called. *)
Lemma read_log s d : dr_driver s = Some d -> jack_drivers_read s = Some (dw_read w d, s <| dr_log := dr_log s ++ map Read (dr_slaves s) ++ [Read d] |>).
Proof.
  intros E. unfold jack_drivers_read. rewrite on_slaves_log. destruct s as [dr sl lg]. cbn in *. subst dr. cbn [mbind option_bind]. by rewrite app_assoc.
Qed.

Lemma write_log s d : dr_driver s = Some d -> jack_drivers_write s = Some (dw_write w d, s <| dr_log := dr_log s ++ map Write (dr_slaves s) ++ [Write d] |>).
Proof.
  intros E. unfold jack_drivers_write. rewrite on_slaves_log. destruct s as [dr sl lg]. cbn in *. subst dr. cbn [mbind option_bind]. by rewrite app_assoc.
Qed.

Lemma stop_log s d : dr_driver s = Some d -> jack_drivers_stop s = Some (dw_stop w d, s <| dr_log := dr_log s ++ Stop d :: map Stop (dr_slaves s) |>).
Proof.
  intros E. unfold jack_drivers_stop. rewrite E. cbn [mbind option_bind]. rewrite on_slaves_log. destruct s as [dr sl lg]. cbn. by rewrite <- app_assoc.
Qed.

(** The driver is replaced: the one before is detached, and one that cannot be
    attached is not used. *)
Theorem use_driver_correct s d r s' :
  jack_use_driver (Some d) s = (r, s') ->
  dr_slaves s' = dr_slaves s /\
  dr_log s' = dr_log s ++ match dr_driver s with Some o => [Detach o] | None => [] end ++ [Attach d] /\
  (r = 0 /\ dw_attach w d = 0 /\ dr_driver s' = Some d \/ r = -1 /\ dw_attach w d <> 0 /\ dr_driver s' = None).
Proof.
  unfold jack_use_driver. destruct s as [[o|] sl lg]; cbn; destruct (Z.eqb_spec (dw_attach w d) 0); intros [= <- <-]; cbn;
    (split; [done|]); (split; [by rewrite <- ?app_assoc|]); tauto.
Qed.

(** Deleting the engine stops and unloads the master; the slaves are neither stopped nor unloaded. *)
Theorem delete_forgets_slaves s :
  let s' := delete_drivers s in
  dr_slaves s' = dr_slaves s /\ forall x, dr_driver s <> Some x -> (Stop x ∈ dr_log s' -> Stop x ∈ dr_log s) /\ (Finish x ∈ dr_log s' -> Finish x ∈ dr_log s).
Proof.
  destruct s as [[d|] sl lg]; cbn; (split; [done|]); intros x Hx; [|done]. split; intros H; apply elem_of_app in H as [H|H]; set_solver.
Qed.
End world.
End Drivers.
