(* ===== verification/MessageBuffer.v ===== *)
(** * The message buffer (libjack/messagebuffer.c)

    Realtime threads leave their messages in a ring of 128 buffers; a thread of its own
    prints them.  A writer only tries the lock; the printing thread holds it when it
    waits, but not when it prints.  A client can have a function called in the printing
    thread and wait for it.  Every step below is one access to the shared variables, or
    several under the lock; the steps of all threads interleave in any order. *)

From S2P Require Import Prelude.

Local Open Scope Z_scope.

Module MessageBuffer.

Definition MB_BUFFERS : Z := 128.
Definition MB_BUFFERSIZE : Z := 256.
Definition MB_NEXT (index : Z) : Z := Z.land (index + 1) (MB_BUFFERS - 1).

(** Who holds [mb_write_lock], and where in [jack_messagebuffer_add] a writer is, or
    where in [jack_messagebuffer_thread_init] a client, which has the lock before and
    after it waits. *)
Inductive lock := Free | Locked (msg : string) | Copied (msg : string) | Advanced | ByThread | ByInit (waited : bool).

(** Where the printing thread is: before it has locked for the first time, in
    [pthread_cond_wait], woken with the lock, at the head of the loop of [mb_flush], behind
    [jack_info], or gone; when it is gone, [jack_messagebuffer_exit] calls [mb_flush] in
    its place. *)
Inductive thread := Starting | Waiting | Woken | Flushing | Printed (last : bool) | Gone.

(** The variables of the file, and what was printed.  A null [mb_thread_init_callback] is 0.
    [mb_initing] counts those that wait in [jack_messagebuffer_thread_init].  Two are
    history variables: [mb_added], the messages that were put into the ring, and
    [mb_called], the functions called in the printing thread with their arguments. *)
Record messagebuffer := mk_mb {
  mb_buffers : list string; mb_initialized : bool; mb_inbuffer : Z; mb_outbuffer : Z; mb_overruns : Z;
  mb_lock : lock; mb_thread : thread; mb_output : list string; mb_added : list string;
  mb_thread_init_callback : Z; mb_thread_init_callback_arg : Z; mb_initing : nat; mb_called : list (Z * Z)
}.

#[global] Instance messagebuffer_assignable : Assignable messagebuffer :=
  fun r => mk_mb (mb_buffers r) (mb_initialized r) (mb_inbuffer r) (mb_outbuffer r) (mb_overruns r) (mb_lock r) (mb_thread r) (mb_output r) (mb_added r)
    (mb_thread_init_callback r) (mb_thread_init_callback_arg r) (mb_initing r) (mb_called r).

(** [vsnprintf] with the size of a buffer. *)
Definition truncated (s : string) : string := String.substring 0 (Z.to_nat (MB_BUFFERSIZE - 1)) s.

Inductive event :=
| Try (s : string)      (* pthread_mutex_trylock, with the formatted message *)
| Copy                  (* strncpy *)
| Advance               (* mb_inbuffer = MB_NEXT(mb_inbuffer) and the signal *)
| Unlock
| Wake                  (* the thread returns from pthread_cond_wait *)
| Release               (* and unlocks *)
| Print                 (* mb_outbuffer != mb_inbuffer, jack_info *)
| Next                  (* mb_outbuffer = MB_NEXT(mb_outbuffer) *)
| Relock                (* lock, when the ring is empty or at first, and wait or leave *)
| Exit                  (* jack_messagebuffer_exit up to pthread_join *)
| Callback              (* the woken thread calls mb_thread_init_callback *)
| InitLock              (* jack_messagebuffer_thread_init: lock *)
| InitWait (cb arg : Z) (* set the callback, signal, pthread_cond_wait releases the lock *)
| InitWake              (* return from pthread_cond_wait *)
| InitUnlock.

Definition jack_messagebuffer_init : messagebuffer :=
  mk_mb (replicate (Z.to_nat MB_BUFFERS) EmptyString) true 0 0 0 Free Starting [] [] 0 0 0 [].

(** The steps of [jack_messagebuffer_add]. *)
Definition jack_messagebuffer_add (ev : event) (s : messagebuffer) : option messagebuffer :=
  match ev, mb_lock s with
  | Try m, Free => Some (if mb_initialized s then s <| mb_lock := Locked (truncated m) |> else s)
  | Try m, _ => Some (if mb_initialized s then s <| mb_overruns ::= fun n => n + 1 |> else s)
  | Copy, Locked m =>
      _ ← mb_buffers s !! Z.to_nat (mb_inbuffer s);
      Some (s <| mb_buffers ::= fun l => <[Z.to_nat (mb_inbuffer s) := m]> l |> <| mb_lock := Copied m |>)
  | Advance, Copied m => Some (s <| mb_inbuffer ::= MB_NEXT |> <| mb_lock := Advanced |> <| mb_added ::= fun l => l ++ [m] |>)
  | Unlock, Advanced => Some (s <| mb_lock := Free |>)
  | _, _ => None
  end.

(** The condition of the loop and [jack_info]. *)
Definition mb_print (last : bool) (s : messagebuffer) : option messagebuffer :=
  if mb_outbuffer s =? mb_inbuffer s then None
  else m ← mb_buffers s !! Z.to_nat (mb_outbuffer s); Some (s <| mb_output ::= fun l => l ++ [m] |> <| mb_thread := Printed last |>).

(** The steps of [mb_flush]. *)
Definition mb_flush (ev : event) (s : messagebuffer) : option messagebuffer :=
  match ev, mb_thread s with
  | Print, Flushing => mb_print false s
  | Print, Gone => mb_print true s
  | Next, Printed last => Some (s <| mb_outbuffer ::= MB_NEXT |> <| mb_thread := if last then Gone else Flushing |>)
  | _, _ => None
  end.

(** The other steps of [mb_thread_func]; waiting may end without a signal. *)
Definition mb_thread_func (ev : event) (s : messagebuffer) : option messagebuffer :=
  match ev, mb_thread s, mb_lock s with
  | Wake, Waiting, Free => Some (s <| mb_lock := ByThread |> <| mb_thread := Woken |>)
  | Callback, Woken, ByThread =>
      if mb_thread_init_callback s =? 0 then None
      else Some (s <| mb_called ::= fun l => l ++ [(mb_thread_init_callback s, mb_thread_init_callback_arg s)] |> <| mb_thread_init_callback := 0 |>)
  | Release, Woken, ByThread =>
      if mb_thread_init_callback s =? 0 then Some (s <| mb_lock := Free |> <| mb_thread := Flushing |>) else None
  | Relock, Starting, Free => Some (s <| mb_thread := if mb_initialized s then Waiting else Gone |>)
  | Relock, Flushing, Free =>
      if mb_outbuffer s =? mb_inbuffer s then Some (s <| mb_thread := if mb_initialized s then Waiting else Gone |>) else None
  | _, _, _ => None
  end.

Definition jack_messagebuffer_exit (s : messagebuffer) : option messagebuffer :=
  match mb_lock s with Free => Some (s <| mb_initialized := false |>) | _ => None end.

(** The steps of [jack_messagebuffer_thread_init]; waiting may end without a signal, and
    with the signal that a writer sent. *)
Definition jack_messagebuffer_thread_init (ev : event) (s : messagebuffer) : option messagebuffer :=
  match ev, mb_lock s with
  | InitLock, Free => Some (s <| mb_lock := ByInit false |>)
  | InitWait cb arg, ByInit false =>
      Some (s <| mb_thread_init_callback_arg := arg |> <| mb_thread_init_callback := cb |> <| mb_initing ::= S |> <| mb_lock := Free |>)
  | InitWake, Free => match mb_initing s with O => None | S n => Some (s <| mb_initing := n |> <| mb_lock := ByInit true |>) end
  | InitUnlock, ByInit true => Some (s <| mb_lock := Free |>)
  | _, _ => None
  end.

Definition step (ev : event) (s : messagebuffer) : option messagebuffer :=
  match ev with
  | Try _ | Copy | Advance | Unlock => jack_messagebuffer_add ev s
  | Print | Next => mb_flush ev s
  | Wake | Callback | Release | Relock => mb_thread_func ev s
  | Exit => jack_messagebuffer_exit s
  | InitLock | InitWait _ _ | InitWake | InitUnlock => jack_messagebuffer_thread_init ev s
  end.

Fixpoint steps (evs : list event) (s : messagebuffer) : option messagebuffer :=
  match evs with
  | [] => Some s
  | ev :: evs => s ← step ev s; steps evs s
  end.

(** ** Runs in which the printing thread keeps up

    A message is copied only when fewer than 127 are in the ring; nothing in the code
    sees to that. *)
Definition room (ev : event) (s : messagebuffer) : bool :=
  match ev with Copy => (mb_inbuffer s - mb_outbuffer s) mod MB_BUFFERS <? MB_BUFFERS - 1 | _ => true end.

Inductive run : messagebuffer -> Prop :=
| run_start : run jack_messagebuffer_init
| run_step ev s s' : run s -> room ev s = true -> step ev s = Some s' -> run s'.

Lemma next_mod i n : 0 <= n -> i = n mod 128 -> MB_NEXT i = (n + 1) mod 128.
Proof.
  intros Hn ->. unfold MB_NEXT, MB_BUFFERS. change (128 - 1) with (Z.ones 7). rewrite Z.land_ones by lia. change (2 ^ 7) with 128.
  by rewrite Zplus_mod_idemp_l.
Qed.

(** [n] messages have been passed over. *)
Record ok (n : nat) (s : messagebuffer) : Prop := mk_ok {
  ok_length : length (mb_buffers s) = 128%nat;
  ok_out : mb_outbuffer s = Z.of_nat n mod 128;
  ok_in : mb_inbuffer s = Z.of_nat (length (mb_added s)) mod 128;
  ok_count : (n <= length (mb_added s) < n + 128)%nat;
  ok_copied : match mb_lock s with Copied m => (length (mb_added s) < n + 127)%nat /\ mb_buffers s !! Z.to_nat (mb_inbuffer s) = Some m | _ => True end;
  ok_slots : forall i m, (n <= i)%nat -> mb_added s !! i = Some m -> mb_buffers s !! Z.to_nat (Z.of_nat i mod 128) = Some m;
  ok_output : match mb_thread s with
              | Printed _ => (n < length (mb_added s))%nat /\ mb_output s = take (S n) (mb_added s)
              | _ => mb_output s = take n (mb_added s)
              end
}.

Lemma slot_differs (i j : nat) : (i < j < i + 128)%nat -> Z.to_nat (Z.of_nat i mod 128) <> Z.to_nat (Z.of_nat j mod 128).
Proof.
  intros H E. pose proof (Z.mod_pos_bound (Z.of_nat i) 128). pose proof (Z.mod_pos_bound (Z.of_nat j) 128).
  pose proof (Z.div_mod (Z.of_nat i) 128). pose proof (Z.div_mod (Z.of_nat j) 128). lia.
Qed.

Lemma add_ok n ev s s' : ok n s -> room ev s = true -> jack_messagebuffer_add ev s = Some s' -> ok n s'.
Proof.
  intros [K1 K2 K3 K4 K5 K6 K7] Hr. unfold jack_messagebuffer_add.
  destruct ev as [m| | | | | | | | | | | | | |]; try done.
  - destruct (mb_lock s) eqn:El; destruct (mb_initialized s); intros [= <-]; by split; cbn; rewrite ?El.
  - destruct (mb_lock s) as [|m| | | |] eqn:El; try done. destruct (mb_buffers s !! Z.to_nat (mb_inbuffer s)) as [x|] eqn:Ex; [|done].
    cbn [mbind option_bind]. intros [= <-]. cbn in Hr. apply Z.ltb_lt in Hr.
    assert (Hc : (length (mb_added s) < n + 127)%nat).
    { rewrite K2, K3 in Hr. unfold MB_BUFFERS in Hr. rewrite <- Zminus_mod, <- Nat2Z.inj_sub in Hr by lia.
      rewrite Z.mod_small in Hr by lia. lia. }
    split; cbn; try done.
    + by rewrite length_insert.
    + split; [done|]. apply list_lookup_insert_eq. by eapply lookup_lt_Some.
    + intros i m' Hi Hm. rewrite list_lookup_insert_ne; [by apply K6|]. rewrite K3. apply lookup_lt_Some in Hm. intros E. symmetry in E.
      revert E. apply slot_differs. lia.
  - destruct (mb_lock s) as [| |m| | |] eqn:El; try done. intros [= <-]. destruct K5 as [Hc Hm]. split; cbn; try done.
    + rewrite length_app. cbn. rewrite (next_mod _ (Z.of_nat (length (mb_added s)))) by lia. f_equal. lia.
    + rewrite length_app. cbn. lia.
    + intros i x Hi [Hx|[Hl Hx]]%lookup_app_Some; [by apply K6|]. apply list_lookup_singleton_Some in Hx as [E <-].
      replace i with (length (mb_added s)) by lia. by rewrite <- K3.
    + destruct (mb_thread s); rewrite ?length_app, take_app_le by lia; cbn; intuition lia.
  - destruct (mb_lock s) eqn:El; try done. intros [= <-]. by split.
Qed.

Lemma mb_flush_ok n ev s s' : ok n s -> mb_flush ev s = Some s' -> exists n', ok n' s'.
Proof.
  intros [K1 K2 K3 K4 K5 K6 K7]. unfold mb_flush.
  assert (P : forall last, mb_output s = take n (mb_added s) -> mb_print last s = Some s' -> exists n', ok n' s').
  { intros last Ho. unfold mb_print. destruct (Z.eqb_spec (mb_outbuffer s) (mb_inbuffer s)) as [|Hne]; [done|].
    destruct (mb_buffers s !! Z.to_nat (mb_outbuffer s)) as [x|] eqn:Ex; [|done]. cbn [mbind option_bind].
    intros [= <-]. exists n. assert (Hn : (n < length (mb_added s))%nat).
    { destruct (decide (n = length (mb_added s))) as [E|]; [|lia]. exfalso. apply Hne. by rewrite K2, K3, E. }
    destruct (lookup_lt_is_Some_2 (mb_added s) n Hn) as [m Hm]. pose proof (K6 n m ltac:(lia) Hm) as Hs. rewrite <- K2, Ex in Hs. injection Hs as ->.
    split; cbn; try done. split; [done|]. rewrite Ho. by rewrite (take_S_r _ _ _ Hm). }
  destruct ev as [m| | | | | | | | | | | | | |], (mb_thread s) as [| | | |last|] eqn:Et; try done; [by apply P..|].
  intros [= <-]. destruct K7 as [Hn K7]. exists (S n). split; cbn; try done.
  - rewrite (next_mod _ (Z.of_nat n)) by lia. f_equal. lia.
  - lia.
  - destruct (mb_lock s); try done. destruct K5. split; [lia|done].
  - intros i m Hi. apply K6. lia.
  - by destruct last.
Qed.

Lemma thread_ok n ev s s' : ok n s -> mb_thread_func ev s = Some s' -> ok n s'.
Proof.
  intros [K1 K2 K3 K4 K5 K6 K7]. unfold mb_thread_func. destruct ev, (mb_thread s) eqn:Et; try done; destruct (mb_lock s) eqn:El; try done;
    try (destruct (_ =? _); try done); intros [= <-]; split; cbn; rewrite ?El, ?Et; try done; by destruct (mb_initialized s).
Qed.

Lemma thread_init_ok n ev s s' : ok n s -> jack_messagebuffer_thread_init ev s = Some s' -> ok n s'.
Proof.
  intros [K1 K2 K3 K4 K5 K6 K7]. unfold jack_messagebuffer_thread_init. destruct ev; try done; destruct (mb_lock s) as [| | | | |[]] eqn:El; try done;
    try (destruct (mb_initing s); [done|]); intros [= <-]; by split; cbn; rewrite ?El.
Qed.

Lemma run_ok s : run s -> exists n, ok n s.
Proof.
  induction 1 as [|ev s s' R [n K] Hr E].
  - exists 0%nat. split; cbn; try done. lia.
  - destruct ev; cbn [step] in E; try (exists n; by eapply add_ok); try (exists n; by eapply thread_ok); try (exists n; by eapply thread_init_ok); try (by eapply mb_flush_ok).
    revert E. unfold jack_messagebuffer_exit. destruct (mb_lock s) eqn:El; try done. intros [= <-]. exists n. destruct K as [K1 K2 K3 K4 K5 K6 K7].
    by split; cbn; rewrite ?El.
Qed.


(** ** A run, and one that is too fast *)

Definition add_message (m : string) : list event := [Try m; Copy; Advance; Unlock].

Definition example_events : list event :=
  [Relock] ++ add_message "one" ++ [Wake; Try "lost"; Release; Print] ++ add_message "two" ++ [Next; Print; Next; Relock]%string.

(** The steps, as long as there is room. *)
Fixpoint steps_with_room (evs : list event) (s : messagebuffer) : option messagebuffer :=
  match evs with
  | [] => Some s
  | ev :: evs => if room ev s then s ← step ev s; steps_with_room evs s else None
  end.

Lemma run_steps evs s s' : run s -> steps_with_room evs s = Some s' -> run s'.
Proof.
  revert s. induction evs as [|ev evs IH]; intros s R E; [by injection E as <-|]. cbn in E. destruct (room ev s) eqn:Er; [|done].
  destruct (step ev s) as [s1|] eqn:E1; [|done]. apply (IH s1); [by eapply run_step|done].
Qed.

Definition example_state : messagebuffer := default jack_messagebuffer_init (steps_with_room example_events jack_messagebuffer_init).


Example example_messages :
  mb_output example_state = ["one"; "two"]%string /\ mb_overruns example_state = 1 /\ mb_thread example_state = Waiting.
Proof. split_and!; vm_compute; reflexivity. Qed.

(** Nothing keeps the writers from overtaking the printing thread: 128 messages
    make the ring look empty, and none of them is printed or counted as lost. *)
Example messages_vanish :
  exists s, steps ([Relock] ++ concat (replicate 128 (add_message "hello"%string)) ++ [Wake; Release]) jack_messagebuffer_init = Some s /\
    length (mb_added s) = 128%nat /\ mb_output s = [] /\ mb_overruns s = 0 /\ step Print s = None.
Proof. eexists. split; [vm_compute; reflexivity|]. split_and!; vm_compute; reflexivity. Qed.

(** A client has a function called in the printing thread and goes on after that; when the
    signal of a writer wakes the client, it goes on before. *)
Example thread_init_waits :
  exists s, steps [Relock; InitLock; InitWait 7 8; Wake; Callback; Release; InitWake; InitUnlock] jack_messagebuffer_init = Some s /\
    mb_called s = [(7, 8)] /\ mb_initing s = 0%nat.
Proof. eexists. split; [vm_compute; reflexivity|]. split_and!; vm_compute; reflexivity. Qed.

Example thread_init_returns_early :
  exists s, steps ([Relock; InitLock; InitWait 7 8] ++ add_message "hello"%string ++ [InitWake; InitUnlock]) jack_messagebuffer_init = Some s /\
    mb_called s = [] /\ mb_initing s = 0%nat /\ mb_lock s = Free.
Proof. eexists. split; [vm_compute; reflexivity|]. split_and!; vm_compute; reflexivity. Qed.

(** A message that comes before the thread waits for the first time is not printed until the next one. *)
Example first_signal_lost :
  exists s, steps (add_message "hello"%string ++ [Relock]) jack_messagebuffer_init = Some s /\
    mb_thread s = Waiting /\ mb_output s = [] /\ length (mb_added s) = 1%nat.
Proof. eexists. split; [vm_compute; reflexivity|]. split_and!; vm_compute; reflexivity. Qed.
End MessageBuffer.
