(* ===== verification/BitSet.v ===== *)
(** * Bit sets (jack/bitset.h)

    A set is an array of 32-bit words whose first word is the number of elements
    allowed.  [None] is a failed assertion or an access outside of the array. *)

From S2P Require Import Prelude.

Local Open Scope Z_scope.

Module BitSet.

Notation bitset_t := (list Z).

(** The macros, in the arithmetic of [unsigned int]. *)
Definition WORD_SIZE (cardinality : Z) : Z := u32 (1 + u32 (cardinality + 31) / 32).
Definition WORD_INDEX (element : Z) : Z := u32 (1 + element / 32).
Definition BIT_INDEX (element : Z) : Z := Z.land element 31.

(** [1 << BIT_INDEX(element)], converted to a word. *)
Definition bit (element : Z) : Z := Z.shiftl 1 (BIT_INDEX element).

Definition word (set : bitset_t) (i : Z) : option Z := set !! Z.to_nat i.

(** The word of an element, after the assertion. *)
Definition word_of (set : bitset_t) (element : Z) : option Z :=
  n ← word set 0; if element <? n then word set (WORD_INDEX element) else None.

Definition bitset_create (cardinality : Z) : option bitset_t :=
  match repeat 0 (Z.to_nat (WORD_SIZE cardinality)) with
  | [] => None
  | _ :: words => Some (cardinality :: words)
  end.

Definition bitset_add (set : bitset_t) (element : Z) : option bitset_t :=
  w ← word_of set element; Some (<[Z.to_nat (WORD_INDEX element) := Z.lor w (bit element)]> set).

Definition bitset_remove (set : bitset_t) (element : Z) : option bitset_t :=
  w ← word_of set element; Some (<[Z.to_nat (WORD_INDEX element) := Z.land w (2 ^ 32 - 1 - bit element)]> set).

Definition bitset_contains (set : bitset_t) (element : Z) : option bool :=
  w ← word_of set element; Some (negb (0 =? Z.land w (bit element))).

(** The words [memcpy] takes from [from_set]. *)
Definition bitset_copy (to_set from_set : bitset_t) : option bitset_t :=
  n ← word to_set 0; m ← word from_set 0;
  let size := Z.to_nat (WORD_SIZE n) in
  if (n =? m) && bool_decide (size <= length from_set)%nat && bool_decide (size <= length to_set)%nat
  then Some (take size from_set ++ drop size to_set) else None.

(** The loop over the words [i], [i + 1], ... *)
Fixpoint or_words (set : bitset_t) (i : Z) (count : nat) (result : Z) : option Z :=
  match count with
  | O => Some result
  | S count => w ← word set i; or_words set (i + 1) count (Z.lor result w)
  end.

Definition bitset_empty (set : bitset_t) : option bool :=
  n ← word set 0; r ← or_words set 1 (Z.to_nat (WORD_SIZE n) - 1) 0; Some (r =? 0).

(** ** The elements of a set

    [rep] relates a set to the finite set of its elements. *)
Definition has (set : bitset_t) (e : Z) : bool := Z.testbit (set !!! Z.to_nat (1 + e / 32)) (e mod 32).

Record rep (set : bitset_t) (n : Z) (s : gset Z) : Prop := mk_rep {
  r_cardinality : set !! 0%nat = Some n;
  r_range : 0 <= n < 2 ^ 32 - 31;
  r_length : length set = Z.to_nat (1 + (n + 31) / 32);
  r_words : forall i w, (0 < i)%nat -> set !! i = Some w -> 0 <= w < 2 ^ 32;
  r_elements : forall e, e ∈ s <-> 0 <= e /\ e / 32 < (n + 31) / 32 /\ has set e = true;
  r_bound : forall e, e ∈ s -> e < n
}.

Lemma word_size n : 0 <= n < 2 ^ 32 - 31 -> WORD_SIZE n = 1 + (n + 31) / 32.
Proof.
  intros H. unfold WORD_SIZE. rewrite (wrap_small 32 (n + 31)) by lia. pose proof (Z.div_pos (n + 31) 32).
  assert ((n + 31) / 32 < 2 ^ 28) by (apply Z.div_lt_upper_bound; lia). apply wrap_small. lia.
Qed.

Lemma word_index e : 0 <= e < 2 ^ 32 -> WORD_INDEX e = 1 + e / 32.
Proof.
  intros H. unfold WORD_INDEX. assert (e / 32 < 2 ^ 28) by (apply Z.div_lt_upper_bound; lia). pose proof (Z.div_pos e 32). apply wrap_small. lia.
Qed.

Lemma bit_index e : 0 <= e -> BIT_INDEX e = e mod 32.
Proof. intros H. unfold BIT_INDEX. change 31 with (Z.ones 5). by rewrite Z.land_ones. Qed.

Lemma bit_testbit e i : 0 <= e -> Z.testbit (bit e) i = bool_decide (i = e mod 32).
Proof.
  intros H. unfold bit. rewrite bit_index, Z.shiftl_1_l by done. pose proof (Z.mod_pos_bound e 32). case_bool_decide as E.
  - subst i. apply Z.pow2_bits_true. lia.
  - apply Z.pow2_bits_false. done.
Qed.

Lemma word_of_element set n s e : rep set n s -> 0 <= e < n -> exists w, word_of set e = Some w /\ set !! Z.to_nat (1 + e / 32) = Some w /\ 0 <= w < 2 ^ 32.
Proof.
  intros [R1 R2 R3 R4 R5 R6] He. assert (Hd : 0 <= e / 32 < (n + 31) / 32).
  { split; [apply Z.div_pos; lia|]. apply Z.div_lt_upper_bound; [lia|]. pose proof (Z.div_mod (n + 31) 32). pose proof (Z.mod_pos_bound (n + 31) 32). lia. }
  destruct (lookup_lt_is_Some_2 set (Z.to_nat (1 + e / 32))) as [w Hw]; [lia|]. exists w. split; [|split; [done|eapply (R4 (Z.to_nat (1 + e / 32))); [lia|done]]].
  unfold word_of, word. change (Z.to_nat 0) with 0%nat. rewrite R1. cbn [mbind option_bind]. rewrite (proj2 (Z.ltb_lt _ _)), word_index by lia. done.
Qed.

Lemma land_bit w e : 0 <= e -> (0 =? Z.land w (bit e)) = negb (Z.testbit w (e mod 32)).
Proof.
  intros He. destruct (Z.testbit w (e mod 32)) eqn:E; cbn [negb].
  - apply Z.eqb_neq. intros H. apply (f_equal (fun z => Z.testbit z (e mod 32))) in H.
    rewrite Z.land_spec, E, bit_testbit, bool_decide_true, Z.testbit_0_l in H by done. done.
  - apply Z.eqb_eq. symmetry. apply Z.bits_inj. intros i. rewrite Z.land_spec, bit_testbit, Z.testbit_0_l by done.
    case_bool_decide; [|apply andb_false_r]. subst i. by rewrite E.
Qed.

Lemma contains_rep set n s e : rep set n s -> 0 <= e < n -> bitset_contains set e = Some (bool_decide (e ∈ s)).
Proof.
  intros R He. destruct (word_of_element set n s e R He) as (w & Ew & Hw & _). unfold bitset_contains. rewrite Ew. cbn [mbind option_bind].
  rewrite land_bit, negb_involutive by lia. f_equal.
  assert (Hh : has set e = Z.testbit w (e mod 32)) by (unfold has; by rewrite (list_lookup_total_correct _ _ _ Hw)).
  assert (e / 32 < (n + 31) / 32).
  { apply lookup_lt_Some in Hw. rewrite (r_length _ _ _ R) in Hw. pose proof (Z.div_pos e 32). lia. }
  rewrite <- Hh. destruct (has set e) eqn:E; symmetry; [apply bool_decide_true|apply bool_decide_false]; rewrite (r_elements _ _ _ R); intuition (try lia; congruence).
Qed.

(** ** Changes *)

Lemma has_insert set n s e w w' e' b :
  rep set n s -> 0 <= e < n -> set !! Z.to_nat (1 + e / 32) = Some w ->
  (forall i, 0 <= i < 32 -> Z.testbit w' i = if decide (i = e mod 32) then b else Z.testbit w i) ->
  0 <= e' -> e' / 32 < (n + 31) / 32 ->
  has (<[Z.to_nat (1 + e / 32) := w']> set) e' = if decide (e' = e) then b else has set e'.
Proof.
  intros R He Hw Hb He' Hd. unfold has. pose proof (Z.div_pos e 32). pose proof (Z.div_pos e' 32). pose proof (Z.mod_pos_bound e' 32).
  pose proof (Z.div_mod e 32). pose proof (Z.div_mod e' 32).
  destruct (decide (e' / 32 = e / 32)) as [Eq|Ne].
  - rewrite Eq, list_lookup_total_insert_eq by (by eapply lookup_lt_Some). rewrite Hb, (list_lookup_total_correct _ _ _ Hw) by lia.
    destruct (decide (e' mod 32 = e mod 32)), (decide (e' = e)); try done; [lia|congruence].
  - rewrite list_lookup_total_insert_ne by lia. rewrite decide_False by congruence. done.
Qed.

Lemma update_rep set n s e w w' (b : bool) :
  rep set n s -> 0 <= e < n -> set !! Z.to_nat (1 + e / 32) = Some w -> 0 <= w' < 2 ^ 32 ->
  (forall i, 0 <= i < 32 -> Z.testbit w' i = if decide (i = e mod 32) then b else Z.testbit w i) ->
  rep (<[Z.to_nat (1 + e / 32) := w']> set) n (if b then {[e]} ∪ s else s ∖ {[e]}).
Proof.
  intros R He Hw Hw' Hb. pose proof R as [R1 R2 R3 R4 R5 R6]. pose proof (Z.div_pos e 32).
  assert (Hde : e / 32 < (n + 31) / 32) by (apply lookup_lt_Some in Hw; lia). split.
  - by rewrite list_lookup_insert_ne by lia.
  - done.
  - by rewrite length_insert.
  - intros i x Hi [(<- & <- & _)|[_ Hx]]%list_lookup_insert_Some; [done|by eapply R4].
  - intros e'. assert (Hs : e' ∈ (if b then {[e]} ∪ s else s ∖ {[e]}) <-> if decide (e' = e) then b = true else e' ∈ s).
    { destruct b; case_decide; set_solver. }
    rewrite Hs. split.
    + intros Hin. assert (0 <= e' /\ e' / 32 < (n + 31) / 32) as [? ?].
      { case_decide; [subst; lia|]. apply R5 in Hin. lia. }
      split; [done|]. split; [done|]. rewrite (has_insert set n s e w w' e' b) by done. case_decide; [done|]. by apply R5.
    + intros (? & ? & Hh). rewrite (has_insert set n s e w w' e' b) in Hh by done. case_decide; [done|]. by apply R5.
  - intros e'. assert (Hs : e' ∈ (if b then {[e]} ∪ s else s ∖ {[e]}) -> e' = e \/ e' ∈ s) by (destruct b; set_solver).
    intros [->|?]%Hs; [lia|by apply R6].
Qed.

Lemma word_bound w : 0 <= w -> (forall i, 32 <= i -> Z.testbit w i = false) -> w < 2 ^ 32.
Proof.
  intros H B. replace w with (Z.land w (Z.ones 32)).
  - rewrite Z.land_ones by lia. apply Z.mod_pos_bound. lia.
  - apply Z.bits_inj'. intros i Hi. rewrite Z.land_spec, Z.testbit_ones_nonneg by lia.
    destruct (Z.ltb_spec i 32); [apply andb_true_r|]. by rewrite B.
Qed.

Lemma high_bits w i : 0 <= w < 2 ^ 32 -> 32 <= i -> Z.testbit w i = false.
Proof.
  intros H Hi. destruct (Z.eq_dec w 0) as [->|]; [apply Z.testbit_0_l|]. apply Z.bits_above_log2; [lia|].
  apply Z.lt_le_trans with 32; [|done]. apply Z.log2_lt_pow2; lia.
Qed.

Lemma mask_testbit e i : 0 <= e -> 0 <= i < 32 -> Z.testbit (2 ^ 32 - 1 - bit e) i = negb (bool_decide (i = e mod 32)).
Proof.
  intros He Hi. change (2 ^ 32 - 1) with (Z.ones 32). rewrite Z.sub_nocarry_ldiff.
  - rewrite Z.ldiff_spec, bit_testbit, Z.testbit_ones_nonneg, (proj2 (Z.ltb_lt _ _)) by lia. done.
  - apply Z.bits_inj'. intros j Hj. rewrite Z.ldiff_spec, bit_testbit, Z.testbit_ones_nonneg, Z.testbit_0_l by lia.
    pose proof (Z.mod_pos_bound e 32). case_bool_decide; [|done]. rewrite (proj2 (Z.ltb_lt _ _)) by lia. done.
Qed.

Lemma bit_nonneg e : 0 <= bit e.
Proof. unfold bit. apply Z.shiftl_nonneg. lia. Qed.

Lemma add_rep set n s e : rep set n s -> 0 <= e < n -> exists set', bitset_add set e = Some set' /\ rep set' n ({[e]} ∪ s).
Proof.
  intros R He. destruct (word_of_element set n s e R He) as (w & Ew & Hw & Bw). unfold bitset_add. rewrite Ew, word_index by (pose proof (r_range _ _ _ R); lia).
  eexists. split; [reflexivity|]. apply (update_rep set n s e w _ true R He Hw).
  - pose proof (bit_nonneg e). assert (0 <= Z.lor w (bit e)) by (apply Z.lor_nonneg; lia). split; [done|]. apply word_bound; [done|]. intros i Hi.
    rewrite Z.lor_spec, high_bits, bit_testbit by lia. pose proof (Z.mod_pos_bound e 32). rewrite bool_decide_false by lia. done.
  - intros i Hi. rewrite Z.lor_spec, bit_testbit by lia. case_decide; [by rewrite bool_decide_true, orb_true_r|by rewrite bool_decide_false, orb_false_r].
Qed.

Lemma remove_rep set n s e : rep set n s -> 0 <= e < n -> exists set', bitset_remove set e = Some set' /\ rep set' n (s ∖ {[e]}).
Proof.
  intros R He. destruct (word_of_element set n s e R He) as (w & Ew & Hw & Bw). unfold bitset_remove. rewrite Ew, word_index by (pose proof (r_range _ _ _ R); lia).
  eexists. split; [reflexivity|]. apply (update_rep set n s e w _ false R He Hw).
  - assert (0 <= Z.land w (2 ^ 32 - 1 - bit e)) by (apply Z.land_nonneg; lia). split; [done|]. apply word_bound; [done|]. intros i Hi.
    rewrite Z.land_spec, high_bits by done. done.
  - intros i Hi. rewrite Z.land_spec, mask_testbit by lia. case_decide; [by rewrite bool_decide_true, andb_false_r|by rewrite bool_decide_false, andb_true_r].
Qed.

Lemma create_rep n : 0 <= n < 2 ^ 32 - 31 -> exists set, bitset_create n = Some set /\ rep set n ∅.
Proof.
  intros H. unfold bitset_create. rewrite word_size by done. pose proof (Z.div_pos (n + 31) 32).
  replace (Z.to_nat (1 + (n + 31) / 32)) with (S (Z.to_nat ((n + 31) / 32))) by lia. cbn [repeat]. eexists. split; [reflexivity|].
  assert (W : forall i w, (0 < i)%nat -> (n :: repeat 0 (Z.to_nat ((n + 31) / 32))) !! i = Some w -> w = 0).
  { intros [|i] w Hi Hw; [lia|]. cbn in Hw. apply list_elem_of_lookup_2, list_elem_of_In, repeat_spec in Hw. done. }
  split.
  - done.
  - done.
  - cbn. rewrite repeat_length. lia.
  - intros i w Hi Hw. rewrite (W i w Hi Hw). lia.
  - intros e. split; [set_solver|]. intros (He & Hd & Hh). unfold has in Hh. pose proof (Z.div_pos e 32).
    destruct (lookup_lt_is_Some_2 (n :: repeat 0 (Z.to_nat ((n + 31) / 32))) (Z.to_nat (1 + e / 32))) as [w Hw]; [cbn; rewrite repeat_length; lia|].
    assert (w = 0) as -> by (apply (W (Z.to_nat (1 + e / 32))); [lia|done]).
    rewrite (list_lookup_total_correct _ _ _ Hw), Z.testbit_0_l in Hh. done.
  - set_solver.
Qed.

(** ** Copies and emptiness *)

Lemma copy_rep to_set from_set n s s' : rep to_set n s' -> rep from_set n s -> bitset_copy to_set from_set = Some from_set.
Proof.
  intros R' R. unfold bitset_copy, word. change (Z.to_nat 0) with 0%nat. rewrite (r_cardinality _ _ _ R), (r_cardinality _ _ _ R'). cbn [mbind option_bind].
  rewrite word_size by apply R. pose proof (r_length _ _ _ R) as L. pose proof (r_length _ _ _ R') as L'.
  rewrite Z.eqb_refl, !bool_decide_true by lia. cbn [andb]. rewrite <- L at 1. rewrite firstn_all, drop_ge, app_nil_r by lia. done.
Qed.

Lemma or_words_spec set i count r :
  0 <= r -> 0 <= i -> (Z.to_nat i + count <= length set)%nat -> (forall j w, (Z.to_nat i <= j)%nat -> set !! j = Some w -> 0 <= w) ->
  exists r', or_words set i count r = Some r' /\ 0 <= r' /\
    (r' = 0 <-> r = 0 /\ forall j w, (Z.to_nat i <= j < Z.to_nat i + count)%nat -> set !! j = Some w -> w = 0).
Proof.
  revert i r. induction count as [|count IH]; intros i r Hr Hi Hl Hn; cbn [or_words].
  { exists r. split; [done|]. split; [done|]. split; [|tauto]. intros ->. split; [done|]. intros. lia. }
  unfold word. destruct (lookup_lt_is_Some_2 set (Z.to_nat i)) as [w Hw]; [lia|]. rewrite Hw. cbn [mbind option_bind].
  assert (0 <= w) by (eapply Hn; [|done]; lia). replace (Z.to_nat (i + 1)) with (S (Z.to_nat i)) in IH by lia.
  destruct (IH (i + 1) (Z.lor r w)) as (r' & -> & Hr' & E); [apply Z.lor_nonneg; lia|lia|lia|intros j x Hj; apply Hn; lia|].
  exists r'. split; [done|]. split; [done|]. rewrite E, Z.lor_eq_0_iff. split.
  - intros ([-> ->] & Hz). split; [done|]. intros j x Hj Hx. destruct (decide (j = Z.to_nat i)) as [->|]; [congruence|]. apply (Hz j x); [lia|done].
  - intros [-> Hz]. split; [split; [done|]|]; [apply (Hz (Z.to_nat i) w); [lia|done]|]. intros j x Hj. apply Hz. lia.
Qed.

Lemma empty_rep set n s : rep set n s -> bitset_empty set = Some (bool_decide (s = ∅)).
Proof.
  intros R. pose proof R as [R1 R2 R3 R4 R5 R6]. unfold bitset_empty, word. change (Z.to_nat 0) with 0%nat. rewrite R1. cbn [mbind option_bind].
  rewrite word_size by done. pose proof (Z.div_pos (n + 31) 32).
  destruct (or_words_spec set 1 (Z.to_nat (1 + (n + 31) / 32) - 1) 0) as (r & -> & Hr & E); [lia..|intros j w Hj Hw; eapply (R4 j w); [lia|done]|].
  cbn [mbind option_bind]. f_equal. apply eq_true_iff_eq. rewrite Z.eqb_eq, bool_decide_eq_true, E. change (Z.to_nat 1) with 1%nat. split.
  - intros [_ Hz]. apply set_eq. intros e. rewrite R5. split; [|set_solver]. intros (He & Hd & Hh). exfalso. unfold has in Hh. pose proof (Z.div_pos e 32).
    destruct (lookup_lt_is_Some_2 set (Z.to_nat (1 + e / 32))) as [w Hw]; [lia|].
    rewrite (list_lookup_total_correct _ _ _ Hw), (Hz (Z.to_nat (1 + e / 32)) w) in Hh; [by rewrite Z.testbit_0_l in Hh|lia|done].
  - intros ->. split; [done|]. intros j w Hj Hw. apply Z.bits_inj'. intros i Hi. rewrite Z.testbit_0_l.
    pose proof (R4 j w ltac:(lia) Hw) as Bw. destruct (Z.le_gt_cases 32 i) as [Hh|Hh]; [by apply high_bits|].
    destruct (Z.testbit w i) eqn:Eb; [exfalso|done]. apply (not_elem_of_empty (C := gset Z) (32 * (Z.of_nat j - 1) + i)). apply R5.
    assert (Ed : (32 * (Z.of_nat j - 1) + i) / 32 = Z.of_nat j - 1) by (rewrite Z.mul_comm, Z.div_add_l, Z.div_small by lia; lia).
    split; [lia|]. split; [lia|]. unfold has. rewrite Ed. replace (Z.to_nat (1 + (Z.of_nat j - 1))) with j by lia.
    rewrite (list_lookup_total_correct _ _ _ Hw). rewrite (Z.add_comm (32 * _)), (Z.mul_comm 32), Z_mod_plus_full, Z.mod_small by lia. done.
Qed.

(** ** Refinement of finite sets *)

Inductive op := Add (e : Z) | Remove (e : Z) | Contains (e : Z) | Empty.

Definition run_op (set : bitset_t) (o : op) : option (bitset_t * option bool) :=
  match o with
  | Add e => set ← bitset_add set e; Some (set, None)
  | Remove e => set ← bitset_remove set e; Some (set, None)
  | Contains e => b ← bitset_contains set e; Some (set, Some b)
  | Empty => b ← bitset_empty set; Some (set, Some b)
  end.

(** The same on a finite set. *)
Definition spec_op (s : gset Z) (o : op) : gset Z * option bool :=
  match o with
  | Add e => ({[e]} ∪ s, None)
  | Remove e => (s ∖ {[e]}, None)
  | Contains e => (s, Some (bool_decide (e ∈ s)))
  | Empty => (s, Some (bool_decide (s = ∅)))
  end.

Definition in_range (n : Z) (o : op) : Prop := match o with Add e | Remove e | Contains e => 0 <= e < n | Empty => True end.

Fixpoint run_ops (set : bitset_t) (os : list op) : option (list (option bool)) :=
  match os with
  | [] => Some []
  | o :: os => r ← run_op set o; rs ← run_ops r.1 os; Some (r.2 :: rs)
  end.

Fixpoint spec_ops (s : gset Z) (os : list op) : list (option bool) :=
  match os with
  | [] => []
  | o :: os => let r := spec_op s o in r.2 :: spec_ops r.1 os
  end.

Lemma run_ops_refine set n s os : rep set n s -> Forall (in_range n) os -> run_ops set os = Some (spec_ops s os).
Proof.
  intros R F. revert set s R. induction F as [|o os Ho F IH]; intros set s R; [done|]. cbn [run_ops spec_ops].
  assert (exists set', run_op set o = Some (set', (spec_op s o).2) /\ rep set' n (spec_op s o).1) as (set' & -> & R').
  { destruct o as [e|e|e|]; cbn [run_op spec_op in_range fst snd] in *.
    - destruct (add_rep set n s e R Ho) as (set' & -> & R'). by exists set'.
    - destruct (remove_rep set n s e R Ho) as (set' & -> & R'). by exists set'.
    - rewrite (contains_rep set n s e R Ho). by exists set.
    - rewrite (empty_rep set n s R). by exists set. }
  cbn [mbind option_bind fst snd]. by rewrite (IH set' _ R').
Qed.

(** A new bit set answers every sequence of operations as the empty finite set does. *)
Theorem bitset_refines_set n os :
  0 <= n < 2 ^ 32 - 31 -> Forall (in_range n) os -> (bitset_create n ≫= fun set => run_ops set os) = Some (spec_ops ∅ os).
Proof. intros H F. destruct (create_rep n H) as (set & -> & R). by apply (run_ops_refine set n). Qed.

Lemma bitset_refines_set_witness :
  let os := [Add 31; Add 32; Contains 31; Remove 31; Contains 31; Contains 32; Empty; Remove 32; Empty] in
  (bitset_create 33 ≫= fun set => run_ops set os) = Some (spec_ops ∅ os).
Proof. intros os. apply (bitset_refines_set 33); [lia|]. repeat constructor; lia. Defined.

(** For the largest cardinalities the size wraps around: there is no word for the
    elements, and the first operation writes outside of the array. *)
Theorem bitset_size_wraps n : 2 ^ 32 - 31 <= n < 2 ^ 32 -> bitset_create n = Some [n] /\ bitset_add [n] 0 = None.
Proof.
  intros H. assert (E : WORD_SIZE n = 1).
  { unfold WORD_SIZE. replace (u32 (n + 31)) with (n + 31 - 2 ^ 32) by (unfold wrap; rewrite mod_once by lia; done).
    rewrite Z.div_small by lia. done. }
  unfold bitset_create. rewrite E. split; [done|]. unfold bitset_add, word_of. change (word [n] 0) with (Some n). cbn [mbind option_bind].
  by destruct (0 <? n).
Qed.
End BitSet.
